(* ===== verification/_CoqProject ===== *)
-Q . S2P
Prelude.v
Regex.v
JsNum.v
Dates.v
JsVal.v
JsonText.v
Hash.v
Sha256.v
Canonical.v
Keyed.v
AuditChain.v
ChainModes.v
WebBase64.v
Redact.v
Event.v
Demo.v
Commit.v
SameData.v
GovernedChange.v
GovernedSafety.v
Retention.v
ExportBundle.v
BundleVerify.v
Binary64.v
RiskScore.v
RiskPolicy.v
RiskBounds.v
PolicyBounds.v
Episode.v
EpisodeBounds.v
Doubles.v
RiskAssertion.v
RiskAssertionSafety.v
Provenance.v
ProvenanceSafety.v
RecordSchema.v
SameRecords.v
ExportBundle2.v
Bundle2Verify.v
DeliverySafety.v
Store.v
StoreHistory.v
FileStore.v
FileSafety.v
SessionReplay.v
Outbox.v
OutboxFile.v
OutboxHistory.v
OutboxSafety.v
Dispatcher.v
DispatchBounds.v
Delivery.v
HostCalls.v
StagingArchive.v
ObjectArchive.v
SealedSegments.v
ObjectKeys.v
Coordinator.v
RetentionHost.v
ArchiveHistory.v
ArchiveSafety.v
ArchiveDrain.v
ArchiveSound.v
CoordinatorSafety.v
EpochOrder.v
GatewayConfig.v
Gateway.v
GatewayHealth.v
GatewayProxy.v
GatewayDemo.v
GatewaySafety.v
GatewayStream.v
GatewayEvidence.v
ConfigSafety.v
GatewayCost.v
ShipOut.v
ShipOutSafety.v
HttpIngest.v
HttpIngestSafety.v
