(* ===== verification/Prelude.v ===== *)
(** * Veritio: a verification library for the TypeScript evidence layer

    Veritio records what applications and agents do as tamper-evident evidence:
    events and edges are redacted, canonicalized, hashed and linked into one chain
    per tenant, committed to in Merkle trees, exported as verifiable bundles,
    retired under signed checkpoints, archived and shipped to other stores. This
    library models that code as it is written and proves what it guarantees. Paths
    are below [src/]; [T/] stands for [sdks/typescript/src/], [S/] for
    [storage/src/] and [G/] for [gateway/src/].

    ** How the parts of the program interact

    Everything rests on [canonicalJson] of T/index.ts: it makes a text of a value,
    whose SHA-256 is the hash of an event, an edge, a record, a commit, a
    checkpoint. [createAuditEvent] and [createEvidenceEdge] turn host input into
    evidence after redacting its metadata. A store (in memory: T/index.ts, on
    files: S/file-store.ts) gives the evidence a sequence number and the hash of
    the record before it; the verifiers replay the chain. Retention cuts a prefix
    off a chain: T/retention.ts makes the checkpoint that stands for it, the
    coordinator and the staging archive of S/ move it, and S/object-archive-chain.ts
    keeps it cold. Bundles (T/export-bundle.ts, T/export-bundle-v2.ts) export the
    parts with a verifier that needs nothing else. Governed changes, provenance
    sessions and risk assessments (T/governed-change.ts, provenance.ts, risk.ts)
    are builders of events and edges for a recorder. The gateway (G/) decides and
    forwards requests to AI providers, records the outcome of each, and ships the
    records through the outbox and dispatcher of S/.

    ** The language

    - [Prelude]: exceptions ([exc]) with the tactics that invert their steps, and
      lemmas on lists, strings and sorting.
    - [Regex], [JsNum], [JsVal], [JsonText], [Dates], [WebBase64]: what the sources
      use of JavaScript. Untrusted values are [val]; an object is the list of its
      own properties in the order the language enumerates them. Characters are
      those below 256. JSON numbers are shortest decimals ([JsNum]); numbers that
      are computed with are binary64 ([Binary64]; [Doubles] converts).
    - [Hash], [Sha256]: the digest as the interface [Hasher], and SHA-256 as an
      instance of it. No theorem assumes that collisions do not exist: where one
      matters, the conclusion offers it explicitly ([Collision]).
    - [Keyed]: the loop of all verifiers, one state per tenant or stream.
    - [HostCalls]: programs as trees of calls of their host, for code whose every
      step is a call; a crash is a prefix of the calls.
    - [Demo], [GatewayDemo], [RetentionHost]: concrete hosts for the witnesses.

    ** The components

    - T/index.ts: [Canonical] (canonicalJson, normalizeForJson), [AuditChain] (the
      hashes and the chain verifiers), [Redact] (redactMetadata), [Event]
      (createAuditEvent, createEvidenceEdge), [Commit] (evidence commits and their
      Merkle root), [Store] (MemoryAuditStore, its state a record and every
      operation a transition), with [SameData] and [StoreHistory] for theorems.
    - T/export-bundle-chain-modes.ts, export-bundle-deps.ts: [ChainModes].
    - T/retention.ts: [Retention].
    - T/export-bundle.ts: [ExportBundle], theorems in [BundleVerify].
    - T/export-bundle-v2.ts: [RecordSchema], [ExportBundle2]; theorems in
      [SameRecords], [Bundle2Verify].
    - T/risk-score.ts, risk-policy.ts: [RiskScore], [RiskPolicy]; theorems in
      [RiskBounds], [PolicyBounds], [Episode], [EpisodeBounds].
    - T/governed-change.ts: [GovernedChange], theorems in [GovernedSafety].
    - T/risk.ts: [RiskAssertion], theorems in [RiskAssertionSafety].
    - T/provenance.ts: [Provenance], theorems in [ProvenanceSafety]; [SessionReplay]
      runs its sessions on the file store.
    - S/file-store.ts: [FileStore], theorems in [FileSafety].
    - S/delivery-safety.ts, outbox-types.ts, outbox-shared.ts, outbox-file.ts:
      [DeliverySafety], [Outbox], [OutboxFile]; [OutboxHistory], [OutboxSafety].
    - S/outbox-dispatcher.ts: [Dispatcher]; [DispatchBounds]; [Delivery] runs it
      over the file adapter.
    - S/ingest-target.ts: [HttpIngest], theorems in [HttpIngestSafety].
    - S/retention-staging-archive.ts, retention-coordinator.ts: [StagingArchive],
      [Coordinator]; [ObjectKeys], [CoordinatorSafety], [EpochOrder].
    - S/object-archive-chain.ts, object-archive.ts: [ObjectArchive]; the theorems
      are in [SealedSegments], [ArchiveHistory], [ArchiveSafety], [ArchiveDrain]
      and [ArchiveSound].
    - G/config.ts: [GatewayConfig], [ConfigSafety]. G/policy.ts, keys.ts, usage.ts,
      pricing.ts, evidence.ts: [Gateway], [GatewayEvidence], [GatewayCost].
      G/health.ts and runMaintenance of G/server.ts: [GatewayHealth]. G/proxy.ts:
      [GatewayProxy]; [GatewaySafety], [GatewayStream]. G/shipout.ts,
      shipout-runtime.ts: [ShipOut], [ShipOutSafety].

    Operations keep the names of the functions they model. State that the code
    keeps in maps and fields is a record; a transition returns the next state or
    throws, and then the state is the old one where the code checks before it
    writes. Randomness, clocks and the answers of the host are arguments, streams
    or calls. Code that is suspended while it awaits (the maintenance pass, event
    streams, the delivery runtime) is a state machine on its suspension points, so
    that everything else interleaves with it.

    ** What the theorems show

    - Chains: the verifiers accept exactly the chains of the specification
      ([verifyRecords_spec], [verifyEvidenceCommits_spec]); every history of a store
      leaves chains that verify ([listed_records_verify], [files_verify]), also
      where a process dies between two lines; nothing is dropped but below a
      checkpoint ([store_append_only]).
    - Text and hashes: canonical texts read back as what was canonicalized
      ([canonicalJson_roundtrip]), and a tip hash binds the whole chain
      ([tip_hash_commits]); redaction hides what stands under sensitive keys
      ([redactMetadata_noninterference]).
    - Bundles: a built bundle verifies, and one that verifies accounts for every
      record it claims.
    - Retention and archives: records are dropped only after the archive was read
      back, deletion comes after the disposition is prepared and before it is
      confirmed; sealing is atomic, whatever was sealed replays to the verdict of the
      chain verifier, a replay that succeeds proves what it listed and read, and
      draining archives all of a history.
    - Outbox and delivery: a tenant has one active lease, whatever clocks the workers
      claim with; a row is settled after
      the target has it or an endpoint accepted it ([http_settled_after_ok]), the
      rolling window is never exceeded, an answer's text stays out of the state
      ([verdict_sanitized]), one canary runs.
    - Gateway: only entitled requests are forwarded, every request is accounted
      for, the event of an outcome says all of it, a stream's outcome is that of its
      ending, credentials do not reach evidence or replies, the cost is exact, a
      failed sink shuts the gate, and of its outcomes each is recorded in order,
      queued, or gone.
    - Builders: drafts depend on what the capture policies let through only, bind
      it, and are accepted by the SDK; callers cannot shadow session, episode or
      context; retried sessions return their first records and write nothing, or stop
      at a lock that is not released; assertions are well formed.
    - Scores: bounds, termination, and the window count of frequency rules.

    Where two parts meet, theorems are proved against an interface: [Remembers]
    (recorder and store, in [SessionReplay]), [OutboxAdapterLaws] and
    [EvidenceTargetLaws] (dispatcher, outbox and target), [Hasher], [TextDecoder],
    [Host], and the calls of [HostCalls].

    ** Bounds and fuel

    Recursion is structural almost everywhere. [Regex] derives once per character.
    The lock of the file store tries 500 times after the first, the code's limit.
    [merkle_loop] has the number of leaves as fuel, which halving never uses up;
    the parser of JSON ([parse_fuel]) has twice the length of its text, and a
    nested call is on a shorter text or follows a consumed bracket; the stream reader and the window of a rule
    have the length of what they walk through, which gets shorter with every turn.
    Draining takes its fuel as an argument, and [drain_archives_history] says how
    much is enough. The decay of a rollup is counted to the number of its windows,
    and the model returns [None] above 2^53, where the code's counter stands still
    and its loop never ends ([rollup_returns] gives the policies that avoid it).
    Sequence numbers are exact below 2^53, as JavaScript's are.

    ** Not modelled

    - T/templates.ts: a catalogue of event inputs, mostly data. T/version.ts: a
      constant.
    - S/index.ts, outbox-sql.ts, clickhouse-read-model.ts: SQL, Redis, MongoDB and
      ClickHouse, whose meaning is that of services outside the repository; the interfaces they implement are modelled by the in-memory
      store, the file store and the file outbox. S/conformance.ts and
      retention-conformance.ts are tests.
    - Of G/server.ts the sockets, signals and file watching; of every component
      directories, file handles and network connections: their effects are
      arguments or calls.
    - server/node/, cli/, adapters/, examples/: handlers, HTML, argument parsing and
      glue of frameworks around the components above. sdks/python and sdks/go are
      ports of the same protocol in other languages.
    - Values the code never meets or cannot tell apart: accessors and proxies,
      strings beyond the characters below 256, negative zero in JSON data. *)

From stdpp Require Export base list list_numbers strings gmap option sorting.
From Stdlib Require Export ZArith Lia Ascii.
From Stdlib Require String.

Global Set Default Proof Using "Type".

(** ** Exceptional results

    Code that may throw returns [exc A]: the value, or the message of the
    [TypeError]/[Error] it throws. *)
Inductive exc (A : Type) : Type :=
| Ret (a : A)
| Throw (msg : string).
Arguments Ret {A} _.
Arguments Throw {A} _.

#[global] Instance exc_mret : MRet exc := @Ret.
#[global] Instance exc_mbind : MBind exc := λ A B f m,
  match m with Ret a => f a | Throw e => Throw e end.
#[global] Instance exc_fmap : FMap exc := λ A B f m,
  match m with Ret a => Ret (f a) | Throw e => Throw e end.

(** A statement that throws [msg] unless [b] holds. *)
Definition guard_exc (b : bool) (msg : string) : exc unit :=
  if b then Ret tt else Throw msg.

Definition is_ret {A} (m : exc A) : bool :=
  match m with Ret _ => true | Throw _ => false end.

(** [try { ... } catch { return d; }] *)
Definition catch {A} (m : exc A) (d : A) : A :=
  match m with Ret a => a | Throw _ => d end.

Definition exc_to_option {A} (m : exc A) : option A :=
  match m with Ret a => Some a | Throw _ => None end.

(** [xs.map(f)] where [f] may throw: the first element that throws wins. *)
Section MapE.
Context {A B : Type} (f : A → exc B).
Fixpoint mapE (xs : list A) : exc (list B) :=
  match xs with
  | [] => Ret []
  | x :: xs => y ← f x; ys ← mapE xs; Ret (y :: ys)
  end.
End MapE.

Lemma Ret_inj {A} (a b : A) : Ret a = Ret b → a = b.
Proof. congruence. Qed.

(** ** Tactics *)

(** Case analysis on the scrutinee of the first [match]/[if] of the goal or
    of a hypothesis, keeping the equation. *)
Ltac case_exc :=
  match goal with
  | H : context [match ?x with _ => _ end] |- _ =>
      lazymatch x with
      | context [match _ with _ => _ end] => fail
      | _ => let E := fresh "E" in destruct x eqn:E; simplify_eq/=
      end
  | |- context [match ?x with _ => _ end] =>
      lazymatch x with
      | context [match _ with _ => _ end] => fail
      | _ => let E := fresh "E" in destruct x eqn:E; simplify_eq/=
      end
  end.

(** Turns boolean facts into propositions. *)
Ltac bool_prop :=
  repeat match goal with
  | H : _ && _ = true |- _ => apply andb_true_iff in H as [? ?]
  | H : _ || _ = false |- _ => apply orb_false_iff in H as [? ?]
  | H : negb _ = true |- _ => apply negb_true_iff in H
  | H : negb _ = false |- _ => apply negb_false_iff in H
  | H : Is_true _ |- _ => apply Is_true_eq_true in H
  | H : bool_decide _ = true |- _ => apply bool_decide_eq_true in H
  | H : bool_decide _ = false |- _ => apply bool_decide_eq_false in H
  | H : (_ =? _)%Z = true |- _ => apply Z.eqb_eq in H
  | H : (_ =? _)%Z = false |- _ => apply Z.eqb_neq in H
  | H : (_ <? _)%Z = true |- _ => apply Z.ltb_lt in H
  | H : (_ <? _)%Z = false |- _ => apply Z.ltb_ge in H
  | H : (_ <=? _)%Z = true |- _ => apply Z.leb_le in H
  | H : (_ <=? _)%Z = false |- _ => apply Z.leb_gt in H
  | H : String.eqb _ _ = true |- _ => apply String.eqb_eq in H
  | H : String.eqb _ _ = false |- _ => apply String.eqb_neq in H
  end.

(** The division equation and the remainder's bounds, for a positive [n]. *)
Ltac div_facts x n :=
  pose proof (Z.div_mod x n ltac:(lia)); pose proof (Z.mod_pos_bound x n ltac:(lia)).

(** Splits a successful computation into its steps. *)
Ltac inv_ret :=
  repeat match goal with
  | H : Ret _ = Ret _ |- _ => apply Ret_inj in H
  | H : Throw _ = Ret _ |- _ => discriminate H
  | H : Ret _ = Throw _ |- _ => discriminate H
  | H : guard_exc ?b _ = Ret _ |- _ =>
      let E := fresh "G" in destruct b eqn:E; [clear H | discriminate H]
  | H : guard_exc ?b _ = Throw _ |- _ =>
      let E := fresh "G" in destruct b eqn:E; [discriminate H |]
  | H : mbind _ ?m = Ret _ |- _ =>
      let E := fresh "E" in destruct m eqn:E; [cbn in H | discriminate H]
  | H : fmap _ ?m = Ret _ |- _ =>
      let E := fresh "E" in destruct m eqn:E; [cbn in H | discriminate H]
  | u : unit |- _ => destruct u
  end; simplify_eq.

(** ** Lemmas on [exc] *)

Lemma bind_ret {A B} (m : exc A) (f : A → exc B) b :
  (m ≫= f) = Ret b ↔ ∃ a, m = Ret a ∧ f a = Ret b.
Proof.
  split; [|intros (a & -> & H); exact H].
  destruct m as [a|e]; cbn; [by exists a | discriminate].
Qed.

Lemma guard_ret b msg : guard_exc b msg = Ret tt ↔ b = true.
Proof. destruct b; cbn; split; congruence. Qed.

Lemma is_ret_spec {A} (m : exc A) : is_ret m = true ↔ ∃ a, m = Ret a.
Proof.
  destruct m as [a|e]; cbn; [by split; [exists a|]|].
  split; [discriminate | intros [? ?]; discriminate].
Qed.

Lemma mapE_Forall2 {A B} (f : A → exc B) xs ys :
  mapE f xs = Ret ys ↔ Forall2 (λ x y, f x = Ret y) xs ys.
Proof.
  revert ys. induction xs as [|x xs IH]; intros ys; cbn.
  - split; [intros [= <-]; constructor | by inversion 1].
  - split.
    + intros H. inv_ret. constructor; [done | by apply IH].
    + inversion 1 as [|? y ? ys' Hx Hxs]; subst. rewrite Hx; cbn.
      by rewrite (proj2 (IH _) Hxs).
Qed.

Lemma mapE_ext {A B} (f g : A → exc B) xs :
  Forall (λ x, f x = g x) xs → mapE f xs = mapE g xs.
Proof. induction 1 as [|x xs Hx _ IH]; cbn; [done|]. by rewrite Hx, IH. Qed.

Lemma mapE_total {A B} (f : A → exc B) g xs :
  Forall (λ x, f x = Ret (g x)) xs → mapE f xs = Ret (g <$> xs).
Proof. induction 1 as [|x xs Hx _ IH]; cbn; [done|]. by rewrite Hx; cbn; rewrite IH. Qed.

Lemma exc_bind_assoc {A B C} (x : exc A) (f : A → exc B) (g : B → exc C) :
  ((x ≫= f) ≫= g) = (x ≫= λ a, f a ≫= g).
Proof. by destruct x. Qed.

Lemma mapE_length {A B} (f : A → exc B) xs ys :
  mapE f xs = Ret ys → length ys = length xs.
Proof. rewrite mapE_Forall2. intros H. by apply Forall2_length in H. Qed.

Lemma Forall_subset {A} (P : A → Prop) l l' : l ⊆ l' → Forall P l' → Forall P l.
Proof. rewrite !Forall_forall. auto. Qed.

(** ** Stable insertion sort: [Array.prototype.sort] with a total preorder *)
Section Sort.
Context {A : Type} (leb : A → A → bool).

Fixpoint insert_by (x : A) (l : list A) : list A :=
  match l with
  | [] => [x]
  | y :: l' => if leb x y then x :: l else y :: insert_by x l'
  end.

Fixpoint sort_by (l : list A) : list A :=
  match l with
  | [] => []
  | x :: l' => insert_by x (sort_by l')
  end.

Lemma insert_by_perm x l : insert_by x l ≡ₚ x :: l.
Proof.
  induction l as [|y l IH]; cbn; [done|]. destruct (leb x y); [done|].
  rewrite IH. constructor.
Qed.

Lemma sort_by_perm l : sort_by l ≡ₚ l.
Proof. induction l as [|x l IH]; cbn; [done|]. by rewrite insert_by_perm, IH. Qed.

Lemma sort_by_length l : length (sort_by l) = length l.
Proof. by rewrite sort_by_perm. Qed.

Lemma elem_of_sort_by x l : x ∈ sort_by l ↔ x ∈ l.
Proof. by rewrite sort_by_perm. Qed.

Hypothesis leb_total : ∀ x y, leb x y = false → leb y x = true.
Hypothesis leb_trans : ∀ x y z, leb x y = true → leb y z = true → leb x z = true.

Definition sortedb := StronglySorted (λ x y, leb x y = true).

Lemma insert_by_sorted x l : sortedb l → sortedb (insert_by x l).
Proof using leb_total leb_trans.
  induction 1 as [|y l Hl IH Hy]; cbn.
  - repeat constructor.
  - destruct (leb x y) eqn:E.
    + constructor; [by constructor|]. constructor; [done|].
      eapply Forall_impl; [exact Hy|]. intros z Hz. by eapply leb_trans.
    + constructor; [done|]. rewrite insert_by_perm. constructor; [by apply leb_total|done].
Qed.

Lemma sort_by_sorted l : sortedb (sort_by l).
Proof using leb_total leb_trans.
  induction l as [|x l IH]; cbn; [constructor | by apply insert_by_sorted].
Qed.

Lemma insert_by_id x l :
  Forall (λ y, leb x y = true) l → insert_by x l = x :: l.
Proof. destruct 1 as [|y l H _]; cbn; [done|]. by rewrite H. Qed.

Lemma sort_by_id l : sortedb l → sort_by l = l.
Proof.
  induction 1 as [|x l Hl IH Hx]; cbn; [done|]. by rewrite IH, insert_by_id.
Qed.

(** Two sorted permutations agree when the order is antisymmetric on them. *)
Lemma sorted_perm_eq l1 l2 :
  (∀ x y, x ∈ l1 → y ∈ l1 → leb x y = true → leb y x = true → x = y) →
  sortedb l1 → sortedb l2 → l1 ≡ₚ l2 → l1 = l2.
Proof.
  intros Hanti H1. revert l2. induction H1 as [|x l Hl IH Hx]; intros l2 H2 Hp.
  - by apply Permutation_nil_l in Hp.
  - destruct H2 as [|y l2 Hl2 Hy].
    { by apply Permutation_nil_r in Hp. }
    assert (x = y) as <-.
    { assert (y ∈ x :: l) as Hyin by (rewrite Hp; left).
      assert (x ∈ y :: l2) as Hxin by (rewrite <- Hp; left).
      apply elem_of_cons in Hyin as [->|Hyin]; [done|].
      apply elem_of_cons in Hxin as [->|Hxin]; [done|].
      apply Hanti; [by left | by right | |].
      - by eapply Forall_forall in Hx.
      - by eapply Forall_forall in Hy. }
    f_equal. apply IH; [|done|].
    + intros a b Ha Hb. apply Hanti; by right.
    + by eapply Permutation_cons_inv.
Qed.
End Sort.

(** ** Strings *)

Lemma string_app_nil_r s : s +:+ "" = s.
Proof. induction s as [|c s IH]; [done|]. change (String c (s +:+ "") = String c s). by rewrite IH. Qed.

Lemma string_app_assoc s1 s2 s3 : s1 +:+ (s2 +:+ s3) = (s1 +:+ s2) +:+ s3.
Proof.
  induction s1 as [|c s1 IH]; [done|].
  change (String c (s1 +:+ (s2 +:+ s3)) = String c ((s1 +:+ s2) +:+ s3)). by rewrite IH.
Qed.

Lemma string_app_cons c s1 s2 : String c s1 +:+ s2 = String c (s1 +:+ s2).
Proof. done. Qed.

Lemma string_app_inj_l s s1 s2 : s +:+ s1 = s +:+ s2 → s1 = s2.
Proof. induction s as [|c s IH]; [done|]. rewrite !string_app_cons. intros [= H]. by apply IH. Qed.

Lemma string_length_app s1 s2 :
  String.length (s1 +:+ s2) = (String.length s1 + String.length s2)%nat.
Proof. induction s1 as [|c s1 IH]; [done|]. rewrite string_app_cons; cbn. by rewrite IH. Qed.

(** Byte/code-unit lists and strings. *)
Fixpoint chars (s : string) : list ascii :=
  match s with EmptyString => [] | String c s => c :: chars s end.

Fixpoint of_chars (l : list ascii) : string :=
  match l with [] => EmptyString | c :: l => String c (of_chars l) end.

Lemma of_chars_chars s : of_chars (chars s) = s.
Proof. induction s; cbn; congruence. Qed.

Lemma chars_of_chars l : chars (of_chars l) = l.
Proof. induction l; cbn; congruence. Qed.

Lemma of_chars_app l1 l2 : of_chars (l1 ++ l2) = of_chars l1 +:+ of_chars l2.
Proof. induction l1 as [|c l1 IH]; [done|]. cbn. by rewrite IH. Qed.

Lemma chars_app s1 s2 : chars (s1 +:+ s2) = chars s1 ++ chars s2.
Proof. induction s1 as [|c s1 IH]; [done|]. rewrite string_app_cons; cbn. by rewrite IH. Qed.

Definition code (c : ascii) : Z := Z.of_N (N_of_ascii c).

Fixpoint join (sep : string) (l : list string) : string :=
  match l with
  | [] => ""
  | [s] => s
  | s :: l => s +:+ sep +:+ join sep l
  end.

(** [quoted s] replaces apostrophes by double quotes: test vectors with JSON
    text are written with apostrophes. *)
Definition quoted (s : string) : string :=
  of_chars ((λ c, if Ascii.eqb c "'"%char then ascii_of_nat 34 else c) <$> chars s).

Lemma string_leb_total s1 s2 : String.leb s1 s2 = false → String.leb s2 s1 = true.
Proof. destruct (String.leb_total s1 s2); congruence. Qed.

Lemma ascii_compare_code a b : Ascii.compare a b = (code a ?= code b)%Z.
Proof. unfold Ascii.compare, code. by rewrite N2Z.inj_compare. Qed.

Lemma code_inj a b : code a = code b → a = b.
Proof.
  unfold code. intros H%N2Z.inj. rewrite <- (ascii_N_embedding a), <- (ascii_N_embedding b).
  by rewrite H.
Qed.

Lemma code_range c : (0 ≤ code c < 256)%Z.
Proof. unfold code. pose proof (N_ascii_bounded c). lia. Qed.

Lemma string_compare_trans_le s1 s2 s3 :
  String.leb s1 s2 = true → String.leb s2 s3 = true → String.leb s1 s3 = true.
Proof.
  unfold String.leb. revert s2 s3. induction s1 as [|a s1 IH]; intros [|b s2] [|c s3]; cbn; try done.
  rewrite !ascii_compare_code.
  destruct (Z.compare_spec (code a) (code b)), (Z.compare_spec (code b) (code c)),
    (Z.compare_spec (code a) (code c)); try done; try lia.
  apply IH.
Qed.

Lemma string_leb_antisym s1 s2 : String.leb s1 s2 = true → String.leb s2 s1 = true → s1 = s2.
Proof. apply String.leb_antisym. Qed.

Create HintDb veritio.
#[export] Hint Resolve string_leb_total string_compare_trans_le : veritio.
