(* ===== verification/Regex.v ===== *)
(** * Regular expressions

    The ECMAScript patterns of the sources are written as terms of [re] and run
    by Brzozowski derivatives; [re_test_spec] shows that the matcher decides
    the language of the pattern. Every pattern of the sources is either anchored
    at both ends ([re_test]) or not anchored at all ([re_search]). *)

From S2P Require Import Prelude.

Inductive re : Type :=
| Fail                       (* no string *)
| Eps                        (* the empty string *)
| Cls (p : ascii → bool)     (* one character of a class *)
| Seq (r1 r2 : re)
| Alt (r1 r2 : re)
| Star (r : re).

(** ** Patterns *)

Definition in_range (lo hi : ascii) (c : ascii) : bool :=
  (code lo <=? code c)%Z && (code c <=? code hi)%Z.
Definition one_of (s : string) (c : ascii) : bool := existsb (Ascii.eqb c) (chars s).
Definition cls_or (p q : ascii → bool) (c : ascii) : bool := p c || q c.

Definition lower_az := in_range "a" "z".
Definition upper_az := in_range "A" "Z".
Definition digit := in_range "0" "9".
Definition hex_lower := cls_or digit (in_range "a" "f").

Definition lit (c : ascii) : re := Cls (Ascii.eqb c).

Fixpoint lits (l : list ascii) : re :=
  match l with [] => Eps | c :: l => Seq (lit c) (lits l) end.

Definition word (s : string) : re := lits (chars s).

(** A literal under the [i] flag. *)
Definition to_lower (c : ascii) : ascii :=
  if upper_az c then ascii_of_N (N_of_ascii c + 32) else c.

Fixpoint lits_i (l : list ascii) : re :=
  match l with
  | [] => Eps
  | c :: l => Seq (Cls (λ d, Ascii.eqb (to_lower c) (to_lower d))) (lits_i l)
  end.

Definition word_i (s : string) : re := lits_i (chars s).

Definition plus (r : re) : re := Seq r (Star r).
Definition opt (r : re) : re := Alt Eps r.

(** [r{n}] and [r{0,n}]. *)
Fixpoint pow (n : nat) (r : re) : re :=
  match n with O => Eps | S n => Seq r (pow n r) end.
Fixpoint upto (n : nat) (r : re) : re :=
  match n with O => Eps | S n => Alt Eps (Seq r (upto n r)) end.
Definition rep (n m : nat) (r : re) : re := Seq (pow n r) (upto (m - n) r).

Definition alts (rs : list re) : re := foldr Alt Fail rs.

(** ** The matcher *)

Fixpoint nullable (r : re) : bool :=
  match r with
  | Fail => false
  | Eps => true
  | Cls _ => false
  | Seq r1 r2 => nullable r1 && nullable r2
  | Alt r1 r2 => nullable r1 || nullable r2
  | Star _ => true
  end.

(** Smart constructors that keep the derivatives small. *)
Definition mk_seq (r1 r2 : re) : re :=
  match r1, r2 with
  | Fail, _ => Fail
  | _, Fail => Fail
  | Eps, _ => r2
  | _, _ => Seq r1 r2
  end.
Definition mk_alt (r1 r2 : re) : re :=
  match r1, r2 with
  | Fail, _ => r2
  | _, Fail => r1
  | _, _ => Alt r1 r2
  end.

Fixpoint deriv (c : ascii) (r : re) : re :=
  match r with
  | Fail => Fail
  | Eps => Fail
  | Cls p => if p c then Eps else Fail
  | Seq r1 r2 =>
      if nullable r1 then mk_alt (mk_seq (deriv c r1) r2) (deriv c r2)
      else mk_seq (deriv c r1) r2
  | Alt r1 r2 => mk_alt (deriv c r1) (deriv c r2)
  | Star r => mk_seq (deriv c r) (Star r)
  end.

Fixpoint re_match (r : re) (l : list ascii) : bool :=
  match l with
  | [] => nullable r
  | c :: l => re_match (deriv c r) l
  end.

(** [/^r$/.test(s)] *)
Definition re_test (r : re) (s : string) : bool := re_match r (chars s).

(** [/r/.test(s)]: some prefix of some suffix matches. *)
Fixpoint re_prefix (r : re) (l : list ascii) : bool :=
  nullable r || match l with [] => false | c :: l => re_prefix (deriv c r) l end.
Fixpoint re_find (r : re) (l : list ascii) : bool :=
  re_prefix r l || match l with [] => false | _ :: l => re_find r l end.
Definition re_search (r : re) (s : string) : bool := re_find r (chars s).

(** ** The language of a pattern *)

Inductive lang : re → list ascii → Prop :=
| lang_eps : lang Eps []
| lang_cls p c : p c = true → lang (Cls p) [c]
| lang_seq r1 r2 l1 l2 : lang r1 l1 → lang r2 l2 → lang (Seq r1 r2) (l1 ++ l2)
| lang_alt_l r1 r2 l : lang r1 l → lang (Alt r1 r2) l
| lang_alt_r r1 r2 l : lang r2 l → lang (Alt r1 r2) l
| lang_star_nil r : lang (Star r) []
| lang_star_cons r c l1 l2 :
    lang r (c :: l1) → lang (Star r) l2 → lang (Star r) (c :: l1 ++ l2).
#[export] Hint Constructors lang : veritio.

Lemma lang_fail_inv l : ¬ lang Fail l.
Proof. inversion 1. Qed.
Lemma lang_eps_inv l : lang Eps l → l = [].
Proof. by inversion 1. Qed.
Lemma lang_cls_inv p l : lang (Cls p) l → ∃ c, l = [c] ∧ p c = true.
Proof. inversion 1; eauto. Qed.
Lemma lang_seq_inv r1 r2 l :
  lang (Seq r1 r2) l → ∃ l1 l2, l = l1 ++ l2 ∧ lang r1 l1 ∧ lang r2 l2.
Proof. inversion 1; eauto 6. Qed.
Lemma lang_alt_inv r1 r2 l : lang (Alt r1 r2) l ↔ lang r1 l ∨ lang r2 l.
Proof. split; [inversion 1; eauto | intros []; eauto with veritio]. Qed.

Lemma nullable_spec r : nullable r = true ↔ lang r [].
Proof.
  induction r as [| |p|r1 IH1 r2 IH2|r1 IH1 r2 IH2|r IH]; cbn.
  - split; [done | by intros ?%lang_fail_inv].
  - split; eauto with veritio.
  - split; [done | by intros (? & ? & ?)%lang_cls_inv].
  - rewrite andb_true_iff, IH1, IH2. split.
    + intros [H1 H2]. by apply (lang_seq r1 r2 [] []).
    + intros (l1 & l2 & Hl & H1 & H2)%lang_seq_inv.
      symmetry in Hl. apply app_nil in Hl as [-> ->]. done.
  - by rewrite orb_true_iff, IH1, IH2, lang_alt_inv.
  - split; eauto with veritio.
Qed.

Lemma lang_fail l : lang Fail l ↔ False.
Proof. split; [apply lang_fail_inv | done]. Qed.
Lemma lang_seq_fail_l r l : lang (Seq Fail r) l ↔ lang Fail l.
Proof. rewrite lang_fail. split; [|done]. by intros (? & ? & _ & ?%lang_fail_inv & _)%lang_seq_inv. Qed.
Lemma lang_seq_fail_r r l : lang (Seq r Fail) l ↔ lang Fail l.
Proof. rewrite lang_fail. split; [|done]. by intros (? & ? & _ & _ & ?%lang_fail_inv)%lang_seq_inv. Qed.
Lemma lang_seq_eps_l r l : lang (Seq Eps r) l ↔ lang r l.
Proof.
  split; [by intros (? & ? & -> & ->%lang_eps_inv & ?)%lang_seq_inv|].
  intros H. apply (lang_seq Eps r [] l); [constructor|done].
Qed.

Lemma mk_seq_spec r1 r2 l : lang (mk_seq r1 r2) l ↔ lang (Seq r1 r2) l.
Proof.
  destruct r1, r2; cbn;
    rewrite ?lang_seq_fail_l, ?lang_seq_fail_r, ?lang_seq_eps_l; done.
Qed.

Lemma mk_alt_spec r1 r2 l : lang (mk_alt r1 r2) l ↔ lang (Alt r1 r2) l.
Proof.
  destruct r1, r2; cbn; rewrite ?lang_alt_inv, ?lang_fail; tauto.
Qed.

Lemma deriv_spec c r l : lang (deriv c r) l ↔ lang r (c :: l).
Proof.
  revert l. induction r as [| |p|r1 IH1 r2 IH2|r1 IH1 r2 IH2|r IH]; intros l; cbn.
  - split; by intros ?%lang_fail_inv.
  - split; [by intros ?%lang_fail_inv | by intros ?%lang_eps_inv].
  - destruct (p c) eqn:E.
    + split; [intros ->%lang_eps_inv; eauto with veritio |].
      intros (d & [= -> ->] & _)%lang_cls_inv. constructor.
    + split; [by intros ?%lang_fail_inv|].
      intros (d & [= <- ->] & Hd)%lang_cls_inv. congruence.
  - assert (Hs : lang (Seq (deriv c r1) r2) l ↔
                 ∃ l1 l2, l = l1 ++ l2 ∧ lang r1 (c :: l1) ∧ lang r2 l2).
    { split.
      - intros (l1 & l2 & -> & H1 & H2)%lang_seq_inv. rewrite IH1 in H1. eauto.
      - intros (l1 & l2 & -> & H1 & H2). rewrite <- IH1 in H1. by constructor. }
    assert (Hc : lang (Seq r1 r2) (c :: l) ↔
                 (∃ l1 l2, l = l1 ++ l2 ∧ lang r1 (c :: l1) ∧ lang r2 l2) ∨
                 (lang r1 [] ∧ lang r2 (c :: l))).
    { split.
      - intros ([|d l1] & l2 & Hl & H1 & H2)%lang_seq_inv; cbn in Hl.
        + right. by subst l2.
        + injection Hl as <- ->. left; eauto.
      - intros [(l1 & l2 & -> & H1 & H2) | [H1 H2]].
        + by apply (lang_seq r1 r2 (c :: l1) l2).
        + by apply (lang_seq r1 r2 [] (c :: l)). }
    rewrite Hc, <- nullable_spec, <- IH2. destruct (nullable r1).
    + rewrite mk_alt_spec, lang_alt_inv, mk_seq_spec, Hs. tauto.
    + rewrite mk_seq_spec, Hs. split; [by left | by intros [?|[? _]]].
  - by rewrite mk_alt_spec, !lang_alt_inv, IH1, IH2.
  - rewrite mk_seq_spec. split.
    + intros (l1 & l2 & -> & H1%IH & H2)%lang_seq_inv. by constructor.
    + inversion 1 as [| | | | | |? ? l1 l2 H1 H2]; subst. constructor; [by apply IH|done].
Qed.

Lemma re_match_spec r l : re_match r l = true ↔ lang r l.
Proof.
  revert r. induction l as [|c l IH]; intros r; cbn.
  - apply nullable_spec.
  - by rewrite IH, deriv_spec.
Qed.

Lemma re_test_spec r s : re_test r s = true ↔ lang r (chars s).
Proof. apply re_match_spec. Qed.

Lemma re_prefix_spec r l :
  re_prefix r l = true ↔ ∃ l1 l2, l = l1 ++ l2 ∧ lang r l1.
Proof.
  revert r. induction l as [|c l IH]; intros r; cbn; rewrite orb_true_iff, nullable_spec.
  - split; [intros [H|?]; [by exists [], []|done]|].
    intros (l1 & l2 & Hl & H). symmetry in Hl. apply app_nil in Hl as [-> _]. by left.
  - rewrite IH. split.
    + intros [H | (l1 & l2 & -> & H%deriv_spec)]; [by exists [], (c :: l)|].
      by exists (c :: l1), l2.
    + intros ([|d l1] & l2 & Hl & H); [by left|]. injection Hl as <- ->.
      right. exists l1, l2. by rewrite deriv_spec.
Qed.

Lemma re_find_unfold r l :
  re_find r l = re_prefix r l || match l with [] => false | _ :: l => re_find r l end.
Proof. by destruct l. Qed.

Lemma re_search_spec r s :
  re_search r s = true ↔ ∃ l0 l1 l2, chars s = l0 ++ l1 ++ l2 ∧ lang r l1.
Proof.
  unfold re_search. induction (chars s) as [|c l IH]; rewrite re_find_unfold, orb_true_iff, re_prefix_spec.
  - split; [intros [(l1 & l2 & -> & H)|?]; [by exists [], l1, l2|done]|].
    intros (l0 & l1 & l2 & Hl & H). left. exists l1, l2. split; [|done].
    symmetry in Hl. apply app_nil in Hl as [-> Hl]. done.
  - rewrite IH. split.
    + intros [(l1 & l2 & Hl & H) | (l0 & l1 & l2 & -> & H)].
      * by exists [], l1, l2; cbn; rewrite <- Hl.
      * by exists (c :: l0), l1, l2.
    + intros ([|d l0] & l1 & l2 & Hl & H).
      * left. by exists l1, l2.
      * injection Hl as <- ->. right; eauto.
Qed.

(** ** Languages of the derived forms *)

Lemma lang_lits l l' : lang (lits l) l' ↔ l' = l.
Proof.
  revert l'. induction l as [|c l IH]; intros l'; cbn.
  - split; [apply lang_eps_inv | intros ->; constructor].
  - split.
    + intros (l1 & l2 & -> & (d & -> & Hd%Ascii.eqb_eq)%lang_cls_inv & H2%IH)%lang_seq_inv.
      by subst.
    + intros ->. apply (lang_seq _ _ [c] l); [constructor; apply Ascii.eqb_refl | by apply IH].
Qed.

Lemma lang_pow_cls n p l :
  lang (pow n (Cls p)) l ↔ length l = n ∧ Forall (λ c, p c = true) l.
Proof.
  revert l. induction n as [|n IH]; intros l; cbn.
  - split; [intros ->%lang_eps_inv; done | intros [->%length_zero_iff_nil _]; constructor].
  - split.
    + intros (l1 & l2 & -> & (c & -> & Hc)%lang_cls_inv & [<- H]%IH)%lang_seq_inv.
      split; [done | by constructor].
    + intros [Hl H]. destruct H as [|c l Hc H]; [done|]. injection Hl as Hl.
      apply (lang_seq _ _ [c] l); [by constructor | by apply IH].
Qed.

Lemma lang_star_cls p l : lang (Star (Cls p)) l ↔ Forall (λ c, p c = true) l.
Proof.
  split.
  - intros H. remember (Star (Cls p)) as r eqn:Er. revert Er.
    induction H as [| | | | | |r c l1 l2 H1 _ H2 IH]; intros Er; try done.
    injection Er as ->. apply lang_cls_inv in H1 as (? & [= -> ->] & Hc). cbn.
    constructor; [done|by apply IH].
  - induction 1 as [|c l Hc H IH]; [constructor|].
    apply (lang_star_cons _ c [] l); [by constructor|done].
Qed.
