(* ===== verification/JsNum.v ===== *)
(** * JavaScript numbers as JSON carries them

    A finite JavaScript number is given by the decimal that
    [Number.prototype.toString] prints for it: [NFin m e] is [m * 10^e], with
    [m] not divisible by ten ([num_wf]), which is the significand and exponent of
    the shortest decimal denoting that double. Integers below 2^53 are exactly
    the [NFin m e] with [e >= 0] and value below 2^53, so sequence numbers, epochs and
    counters are exact. [-0] prints as [0] and is identified with it.

    [num_to_chars] is [Number::toString], [parse_number] the numeral of the JSON
    grammar; [parse_num_to_chars] is their round trip. *)

From S2P Require Import Prelude Regex.

Inductive num : Type :=
| NNaN
| NInf (neg : bool)
| NFin (m e : Z).

#[global] Instance num_eq_dec : EqDecision num.
Proof. solve_decision. Defined.

(** ** Decimal digits *)

Definition digit_char (d : Z) : ascii := ascii_of_N (Z.to_N (48 + d)).
Definition digit_val (c : ascii) : Z := code c - 48.

Fixpoint digits_fuel (fuel : nat) (n : Z) (acc : list ascii) : list ascii :=
  match fuel with
  | O => acc
  | S fuel =>
      let acc := digit_char (n mod 10) :: acc in
      if (n <? 10)%Z then acc else digits_fuel fuel (n / 10) acc
  end.

(** Decimal digits of a natural number; [log2 n + 1] steps are enough. *)
Definition digits (n : Z) : list ascii := digits_fuel (S (Z.to_nat (Z.log2 n))) n [].

Definition digits_val (l : list ascii) : Z :=
  fold_left (λ a c, 10 * a + digit_val c)%Z l 0%Z.

Lemma digit_char_code d : (0 ≤ d < 10)%Z → code (digit_char d) = (48 + d)%Z.
Proof.
  intros Hd. unfold code, digit_char. rewrite N_ascii_embedding; lia.
Qed.

Lemma digit_char_digit d : (0 ≤ d < 10)%Z → digit (digit_char d) = true.
Proof.
  intros Hd. unfold digit, in_range. rewrite digit_char_code by done.
  change (code "0") with 48%Z. change (code "9") with 57%Z. lia.
Qed.

Lemma digits_val_app l1 l2 :
  digits_val (l1 ++ l2) = (digits_val l1 * 10 ^ Z.of_nat (length l2) + digits_val l2)%Z.
Proof.
  unfold digits_val. rewrite fold_left_app.
  generalize (fold_left (λ a c, 10 * a + digit_val c)%Z l1 0%Z) as a. clear l1.
  induction l2 as [|c l2 IH] using rev_ind; intros a; cbn; [lia|].
  rewrite !fold_left_app, length_app; cbn. rewrite IH.
  rewrite Nat2Z.inj_add, Z.pow_add_r by lia. change (10 ^ Z.of_nat 1)%Z with 10%Z. lia.
Qed.

Lemma digits_val_cons c l :
  digits_val (c :: l) = (digit_val c * 10 ^ Z.of_nat (length l) + digits_val l)%Z.
Proof. apply (digits_val_app [c] l). Qed.

Lemma digits_fuel_spec fuel n acc :
  (0 ≤ n < 2 ^ Z.of_nat fuel)%Z →
  ∃ l, digits_fuel fuel n acc = l ++ acc ∧ digits_val l = n ∧
       Forall (λ c, digit c = true) l ∧
       (∃ c l', l = c :: l' ∧ (code c = 48%Z → n = 0%Z ∧ l' = [])) ∨ fuel = 0%nat.
Proof.
  revert n acc. induction fuel as [|fuel IH]; intros n acc Hn; [exists []; by right|]. cbn.
  pose proof (Z.mod_pos_bound n 10). pose proof (Z.div_mod n 10).
  destruct (Z.ltb_spec n 10) as [Hlt|Hge].
  - exists [digit_char (n mod 10)]. left. rewrite Z.mod_small by lia.
    repeat split; try done.
    + cbn. unfold digit_val. rewrite digit_char_code; lia.
    + repeat constructor. apply digit_char_digit; lia.
    + eexists _, _. split; [done|]. rewrite digit_char_code by lia. split; [lia|done].
  - assert (0 ≤ n / 10 < 2 ^ Z.of_nat fuel)%Z as Hdiv.
    { split; [apply Z.div_pos; lia|]. apply Z.div_lt_upper_bound; [lia|].
      rewrite Nat2Z.inj_succ, Z.pow_succ_r in Hn; lia. }
    destruct (IH (n / 10)%Z (digit_char (n mod 10) :: acc) Hdiv)
      as [l [(-> & Hv & Hd & c & l' & -> & Hc)| ->]].
    + exists ((c :: l') ++ [digit_char (n mod 10)]). left. rewrite <- app_assoc.
      repeat split; try done.
      * rewrite digits_val_app, Hv; cbn. unfold digit_val.
        rewrite digit_char_code; lia.
      * apply Forall_app; split; [done|]. repeat constructor. apply digit_char_digit; lia.
      * eexists _, _. split; [done|]. intros [Hz _]%Hc. lia.
    + cbn in Hdiv. lia.
Qed.

Lemma digits_spec n :
  (0 ≤ n)%Z →
  digits_val (digits n) = n ∧ Forall (λ c, digit c = true) (digits n) ∧
  ∃ c l, digits n = c :: l ∧ (code c = 48%Z → n = 0%Z ∧ l = []).
Proof.
  intros Hn. unfold digits.
  destruct (digits_fuel_spec (S (Z.to_nat (Z.log2 n))) n []) as [l [(-> & H)|?]]; [|idtac|done].
  - rewrite Nat2Z.inj_succ, Z2Nat.id by apply Z.log2_nonneg.
    destruct (Z.eq_dec n 0) as [->|]; [cbn; lia|]. pose proof (Z.log2_spec n). lia.
  - rewrite app_nil_r. exact H.
Qed.

#[global] Arguments digits : simpl never.
#[global] Arguments digits_val : simpl never.

(** ** Normal form of a decimal *)

Fixpoint strip_zeros (fuel : nat) (m e : Z) : Z * Z :=
  match fuel with
  | O => (m, e)
  | S fuel => if (m mod 10 =? 0)%Z then strip_zeros fuel (m / 10) (e + 1) else (m, e)
  end.

(** The number [m * 10^e]. *)
Definition mk_num (m e : Z) : num :=
  if (m =? 0)%Z then NFin 0 0
  else let '(m, e) := strip_zeros (S (Z.to_nat (Z.log2 (Z.abs m)))) m e in NFin m e.

Definition num_of_Z (z : Z) : num := mk_num z 0.

Definition num_wf (n : num) : bool :=
  match n with
  | NFin m e => ((m =? 0) && (e =? 0))%Z || negb (m mod 10 =? 0)%Z
  | _ => true
  end.

(** [Number.isFinite] *)
Definition is_finite (n : num) : bool :=
  match n with NFin _ _ => true | _ => false end.

(** The integer a number denotes, when it is one ([Number.isInteger]). *)
Definition num_int (n : num) : option Z :=
  match n with
  | NFin m e => if (0 <=? e)%Z then Some (m * 10 ^ e)%Z else None
  | _ => None
  end.

Definition max_safe_integer : Z := 9007199254740991.
Definition is_safe_integer (n : num) : bool :=
  match num_int n with Some z => (Z.abs z <=? max_safe_integer)%Z | None => false end.

Lemma strip_zeros_pow fuel m e j :
  (m mod 10 ≠ 0)%Z → (j < fuel)%nat →
  strip_zeros fuel (m * 10 ^ Z.of_nat j) e = (m, (e + Z.of_nat j)%Z).
Proof.
  revert e j. induction fuel as [|fuel IH]; intros e [|j] Hm Hj; try lia; cbn -[Z.mul Z.pow Z.of_nat].
  - rewrite Z.pow_0_r, Z.mul_1_r. rewrite (proj2 (Z.eqb_neq _ _) Hm). f_equal; lia.
  - rewrite Nat2Z.inj_succ, Z.pow_succ_r, (Z.mul_comm 10), Z.mul_assoc by lia.
    rewrite Z.mod_mul, Z.div_mul by lia. cbn -[Z.mul Z.pow Z.of_nat]. rewrite IH by lia.
    f_equal; lia.
Qed.

Lemma mk_num_pow m e j :
  (m mod 10 ≠ 0)%Z → (0 ≤ j)%Z → mk_num (m * 10 ^ j) e = NFin m (e + j).
Proof.
  intros Hm Hj. unfold mk_num.
  assert (m ≠ 0)%Z as Hm0 by (intros ->; done).
  assert (0 < 10 ^ j)%Z as Hp by (apply Z.pow_pos_nonneg; lia).
  destruct (Z.eqb_spec (m * 10 ^ j) 0) as [?|_]; [nia|].
  pose proof (λ f, strip_zeros_pow f m e (Z.to_nat j) Hm) as Hs.
  rewrite Z2Nat.id in Hs by done. rewrite Hs; [done|].
  apply Nat2Z.inj_lt. rewrite Nat2Z.inj_succ, !Z2Nat.id by (done || apply Z.log2_nonneg).
  assert (j ≤ Z.log2 (Z.abs (m * 10 ^ j)))%Z; [|lia].
  apply Z.log2_le_pow2; [lia|].
  assert (2 ^ j ≤ 10 ^ j)%Z by (apply Z.pow_le_mono_l; lia).
  rewrite Z.abs_mul, (Z.abs_eq (10 ^ j)) by lia. assert (1 ≤ Z.abs m)%Z by lia. nia.
Qed.

Lemma mk_num_id m e : num_wf (NFin m e) = true → mk_num m e = NFin m e.
Proof.
  cbn. intros [H|H%negb_true_iff]%orb_true_iff; bool_prop; subst; [done|].
  pose proof (mk_num_pow m e 0 H). rewrite Z.mul_1_r, Z.add_0_r in H0. apply H0; lia.
Qed.

Lemma strip_zeros_wf fuel m e m' e' :
  strip_zeros fuel m e = (m', e') → m ≠ 0%Z → (Z.abs m < 10 ^ Z.of_nat fuel)%Z →
  (m' mod 10 ≠ 0 ∧ e ≤ e' ∧ m = m' * 10 ^ (e' - e))%Z.
Proof.
  revert m e. induction fuel as [|fuel IH]; intros m e H Hm Hb; [cbn in Hb; lia|].
  cbn in H. destruct (Z.eqb_spec (m mod 10) 0) as [Hz|Hz].
  - pose proof (Z.div_mod m 10) as Hdm. rewrite Hz in Hdm.
    apply IH in H as (H1 & H2 & H3); [| lia |].
    + split; [done|]. split; [lia|]. rewrite Hdm, H3 by lia.
      replace (e' - e)%Z with (Z.succ (e' - (e + 1))) by lia.
      rewrite Z.pow_succ_r; lia.
    + rewrite Nat2Z.inj_succ, Z.pow_succ_r in Hb by lia. lia.
  - injection H as <- <-. rewrite Z.sub_diag, Z.pow_0_r. lia.
Qed.

Lemma mk_num_spec m e :
  m ≠ 0%Z →
  ∃ m' e', mk_num m e = NFin m' e' ∧ (m' mod 10 ≠ 0 ∧ e ≤ e' ∧ m = m' * 10 ^ (e' - e))%Z.
Proof.
  intros Hm. unfold mk_num. rewrite (proj2 (Z.eqb_neq _ _) Hm).
  destruct (strip_zeros _ m e) as [m' e'] eqn:E. exists m', e'. split; [done|].
  eapply strip_zeros_wf; [exact E|done|].
  rewrite Nat2Z.inj_succ, Z2Nat.id by apply Z.log2_nonneg.
  pose proof (Z.log2_spec (Z.abs m)).
  assert (2 ^ Z.succ (Z.log2 (Z.abs m)) ≤ 10 ^ Z.succ (Z.log2 (Z.abs m)))%Z; [|lia].
  apply Z.pow_le_mono_l. lia.
Qed.

Lemma mk_num_wf m e : num_wf (mk_num m e) = true.
Proof.
  destruct (Z.eq_dec m 0) as [->|Hm]; [done|].
  destruct (mk_num_spec m e Hm) as (m' & e' & -> & H & _). cbn.
  rewrite (proj2 (Z.eqb_neq _ _) H). by rewrite orb_true_r.
Qed.

Lemma num_int_of_Z z : num_int (num_of_Z z) = Some z.
Proof.
  unfold num_of_Z. destruct (Z.eq_dec z 0) as [->|Hz]; [done|].
  destruct (mk_num_spec z 0 Hz) as (m & e & -> & _ & He & ->). cbn.
  rewrite (proj2 (Z.leb_le _ _) He). by rewrite Z.sub_0_r.
Qed.

Lemma num_of_Z_inj z1 z2 : num_of_Z z1 = num_of_Z z2 → z1 = z2.
Proof. intros H. pose proof (num_int_of_Z z1) as E. rewrite H, num_int_of_Z in E. congruence. Qed.

Lemma num_int_unique n z : num_wf n = true → num_int n = Some z → n = num_of_Z z.
Proof.
  destruct n as [| |m e]; cbn; try done. destruct (Z.leb_spec 0 e) as [He|]; [|done].
  intros Hwf [= <-]. unfold num_of_Z.
  apply orb_true_iff in Hwf as [Hwf|Hwf]; bool_prop; subst; [done|].
  by rewrite mk_num_pow.
Qed.

Lemma num_of_Z_wf z : num_wf (num_of_Z z) = true.
Proof. apply mk_num_wf. Qed.
Lemma num_of_Z_finite z : is_finite (num_of_Z z) = true.
Proof.
  unfold num_of_Z. destruct (Z.eq_dec z 0) as [->|Hz]; [done|].
  by destruct (mk_num_spec z 0 Hz) as (m & e & -> & _).
Qed.
#[export] Hint Resolve num_of_Z_wf num_of_Z_finite mk_num_wf : veritio.

(** ** [Number::toString] (ECMA-262, radix 10) *)

Definition zeros (n : Z) : list ascii := replicate (Z.to_nat n) "0"%char.

(** Digits of the exponent part, with its sign. *)
Definition exp_chars (x : Z) : list ascii :=
  (if (x <? 0)%Z then "-"%char else "+"%char) :: digits (Z.abs x).

(** The significand [m > 0] has [k] digits and the value is [0.s * 10^n]. *)
Definition pos_num_to_chars (m e : Z) : list ascii :=
  let s := digits m in
  let k := Z.of_nat (length s) in
  let n := (k + e)%Z in
  if (k <=? n)%Z && (n <=? 21)%Z then s ++ zeros (n - k)
  else if (0 <? n)%Z && (n <=? 21)%Z then
    take (Z.to_nat n) s ++ "."%char :: drop (Z.to_nat n) s
  else if (-6 <? n)%Z && (n <=? 0)%Z then
    "0"%char :: "."%char :: zeros (- n) ++ s
  else
    match s with
    | [] => []
    | [c] => c :: "e"%char :: exp_chars (n - 1)
    | c :: s => c :: "."%char :: s ++ "e"%char :: exp_chars (n - 1)
    end.

(** JSON prints a number that is not finite as [null]. *)
Definition num_to_chars (n : num) : list ascii :=
  match n with
  | NFin m e =>
      if (m =? 0)%Z then ["0"%char]
      else if (m <? 0)%Z then "-"%char :: pos_num_to_chars (- m) e
      else pos_num_to_chars m e
  | _ => chars "null"
  end.

(** ** Numerals of the JSON grammar *)

Fixpoint span (p : ascii → bool) (l : list ascii) : list ascii * list ascii :=
  match l with
  | [] => ([], [])
  | c :: l' => if p c then let '(a, b) := span p l' in (c :: a, b) else ([], l)
  end.

Definition parse_int (l : list ascii) : option (list ascii * list ascii) :=
  match span digit l with
  | ([], _) => None
  | (c :: ds, r) =>
      if Ascii.eqb c "0" && negb (Nat.eqb (length ds) 0) then None else Some (c :: ds, r)
  end.

Definition parse_frac (l : list ascii) : option (list ascii * list ascii) :=
  match l with
  | c :: l' =>
      if Ascii.eqb c "." then
        match span digit l' with ([], _) => None | (ds, r) => Some (ds, r) end
      else Some ([], l)
  | [] => Some ([], [])
  end.

Definition parse_exp (l : list ascii) : option (Z * list ascii) :=
  match l with
  | c :: l' =>
      if Ascii.eqb c "e" || Ascii.eqb c "E" then
        let '(sg, l'') := match l' with
          | d :: t => if Ascii.eqb d "-" then ((-1)%Z, t)
                      else if Ascii.eqb d "+" then (1%Z, t) else (1%Z, l')
          | [] => (1%Z, [])
          end in
        match span digit l'' with
        | ([], _) => None
        | (ds, r) => Some ((sg * digits_val ds)%Z, r)
        end
      else Some (0%Z, l)
  | [] => Some (0%Z, [])
  end.

Definition parse_unsigned (l : list ascii) : option (Z * Z * list ascii) :=
  '(ip, l) ← parse_int l;
  '(fp, l) ← parse_frac l;
  '(x, l) ← parse_exp l;
  Some (digits_val (ip ++ fp), (x - Z.of_nat (length fp))%Z, l).

Definition parse_number (l : list ascii) : option (num * list ascii) :=
  match l with
  | c :: l' =>
      if Ascii.eqb c "-" then
        '(m, e, r) ← parse_unsigned l'; Some (mk_num (- m) e, r)
      else '(m, e, r) ← parse_unsigned l; Some (mk_num m e, r)
  | [] => None
  end.

(** ** Round trip *)

(** What may follow a numeral: the end, or a character no numeral contains. *)
Definition num_stop (l : list ascii) : Prop :=
  match l with
  | [] => True
  | c :: _ => digit c = false ∧ c ≠ "."%char ∧ c ≠ "e"%char ∧ c ≠ "E"%char
  end.

Lemma span_all p l r :
  Forall (λ c, p c = true) l →
  match r with [] => True | c :: _ => p c = false end →
  span p (l ++ r) = (l, r).
Proof.
  induction 1 as [|c l Hc _ IH]; intros Hr; cbn.
  - destruct r as [|c r]; [done|]. cbn. by rewrite Hr.
  - by rewrite Hc, IH.
Qed.

Lemma num_stop_digit r : num_stop r → match r with [] => True | c :: _ => digit c = false end.
Proof. destruct r; [done|]. by intros [? _]. Qed.

Lemma parse_frac_skip r : match r with [] => True | c :: _ => c ≠ "."%char end →
  parse_frac r = Some ([], r).
Proof.
  destruct r as [|c r]; [done|]. intros Hc. cbn.
  by rewrite (proj2 (Ascii.eqb_neq _ _) Hc).
Qed.

Lemma parse_exp_skip r : num_stop r → parse_exp r = Some (0%Z, r).
Proof.
  destruct r as [|c r]; [done|]. intros (_ & _ & H1 & H2). cbn.
  by rewrite (proj2 (Ascii.eqb_neq _ _) H1), (proj2 (Ascii.eqb_neq _ _) H2).
Qed.

Lemma digit_not_special c : digit c = true → c ≠ "."%char ∧ c ≠ "e"%char ∧ c ≠ "E"%char ∧ c ≠ "-"%char ∧ c ≠ "+"%char.
Proof. intros H. repeat split; intros ->; vm_compute in H; done. Qed.

(** A nonzero digit string as the integer part of a numeral. *)
Definition int_ok (l : list ascii) : Prop :=
  Forall (λ c, digit c = true) l ∧ ∃ c l', l = c :: l' ∧ (code c = 48%Z → l' = []).

Lemma parse_int_ok l r :
  int_ok l → match r with [] => True | c :: _ => digit c = false end →
  parse_int (l ++ r) = Some (l, r).
Proof.
  intros (Hd & c & l' & -> & Hc) Hr. unfold parse_int. rewrite span_all by done.
  destruct (Ascii.eqb_spec c "0") as [->|]; [|done]. by rewrite Hc.
Qed.

Lemma parse_exp_ok x r :
  num_stop r → parse_exp ("e"%char :: exp_chars x ++ r) = Some (x, r).
Proof.
  intros Hr. destruct (digits_spec (Z.abs x)) as (Hv & Hd & c & l & Hl & _); [lia|].
  unfold exp_chars, parse_exp. cbn.
  assert (span digit (digits (Z.abs x) ++ r) = (digits (Z.abs x), r)) as Hs
    by (apply span_all; [done | by apply num_stop_digit]).
  destruct (Z.ltb_spec x 0); cbn; rewrite Hs; rewrite Hl; rewrite <- Hl, Hv; f_equal; f_equal; lia.
Qed.

Lemma parse_exp_nondigit x r :
  match "e"%char :: exp_chars x ++ r with [] => True | c :: _ => digit c = false end.
Proof. done. Qed.

Lemma zeros_digits n : Forall (λ c, digit c = true) (zeros n).
Proof. by apply Forall_replicate. Qed.

Lemma digits_val_zeros n : digits_val (zeros n) = 0%Z.
Proof.
  unfold zeros. generalize (Z.to_nat n) as k. induction k as [|k IH]; [done|].
  cbn [replicate]. rewrite digits_val_cons, IH. by change (digit_val "0") with 0%Z.
Qed.

Lemma length_zeros n : length (zeros n) = Z.to_nat n.
Proof. apply length_replicate. Qed.

Section PosNum.
Context (m e : Z) (Hm : (0 < m)%Z) (Hm10 : (m mod 10 ≠ 0)%Z).

Lemma pos_digits :
  ∃ c l, digits m = c :: l ∧ code c ≠ 48%Z ∧ digit c = true ∧
    Forall (λ c, digit c = true) l ∧ digits_val (c :: l) = m.
Proof using Hm.
  clear Hm10. destruct (digits_spec m) as (Hv & Hd & c & l & Hl & Hc); [lia|].
  rewrite Hl in Hv, Hd. inversion Hd; subst. exists c, l. repeat split; try done.
  intros Hz. destruct (Hc Hz) as [? ->]. lia.
Qed.

(** Each layout of [Number::toString] denotes [m * 10^e]. *)
Lemma parse_pos_num r :
  num_stop r →
  ∃ m' e', parse_unsigned (pos_num_to_chars m e ++ r) = Some (m', e', r) ∧
           mk_num m' e' = NFin m e ∧ mk_num (- m') e' = NFin (- m) e.
Proof using Hm Hm10.
  intros Hr. destruct pos_digits as (c & l & Hl & Hc & Hdc & Hdl & Hv).
  assert (int_ok (c :: l)) as Hok by (split; [by constructor | by exists c, l]).
  assert (Hnorm : ∀ x, mk_num m x = NFin m x ∧ mk_num (- m) x = NFin (- m) x).
  { intros x. split; apply mk_num_id; cbn; apply orb_true_iff; right; apply negb_true_iff, Z.eqb_neq; [done|].
    pose proof (Z_mod_nz_opp_full m 10 Hm10). pose proof (Z.mod_pos_bound m 10). lia. }
  unfold pos_num_to_chars. rewrite Hl. set (k := Z.of_nat (length (c :: l))).
  destruct ((k <=? k + e)%Z && _) eqn:E1;
    [|destruct ((0 <? k + e)%Z && _) eqn:E2; [|destruct ((-6 <? k + e)%Z && _) eqn:E3]].
  all: rewrite ?andb_true_iff, ?andb_false_iff, ?Z.leb_le, ?Z.leb_gt, ?Z.ltb_lt, ?Z.ltb_ge in *.
  - (* integer *)
    exists (m * 10 ^ (k + e - k))%Z, 0%Z. split; [|split].
    + unfold parse_unsigned. rewrite parse_int_ok; cbn.
      * rewrite parse_frac_skip by (destruct r; [done|]; by destruct Hr as (_ & ? & _)).
        cbn. rewrite parse_exp_skip by done. cbn. rewrite app_nil_r. do 3 f_equal.
        change (c :: l ++ zeros (k + e - k)) with ((c :: l) ++ zeros (k + e - k)).
        by rewrite digits_val_app, Hv, digits_val_zeros, length_zeros, Z2Nat.id, Z.add_0_r by lia.
      * split; [by constructor; [|apply Forall_app; split; [|apply zeros_digits]]|].
        eexists _, _. split; [done|]. done.
      * by apply num_stop_digit.
    + rewrite mk_num_pow by (done || lia). f_equal; lia.
    + rewrite <- Z.mul_opp_l, mk_num_pow; [f_equal; lia| |lia].
      pose proof (Z_mod_nz_opp_full m 10 Hm10). pose proof (Z.mod_pos_bound m 10). lia.
  - (* point inside the digits *)
    set (n := Z.to_nat (k + e)).
    assert (0 < n < length (c :: l))%nat as Hn by (unfold n, k in *; cbn in *; lia).
    exists m, e. split; [|apply Hnorm].
    assert (drop n (c :: l) ≠ []) as Hdrop.
    { intros Hd0%(f_equal length). rewrite length_drop in Hd0. cbn in *. lia. }
    assert (Forall (λ c, digit c = true) (take n (c :: l)) ∧
            Forall (λ c, digit c = true) (drop n (c :: l))) as [Hdt Hdd].
    { apply Forall_app. rewrite take_drop. by constructor. }
    unfold parse_unsigned. rewrite <- app_assoc. rewrite parse_int_ok.
    + cbn [mbind option_bind]. unfold parse_frac. cbn [app]. rewrite Ascii.eqb_refl.
      rewrite span_all by (done || by apply num_stop_digit).
      destruct (drop n (c :: l)) as [|d l'] eqn:Ed; [done|].
      cbn [mbind option_bind]. rewrite parse_exp_skip by done. cbn [mbind option_bind].
      rewrite <- Ed, take_drop, Hv. do 3 f_equal. rewrite length_drop.
      unfold n, k in *. cbn in *. lia.
    + split; [done|]. destruct n as [|n]; [lia|]. cbn. eexists _, _. split; [done|]. done.
    + done.
  - (* small fraction *)
    exists m, e. split; [|apply Hnorm].
    unfold parse_unsigned. cbn [app].
    change ("0"%char :: ?x) with (["0"%char] ++ x). rewrite parse_int_ok.
    + cbn [mbind option_bind]. unfold parse_frac. rewrite Ascii.eqb_refl.
      rewrite span_all; [|by apply Forall_app; split; [apply zeros_digits | by constructor] |
        by apply num_stop_digit].
      destruct (zeros _ ++ c :: l) as [|d l'] eqn:Ed; [by destruct (zeros (- (k + e)))|].
      cbn [mbind option_bind]. rewrite parse_exp_skip by done. cbn [mbind option_bind].
      rewrite <- Ed. cbn [app]. rewrite (digits_val_cons "0"), digits_val_app, digits_val_zeros, Hv.
      rewrite length_app, length_zeros, Nat2Z.inj_add, Z2Nat.id by lia.
      change (digit_val "0") with 0%Z. do 3 f_equal; unfold k; lia.
    + split; [by constructor|]. by exists "0"%char, [].
    + done.
  - (* exponent *)
    assert (parse_exp ("e"%char :: exp_chars (k + e - 1) ++ r) = Some ((k + e - 1)%Z, r)) as Hx
      by by apply parse_exp_ok.
    exists m, e. split; [|apply Hnorm].
    destruct l as [|d l].
    + cbn [app]. unfold parse_unsigned. change (c :: ?x) with ([c] ++ x).
      rewrite parse_int_ok by done. cbn [mbind option_bind].
      rewrite parse_frac_skip by done. cbn [mbind option_bind]. rewrite Hx.
      cbn [mbind option_bind]. rewrite app_nil_r, Hv. do 3 f_equal. unfold k; cbn. lia.
    + cbn [app]. unfold parse_unsigned.
      rewrite <- app_assoc. cbn [app].
      change (c :: "."%char :: ?x) with ([c] ++ "."%char :: x).
      rewrite parse_int_ok; [|split; [by constructor | by exists c, []] | done].
      cbn [mbind option_bind]. unfold parse_frac. rewrite Ascii.eqb_refl.
      change (d :: l ++ ?x) with ((d :: l) ++ x). rewrite span_all by done.
      cbn [mbind option_bind]. rewrite Hx. cbn [mbind option_bind].
      change ([c] ++ d :: l) with (c :: d :: l). rewrite Hv. do 3 f_equal. unfold k; cbn. lia.
Qed.
End PosNum.

Lemma pos_num_head m e :
  (0 < m)%Z → ∃ c l, pos_num_to_chars m e = c :: l ∧ digit c = true.
Proof.
  intros Hm. destruct (pos_digits m Hm) as (c & l & Hl & _ & Hc & _ & _).
  unfold pos_num_to_chars. rewrite Hl.
  destruct ((_ <=? _)%Z && _) eqn:E1; [by eexists _, _|].
  destruct ((0 <? _)%Z && _) eqn:E2.
  { bool_prop. destruct (Z.to_nat _) as [|n] eqn:En; [lia|]. cbn. by eexists _, _. }
  destruct ((-6 <? _)%Z && _); [by eexists _, _|]. destruct l; by eexists _, _.
Qed.

Lemma parse_num_to_chars n r :
  num_wf n = true → is_finite n = true → num_stop r →
  parse_number (num_to_chars n ++ r) = Some (n, r).
Proof.
  destruct n as [| |m e]; try done. intros Hwf _ Hr. cbn [num_to_chars].
  destruct (Z.eqb_spec m 0) as [->|Hm0].
  { cbn in Hwf. apply orb_true_iff in Hwf as [Hwf|?]; [|done]. bool_prop. subst.
    unfold parse_number. cbn. unfold parse_unsigned.
    change ("0"%char :: r) with (["0"%char] ++ r).
    rewrite parse_int_ok; [|split; [by constructor | by exists "0"%char, []] | by apply num_stop_digit].
    cbn. rewrite parse_frac_skip by (destruct r; [done|]; by destruct Hr as (_ & ? & _)).
    cbn. by rewrite parse_exp_skip. }
  assert (m mod 10 ≠ 0)%Z as Hm10.
  { cbn in Hwf. apply orb_true_iff in Hwf as [?|Hwf]; bool_prop; done. }
  destruct (Z.ltb_spec m 0) as [Hneg|Hpos].
  - assert ((- m) mod 10 ≠ 0)%Z as Hm10'.
    { pose proof (Z_mod_nz_opp_full m 10 Hm10). pose proof (Z.mod_pos_bound m 10). lia. }
    destruct (parse_pos_num (- m) e ltac:(lia) Hm10' r Hr) as (m' & e' & Hp & _ & Hn).
    cbn [app parse_number]. rewrite Ascii.eqb_refl, Hp. cbn. rewrite Hn.
    by rewrite Z.opp_involutive.
  - destruct (parse_pos_num m e ltac:(lia) Hm10 r Hr) as (m' & e' & Hp & Hn & _).
    destruct (pos_num_head m e) as (c & l & Hc & Hd); [lia|].
    unfold parse_number. rewrite Hc in *. cbn [app] in *.
    destruct (Ascii.eqb_spec c "-") as [->|_]; [by vm_compute in Hd|].
    rewrite Hp. cbn. by rewrite Hn.
Qed.

(** [x + 1] on a double with the integer value [x]: exact below 2^53, rounded to
    the nearest even neighbour above. *)
Definition js_succ (x : Z) : Z :=
  if (x <? 2 ^ 53)%Z then (x + 1)%Z
  else if (x <? 2 ^ 54)%Z then (if (x mod 4 =? 0)%Z then x else x + 2)%Z
  else x.

Lemma js_succ_exact x : (x < 2 ^ 53)%Z → js_succ x = (x + 1)%Z.
Proof. intros Hx. unfold js_succ. by rewrite (proj2 (Z.ltb_lt _ _) Hx). Qed.
