(* ===== verification/Dates.v ===== *)
(** * Dates: [Date.prototype.toISOString] and [Date.parse]

    A [Date] is its time value, milliseconds since the epoch. [toISOString]
    is exact for every time value; [parse_iso] is [Date.parse] on the
    ECMAScript date-time format with seconds and a zone
    ([YYYY-MM-DDTHH:mm:ss], optional fraction, [Z] or [+HH:mm]). Other
    strings are parsed by rules ECMA-262 leaves to the implementation: they are
    the parameter [legacy_date_parse].

    [parse_iso_toISOString]: parsing a printed date gives the date back, for
    the years 0000 to 9999. *)

From S2P Require Import Prelude Regex JsNum.

Local Open Scope Z_scope.

Class DateHost := { legacy_date_parse : string → option Z }.

(** ** Calendar (proleptic Gregorian) *)

Definition ms_per_day : Z := 86400000.

(** Days since 0000-03-01 in a 400-year era, for year-of-era [yoe] and
    month counted from March. *)
Definition days_from_civil (y m d : Z) : Z :=
  let y := if m <=? 2 then y - 1 else y in
  let era := y / 400 in
  let yoe := y mod 400 in
  let mp := if 2 <? m then m - 3 else m + 9 in
  let doy := (153 * mp + 2) / 5 + d - 1 in
  let doe := yoe * 365 + yoe / 4 - yoe / 100 + doy in
  era * 146097 + doe - 719468.

Definition civil_of_doe (era doe : Z) : Z * Z * Z :=
  let yoe := (doe - doe / 1460 + doe / 36524 - doe / 146096) / 365 in
  let doy := doe - (365 * yoe + yoe / 4 - yoe / 100) in
  let mp := (5 * doy + 2) / 153 in
  let d := doy - (153 * mp + 2) / 5 + 1 in
  let m := if mp <? 10 then mp + 3 else mp - 9 in
  let y := yoe + era * 400 in
  ((if m <=? 2 then y + 1 else y), m, d).

Definition civil_from_days (z : Z) : Z * Z * Z :=
  civil_of_doe ((z + 719468) / 146097) ((z + 719468) mod 146097).

(** ** Printing *)

(** [String(n).padStart(w, "0")] *)
Definition pad (w : nat) (n : Z) : list ascii :=
  replicate (w - length (digits n)) "0"%char ++ digits n.

Definition year_chars (y : Z) : list ascii :=
  if (0 <=? y) && (y <=? 9999) then pad 4 y
  else (if y <? 0 then "-"%char else "+"%char) :: pad 6 (Z.abs y).

Definition iso_chars (t : Z) : list ascii :=
  let '(y, m, d) := civil_from_days (t / ms_per_day) in
  let r := t mod ms_per_day in
  year_chars y ++ "-"%char :: pad 2 m ++ "-"%char :: pad 2 d ++ "T"%char ::
  pad 2 (r / 3600000) ++ ":"%char :: pad 2 (r / 60000 mod 60) ++ ":"%char ::
  pad 2 (r / 1000 mod 60) ++ "."%char :: pad 3 (r mod 1000) ++ ["Z"%char].

Definition toISOString (t : Z) : string := of_chars (iso_chars t).

(** ** Parsing *)

Definition two (a b : ascii) : Z := digits_val [a; b].

(** The first three digits of a fraction, in milliseconds. *)
Definition frac_ms (ds : list ascii) : Z := digits_val (take 3 (ds ++ zeros 3)).

(** The zone designator: its offset in milliseconds. *)
Definition parse_zone (l : list ascii) : option Z :=
  match l with
  | [c] => if Ascii.eqb c "Z" then Some 0 else None
  | [s; h1; h2; c; m1; m2] =>
      if forallb digit [h1; h2; m1; m2] && Ascii.eqb c ":"
         && (two h1 h2 <=? 23) && (two m1 m2 <=? 59)
      then
        let off := (two h1 h2 * 60 + two m1 m2) * 60000 in
        if Ascii.eqb s "+" then Some off else if Ascii.eqb s "-" then Some (- off) else None
      else None
  | _ => None
  end.

Definition parse_seconds (l : list ascii) : option (Z * Z) :=
  match l with
  | c :: r =>
      if Ascii.eqb c "." then
        match span digit r with
        | ([], _) => None
        | (ds, r) => off ← parse_zone r; Some (frac_ms ds, off)
        end
      else off ← parse_zone l; Some (0, off)
  | [] => None
  end.

Definition parse_iso_chars (l : list ascii) : option Z :=
  match l with
  | y1 :: y2 :: y3 :: y4 :: c1 :: m1 :: m2 :: c2 :: d1 :: d2 :: c3 ::
    h1 :: h2 :: c4 :: n1 :: n2 :: c5 :: s1 :: s2 :: r =>
      if forallb digit [y1; y2; y3; y4; m1; m2; d1; d2; h1; h2; n1; n2; s1; s2]
         && Ascii.eqb c1 "-" && Ascii.eqb c2 "-" && Ascii.eqb c3 "T"
         && Ascii.eqb c4 ":" && Ascii.eqb c5 ":"
      then
        '(ms, off) ← parse_seconds r;
        let y := digits_val [y1; y2; y3; y4] in
        let m := two m1 m2 in let d := two d1 d2 in
        let h := two h1 h2 in let n := two n1 n2 in let s := two s1 s2 in
        if (1 <=? m) && (m <=? 12) && (1 <=? d) && (d <=? 31) && (n <=? 59) && (s <=? 59)
           && ((h <=? 23) || ((h =? 24) && (n =? 0) && (s =? 0) && (ms =? 0)))
        then Some (days_from_civil y m d * ms_per_day
                   + ((h * 60 + n) * 60 + s) * 1000 + ms - off)
        else None
      else None
  | _ => None
  end.

Definition parse_iso (s : string) : option Z := parse_iso_chars (chars s).

(** [Date.parse(s)], [None] for [NaN]. *)
Definition date_parse `{DateHost} (s : string) : option Z :=
  match parse_iso s with Some t => Some t | None => legacy_date_parse s end.

(** ** Round trip *)

(** The calendar functions are inverse on one era. The year-of-era formula is
    monotone, so it is enough to check the first and last day of each of the
    400 years, and the months and days of one year. *)
Fixpoint all_below (n : nat) (f : Z → bool) (z : Z) : bool :=
  match n with O => true | S n => f z && all_below n f (z + 1) end.

Lemma all_below_spec n f z :
  all_below n f z = true → ∀ x, z ≤ x < z + Z.of_nat n → f x = true.
Proof.
  revert z. induction n as [|n IH]; intros z H x Hx; [lia|]. cbn in H. bool_prop.
  destruct (Z.eq_dec x z) as [->|]; [done|]. apply (IH (z + 1)); [done|lia].
Qed.

Definition yoe_of (doe : Z) : Z := (doe - doe / 1460 + doe / 36524 - doe / 146096) / 365.
Definition year_start (yoe : Z) : Z := 365 * yoe + yoe / 4 - yoe / 100.
Definition year_end (yoe : Z) : Z := if yoe =? 399 then 146096 else year_start (yoe + 1) - 1.

Lemma yoe_of_mono a b : 0 ≤ a → a ≤ b → b < 146097 → yoe_of a ≤ yoe_of b.
Proof.
  intros Ha Hab Hb. unfold yoe_of. apply Z.div_le_mono; [lia|].
  div_facts a 1460.
  div_facts b 1460.
  div_facts a 36524.
  div_facts b 36524.
  div_facts a 146096.
  div_facts b 146096.
  assert (a / 1460 ≤ b / 1460) by (apply Z.div_le_mono; lia).
  assert (a / 36524 ≤ b / 36524) by (apply Z.div_le_mono; lia).
  assert (a - a / 1460 ≤ b - b / 1460) by lia. lia.
Qed.

Lemma years_checked :
  all_below 400 (λ y, (yoe_of (year_start y) =? y) && (yoe_of (year_end y) =? y)
                      && (year_end y - year_start y <=? 365)) 0 = true.
Proof. vm_compute. reflexivity. Qed.

Lemma yoe_of_spec doe :
  0 ≤ doe < 146097 →
  0 ≤ yoe_of doe < 400 ∧ 0 ≤ doe - year_start (yoe_of doe) ≤ 365.
Proof.
  intros Hdoe.
  assert (∃ y, 0 ≤ y < 400 ∧ year_start y ≤ doe ≤ year_end y) as (y & Hy & Hr).
  { assert (Hn : ∀ n : nat, (n ≤ 400)%nat → doe < (if (n =? 400)%nat then 146097 else year_start (Z.of_nat n)) →
      ∃ y, 0 ≤ y < Z.of_nat n ∧ year_start y ≤ doe ≤ year_end y).
    { induction n as [|n IH]; intros Hn Hlt.
      { change (doe < 0) in Hlt. lia. }
      destruct (Z.lt_ge_cases doe (year_start (Z.of_nat n))) as [H|H].
      - destruct IH as (y & ? & ?); [lia| |exists y; lia].
        by destruct (Nat.eqb_spec n 400); [lia|].
      - exists (Z.of_nat n). split; [lia|]. split; [done|]. unfold year_end.
        destruct (Nat.eqb_spec (S n) 400); destruct (Z.eqb_spec (Z.of_nat n) 399); try lia.
        replace (Z.of_nat n + 1) with (Z.of_nat (S n)) by lia. lia. }
    apply (Hn 400%nat); [lia|]. cbn. lia. }
  pose proof (all_below_spec _ _ _ years_checked y ltac:(lia)) as H.
  cbv beta in H. bool_prop.
  assert (0 ≤ year_start y).
  { unfold year_start. assert (y / 100 ≤ y / 4) by (apply Z.div_le_compat_l; lia). lia. }
  assert (year_end y < 146097) as Hend.
  { div_facts (y + 1) 4.
    assert (0 ≤ (y + 1) / 100) by (apply Z.div_pos; lia).
    unfold year_end. destruct (Z.eqb_spec y 399); [lia|]. unfold year_start. lia. }
  assert (yoe_of doe = y) as ->.
  { pose proof (yoe_of_mono (year_start y) doe ltac:(lia) ltac:(lia) ltac:(lia)).
    pose proof (yoe_of_mono doe (year_end y) ltac:(lia) ltac:(lia) ltac:(lia)). lia. }
  lia.
Qed.

(** Month and day of the [doy]-th day of a year that starts in March. *)
Definition month_day (doy : Z) : Z * Z :=
  let mp := (5 * doy + 2) / 153 in
  ((if mp <? 10 then mp + 3 else mp - 9), doy - (153 * mp + 2) / 5 + 1).

Definition month_day_ok (doy : Z) : bool :=
  let '(m, d) := month_day doy in
  (1 <=? m) && (m <=? 12) && (1 <=? d) && (d <=? 31)
  && ((153 * (if 2 <? m then m - 3 else m + 9) + 2) / 5 + d - 1 =? doy).

Lemma months_checked : all_below 366 month_day_ok 0 = true.
Proof. vm_compute. reflexivity. Qed.

Lemma civil_of_doe_spec doe :
  0 ≤ doe < 146097 →
  let '(y, m, d) := civil_of_doe 0 doe in
  1 ≤ m ≤ 12 ∧ 1 ≤ d ≤ 31 ∧ days_from_civil y m d = doe - 719468.
Proof.
  intros Hdoe. destruct (yoe_of_spec doe Hdoe) as [Hyoe Hdoy].
  pose proof (all_below_spec _ _ _ months_checked (doe - year_start (yoe_of doe)) ltac:(lia)) as Hok.
  unfold civil_of_doe. fold (yoe_of doe). fold (year_start (yoe_of doe)).
  set (doy := doe - year_start (yoe_of doe)) in *.
  unfold month_day_ok, month_day in Hok. cbv zeta beta in Hok.
  set (mp := (5 * doy + 2) / 153) in *. set (m := if mp <? 10 then mp + 3 else mp - 9) in *.
  set (d := doy - (153 * mp + 2) / 5 + 1) in *. bool_prop.
  split; [lia|]. split; [lia|]. unfold days_from_civil.
  assert ((if m <=? 2 then (if m <=? 2 then yoe_of doe + 0 * 400 + 1 else yoe_of doe + 0 * 400) - 1
           else (if m <=? 2 then yoe_of doe + 0 * 400 + 1 else yoe_of doe + 0 * 400)) = yoe_of doe) as ->
    by (destruct (m <=? 2); lia).
  rewrite Z.div_small, Z.mod_small by lia. unfold doy, year_start in *. lia.
Qed.

Lemma days_from_civil_shift y m d k :
  days_from_civil (y + k * 400) m d = days_from_civil y m d + k * 146097.
Proof.
  unfold days_from_civil.
  set (y0 := if m <=? 2 then y - 1 else y).
  assert ((if m <=? 2 then y + k * 400 - 1 else y + k * 400) = y0 + k * 400) as ->
    by (unfold y0; destruct (m <=? 2); lia).
  rewrite Z.div_add, Z.mod_add by lia. lia.
Qed.

Lemma civil_of_doe_shift era doe :
  ∃ y m d, civil_of_doe 0 doe = (y, m, d) ∧ civil_of_doe era doe = (y + era * 400, m, d).
Proof.
  unfold civil_of_doe. eexists _, _, _. split; [reflexivity|].
  f_equal. f_equal. destruct (_ <=? 2); lia.
Qed.

Lemma civil_from_days_spec z :
  let '(y, m, d) := civil_from_days z in
  1 ≤ m ≤ 12 ∧ 1 ≤ d ≤ 31 ∧ days_from_civil y m d = z.
Proof.
  unfold civil_from_days.
  set (era := (z + 719468) / 146097). set (doe := (z + 719468) mod 146097).
  assert (0 ≤ doe < 146097) as Hdoe by (apply Z.mod_pos_bound; lia).
  assert (z + 719468 = 146097 * era + doe) as Hz by (apply Z.div_mod; lia).
  pose proof (civil_of_doe_spec doe Hdoe) as Hok.
  destruct (civil_of_doe_shift era doe) as (y & m & d & E0 & ->).
  rewrite E0 in Hok. destruct Hok as (Hm & Hd & Hday).
  rewrite days_from_civil_shift. lia.
Qed.

(** Padded numerals. *)
Lemma digits_length n w :
  0 ≤ n < 10 ^ Z.of_nat w → (0 < w)%nat → (length (digits n) ≤ w)%nat.
Proof.
  intros Hn Hw. destruct (digits_spec n) as (Hv & Hd & c & l & Hl & Hc); [lia|].
  rewrite Hl in *. destruct (decide (code c = 48)) as [E|E].
  { destruct (Hc E) as [_ ->]. cbn. lia. }
  rewrite digits_val_cons in Hv.
  assert (0 ≤ digits_val l) as Hl0.
  { inversion Hd as [|? ? _ Hd']; subst. clear -Hd'.
    induction l as [|a l IH] using rev_ind; [done|].
    apply Forall_app in Hd' as [Hl Ha]. inversion Ha as [|? ? Ha' _]; subst.
    rewrite digits_val_app. specialize (IH Hl).
    assert (0 ≤ digits_val [a]); [|nia].
    unfold digit, in_range in Ha'. bool_prop. change (digits_val [a]) with (digit_val a).
    unfold digit_val. change (code "0") with 48 in *. lia. }
  assert (1 ≤ digit_val c).
  { inversion Hd as [|? ? Hc' _]; subst. unfold digit, in_range in Hc'. bool_prop.
    unfold digit_val. change (code "0") with 48 in *. lia. }
  cbn [length]. destruct (le_lt_dec (S (length l)) w) as [|Hlt]; [done|exfalso].
  assert (10 ^ Z.of_nat w ≤ 10 ^ Z.of_nat (length l)) by (apply Z.pow_le_mono_r; lia).
  nia.
Qed.

Lemma pad_spec w n :
  0 ≤ n < 10 ^ Z.of_nat w → (0 < w)%nat →
  length (pad w n) = w ∧ Forall (λ c, digit c = true) (pad w n) ∧ digits_val (pad w n) = n.
Proof.
  intros Hn Hw. pose proof (digits_length n w Hn Hw) as Hlen.
  destruct (digits_spec n) as (Hv & Hd & _); [lia|]. unfold pad. split; [|split].
  - rewrite length_app, length_replicate. lia.
  - apply Forall_app; split; [by apply Forall_replicate|done].
  - rewrite digits_val_app, Hv.
    assert (digits_val (replicate (w - length (digits n)) "0"%char) = 0) as ->; [|lia].
    rewrite <- (Nat2Z.id (w - length (digits n))) at 1. apply digits_val_zeros.
Qed.

Lemma pad2 n : 0 ≤ n < 100 →
  ∃ a b, pad 2 n = [a; b] ∧ digit a = true ∧ digit b = true ∧ two a b = n.
Proof.
  intros Hn. destruct (pad_spec 2 n) as (Hl & Hd & Hv); [done|lia|].
  destruct (pad 2 n) as [|a [|b [|]]]; try done.
  inversion Hd as [|? ? Ha Hd']; subst. inversion Hd' as [|? ? Hb _]; subst.
  by exists a, b.
Qed.

(** The years with a four-digit form. *)
Definition min_time : Z := -62167219200000.   (* 0000-01-01T00:00:00.000Z *)
Definition max_time : Z := 253402300799999.   (* 9999-12-31T23:59:59.999Z *)

Lemma days_from_civil_lower y m d :
  1 ≤ m ≤ 12 → 1 ≤ d ≤ 31 → y < 0 → days_from_civil y m d < -719528.
Proof.
  intros Hm Hd Hy. unfold days_from_civil.
  set (y0 := if m <=? 2 then y - 1 else y).
  assert (y0 ≤ -1) as Hy0 by (unfold y0; destruct (m <=? 2); lia).
  assert (y0 = -1 → 3 ≤ m) as Hy1 by (unfold y0; destruct (Z.leb_spec m 2); lia).
  div_facts y0 400.
  destruct (Z.eq_dec y0 (-1)) as [->|].
  - specialize (Hy1 eq_refl). change (-1 / 400) with (-1). change (-1 mod 400) with 399.
    change (399 / 4) with 99. change (399 / 100) with 3.
    destruct (Z.ltb_spec 2 m); [|lia].
    assert ((153 * (m - 3) + 2) / 5 < 276)%Z; [|lia].
    apply Z.div_lt_upper_bound; lia.
  - assert ((153 * (if 2 <? m then m - 3 else m + 9) + 2) / 5 ≤ 337)%Z.
    { apply Z.div_le_upper_bound; [lia|]. destruct (Z.ltb_spec 2 m); lia. }
    set (yoe := y0 mod 400) in *.
    assert (yoe / 4 - yoe / 100 ≤ yoe / 4) by (pose proof (Z.div_pos yoe 100); lia).
    assert (y0 / 400 < 0) by (apply Z.div_lt_upper_bound; lia).
    div_facts yoe 4.
    div_facts yoe 100.
    destruct (Z.eq_dec (y0 / 400) (-1)); lia.
Qed.

Lemma days_from_civil_upper y m d :
  1 ≤ m ≤ 12 → 1 ≤ d ≤ 31 → 9999 < y → 2932896 < days_from_civil y m d.
Proof.
  intros Hm Hd Hy. unfold days_from_civil.
  set (y0 := if m <=? 2 then y - 1 else y).
  assert (9999 ≤ y0) as Hy0 by (unfold y0; destruct (m <=? 2); lia).
  assert (y0 = 9999 → m ≤ 2) as Hy1 by (unfold y0; destruct (Z.leb_spec m 2); lia).
  div_facts y0 400.
  set (yoe := y0 mod 400) in *.
  div_facts yoe 4.
  div_facts yoe 100.
  destruct (Z.eq_dec y0 9999) as [E|].
  - specialize (Hy1 E). assert (yoe = 399) by (unfold yoe; by rewrite E).
    assert (y0 / 400 = 24) by (by rewrite E).
    destruct (Z.ltb_spec 2 m); [lia|].
    assert (306 ≤ (153 * (m + 9) + 2) / 5)%Z; [|lia].
    apply Z.div_le_lower_bound; lia.
  - assert (0 ≤ (153 * (if 2 <? m then m - 3 else m + 9) + 2) / 5)%Z.
    { apply Z.div_pos; [|lia]. destruct (Z.ltb_spec 2 m); lia. }
    assert (25 ≤ y0 / 400) by (apply Z.div_le_lower_bound; lia).
    lia.
Qed.

Lemma civil_year_range t :
  min_time ≤ t ≤ max_time → let '(y, _, _) := civil_from_days (t / ms_per_day) in 0 ≤ y ≤ 9999.
Proof.
  intros Ht. pose proof (civil_from_days_spec (t / ms_per_day)) as H.
  destruct (civil_from_days _) as [[y m] d]. destruct H as (Hm & Hd & Hz).
  assert (-719528 ≤ t / ms_per_day ≤ 2932896).
  { unfold min_time, max_time, ms_per_day in *. split.
    - apply Z.div_le_lower_bound; lia.
    - apply Z.lt_succ_r. apply Z.div_lt_upper_bound; lia. }
  destruct (Z.lt_ge_cases y 0).
  - pose proof (days_from_civil_lower y m d). lia.
  - destruct (Z.lt_ge_cases 9999 y); [|lia].
    pose proof (days_from_civil_upper y m d). lia.
Qed.

(** The parts of a time of day. *)
Lemma time_of_day r :
  0 ≤ r < ms_per_day →
  0 ≤ r / 3600000 < 24 ∧ 0 ≤ r / 60000 mod 60 < 60 ∧ 0 ≤ r / 1000 mod 60 < 60 ∧
  0 ≤ r mod 1000 < 1000 ∧
  ((r / 3600000 * 60 + r / 60000 mod 60) * 60 + r / 1000 mod 60) * 1000 + r mod 1000 = r.
Proof.
  unfold ms_per_day. intros Hr.
  div_facts r 1000.
  replace (r / 60000) with (r / 1000 / 60) by (rewrite Z.div_div by lia; f_equal; lia).
  replace (r / 3600000) with (r / 1000 / 60 / 60) by (rewrite !Z.div_div by lia; f_equal; lia).
  div_facts (r / 1000) 60.
  div_facts (r / 1000 / 60) 60.
  lia.
Qed.

Lemma parse_iso_chars_toISO t :
  min_time ≤ t ≤ max_time → parse_iso_chars (iso_chars t) = Some t.
Proof.
  intros Ht. unfold iso_chars.
  pose proof (civil_year_range t Ht) as Hy.
  pose proof (civil_from_days_spec (t / ms_per_day)) as H.
  destruct (civil_from_days _) as [[y m] d]. destruct H as (Hm & Hd & Hz).
  set (r := t mod ms_per_day).
  assert (0 ≤ r < ms_per_day) as Hr by (apply Z.mod_pos_bound; done).
  destruct (time_of_day r Hr) as (Hh & Hn & Hs & Hms & Hsum).
  unfold year_chars. rewrite (proj2 (Z.leb_le _ _)), (proj2 (Z.leb_le _ _)) by lia. cbn [andb].
  destruct (pad_spec 4 y) as (Hly & Hdy & Hvy); [cbn; lia|lia|].
  destruct (pad 4 y) as [|y1 [|y2 [|y3 [|y4 [|]]]]]; try done.
  destruct (pad2 m) as (m1 & m2 & -> & Hm1 & Hm2 & Hvm); [lia|].
  destruct (pad2 d) as (d1 & d2 & -> & Hd1 & Hd2 & Hvd); [lia|].
  destruct (pad2 (r / 3600000)) as (h1 & h2 & -> & Hh1 & Hh2 & Hvh); [lia|].
  destruct (pad2 (r / 60000 mod 60)) as (n1 & n2 & -> & Hn1 & Hn2 & Hvn); [lia|].
  destruct (pad2 (r / 1000 mod 60)) as (s1 & s2 & -> & Hs1 & Hs2 & Hvs); [lia|].
  destruct (pad_spec 3 (r mod 1000)) as (Hlf & Hdf & Hvf); [cbn; lia|lia|].
  cbn [app parse_iso_chars].
  assert (Hsec : parse_seconds ("."%char :: pad 3 (r mod 1000) ++ ["Z"%char]) = Some (r mod 1000, 0)).
  { unfold parse_seconds. rewrite Ascii.eqb_refl, span_all by done.
    destruct (pad 3 (r mod 1000)) as [|f1 [|f2 [|f3 [|]]]]; try done.
    unfold frac_ms. cbn [app take]. rewrite take_0, Hvf. by cbn. }
  rewrite Hsec. cbn [mbind option_bind].
  rewrite !Forall_cons in Hdy. destruct Hdy as (Hy1 & Hy2 & Hy3 & Hy4 & _).
  cbn [forallb]. rewrite Hy1, Hy2, Hy3, Hy4, Hm1, Hm2, Hd1, Hd2, Hh1, Hh2, Hn1, Hn2, Hs1, Hs2.
  cbn [andb Ascii.eqb Bool.eqb]. rewrite Hvy, Hvm, Hvd, Hvh, Hvn, Hvs.
  rewrite !(proj2 (Z.leb_le _ _)) by lia. cbn [andb orb]. f_equal.
  rewrite Hz. pose proof (Z.div_mod t ms_per_day). fold r in H. unfold ms_per_day in *. lia.
Qed.

Lemma parse_iso_toISOString t :
  min_time ≤ t ≤ max_time → parse_iso (toISOString t) = Some t.
Proof.
  intros Ht. unfold parse_iso, toISOString. rewrite chars_of_chars. by apply parse_iso_chars_toISO.
Qed.

Example iso_epoch : toISOString 0 = "1970-01-01T00:00:00.000Z".
Proof. vm_compute. reflexivity. Qed.
Example iso_2026 : parse_iso "2026-06-10T00:00:00.000Z" = Some 1781049600000.
Proof. vm_compute. reflexivity. Qed.
