(* ===== verification/JsVal.v ===== *)
(** * JavaScript values

    The values that reach the protocol code: JSON data as [JSON.parse] or a host
    produces it, [undefined], [Date] objects, and everything else ([VOther], a
    function, symbol or bigint, with the text [String(value)] gives).

    An object is the list of its own enumerable string-keyed properties in the
    order in which the language enumerates them (integer indices ascending,
    then the other keys by creation). [obj_define] creates a data property
    (object literals, spread, [JSON.parse]); [obj_assign] is the assignment
    [o[k] = v] on an ordinary object, where ["__proto__"] sets the prototype
    and creates no own property.

    Strings are sequences of UTF-16 code units, each below 256 ([ascii] as an
    8-bit code unit). *)

From S2P Require Import Prelude Regex JsNum.

Inductive val : Type :=
| VUndef
| VNull
| VBool (b : bool)
| VNum (n : num)
| VStr (s : string)
| VArr (xs : list val)
| VObj (fs : list (string * val))
| VDate (t : option Z)          (* milliseconds since the epoch, [None]: Invalid Date *)
| VOther (repr : string).

Definition VInt (z : Z) : val := VNum (num_of_Z z).

(** Induction with hypotheses for the elements of arrays and objects. *)
Section ValInd.
Variable P : val → Prop.
Hypothesis Hundef : P VUndef.
Hypothesis Hnull : P VNull.
Hypothesis Hbool : ∀ b, P (VBool b).
Hypothesis Hnum : ∀ n, P (VNum n).
Hypothesis Hstr : ∀ s, P (VStr s).
Hypothesis Harr : ∀ xs, Forall P xs → P (VArr xs).
Hypothesis Hobj : ∀ fs, Forall (λ kv, P kv.2) fs → P (VObj fs).
Hypothesis Hdate : ∀ t, P (VDate t).
Hypothesis Hother : ∀ r, P (VOther r).

Fixpoint val_rect_nested (v : val) : P v :=
  match v with
  | VUndef => Hundef
  | VNull => Hnull
  | VBool b => Hbool b
  | VNum n => Hnum n
  | VStr s => Hstr s
  | VArr xs => Harr xs
      ((fix go xs := match xs return Forall P xs with
        | [] => Forall_nil_2 _
        | x :: xs => Forall_cons_2 _ _ _ (val_rect_nested x) (go xs)
        end) xs)
  | VObj fs => Hobj fs
      ((fix go fs := match fs return Forall (λ kv, P kv.2) fs with
        | [] => Forall_nil_2 _
        | (k, x) :: fs => Forall_cons_2 _ (k, x) _ (val_rect_nested x) (go fs)
        end) fs)
  | VDate t => Hdate t
  | VOther r => Hother r
  end.
End ValInd.

(** ** Property keys *)

Definition keys (fs : list (string * val)) : list string := fst <$> fs.

(** The array index a key denotes: a canonical numeral below [2^32 - 1]. *)
Definition array_index (k : string) : option Z :=
  match chars k with
  | [] => None
  | c :: ds =>
      if forallb digit (c :: ds) && negb (Ascii.eqb c "0" && negb (Nat.eqb (length ds) 0))
         && (digits_val (c :: ds) <? 4294967295)%Z
      then Some (digits_val (c :: ds)) else None
  end.

(** [a] may come before [b] in the enumeration of one object. *)
Definition key_before (a b : string) : bool :=
  match array_index a, array_index b with
  | Some i, Some j => (i <? j)%Z
  | Some _, None => true
  | None, Some _ => false
  | None, None => negb (String.eqb a b)
  end.

(** The keys are distinct and enumerated in the language's order. *)
Fixpoint keys_ordered (l : list string) : bool :=
  match l with [] => true | k :: l => forallb (key_before k) l && keys_ordered l end.

(** ** Own properties *)

Fixpoint obj_get (k : string) (fs : list (string * val)) : option val :=
  match fs with
  | [] => None
  | (k', v) :: fs => if String.eqb k' k then Some v else obj_get k fs
  end.

Definition obj_has (k : string) (fs : list (string * val)) : bool :=
  match obj_get k fs with Some _ => true | None => false end.

Fixpoint obj_replace (k : string) (v : val) (fs : list (string * val)) :=
  match fs with
  | [] => []
  | (k', v') :: fs => if String.eqb k' k then (k', v) :: fs else (k', v') :: obj_replace k v fs
  end.

(** A new index goes before the first key it precedes, any other key to the end. *)
Definition goes_before (k k' : string) : bool :=
  match array_index k with Some _ => key_before k k' | None => false end.

Fixpoint obj_add (k : string) (v : val) (fs : list (string * val)) :=
  match fs with
  | [] => [(k, v)]
  | (k', v') :: fs' =>
      if goes_before k k'
      then (k, v) :: fs else (k', v') :: obj_add k v fs'
  end.

Definition obj_define (k : string) (v : val) (fs : list (string * val)) :=
  if obj_has k fs then obj_replace k v fs else obj_add k v fs.

Definition obj_assign (k : string) (v : val) (fs : list (string * val)) :=
  if String.eqb k "__proto__" && negb (obj_has k fs) then fs else obj_define k v fs.

(** The rest pattern [{ [k]: _, ...rest }]. *)
Fixpoint obj_omit (k : string) (fs : list (string * val)) :=
  match fs with
  | [] => []
  | (k', v) :: fs => if String.eqb k' k then obj_omit k fs else (k', v) :: obj_omit k fs
  end.

(** An object literal (or spread) with the given properties. *)
Definition obj_lit (fs : list (string * val)) : val :=
  VObj (fold_left (λ acc kv, obj_define kv.1 kv.2 acc) fs []).

(** A property that is present only when the optional value is. *)
Definition opt_field (k : string) (o : option val) : list (string * val) :=
  match o with Some v => [(k, v)] | None => [] end.

(** The names [Object.prototype] answers for. *)
Definition object_prototype_keys : list string :=
  ["constructor"; "__defineGetter__"; "__defineSetter__"; "hasOwnProperty"; "__lookupGetter__"; "__lookupSetter__";
   "isPrototypeOf"; "propertyIsEnumerable"; "toString"; "valueOf"; "__proto__"; "toLocaleString"].

(** ** Reading values *)

(** [v.k]: throws on [undefined] and [null]; other primitives, arrays and
    dates have none of the properties the sources read by name. *)
Definition vget (v : val) (k : string) : exc val :=
  match v with
  | VUndef | VNull => Throw "cannot read properties of undefined or null"
  | VObj fs => Ret (default VUndef (obj_get k fs))
  | _ => Ret VUndef
  end.

(** [v?.k] *)
Definition vget_opt (v : val) (k : string) : val :=
  match v with
  | VObj fs => default VUndef (obj_get k fs)
  | _ => VUndef
  end.

Definition truthy (v : val) : bool :=
  match v with
  | VUndef | VNull => false
  | VBool b => b
  | VNum NNaN => false
  | VNum (NFin m _) => negb (m =? 0)%Z
  | VNum (NInf _) => true
  | VStr s => negb (String.eqb s "")
  | _ => true
  end.

(** [v === w]; two object values of the model are never the same reference. *)
Definition strict_eq (v w : val) : bool :=
  match v, w with
  | VUndef, VUndef | VNull, VNull => true
  | VBool a, VBool b => Bool.eqb a b
  | VNum NNaN, VNum _ => false
  | VNum a, VNum b => bool_decide (a = b)
  | VStr a, VStr b => String.eqb a b
  | _, _ => false
  end.

(** [v ?? d] *)
Definition nullish_or (v d : val) : val :=
  match v with VUndef | VNull => d | _ => v end.

Definition is_string (v : val) : bool := match v with VStr _ => true | _ => false end.
Definition is_undef (v : val) : bool := match v with VUndef => true | _ => false end.
Definition is_null (v : val) : bool := match v with VNull => true | _ => false end.

(** [typeof value === "object" && value !== null && !Array.isArray(value)] *)
Definition is_plain_object (v : val) : bool :=
  match v with VObj _ | VDate _ => true | _ => false end.

(** The own enumerable keys of such a value. *)
Definition own_keys (v : val) : list string :=
  match v with VObj fs => keys fs | _ => [] end.

(** An optional string as a property value. *)
Definition vstr_opt (o : option string) : option val := VStr <$> o.
Definition vnull_or_str (o : option string) : val :=
  match o with Some s => VStr s | None => VNull end.

(** ** Strings *)

(** White space and line terminators among the code units below 256. *)
Definition js_space (c : ascii) : bool :=
  let n := code c in
  ((9 <=? n) && (n <=? 13) || (n =? 32) || (n =? 160))%Z.

(** [s.trim().length === 0] *)
Definition blank (s : string) : bool := forallb js_space (chars s).

(** [typeof value !== "string" || value.trim().length === 0], negated. *)
Definition non_blank_string (v : val) : bool :=
  match v with VStr s => negb (blank s) | _ => false end.

(** ** JSON data *)

(** Values in the range of [JSON.parse]. *)
Fixpoint is_json (v : val) : bool :=
  match v with
  | VNull | VBool _ | VStr _ => true
  | VNum n => num_wf n && is_finite n
  | VArr xs => forallb is_json xs
  | VObj fs => keys_ordered (fst <$> fs) && forallb (λ kv, is_json kv.2) fs
  | _ => false
  end.

(** ** Lemmas on property lists *)

Lemma obj_get_elem k v fs : obj_get k fs = Some v → (k, v) ∈ fs.
Proof.
  induction fs as [|[k' v'] fs IH]; cbn; [done|].
  destruct (String.eqb_spec k' k) as [->|]; [intros [= ->]; left | right; auto].
Qed.

Lemma obj_get_None k fs : obj_get k fs = None ↔ k ∉ keys fs.
Proof.
  induction fs as [|[k' v'] fs IH]; cbn; [by split; [intros _ ?%elem_of_nil|]|].
  rewrite elem_of_cons. destruct (String.eqb_spec k' k) as [->|Hne]; 
    [split; [done | intros []; by left]|].
  rewrite IH. split; [intros H [?|?]; [congruence|done] | intros H ?; apply H; by right].
Qed.

Lemma obj_has_spec k fs : obj_has k fs = true ↔ k ∈ keys fs.
Proof.
  unfold obj_has. destruct (obj_get k fs) as [v|] eqn:E.
  - split; [|done]. intros _. apply obj_get_elem in E.
    by apply (list_elem_of_fmap_2 fst) in E.
  - apply obj_get_None in E. split; [done | intros H; by apply E in H].
Qed.

Lemma obj_has_false k fs : obj_has k fs = false ↔ k ∉ keys fs.
Proof. rewrite <- obj_has_spec. by destruct (obj_has k fs). Qed.

Lemma obj_get_NoDup k v fs : NoDup (keys fs) → (k, v) ∈ fs → obj_get k fs = Some v.
Proof.
  induction fs as [|[k' v'] fs IH]; cbn; [by intros _ ?%elem_of_nil|].
  intros Hnd Hin. apply NoDup_cons in Hnd as [Hk Hnd].
  apply elem_of_cons in Hin as [[= -> ->]|Hin]; [by rewrite String.eqb_refl|].
  destruct (String.eqb_spec k' k) as [->|]; [|by apply IH].
  destruct Hk. by apply (list_elem_of_fmap_2 fst) in Hin.
Qed.

Lemma obj_omit_sublist k fs : obj_omit k fs `sublist_of` fs.
Proof.
  induction fs as [|[k' v] fs IH]; cbn; [done|].
  destruct (String.eqb k' k); by constructor.
Qed.

Lemma obj_omit_elem k k' v fs : (k', v) ∈ obj_omit k fs ↔ (k', v) ∈ fs ∧ k' ≠ k.
Proof.
  induction fs as [|[a w] fs IH]; cbn.
  - split; [by intros ?%elem_of_nil | by intros [?%elem_of_nil _]].
  - destruct (String.eqb_spec a k) as [->|Hne]; rewrite ?elem_of_cons, IH.
    + split; [by intros [? ?]; split; [right|] | by intros [[[= -> ->]|?] ?]].
    + split.
      * intros [[= -> ->]|[? ?]]; split; auto.
      * intros [[[= -> ->]|?] ?]; auto.
Qed.

Lemma obj_get_omit k k' fs : k ≠ k' → obj_get k (obj_omit k' fs) = obj_get k fs.
Proof.
  intros Hne. induction fs as [|[a v] fs IH]; [done|]. cbn.
  destruct (String.eqb_spec a k') as [->|]; cbn.
  - rewrite IH. by destruct (String.eqb_spec k' k) as [->|].
  - destruct (String.eqb_spec a k); [done|]. exact IH.
Qed.

Lemma key_before_irrefl k : key_before k k = false.
Proof. unfold key_before. destruct (array_index k); [lia|]. by rewrite String.eqb_refl. Qed.

Lemma keys_ordered_NoDup l : keys_ordered l = true → NoDup l.
Proof.
  induction l as [|k l IH]; cbn; [constructor|]. intros [Hk Hl]%andb_true_iff.
  constructor; [|by apply IH]. intros Hin.
  rewrite forallb_forall in Hk. apply list_elem_of_In in Hin. apply Hk in Hin.
  by rewrite key_before_irrefl in Hin.
Qed.

Lemma obj_add_perm k v fs : obj_add k v fs ≡ₚ (k, v) :: fs.
Proof.
  induction fs as [|[k' v'] fs IH]; cbn; [done|].
  destruct (goes_before k k'); [done|]. rewrite IH. constructor.
Qed.

Lemma obj_define_new k v fs : k ∉ keys fs → obj_define k v fs = obj_add k v fs.
Proof. intros H. unfold obj_define. by rewrite (proj2 (obj_has_false _ _) H). Qed.

(** A key enumerated after all the others is appended. *)
Lemma obj_add_last k v fs :
  keys_ordered (keys fs ++ [k]) = true → obj_add k v fs = fs ++ [(k, v)].
Proof.
  induction fs as [|[k' v'] fs IH]; cbn; [done|]. intros [Hk Hl]%andb_true_iff.
  rewrite IH by done.
  rewrite forallb_app in Hk. apply andb_true_iff in Hk as [_ Hk]. cbn in Hk.
  rewrite andb_true_r in Hk. unfold goes_before, key_before in *.
  destruct (array_index k) as [i|], (array_index k') as [j|]; try done.
  by rewrite (proj2 (Z.ltb_ge _ _)) by lia.
Qed.

Lemma keys_ordered_app l1 l2 :
  keys_ordered (l1 ++ l2) = true →
  keys_ordered l1 = true ∧ keys_ordered l2 = true.
Proof.
  induction l1 as [|k l1 IH]; cbn; [done|]. rewrite forallb_app.
  intros [[-> _]%andb_true_iff [-> ->]%IH]%andb_true_iff. done.
Qed.

(** Defining properties in enumeration order rebuilds the object. *)
Lemma fold_define fs acc :
  keys_ordered (keys acc ++ keys fs) = true →
  fold_left (λ acc kv, obj_define kv.1 kv.2 acc) fs acc = acc ++ fs.
Proof.
  revert acc. induction fs as [|[k v] fs IH]; intros acc H; cbn; [by rewrite app_nil_r|].
  change (keys ((k, v) :: fs)) with ([k] ++ keys fs) in H. rewrite app_assoc in H.
  assert (keys_ordered (keys acc ++ [k]) = true) as Hk by (by apply keys_ordered_app in H as [? _]).
  rewrite obj_define_new, obj_add_last, IH by
    (try done; unfold keys in *; try (by rewrite fmap_app);
     apply keys_ordered_NoDup in Hk; apply NoDup_app in Hk as (_ & Hk & _);
     intros Hin; apply (Hk _ Hin); by left).
  by rewrite <- app_assoc.
Qed.

Lemma obj_lit_id fs : keys_ordered (keys fs) = true → obj_lit fs = VObj fs.
Proof. intros H. unfold obj_lit. by rewrite fold_define. Qed.

Lemma is_json_obj fs :
  is_json (VObj fs) = true ↔ keys_ordered (keys fs) = true ∧ Forall (λ kv, is_json kv.2 = true) fs.
Proof.
  cbn. rewrite andb_true_iff, forallb_forall, Forall_forall.
  by setoid_rewrite list_elem_of_In.
Qed.

Lemma is_json_arr xs : is_json (VArr xs) = true ↔ Forall (λ x, is_json x = true) xs.
Proof. cbn. rewrite forallb_forall, Forall_forall. by setoid_rewrite list_elem_of_In. Qed.

Lemma keys_ordered_sublist l l' : l `sublist_of` l' → keys_ordered l' = true → keys_ordered l = true.
Proof.
  induction 1 as [|k l l' Hs IH|k l l' Hs IH]; cbn; [done| |].
  - intros [Hk Hl]%andb_true_iff. rewrite (IH Hl), andb_true_r.
    rewrite forallb_forall in *. intros x Hx. apply Hk. apply list_elem_of_In in Hx.
    apply list_elem_of_In. by eapply elem_of_sublist.
  - intros [_ Hl]%andb_true_iff. auto.
Qed.

Lemma is_json_omit k fs : is_json (VObj fs) = true → is_json (VObj (obj_omit k fs)) = true.
Proof.
  rewrite !is_json_obj. pose proof (obj_omit_sublist k fs) as Hs. intros [Hk Hf]. split.
  - eapply keys_ordered_sublist; [|exact Hk]. clear -Hs. induction Hs; cbn; by constructor.
  - rewrite Forall_forall in *. intros x Hx. apply Hf. by eapply elem_of_sublist.
Qed.

Lemma is_json_int z : is_json (VInt z) = true.
Proof. cbn. by rewrite num_of_Z_wf, num_of_Z_finite. Qed.
#[export] Hint Resolve is_json_int : veritio.

Lemma strict_eq_str v s : strict_eq v (VStr s) = true ↔ v = VStr s.
Proof.
  destruct v as [| | |n| | | | |]; cbn; try done; [by destruct n|].
  rewrite String.eqb_eq. split; congruence.
Qed.

(** ** [Map] keyed by JavaScript values

    The entries in insertion order; keys are compared by value for primitives
    and never equal for objects ([SameValueZero], no key of the sources is
    [NaN]). *)
Section JsMap.
Context {A : Type}.

Fixpoint map_get (k : val) (m : list (val * A)) : option A :=
  match m with
  | [] => None
  | (k', a) :: m => if strict_eq k' k then Some a else map_get k m
  end.

Fixpoint map_set (k : val) (a : A) (m : list (val * A)) : list (val * A) :=
  match m with
  | [] => [(k, a)]
  | (k', b) :: m => if strict_eq k' k then (k', a) :: m else (k', b) :: map_set k a m
  end.

Lemma map_get_set s s' a m :
  map_get (VStr s') (map_set (VStr s) a m) =
  if String.eqb s s' then Some a else map_get (VStr s') m.
Proof.
  induction m as [|[k b] m IH]; cbn; [done|].
  destruct (strict_eq k (VStr s)) eqn:E; cbn.
  - apply strict_eq_str in E as ->. cbn. by destruct (String.eqb s s').
  - rewrite IH. destruct (strict_eq k (VStr s')) eqn:E'; [|done].
    apply strict_eq_str in E' as ->. cbn in E. bool_prop.
    by rewrite (proj2 (String.eqb_neq s s')) by congruence.
Qed.
End JsMap.

(** ** Own properties of any value (spread and rest patterns) *)
Definition index_key (i : nat) : string := of_chars (digits (Z.of_nat i)).

Definition own_props (v : val) : exc (list (string * val)) :=
  match v with
  | VUndef | VNull => Throw "cannot destructure undefined or null"
  | VObj fs => Ret fs
  | VArr xs => Ret (imap (λ i x, (index_key i, x)) xs)
  | VStr s => Ret (imap (λ i c, (index_key i, VStr (String c ""))) (chars s))
  | _ => Ret []
  end.

Lemma strict_eq_true v w : strict_eq v w = true → v = w.
Proof.
  unfold strict_eq. destruct v as [| |b|n| | | | |], w as [| |b'|m| | | | |]; try done; try (by destruct n).
  - by destruct b, b'.
  - destruct n, m; try done; intros E%bool_decide_eq_true; congruence.
  - by intros ->%String.eqb_eq.
Qed.

Lemma strict_eq_null v : strict_eq v VNull = true ↔ v = VNull.
Proof. destruct v as [| | |n| | | | |]; cbn; try (by split). by destruct n. Qed.

Lemma strict_eq_int v z : strict_eq v (VInt z) = true ↔ v = VInt z.
Proof.
  unfold VInt. destruct v as [| | |n| | | | |]; cbn; try done.
  pose proof (num_of_Z_finite z) as Hf.
  destruct n as [|b|m e]; cbn.
  - split; [done|]. intros [= E]. by rewrite <- E in Hf.
  - rewrite bool_decide_eq_true. split; congruence.
  - rewrite bool_decide_eq_true. split; congruence.
Qed.

Lemma strict_eq_int_l v z : strict_eq (VInt z) v = true ↔ v = VInt z.
Proof.
  unfold VInt. pose proof (num_of_Z_finite z) as Hf. destruct v as [| | |n| | | | |]; cbn; destruct (num_of_Z z);
    try done; rewrite bool_decide_eq_true; split; congruence.
Qed.

Lemma VInt_inj a b : VInt a = VInt b → a = b.
Proof. intros [= H]. by apply num_of_Z_inj. Qed.

Lemma obj_get_add k v fs k' :
  k ∉ keys fs → obj_get k' (obj_add k v fs) = if String.eqb k k' then Some v else obj_get k' fs.
Proof.
  induction fs as [|[a w] fs IH]; intros Hk; [done|]. cbn in Hk.
  apply not_elem_of_cons in Hk as [Hne Hk]. cbn.
  destruct (goes_before k a); cbn; [by destruct (String.eqb k k')|].
  rewrite (IH Hk). destruct (String.eqb_spec a k') as [->|]; [|done].
  by rewrite (proj2 (String.eqb_neq _ _) Hne).
Qed.

Lemma obj_get_replace k v fs k' :
  k ∈ keys fs → obj_get k' (obj_replace k v fs) = if String.eqb k k' then Some v else obj_get k' fs.
Proof.
  induction fs as [|[a w] fs IH]; intros Hk; [by apply elem_of_nil in Hk|]. cbn in Hk |- *.
  destruct (String.eqb_spec a k) as [->|Hne]; cbn.
  - by destruct (String.eqb k k').
  - apply elem_of_cons in Hk as [?|Hk]; [congruence|]. rewrite (IH Hk).
    destruct (String.eqb_spec a k') as [->|]; [|done].
    by rewrite (proj2 (String.eqb_neq k k')).
Qed.

Lemma obj_get_define k v fs k' :
  obj_get k' (obj_define k v fs) = if String.eqb k k' then Some v else obj_get k' fs.
Proof.
  unfold obj_define. destruct (obj_has k fs) eqn:E.
  - by apply obj_get_replace, obj_has_spec.
  - by apply obj_get_add, obj_has_false.
Qed.

Lemma obj_get_assign k v fs k' :
  k ≠ "__proto__" →
  obj_get k' (obj_assign k v fs) = if String.eqb k k' then Some v else obj_get k' fs.
Proof.
  intros Hk. unfold obj_assign. rewrite (proj2 (String.eqb_neq _ _) Hk). apply obj_get_define.
Qed.

Lemma obj_get_assign_proto v fs k' :
  k' ≠ "__proto__" → obj_get k' (obj_assign "__proto__" v fs) = obj_get k' fs.
Proof.
  intros Hk. unfold obj_assign. destruct (_ && _); [done|]. rewrite obj_get_define.
  by rewrite (proj2 (String.eqb_neq _ _)) by congruence.
Qed.

(** Reading one property succeeds exactly when reading any does. *)
Lemma vget_all v k w : vget v k = Ret w → ∀ k', vget v k' = Ret (vget_opt v k').
Proof. by destruct v. Qed.

Lemma vget_obj_opt v k w : vget v k = Ret w → vget_opt v k = w.
Proof. destruct v; cbn; congruence. Qed.

Lemma strict_eq_str_refl s : strict_eq (VStr s) (VStr s) = true.
Proof. by apply strict_eq_str. Qed.
Lemma strict_eq_int_refl z : strict_eq (VInt z) (VInt z) = true.
Proof. by apply strict_eq_int. Qed.

#[global] Arguments strict_eq : simpl never.
#[global] Arguments VInt : simpl never.
