(* ===== verification/JsonText.v ===== *)
(** * JSON text: [JSON.stringify] and [JSON.parse]

    [json_stringify] is [JSON.stringify(v)] without replacer or indentation
    (no value of the sources has a [toJSON] method besides [Date]);
    [json_parse] is [JSON.parse]. [parse_stringify] is their round trip on
    JSON data, [stringify_inj] its corollary. [Date] values need
    [toISOString], given by the file Dates.

    A numeral of more than fifteen significant digits is kept exactly where
    JavaScript would round it, and an escape of a code unit above 255 is
    outside the modelled strings (the parser reports no value). *)

From S2P Require Import Prelude Regex JsNum JsVal Dates.

(** ** [JSON.stringify] *)

Definition hex_char (n : Z) : ascii :=
  ascii_of_N (Z.to_N (if (n <? 10)%Z then 48 + n else 87 + n)).

Definition dq : ascii := ascii_of_nat 34.
Definition bs : ascii := "\"%char.

(** The escape of one code unit inside a JSON string. *)
Definition escape_char (c : ascii) : list ascii :=
  let n := code c in
  if Ascii.eqb c dq then [bs; dq]
  else if Ascii.eqb c bs then [bs; bs]
  else if (n =? 8)%Z then [bs; "b"%char]
  else if (n =? 12)%Z then [bs; "f"%char]
  else if (n =? 10)%Z then [bs; "n"%char]
  else if (n =? 13)%Z then [bs; "r"%char]
  else if (n =? 9)%Z then [bs; "t"%char]
  else if (n <? 32)%Z then bs :: chars "u00" ++ [hex_char (n / 16); hex_char (n mod 16)]
  else [c].

Definition quote (s : string) : list ascii :=
  dq :: concat (escape_char <$> chars s) ++ [dq].

Fixpoint commas (ls : list (list ascii)) : list ascii :=
  match ls with
  | [] => []
  | [l] => l
  | l :: ls => l ++ ","%char :: commas ls
  end.

(** [None]: the value is not serialized ([undefined], functions, symbols). *)
Fixpoint stringify (v : val) : option (list ascii) :=
  match v with
  | VUndef | VOther _ => None
  | VNull => Some (chars "null")
  | VBool b => Some (chars (if b then "true" else "false"))
  | VNum n => Some (num_to_chars n)
  | VStr s => Some (quote s)
  | VArr xs =>
      Some ("["%char :: commas ((λ x, default (chars "null") (stringify x)) <$> xs) ++ ["]"%char])
  | VObj fs =>
      Some ("{"%char ::
            commas (omap (λ kv, (λ t, quote kv.1 ++ ":"%char :: t) <$> stringify kv.2) fs)
            ++ ["}"%char])
  | VDate (Some t) => Some (quote (toISOString t))
  | VDate None => Some (chars "null")
  end.

Definition json_stringify (v : val) : option string := of_chars <$> stringify v.

(** ** [JSON.parse] *)

Definition json_ws (c : ascii) : bool :=
  let n := code c in ((n =? 32) || (n =? 9) || (n =? 10) || (n =? 13))%Z.

Fixpoint skip_ws (l : list ascii) : list ascii :=
  match l with
  | c :: l' => if json_ws c then skip_ws l' else l
  | [] => []
  end.

Definition hex_val (c : ascii) : option Z :=
  let n := code c in
  if ((48 <=? n) && (n <=? 57))%Z then Some (n - 48)%Z
  else if ((97 <=? n) && (n <=? 102))%Z then Some (n - 87)%Z
  else if ((65 <=? n) && (n <=? 70))%Z then Some (n - 55)%Z
  else None.

(** The escapes of one character. *)
Definition unescape (c : ascii) : option ascii :=
  if Ascii.eqb c dq then Some dq
  else if Ascii.eqb c bs then Some bs
  else if Ascii.eqb c "/" then Some "/"%char
  else if Ascii.eqb c "b" then Some (ascii_of_nat 8)
  else if Ascii.eqb c "f" then Some (ascii_of_nat 12)
  else if Ascii.eqb c "n" then Some (ascii_of_nat 10)
  else if Ascii.eqb c "r" then Some (ascii_of_nat 13)
  else if Ascii.eqb c "t" then Some (ascii_of_nat 9)
  else None.

(** The characters after the opening quote, up to the closing one. *)
Fixpoint parse_string (l : list ascii) : option (string * list ascii) :=
  match l with
  | [] => None
  | c :: l =>
      if Ascii.eqb c dq then Some (EmptyString, l)
      else if Ascii.eqb c bs then
        match l with
        | [] => None
        | e :: l =>
            if Ascii.eqb e "u" then
              match l with
              | h1 :: h2 :: h3 :: h4 :: l =>
                  a ← hex_val h1; b ← hex_val h2; x ← hex_val h3; y ← hex_val h4;
                  if ((a =? 0) && (b =? 0))%Z then
                    '(s, r) ← parse_string l;
                    Some (String (ascii_of_N (Z.to_N (16 * x + y))) s, r)
                  else None
              | _ => None
              end
            else
              d ← unescape e;
              '(s, r) ← parse_string l;
              Some (String d s, r)
        end
      else if (code c <? 32)%Z then None
      else '(s, r) ← parse_string l; Some (String c s, r)
  end.

(** Consumes the given characters. *)
Fixpoint expect (w l : list ascii) : option (list ascii) :=
  match w, l with
  | [], _ => Some l
  | c :: w, d :: l => if Ascii.eqb c d then expect w l else None
  | _, [] => None
  end.

Fixpoint parse_value (fuel : nat) (l : list ascii) : option (val * list ascii) :=
  match fuel with
  | O => None
  | S fuel =>
      match skip_ws l with
      | [] => None
      | c :: r =>
          if Ascii.eqb c dq then '(s, r) ← parse_string r; Some (VStr s, r)
          else if Ascii.eqb c "[" then
            match skip_ws r with
            | d :: r' => if Ascii.eqb d "]" then Some (VArr [], r') else parse_elems fuel [] r
            | [] => None
            end
          else if Ascii.eqb c "{" then
            match skip_ws r with
            | d :: r' => if Ascii.eqb d "}" then Some (VObj [], r') else parse_members fuel [] r
            | [] => None
            end
          else if Ascii.eqb c "n" then r ← expect (chars "ull") r; Some (VNull, r)
          else if Ascii.eqb c "t" then r ← expect (chars "rue") r; Some (VBool true, r)
          else if Ascii.eqb c "f" then r ← expect (chars "alse") r; Some (VBool false, r)
          else '(n, r) ← parse_number (c :: r); Some (VNum n, r)
      end
  end
with parse_elems (fuel : nat) (acc : list val) (l : list ascii) : option (val * list ascii) :=
  match fuel with
  | O => None
  | S fuel =>
      '(v, r) ← parse_value fuel l;
      match skip_ws r with
      | c :: r =>
          if Ascii.eqb c "," then parse_elems fuel (acc ++ [v]) r
          else if Ascii.eqb c "]" then Some (VArr (acc ++ [v]), r)
          else None
      | [] => None
      end
  end
with parse_members (fuel : nat) (acc : list (string * val)) (l : list ascii)
    : option (val * list ascii) :=
  match fuel with
  | O => None
  | S fuel =>
      match skip_ws l with
      | c :: l =>
          if Ascii.eqb c dq then
            '(k, r) ← parse_string l;
            r ← expect [":"%char] (skip_ws r);
            '(v, r) ← parse_value fuel r;
            match skip_ws r with
            | c :: r =>
                if Ascii.eqb c "," then parse_members fuel (obj_define k v acc) r
                else if Ascii.eqb c "}" then Some (VObj (obj_define k v acc), r)
                else None
            | [] => None
            end
          else None
      | [] => None
      end
  end.

(** Every nested call is on a shorter text or follows a consumed bracket, so
    twice the length of the text bounds the depth of the calls. *)
Definition parse_fuel (l : list ascii) : nat := S (2 * length l).

(** [None]: a [SyntaxError]. *)
Definition json_parse (s : string) : option val :=
  '(v, r) ← parse_value (parse_fuel (chars s)) (chars s);
  match skip_ws r with [] => Some v | _ => None end.

(** ** The text of JSON data *)

Lemma stringify_arr xs :
  stringify (VArr xs) =
  Some ("["%char :: commas ((λ x, default (chars "null") (stringify x)) <$> xs) ++ ["]"%char]).
Proof. done. Qed.

Definition jtext (v : val) : list ascii := default [] (stringify v).
Definition ftext (kv : string * val) : list ascii := quote kv.1 ++ ":"%char :: jtext kv.2.

Lemma stringify_json v : is_json v = true → stringify v = Some (jtext v).
Proof. by destruct v. Qed.

Lemma jtext_arr xs :
  is_json (VArr xs) = true → jtext (VArr xs) = "["%char :: commas (jtext <$> xs) ++ ["]"%char].
Proof.
  intros H%is_json_arr. unfold jtext at 1. rewrite stringify_arr. cbn. do 3 f_equal.
  apply list_fmap_ext. intros i x Hx. eapply Forall_lookup_1 in H; [|exact Hx].
  by rewrite (stringify_json x).
Qed.

Lemma jtext_obj fs :
  is_json (VObj fs) = true → jtext (VObj fs) = "{"%char :: commas (ftext <$> fs) ++ ["}"%char].
Proof.
  intros [_ H]%is_json_obj. unfold jtext at 1. cbn. do 3 f_equal.
  induction H as [|[k v] fs Hv _ IH]; [done|]. cbn. rewrite (stringify_json v) by done.
  cbn. by rewrite IH.
Qed.

Lemma commas_cons l ls :
  commas (l :: ls) = l ++ match ls with [] => [] | _ => ","%char :: commas ls end.
Proof. destruct ls; cbn; [by rewrite app_nil_r|done]. Qed.

(** ** Strings *)

Lemma parse_string_escape c l :
  parse_string (escape_char c ++ l) = ('(s, r) ← parse_string l; Some (String c s, r)).
Proof. destruct c as [[] [] [] [] [] [] [] []]; reflexivity. Qed.

Lemma parse_string_quote s r :
  parse_string (concat (escape_char <$> chars s) ++ dq :: r) = Some (s, r).
Proof.
  induction s as [|c s IH]; [done|]. cbn [chars fmap list_fmap concat].
  by rewrite <- app_assoc, parse_string_escape, IH.
Qed.

Lemma quote_app s r : quote s ++ r = dq :: concat (escape_char <$> chars s) ++ dq :: r.
Proof. unfold quote. cbn. by rewrite <- app_assoc. Qed.

(** ** First characters *)

Lemma num_head n :
  is_finite n = true → ∃ c l, num_to_chars n = c :: l ∧ (digit c = true ∨ c = "-"%char).
Proof.
  destruct n as [| |m e]; try done. intros _. cbn.
  destruct (Z.eqb_spec m 0); [by eexists _, _; split; [|left]|].
  destruct (Z.ltb_spec m 0); [by eexists _, _; split; [|right]|].
  destruct (pos_num_head m e) as (c & l & -> & Hc); [lia|]. eauto.
Qed.

Definition plain_start (c : ascii) : Prop :=
  json_ws c = false ∧ c ≠ "]"%char ∧ c ≠ "}"%char.

Lemma digit_or_minus_start c :
  digit c = true ∨ c = "-"%char →
  plain_start c ∧ c ≠ dq ∧ c ≠ "["%char ∧ c ≠ "{"%char ∧ c ≠ "n"%char ∧ c ≠ "t"%char ∧ c ≠ "f"%char.
Proof.
  intros H. assert (Hd : (48 ≤ code c ≤ 57 ∨ code c = 45)%Z).
  { destruct H as [H | ->]; [left|by right]. unfold digit, in_range in H. bool_prop.
    change (code "0") with 48%Z in *. change (code "9") with 57%Z in *. lia. }
  unfold plain_start, json_ws. repeat split; try (intros ->; change (code _) with 0%Z in Hd; vm_compute in Hd; lia).
  2-9: intros ->; vm_compute in Hd; by destruct Hd as [[? ?]|?].
  lia.
Qed.

Lemma jtext_head v :
  is_json v = true → ∃ c l, jtext v = c :: l ∧ plain_start c.
Proof.
  destruct v as [| |[]|n|s|xs|fs|t|o]; try done; intros H.
  - by eexists _, _.
  - by eexists _, _.
  - by eexists _, _.
  - cbn in H. apply andb_true_iff in H as [_ H].
    destruct (num_head n H) as (c & l & Hc & Hd%digit_or_minus_start). exists c, l.
    split; [exact Hc | by destruct Hd].
  - by eexists _, _.
  - rewrite jtext_arr by done. by eexists _, _.
  - rewrite jtext_obj by done. by eexists _, _.
Qed.

Lemma skip_ws_cons c l : json_ws c = false → skip_ws (c :: l) = c :: l.
Proof. intros H. cbn. by rewrite H. Qed.

(** ** Fuel *)

Fixpoint need (v : val) : nat :=
  match v with
  | VArr xs => S (foldr (λ x n, S (Nat.max (need x) n)) O xs)
  | VObj fs => S (foldr (λ kv n, S (Nat.max (need kv.2) n)) O fs)
  | _ => 1
  end.

Lemma commas_length (ls : list (list ascii)) :
  (list_sum (length <$> ls) ≤ length (commas ls))%nat ∧
  (ls ≠ [] → list_sum (S <$> (length <$> ls)) ≤ S (length (commas ls)))%nat.
Proof.
  induction ls as [|l ls [IH1 IH2]]; [done|]. rewrite commas_cons, length_app.
  destruct ls as [|l' ls]; [cbn; lia|]. specialize (IH2 ltac:(done)).
  cbn [length fmap list_fmap list_sum foldr] in *. lia.
Qed.

Lemma foldr_need {A} (f : A → nat) (g : A → nat) (xs : list A) :
  Forall (λ x, f x ≤ 2 * g x ∧ 1 ≤ g x)%nat xs →
  (foldr (λ x n, S (Nat.max (f x) n)) O xs ≤ S (2 * list_sum (g <$> xs)))%nat.
Proof.
  induction 1 as [|x xs [H1 H2] _ IH]; [cbn; lia|].
  change (list_sum (g <$> x :: xs)) with (g x + list_sum (g <$> xs))%nat.
  cbn [foldr]. lia.
Qed.

Lemma need_le v : is_json v = true → (need v ≤ 2 * length (jtext v))%nat.
Proof.
  assert (Hpos : ∀ x, is_json x = true → (1 ≤ length (jtext x))%nat).
  { intros x (c & l & -> & _)%jtext_head. cbn. lia. }
  induction v as [| |b|n|s|xs IH|fs IH|t|o] using val_rect_nested; intros H;
    try (apply Hpos in H; cbn [need]; lia).
  - rewrite jtext_arr by done. apply is_json_arr in H. cbn [need length]. rewrite length_app.
    assert (foldr (λ x n, S (Nat.max (need x) n)) O xs ≤ S (2 * list_sum ((λ x, length (jtext x)) <$> xs)))%nat.
    { apply foldr_need. rewrite Forall_forall in *. intros x Hx. auto. }
    pose proof (proj1 (commas_length (jtext <$> xs))) as Hc.
    rewrite <- list_fmap_compose in Hc. unfold compose in Hc. cbn [length]. lia.
  - rewrite jtext_obj by done. apply is_json_obj in H as [_ H]. cbn [need length]. rewrite length_app.
    assert (foldr (λ kv n, S (Nat.max (need kv.2) n)) O fs ≤
            S (2 * list_sum ((λ kv, length (ftext kv)) <$> fs)))%nat.
    { apply (foldr_need (λ kv, need kv.2)). rewrite Forall_forall in *. intros [k x] Hx.
      specialize (IH _ Hx (H _ Hx)). cbn in IH. unfold ftext. rewrite length_app. cbn. lia. }
    pose proof (proj1 (commas_length (ftext <$> fs))) as Hc.
    rewrite <- list_fmap_compose in Hc. unfold compose in Hc. cbn [length]. lia.
Qed.

(** ** Round trip *)

Definition parses (v : val) : Prop :=
  ∀ fuel r, (need v ≤ fuel)%nat → num_stop r → parse_value fuel (jtext v ++ r) = Some (v, r).

Lemma parse_elems_ok xs :
  Forall (λ x, is_json x = true ∧ parses x) xs → xs ≠ [] →
  ∀ acc fuel r, (foldr (λ x n, S (Nat.max (need x) n)) O xs ≤ fuel)%nat →
  parse_elems fuel acc (commas (jtext <$> xs) ++ "]"%char :: r) = Some (VArr (acc ++ xs), r).
Proof.
  induction 1 as [|x xs [Hx Hp] Hxs IH]; [done|]. intros _ acc [|fuel] r Hf; cbn [foldr] in Hf; [lia|].
  cbn [fmap list_fmap parse_elems]. rewrite commas_cons, <- app_assoc.
  destruct xs as [|y ys].
  - cbn [app fmap list_fmap]. rewrite Hp; [done|lia|done].
  - cbn [fmap list_fmap]. rewrite Hp; [|lia|done].
    cbn [mbind option_bind]. rewrite <- app_comm_cons, skip_ws_cons by done. cbn -[commas].
    fold (jtext <$> ys). change (jtext y :: (jtext <$> ys)) with (jtext <$> (y :: ys)).
    rewrite IH; [by rewrite <- app_assoc|done|cbn [foldr] in *; lia].
Qed.

Lemma parse_members_ok fs :
  Forall (λ kv, is_json kv.2 = true ∧ parses kv.2) fs → fs ≠ [] →
  ∀ acc fuel r, (foldr (λ kv n, S (Nat.max (need kv.2) n)) O fs ≤ fuel)%nat →
  parse_members fuel acc (commas (ftext <$> fs) ++ "}"%char :: r) =
  Some (VObj (fold_left (λ acc kv, obj_define kv.1 kv.2 acc) fs acc), r).
Proof.
  induction 1 as [|[k x] fs [Hx Hp] Hfs IH]; [done|]. intros _ acc [|fuel] r Hf; cbn [foldr] in Hf; [lia|].
  cbn [fst snd] in *. cbn [fmap list_fmap parse_members]. rewrite commas_cons, <- app_assoc.
  unfold ftext at 1. cbn [fst snd]. rewrite <- app_assoc, quote_app, skip_ws_cons by done.
  rewrite Ascii.eqb_refl, parse_string_quote. cbn [mbind option_bind].
  rewrite <- app_comm_cons, skip_ws_cons by done. cbn [expect]. rewrite Ascii.eqb_refl.
  cbn [mbind option_bind].
  destruct fs as [|y ys].
  - cbn [app fmap list_fmap]. rewrite Hp; [done|lia|done].
  - cbn [fmap list_fmap]. rewrite Hp; [|lia|done].
    cbn [mbind option_bind]. rewrite <- app_comm_cons, skip_ws_cons by done. cbn -[commas ftext obj_define].
    fold (ftext <$> ys). change (ftext y :: (ftext <$> ys)) with (ftext <$> (y :: ys)).
    rewrite IH; [done|done|cbn [foldr] in *; lia].
Qed.

Lemma parse_value_arr fuel l :
  parse_value (S fuel) ("["%char :: l) =
  match skip_ws l with
  | d :: r => if Ascii.eqb d "]" then Some (VArr [], r) else parse_elems fuel [] l
  | [] => None
  end.
Proof. reflexivity. Qed.

Lemma parse_value_obj fuel l :
  parse_value (S fuel) ("{"%char :: l) =
  match skip_ws l with
  | d :: r => if Ascii.eqb d "}" then Some (VObj [], r) else parse_members fuel [] l
  | [] => None
  end.
Proof. reflexivity. Qed.

Lemma parses_json v : is_json v = true → parses v.
Proof.
  induction v as [| |b|n|s|xs IH|fs IH|t|o] using val_rect_nested; intros H [|fuel] r Hf Hr;
    try done; cbn [need] in Hf; try lia.
  - by destruct b.
  - cbn in H. apply andb_true_iff in H as [Hwf Hfin].
    destruct (num_head n Hfin) as (c & l & Hc & Hd). apply digit_or_minus_start in Hd as [[Hws _] Hd].
    cbn [parse_value]. change (jtext (VNum n)) with (num_to_chars n).
    rewrite Hc, <- app_comm_cons, skip_ws_cons by done.
    destruct Hd as (H1 & H2 & H3 & H4 & H5 & H6).
    rewrite !(proj2 (Ascii.eqb_neq _ _)) by done.
    by rewrite app_comm_cons, <- Hc, parse_num_to_chars.
  - cbn [parse_value]. change (jtext (VStr s)) with (quote s).
    rewrite quote_app, skip_ws_cons, Ascii.eqb_refl by done.
    by rewrite parse_string_quote.
  - rewrite jtext_arr by done. rewrite <- app_comm_cons, <- app_assoc. cbn [app].
    apply is_json_arr in H. rewrite parse_value_arr.
    destruct xs as [|x xs]; [done|].
    assert (Forall (λ x, is_json x = true ∧ parses x) (x :: xs)) as Hall.
    { rewrite Forall_forall in *. auto. }
    destruct (jtext_head x) as (c & l & Hc & Hws & Hc1 & _); [by inversion H|].
    pose proof (parse_elems_ok (x :: xs) Hall ltac:(done) [] fuel r ltac:(lia)) as Hpe.
    cbn [fmap list_fmap] in Hpe |- *. rewrite commas_cons, Hc in Hpe |- *. cbn [app] in Hpe |- *.
    rewrite skip_ws_cons, (proj2 (Ascii.eqb_neq _ _)) by done. exact Hpe.
  - rewrite jtext_obj by done. rewrite <- app_comm_cons, <- app_assoc. cbn [app].
    apply is_json_obj in H as [Hk H]. rewrite parse_value_obj.
    destruct fs as [|[k x] fs]; [done|].
    assert (Forall (λ kv, is_json kv.2 = true ∧ parses kv.2) ((k, x) :: fs)) as Hall.
    { rewrite Forall_forall in *. auto. }
    pose proof (parse_members_ok ((k, x) :: fs) Hall ltac:(done) [] fuel r ltac:(lia)) as Hpe.
    rewrite fold_define in Hpe by done.
    cbn [fmap list_fmap] in Hpe |- *. rewrite commas_cons in Hpe |- *.
    remember ((ftext (k, x) ++ _) ++ "}"%char :: r) as txt eqn:Etxt.
    assert (∃ t, txt = dq :: t) as [t ->] by (subst txt; by eexists).
    rewrite skip_ws_cons by done. exact Hpe.
Qed.

(** [JSON.parse(JSON.stringify(v))] is [v] on JSON data. *)
Lemma parse_stringify v s :
  is_json v = true → json_stringify v = Some s → json_parse s = Some v.
Proof.
  intros Hv Hs. unfold json_stringify in Hs. rewrite (stringify_json v Hv) in Hs.
  injection Hs as <-. unfold json_parse. rewrite chars_of_chars.
  pose proof (parses_json v Hv (parse_fuel (jtext v)) []) as H. rewrite app_nil_r in H.
  rewrite H; [done| |done]. pose proof (need_le v Hv). unfold parse_fuel. lia.
Qed.

Lemma stringify_inj v w :
  is_json v = true → is_json w = true → json_stringify v = json_stringify w → v = w.
Proof.
  intros Hv Hw H. destruct (json_stringify v) as [s|] eqn:E.
  - apply (parse_stringify v) in E; [|done]. symmetry in H.
    apply (parse_stringify w) in H; [|done]. congruence.
  - unfold json_stringify in E. by rewrite (stringify_json v Hv) in E.
Qed.

Lemma json_stringify_json v : is_json v = true → json_stringify v = Some (of_chars (jtext v)).
Proof. intros H. unfold json_stringify. by rewrite (stringify_json v H). Qed.

Example stringify_ex :
  json_stringify (VObj [("a", VArr [VInt 1; VNum (NFin 15 (-7)); VNull]); ("b", VStr "x/y")])
  = Some (quoted "{'a':[1,0.0000015,null],'b':'x/y'}").
Proof. vm_compute. reflexivity. Qed.
Example parse_ex :
  json_parse (quoted " { 'b' : [ true , 1e3 ] , '2' : 0 , '1' : null } ")
  = Some (VObj [("1", VNull); ("2", VInt 0); ("b", VArr [VBool true; VInt 1000])]).
Proof. vm_compute. reflexivity. Qed.
