(* ===== verification/Hash.v ===== *)
(** * Hashing: the interface of [createHash("sha256")]

    What the protocol relies on of its digest function: a function of the
    bytes, printed as 64 lowercase hexadecimal digits. Theorems about hash chains
    are proved for every [Hasher]; the file Sha256 gives SHA-256 as an instance.
    Collision resistance is never assumed: a theorem that needs it ends in an
    explicit [Collision] between two texts the code hashed. The platform's decoder
    of UTF-8 is a parameter too ([TextDecoder]). *)

From S2P Require Import Prelude Regex JsNum JsVal Dates JsonText.

(** [/^[a-f0-9]{64}$/], the patterns of index.ts and retention.ts *)
Definition HASH_PATTERN : re := pow 64 (Cls hex_lower).

(** UTF-8 of code units below 256. *)
Definition utf8_char (c : ascii) : list Z :=
  let n := code c in if (n <? 128)%Z then [n] else [(192 + n / 64)%Z; (128 + n mod 64)%Z].
Definition utf8 (s : string) : list Z := concat (utf8_char <$> chars s).

(** [new TextDecoder().decode(bytes)] of the platform; it inverts the encoder. *)
Class TextDecoder := {
  decode_utf8 : list Z → string;
  decode_utf8_spec s : decode_utf8 (utf8 s) = s;
}.

Class Hasher := {
  digest_hex : list Z → string;
  digest_hex_shape : ∀ bytes, re_test HASH_PATTERN (digest_hex bytes) = true;
}.

Section Hashing.
Context `{Hasher}.

(** [createHash("sha256").update(value).digest("hex")] on a string. *)
Definition sha256Hex (s : string) : string := digest_hex (utf8 s).

(** The same on raw bytes. *)
Definition sha256Bytes (bytes : list Z) : string := digest_hex bytes.

(** [`sha256:${sha256Hex(value)}`] *)
Definition prefixedSha256 (s : string) : string := "sha256:" +:+ sha256Hex s.

(** [sha256Hex(text)] where the text may be [undefined]. *)
Definition sha256HexOpt (o : option string) : exc string :=
  match o with Some s => Ret (sha256Hex s) | None => Throw "data must be of type string" end.

(** Two different texts of the given sets with one digest. *)
Definition Collision (texts1 texts2 : list string) : Prop :=
  ∃ s1 s2, s1 ∈ texts1 ∧ s2 ∈ texts2 ∧ s1 ≠ s2 ∧ sha256Hex s1 = sha256Hex s2.

Lemma sha256Hex_shape s : re_test HASH_PATTERN (sha256Hex s) = true.
Proof. apply digest_hex_shape. Qed.

Lemma sha256Hex_chars s :
  length (chars (sha256Hex s)) = 64%nat ∧ Forall (λ c, hex_lower c = true) (chars (sha256Hex s)).
Proof.
  pose proof (sha256Hex_shape s) as Hs. rewrite re_test_spec in Hs. by apply lang_pow_cls in Hs.
Qed.

Lemma sha256Hex_nonempty s : sha256Hex s ≠ "".
Proof. intros E. pose proof (sha256Hex_chars s) as [Hl _]. by rewrite E in Hl. Qed.
End Hashing.

Lemma utf8_char_ne c : utf8_char c ≠ [].
Proof. unfold utf8_char. by destruct (_ <? _)%Z. Qed.

Lemma utf8_char_prefix c1 c2 l1 l2 :
  utf8_char c1 ++ l1 = utf8_char c2 ++ l2 → c1 = c2 ∧ l1 = l2.
Proof.
  pose proof (code_range c1). pose proof (code_range c2).
  unfold utf8_char. div_facts (code c1) 64%Z. div_facts (code c2) 64%Z.
  assert (0 ≤ code c1 / 64)%Z by (apply Z.div_pos; lia).
  assert (0 ≤ code c2 / 64)%Z by (apply Z.div_pos; lia).
  destruct (Z.ltb_spec (code c1) 128), (Z.ltb_spec (code c2) 128); intros [=]; try lia;
    split; try done; apply code_inj; lia.
Qed.

(** Distinct strings have distinct encodings: a collision of texts is one of bytes. *)
Lemma utf8_inj s1 s2 : utf8 s1 = utf8 s2 → s1 = s2.
Proof.
  unfold utf8. revert s2. induction s1 as [|c1 s1 IH]; intros [|c2 s2] E; cbn in E; [done| | |].
  - symmetry in E. apply app_nil in E as [E _]. by apply utf8_char_ne in E.
  - apply app_nil in E as [E _]. by apply utf8_char_ne in E.
  - apply utf8_char_prefix in E as [-> E]. by rewrite (IH s2 E).
Qed.
