(* ===== verification/Sha256.v ===== *)
(** * SHA-256 (FIPS 180-4)

    The digest the sources obtain from [node:crypto] and WebCrypto, as an
    instance of [Hasher]. Words are integers in [0, 2^32). *)

From S2P Require Import Prelude Regex JsNum JsVal Dates JsonText Hash.

Local Open Scope Z_scope.

Definition mask32 (x : Z) : Z := Z.land x 4294967295.
Definition add32 (x y : Z) : Z := mask32 (x + y).
Definition rotr (n x : Z) : Z := Z.lor (Z.shiftr x n) (mask32 (Z.shiftl x (32 - n))).

Definition Ch (x y z : Z) : Z := Z.lxor (Z.land x y) (Z.land (4294967295 - x) z).
Definition Maj (x y z : Z) : Z := Z.lxor (Z.lxor (Z.land x y) (Z.land x z)) (Z.land y z).
Definition Sigma0 (x : Z) : Z := Z.lxor (Z.lxor (rotr 2 x) (rotr 13 x)) (rotr 22 x).
Definition Sigma1 (x : Z) : Z := Z.lxor (Z.lxor (rotr 6 x) (rotr 11 x)) (rotr 25 x).
Definition sigma0 (x : Z) : Z := Z.lxor (Z.lxor (rotr 7 x) (rotr 18 x)) (Z.shiftr x 3).
Definition sigma1 (x : Z) : Z := Z.lxor (Z.lxor (rotr 17 x) (rotr 19 x)) (Z.shiftr x 10).

(** The constants of the standard are the first 32 fractional bits of roots of the
    first primes: cube roots for the rounds, square roots for the initial state. *)
Definition prime (n : Z) : bool :=
  forallb (λ d, negb (n mod Z.of_nat d =? 0)) (seq 2 (Z.to_nat n - 2)).
Definition primes : list Z := Eval vm_compute in filter (λ n, prime n = true) (Z.of_nat <$> seq 2 310).

(** The largest [r] below [acc + 2^bits] with [r^3 <= x]. *)
Fixpoint cube_root (bits : nat) (acc x : Z) : Z :=
  match bits with
  | O => acc
  | S bits => let r := acc + 2 ^ Z.of_nat bits in
              cube_root bits (if r ^ 3 <=? x then r else acc) x
  end.

Definition round_constants : list Z :=
  Eval vm_compute in (λ p, mask32 (cube_root 36 0 (p * 2 ^ 96))) <$> primes.
Definition root_words : list Z :=
  Eval vm_compute in (λ p, mask32 (Z.sqrt (p * 2 ^ 64))) <$> take 8 primes.

Record hstate := HState { h0 : Z; h1 : Z; h2 : Z; h3 : Z; h4 : Z; h5 : Z; h6 : Z; h7 : Z }.

Definition initial : hstate :=
  let w i := nth i root_words 0 in HState (w 0%nat) (w 1%nat) (w 2%nat) (w 3%nat) (w 4%nat) (w 5%nat) (w 6%nat) (w 7%nat).

Definition round (s : hstate) (kw : Z * Z) : hstate :=
  let '(k, w) := kw in
  let t1 := add32 (h7 s) (add32 (Sigma1 (h4 s)) (add32 (Ch (h4 s) (h5 s) (h6 s)) (add32 k w))) in
  let t2 := add32 (Sigma0 (h0 s)) (Maj (h0 s) (h1 s) (h2 s)) in
  HState (add32 t1 t2) (h0 s) (h1 s) (h2 s) (add32 (h3 s) t1) (h4 s) (h5 s) (h6 s).

Definition hadd (a b : hstate) : hstate :=
  HState (add32 (h0 a) (h0 b)) (add32 (h1 a) (h1 b)) (add32 (h2 a) (h2 b)) (add32 (h3 a) (h3 b))
         (add32 (h4 a) (h4 b)) (add32 (h5 a) (h5 b)) (add32 (h6 a) (h6 b)) (add32 (h7 a) (h7 b)).

(** The message schedule, latest word first. *)
Fixpoint schedule (n : nat) (ws : list Z) : list Z :=
  match n with
  | O => ws
  | S n =>
      let w := add32 (sigma1 (nth 1 ws 0)) (add32 (nth 6 ws 0)
                 (add32 (sigma0 (nth 14 ws 0)) (nth 15 ws 0))) in
      schedule n (w :: ws)
  end.

Fixpoint words (l : list Z) : list Z :=
  match l with
  | a :: b :: c :: d :: l => (((a * 256 + b) * 256 + c) * 256 + d) :: words l
  | _ => []
  end.

Definition compress (h : hstate) (block : list Z) : hstate :=
  let w := rev (schedule 48 (rev (words block))) in
  hadd h (fold_left round (combine round_constants w) h).

Definition be_bytes (n : nat) (x : Z) : list Z :=
  rev ((λ i, Z.land (Z.shiftr x (8 * Z.of_nat i)) 255) <$> seq 0 n).

Definition padded (msg : list Z) : list Z :=
  let len := Z.of_nat (length msg) in
  msg ++ 128 :: replicate (Z.to_nat ((55 - len) mod 64)) 0 ++ be_bytes 8 (8 * len).

Fixpoint blocks (fuel : nat) (h : hstate) (l : list Z) : hstate :=
  match fuel with
  | O => h
  | S fuel => match l with [] => h | _ => blocks fuel (compress h (take 64 l)) (drop 64 l) end
  end.

Definition hex_byte (b : Z) : list ascii := [hex_char (Z.shiftr b 4); hex_char (Z.land b 15)].

Definition sha256_words (msg : list Z) : hstate :=
  let p := padded msg in blocks (length p / 64) initial p.

Definition sha256_hex (msg : list Z) : string :=
  let h := sha256_words msg in
  of_chars (concat (hex_byte <$> concat (be_bytes 4 <$> [h0 h; h1 h; h2 h; h3 h; h4 h; h5 h; h6 h; h7 h]))).

Lemma hex_char_shape n : 0 ≤ n < 16 → hex_lower (hex_char n) = true.
Proof.
  intros Hn. assert (n ∈ Z.of_nat <$> seq 0 16) as H.
  { apply list_elem_of_fmap. exists (Z.to_nat n). split; [lia|]. apply elem_of_seq. lia. }
  assert (Forall (λ n, hex_lower (hex_char n) = true) (Z.of_nat <$> seq 0 16)) as Hall
    by (cbn; repeat constructor).
  rewrite Forall_forall in Hall. auto.
Qed.

Lemma hex_byte_shape b : 0 ≤ b < 256 → Forall (λ c, hex_lower c = true) (hex_byte b).
Proof.
  intros Hb. repeat constructor; apply hex_char_shape.
  - rewrite Z.shiftr_div_pow2 by lia. change (2 ^ 4) with 16. div_facts b 16.
    assert (0 ≤ b / 16) by (apply Z.div_pos; lia). lia.
  - change 15 with (Z.ones 4). rewrite Z.land_ones by lia. apply Z.mod_pos_bound. lia.
Qed.

Lemma be_bytes_range n x : Forall (λ b, 0 ≤ b < 256) (be_bytes n x).
Proof.
  unfold be_bytes. apply Forall_rev, Forall_fmap, Forall_true. intros i. cbn.
  change 255 with (Z.ones 8). rewrite Z.land_ones by lia. by apply Z.mod_pos_bound.
Qed.

Lemma sha256_hex_shape msg : re_test HASH_PATTERN (sha256_hex msg) = true.
Proof.
  rewrite re_test_spec. unfold sha256_hex. rewrite chars_of_chars.
  apply lang_pow_cls. split; [done|].
  apply Forall_concat, Forall_fmap. eapply Forall_impl; [|exact hex_byte_shape].
  apply Forall_concat, Forall_fmap, Forall_true. intros x. apply be_bytes_range.
Qed.

#[export] Instance sha256_hasher : Hasher :=
  {| digest_hex := sha256_hex; digest_hex_shape := sha256_hex_shape |}.

Example sha256_abc :
  sha256Hex "abc" = "ba7816bf8f01cfea414140de5dae2223b00361a396177a9cb410ff61f20015ad".
Proof. vm_compute. reflexivity. Qed.

Example sha256_two_blocks :
  sha256Hex "abcdbcdecdefdefgefghfghighijhijkijkljklmklmnlmnomnopnopq"
  = "248d6a61d20638b8e5c026930c3e6039a33ce45964ff2167f6ecedd419db06c1".
Proof. vm_compute. reflexivity. Qed.
