(* ===== verification/Canonical.v ===== *)
(** * Canonical JSON (sdks/typescript/src/index.ts: canonicalJson, normalizeForJson)

    [normalizeForJson] is the conversion to the canonical domain and
    [canonicalJson] its text. [canonical] describes the normal forms;
    [same_data] is equality of values up to the order of object keys. *)

From S2P Require Import Prelude Regex JsNum JsVal Dates JsonText.

(** [Object.keys(o).sort()] on properties. *)
Definition key_leb {A} (x y : string * A) : bool := String.leb x.1 y.1.
Definition sort_fields {A} (fs : list (string * A)) : list (string * A) := sort_by key_leb fs.

(** One step of the object case: the value is normalized, [undefined] is left
    out, anything else is assigned to the result object. *)
Definition assign_normalized (acc : exc (list (string * val))) (kv : string * exc val)
    : exc (list (string * val)) :=
  result ← acc;
  normalized ← kv.2;
  Ret (if is_undef normalized then result else obj_assign kv.1 normalized result).

Fixpoint normalizeForJson (value : val) : exc val :=
  match value with
  | VUndef => Ret VUndef
  | VNull | VStr _ | VBool _ => Ret value
  | VNum n => if is_finite n then Ret value else Throw "JSON numbers must be finite"
  | VArr xs =>
      ys ← mapE (λ item, y ← normalizeForJson item; Ret (nullish_or y VNull)) xs;
      Ret (VArr ys)
  | VDate (Some t) => Ret (VStr (toISOString t))
  | VDate None => Throw "Invalid time value"
  | VObj fs =>
      result ← fold_left assign_normalized
                 (sort_fields ((λ kv, (kv.1, normalizeForJson kv.2)) <$> fs)) (Ret []);
      Ret (VObj result)
  | VOther _ => Throw "unsupported JSON value type"
  end.

(** [None]: the text of [undefined] is [undefined]. *)
Definition canonicalJson (value : val) : exc (option string) :=
  v ← normalizeForJson value; Ret (json_stringify v).

(** ** Normal forms *)

(** The order in which the keys of a canonical object are enumerated: array
    indices by value, then the other keys by code units. *)
Definition canon_leb (a b : string) : bool :=
  match array_index a, array_index b with
  | Some i, Some j => (i <=? j)%Z
  | Some _, None => true
  | None, Some _ => false
  | None, None => String.leb a b
  end.

Definition canon_sorted (ks : list string) : Prop :=
  StronglySorted (λ a b, canon_leb a b = true) ks.

Definition canon_fields (fs : list (string * val)) : Prop :=
  canon_sorted (keys fs) ∧ NoDup (keys fs) ∧ "__proto__" ∉ keys fs.

Inductive canonical : val → Prop :=
| canon_null : canonical VNull
| canon_bool b : canonical (VBool b)
| canon_num n : num_wf n = true → is_finite n = true → canonical (VNum n)
| canon_str s : canonical (VStr s)
| canon_arr xs : Forall canonical xs → canonical (VArr xs)
| canon_obj fs : canon_fields fs → Forall (λ kv, canonical kv.2) fs → canonical (VObj fs).

(** Every number is in normal form (JavaScript numbers are, see JsNum). *)
Fixpoint nums_wf (v : val) : bool :=
  match v with
  | VNum n => num_wf n
  | VArr xs => forallb nums_wf xs
  | VObj fs => forallb (λ kv, nums_wf kv.2) fs
  | _ => true
  end.

(** The same data, whatever the order of the keys of its objects. *)
Inductive same_data : val → val → Prop :=
| sd_leaf v : (match v with VArr _ | VObj _ => False | _ => True end) → same_data v v
| sd_arr xs ys : Forall2 same_data xs ys → same_data (VArr xs) (VArr ys)
| sd_obj fs gs gs' :
    NoDup (keys fs) →
    Forall2 (λ a b, a.1 = b.1 ∧ same_data a.2 b.2) fs gs' → gs' ≡ₚ gs →
    same_data (VObj fs) (VObj gs).

(** ** Array indices *)

Lemma digits_val_bound l :
  Forall (λ c, digit c = true) l → (0 ≤ digits_val l < 10 ^ Z.of_nat (length l))%Z.
Proof.
  induction 1 as [|c l Hc _ IH]; [done|]. rewrite digits_val_cons. cbn [length].
  rewrite Nat2Z.inj_succ, Z.pow_succ_r by lia.
  unfold digit, in_range in Hc. bool_prop. unfold digit_val.
  change (code "0") with 48%Z in *. change (code "9") with 57%Z in *. nia.
Qed.

Lemma digits_val_inj_len l1 l2 :
  Forall (λ c, digit c = true) l1 → Forall (λ c, digit c = true) l2 →
  length l1 = length l2 → digits_val l1 = digits_val l2 → l1 = l2.
Proof.
  intros H1. revert l2. induction H1 as [|c1 l1 Hc1 H1 IH]; intros [|c2 l2] H2 Hl Hv; try done.
  inversion H2 as [|? ? Hc2 H2']; subst. injection Hl as Hl.
  rewrite !digits_val_cons, Hl in Hv.
  pose proof (digits_val_bound l1 H1) as B1. pose proof (digits_val_bound l2 H2') as B2. rewrite Hl in B1.
  assert (digit_val c1 = digit_val c2) as Hd by nia.
  rewrite (IH l2) by (done || nia). f_equal. apply code_inj. unfold digit_val in Hd. lia.
Qed.

(** Canonical numerals: no leading zero. *)
Definition numeral (l : list ascii) : Prop :=
  Forall (λ c, digit c = true) l ∧ ∃ c l', l = c :: l' ∧ (c = "0"%char → l' = []).

Lemma numeral_lower c l :
  numeral (c :: l) → l ≠ [] → (10 ^ Z.of_nat (length l) ≤ digits_val (c :: l))%Z.
Proof.
  intros (Hd & c' & l' & [= <- <-] & Hz) Hl. inversion Hd as [|? ? Hc Hd']; subst.
  rewrite digits_val_cons. pose proof (digits_val_bound l Hd').
  assert (1 ≤ digit_val c)%Z; [|nia].
  unfold digit, in_range in Hc. bool_prop. unfold digit_val.
  change (code "0") with 48%Z in *.
  destruct (Z.eq_dec (code c) 48) as [E|]; [|lia].
  destruct Hl. apply Hz. by apply code_inj.
Qed.

Lemma numeral_length l1 l2 :
  numeral l1 → numeral l2 → (digits_val l1 ≤ digits_val l2)%Z → (length l1 ≤ length l2)%nat.
Proof.
  intros N1 N2 Hv. destruct (le_lt_dec (length l1) (length l2)) as [|Hlt]; [done|exfalso].
  pose proof (digits_val_bound l2 (proj1 N2)) as B2.
  destruct N1 as (Hd & c & l & -> & Hz). destruct N2 as (_ & c2 & l2' & -> & _).
  assert (l ≠ []) by (intros ->; cbn in Hlt; lia).
  assert (numeral (c :: l)) as N1 by (split; eauto). apply numeral_lower in N1; [|done].
  assert (10 ^ Z.of_nat (length (c2 :: l2')) ≤ 10 ^ Z.of_nat (length l))%Z; [|lia].
  apply Z.pow_le_mono_r; [lia|]. cbn [length] in *. lia.
Qed.

Lemma array_index_numeral k i : array_index k = Some i → numeral (chars k) ∧ digits_val (chars k) = i.
Proof.
  unfold array_index. destruct (chars k) as [|c ds] eqn:E; [done|].
  destruct (_ && _) eqn:B; [|done]. intros [= <-]. split; [|done].
  bool_prop. split.
  - apply Forall_forall. intros x Hx. rewrite forallb_forall in H. by apply H, list_elem_of_In.
  - exists c, ds. split; [done|]. intros ->. rewrite Ascii.eqb_refl in *. cbn [andb] in *.
    bool_prop. destruct ds; [done|]. by cbn in *.
Qed.

Lemma array_index_inj k1 k2 i : array_index k1 = Some i → array_index k2 = Some i → k1 = k2.
Proof.
  intros [N1 V1]%array_index_numeral [N2 V2]%array_index_numeral.
  rewrite <- (of_chars_chars k1), <- (of_chars_chars k2). f_equal.
  apply digits_val_inj_len; [apply N1|apply N2| |congruence].
  apply Nat.le_antisymm; apply numeral_length; try done; lia.
Qed.

Lemma canon_leb_antisym a b : canon_leb a b = true → canon_leb b a = true → a = b.
Proof.
  unfold canon_leb. destruct (array_index a) as [i|] eqn:Ea, (array_index b) as [j|] eqn:Eb; try done.
  - intros ? ?. bool_prop. assert (i = j) as -> by lia. by eapply array_index_inj.
  - apply string_leb_antisym.
Qed.

Lemma canon_leb_key_before a b : canon_leb a b = true → a ≠ b → key_before a b = true.
Proof.
  unfold canon_leb, key_before. intros H Hne.
  destruct (array_index a) as [i|] eqn:Ea, (array_index b) as [j|] eqn:Eb; try done.
  - bool_prop. apply Z.ltb_lt. destruct (Z.eq_dec i j) as [->|]; [|lia].
    destruct Hne. by eapply array_index_inj.
  - apply negb_true_iff. by apply String.eqb_neq.
Qed.

Lemma canon_ordered ks : canon_sorted ks → NoDup ks → keys_ordered ks = true.
Proof.
  induction 1 as [|k ks Hs IH Hk]; [done|]. intros [Hn Hnd]%NoDup_cons. cbn.
  rewrite (IH Hnd), andb_true_r. apply forallb_forall. intros k' Hk'%list_elem_of_In.
  apply canon_leb_key_before; [by eapply Forall_forall in Hk | by intros <-].
Qed.

(** ** The object case builds a canonical object *)

(** [k] may be assigned next: it follows the assigned keys that are not indices. *)
Definition key_next (k : string) (fs : list (string * val)) : Prop :=
  Forall (λ k', array_index k' = None → String.leb k' k = true) (keys fs).

Lemma keys_replace k v fs : keys (obj_replace k v fs) = keys fs.
Proof. induction fs as [|[a w] fs IH]; [done|]. cbn.
  destruct (String.eqb a k); cbn; [done|]. f_equal. exact IH.
Qed.

Lemma obj_add_sorted k v fs :
  canon_sorted (keys fs) → k ∉ keys fs → key_next k fs → canon_sorted (keys (obj_add k v fs)).
Proof.
  induction fs as [|[a w] fs IH]; intros Hs Hk Hn; [repeat constructor|].
  unfold canon_sorted in Hs. cbn in Hs. inversion Hs as [|? ? Hs' Ha]; subst.
  cbn in Hk. apply not_elem_of_cons in Hk as [Hne Hk].
  unfold key_next in Hn. cbn in Hn. inversion Hn as [|? ? Hna Hn']; subst.
  cbn. destruct (goes_before k a) eqn:G; cbn.
  - constructor; [done|].
    unfold goes_before, key_before in G.
    destruct (array_index k) as [i|] eqn:Ek; [|done].
    constructor.
    + unfold canon_leb. rewrite Ek. destruct (array_index a); [|done]. bool_prop. lia.
    + eapply Forall_impl; [exact Ha|]. intros b Hb. unfold canon_leb in *. rewrite Ek.
      destruct (array_index a), (array_index b); try done. bool_prop. lia.
  - constructor; [by apply IH|].
    fold (keys (obj_add k v fs)). unfold keys. rewrite (obj_add_perm k v fs). constructor; [|done].
    cbn. unfold goes_before, key_before in G. unfold canon_leb.
    destruct (array_index k) as [i|] eqn:Ek, (array_index a) as [j|] eqn:Ea; try done; bool_prop; [lia|].
    by apply Hna.
Qed.

Lemma obj_assign_canon k v fs :
  canon_fields fs → key_next k fs → canon_fields (obj_assign k v fs).
Proof.
  intros (Hs & Hnd & Hp) Hn. unfold obj_assign, obj_define.
  destruct (obj_has k fs) eqn:Ek; cbn [negb].
  - rewrite andb_false_r. unfold canon_fields. by rewrite keys_replace.
  - rewrite andb_true_r. destruct (String.eqb_spec k "__proto__") as [->|Hne]; [done|].
    apply obj_has_false in Ek. split; [by apply obj_add_sorted|].
    unfold keys. rewrite obj_add_perm. cbn. rewrite NoDup_cons, not_elem_of_cons. auto.
Qed.

Lemma obj_assign_Forall (P : val → Prop) k v fs :
  P v → Forall (λ kv, P kv.2) fs → Forall (λ kv, P kv.2) (obj_assign k v fs).
Proof.
  intros Hv H. unfold obj_assign, obj_define. destruct (_ && _); [done|].
  destruct (obj_has k fs).
  - induction H as [|[a w] fs Hw Hf IH]; [done|]. cbn. destruct (String.eqb a k); by constructor.
  - rewrite obj_add_perm. by constructor.
Qed.

Lemma obj_assign_keys k v fs : keys (obj_assign k v fs) ⊆ k :: keys fs.
Proof.
  unfold obj_assign, obj_define. destruct (_ && _); [set_solver|].
  destruct (obj_has k fs); [rewrite keys_replace; set_solver|].
  unfold keys. by rewrite obj_add_perm.
Qed.

Lemma fold_assign_throw fs e :
  fold_left assign_normalized fs (Throw e) = Throw e.
Proof. induction fs as [|kv fs IH]; [done|]. exact IH. Qed.

Lemma fold_assign_cons k m fs acc :
  fold_left assign_normalized ((k, m) :: fs) (Ret acc) =
  match m with
  | Ret w => fold_left assign_normalized fs (Ret (if is_undef w then acc else obj_assign k w acc))
  | Throw e => Throw e
  end.
Proof. destruct m; [done|]. apply fold_assign_throw. Qed.

Lemma fold_assign_canon fs acc out :
  fold_left assign_normalized fs (Ret acc) = Ret out →
  sortedb key_leb fs → canon_fields acc →
  Forall (λ kv, key_next kv.1 acc) fs →
  Forall (λ kv, ∀ w, kv.2 = Ret w → w = VUndef ∨ canonical w) fs →
  Forall (λ kv, canonical kv.2) acc →
  canon_fields out ∧ Forall (λ kv, canonical kv.2) out.
Proof.
  revert acc. induction fs as [|[k m] fs IH]; intros acc H Hs Hc Hn Hw Ha.
  { injection H as <-. done. }
  rewrite fold_assign_cons in H. destruct m as [w|e]; [|done].
  unfold sortedb in Hs. inversion Hs as [|? ? Hs' Hk]; subst.
  inversion Hn as [|? ? Hnk Hn']; subst. inversion Hw as [|? ? Hwk Hw']; subst.
  destruct (is_undef w) eqn:Eu; [by apply (IH acc)|].
  apply (IH (obj_assign k w acc)); try done.
  - by apply obj_assign_canon.
  - rewrite Forall_forall in Hn', Hk |- *. intros [k' m'] Hin.
    unfold key_next in *. apply Forall_forall. intros a Ha' Hidx.
    apply obj_assign_keys in Ha'. apply elem_of_cons in Ha' as [->|Ha'].
    + apply (Hk _ Hin).
    + specialize (Hn' _ Hin). cbn in Hn'. rewrite Forall_forall in Hn'. by apply Hn'.
  - apply obj_assign_Forall; [|done]. destruct (Hwk w eq_refl) as [->|]; [done|done].
Qed.

Lemma key_leb_total {A} (x y : string * A) : key_leb x y = false → key_leb y x = true.
Proof. apply string_leb_total. Qed.
Lemma key_leb_trans {A} (x y z : string * A) :
  key_leb x y = true → key_leb y z = true → key_leb x z = true.
Proof. apply string_compare_trans_le. Qed.

Lemma sort_fields_sorted {A} (fs : list (string * A)) : sortedb key_leb (sort_fields fs).
Proof. apply sort_by_sorted; [apply key_leb_total|apply key_leb_trans]. Qed.

(** Assigning the sorted results of canonical values builds a canonical object. *)
Lemma assign_sorted_canon ms out :
  fold_left assign_normalized (sort_fields ms) (Ret []) = Ret out →
  Forall (λ kv, ∀ w, kv.2 = Ret w → w = VUndef ∨ canonical w) ms → canonical (VObj out).
Proof.
  intros H Hm. eapply fold_assign_canon in H as [H1 H2]; [by constructor|apply sort_fields_sorted| | | |].
  - split; [constructor|]. split; [constructor|set_solver].
  - apply Forall_true. intros kv. constructor.
  - unfold sort_fields. by rewrite sort_by_perm.
  - constructor.
Qed.

(** The result of normalization is [undefined] or a normal form. *)
Lemma normalize_canonical v w :
  nums_wf v = true → normalizeForJson v = Ret w → w = VUndef ∨ canonical w.
Proof.
  revert w. induction v as [| |b|n|s|xs IH|fs IH|t|o] using val_rect_nested; intros w Hn H; cbn in H.
  - injection H as <-. by left.
  - injection H as <-. right; constructor.
  - injection H as <-. right; constructor.
  - destruct (is_finite n) eqn:E; [|done]. injection H as <-. right; by constructor.
  - injection H as <-. right; constructor.
  - apply bind_ret in H as (ys & H & [= <-]). right. constructor.
    apply mapE_Forall2 in H. induction H as [|x y xs ys Hxy _ IHxs]; [constructor|].
    cbn in Hn. apply andb_true_iff in Hn as [Hnx Hn].
    inversion IH as [|? ? Hx Hxs]; subst. constructor; [|by apply IHxs].
    apply bind_ret in Hxy as (z & Hz & [= <-]). destruct (Hx z Hnx Hz) as [->|Hc]; [constructor|].
    destruct z; try done; constructor.
  - apply bind_ret in H as (gs & H & [= <-]). right. eapply assign_sorted_canon; [exact H|].
    apply Forall_fmap. cbn in Hn. rewrite forallb_forall in Hn. rewrite Forall_forall in *.
    intros [k x] Hin w. cbn. apply (IH _ Hin), (Hn (k, x)). by apply list_elem_of_In.
  - destruct t; [|done]. injection H as <-. right; constructor.
  - done.
Qed.

(** ** Normal forms are fixed points *)

Lemma canonical_not_undef v : canonical v → is_undef v = false.
Proof. by destruct 1. Qed.

Lemma fold_assign_perm fs acc :
  Forall (λ kv, is_undef kv.2 = false) fs →
  NoDup (keys acc ++ keys fs) → "__proto__" ∉ keys fs →
  ∃ out, fold_left assign_normalized ((λ kv, (kv.1, Ret kv.2)) <$> fs) (Ret acc) = Ret out ∧
         out ≡ₚ acc ++ fs.
Proof.
  revert acc. induction fs as [|[k v] fs IH]; intros acc Hu Hnd Hp.
  { exists acc. by rewrite app_nil_r. }
  inversion Hu as [|? ? Hv Hu']; subst. cbn in Hv.
  rewrite fmap_cons, fold_assign_cons. cbn [fst snd]. rewrite Hv.
  cbn in Hp. apply not_elem_of_cons in Hp as [Hpk Hp].
  assert (k ∉ keys acc) as Hk.
  { apply NoDup_app in Hnd as (_ & Hd & _). intros Hin. apply (Hd _ Hin). by left. }
  assert (obj_assign k v acc = obj_add k v acc) as ->.
  { unfold obj_assign. destruct (String.eqb_spec k "__proto__"); [congruence|]. cbn.
    by apply obj_define_new. }
  destruct (IH (obj_add k v acc)) as (out & -> & Hout); [done| |done|].
  - unfold keys in *. rewrite obj_add_perm. cbn in *. by rewrite Permutation_middle.
  - exists out. split; [done|]. rewrite Hout, obj_add_perm. cbn. by rewrite Permutation_middle.
Qed.

Lemma canon_fields_unique fs gs :
  canon_fields fs → canon_fields gs → fs ≡ₚ gs → fs = gs.
Proof.
  intros (Hs1 & Hn1 & _) (Hs2 & _ & _) Hp.
  apply (sorted_perm_eq (λ a b : string * val, canon_leb a.1 b.1)); try done.
  - intros [k v] [k' v'] H1 H2 L1 L2. cbn in *. pose proof (canon_leb_antisym _ _ L1 L2) as <-.
    f_equal. apply (obj_get_NoDup k v) in H1; [|done]. apply (obj_get_NoDup k v') in H2; [|done].
    congruence.
  - clear -Hs1. unfold canon_sorted, sortedb, keys in *. induction fs as [|kv fs IH]; [constructor|].
    cbn in Hs1. inversion Hs1; subst. constructor; [by apply IH|]. by apply Forall_fmap in H2.
  - clear -Hs2. unfold canon_sorted, sortedb, keys in *. induction gs as [|kv gs IH]; [constructor|].
    cbn in Hs2. inversion Hs2; subst. constructor; [by apply IH|]. by apply Forall_fmap in H2.
Qed.

Lemma sort_fields_fmap {A B} (f : A → B) (fs : list (string * A)) :
  sort_fields ((λ kv, (kv.1, f kv.2)) <$> fs) = (λ kv, (kv.1, f kv.2)) <$> sort_fields fs.
Proof.
  unfold sort_fields. induction fs as [|kv fs IH]; [done|]. cbn. rewrite IH.
  generalize (sort_by key_leb fs) as l. intros l. clear.
  induction l as [|kv' l IH]; [done|]. cbn. unfold key_leb in *. cbn.
  destruct (String.leb kv.1 kv'.1); [done|]. cbn. by rewrite IH.
Qed.

(** Assigning the fields of a canonical object in sorted order rebuilds it. *)
Lemma assign_sorted_id fs :
  canonical (VObj fs) →
  fold_left assign_normalized (sort_fields ((λ kv, (kv.1, Ret kv.2)) <$> fs)) (Ret []) = Ret fs.
Proof.
  intros H. inversion H as [| | | | |? Hc Hf]; subst. rewrite sort_fields_fmap.
  assert (Hperm : sort_fields fs ≡ₚ fs) by apply sort_by_perm.
  pose proof Hc as (Hs & Hnd & Hp).
  destruct (fold_assign_perm (sort_fields fs) []) as (out & Hout & Hpo).
  - rewrite Hperm. eapply Forall_impl; [exact Hf|]. intros kv Hkv. by apply canonical_not_undef.
  - cbn. unfold keys. by rewrite Hperm.
  - unfold keys. by rewrite Hperm.
  - rewrite Hout. f_equal. apply canon_fields_unique; [|done|by rewrite Hpo].
    rewrite <- sort_fields_fmap in Hout. apply assign_sorted_canon in Hout; [by inversion Hout|].
    apply Forall_fmap. eapply Forall_impl; [exact Hf|]. intros kv Hkv w [= <-]. by right.
Qed.

Lemma canonical_fixed v : canonical v → normalizeForJson v = Ret v.
Proof.
  induction v as [| |b|n|s|xs IH|fs IH|t|o] using val_rect_nested; intros H; inversion H; subst; cbn.
  - done.
  - done.
  - by rewrite H2.
  - done.
  - rewrite (mapE_total _ id); [by rewrite list_fmap_id|].
    rewrite Forall_forall in *. intros x Hx. rewrite IH by auto. cbn. f_equal.
    destruct (H1 x Hx); done.
  - assert (((λ kv, (kv.1, normalizeForJson kv.2)) <$> fs) = ((λ kv, (kv.1, Ret kv.2)) <$> fs)) as ->.
    { apply list_fmap_ext. intros i kv Hkv. f_equal.
      eapply Forall_lookup_1 in IH; [|exact Hkv]. apply IH. by eapply Forall_lookup_1 in H2. }
    by rewrite assign_sorted_id.
Qed.

Lemma canonical_json v : canonical v → is_json v = true.
Proof.
  induction v as [| |b|n|s|xs IH|fs IH|t|o] using val_rect_nested; intros H; inversion H; subst; try done.
  - cbn. by rewrite H1, H2.
  - apply is_json_arr. rewrite Forall_forall in *. auto.
  - apply is_json_obj. destruct H1 as (Hs & Hnd & _). split; [by apply canon_ordered|].
    rewrite Forall_forall in *. auto.
Qed.

Lemma is_json_nums v : is_json v = true → nums_wf v = true.
Proof.
  induction v as [| |b|n|s|xs IH|fs IH|t|o] using val_rect_nested; intros H; try done.
  - cbn in *. by apply andb_true_iff in H as [? _].
  - apply is_json_arr in H. cbn. apply forallb_forall. intros x Hx%list_elem_of_In.
    rewrite Forall_forall in *. auto.
  - apply is_json_obj in H as [_ H]. cbn. apply forallb_forall. intros x Hx%list_elem_of_In.
    rewrite Forall_forall in *. auto.
Qed.

Lemma json_not_undef v : is_json v = true → is_undef v = false.
Proof. by destruct v. Qed.

(** Normalizing JSON data succeeds. *)
Lemma fold_assign_total fs acc :
  Forall (λ kv : string * exc val, is_ret kv.2 = true) fs →
  ∃ out, fold_left assign_normalized fs (Ret acc) = Ret out.
Proof.
  revert acc. induction fs as [|[k [w|e]] fs IH]; intros acc H; [by exists acc| |].
  - inversion H; subst. rewrite fold_assign_cons. by apply IH.
  - by inversion H.
Qed.

Lemma normalize_json_total v :
  is_json v = true → ∃ w, normalizeForJson v = Ret w ∧ canonical w.
Proof.
  intros H. assert (∃ w, normalizeForJson v = Ret w ∧ w ≠ VUndef) as (w & Hw & Hu).
  { induction v as [| |b|n|s|xs IH|fs IH|t|o] using val_rect_nested; try done; try by eexists.
    - cbn in *. apply andb_true_iff in H as [_ ->]. by eexists.
    - apply is_json_arr in H. cbn.
      assert (∃ ys, mapE (λ item, y ← normalizeForJson item; Ret (nullish_or y VNull)) xs = Ret ys)
        as (ys & ->); [|by eexists].
      induction IH as [|x xs Hx _ IHxs]; [by eexists|]. inversion H; subst.
      destruct (Hx ltac:(done)) as (y & Hy & _). destruct (IHxs ltac:(done)) as (ys & Hys).
      cbn. rewrite Hy. cbn. rewrite Hys. by eexists.
    - apply is_json_obj in H as [_ H]. cbn.
      destruct (fold_assign_total (sort_fields ((λ kv, (kv.1, normalizeForJson kv.2)) <$> fs)) [])
        as (out & ->); [|by eexists].
      unfold sort_fields. rewrite sort_by_perm. apply Forall_fmap.
      rewrite Forall_forall in *. intros kv Hkv. cbn.
      destruct (IH kv Hkv (H kv Hkv)) as (w & -> & _). done. }
  exists w. split; [done|]. destruct (normalize_canonical v w) as [?|?]; try done.
  by apply is_json_nums.
Qed.

(** ** Independence of the key order *)

Lemma sort_fields_unique {A} (fs gs : list (string * A)) :
  NoDup (fst <$> fs) → fs ≡ₚ gs → sort_fields fs = sort_fields gs.
Proof.
  intros Hnd Hp. apply (sorted_perm_eq key_leb).
  - unfold sort_fields. intros [k v] [k' v'] H1 H2 L1 L2. rewrite sort_by_perm in H1, H2.
    pose proof (string_leb_antisym _ _ L1 L2) as E. cbn in E. subst k'. f_equal.
    clear -Hnd H1 H2. induction fs as [|[a w] fs IH]; [by apply elem_of_nil in H1|].
    cbn in Hnd. apply NoDup_cons in Hnd as [Ha Hnd].
    apply elem_of_cons in H1 as [E1|H1], H2 as [E2|H2]; [congruence| | |by apply IH].
    + injection E1 as -> ->. destruct Ha. by apply (list_elem_of_fmap_2 fst) in H2.
    + injection E2 as -> ->. destruct Ha. by apply (list_elem_of_fmap_2 fst) in H1.
  - apply sort_fields_sorted.
  - apply sort_fields_sorted.
  - unfold sort_fields. by rewrite !sort_by_perm.
Qed.

Lemma normalize_same_data v w : same_data v w → normalizeForJson v = normalizeForJson w.
Proof.
  revert w. induction v as [| |b|n|s|xs IH|fs IH|t|o] using val_rect_nested;
    intros w H; inversion H as [? _|? ys Hxs|? gs gs' Hnd Hfs Hp]; subst; try done.
  - cbn. replace (mapE _ ys) with (mapE (λ item, y ← normalizeForJson item; Ret (nullish_or y VNull)) xs); [done|].
    clear H. induction Hxs as [|x y xs ys Hxy _ IHxs]; [done|]. inversion IH; subst.
    cbn. rewrite (H1 y Hxy). by rewrite IHxs.
  - cbn. rewrite (sort_fields_unique ((λ kv, (kv.1, normalizeForJson kv.2)) <$> gs)
                   ((λ kv, (kv.1, normalizeForJson kv.2)) <$> gs')).
    + do 3 f_equal. clear H Hnd Hp. induction Hfs as [|a b fs gs' [Hk Hab] _ IHfs]; [done|].
      inversion IH; subst. cbn. rewrite Hk, (H1 b.2 Hab). by rewrite IHfs.
    + rewrite <- list_fmap_compose. cbn.
      assert (keys gs' = keys fs) as Hk.
      { clear -Hfs. induction Hfs as [|a b fs gs' [Hk _] _ IHfs]; [done|]. cbn. f_equal; done. }
      change (NoDup (keys gs)). unfold keys. rewrite <- Hp. fold (keys gs'). by rewrite Hk.
    + by rewrite Hp.
Qed.

#[export] Instance normalize_proper : Proper (same_data ==> eq) normalizeForJson.
Proof. intros v w H. by apply normalize_same_data. Qed.

#[export] Instance canonicalJson_proper : Proper (same_data ==> eq) canonicalJson.
Proof. intros v w H. unfold canonicalJson. by rewrite H. Qed.

(** ** The text determines the normal form *)

Lemma canonicalJson_parse v s :
  nums_wf v = true → canonicalJson v = Ret (Some s) →
  ∃ w, normalizeForJson v = Ret w ∧ canonical w ∧ json_parse s = Some w.
Proof.
  intros Hn H. apply bind_ret in H as (w & Hw & [= Hs]). exists w. split; [done|].
  destruct (normalize_canonical v w Hn Hw) as [->|Hc]; [done|].
  split; [done|]. apply (parse_stringify w s); [by apply canonical_json|done].
Qed.

Lemma canonicalJson_json v :
  is_json v = true → ∃ s, canonicalJson v = Ret (Some s).
Proof.
  intros (w & Hw & Hc)%normalize_json_total. unfold canonicalJson. rewrite Hw. cbn.
  rewrite json_stringify_json by (by apply canonical_json). by eexists.
Qed.

Lemma canonicalJson_inj v w s :
  nums_wf v = true → nums_wf w = true →
  canonicalJson v = Ret (Some s) → canonicalJson w = Ret (Some s) →
  normalizeForJson v = normalizeForJson w.
Proof.
  intros Hv Hw (v' & -> & _ & Pv)%canonicalJson_parse (w' & -> & _ & Pw)%canonicalJson_parse; try done.
  congruence.
Qed.

(** ** Properties of normalized objects *)

Lemma fold_assign_get k fs acc out :
  k ≠ "__proto__" → NoDup (fst <$> fs) →
  fold_left assign_normalized fs (Ret acc) = Ret out →
  obj_get k out =
  match list_find (λ kv : string * exc val, kv.1 = k) fs with
  | Some (_, (_, Ret w)) => if is_undef w then obj_get k acc else Some w
  | _ => obj_get k acc
  end.
Proof.
  intros Hk. revert acc. induction fs as [|[a m] fs IH]; intros acc Hnd H; [by injection H as <-|].
  cbn in Hnd. apply NoDup_cons in Hnd as [Ha Hnd].
  rewrite fold_assign_cons in H. destruct m as [w|]; [|done]. rewrite (IH _ Hnd H). cbn.
  case_decide as E; cbn.
  - subst a. rewrite (proj2 (list_find_None _ _)).
    + destruct (is_undef w); [done|]. rewrite obj_get_assign by done. by rewrite String.eqb_refl.
    + apply Forall_forall. intros kv Hkv E. apply Ha. rewrite <- E. by apply list_elem_of_fmap_2.
  - assert (Hget : obj_get k (if is_undef w then acc else obj_assign a w acc) = obj_get k acc).
    { destruct (is_undef w); [done|]. destruct (decide (a = "__proto__")) as [->|].
      - by apply obj_get_assign_proto.
      - rewrite obj_get_assign by done. by rewrite (proj2 (String.eqb_neq _ _)) by congruence. }
    rewrite Hget. by destruct (list_find _ fs) as [[i [b []]]|].
Qed.

Lemma pair_unique {A} (l : list (string * A)) k a b :
  NoDup (fst <$> l) → (k, a) ∈ l → (k, b) ∈ l → a = b.
Proof.
  intros Hnd Ha Hb. induction l as [|[k' c] l IH]; [by apply elem_of_nil in Ha|].
  cbn in Hnd. apply NoDup_cons in Hnd as [Hk Hnd].
  apply elem_of_cons in Ha as [E1|Ha], Hb as [E2|Hb]; [congruence| | |by apply IH].
  - injection E1 as -> ->. destruct Hk. by apply (list_elem_of_fmap_2 fst) in Hb.
  - injection E2 as -> ->. destruct Hk. by apply (list_elem_of_fmap_2 fst) in Ha.
Qed.

(** The properties of an object built by assigning converted properties. *)
Lemma assign_sorted_get (f : string * val → exc val) fs out k :
  NoDup (keys fs) → k ≠ "__proto__" →
  fold_left assign_normalized (sort_fields ((λ kv, (kv.1, f kv)) <$> fs)) (Ret []) = Ret out →
  obj_get k out =
  match obj_get k fs with
  | Some v => match f (k, v) with Ret w => if is_undef w then None else Some w | Throw _ => None end
  | None => None
  end.
Proof.
  intros Hnd Hk H. set (ms := (λ kv, (kv.1, f kv)) <$> fs) in *.
  assert (fst <$> ms = keys fs) as Hkeys by (unfold ms; by rewrite <- list_fmap_compose).
  assert (NoDup (fst <$> sort_fields ms)) as Hnds.
  { unfold sort_fields. rewrite sort_by_perm. by rewrite Hkeys. }
  rewrite (fold_assign_get k _ _ _ Hk Hnds H). cbn.
  destruct (obj_get k fs) as [v|] eqn:Eg.
  - assert ((k, f (k, v)) ∈ sort_fields ms) as Hin.
    { unfold sort_fields. rewrite sort_by_perm. unfold ms. apply list_elem_of_fmap.
      exists (k, v). split; [done|by apply obj_get_elem]. }
    destruct (list_find_elem_of (λ kv : string * exc val, kv.1 = k) _ _ Hin eq_refl) as [[i [a m]] Hf].
    rewrite Hf. apply list_find_Some in Hf as (Hi & Ha & _). cbn in Ha. subst a.
    apply list_elem_of_lookup_2 in Hi. by rewrite (pair_unique _ _ _ _ Hnds Hi Hin).
  - rewrite (proj2 (list_find_None _ _)); [done|]. apply Forall_forall. intros kv Hkv <-.
    apply obj_get_None in Eg. apply Eg. rewrite <- Hkeys. unfold sort_fields in Hkv.
    rewrite sort_by_perm in Hkv. by apply list_elem_of_fmap_2.
Qed.

Lemma obj_assign_elem k v fs k' v' :
  (k', v') ∈ obj_assign k v fs → (k', v') = (k, v) ∨ (k', v') ∈ fs.
Proof.
  unfold obj_assign, obj_define. destruct (_ && _); [by right|]. destruct (obj_has k fs).
  - induction fs as [|[a w] fs IH]; [by right|]. cbn. destruct (String.eqb_spec a k) as [->|].
    + intros [->|?]%elem_of_cons; [by left|right; by right].
    + intros [->|H]%elem_of_cons; [right; by left|]. destruct (IH H); [by left|right; by right].
  - rewrite obj_add_perm. intros [->|?]%elem_of_cons; [by left|by right].
Qed.

Lemma fold_assign_elem ms acc out k w :
  fold_left assign_normalized ms (Ret acc) = Ret out →
  (k, w) ∈ out → (k, w) ∈ acc ∨ (k, Ret w) ∈ ms.
Proof.
  revert acc. induction ms as [|[a m] ms IH]; intros acc H Hin; [injection H as <-; by left|].
  rewrite fold_assign_cons in H. destruct m as [x|]; [|done].
  destruct (IH _ H Hin) as [Hacc|?]; [|right; by right].
  destruct (is_undef x); [by left|].
  apply obj_assign_elem in Hacc as [[= -> ->]|?]; [right; left|by left].
Qed.

(** A property other than ["__proto__"] of a normalized object is the
    normalization of the property it came from. *)
Lemma normalize_get fs gs k v w :
  NoDup (keys fs) → normalizeForJson (VObj fs) = Ret (VObj gs) → k ≠ "__proto__" →
  obj_get k fs = Some v → normalizeForJson v = Ret w → w ≠ VUndef → obj_get k gs = Some w.
Proof.
  intros Hnd H Hk Hget Hw Hu. cbn in H. apply bind_ret in H as (out & H & [= <-]).
  rewrite (assign_sorted_get (λ kv, normalizeForJson kv.2) _ _ k Hnd Hk H), Hget. cbn.
  rewrite Hw. by destruct w.
Qed.

(** ** Equality of data is an equivalence *)

Definition fields_rel (R : val → val → Prop) (a b : string * val) : Prop := a.1 = b.1 ∧ R a.2 b.2.

Lemma fields_rel_keys R fs gs : Forall2 (fields_rel R) fs gs → keys gs = keys fs.
Proof. induction 1 as [|a b fs gs [Hk _] _ IH]; [done|]. cbn. f_equal; [done|exact IH]. Qed.

Lemma same_data_sym v w : same_data v w → same_data w v.
Proof.
  revert w. induction v as [| |b|n|s|xs IH|fs IH|t|o] using val_rect_nested;
    intros w H; inversion H as [? Hl|? ys Hxs|? gs gs' Hnd Hfs Hp]; subst; try by constructor.
  - constructor. clear H. induction Hxs as [|x y xs ys Hxy _ IHxs]; inversion IH; subst;
      constructor; [by auto|by apply IHxs].
  - assert (Forall2 (fields_rel same_data) gs' fs) as Hsym.
    { clear -IH Hfs. induction Hfs as [|a b fs gs' [Hk Hab] _ IHfs]; inversion IH; subst;
        constructor; [split; [done|by auto]|by apply IHfs]. }
    destruct (Permutation_Forall2 Hp Hsym) as (fs' & Hp' & Hf').
    apply (sd_obj gs fs fs'); [|done|by symmetry].
    unfold keys. rewrite <- Hp. fold (keys gs'). by rewrite (fields_rel_keys _ _ _ Hfs).
Qed.

Lemma same_data_trans u v w : same_data u v → same_data v w → same_data u w.
Proof.
  revert v w. induction u as [| |b|n|s|xs IH|fs IH|t|o] using val_rect_nested;
    intros v w H1 H2; inversion H1 as [? Hl|? ys Hxs|? gs gs' Hnd Hfs Hp]; subst; try done.
  - inversion H2 as [|? zs Hys|]; subst; [done|]. constructor. clear H1 H2.
    revert zs Hys. induction Hxs as [|x y xs ys Hxy _ IHxs]; intros zs Hys; inversion Hys; subst;
      constructor; inversion IH; subst; [by eauto|by apply IHxs].
  - inversion H2 as [| |? hs hs' Hnd2 Hgs Hp2]; subst; [done|].
    symmetry in Hp. destruct (Permutation_Forall2 Hp Hgs) as (hs2 & Hph & Hg').
    apply (sd_obj fs hs hs2); [done| |by rewrite <- Hph].
    clear -IH Hfs Hg'. revert hs2 Hg'. induction Hfs as [|a b fs gs' [Hk Hab] _ IHfs];
      intros hs2 Hg'; inversion Hg' as [|? c ? hs3 [Hk' Hbc]]; subst; constructor; inversion IH; subst.
    + split; [congruence|by eauto].
    + by apply IHfs.
Qed.

(** No object of the value has a property named ["__proto__"]. *)
Fixpoint no_proto (v : val) : bool :=
  match v with
  | VArr xs => forallb no_proto xs
  | VObj fs => forallb (λ kv, negb (String.eqb kv.1 "__proto__") && no_proto kv.2) fs
  | _ => true
  end.

Lemma no_proto_keys fs : no_proto (VObj fs) = true → "__proto__" ∉ keys fs.
Proof.
  cbn. intros H (kv & Hk & Hin)%list_elem_of_fmap. rewrite forallb_forall in H.
  apply list_elem_of_In in Hin. apply H in Hin. by rewrite <- Hk in Hin.
Qed.

Lemma no_proto_omit k fs : no_proto (VObj fs) = true → no_proto (VObj (obj_omit k fs)) = true.
Proof.
  cbn. rewrite !forallb_forall. intros H [a v] Hin%list_elem_of_In. apply obj_omit_elem in Hin as [Hin _].
  by apply H, list_elem_of_In.
Qed.

(** On such JSON data normalization only reorders keys. *)
Lemma normalize_same v w :
  is_json v = true → no_proto v = true → normalizeForJson v = Ret w → same_data v w.
Proof.
  revert w. induction v as [| |b|n|s|xs IH|fs IH|t|o] using val_rect_nested; intros w Hj Hp H; try done.
  - cbn in H. injection H as <-. by constructor.
  - cbn in H. injection H as <-. by constructor.
  - cbn in H. destruct (is_finite n); [|done]. injection H as <-. by constructor.
  - cbn in H. injection H as <-. by constructor.
  - cbn in H. apply bind_ret in H as (ys & H & [= <-]). constructor.
    apply mapE_Forall2 in H. apply is_json_arr in Hj. cbn in Hp.
    induction H as [|x y xs ys Hxy _ IHxs]; [constructor|].
    inversion IH; subst. inversion Hj; subst. cbn in Hp. apply andb_true_iff in Hp as [Hpx Hp].
    constructor; [|by apply IHxs]. apply bind_ret in Hxy as (z & Hz & [= <-]).
    assert (z ≠ VUndef) as Hu.
    { destruct (normalize_json_total x) as (z' & Hz' & Hc); [done|].
      rewrite Hz in Hz'. injection Hz' as <-. intros ->. inversion Hc. }
    replace (nullish_or z VNull) with z by by destruct z. by auto.
  - pose proof (no_proto_keys fs Hp) as Hk. apply is_json_obj in Hj as [Hord Hj].
    assert (∃ gs', (λ kv, (kv.1, normalizeForJson kv.2)) <$> fs = (λ kv, (kv.1, Ret kv.2)) <$> gs' ∧
                   Forall2 (fields_rel same_data) fs gs' ∧ Forall (λ kv, is_undef kv.2 = false) gs')
      as (gs' & Hmap & Hrel & Hu).
    { clear H Hk Hord. cbn in Hp. induction fs as [|[k x] fs IHfs]; [by exists []|].
      inversion IH as [|? ? Hx IH']; subst. inversion Hj as [|? ? Hjx Hj']; subst.
      cbn in Hp. rewrite !andb_true_iff in Hp. destruct Hp as [[_ Hpx] Hp].
      destruct (normalize_json_total x) as (y & Hy & Hc); [done|].
      destruct (IHfs IH' Hj' Hp) as (gs' & Hmap & Hrel & Hu).
      exists ((k, y) :: gs'). cbn in *. rewrite Hy, Hmap.
      split; [done|]. split; constructor; try done; [|by apply canonical_not_undef].
      split; [done|by apply Hx]. }
    cbn in H. rewrite Hmap in H. rewrite sort_fields_fmap in H.
    pose proof (fields_rel_keys _ _ _ Hrel) as Hkeys.
    assert (NoDup (keys fs)) as Hnd by by apply keys_ordered_NoDup.
    assert (Hperm : sort_fields gs' ≡ₚ gs') by apply sort_by_perm.
    destruct (fold_assign_perm (sort_fields gs') []) as (out & Hout & Hpo).
    + by rewrite Hperm.
    + cbn. unfold keys. rewrite Hperm. fold (keys gs'). by rewrite Hkeys.
    + unfold keys. rewrite Hperm. fold (keys gs'). by rewrite Hkeys.
    + rewrite Hout in H. injection H as <-. apply (sd_obj fs out gs'); [done|done|].
      by rewrite Hpo, Hperm.
Qed.

Lemma canonical_eq_same v w :
  is_json v = true → is_json w = true → no_proto v = true → no_proto w = true →
  canonicalJson v = canonicalJson w → same_data v w.
Proof.
  intros Jv Jw Pv Pw H. destruct (canonicalJson_json v Jv) as (s & Hs).
  pose proof (canonicalJson_inj v w s (is_json_nums v Jv) (is_json_nums w Jw) Hs ltac:(congruence)) as Hn.
  destruct (normalize_json_total v Jv) as (n & Hv & _).
  apply (same_data_trans _ n); [by apply normalize_same|].
  apply same_data_sym, normalize_same; [done|done|congruence].
Qed.

(** ** A property named ["__proto__"] is not hashed *)

Lemma insert_by_split {A} (leb : A → A → bool) x l :
  ∃ l1 l2, l = l1 ++ l2 ∧ insert_by leb x l = l1 ++ x :: l2.
Proof.
  induction l as [|y l (l1 & l2 & -> & IH)]; [by exists [], []|]. cbn.
  destruct (leb x y); [by exists [], (y :: l1 ++ l2)|]. exists (y :: l1), l2. by rewrite IH.
Qed.

Lemma assign_keys_no_proto fs acc out :
  fold_left assign_normalized fs (Ret acc) = Ret out →
  obj_has "__proto__" acc = false → obj_has "__proto__" out = false.
Proof.
  revert acc. induction fs as [|[k m] fs IH]; intros acc H Ha; [by injection H as <-|].
  rewrite fold_assign_cons in H. destruct m as [w|]; [|done]. apply (IH _ H).
  destruct (is_undef w); [done|]. apply obj_has_false. apply obj_has_false in Ha.
  unfold obj_assign, obj_define. destruct (String.eqb_spec k "__proto__") as [->|Hk]; cbn [andb].
  - by rewrite (proj2 (obj_has_false _ _) Ha).
  - destruct (obj_has k acc); [by rewrite keys_replace|].
    unfold keys. rewrite obj_add_perm. cbn. rewrite not_elem_of_cons. split; [congruence|done].
Qed.

Lemma fold_assign_proto w l1 l2 :
  fold_left assign_normalized (l1 ++ ("__proto__", Ret w) :: l2) (Ret []) =
  fold_left assign_normalized (l1 ++ l2) (Ret []).
Proof.
  rewrite !fold_left_app.
  destruct (fold_left assign_normalized l1 (Ret [])) as [acc|e] eqn:E; [|by rewrite !fold_assign_throw].
  rewrite fold_assign_cons. pose proof (assign_keys_no_proto _ _ _ E eq_refl) as Hp.
  destruct (is_undef w); [done|]. unfold obj_assign. by rewrite Hp.
Qed.

Lemma normalize_proto fs v w :
  NoDup (keys fs ++ ["__proto__"]) → normalizeForJson v = Ret w →
  normalizeForJson (VObj (fs ++ [("__proto__", v)])) = normalizeForJson (VObj fs).
Proof.
  intros Hnd Hw. cbn. rewrite fmap_app. cbn. rewrite Hw.
  set (gs := (λ kv : string * val, (kv.1, normalizeForJson kv.2)) <$> fs).
  rewrite (sort_fields_unique (gs ++ [("__proto__", Ret w)]) (("__proto__", Ret w) :: gs)).
  - unfold sort_fields. cbn [sort_by].
    destruct (insert_by_split key_leb ("__proto__", Ret w) (sort_by key_leb gs))
      as (l1 & l2 & Hl & ->). by rewrite fold_assign_proto, <- Hl.
  - unfold gs. rewrite fmap_app, <- list_fmap_compose. exact Hnd.
  - by rewrite Permutation_app_comm.
Qed.

(** ** Properties *)

(** C24. Parsing a canonical text gives the normal form of the value it was made
    from, and that normal form has the same canonical text: the text carries all
    of the normalized data, and canonicalizing again changes nothing. *)
Theorem canonicalJson_roundtrip v s :
  nums_wf v = true → canonicalJson v = Ret (Some s) →
  ∃ w, normalizeForJson v = Ret w ∧ json_parse s = Some w ∧ canonicalJson w = Ret (Some s).
Proof.
  intros Hn H. destruct (canonicalJson_parse v s Hn H) as (w & Hw & Hc & Hp).
  exists w. split; [done|]. split; [done|]. unfold canonicalJson in *.
  rewrite (canonical_fixed w Hc). by rewrite Hw in H.
Qed.

Lemma canonicalJson_roundtrip_witness :
  ∃ w, normalizeForJson (VObj [("b", VInt 1); ("a", VArr [VUndef; VDate (Some 0%Z)])]) = Ret w ∧
       json_parse (quoted "{'a':[null,'1970-01-01T00:00:00.000Z'],'b':1}") = Some w ∧
       canonicalJson w = Ret (Some (quoted "{'a':[null,'1970-01-01T00:00:00.000Z'],'b':1}")).
Proof. apply canonicalJson_roundtrip; vm_compute; reflexivity. Defined.

(** On JSON data without properties named ["__proto__"] two values have the
    same canonical text exactly when they are the same data up to the order of
    object keys: canonicalization is insensitive to key order and loses
    nothing else. *)
Theorem canonicalJson_same_data v w :
  is_json v = true → is_json w = true → no_proto v = true → no_proto w = true →
  canonicalJson v = canonicalJson w ↔ same_data v w.
Proof.
  intros Jv Jw Pv Pw. split; [by apply canonical_eq_same|intros H; by rewrite H].
Qed.

Lemma canonicalJson_same_data_witness :
  canonicalJson (VObj [("a", VInt 1); ("b", VNull)]) = canonicalJson (VObj [("b", VNull); ("a", VInt 1)])
  ↔ same_data (VObj [("a", VInt 1); ("b", VNull)]) (VObj [("b", VNull); ("a", VInt 1)]).
Proof. apply canonicalJson_same_data; vm_compute; reflexivity. Defined.

(** A property named ["__proto__"] leaves no trace in the canonical text,
    because it is assigned to the result object like any other key: JSON data with
    and without it canonicalize, and therefore hash, identically. *)
Theorem canonicalJson_drops_proto fs v :
  is_json (VObj (fs ++ [("__proto__", v)])) = true →
  canonicalJson (VObj (fs ++ [("__proto__", v)])) = canonicalJson (VObj fs).
Proof.
  intros [Hk Hj]%is_json_obj. apply Forall_app in Hj as [_ Hv]. inversion Hv; subst.
  destruct (normalize_json_total v) as (w & Hw & _); [done|].
  unfold canonicalJson. rewrite (normalize_proto fs v w); [done| |done].
  apply keys_ordered_NoDup in Hk. unfold keys in Hk. by rewrite fmap_app in Hk.
Qed.

Lemma canonicalJson_drops_proto_witness :
  is_json (VObj [("role", VStr "viewer"); ("__proto__", VObj [("role", VStr "owner")])]) = true ∧
  canonicalJson (VObj ([("role", VStr "viewer")] ++ [("__proto__", VObj [("role", VStr "owner")])]))
  = canonicalJson (VObj [("role", VStr "viewer")]).
Proof. split; [reflexivity|]. apply canonicalJson_drops_proto. vm_compute. reflexivity. Defined.

(** The keys of a canonical object are distinct and enumerated with the array
    indices first, in numeric order, and the other keys after them, in code
    unit order (sorting by text alone would put ["10"] before ["9"]). *)
Theorem canonical_key_order fs gs :
  nums_wf (VObj fs) = true → normalizeForJson (VObj fs) = Ret (VObj gs) →
  StronglySorted (λ a b, canon_leb a b = true ∧ a ≠ b) (keys gs).
Proof.
  intros Hn H. destruct (normalize_canonical _ _ Hn H) as [?|Hc]; [done|].
  inversion Hc as [| | | | |? (Hs & Hnd & _)]; subst. clear -Hs Hnd.
  induction Hs as [|k ks Hs IH Hk]; [constructor|]. apply NoDup_cons in Hnd as [Hin Hnd].
  constructor; [by apply IH|]. rewrite Forall_forall in *. intros k' Hk'. split; [by apply Hk|].
  by intros ->.
Qed.

Lemma canonical_key_order_witness :
  normalizeForJson (VObj [("9", VInt 2); ("10", VInt 1); ("b", VNull); ("a", VNull)])
    = Ret (VObj [("9", VInt 2); ("10", VInt 1); ("a", VNull); ("b", VNull)]) ∧
  StronglySorted (λ a b, canon_leb a b = true ∧ a ≠ b) ["9"; "10"; "a"; "b"].
Proof.
  split; [vm_compute; reflexivity|].
  apply (canonical_key_order [("9", VInt 2); ("10", VInt 1); ("b", VNull); ("a", VNull)]
           [("9", VInt 2); ("10", VInt 1); ("a", VNull); ("b", VNull)]); vm_compute; reflexivity.
Defined.
