(* ===== verification/Keyed.v ===== *)
(** * Walks over many chains at once

    The verifiers of the source share one loop: read the key of each record (its
    tenant or stream), look up the state of that key in a [Map], check the record
    against the state, and store the next state. [walk] is that loop; [walk_ok]
    reduces it to one [steps] per key and [walk_fail] locates its first fault. *)

From S2P Require Import Prelude Regex JsNum JsVal.

(** [{ ok: true } | { ok: false, index, reason }] *)
Inductive VerificationResult (R : Type) : Type :=
| VerifyOk
| VerifyFail (index : nat) (reason : R).
Arguments VerifyOk {R}.
Arguments VerifyFail {R} _ _.

Section Keyed.
Context {S R : Type}.
(** The key of a record, or the reason to reject it before the state is read. *)
Variable key : val → exc (R + val).
(** The next state of the key, or the reason to reject the record. *)
Variable step : option S → val → exc (R + S).

Fixpoint walk (state : list (val * S)) (index : nat) (records : list val)
    : exc (VerificationResult R) :=
  match records with
  | [] => Ret VerifyOk
  | record :: records =>
      k ← key record;
      match k with
      | inl reason => Ret (VerifyFail index reason)
      | inr k =>
          next ← step (map_get k state) record;
          match next with
          | inl reason => Ret (VerifyFail index reason)
          | inr s => walk (map_set k s state) (1 + index) records
          end
      end
  end.

(** The records of one key, checked in order from a state. *)
Fixpoint steps (state : option S) (records : list val) : option (option S) :=
  match records with
  | [] => Some state
  | record :: records =>
      match step state record with
      | Ret (inr s) => steps (Some s) records
      | _ => None
      end
  end.

Definition has_key (k : string) (record : val) : bool :=
  match key record with Ret (inr (VStr k')) => String.eqb k k' | _ => false end.

Definition of_key (k : string) (records : list val) : list val :=
  filter (λ r, has_key k r = true) records.

#[local] Arguments of_key : simpl never.

Definition string_keyed (record : val) : Prop := ∃ k, key record = Ret (inr (VStr k)).

Lemma has_key_spec k r : has_key k r = true ↔ key r = Ret (inr (VStr k)).
Proof.
  unfold has_key. destruct (key r) as [[|[]]|]; try by split.
  rewrite String.eqb_eq. split; congruence.
Qed.

Lemma of_key_cons k r rs :
  of_key k (r :: rs) = if has_key k r then r :: of_key k rs else of_key k rs.
Proof.
  unfold of_key. rewrite filter_cons. destruct (has_key k r); case_decide; done.
Qed.

Lemma of_key_app k rs rs' : of_key k (rs ++ rs') = of_key k rs ++ of_key k rs'.
Proof. apply filter_app. Qed.

Lemma elem_of_of_key k r rs : r ∈ of_key k rs ↔ key r = Ret (inr (VStr k)) ∧ r ∈ rs.
Proof. unfold of_key. by rewrite list_elem_of_filter, has_key_spec. Qed.

Lemma steps_app st rs rs' :
  steps st (rs ++ rs') = st' ← steps st rs; steps st' rs'.
Proof.
  revert st. induction rs as [|r rs IH]; intros st; cbn; [done|].
  destruct (step st r) as [[|s]|]; [done|apply IH|done].
Qed.

Lemma map_get_other k k' s m :
  k ≠ k' → map_get (VStr k') (map_set (VStr k) (s : S) m) = map_get (VStr k') m.
Proof. intros H. rewrite map_get_set. by rewrite (proj2 (String.eqb_neq _ _) H). Qed.

Lemma map_get_same k s m : map_get (VStr k) (map_set (VStr k) (s : S) m) = Some s.
Proof. by rewrite map_get_set, String.eqb_refl. Qed.

(** The walk accepts exactly when the records of every key are accepted. *)
Lemma walk_ok m i rs :
  Forall string_keyed rs →
  walk m i rs = Ret VerifyOk ↔
  ∀ k, is_Some (steps (map_get (VStr k) m) (of_key k rs)).
Proof.
  intros H. revert m i. induction H as [|r rs [k Hk] Hrs IH]; intros m i; cbn.
  { split; [by eexists|done]. }
  rewrite Hk. cbn. split.
  - intros Hw k'. apply bind_ret in Hw as ([reason|s] & Hs & Hw); [done|].
    rewrite of_key_cons. destruct (has_key k' r) eqn:E.
    + apply has_key_spec in E. rewrite Hk in E. injection E as <-. cbn. rewrite Hs.
      specialize (proj1 (IH _ _) Hw k) as Hs'. by rewrite map_get_same in Hs'.
    + assert (k ≠ k') as Hne by (intros ->; by rewrite (proj2 (has_key_spec _ _) Hk) in E).
      specialize (proj1 (IH _ _) Hw k') as Hs'. by rewrite map_get_other in Hs'.
  - intros Hall. pose proof (Hall k) as Hs.
    rewrite of_key_cons, (proj2 (has_key_spec _ _) Hk) in Hs. cbn in Hs.
    destruct (step _ r) as [[|s]|] eqn:E; [by destruct Hs|cbn|by destruct Hs].
    apply IH. intros k'. destruct (decide (k = k')) as [<-|Hne]; [by rewrite map_get_same|].
    rewrite map_get_other by done. specialize (Hall k'). rewrite of_key_cons in Hall.
    destruct (has_key k' r) eqn:E'; [|done].
    apply has_key_spec in E'. rewrite Hk in E'. by injection E' as ->.
Qed.

(** The first fault: the records before it are accepted, and the record itself
    is rejected, with this reason, by its key or in the state of its key. *)
Lemma walk_fail m i rs j reason :
  Forall string_keyed (take (j - i) rs) →
  walk m i rs = Ret (VerifyFail j reason) →
  ∃ pre r post, rs = pre ++ r :: post ∧ j = (i + length pre)%nat ∧
    walk m i pre = Ret VerifyOk ∧
    (key r = Ret (inl reason) ∨
     ∃ k, key r = Ret (inr k) ∧
       (∀ s, k = VStr s → ∃ st, steps (map_get (VStr s) m) (of_key s pre) = Some st ∧
                           step st r = Ret (inl reason))).
Proof.
  revert m i. induction rs as [|r rs IH]; intros m i Hk H; cbn in H; [done|].
  apply bind_ret in H as ([e|k] & Hkey & H).
  { injection H as -> ->. exists [], r, rs. cbn. rewrite Nat.add_0_r. auto. }
  apply bind_ret in H as ([e|s] & Hs & H).
  { injection H as -> ->. exists [], r, rs. cbn. rewrite Nat.add_0_r.
    split_and!; try done. right. exists k. split; [done|]. intros s ->. by exists (map_get (VStr s) m). }
  assert (i < j)%nat as Hij.
  { clear -H. revert H. generalize (map_set k s m) as m'. revert i. induction rs as [|r rs IH]; intros i m' H; cbn in H; [done|].
    apply bind_ret in H as ([e|k'] & _ & H); [injection H as <- _; lia|].
    apply bind_ret in H as ([e|s'] & _ & H); [injection H as <- _; lia|]. apply IH in H. lia. }
  replace (j - i)%nat with (1 + (j - (1 + i)))%nat in Hk by lia. cbn in Hk.
  inversion Hk as [|? ? [k' Hk'] Hks]; subst. rewrite Hkey in Hk'. injection Hk' as ->.
  destruct (IH _ _ Hks H) as (pre & r' & post & -> & -> & Hw & Hr).
  exists (r :: pre), r', post. split_and!; [done|cbn; lia| |].
  { cbn. rewrite Hkey. cbn. rewrite Hs. exact Hw. }
  destruct Hr as [?|(k2 & Hk2 & Hr)]; [by left|right]. exists k2. split; [done|].
  intros s2 ->. destruct (Hr s2 eq_refl) as (st & Hst & Hstep). exists st. split; [|done].
  rewrite of_key_cons. destruct (has_key s2 r) eqn:E.
  - apply has_key_spec in E. rewrite Hkey in E. injection E as ->. cbn. rewrite Hs.
    by rewrite map_get_same in Hst.
  - rewrite map_get_other in Hst; [done|]. intros ->.
    by rewrite (proj2 (has_key_spec _ _) Hkey) in E.
Qed.

Lemma walk_ok_keys m i rs :
  walk m i rs = Ret VerifyOk → Forall (λ r, ∃ k, key r = Ret (inr k)) rs.
Proof.
  revert m i. induction rs as [|r rs IH]; intros m i H; [constructor|]. cbn in H.
  apply bind_ret in H as ([e|k] & Hk & H); [done|].
  apply bind_ret in H as ([e|s] & _ & H); [done|]. constructor; [eauto|by eapply IH].
Qed.

(** Without records of non-string keys the walk never stops on a key of
    another kind; a throw comes from the key or the check of some record. *)
Lemma walk_total m i rs :
  Forall (λ r, is_ret (key r) = true ∧ ∀ st, is_ret (step st r) = true) rs →
  is_ret (walk m i rs) = true.
Proof.
  intros H. revert m i. induction H as [|r rs [Hk Hs] _ IH]; intros m i; [done|]. cbn.
  destruct (key r) as [[e|k]|]; [done|cbn|done].
  specialize (Hs (map_get k m)). destruct (step _ r) as [[e|s]|]; [done|apply IH|done].
Qed.
End Keyed.

#[global] Arguments of_key : simpl never.

(** ** Chains as linked lists of records

    [linked init rs s]: the records take the state [init] to [s], each by [link].
    When the checks of a step decide [link] (in the states that occur), [steps]
    decides [linked]. *)
Section Linked.
Context {S R : Type} (step : option S → val → exc (R + S)).
Context (link : S → val → S → Prop) (init : S) (reachable : S → Prop).

Inductive linked : list val → S → Prop :=
| linked_nil : linked [] init
| linked_snoc rs s r s' : linked rs s → link s r s' → linked (rs ++ [r]) s'.

Hypothesis reachable_init : reachable init.
Hypothesis reachable_link : ∀ s r s', reachable s → link s r s' → reachable s'.
Hypothesis step_link : ∀ st r s',
  reachable (default init st) → step st r = Ret (inr s') ↔ link (default init st) r s'.

Lemma linked_reachable rs s : linked rs s → reachable s.
Proof using reachable_init reachable_link. induction 1; eauto. Qed.

Lemma steps_linked rs s :
  linked rs s ↔ ∃ st, steps step None rs = Some st ∧ default init st = s.
Proof using reachable_init reachable_link step_link.
  split.
  - induction 1 as [|rs s r s' Hl (st & IH & Hst) Hlink]; [by exists None|].
    exists (Some s'). split; [|done]. rewrite steps_app, IH. cbn.
    rewrite (proj2 (step_link st r s' ltac:(rewrite Hst; by eapply linked_reachable))); [done|].
    by rewrite Hst.
  - revert s. induction rs as [|r rs IH] using rev_ind; intros s (st & Hs & Hst).
    { injection Hs as <-. cbn in Hst. subst. constructor. }
    rewrite steps_app in Hs. destruct (steps _ None rs) as [st0|] eqn:E0; [cbn in Hs|done].
    destruct (step st0 r) as [[|s']|] eqn:E; [done| |done]. injection Hs as <-. cbn in Hst. subst s'.
    assert (linked rs (default init st0)) as Hl by (apply IH; eauto).
    apply step_link in E; [by econstructor|by eapply linked_reachable].
Qed.

Lemma steps_linked_some rs : is_Some (steps step None rs) ↔ ∃ s, linked rs s.
Proof using reachable_init reachable_link step_link.
  split.
  - intros [st Hst]. exists (default init st). apply steps_linked. eauto.
  - intros (s & (st & Hst & _)%steps_linked). eauto.
Qed.
End Linked.
