(* ===== verification/AuditChain.v ===== *)
(** * Hash chains of audit and edge records (sdks/typescript/src/index.ts)

    [hashAuditRecord], [hashEvidenceEdgeRecord], [hashAuditEvent],
    [hashEvidenceEdge], [verifyAuditRecords] and [verifyEvidenceEdgeRecords]. The
    two families have the same envelope and differ in the property that holds
    their evidence ([evidence_key]). [chain] is the specification of one tenant's
    chain: its records, its tip hash and its length. *)

From S2P Require Import Prelude Regex JsNum JsVal Dates JsonText Hash Sha256 Canonical.
From S2P Require Import Keyed.

Definition SCHEMA_VERSION := "2026-06-10".
Definition EDGE_SCHEMA_VERSION := "2026-06-13".
Definition EVIDENCE_COMMIT_SCHEMA_VERSION := "2026-06-23".
Definition HASH_ALGORITHM := "sha256".
Definition EVIDENCE_COMMIT_TREE_ALGORITHM := "veritio-merkle-v1".
Definition CANONICALIZATION := "veritio-json-v1".

(** The families of chained records. *)
Inductive chainKind := Audit | Edge.
#[global] Instance chainKind_eq_dec : EqDecision chainKind.
Proof. solve_decision. Defined.

(** The property of a record that holds its evidence. *)
Definition evidence_key (kind : chainKind) : string :=
  match kind with Audit => "event" | Edge => "edge" end.

Inductive reason : Type :=
| missing_tenant_scope
| unsupported_hash_algorithm
| unsupported_canonicalization
| sequence_mismatch
| previous_hash_mismatch
| hash_mismatch.

Section Chain.
Context `{Hasher}.

Definition hashAuditEvent (event previousHash : val) : exc string :=
  text ← canonicalJson (obj_lit [("event", event); ("previousHash", previousHash)]);
  sha256HexOpt text.

Definition hashEvidenceEdge (edge previousHash : val) : exc string :=
  text ← canonicalJson (obj_lit [("edge", edge); ("previousHash", previousHash)]);
  sha256HexOpt text.

(** The text a record's hash is computed from: all but the stored hash. *)
Definition hash_text (record : val) : exc (option string) :=
  fields ← own_props record; canonicalJson (VObj (obj_omit "hash" fields)).

Definition hashAuditRecord (record : val) : exc string :=
  text ← hash_text record; sha256HexOpt text.

Definition hashEvidenceEdgeRecord (record : val) : exc string :=
  text ← hash_text record; sha256HexOpt text.

Definition hashRecord (kind : chainKind) : val → exc string :=
  match kind with Audit => hashAuditRecord | Edge => hashEvidenceEdgeRecord end.

(** The state of one tenant's chain: [{ previousHash, sequence }]. The sequence
    of an accepted record is the integer the verifier expected. *)
Record link_state := LinkState { previousHash : val; sequence : Z }.

Definition genesis : link_state := LinkState VNull 0.

(** The checks before the tenant's state is read; the tenant is the key. *)
Definition check_envelope (kind : chainKind) (record : val) : exc (reason + val) :=
  evidence ← vget record (evidence_key kind);
  scope ← vget evidence "scope";
  let tenantId := vget_opt scope "tenantId" in
  if negb (truthy tenantId) then Ret (inl missing_tenant_scope) else
  hashAlgorithm ← vget record "hashAlgorithm";
  if negb (strict_eq hashAlgorithm (VStr HASH_ALGORITHM)) then
    Ret (inl unsupported_hash_algorithm) else
  canonicalization ← vget record "canonicalization";
  if negb (strict_eq canonicalization (VStr CANONICALIZATION)) then
    Ret (inl unsupported_canonicalization) else
  Ret (inr tenantId).

(** The checks of a record against its tenant's state. *)
Definition check_link (kind : chainKind) (stored : option link_state) (record : val)
    : exc (reason + link_state) :=
  let state := default genesis stored in
  seq ← vget record "sequence";
  if negb (strict_eq seq (VInt (sequence state + 1))) then Ret (inl sequence_mismatch) else
  prev ← vget record "previousHash";
  if negb (strict_eq prev (previousHash state)) then Ret (inl previous_hash_mismatch) else
  expectedHash ← hashRecord kind record;
  hash ← vget record "hash";
  if negb (strict_eq hash (VStr expectedHash)) then Ret (inl hash_mismatch) else
  Ret (inr (LinkState hash (sequence state + 1))).

Definition verifyRecords (kind : chainKind) (records : list val)
    : exc (VerificationResult reason) :=
  walk (check_envelope kind) (check_link kind) [] 0 records.

Definition verifyAuditRecords := verifyRecords Audit.
Definition verifyEvidenceEdgeRecords := verifyRecords Edge.

(** The records of one tenant. *)
Definition tenant_records (kind : chainKind) : string → list val → list val :=
  of_key (check_envelope kind).

(** ** Specification of one tenant's chain *)

(** [r] may follow a chain of length [n] with tip [tip]; [h] is its hash. *)
Record link (tip : val) (n : Z) (r : val) (h : string) : Prop := {
  link_sequence : vget r "sequence" = Ret (VInt (n + 1));
  link_previous : vget r "previousHash" = Ret tip;
  link_hash : vget r "hash" = Ret (VStr h);
  link_digest : ∃ text, hash_text r = Ret (Some text) ∧ h = sha256Hex text;
}.

Inductive chain : list val → val → Z → Prop :=
| chain_nil : chain [] VNull 0
| chain_snoc rs tip n r h : chain rs tip n → link tip n r h → chain (rs ++ [r]) (VStr h) (n + 1).

(** ** Lemmas *)

Lemma hashRecord_text kind r h :
  hashRecord kind r = Ret h ↔ ∃ text, hash_text r = Ret (Some text) ∧ h = sha256Hex text.
Proof.
  assert (hashRecord kind r = (text ← hash_text r; sha256HexOpt text)) as -> by by destruct kind.
  rewrite bind_ret. split.
  - intros ([text|] & Ht & Hh); [|done]. injection Hh as <-. eauto.
  - intros (text & Ht & ->). exists (Some text). done.
Qed.

Definition tip_ok (v : val) : Prop := v = VNull ∨ ∃ s, v = VStr s.

Lemma strict_eq_tip v tip : tip_ok tip → strict_eq v tip = true ↔ v = tip.
Proof. intros [->|[s ->]]; [apply strict_eq_null|apply strict_eq_str]. Qed.

Lemma check_link_ok kind st r st' :
  tip_ok (previousHash (default genesis st)) →
  check_link kind st r = Ret (inr st') ↔
  ∃ h, link (previousHash (default genesis st)) (sequence (default genesis st)) r h ∧
       st' = LinkState (VStr h) (sequence (default genesis st) + 1).
Proof.
  set (s := default genesis st). intros Htip. unfold check_link. fold s. split.
  - intros E. apply bind_ret in E as (seq & Hseq & E).
    destruct (strict_eq seq _) eqn:E0; [cbn in E|done].
    apply bind_ret in E as (prev & Hprev & E). destruct (strict_eq prev _) eqn:E1; [cbn in E|done].
    apply bind_ret in E as (h & Hh & E). apply bind_ret in E as (stored & Hst & E).
    destruct (strict_eq stored _) eqn:E2; [cbn in E|done]. injection E as <-.
    apply strict_eq_int in E0 as ->. apply strict_eq_tip in E1 as ->; [|done].
    apply strict_eq_str in E2 as ->. exists h. split; [|done].
    constructor; try done. by apply (hashRecord_text kind).
  - intros (h & [H1 H2 H3 H4] & ->). rewrite H1; cbn.
    rewrite strict_eq_int_refl; cbn. rewrite H2; cbn.
    rewrite (proj2 (strict_eq_tip _ _ Htip) eq_refl); cbn.
    rewrite (proj2 (hashRecord_text kind r h) H4); cbn. rewrite H3; cbn.
    by rewrite strict_eq_str_refl.
Qed.

Lemma chain_tip rs tip n : chain rs tip n → tip_ok tip.
Proof. destruct 1; [by left|right; eauto]. Qed.

Lemma chain_length rs tip n : chain rs tip n → n = Z.of_nat (length rs).
Proof. induction 1 as [|? ? ? ? ? ? IH]; [done|]. rewrite length_app; cbn. lia. Qed.

Lemma steps_chain kind rs tip n :
  chain rs tip n ↔
  ∃ st, steps (check_link kind) None rs = Some st ∧ default genesis st = LinkState tip n.
Proof.
  split.
  - induction 1 as [|rs tip n r h Hc (st & IH & Hst) Hl]; [by exists None|].
    exists (Some (LinkState (VStr h) (n + 1))). split; [|done]. rewrite steps_app, IH. cbn.
    rewrite (proj2 (check_link_ok kind st r (LinkState (VStr h) (n + 1)) ltac:(
      rewrite Hst; by eapply chain_tip))); [done|]. rewrite Hst. cbn. eauto.
  - revert tip n. induction rs as [|r rs IH] using rev_ind; intros tip n (st & Hs & Hst).
    { injection Hs as <-. injection Hst as <- <-. constructor. }
    rewrite steps_app in Hs. destruct (steps _ None rs) as [st0|]; [cbn in Hs|done].
    destruct (check_link kind st0 r) as [[|s]|] eqn:E; [done| |done]. injection Hs as <-.
    cbn in Hst. subst s.
    destruct (default genesis st0) as [tip0 n0] eqn:E0.
    assert (chain rs tip0 n0) as Hc by (apply IH; by exists st0).
    apply check_link_ok in E as (h & Hl & [= -> ->]); rewrite ?E0 in *; cbn in *.
    + by econstructor.
    + by eapply chain_tip.
Qed.

Lemma chain_steps_some kind rs :
  is_Some (steps (check_link kind) None rs) ↔ ∃ tip n, chain rs tip n.
Proof.
  split.
  - intros [st Hst]. destruct (default genesis st) as [tip n] eqn:E.
    exists tip, n. apply (steps_chain kind). eauto.
  - intros (tip & n & Hc). apply (steps_chain kind) in Hc as (st & Hst & _). eauto.
Qed.

Lemma chain_app_inv rs rs' tip n : chain (rs ++ rs') tip n → ∃ tip' n', chain rs tip' n'.
Proof.
  intros Hc. apply (chain_steps_some Audit).
  assert (is_Some (steps (check_link Audit) None (rs ++ rs'))) as [st Hs]
    by (apply chain_steps_some; eauto).
  rewrite steps_app in Hs. destruct (steps _ None rs); [eauto|done].
Qed.

Lemma chain_unique rs tip n tip' n' : chain rs tip n → chain rs tip' n' → tip = tip' ∧ n = n'.
Proof.
  intros (st & E & Hst)%(steps_chain Audit) (st' & E' & Hst')%(steps_chain Audit).
  rewrite E in E'. injection E' as <-. rewrite Hst in Hst'. by injection Hst'.
Qed.

Lemma chain_snoc_inv rs r tip n tip' n' :
  chain rs tip n → chain (rs ++ [r]) tip' n' → ∃ h, link tip n r h ∧ tip' = VStr h ∧ n' = (n + 1)%Z.
Proof.
  intros C C'. inversion C' as [E|rs0 tip0 n0 r0 h C0 L E]; subst.
  - by destruct rs.
  - apply app_inj_tail in E as [-> ->]. destruct (chain_unique _ _ _ _ _ C C0) as [-> ->]. eauto.
Qed.

Lemma chain_sequences rs tip n i r :
  chain rs tip n → rs !! i = Some r → vget r "sequence" = Ret (VInt (Z.of_nat i + 1)).
Proof.
  intros Hc. revert i r. induction Hc as [|rs tip n r' h Hc IH Hl]; intros i r Hi; [done|].
  apply lookup_app_Some in Hi as [Hi|[Hle Hi]]; [by apply IH|].
  destruct (i - length rs)%nat as [|k] eqn:E; [|done]. injection Hi as <-.
  rewrite (link_sequence _ _ _ _ Hl), (chain_length _ _ _ Hc).
  by replace i with (length rs) by lia.
Qed.

Lemma chain_lookup_inj rs tip n r r' i j :
  chain rs tip n → rs !! i = Some r → rs !! j = Some r' →
  vget r "sequence" = vget r' "sequence" → i = j.
Proof.
  intros Hc Hi Hj E. rewrite (chain_sequences _ _ _ _ _ Hc Hi), (chain_sequences _ _ _ _ _ Hc Hj) in E.
  apply Ret_inj, VInt_inj in E. lia.
Qed.
(** A record whose envelope is well formed, of tenant [t]. *)
Record envelope (kind : chainKind) (r : val) (t : string) : Prop := {
  envelope_tenant : ∃ evidence scope, vget r (evidence_key kind) = Ret evidence ∧
    vget evidence "scope" = Ret scope ∧ vget_opt scope "tenantId" = VStr t ∧ t ≠ "";
  envelope_algorithm : vget r "hashAlgorithm" = Ret (VStr HASH_ALGORITHM);
  envelope_canonicalization : vget r "canonicalization" = Ret (VStr CANONICALIZATION);
}.

(** The tenant of an accepted envelope is a string, as the types of the source
    declare. *)
Definition tenant_typed (kind : chainKind) (r : val) : Prop :=
  ∀ tenant, check_envelope kind r = Ret (inr tenant) → is_string tenant = true.

Lemma check_envelope_ok kind r t :
  check_envelope kind r = Ret (inr (VStr t)) ↔ envelope kind r t.
Proof.
  unfold check_envelope. split.
  - intros E. apply bind_ret in E as (ev & Hev & E). apply bind_ret in E as (sc & Hsc & E).
    destruct (truthy _) eqn:Ht; [cbn in E|done].
    apply bind_ret in E as (alg & Halg & E). destruct (strict_eq alg _) eqn:E0; [cbn in E|done].
    apply bind_ret in E as (can & Hcan & E). destruct (strict_eq can _) eqn:E1; [cbn in E|done].
    injection E as E. apply strict_eq_str in E0 as ->. apply strict_eq_str in E1 as ->.
    constructor; [|done|done]. exists ev, sc. split_and!; try done. rewrite E in Ht.
    intros ->. done.
  - intros [(ev & sc & Hev & Hsc & Ht & Hne) Halg Hcan]. rewrite Hev; cbn. rewrite Hsc; cbn.
    rewrite Ht; cbn. rewrite (proj2 (String.eqb_neq _ _) Hne); cbn.
    rewrite Halg; cbn. rewrite strict_eq_str_refl; cbn. rewrite Hcan; cbn.
    by rewrite strict_eq_str_refl.
Qed.

Lemma tenant_typed_keyed kind r tenant :
  tenant_typed kind r → check_envelope kind r = Ret (inr tenant) →
  ∃ t, tenant = VStr t.
Proof. intros Ht Hk. specialize (Ht _ Hk). destruct tenant; try done. eauto. Qed.

Lemma elem_of_tenant_records kind t r rs :
  r ∈ tenant_records kind t rs ↔ envelope kind r t ∧ r ∈ rs.
Proof. unfold tenant_records. by rewrite elem_of_of_key, check_envelope_ok. Qed.

Lemma envelope_typed kind r t : envelope kind r t → tenant_typed kind r.
Proof. intros He tenant Hk. apply check_envelope_ok in He. rewrite He in Hk. by injection Hk as <-. Qed.

Lemma of_key_tenant kind t t' rs :
  Forall (λ r, envelope kind r t) rs → tenant_records kind t' rs = if decide (t = t') then rs else [].
Proof.
  induction 1 as [|r rs He Hrs IH]; [by case_decide|]. unfold tenant_records in *. rewrite of_key_cons, IH.
  unfold has_key. rewrite (proj2 (check_envelope_ok kind r t) He).
  destruct (String.eqb_spec t' t), (decide (t = t')); congruence.
Qed.

Lemma verify_ok kind rs :
  Forall (tenant_typed kind) rs →
  verifyRecords kind rs = Ret VerifyOk ↔
  Forall (λ r, ∃ t, envelope kind r t) rs ∧
  ∀ t, ∃ tip n, chain (tenant_records kind t rs) tip n.
Proof.
  intros Htyped. unfold verifyRecords, tenant_records.
  assert (Forall (string_keyed (check_envelope kind)) rs ↔
          Forall (λ r, ∃ t, envelope kind r t) rs) as Hkeys.
  { apply Forall_proper; [|done]. intros r. unfold string_keyed.
    by setoid_rewrite check_envelope_ok. }
  split.
  - intros Hw. assert (Forall (string_keyed (check_envelope kind)) rs) as Hk.
    { pose proof (walk_ok_keys _ _ _ _ _ Hw) as Hk. rewrite Forall_forall in *.
      intros r Hr. destruct (Hk r Hr) as [k Hkr].
      destruct (tenant_typed_keyed kind r k) as [t ->]; [by apply Htyped|done|by exists t]. }
    split; [by apply Hkeys|]. intros t. apply (chain_steps_some kind).
    by apply (proj1 (walk_ok _ _ _ _ _ Hk) Hw).
  - intros [Hk Hc]. apply walk_ok; [by apply Hkeys|]. intros t. apply (chain_steps_some kind), Hc.
Qed.

(** ** Faults *)

(** Why an envelope is rejected: the first check that fails. *)
Inductive envelope_fault (kind : chainKind) (r : val) : reason → Prop :=
| no_tenant evidence scope :
    vget r (evidence_key kind) = Ret evidence → vget evidence "scope" = Ret scope →
    truthy (vget_opt scope "tenantId") = false →
    envelope_fault kind r missing_tenant_scope
| bad_algorithm alg :
    vget r "hashAlgorithm" = Ret alg → alg ≠ VStr HASH_ALGORITHM →
    envelope_fault kind r unsupported_hash_algorithm
| bad_canonicalization can :
    vget r "hashAlgorithm" = Ret (VStr HASH_ALGORITHM) →
    vget r "canonicalization" = Ret can → can ≠ VStr CANONICALIZATION →
    envelope_fault kind r unsupported_canonicalization.

(** Why a record may not follow a chain of length [n] with tip [tip]. *)
Inductive link_fault (tip : val) (n : Z) (r : val) : reason → Prop :=
| bad_sequence seq :
    vget r "sequence" = Ret seq → seq ≠ VInt (n + 1) → link_fault tip n r sequence_mismatch
| bad_previous prev :
    vget r "sequence" = Ret (VInt (n + 1)) →
    vget r "previousHash" = Ret prev → prev ≠ tip → link_fault tip n r previous_hash_mismatch
| bad_hash text stored :
    vget r "sequence" = Ret (VInt (n + 1)) → vget r "previousHash" = Ret tip →
    hash_text r = Ret (Some text) → vget r "hash" = Ret stored → stored ≠ VStr (sha256Hex text) →
    link_fault tip n r hash_mismatch.

(** The records of one tenant verify exactly when they form a chain. *)
Lemma one_tenant_verifies kind t rs :
  Forall (λ r, envelope kind r t) rs → verifyRecords kind rs = Ret VerifyOk ↔ ∃ tip n, chain rs tip n.
Proof.
  intros He. rewrite verify_ok by (eapply Forall_impl; [exact He|]; intros r Hr; exact (envelope_typed _ _ _ Hr)).
  split.
  - intros [_ Hc]. destruct (Hc t) as (tip & n & C). rewrite (of_key_tenant kind t) in C by done.
    rewrite decide_True in C by done. eauto.
  - intros (tip & n & C). split; [eapply Forall_impl; [exact He|]; intros r Hr; by exists t|]. intros t'.
    rewrite (of_key_tenant kind t) by done. case_decide; [eauto|]. exists VNull, 0%Z. constructor.
Qed.

Lemma check_envelope_fault kind r why :
  check_envelope kind r = Ret (inl why) → envelope_fault kind r why.
Proof.
  unfold check_envelope. intros E.
  apply bind_ret in E as (ev & Hev & E). apply bind_ret in E as (sc & Hsc & E).
  destruct (truthy _) eqn:Ht; cbn in E; [|injection E as <-; by econstructor].
  apply bind_ret in E as (alg & Halg & E). destruct (strict_eq alg _) eqn:E0; cbn in E.
  - apply bind_ret in E as (can & Hcan & E). destruct (strict_eq can _) eqn:E1; [done|].
    injection E as <-. apply strict_eq_str in E0 as ->. econstructor; [done|done|].
    intros ->. by rewrite strict_eq_str_refl in E1.
  - injection E as <-. econstructor; [done|]. intros ->. by rewrite strict_eq_str_refl in E0.
Qed.

Lemma check_link_fault kind st r why :
  tip_ok (previousHash (default genesis st)) →
  check_link kind st r = Ret (inl why) →
  link_fault (previousHash (default genesis st)) (sequence (default genesis st)) r why.
Proof.
  unfold check_link. intros Htip E. apply bind_ret in E as (seq & Hseq & E).
  destruct (strict_eq seq _) eqn:E0; cbn in E.
  2:{ injection E as <-. econstructor; [done|]. intros ->. by rewrite strict_eq_int_refl in E0. }
  apply strict_eq_int in E0 as ->. apply bind_ret in E as (prev & Hprev & E).
  destruct (strict_eq prev _) eqn:E1; cbn in E.
  2:{ injection E as <-. econstructor; [done|done|].
      intros ->. by rewrite (proj2 (strict_eq_tip _ _ Htip) eq_refl) in E1. }
  apply strict_eq_tip in E1 as ->; [|done].
  apply bind_ret in E as (h & Hh & E). apply bind_ret in E as (stored & Hst & E).
  destruct (strict_eq stored _) eqn:E2; [done|]. injection E as <-.
  apply hashRecord_text in Hh as (text & Htext & ->). econstructor; try done.
  intros ->. by rewrite strict_eq_str_refl in E2.
Qed.
(** ** What a tip hash commits to *)

(** A record without its stored hash. *)
Definition payload (r : val) : val :=
  match r with VObj fs => VObj (obj_omit "hash" fs) | _ => VUndef end.

(** The texts the records' hashes are computed from. *)
Definition hash_texts (rs : list val) : list string :=
  omap (λ r, match hash_text r with Ret (Some s) => Some s | _ => None end) rs.

(** JSON data without properties named ["__proto__"]. *)
Definition plain_json (r : val) : Prop := is_json r = true ∧ no_proto r = true.

Lemma link_fields tip n r h :
  tip_ok tip → link tip n r h →
  ∃ fs, r = VObj fs ∧ obj_get "sequence" fs = Some (VInt (n + 1)) ∧
        obj_get "previousHash" fs = Some tip.
Proof.
  intros Htip [Hs Hp _ _]. destruct r as [| | | | | |fs| |]; try done. exists fs.
  split; [done|]. cbn in Hs, Hp. split.
  - destruct (obj_get "sequence" fs); [by injection Hs as ->|done].
  - destruct (obj_get "previousHash" fs); [by injection Hp as ->|].
    injection Hp as <-. destruct Htip as [?|[? ?]]; done.
Qed.

Lemma plain_json_payload fs :
  plain_json (VObj fs) → plain_json (payload (VObj fs)).
Proof. intros [Hj Hp]. split; [by apply is_json_omit|by apply no_proto_omit]. Qed.

Lemma payload_get fs k v w :
  is_json (VObj fs) = true → normalizeForJson (payload (VObj fs)) = Ret w →
  k ≠ "__proto__" → k ≠ "hash" → obj_get k fs = Some v → normalizeForJson v = Ret v → v ≠ VUndef →
  ∃ gs, w = VObj gs ∧ obj_get k gs = Some v.
Proof.
  intros Hj Hw Hk Hk' Hg Hv Hu.
  assert (∃ gs, w = VObj gs) as [gs ->].
  { cbn in Hw. apply bind_ret in Hw as (gs & _ & [= <-]). eauto. }
  exists gs. split; [done|]. eapply normalize_get; try done; [|by rewrite obj_get_omit].
  apply is_json_omit with (k := "hash") in Hj. apply is_json_obj in Hj as [Hj _].
  by apply keys_ordered_NoDup.
Qed.

Lemma normalize_VInt z : normalizeForJson (VInt z) = Ret (VInt z).
Proof. unfold VInt. cbn. by rewrite num_of_Z_finite. Qed.

Lemma normalize_tip v : tip_ok v → normalizeForJson v = Ret v.
Proof. by intros [->|[s ->]]. Qed.

(** Records with one payload text have the same predecessor and position. *)
Lemma same_text_link tip n r h tip' n' r' h' s :
  plain_json r → plain_json r' → tip_ok tip → tip_ok tip' →
  link tip n r h → link tip' n' r' h' →
  hash_text r = Ret (Some s) → hash_text r' = Ret (Some s) →
  tip = tip' ∧ n = n' ∧ same_data (payload r) (payload r').
Proof.
  intros Hr Hr' Ht Ht' L L' Hs Hs'.
  destruct (link_fields _ _ _ _ Ht L) as (fs & -> & Hseq & Hprev).
  destruct (link_fields _ _ _ _ Ht' L') as (fs' & -> & Hseq' & Hprev').
  destruct (plain_json_payload _ Hr) as [Jp Pp], (plain_json_payload _ Hr') as [Jp' Pp'].
  change (canonicalJson (payload (VObj fs)) = Ret (Some s)) in Hs.
  change (canonicalJson (payload (VObj fs')) = Ret (Some s)) in Hs'.
  pose proof (canonicalJson_inj _ _ s (is_json_nums _ Jp) (is_json_nums _ Jp') Hs Hs') as E.
  destruct (normalize_json_total _ Jp) as (w & Hw & _). rewrite Hw in E. symmetry in E.
  assert (∀ k v v', k ≠ "__proto__" → k ≠ "hash" → obj_get k fs = Some v → obj_get k fs' = Some v' →
            normalizeForJson v = Ret v → normalizeForJson v' = Ret v' → v ≠ VUndef → v' ≠ VUndef →
            v = v') as Hfield.
  { intros k v v' Hk Hk' G G' N N' U U'.
    destruct (payload_get _ k v w (proj1 Hr) Hw) as (gs & -> & Hg); try done.
    destruct (payload_get _ k v' _ (proj1 Hr') E) as (gs' & [= <-] & Hg'); try done. congruence. }
  split_and!.
  - apply (Hfield "previousHash"); auto using normalize_tip.
    + by destruct Ht as [->|[? ->]].
    + by destruct Ht' as [->|[? ->]].
  - assert (VInt (n + 1) = VInt (n' + 1)) as Hn%VInt_inj; [|lia].
    apply (Hfield "sequence"); auto using normalize_VInt.
  - apply canonical_eq_same; try done. congruence.
Qed.

Lemma elem_of_hash_texts r rs s : r ∈ rs → hash_text r = Ret (Some s) → s ∈ hash_texts rs.
Proof. intros Hr Hs. apply list_elem_of_omap. exists r. by rewrite Hs. Qed.

Lemma Collision_mono (l1 l1' l2 l2' : list string) :
  l1 ⊆ l1' → l2 ⊆ l2' → Collision l1 l2 → Collision l1' l2'.
Proof. intros H1 H2 (a & b & Ha & Hb & ? & ?). exists a, b. auto. Qed.

Lemma hash_texts_app rs rs' : hash_texts (rs ++ rs') = hash_texts rs ++ hash_texts rs'.
Proof. apply omap_app. Qed.

Lemma hash_texts_subseteq rs rs' : rs ⊆ rs' → hash_texts rs ⊆ hash_texts rs'.
Proof.
  intros Hsub s (r & Hr & Hs)%list_elem_of_omap. apply list_elem_of_omap. exists r. auto.
Qed.

(** Two chains with one tip hold the same data at every position. *)
Lemma chain_tip_commits rs tip n rs' n' :
  Forall plain_json rs → Forall plain_json rs' →
  chain rs tip n → chain rs' tip n' →
  Forall2 (λ a b, same_data (payload a) (payload b) ∧ vget a "hash" = vget b "hash") rs rs'
  ∨ Collision (hash_texts rs) (hash_texts rs').
Proof.
  intros P P' C. revert rs' n' P'.
  induction C as [|rs tip n r h C IH L]; intros rs' n' P' C'.
  { inversion C'; subst. left. constructor. }
  inversion C' as [|rs2 tip2 n2 r2 h2 C2 L2]; subst.
  apply Forall_app in P as [P Hr]. apply Forall_app in P' as [P' Hr2].
  inversion Hr as [|? ? Hr1 _]; inversion Hr2 as [|? ? Hr2' _]; subst.
  destruct (link_digest _ _ _ _ L) as (s & Hs & Hd).
  destruct (link_digest _ _ _ _ L2) as (s2 & Hs2 & Hd2).
  destruct (decide (s = s2)) as [<-|Hne].
  - destruct (same_text_link tip n r h tip2 n2 r2 h s) as (<- & <- & Hsame);
      eauto using chain_tip.
    destruct (IH P rs2 n P' C2) as [HF|HC].
    + left. apply Forall2_app; [done|]. constructor; [|constructor].
      split; [done|]. by rewrite (link_hash _ _ _ _ L), (link_hash _ _ _ _ L2).
    + right. rewrite !hash_texts_app. eapply Collision_mono; [| |exact HC]; set_solver.
  - right. exists s, s2. split_and!; [| |done|congruence].
    + eapply elem_of_hash_texts; [|done]. set_solver.
    + eapply elem_of_hash_texts; [|done]. set_solver.
Qed.

(** A chain made of records of another chain is an initial part of it. *)
Lemma chain_selection rs tip n rs' tip' n' :
  chain rs tip n → chain rs' tip' n' → rs' ⊆ rs → rs' `prefix_of` rs.
Proof.
  intros C C' Hsub. exists (drop (length rs') rs).
  assert (∀ i r, rs' !! i = Some r → rs !! i = Some r) as Hlook.
  { intros i r Hi. pose proof (Hsub r (list_elem_of_lookup_2 _ _ _ Hi)) as Hin.
    apply list_elem_of_lookup_1 in Hin as [j Hj].
    pose proof (chain_sequences _ _ _ _ _ C' Hi) as E. rewrite (chain_sequences _ _ _ _ _ C Hj) in E.
    apply Ret_inj, VInt_inj in E. replace i with j by lia. done. }
  rewrite <- (take_drop (length rs') rs) at 1. f_equal.
  apply list_eq. intros i. destruct (decide (i < length rs')%nat) as [Hlt|Hge].
  - rewrite lookup_take_lt by done. apply lookup_lt_is_Some in Hlt as [r Hr].
    rewrite Hr. by apply Hlook.
  - rewrite lookup_take_ge by lia. symmetry. apply lookup_ge_None. lia.
Qed.
End Chain.

(** ** Concrete records (used to instantiate the theorems) *)

(** A record with the hash the protocol gives it. *)
Definition sealed `{Hasher} (kind : chainKind) (fs : list (string * val)) : val :=
  VObj (fs ++ [("hash", VStr (default "" (exc_to_option (hashRecord kind (VObj fs)))))]).

Definition demo_fields (kind : chainKind) (tenant id : string) (n : Z) (prev : val) :=
  [(evidence_key kind, VObj [("id", VStr id); ("scope", VObj [("tenantId", VStr tenant)])]);
   ("sequence", VInt n); ("previousHash", prev);
   ("hashAlgorithm", VStr HASH_ALGORITHM); ("canonicalization", VStr CANONICALIZATION)].

Definition demo_record `{Hasher} (tenant id : string) (n : Z) (prev : val) : val :=
  sealed Audit (demo_fields Audit tenant id n prev).

Definition record_hash (r : val) : val := vget_opt r "hash".

Definition demo_a1 : val := demo_record "a" "evt_1" 1 VNull.
Definition demo_a2 : val := demo_record "a" "evt_2" 2 (record_hash demo_a1).
Definition demo_b1 : val := demo_record "b" "evt_3" 1 VNull.

(** The same record with its properties in another order. *)
Definition demo_a1_reordered : val :=
  VObj (reverse (match demo_a1 with VObj fs => fs | _ => [] end)).

(** The record of src/spec/conformance/audit-record-hashing.json. *)
Definition fixture_event : val := default VUndef (json_parse (quoted
  "{'id':'evt_fixture_create_01','schemaVersion':'2026-06-10','occurredAt':'2026-06-10T00:00:00.000Z','actor':{'type':'user','id':'usr_fixture_123'},'action':'org.member.invited','target':{'type':'organization','id':'org_fixture_123'},'scope':{'tenantId':'org_fixture_123','workspaceId':'wks_fixture_456','environment':'test'},'requestId':'req_fixture_789','purpose':'access_management','lawfulBasis':'contract','dataCategories':['access','account'],'retention':'security_1y','metadata':{'invitedEmail':'[redacted]','nested':{'apiToken':'[redacted]','note':'stable-id-only'},'role':'viewer'}}")).

Definition fixture_record : val := VObj
  [("event", fixture_event); ("sequence", VInt 1); ("previousHash", VNull);
   ("hashAlgorithm", VStr "sha256"); ("canonicalization", VStr "veritio-json-v1");
   ("appendedAt", VStr "2026-06-10T00:00:01.000Z");
   ("idempotencyKeyHash", VStr "e2f857781cf313401025789ca53293022218a149c7bfd66b1d2b52b72935b9ce")].

Example fixture_record_hash :
  hashAuditRecord fixture_record = Ret "9c77fa09d13f779159f76a370feb58931e517f28fd792c99c0f3e1dda4d26f98".
Proof. vm_compute. reflexivity. Qed.

Example demo_verifies : verifyAuditRecords [demo_a1; demo_b1; demo_a2] = Ret VerifyOk.
Proof. vm_compute. reflexivity. Qed.

(** ** Properties *)

(** C1. The verifier accepts exactly the lists in which every record has a well
    formed envelope and the records of every tenant, taken in order, form a chain:
    sequences 1, 2, ..., each record holding its predecessor's hash (null for the
    first) and the digest of its own content. Tenants are independent. *)
Theorem verifyRecords_spec `{Hasher} kind rs :
  Forall (tenant_typed kind) rs →
  verifyRecords kind rs = Ret VerifyOk ↔
  Forall (λ r, ∃ t, envelope kind r t) rs ∧
  ∀ t, ∃ tip n, chain (tenant_records kind t rs) tip n.
Proof. apply verify_ok. Qed.

Lemma verifyRecords_spec_witness :
  Forall (λ r, ∃ t, envelope Audit r t) [demo_a1; demo_b1; demo_a2] ∧
  ∀ t, ∃ tip n, chain (tenant_records Audit t [demo_a1; demo_b1; demo_a2]) tip n.
Proof.
  apply (verifyRecords_spec Audit); [|vm_compute; reflexivity].
  repeat apply Forall_cons_2; try apply Forall_nil_2; intros v Hv; vm_compute in Hv; by injection Hv as <-.
Defined.

(** When the verifier reports a failure, the records before the reported index
    verify, and the record at the index has the reported fault: its envelope is
    rejected, or it does not extend the chain of the earlier records of its
    tenant, for the reason given. *)
Theorem verifyRecords_first_fault `{Hasher} kind rs i why :
  Forall (tenant_typed kind) rs →
  verifyRecords kind rs = Ret (VerifyFail i why) →
  ∃ pre r post, rs = pre ++ r :: post ∧ length pre = i ∧
    verifyRecords kind pre = Ret VerifyOk ∧
    (envelope_fault kind r why ∨
     ∃ t tip n, envelope kind r t ∧ chain (tenant_records kind t pre) tip n ∧
                link_fault tip n r why).
Proof.
  intros Ht Hv.
  assert (Forall (string_keyed (check_envelope kind)) (take i rs)) as Hk.
  { revert Ht Hv. unfold verifyRecords. generalize (@nil (val * link_state)) as m.
    assert (∀ j m, Forall (tenant_typed kind) rs →
              walk (check_envelope kind) (check_link kind) m j rs = Ret (VerifyFail i why) →
              Forall (string_keyed (check_envelope kind)) (take (i - j) rs)) as Hgen.
    { induction rs as [|r rs IH]; intros j m Ht Hv; [by rewrite take_nil|].
      cbn in Hv. apply bind_ret in Hv as ([e|k] & Hkey & Hv).
      { injection Hv as -> ->. rewrite Nat.sub_diag. constructor. }
      apply bind_ret in Hv as ([e|st] & _ & Hv).
      { injection Hv as -> ->. rewrite Nat.sub_diag. constructor. }
      inversion Ht; subst. destruct (i - j)%nat as [|d] eqn:E; [constructor|]. cbn.
      constructor.
      - destruct (tenant_typed_keyed kind r k) as [t ->]; [done..|]. by exists t.
      - replace d with (i - (1 + j))%nat by lia. by eapply IH. }
    intros m Ht Hv. rewrite <- (Nat.sub_0_r i). by eapply Hgen. }
  apply walk_fail in Hv as (pre & r & post & -> & -> & Hpre & Hr); [|by rewrite Nat.sub_0_r].
  exists pre, r, post. split_and!; try done.
  apply Forall_app in Ht as [_ Ht]. inversion Ht as [|? ? Htr _]; subst.
  destruct Hr as [Hr|(k & Hr & Hs)]; [left; by apply check_envelope_fault|right].
  destruct (tenant_typed_keyed kind r k) as [t ->]; [done..|].
  destruct (Hs t eq_refl) as (st & Hst & Hl).
  destruct (default genesis st) as [tip n] eqn:E.
  assert (chain (tenant_records kind t pre) tip n) as Hc.
  { apply (steps_chain kind). exists st. done. }
  exists t, tip, n. split; [by apply check_envelope_ok|]. split; [done|].
  apply check_link_fault in Hl; rewrite E in *; [done|]. by eapply chain_tip.
Qed.

Lemma verifyRecords_first_fault_witness :
  ∃ pre r post, [demo_a1; demo_a1] = pre ++ r :: post ∧ length pre = 1%nat ∧
    verifyRecords Audit pre = Ret VerifyOk ∧
    (envelope_fault Audit r sequence_mismatch ∨
     ∃ t tip n, envelope Audit r t ∧ chain (tenant_records Audit t pre) tip n ∧
                link_fault tip n r sequence_mismatch).
Proof.
  apply verifyRecords_first_fault; [|vm_compute; reflexivity].
  repeat apply Forall_cons_2; try apply Forall_nil_2; intros v Hv; vm_compute in Hv; by injection Hv as <-.
Defined.

(** C25. A tip hash commits to the whole history, for lists of records that are JSON
    data without a property named __proto__ at any depth: if two such lists end a
    tenant's chain with the same hash, then the tenant's records agree position by
    position (same data, same hashes, same number), or two different texts the
    verifier hashed collide. Properties named __proto__ are left out because the
    canonical text drops them: records that differ only there have one hash. *)
Theorem tip_hash_commits `{Hasher} kind rs rs' t tip n n' :
  Forall plain_json rs → Forall plain_json rs' →
  chain (tenant_records kind t rs) tip n → chain (tenant_records kind t rs') tip n' →
  Forall2 (λ a b, same_data (payload a) (payload b) ∧ vget a "hash" = vget b "hash")
    (tenant_records kind t rs) (tenant_records kind t rs')
  ∨ Collision (hash_texts rs) (hash_texts rs').
Proof.
  intros P P' C C'.
  assert (∀ l, tenant_records kind t l ⊆ l) as Hsub
    by (intros l r [_ Hr]%elem_of_tenant_records; done).
  destruct (chain_tip_commits _ tip n _ n' (Forall_subset _ _ _ (Hsub rs) P)
    (Forall_subset _ _ _ (Hsub rs') P') C C') as [HF|HC]; [by left|right]. eapply Collision_mono; [..|exact HC]; by apply hash_texts_subseteq.
Qed.

Lemma tip_hash_commits_witness :
  Forall2 (λ a b, same_data (payload a) (payload b) ∧ vget a "hash" = vget b "hash")
    (tenant_records Audit "a" [demo_a1]) (tenant_records Audit "a" [demo_b1; demo_a1_reordered])
  ∨ Collision (hash_texts [demo_a1]) (hash_texts [demo_b1; demo_a1_reordered]).
Proof.
  apply (tip_hash_commits Audit) with (tip := record_hash demo_a1) (n := 1%Z) (n' := 1%Z).
  - apply Forall_cons_2; [split; vm_compute; reflexivity|apply Forall_nil_2].
  - repeat apply Forall_cons_2; try apply Forall_nil_2; split; vm_compute; reflexivity.
  - apply (steps_chain Audit). eexists. split; vm_compute; reflexivity.
  - apply (steps_chain Audit). eexists. split; vm_compute; reflexivity.
Defined.

(** Dropping or reordering records does not go unnoticed: if the records of a
    verified list are chosen from another verified list, then for every tenant
    they are an initial part of that tenant's records, in order. No assumption on
    the hash function is needed. *)
Theorem verified_selection_prefix `{Hasher} kind rs rs' t :
  Forall (tenant_typed kind) rs →
  verifyRecords kind rs = Ret VerifyOk → verifyRecords kind rs' = Ret VerifyOk →
  rs' ⊆ rs →
  tenant_records kind t rs' `prefix_of` tenant_records kind t rs.
Proof.
  intros Ht V V' Hsub.
  assert (Forall (tenant_typed kind) rs') as Ht' by (rewrite Forall_forall in *; auto).
  apply (verify_ok kind rs Ht) in V as [_ C]. apply (verify_ok kind rs' Ht') in V' as [_ C'].
  destruct (C t) as (tip & n & Ct), (C' t) as (tip' & n' & Ct').
  eapply chain_selection; [exact Ct|exact Ct'|].
  intros r [He Hr]%elem_of_tenant_records. apply elem_of_tenant_records. auto.
Qed.

Lemma verified_selection_prefix_witness :
  tenant_records Audit "a" [demo_b1; demo_a1] `prefix_of` tenant_records Audit "a" [demo_a1; demo_b1; demo_a2].
Proof.
  apply verified_selection_prefix; [|vm_compute; reflexivity|vm_compute; reflexivity|].
  2:{ intros r [->|[->|[]%elem_of_nil]%elem_of_cons]%elem_of_cons; [right; left|left]. }
  repeat apply Forall_cons_2; try apply Forall_nil_2; intros v Hv; vm_compute in Hv; by injection Hv as <-.
Defined.
