(* ===== verification/ChainModes.v ===== *)
(** * Chain verification under a declared scope

    sdks/typescript/src/export-bundle-chain-modes.ts and the chain verifiers of
    export-bundle-deps.ts. A bundle declares that it holds whole chains ([Full]),
    a contiguous window of them ([Windowed]) or a selection ([Filtered]); every
    verifier is total: what throws counts as invalid. *)

From S2P Require Import Prelude Regex JsNum JsVal Dates JsonText Hash Sha256 Canonical.
From S2P Require Import Keyed AuditChain.

Inductive ExportBundleChainScope := Full | Windowed | Filtered.
#[global] Instance chainScope_eq_dec : EqDecision ExportBundleChainScope.
Proof. solve_decision. Defined.

(** The issues of a failed verification. *)
Inductive chain_issue : Type :=
| VerifierResult (index : nat) (reason : string)   (* { ok: false, index, reason } *)
| VerifierThrew                                    (* { reason: "verifier_threw" } *)
| WalkIssue (reason : string).

Record ChainVerificationResult := {
  valid : bool;
  issues : option (list chain_issue);
}.

Definition reason_name (why : reason) : string :=
  match why with
  | missing_tenant_scope => "missing_tenant_scope"
  | unsupported_hash_algorithm => "unsupported_hash_algorithm"
  | unsupported_canonicalization => "unsupported_canonicalization"
  | sequence_mismatch => "sequence_mismatch"
  | previous_hash_mismatch => "previous_hash_mismatch"
  | hash_mismatch => "hash_mismatch"
  end.

Definition toChainResult {R} (name : R → string) (result : VerificationResult R)
    : ChainVerificationResult :=
  match result with
  | VerifyOk => {| valid := true; issues := None |}
  | VerifyFail index why => {| valid := false; issues := Some [VerifierResult index (name why)] |}
  end.

Definition runChainVerifier {R} (name : R → string) (run : exc (VerificationResult R))
    : ChainVerificationResult :=
  catch (toChainResult name <$> run) {| valid := false; issues := Some [VerifierThrew] |}.

Section Modes.
Context `{Hasher}.

Definition verifyAuditChain (records : list val) : ChainVerificationResult :=
  runChainVerifier reason_name (verifyAuditRecords records).

Definition verifyEdgeChain (records : list val) : ChainVerificationResult :=
  runChainVerifier reason_name (verifyEvidenceEdgeRecords records).

Record scoped_state := ScopedState { s_previousHash : string; s_sequence : Z }.

(** [auditEnvelope] and [edgeEnvelope]: where a record keeps its tenant. *)
Definition scoped_tenant (kind : chainKind) (record : val) : exc val :=
  evidence ← vget record (evidence_key kind);
  Ret (vget_opt (vget_opt evidence "scope") "tenantId").

Definition scoped_envelope (kind : chainKind) (record : val) : exc (reason + val) :=
  tenantId ← scoped_tenant kind record;
  if negb (truthy tenantId) then Ret (inl missing_tenant_scope) else
  hashAlgorithm ← vget record "hashAlgorithm";
  if negb (strict_eq hashAlgorithm (VStr HASH_ALGORITHM)) then
    Ret (inl unsupported_hash_algorithm) else
  canonicalization ← vget record "canonicalization";
  if negb (strict_eq canonicalization (VStr CANONICALIZATION)) then
    Ret (inl unsupported_canonicalization) else
  Ret (inr tenantId).

(** The linkage rules: the issue with a record of sequence [sequence], if any. *)
Definition scoped_linkage (scope : ExportBundleChainScope) (stored : option scoped_state)
    (sequence : Z) (previousHash : val) : option reason :=
  match stored with
  | None =>
      if (sequence =? 1)%Z && negb (is_null previousHash) then Some previous_hash_mismatch
      else if (1 <? sequence)%Z && negb (is_string previousHash) then Some previous_hash_mismatch
      else None
  | Some state =>
      if (sequence =? js_succ (s_sequence state))%Z then
        if strict_eq previousHash (VStr (s_previousHash state)) then None
        else Some previous_hash_mismatch
      else
        match scope with
        | Filtered =>
            if (sequence <=? s_sequence state)%Z then Some sequence_mismatch
            else if is_string previousHash then None else Some previous_hash_mismatch
        | _ => Some sequence_mismatch
        end
  end.

Definition check_scoped (kind : chainKind) (scope : ExportBundleChainScope)
    (stored : option scoped_state) (record : val) : exc (reason + scoped_state) :=
  seq ← vget record "sequence";
  prev ← vget record "previousHash";
  hash ← vget record "hash";
  match (match seq with VNum n => num_int n | _ => None end) with
  | None => Ret (inl sequence_mismatch)
  | Some z =>
      if (z <? 1)%Z then Ret (inl sequence_mismatch) else
      match hash with
      | VStr h =>
          expected ← hashRecord kind record;
          if negb (String.eqb expected h) then Ret (inl hash_mismatch) else
          match scoped_linkage scope stored z prev with
          | Some why => Ret (inl why)
          | None => Ret (inr (ScopedState h z))
          end
      | _ => Ret (inl hash_mismatch)
      end
  end.

Definition verifyScopedChain (kind : chainKind) (scope : ExportBundleChainScope)
    (records : list val) : exc (VerificationResult reason) :=
  walk (scoped_envelope kind) (check_scoped kind scope) [] 0 records.

Definition scoped_result (run : exc (VerificationResult reason)) : ChainVerificationResult :=
  match run with
  | Ret VerifyOk => {| valid := true; issues := None |}
  | Ret (VerifyFail _ why) => {| valid := false; issues := Some [WalkIssue (reason_name why)] |}
  | Throw _ => {| valid := false; issues := Some [WalkIssue "malformed_record"] |}
  end.

Definition verifyAuditChainScoped (records : list val) (scope : ExportBundleChainScope)
    : ChainVerificationResult :=
  match scope with
  | Full => verifyAuditChain records
  | _ => scoped_result (verifyScopedChain Audit scope records)
  end.

Definition verifyEdgeChainScoped (records : list val) (scope : ExportBundleChainScope)
    : ChainVerificationResult :=
  match scope with
  | Full => verifyEdgeChain records
  | _ => scoped_result (verifyScopedChain Edge scope records)
  end.

Definition verifyChainScoped (kind : chainKind) :=
  match kind with Audit => verifyAuditChainScoped | Edge => verifyEdgeChainScoped end.

(** ** Lemmas *)

Lemma chain_scoped_full kind rs :
  valid (verifyChainScoped kind rs Full) = true ↔ verifyRecords kind rs = Ret VerifyOk.
Proof.
  assert (verifyChainScoped kind rs Full = runChainVerifier reason_name (verifyRecords kind rs))
    as -> by by destruct kind.
  unfold runChainVerifier. destruct (verifyRecords kind rs) as [[]|]; cbn; split; congruence.
Qed.

Lemma chain_scoped_walk kind rs scope :
  scope ≠ Full →
  valid (verifyChainScoped kind rs scope) = true ↔ verifyScopedChain kind scope rs = Ret VerifyOk.
Proof.
  intros Hs.
  assert (verifyChainScoped kind rs scope = scoped_result (verifyScopedChain kind scope rs))
    as -> by by destruct kind, scope.
  destruct (verifyScopedChain kind scope rs) as [[]|]; cbn; split; congruence.
Qed.

Lemma scoped_envelope_ok kind r t : envelope kind r t → scoped_envelope kind r = Ret (inr (VStr t)).
Proof.
  intros [(ev & sc & Hev & Hsc & Ht & Hne) Halg Hcan]. unfold scoped_envelope, scoped_tenant.
  rewrite Hev; cbn.
  assert (vget_opt ev "scope" = sc) as -> by (destruct ev; cbn in *; congruence).
  rewrite Ht; cbn. rewrite (proj2 (String.eqb_neq _ _) Hne); cbn.
  rewrite Halg; cbn. rewrite strict_eq_str_refl; cbn. rewrite Hcan; cbn.
  by rewrite strict_eq_str_refl.
Qed.

(** ** Selections from a chain, by position *)

(** Position [j] may come right after position [i]. *)
Definition follows (scope : ExportBundleChainScope) (i j : nat) : bool :=
  match scope with Filtered => (i <? j)%nat | _ => (j =? S i)%nat end.

Fixpoint path (ok : nat → nat → bool) (i : nat) (js : list nat) : bool :=
  match js with [] => true | j :: js => ok i j && path ok j js end.

Definition path_from (ok : nat → nat → bool) (js : list nat) : bool :=
  match js with [] => true | j :: js => path ok j js end.

(** [js] are the positions of the records [l] in [rs]. *)
Definition picks (rs : list val) (js : list nat) (l : list val) : Prop :=
  Forall2 (λ j r, rs !! j = Some r) js l.

Section Picks.
Variables (kind : chainKind) (rs : list val) (tip : val) (n : Z).
Hypothesis Hc : chain rs tip n.
Hypothesis Hlen : (Z.of_nat (length rs) < 2 ^ 53)%Z.

Definition hash_at (i : nat) : string :=
  match rs !! i with
  | Some r => match vget_opt r "hash" with VStr h => h | _ => "" end
  | None => ""
  end.

Definition previous_at (i : nat) : val :=
  match i with O => VNull | S j => VStr (hash_at j) end.

Lemma chain_link_at i r :
  rs !! i = Some r → link (previous_at i) (Z.of_nat i) r (hash_at i).
Proof using Hc.
  clear Hlen. unfold previous_at, hash_at.
  induction Hc as [|rs' tip' m r' h C IH L]; intros Hi; [done|].
  pose proof (chain_length _ _ _ C) as Hm.
  destruct (decide (i < length rs')%nat) as [Hlt|Hge].
  - rewrite lookup_app_l in Hi |- * by done. specialize (IH C Hi).
    destruct i as [|i]; [done|]. rewrite lookup_app_l by lia. exact IH.
  - assert (i = length rs') as -> by (apply lookup_lt_Some in Hi; rewrite length_app in Hi; cbn in Hi; lia).
    rewrite lookup_app_r, Nat.sub_diag in Hi |- * by lia. injection Hi as <-. cbn.
    assert (vget_opt r' "hash" = VStr h) as ->
      by (pose proof (link_hash _ _ _ _ L) as Hh; destruct r'; cbn in *; congruence).
    rewrite <- Hm. replace (match length rs' with O => VNull | S j => _ end) with tip'; [done|].
    clear -C. inversion C as [|rs2 tip2 m2 r2 h2 C2 L2]; subst; [done|].
    rewrite length_app, Nat.add_1_r. rewrite lookup_app_l by (rewrite length_app; cbn; lia).
    rewrite lookup_app_r, Nat.sub_diag by lia. cbn.
    pose proof (link_hash _ _ _ _ L2) as Hh. destruct r2; cbn in *; try congruence.
    by injection Hh as ->.
Qed.

Definition state_at (i : nat) : scoped_state := ScopedState (hash_at i) (Z.of_nat i + 1).

Lemma check_scoped_at scope stored i r :
  rs !! i = Some r →
  check_scoped kind scope stored r =
  Ret match scoped_linkage scope stored (Z.of_nat i + 1) (previous_at i) with
      | Some why => inl why
      | None => inr (state_at i)
      end.
Proof using Hc.
  intros Hi. destruct (chain_link_at i r Hi) as [Hs Hp Hh Hd].
  unfold check_scoped. rewrite Hs; cbn. rewrite Hp; cbn. rewrite Hh; cbn.
  unfold VInt. rewrite num_int_of_Z. rewrite (proj2 (Z.ltb_ge _ _)) by lia.
  rewrite (proj2 (hashRecord_text kind r _) Hd); cbn. rewrite String.eqb_refl; cbn.
  by destruct (scoped_linkage _ _ _ _).
Qed.

Lemma linkage_first scope i :
  scoped_linkage scope None (Z.of_nat i + 1) (previous_at i) = None.
Proof.
  unfold scoped_linkage. destruct i as [|i]; [done|].
  rewrite (proj2 (Z.eqb_neq _ _)) by lia. by rewrite andb_false_r.
Qed.

Lemma linkage_next scope i j :
  (i < length rs)%nat → (j < length rs)%nat →
  scoped_linkage scope (Some (state_at i)) (Z.of_nat j + 1) (previous_at j) = None ↔
  follows scope i j = true.
Proof using Hlen.
  intros Hi Hj. unfold scoped_linkage, state_at; cbn. rewrite js_succ_exact by lia.
  destruct (Z.eqb_spec (Z.of_nat j + 1) (Z.of_nat i + 1 + 1)) as [E|Hne].
  - assert (j = S i) as -> by lia. cbn [previous_at]. rewrite strict_eq_str_refl.
    split; [intros _|done]. destruct scope; cbn; [apply Nat.eqb_eq..|apply Nat.leb_le]; lia.
  - destruct scope; cbn [follows].
    + split; [done|]. intros E%Nat.eqb_eq. lia.
    + split; [done|]. intros E%Nat.eqb_eq. lia.
    + destruct (Z.leb_spec (Z.of_nat j + 1) (Z.of_nat i + 1)).
      * split; [done|]. intros E%Nat.ltb_lt. lia.
      * destruct j as [|j]; [lia|]. cbn [previous_at is_string].
        split; [intros _; apply Nat.ltb_lt; lia|done].
Qed.

Lemma steps_next scope i js l :
  (i < length rs)%nat → picks rs js l →
  is_Some (steps (check_scoped kind scope) (Some (state_at i)) l) ↔
  path (follows scope) i js = true.
Proof using Hc Hlen.
  intros Hi Hp. revert i Hi. induction Hp as [|j r js l Hj _ IH]; intros i Hi; cbn.
  { split; [done|by eexists]. }
  pose proof (lookup_lt_Some _ _ _ Hj) as Hlt.
  rewrite (check_scoped_at _ _ _ _ Hj), andb_true_iff, <- (linkage_next _ _ _ Hi Hlt).
  destruct (scoped_linkage _ _ _ _); [|rewrite (IH j Hlt); by intuition].
  split; [intros [? ?]; done|intros [? _]; done].
Qed.

Lemma steps_first scope js l :
  picks rs js l →
  is_Some (steps (check_scoped kind scope) None l) ↔ path_from (follows scope) js = true.
Proof using Hc Hlen.
  intros [|j r js' l' Hj Hp]; cbn; [by split; [|eexists]|].
  rewrite (check_scoped_at _ _ _ _ Hj), linkage_first.
  apply steps_next; [by eapply lookup_lt_Some|done].
Qed.
End Picks.
(** Windows are positions in a row, selections are increasing positions. *)
Lemma picks_window rs i js l :
  picks rs js l → path (follows Windowed) i js = true → ∃ b, drop (S i) rs = l ++ b.
Proof.
  intros Hp. revert i. induction Hp as [|j r js l Hj _ IH]; intros i Hpath; [by eexists|].
  cbn in Hpath. bool_prop. apply Nat.eqb_eq in H0 as ->.
  destruct (IH (S i)) as [b Hb]; [done|]. exists b.
  by rewrite (drop_S _ _ _ Hj), Hb.
Qed.

Lemma window_picks a l b :
  picks (a ++ l ++ b) (seq (length a) (length l)) l ∧
  path_from (follows Windowed) (seq (length a) (length l)) = true.
Proof.
  split.
  - revert a. induction l as [|r l IH]; intros a; cbn; [constructor|]. constructor.
    + by rewrite lookup_app_r, Nat.sub_diag by lia.
    + specialize (IH (a ++ [r])). rewrite length_app in IH. cbn in IH. rewrite Nat.add_1_r in IH.
      by rewrite <- app_assoc in IH.
  - generalize (length a) as i. generalize (length l) as k.
    intros [|k] i; [done|]. cbn. revert i. induction k as [|k IH]; intros i; [done|].
    cbn. by rewrite Nat.eqb_refl, IH.
Qed.

Lemma picks_sublist rs i js l :
  picks rs js l → path (follows Filtered) i js = true → l `sublist_of` drop (S i) rs.
Proof.
  intros Hp. revert i. induction Hp as [|j r js l Hj _ IH]; intros i Hpath; [apply sublist_nil_l|].
  cbn [path follows] in Hpath. bool_prop. apply Nat.ltb_lt in H0.
  replace j with (S i + (j - S i))%nat in Hj by lia.
  rewrite <- lookup_drop in Hj. apply list_elem_of_split_length in Hj as (l1 & l2 & Hd & Hl).
  rewrite Hd. apply sublist_inserts_l, sublist_skip.
  assert (l2 = drop (S j) rs) as ->; [|by apply IH].
  replace (S j) with (S i + S (length l1))%nat by lia. rewrite <- drop_drop, Hd.
  change (r :: l2) with ([r] ++ l2). rewrite app_assoc.
  rewrite drop_app_length'; [done|]. rewrite length_app. cbn. lia.
Qed.

Lemma sublist_picks l rs :
  l `sublist_of` rs → ∃ js, picks rs js l ∧ path_from (follows Filtered) js = true.
Proof.
  assert (∀ rs js l r, picks rs js l → picks (r :: rs) (S <$> js) l) as Hshift.
  { induction 1; constructor; done. }
  assert (∀ i js, path (follows Filtered) (S i) (S <$> js) = path (follows Filtered) i js) as Hpath.
  { intros i js. revert i. induction js as [|j js IH]; intros i; [done|]. cbn. by rewrite <- (IH j). }
  induction 1 as [|r l rs _ (js & Hp & Hj)|r l rs _ (js & Hp & Hj)].
  - exists []. split; [constructor|done].
  - exists (0%nat :: (S <$> js)). split; [constructor; [done|by apply Hshift]|].
    destruct js as [|j js]; [done|]. cbn in *. by rewrite (Hpath j js).
  - exists (S <$> js). split; [by apply Hshift|].
    destruct js as [|j js]; [done|]. cbn in *. by rewrite (Hpath j js).
Qed.

Lemma subset_picks l rs : l ⊆ rs → ∃ js, picks rs js l.
Proof.
  induction l as [|r l IH]; intros Hsub; [by exists []; constructor|].
  destruct IH as [js Hjs]; [set_solver|].
  assert (r ∈ rs) as [j Hj]%list_elem_of_lookup_1 by set_solver.
  exists (j :: js). by constructor.
Qed.

(** What a scope lets a verifier accept, of a whole chain [rs]. *)
Definition scope_allows (scope : ExportBundleChainScope) (l rs : list val) : Prop :=
  match scope with
  | Full => l `prefix_of` rs
  | Windowed => ∃ a b, rs = a ++ l ++ b
  | Filtered => l `sublist_of` rs
  end.

Lemma steps_allowed kind scope rs tip n l :
  chain rs tip n → (Z.of_nat (length rs) < 2 ^ 53)%Z → scope ≠ Full → l ⊆ rs →
  is_Some (steps (check_scoped kind scope) None l) ↔ scope_allows scope l rs.
Proof.
  intros Hc Hlen Hs Hsub. destruct (subset_picks l rs Hsub) as [js Hjs].
  pose proof (λ js, steps_first kind rs tip n Hc Hlen scope js l) as Hst. split.
  - intros H'. apply (Hst js Hjs) in H'. destruct Hjs as [|j r js l Hj Hjs].
    { destruct scope; cbn; [done|by exists [], rs|apply sublist_nil_l]. }
    cbn in H'. destruct scope; [done|..]; cbn [scope_allows].
    + apply (picks_window rs j js l Hjs) in H' as [b Hb]. exists (take j rs), b.
      rewrite <- (take_drop j rs) at 1. by rewrite (drop_S _ _ _ Hj), Hb.
    + apply (picks_sublist rs j js l Hjs) in H'. rewrite <- (take_drop j rs).
      apply sublist_inserts_l. rewrite (drop_S _ _ _ Hj). by constructor.
  - destruct scope; [done|..]; cbn [scope_allows].
    + intros (a & b & ->). destruct (window_picks a l b) as [Hp Hpath]. by apply (Hst _ Hp).
    + intros Hsl. destruct (sublist_picks l rs Hsl) as (js' & Hp & Hpath). by apply (Hst _ Hp).
Qed.

Lemma of_key_scoped kind t rs :
  Forall (λ r, ∃ t, envelope kind r t) rs →
  of_key (scoped_envelope kind) t rs = tenant_records kind t rs.
Proof.
  unfold tenant_records. induction 1 as [|r rs [t' Hr] _ IH]; [done|].
  rewrite !of_key_cons, IH. unfold has_key.
  by rewrite (scoped_envelope_ok _ _ _ Hr), (proj2 (check_envelope_ok _ _ _) Hr).
Qed.
End Modes.

(** ** Properties *)

(** What each declared scope proves. Of records chosen from a fully verified
    list, full verification accepts exactly the selections that are, for every
    tenant, an initial part of the tenant's chain; windowed verification exactly
    those that are one contiguous segment of it; filtered verification exactly
    those that keep its order. *)
Theorem scoped_verification_exact `{Hasher} kind scope rs w :
  Forall (tenant_typed kind) rs →
  (Z.of_nat (length rs) < 2 ^ 53)%Z →
  valid (verifyChainScoped kind rs Full) = true →
  w ⊆ rs →
  valid (verifyChainScoped kind w scope) = true ↔
  ∀ t, scope_allows scope (tenant_records kind t w) (tenant_records kind t rs).
Proof.
  intros Ht Hlen Hv Hsub. apply chain_scoped_full in Hv. apply (verify_ok kind rs Ht) in Hv as [He Hc].
  assert (Forall (tenant_typed kind) w) as Htw by by eapply Forall_subset.
  assert (Forall (λ r, ∃ t, envelope kind r t) w) as Hew by (eapply (Forall_subset _ w rs); done).
  assert (∀ t, tenant_records kind t w ⊆ tenant_records kind t rs) as Hsubt.
  { intros t r [Hr Hin]%elem_of_tenant_records. apply elem_of_tenant_records. auto. }
  destruct (decide (scope = Full)) as [->|Hs].
  - rewrite chain_scoped_full, (verify_ok kind w Htw). split.
    + intros [_ Hcw] t. destruct (Hc t) as (? & ? & Ct), (Hcw t) as (? & ? & Cw).
      eapply chain_selection; [exact Ct|exact Cw|apply Hsubt].
    + intros Hp. split; [done|]. intros t. destruct (Hp t) as [b Hb].
      destruct (Hc t) as (? & ? & Ct). rewrite Hb in Ct. by eapply chain_app_inv.
  - rewrite chain_scoped_walk by done. unfold verifyScopedChain. rewrite walk_ok.
    2:{ eapply Forall_impl; [exact Hew|]. intros r [t Hr]. exists t. by apply scoped_envelope_ok. }
    apply forall_proper. intros t. rewrite of_key_scoped by done.
    destruct (Hc t) as (tip & n & Ct).
    apply (steps_allowed kind scope _ tip n _ Ct); [|done|apply Hsubt].
    unfold tenant_records, of_key. pose proof (length_filter (λ r, has_key (check_envelope kind) t r = true) rs). lia.
Qed.

Lemma scoped_verification_exact_witness :
  valid (verifyChainScoped Audit [demo_a2] Windowed) = true ↔
  ∀ t, scope_allows Windowed (tenant_records Audit t [demo_a2])
         (tenant_records Audit t [demo_a1; demo_b1; demo_a2]).
Proof.
  apply scoped_verification_exact.
  - repeat apply Forall_cons_2; try apply Forall_nil_2; intros v Hv; vm_compute in Hv; by injection Hv as <-.
  - reflexivity.
  - vm_compute. reflexivity.
  - intros r [->|[]%elem_of_nil]%elem_of_cons. do 2 right. left.
Defined.
