(* ===== verification/WebBase64.v ===== *)
(** * Base64 of the web platform: [btoa] and [atob]

    The two functions sdks/typescript/src/export-bundle.ts encodes and decodes
    signatures with (bytesToBase64, base64ToBytes), on lists of bytes. [atob] is
    forgiving: it ignores ASCII white space and missing padding. *)

From S2P Require Import Prelude Regex.

Definition b64_alphabet : list ascii :=
  chars "ABCDEFGHIJKLMNOPQRSTUVWXYZabcdefghijklmnopqrstuvwxyz0123456789+/".

Definition b64_char (n : Z) : ascii := nth (Z.to_nat n) b64_alphabet "A"%char.

Definition b64_val (c : ascii) : option Z := (Z.of_nat ∘ fst) <$> list_find (λ d, d = c) b64_alphabet.

(** [btoa] of the bytes. *)
Fixpoint b64_encode (bytes : list Z) : list ascii :=
  match bytes with
  | [] => []
  | [a] => [b64_char (a / 4); b64_char (a mod 4 * 16); "="%char; "="%char]
  | [a; b] => [b64_char (a / 4); b64_char (a mod 4 * 16 + b / 16); b64_char (b mod 16 * 4); "="%char]
  | a :: b :: c :: bytes =>
      [b64_char (a / 4); b64_char (a mod 4 * 16 + b / 16); b64_char (b mod 16 * 4 + c / 64); b64_char (c mod 64)]
        ++ b64_encode bytes
  end.

(** The bytes of groups of six bits; the spare bits of the last group are dropped. *)
Fixpoint b64_bytes (ns : list Z) : list Z :=
  match ns with
  | a :: b :: c :: d :: ns => [a * 4 + b / 16; b mod 16 * 16 + c / 4; c mod 4 * 64 + d]%Z ++ b64_bytes ns
  | [a; b; c] => [a * 4 + b / 16; b mod 16 * 16 + c / 4]%Z
  | [a; b] => [a * 4 + b / 16]%Z
  | _ => []
  end.

Definition ascii_space (c : ascii) : bool :=
  let n := code c in ((n =? 9) || (n =? 10) || (n =? 12) || (n =? 13) || (n =? 32))%Z.

Fixpoint drop_padding (n : nat) (cs : list ascii) : list ascii :=
  match n, cs with
  | S n, c :: cs' => if Ascii.eqb c "=" then drop_padding n cs' else cs
  | _, _ => cs
  end.

(** At most two padding characters are removed, from a text of full groups. *)
Definition strip_padding (cs : list ascii) : list ascii :=
  if (length cs mod 4 =? 0)%nat then reverse (drop_padding 2 (reverse cs)) else cs.

(** [atob], [None] where it throws. *)
Definition b64_decode (cs : list ascii) : option (list Z) :=
  let data := strip_padding (filter (λ c, ascii_space c = false) cs) in
  if (length data mod 4 =? 1)%nat then None else b64_bytes <$> mapM b64_val data.

Definition byte (n : Z) : Prop := (0 ≤ n < 256)%Z.

(** ** Decoding what was encoded *)

Lemma b64_val_char n : (0 ≤ n < 64)%Z → b64_val (b64_char n) = Some n.
Proof.
  intros Hn. rewrite <- (Z2Nat.id n) by lia. assert (Z.to_nat n < 64)%nat as Hlt by lia. clear Hn.
  revert Hlt. generalize (Z.to_nat n). intros k Hk.
  do 64 (destruct k as [|k]; [vm_compute; reflexivity|]). lia.
Qed.

Lemma b64_char_plain n : ascii_space (b64_char n) = false ∧ b64_char n ≠ "="%char.
Proof.
  unfold b64_char. generalize (Z.to_nat n). intros k. destruct (decide (k < 64)%nat) as [Hk|Hk].
  - do 64 (destruct k as [|k]; [vm_compute; by split|]). lia.
  - rewrite nth_overflow; [vm_compute; by split|]. vm_compute (length _). lia.
Qed.

(** The six-bit groups of the bytes. *)
Fixpoint b64_groups (bytes : list Z) : list Z :=
  match bytes with
  | [] => []
  | [a] => [a / 4; a mod 4 * 16]%Z
  | [a; b] => [a / 4; a mod 4 * 16 + b / 16; b mod 16 * 4]%Z
  | a :: b :: c :: bytes =>
      [a / 4; a mod 4 * 16 + b / 16; b mod 16 * 4 + c / 64; c mod 64]%Z ++ b64_groups bytes
  end.

Definition b64_pad (bytes : list Z) : nat := match (length bytes mod 3)%nat with 0 => 0 | 1 => 2 | _ => 1 end.

(** Induction in steps of three. *)
Lemma list_ind3 {A} (P : list A → Prop) :
  P [] → (∀ a, P [a]) → (∀ a b, P [a; b]) → (∀ a b c l, P l → P (a :: b :: c :: l)) → ∀ l, P l.
Proof.
  intros H0 H1 H2 H3 l. enough (∀ n, ∀ l, (length l < n)%nat → P l) as Hn by (apply (Hn (S (length l))); lia).
  clear l. induction n as [|n IH]; intros l Hl; [lia|].
  destruct l as [|a [|b [|c l]]]; [done|done|done|]. apply H3, IH. cbn in Hl. lia.
Qed.

Lemma mod3_step n : ((3 + n) mod 3 = n mod 3)%nat.
Proof. replace (3 + n)%nat with (n + 1 * 3)%nat by lia. by rewrite Nat.Div0.mod_add. Qed.

Lemma b64_encode_groups bs : b64_encode bs = (b64_char <$> b64_groups bs) ++ replicate (b64_pad bs) "="%char.
Proof.
  induction bs as [| | |a b c bs IH] using list_ind3; try reflexivity.
  cbn [b64_encode b64_groups]. rewrite IH, fmap_app, <- app_assoc.
  unfold b64_pad. cbn [length]. change (S (S (S (length bs)))) with (3 + length bs)%nat. by rewrite mod3_step.
Qed.

(** Full groups, then a last one of two or three characters. *)
Lemma b64_groups_length bs :
  ∃ k, (length (b64_groups bs) + b64_pad bs = 4 * k)%nat ∧ (b64_pad bs ≤ 2)%nat ∧
       (0 < b64_pad bs → 0 < length (b64_groups bs))%nat.
Proof.
  induction bs as [| | |a b c bs (k & IH & Hp & _)] using list_ind3;
    [exists 0%nat; cbn; lia|exists 1%nat; cbn; lia|exists 1%nat; cbn; lia|].
  exists (S k). unfold b64_pad in *. cbn [b64_groups]. rewrite length_app. cbn [length].
  change (S (S (S (length bs)))) with (3 + length bs)%nat. rewrite mod3_step. lia.
Qed.

(** The arithmetic of one group of three bytes. *)
Lemma b64_group a b c : byte a → byte b → byte c →
  let p := (a / 4)%Z in let q := (a mod 4 * 16 + b / 16)%Z in
  let r := (b mod 16 * 4 + c / 64)%Z in let s := (c mod 64)%Z in
  Forall (λ n, 0 ≤ n < 64)%Z [p; q; r; s] ∧
  (p * 4 + q / 16 = a)%Z ∧ (q mod 16 * 16 + r / 4 = b)%Z ∧ (r mod 4 * 64 + s = c)%Z.
Proof.
  unfold byte. intros Ha Hb Hc. cbn zeta.
  div_facts a 4%Z. div_facts b 16%Z. div_facts c 64%Z.
  assert ((a mod 4 * 16 + b / 16) / 16 = a mod 4 ∧ (a mod 4 * 16 + b / 16) mod 16 = b / 16)%Z as [-> ->].
  { split; symmetry; [apply Z.div_unique with (b / 16)%Z|apply Z.mod_unique with (a mod 4)%Z]; lia. }
  assert ((b mod 16 * 4 + c / 64) / 4 = b mod 16 ∧ (b mod 16 * 4 + c / 64) mod 4 = c / 64)%Z as [-> ->].
  { split; symmetry; [apply Z.div_unique with (c / 64)%Z|apply Z.mod_unique with (b mod 16)%Z]; lia. }
  rewrite !Forall_cons. repeat split; try apply Forall_nil_2; lia.
Qed.

Lemma b64_groups_ok bs :
  Forall byte bs → Forall (λ n, 0 ≤ n < 64)%Z (b64_groups bs) ∧ b64_bytes (b64_groups bs) = bs.
Proof.
  induction bs as [|a|a b|a b c bs IH] using list_ind3; intros Hb; rewrite ?Forall_cons in Hb.
  - by split.
  - destruct (b64_group a 0 0) as (Hr & H1 & _); [tauto|done|done|]. change (0 / 16)%Z with 0%Z in *.
    rewrite Z.add_0_r in *. rewrite !Forall_cons in Hr. cbn [b64_groups b64_bytes]. rewrite H1, !Forall_cons. tauto.
  - destruct (b64_group a b 0) as (Hr & H1 & H2 & _); [tauto|tauto|done|]. change (0 / 64)%Z with 0%Z in *.
    rewrite Z.add_0_r in *. rewrite !Forall_cons in Hr. cbn [b64_groups b64_bytes]. rewrite H1, H2, !Forall_cons. tauto.
  - destruct (b64_group a b c) as (Hr & H1 & H2 & H3); [tauto|tauto|tauto|]. destruct IH as [Hf E]; [tauto|].
    rewrite !Forall_cons in Hr. cbn [b64_groups b64_bytes app]. rewrite H1, H2, H3, E, !Forall_cons. tauto.
Qed.

Lemma mapM_b64_val ns : Forall (λ n, 0 ≤ n < 64)%Z ns → mapM b64_val (b64_char <$> ns) = Some ns.
Proof.
  intros Hn. apply mapM_Some. induction Hn as [|n ns Hn _ IH]; cbn [fmap list_fmap]; constructor; [|done].
  by apply b64_val_char.
Qed.

Lemma strip_padding_pad ns p k :
  (length ns + p = 4 * k)%nat → (p ≤ 2)%nat → (0 < p → 0 < length ns)%nat →
  strip_padding ((b64_char <$> ns) ++ replicate p "="%char) = b64_char <$> ns.
Proof.
  intros Hl Hp Hne. unfold strip_padding. rewrite length_app, length_fmap, length_replicate, Hl.
  rewrite Nat.mul_comm, Nat.Div0.mod_mul. cbn [Nat.eqb].
  assert (∀ rs, drop_padding 2 (replicate p "="%char ++ (b64_char <$> rs)) =
    if decide (p = 0%nat ∨ 0 < length rs)%nat then b64_char <$> rs else drop_padding (2 - p) []) as Hd.
  { intros rs. assert (∀ m n ms, drop_padding m (b64_char <$> n :: ms) = b64_char <$> n :: ms) as Hn.
    { intros [|m] n ms; [done|]. rewrite fmap_cons. cbn [drop_padding].
      destruct (b64_char_plain n) as [_ Hq]. by rewrite (proj2 (Ascii.eqb_neq _ _) Hq). }
    destruct p as [|[|[|p]]]; [| | |lia]; cbn [replicate app]; (destruct rs as [|n rs]; [done|]);
      rewrite decide_True by (cbn; lia); [apply Hn|apply (Hn 1%nat)|apply (Hn 0%nat)]. }
  rewrite reverse_app, <- fmap_reverse, reverse_replicate, Hd, decide_True.
  - by rewrite <- fmap_reverse, reverse_involutive.
  - rewrite length_reverse. destruct p; [by left|right; apply Hne; lia].
Qed.

Lemma filter_all {A} (P : A → Prop) `{∀ x, Decision (P x)} (l : list A) : (∀ x, x ∈ l → P x) → filter P l = l.
Proof.
  induction l as [|x l IH]; intros Hl; [done|]. rewrite filter_cons_True by (apply Hl; by left).
  rewrite IH; [done|]. intros y Hy. apply Hl. by right.
Qed.

(** *** Round trip *)

Lemma b64_decode_encode bs : Forall byte bs → b64_decode (b64_encode bs) = Some bs.
Proof.
  intros Hb. destruct (b64_groups_ok bs Hb) as [Hr E]. destruct (b64_groups_length bs) as (k & Hl & Hp & Hne).
  unfold b64_decode. rewrite b64_encode_groups.
  assert (filter (λ c, ascii_space c = false) ((b64_char <$> b64_groups bs) ++ replicate (b64_pad bs) "="%char)
          = (b64_char <$> b64_groups bs) ++ replicate (b64_pad bs) "="%char) as ->.
  { apply filter_all. intros c [(n & -> & _)%list_elem_of_fmap|Hc]%elem_of_app.
    - apply b64_char_plain.
    - apply elem_of_replicate in Hc as [-> _]. reflexivity. }
  rewrite (strip_padding_pad _ _ k) by done. rewrite length_fmap, mapM_b64_val by done. cbn [fmap option_fmap option_map]. rewrite E.
  destruct (Nat.eqb_spec (length (b64_groups bs) mod 4) 1) as [Em|]; [|done].
  pose proof (Nat.div_mod (length (b64_groups bs)) 4 ltac:(lia)). lia.
Qed.
