(* ===== verification/Redact.v ===== *)
(** * Metadata redaction (sdks/typescript/src/index.ts: redactMetadata, redactAny,
    sanitizeDigestEnvelope)

    Metadata becomes protocol JSON before it is hashed: what stands under a
    sensitive key is replaced by a marker, except digest envelopes, which are
    reduced to their public fields. [redacted] describes the results. *)

From S2P Require Import Prelude Regex JsNum JsVal Dates JsonText Canonical.

(** [/(password|secret|token|api[_-]?key|authorization|email|phone|ssn)/i] *)
Definition SENSITIVE_KEY_PATTERN : re :=
  alts [word_i "password"; word_i "secret"; word_i "token";
        Seq (word_i "api") (Seq (opt (Cls (one_of "_-"))) (word_i "key"));
        word_i "authorization"; word_i "email"; word_i "phone"; word_i "ssn"].

Definition sensitive (key : string) : bool := re_search SENSITIVE_KEY_PATTERN key.

(** [/^sha256:[a-f0-9]{64}$/] *)
Definition SHA256_DIGEST_PATTERN : re := Seq (word "sha256:") (pow 64 (Cls hex_lower)).

(** The capture modes whose digests are kept. *)
Definition capture_modes : list string :=
  ["content_digest"; "randomized_digest"; "reference"; "redact"; "encrypt"].

Definition sanitizeDigestEnvelope (value : val) : option val :=
  if negb (is_plain_object value) then None else
  match vget_opt value "digest" with
  | VStr digest =>
      if negb (re_test SHA256_DIGEST_PATTERN digest) then None else
      if existsb (λ k, bool_decide (k ∈ own_keys value))
           ["canonicalization"; "schemaRef"; "fieldSetRef"; "fields"] then None else
      let algorithm := vget_opt value "algorithm" in
      let keyVersion := vget_opt value "keyVersion" in
      let captureMode := vget_opt value "captureMode" in
      if strict_eq algorithm (VStr "hmac-sha256") then
        if non_blank_string keyVersion then
          Some (VObj [("algorithm", VStr "hmac-sha256"); ("digest", VStr digest);
                      ("keyVersion", keyVersion)])
        else None
      else if strict_eq algorithm (VStr "sha256") then
        Some (VObj [("algorithm", VStr "sha256"); ("digest", VStr digest)])
      else if existsb (λ m, strict_eq captureMode (VStr m)) capture_modes then
        Some (VObj [("captureMode", captureMode); ("digest", VStr digest)])
      else None
  | _ => None
  end.

#[global] Arguments sanitizeDigestEnvelope : simpl never.

Definition REDACTED : val := VStr "[redacted]".

Fixpoint redactAny (value : val) (key : string) : exc val :=
  if sensitive key then Ret (default REDACTED (sanitizeDigestEnvelope value)) else
  match value with
  | VUndef => Ret VNull
  | VNull | VStr _ | VBool _ => Ret value
  | VNum n => if is_finite n then Ret value else Throw "metadata numbers must be finite"
  | VArr xs => ys ← mapE (λ item, redactAny item key) xs; Ret (VArr ys)
  | VDate (Some t) => Ret (VStr (toISOString t))
  | VDate None => Throw "Invalid time value"
  | VObj fs =>
      match sanitizeDigestEnvelope value with
      | Some digestEnvelope => Ret digestEnvelope
      | None =>
          result ← fold_left assign_normalized
                     (sort_fields ((λ kv, (kv.1, if is_undef kv.2 then Ret VUndef
                                                 else redactAny kv.2 kv.1)) <$> fs)) (Ret []);
          Ret (VObj result)
      end
  | VOther repr => Ret (VStr repr)
  end.

Definition redactMetadata (value : val) : exc val := redactAny value "".

(** ** Specification *)

(** What survives of a digest envelope. *)
Inductive digest_envelope : val → Prop :=
| env_hmac d k :
    re_test SHA256_DIGEST_PATTERN d = true → blank k = false →
    digest_envelope (VObj [("algorithm", VStr "hmac-sha256"); ("digest", VStr d); ("keyVersion", VStr k)])
| env_sha256 d :
    re_test SHA256_DIGEST_PATTERN d = true →
    digest_envelope (VObj [("algorithm", VStr "sha256"); ("digest", VStr d)])
| env_capture m d :
    re_test SHA256_DIGEST_PATTERN d = true → m ∈ capture_modes →
    digest_envelope (VObj [("captureMode", VStr m); ("digest", VStr d)]).

(** Protocol JSON in which every sensitive key holds the marker or an envelope. *)
Inductive redacted : string → val → Prop :=
| red_marker key : sensitive key = true → redacted key REDACTED
| red_envelope key v : digest_envelope v → redacted key v
| red_leaf key v :
    sensitive key = false →
    (match v with VNull | VBool _ | VNum _ | VStr _ => True | _ => False end) → redacted key v
| red_arr key xs : sensitive key = false → Forall (redacted key) xs → redacted key (VArr xs)
| red_obj key fs :
    sensitive key = false → Forall (λ kv, redacted kv.1 kv.2) fs → redacted key (VObj fs).

(** Values that differ only under sensitive keys, in what is not an envelope. *)
Inductive same_public : string → val → val → Prop :=
| sp_hidden key v w :
    sensitive key = true → is_undef v = is_undef w →
    sanitizeDigestEnvelope v = sanitizeDigestEnvelope w → same_public key v w
| sp_leaf key v :
    (match v with VArr _ | VObj _ => False | _ => True end) → same_public key v v
| sp_arr key xs ys : Forall2 (same_public key) xs ys → same_public key (VArr xs) (VArr ys)
| sp_obj key fs gs :
    Forall2 (λ a b, a.1 = b.1 ∧ same_public a.1 a.2 b.2) fs gs →
    same_public key (VObj fs) (VObj gs).

(** ** Envelopes *)

(** All that [sanitizeDigestEnvelope] sees of a property. *)
Definition str_of (v : val) : option string := match v with VStr s => Some s | _ => None end.

Definition envelope_keys : list string := ["digest"; "algorithm"; "keyVersion"; "captureMode"].
Definition barred_keys : list string := ["canonicalization"; "schemaRef"; "fieldSetRef"; "fields"].

Lemma strict_eq_str_of v s : strict_eq v (VStr s) = bool_decide (str_of v = Some s).
Proof.
  destruct (strict_eq v (VStr s)) eqn:E; symmetry.
  - apply strict_eq_str in E as ->. by apply bool_decide_eq_true.
  - apply bool_decide_eq_false. destruct v; try done. intros [= ->]. by rewrite strict_eq_str_refl in E.
Qed.

Lemma non_blank_str_of v w : str_of v = str_of w → non_blank_string v = non_blank_string w.
Proof. destruct v, w; cbn; congruence. Qed.

Lemma str_of_Some v s : str_of v = Some s → v = VStr s.
Proof. destruct v; cbn; congruence. Qed.

Lemma non_blank_string_str v : non_blank_string v = true → ∃ s, v = VStr s ∧ blank s = false.
Proof. destruct v; try done. cbn. intros H. bool_prop. eauto. Qed.

(** Envelope objects that agree on these properties are sanitized alike. *)
Lemma sanitize_view fs gs :
  (∀ k, k ∈ envelope_keys →
     str_of (default VUndef (obj_get k fs)) = str_of (default VUndef (obj_get k gs))) →
  (∀ k, k ∈ barred_keys → k ∈ keys fs ↔ k ∈ keys gs) →
  sanitizeDigestEnvelope (VObj fs) = sanitizeDigestEnvelope (VObj gs).
Proof.
  intros Hv Hb. unfold sanitizeDigestEnvelope. cbn [is_plain_object negb vget_opt own_keys].
  pose proof (Hv "digest" ltac:(unfold envelope_keys; set_solver)) as Hd.
  pose proof (Hv "algorithm" ltac:(unfold envelope_keys; set_solver)) as Ha.
  pose proof (Hv "keyVersion" ltac:(unfold envelope_keys; set_solver)) as Hk.
  pose proof (Hv "captureMode" ltac:(unfold envelope_keys; set_solver)) as Hc.
  generalize dependent (default VUndef (obj_get "digest" fs)).
  generalize dependent (default VUndef (obj_get "digest" gs)).
  generalize dependent (default VUndef (obj_get "algorithm" fs)).
  generalize dependent (default VUndef (obj_get "algorithm" gs)).
  generalize dependent (default VUndef (obj_get "keyVersion" fs)).
  generalize dependent (default VUndef (obj_get "keyVersion" gs)).
  generalize dependent (default VUndef (obj_get "captureMode" fs)).
  generalize dependent (default VUndef (obj_get "captureMode" gs)).
  intros c' c Hc k' k Hk a' a Ha d' d Hd.
  assert (existsb (λ k, bool_decide (k ∈ keys fs)) barred_keys =
          existsb (λ k, bool_decide (k ∈ keys gs)) barred_keys) as Hex.
  { clear -Hb. induction barred_keys as [|k l IH]; [done|]. cbn. rewrite IH by set_solver.
    f_equal. apply bool_decide_ext, Hb. left. }
  assert (∀ x y, str_of x = str_of y → ∀ m, strict_eq x (VStr m) = strict_eq y (VStr m)) as Heq
    by (intros x y E m; by rewrite !strict_eq_str_of, E).
  assert (existsb (λ m, strict_eq c (VStr m)) capture_modes =
          existsb (λ m, strict_eq c' (VStr m)) capture_modes) as Hcm.
  { induction capture_modes as [|m l IH]; [done|]. cbn. by rewrite (Heq c c' Hc m), IH. }
  unfold barred_keys in Hex. rewrite Hex, Hcm, !(Heq a a' Ha).
  rewrite (non_blank_str_of _ _ Hk).
  destruct d as [| | | |s| | | |], d' as [| | | |s'| | | |]; try done; try discriminate Hd.
  injection Hd as <-. destruct (negb _); [done|].
  destruct (existsb (λ k, bool_decide (k ∈ keys gs)) _); [done|].
  destruct (strict_eq _ _).
  { destruct (non_blank_string k') eqn:E; [|done].
    apply non_blank_string_str in E as (x & -> & _). by apply str_of_Some in Hk as ->. }
  destruct (strict_eq _ _); [done|].
  destruct (existsb (λ m, strict_eq c' (VStr m)) capture_modes) eqn:E; [|done].
  apply existsb_exists in E as (m & _ & ->%strict_eq_str). by apply str_of_Some in Hc as ->.
Qed.

Lemma sanitize_envelope v w : sanitizeDigestEnvelope v = Some w → digest_envelope w.
Proof.
  unfold sanitizeDigestEnvelope. destruct (negb _); [done|].
  destruct (vget_opt v "digest") as [| | | |d| | | |]; try done.
  destruct (re_test _ d) eqn:Ed; [|done]. cbn [negb]. destruct (existsb _ _); [done|].
  destruct (strict_eq _ _) eqn:Ea.
  { destruct (non_blank_string _) eqn:Ek; [|done]. intros [= <-].
    apply non_blank_string_str in Ek as (k & -> & Hk). by constructor. }
  destruct (strict_eq _ (VStr "sha256")) eqn:Es; [intros [= <-]; by constructor|].
  destruct (existsb _ _) eqn:Ec; [|done]. intros [= <-].
  apply existsb_exists in Ec as (m & Hm & Ec). apply strict_eq_str in Ec as ->.
  constructor; [done|]. by apply list_elem_of_In.
Qed.

Lemma sanitize_fixed v : digest_envelope v → sanitizeDigestEnvelope v = Some v.
Proof.
  destruct 1 as [d k Hd Hk|d Hd|m d Hd Hm]; unfold sanitizeDigestEnvelope; cbn; rewrite Hd; cbn.
  - by rewrite Hk.
  - done.
  - unfold capture_modes in Hm. rewrite !elem_of_cons in Hm.
    destruct Hm as [->|[->|[->|[->|[->|[]%elem_of_nil]]]]]; done.
Qed.

Lemma envelope_canonical v : digest_envelope v → canonical v.
Proof.
  assert (∀ fs, Forall (λ kv : string * val, ∃ s, kv.2 = VStr s) fs →
            canon_fields fs → canonical (VObj fs)) as Hstr.
  { intros fs Hfs Hc. constructor; [done|]. eapply Forall_impl; [exact Hfs|].
    intros kv [s ->]. constructor. }
  destruct 1; apply Hstr; repeat constructor; eauto; cbn; rewrite ?elem_of_cons, ?elem_of_nil; naive_solver.
Qed.

(** ** Results of redaction *)

Lemma sanitize_leaf v : is_plain_object v = false → sanitizeDigestEnvelope v = None.
Proof. unfold sanitizeDigestEnvelope. by intros ->. Qed.

Lemma redactAny_sensitive v key :
  sensitive key = true → redactAny v key = Ret (default REDACTED (sanitizeDigestEnvelope v)).
Proof. intros H. destruct v; cbn [redactAny]; by rewrite H. Qed.

Definition redact_field (kv : string * val) : exc val :=
  if is_undef kv.2 then Ret VUndef else redactAny kv.2 kv.1.

Lemma redactAny_obj fs key :
  sensitive key = false →
  redactAny (VObj fs) key =
  match sanitizeDigestEnvelope (VObj fs) with
  | Some e => Ret e
  | None => result ← fold_left assign_normalized
                       (sort_fields ((λ kv, (kv.1, redact_field kv)) <$> fs)) (Ret []);
            Ret (VObj result)
  end.
Proof. intros H. cbn [redactAny]. by rewrite H. Qed.

Lemma redactAny_arr xs key :
  sensitive key = false →
  redactAny (VArr xs) key = (ys ← mapE (λ item, redactAny item key) xs; Ret (VArr ys)).
Proof. intros H. cbn [redactAny]. by rewrite H. Qed.

Lemma default_sanitize_redacted key v :
  sensitive key = true → redacted key (default REDACTED (sanitizeDigestEnvelope v)).
Proof.
  intros Hk. destruct (sanitizeDigestEnvelope v) eqn:E; cbn; [|by constructor].
  apply red_envelope. by eapply sanitize_envelope.
Qed.

Lemma redact_field_redacted fs out :
  Forall (λ kv, ∀ key w, redactAny kv.2 key = Ret w → redacted key w) fs →
  fold_left assign_normalized (sort_fields ((λ kv, (kv.1, redact_field kv)) <$> fs)) (Ret []) = Ret out →
  Forall (λ kv, is_undef kv.2 = false → redacted kv.1 kv.2) out.
Proof.
  intros IH H. apply Forall_forall. intros [k w] Hin. cbn.
  destruct (fold_assign_elem _ _ _ _ _ H Hin) as [?%elem_of_nil|Hms]; [done|].
  unfold sort_fields in Hms. rewrite sort_by_perm in Hms.
  apply list_elem_of_fmap in Hms as ([k' v] & [= -> Hw] & Hv). unfold redact_field in Hw. cbn in Hw.
  destruct (is_undef v) eqn:Eu; [by injection Hw as ->|]. intros _.
  rewrite Forall_forall in IH. by apply (IH _ Hv).
Qed.

Lemma fold_assign_defined ms acc out :
  fold_left assign_normalized ms (Ret acc) = Ret out →
  Forall (λ kv, is_undef kv.2 = false) acc → Forall (λ kv, is_undef kv.2 = false) out.
Proof.
  revert acc. induction ms as [|[k m] ms IH]; intros acc H Ha; [by injection H as <-|].
  rewrite fold_assign_cons in H. destruct m as [w|]; [|done]. apply (IH _ H).
  destruct (is_undef w) eqn:E; [done|]. by apply (obj_assign_Forall (λ v, is_undef v = false)).
Qed.

Lemma redactAny_redacted v key w : redactAny v key = Ret w → redacted key w.
Proof.
  revert key w. induction v as [| |b|n|s|xs IH|fs IH|t|o] using val_rect_nested; intros key w H;
    (destruct (sensitive key) eqn:Hk;
     [rewrite (redactAny_sensitive _ _ Hk) in H; apply Ret_inj in H as <-; by apply default_sanitize_redacted|]).
  - cbn in H. rewrite Hk in H. injection H as <-. by apply red_leaf.
  - cbn in H. rewrite Hk in H. injection H as <-. by apply red_leaf.
  - cbn in H. rewrite Hk in H. injection H as <-. by apply red_leaf.
  - cbn in H. rewrite Hk in H. destruct (is_finite n); [|done]. injection H as <-. by apply red_leaf.
  - cbn in H. rewrite Hk in H. injection H as <-. by apply red_leaf.
  - rewrite redactAny_arr in H by done. apply bind_ret in H as (ys & H & [= <-]).
    apply red_arr; [done|]. apply mapE_Forall2 in H.
    induction H as [|x y xs ys Hxy _ IHxs]; [constructor|]. inversion IH; subst.
    constructor; [by eauto|by apply IHxs].
  - rewrite redactAny_obj in H by done. destruct (sanitizeDigestEnvelope (VObj fs)) eqn:E.
    { injection H as <-. apply red_envelope. by eapply sanitize_envelope. }
    apply bind_ret in H as (out & H & [= <-]). apply red_obj; [done|].
    pose proof (redact_field_redacted fs out IH H) as Hr.
    pose proof (fold_assign_defined _ _ _ H (Forall_nil_2 _)) as Hd.
    rewrite Forall_forall in *. auto.
  - cbn in H. rewrite Hk in H. destruct t; [|done]. injection H as <-. by apply red_leaf.
  - cbn in H. rewrite Hk in H. injection H as <-. by apply red_leaf.
Qed.

Lemma redactAny_canonical v key w : nums_wf v = true → redactAny v key = Ret w → canonical w.
Proof.
  revert key w. induction v as [| |b|n|s|xs IH|fs IH|t|o] using val_rect_nested; intros key w Hn H;
    (destruct (sensitive key) eqn:Hk;
     [rewrite (redactAny_sensitive _ _ Hk) in H; apply Ret_inj in H as <-;
      destruct (sanitizeDigestEnvelope _) eqn:E; cbn;
      [by eapply envelope_canonical, sanitize_envelope|constructor]|]).
  - cbn in H. rewrite Hk in H. injection H as <-. constructor.
  - cbn in H. rewrite Hk in H. injection H as <-. constructor.
  - cbn in H. rewrite Hk in H. injection H as <-. constructor.
  - cbn in H. rewrite Hk in H. destruct (is_finite n) eqn:En; [|done]. injection H as <-. by constructor.
  - cbn in H. rewrite Hk in H. injection H as <-. constructor.
  - rewrite redactAny_arr in H by done. apply bind_ret in H as (ys & H & [= <-]).
    constructor. apply mapE_Forall2 in H. cbn in Hn.
    induction H as [|x y xs ys Hxy _ IHxs]; [constructor|]. inversion IH; subst.
    cbn in Hn. apply andb_true_iff in Hn as [Hnx Hn].
    constructor; [by eauto|by apply IHxs].
  - rewrite redactAny_obj in H by done. destruct (sanitizeDigestEnvelope (VObj fs)) eqn:E.
    { injection H as <-. by eapply envelope_canonical, sanitize_envelope. }
    apply bind_ret in H as (out & H & [= <-]). eapply assign_sorted_canon; [exact H|].
    apply Forall_fmap, Forall_forall. intros [k v] Hin x. cbn. unfold redact_field. cbn.
    destruct (is_undef v); [intros [= <-]; by left|]. intros Hx. right.
    cbn in Hn. rewrite forallb_forall in Hn. rewrite Forall_forall in IH.
    eapply (IH _ Hin); [|exact Hx]. apply (Hn (k, v)). by apply list_elem_of_In.
  - cbn in H. rewrite Hk in H. destruct t; [|done]. injection H as <-. constructor.
  - cbn in H. rewrite Hk in H. injection H as <-. constructor.
Qed.

(** ** Redacting twice *)

Lemma fold_assign_ret ms acc out :
  fold_left assign_normalized ms acc = Ret out → Forall (λ kv, is_ret kv.2 = true) ms.
Proof.
  revert acc. induction ms as [|[k m] ms IH]; intros acc H; [constructor|].
  destruct acc as [acc|]; [|by rewrite fold_assign_throw in H].
  rewrite fold_assign_cons in H. destruct m as [w|]; [|done]. constructor; [done|by eapply IH].
Qed.

Lemma sensitive_envelope_keys k : k ∈ envelope_keys ++ barred_keys → sensitive k = false ∧ k ≠ "__proto__".
Proof.
  intros Hk. assert (Forall (λ k, sensitive k = false ∧ k ≠ "__proto__") (envelope_keys ++ barred_keys)) as HF.
  { repeat (apply Forall_cons_2; [split; [vm_compute; reflexivity|done]|]). apply Forall_nil_2. }
  rewrite Forall_forall in HF. auto.
Qed.

Lemma redactAny_str_of v k w :
  sensitive k = false → is_json v = true → redactAny v k = Ret w → str_of w = str_of v.
Proof.
  intros Hk Hj H. destruct v as [| | |n|s|xs|fs|t|o]; try done.
  - cbn in H. rewrite Hk in H. by injection H as <-.
  - cbn in H. rewrite Hk in H. by injection H as <-.
  - cbn in H. rewrite Hk in H. destruct (is_finite n); [|done]. by injection H as <-.
  - cbn in H. rewrite Hk in H. by injection H as <-.
  - rewrite redactAny_arr in H by done. by apply bind_ret in H as (ys & _ & [= <-]).
  - rewrite redactAny_obj in H by done. destruct (sanitizeDigestEnvelope _) eqn:E.
    + injection H as <-. apply sanitize_envelope in E. by destruct E.
    + by apply bind_ret in H as (ys & _ & [= <-]).
Qed.

(** The property [k] of a redacted object. *)
Lemma redact_fields_get fs out k :
  is_json (VObj fs) = true → k ≠ "__proto__" →
  fold_left assign_normalized (sort_fields ((λ kv, (kv.1, redact_field kv)) <$> fs)) (Ret []) = Ret out →
  match obj_get k fs with
  | Some v => ∃ w, redactAny v k = Ret w ∧ obj_get k out = Some w
  | None => obj_get k out = None
  end.
Proof.
  intros Hj Hk H. pose proof (fold_assign_ret _ _ _ H) as Hret.
  apply is_json_obj in Hj as [Hord Hj].
  rewrite (assign_sorted_get redact_field _ _ k (keys_ordered_NoDup _ Hord) Hk H).
  destruct (obj_get k fs) as [v|] eqn:E; [|done]. apply obj_get_elem in E.
  rewrite Forall_forall in Hj. specialize (Hj _ E). cbn in Hj.
  unfold sort_fields in Hret. rewrite sort_by_perm in Hret. apply Forall_fmap in Hret.
  rewrite Forall_forall in Hret. specialize (Hret _ E). cbn in Hret.
  unfold redact_field in *. cbn in *. rewrite (json_not_undef v Hj) in *.
  destruct (redactAny v k) as [w|] eqn:Ew; [|done]. exists w. split; [done|].
  by rewrite (canonical_not_undef w (redactAny_canonical v k w (is_json_nums v Hj) Ew)).
Qed.

Lemma redact_fields_sanitize fs out :
  is_json (VObj fs) = true →
  fold_left assign_normalized (sort_fields ((λ kv, (kv.1, redact_field kv)) <$> fs)) (Ret []) = Ret out →
  sanitizeDigestEnvelope (VObj out) = sanitizeDigestEnvelope (VObj fs).
Proof.
  intros Hj H. apply sanitize_view.
  - intros k Hk. destruct (sensitive_envelope_keys k) as [Hs Hp]; [set_solver|].
    pose proof (redact_fields_get fs out k Hj Hp H) as Hg.
    destruct (obj_get k fs) as [v|] eqn:E; [|by rewrite Hg].
    destruct Hg as (w & Hw & ->). cbn. eapply redactAny_str_of; [done| |done].
    apply is_json_obj in Hj as [_ Hj]. rewrite Forall_forall in Hj. by apply (Hj _ (obj_get_elem _ _ _ E)).
  - intros k Hk. destruct (sensitive_envelope_keys k) as [Hs Hp]; [set_solver|].
    pose proof (redact_fields_get fs out k Hj Hp H) as Hg.
    rewrite <- !obj_has_spec. unfold obj_has.
    destruct (obj_get k fs); [destruct Hg as (w & _ & ->); done|by rewrite Hg].
Qed.

Lemma redactAny_marked v key :
  sensitive key = true →
  redactAny (default REDACTED (sanitizeDigestEnvelope v)) key =
  Ret (default REDACTED (sanitizeDigestEnvelope v)).
Proof.
  intros Hk. rewrite (redactAny_sensitive _ _ Hk).
  destruct (sanitizeDigestEnvelope v) as [w|] eqn:E; [|done]. change (default REDACTED (Some w)) with w.
  apply sanitize_envelope in E. by rewrite (sanitize_fixed _ E).
Qed.

Lemma redactAny_idempotent v key w :
  is_json v = true → redactAny v key = Ret w → redactAny w key = Ret w.
Proof.
  revert key w. induction v as [| |b|n|s|xs IH|fs IH|t|o] using val_rect_nested; intros key w Hj H; try done;
    (destruct (sensitive key) eqn:Hk;
     [rewrite (redactAny_sensitive _ _ Hk) in H; apply Ret_inj in H as <-;
      by apply redactAny_marked|]).
  - cbn in H. rewrite Hk in H. injection H as <-. cbn. by rewrite Hk.
  - cbn in H. rewrite Hk in H. injection H as <-. cbn. by rewrite Hk.
  - cbn in H. rewrite Hk in H. destruct (is_finite n) eqn:En; [|done]. injection H as <-. cbn. by rewrite Hk, En.
  - cbn in H. rewrite Hk in H. injection H as <-. cbn. by rewrite Hk.
  - rewrite redactAny_arr in H by done. apply bind_ret in H as (ys & H & [= <-]).
    rewrite redactAny_arr by done. rewrite (mapE_total _ id); [by cbn; rewrite list_fmap_id|].
    apply mapE_Forall2 in H. apply is_json_arr in Hj.
    induction H as [|x y xs ys Hxy _ IHxs]; [constructor|].
    inversion IH; subst. inversion Hj; subst. constructor; [by eauto|by apply IHxs].
  - rewrite redactAny_obj in H by done. destruct (sanitizeDigestEnvelope (VObj fs)) eqn:E.
    { injection H as <-. apply sanitize_envelope in E. pose proof (sanitize_fixed _ E) as E'.
      destruct E; rewrite redactAny_obj by done; by rewrite E'. }
    apply bind_ret in H as (out & H & [= <-]). rewrite redactAny_obj by done.
    rewrite (redact_fields_sanitize fs out Hj H), E.
    assert (canonical (VObj out)) as Hc.
    { apply (redactAny_canonical (VObj fs) key); [by apply is_json_nums|].
      rewrite redactAny_obj, E by done. by rewrite H. }
    assert (((λ kv, (kv.1, redact_field kv)) <$> out) = ((λ kv, (kv.1, Ret kv.2)) <$> out)) as ->.
    { apply list_fmap_ext. intros i [k w] Hi. cbn. f_equal. apply list_elem_of_lookup_2 in Hi.
      inversion Hc as [| | | | |? _ Hcf]; subst. rewrite Forall_forall in Hcf.
      pose proof (canonical_not_undef _ (Hcf _ Hi)) as Hu. cbn in Hu.
      unfold redact_field. cbn. rewrite Hu.
      destruct (fold_assign_elem _ _ _ _ _ H Hi) as [?%elem_of_nil|Hms]; [done|].
      unfold sort_fields in Hms. rewrite sort_by_perm in Hms.
      apply list_elem_of_fmap in Hms as ([k' v] & [= -> Hw] & Hv).
      apply is_json_obj in Hj as [_ Hj]. rewrite Forall_forall in Hj, IH. specialize (Hj _ Hv).
      unfold redact_field in Hw. cbn in Hw, Hj. rewrite (json_not_undef v Hj) in Hw.
      by apply (IH _ Hv). }
    by rewrite assign_sorted_id.
Qed.

(** ** What redaction hides *)

Lemma same_public_undef key v w : same_public key v w → is_undef v = is_undef w.
Proof. by destruct 1. Qed.

Lemma same_public_str_of key v w : sensitive key = false → same_public key v w → str_of v = str_of w.
Proof. intros Hk. destruct 1; try done. congruence. Qed.

Definition same_fields (fs gs : list (string * val)) : Prop :=
  Forall2 (λ a b, a.1 = b.1 ∧ same_public a.1 a.2 b.2) fs gs.

Lemma same_fields_keys fs gs : same_fields fs gs → keys fs = keys gs.
Proof. induction 1 as [|a b fs gs [Hk _] _ IH]; [done|]. cbn. f_equal; [done|exact IH]. Qed.

Lemma same_fields_get k fs gs :
  same_fields fs gs →
  match obj_get k fs, obj_get k gs with
  | Some v, Some w => same_public k v w
  | None, None => True
  | _, _ => False
  end.
Proof.
  induction 1 as [|[a v] [b w] fs gs [Hk Hp] _ IH]; [done|]. cbn in *. subst b.
  by destruct (String.eqb_spec a k) as [->|].
Qed.

Lemma same_fields_sanitize fs gs :
  same_fields fs gs → sanitizeDigestEnvelope (VObj fs) = sanitizeDigestEnvelope (VObj gs).
Proof.
  intros H. apply sanitize_view.
  - intros k Hk. destruct (sensitive_envelope_keys k) as [Hs Hp]; [set_solver|].
    pose proof (same_fields_get k fs gs H) as Hg.
    destruct (obj_get k fs), (obj_get k gs); try done. cbn. by eapply same_public_str_of.
  - intros k _. by rewrite (same_fields_keys _ _ H).
Qed.

Lemma same_public_sanitize key v w :
  same_public key v w → sensitive key = true → sanitizeDigestEnvelope v = sanitizeDigestEnvelope w.
Proof. destruct 1; intros; try done. by apply same_fields_sanitize. Qed.

Lemma redactAny_same_public v key w : same_public key v w → redactAny v key = redactAny w key.
Proof.
  revert key w. induction v as [| |b|n|s|xs IH|fs IH|t|o] using val_rect_nested; intros key w H;
    (destruct (sensitive key) eqn:Hk;
     [rewrite !(redactAny_sensitive _ _ Hk); by rewrite (same_public_sanitize _ _ _ H Hk)|]);
    inversion H as [? ? ? Hs|? ? Hl|? ? ys Hxs|? ? gs Hfs]; subst; try done; try congruence.
  - rewrite !redactAny_arr by done. f_equal. clear H.
    induction Hxs as [|x y xs ys Hxy _ IHxs]; [done|]. inversion IH as [|? ? Hx IH']; subst. cbn.
    by rewrite (Hx key y Hxy), (IHxs IH').
  - rewrite !redactAny_obj by done. rewrite (same_fields_sanitize _ _ Hfs).
    replace ((λ kv, (kv.1, redact_field kv)) <$> gs) with ((λ kv, (kv.1, redact_field kv)) <$> fs); [done|].
    clear H. induction Hfs as [|[k x] [k' y] fs gs [Hkk Hxy] _ IHfs]; [done|].
    inversion IH as [|? ? Hx IH']; subst. cbn in *. subst k'. rewrite (IHfs IH').
    unfold redact_field. cbn. by rewrite (same_public_undef _ _ _ Hxy), (Hx k y Hxy).
Qed.

(** ** Properties *)

Definition json (s : string) : val := default VUndef (json_parse (quoted s)).

(** The cases of src/spec/conformance/redaction.json. *)
Example fixture_redaction :
  redactMetadata (json "{'apiToken':'token_fixture_value','authorization':'Bearer fixture-token','contactEmail':'member@example.invalid','phoneNumber':'+15550100','safeCount':2,'stableRef':'usr_fixture_123','nested':{'secretNote':'fixture secret','workspaceRef':'wks_fixture_456'},'tags':['audit','invite']}")
  = Ret (json "{'apiToken':'[redacted]','authorization':'[redacted]','contactEmail':'[redacted]','nested':{'secretNote':'[redacted]','workspaceRef':'wks_fixture_456'},'phoneNumber':'[redacted]','safeCount':2,'stableRef':'usr_fixture_123','tags':['audit','invite']}").
Proof. vm_compute. reflexivity. Qed.

Example fixture_redaction_envelope :
  redactMetadata (json "{'customerEmail':{'algorithm':'hmac-sha256','digest':'sha256:aaaaaaaaaaaaaaaaaaaaaaaaaaaaaaaaaaaaaaaaaaaaaaaaaaaaaaaaaaaaaaaa','keyVersion':'tenant-key-7','raw':'buyer@example.com','hmacKey':'test-hmac-secret'},'contactEmailInvalidDigest':{'algorithm':'hmac-sha256','digest':'sha256:not-a-digest','keyVersion':'tenant-key-7','raw':'buyer@example.com'}}")
  = Ret (json "{'contactEmailInvalidDigest':'[redacted]','customerEmail':{'algorithm':'hmac-sha256','digest':'sha256:aaaaaaaaaaaaaaaaaaaaaaaaaaaaaaaaaaaaaaaaaaaaaaaaaaaaaaaaaaaaaaaa','keyVersion':'tenant-key-7'}}").
Proof. vm_compute. reflexivity. Qed.

(** Redacted metadata is canonical protocol JSON in which every sensitive key,
    at any depth, holds the marker or a bare digest envelope. *)
Theorem redactMetadata_redacted v w :
  nums_wf v = true → redactMetadata v = Ret w → redacted "" w ∧ canonical w.
Proof.
  intros Hn H. split; [by eapply redactAny_redacted|by eapply redactAny_canonical].
Qed.

Lemma redactMetadata_redacted_witness :
  redacted "" (VObj [("n", VArr [VNull]); ("userEmail", REDACTED)]) ∧
  canonical (VObj [("n", VArr [VNull]); ("userEmail", REDACTED)]).
Proof.
  apply (redactMetadata_redacted (VObj [("userEmail", VObj [("x", VStr "me@x")]); ("n", VArr [VUndef])]));
    vm_compute; reflexivity.
Defined.

(** C40. Nothing else about the values under sensitive keys is revealed: metadata
    that differ only there, in values that are not digest envelopes (or are
    envelopes with the same public fields), redact to the same result. *)
Theorem redactMetadata_noninterference v w :
  same_public "" v w → redactMetadata v = redactMetadata w.
Proof. apply redactAny_same_public. Qed.

Lemma redactMetadata_noninterference_witness :
  redactMetadata (VObj [("password", VStr "hunter2"); ("role", VStr "viewer")]) =
  redactMetadata (VObj [("password", VArr [VObj [("a", VNull)]]); ("role", VStr "viewer")]).
Proof.
  apply redactMetadata_noninterference. apply sp_obj.
  apply Forall2_cons_2; [split; [done|]|apply Forall2_cons_2; [split; [done|]|apply Forall2_nil_2]].
  - apply sp_hidden; vm_compute; reflexivity.
  - apply sp_leaf. exact I.
Defined.

(** Redacting JSON metadata twice changes nothing: a redacted document can be
    sent through the recorder again and keeps its hash. *)
Theorem redactMetadata_idempotent v w :
  is_json v = true → redactMetadata v = Ret w → redactMetadata w = Ret w.
Proof. apply redactAny_idempotent. Qed.

Lemma redactMetadata_idempotent_witness :
  redactMetadata (VObj [("apiKey", REDACTED); ("b", VNull)]) = Ret (VObj [("apiKey", REDACTED); ("b", VNull)]).
Proof.
  apply (redactMetadata_idempotent (VObj [("b", VNull); ("apiKey", VInt 7)])); vm_compute; reflexivity.
Defined.
