(* ===== verification/Event.v ===== *)
(** * Events and edges (sdks/typescript/src/index.ts: createAuditEvent,
    createEvidenceEdge and their helpers, hashIdempotencyKey)

    The constructors that turn host input into protocol evidence. Input fields
    that the code inspects at run time are arbitrary JavaScript values;
    [dataCategories], which it does not inspect, has its declared type. The
    environment ([randomUUID], the clock) is passed as arguments. *)

From S2P Require Import Prelude Regex JsNum JsVal Dates JsonText Hash Sha256 Canonical.
From S2P Require Import Redact AuditChain.

(** [new Date(value).getTime()] of values that are neither strings nor numbers
    converts objects with the host's rules. *)
Class Host := {
  host_dates :: DateHost;
  date_of_object : val → option Z;
  date_string : option Z → string;
}.

(** [String(value)], the conversion [RegExp.prototype.test] applies to its
    argument. Objects are data (no property is callable), so one that has a
    property named [toString] cannot be converted. *)
Fixpoint js_String `{Host} (value : val) : exc string :=
  match value with
  | VUndef => Ret "undefined"
  | VNull => Ret "null"
  | VBool b => Ret (if b then "true" else "false")
  | VNum n => Ret (of_chars (num_to_chars n))
  | VStr s => Ret s
  | VArr xs =>
      texts ← mapE (λ x, match x with VUndef | VNull => Ret "" | _ => js_String x end) xs;
      Ret (join "," texts)
  | VObj fs =>
      if obj_has "toString" fs then Throw "Cannot convert object to primitive value"
      else Ret "[object Object]"
  | VDate t => Ret (date_string t)
  | VOther repr => Ret repr
  end.

(** [pattern.test(value)] *)
Definition regex_test `{Host} (r : re) (value : val) : exc bool :=
  s ← js_String value; Ret (re_test r s).

(** Dotted lowercase words: at least two segments, each a letter followed by
    letters and digits. *)
Definition ACTION_PATTERN : re :=
  let segment := Seq (Cls lower_az) (Star (Cls (cls_or lower_az digit))) in
  Seq segment (plus (Seq (lit ".") segment)).

Definition EVIDENCE_ENTITY_TYPES : list string :=
  ["tenant"; "principal"; "actor"; "activity"; "change"; "revision"; "assertion"; "record";
   "evidence_commit"; "data_subject"; "resource"; "data_category"; "purpose"; "policy"; "consent";
   "processor"; "system"; "repository"; "branch"; "commit"; "pull_request"; "file"; "diff_hunk";
   "agent_session"; "activity_episode"; "tool_call"; "ci_run"; "artifact"; "deployment";
   "runtime_event"; "subject_request"; "export_bundle"].

Definition EVIDENCE_EDGE_RELATIONS : list string :=
  ["caused_by"; "part_of"; "read"; "modified"; "created"; "deleted"; "derived_from"; "reviewed_by";
   "approved_by"; "waived_by"; "built_by"; "deployed_as"; "observed_in"; "attests_to"; "exports";
   "satisfies_policy"; "violates_policy"; "subject_of"; "processed_for"; "retained_under"; "sent_to";
   "has_activity"; "has_input"; "has_output"; "has_assertion"; "resulted_in"; "performed_by"; "used";
   "generated"; "based_on"; "asserts_about"; "retracts"; "corrects"; "supersedes"; "disputes";
   "confirms"; "compensates"].

(** [list.includes(value)] *)
Definition includes (l : list string) (value : val) : bool := existsb (λ s, strict_eq (VStr s) value) l.

Definition isEvidenceEntityType (value : val) : bool := includes EVIDENCE_ENTITY_TYPES value.
Definition isEvidenceEdgeRelation (value : val) : bool := includes EVIDENCE_EDGE_RELATIONS value.

#[global] Arguments isEvidenceEntityType : simpl never.
#[global] Arguments isEvidenceEdgeRelation : simpl never.

Definition assertNonEmpty (value : val) (field : string) : exc unit :=
  guard_exc (non_blank_string value) (field +:+ " is required").

Definition assertPositiveInteger (value : val) (field : string) : exc unit :=
  guard_exc (match value with
             | VNum n => match num_int n with Some z => (1 <=? z)%Z | None => false end
             | _ => false
             end) (field +:+ " must be a positive integer").

(** TimeClip: a time value of at most 8.64e15 ms, truncated to an integer. *)
Definition time_clip (n : num) : option Z :=
  match n with
  | NFin m e =>
      let t := if (0 <=? e)%Z then (m * 10 ^ e)%Z else Z.quot m (10 ^ (- e)) in
      if (Z.abs t <=? 8640000000000000)%Z then Some t else None
  | _ => None
  end.

(** [key: value] assigned only when the value is truthy. *)
Definition if_truthy (key : string) (value : val) : list (string * val) :=
  if truthy value then [(key, value)] else [].

Definition cleanPrincipal (value : val) : exc val :=
  display ← vget value "display"; type ← vget value "type"; id ← vget value "id";
  Ret (VObj ([("type", type); ("id", id)] ++ if_truthy "display" display)).

Definition cleanResource (value : val) : exc val :=
  display ← vget value "display"; type ← vget value "type"; id ← vget value "id";
  Ret (VObj ([("type", type); ("id", id)] ++ if_truthy "display" display)).

Definition cleanScope (value : val) : exc (option val) :=
  tenantId ← vget value "tenantId";
  workspaceId ← vget value "workspaceId";
  environment ← vget value "environment";
  let scope := if_truthy "tenantId" tenantId ++ if_truthy "workspaceId" workspaceId
               ++ if_truthy "environment" environment in
  Ret (if (0 <? length scope)%nat then Some (VObj scope) else None).

(** [input.scope ? cleanScope(input.scope) : undefined] *)
Definition optional_scope (value : val) : exc (option val) :=
  if truthy value then cleanScope value else Ret None.

Definition cleanEvidenceEntity (value : val) (field : string) : exc val :=
  _ ← assertNonEmpty (vget_opt value "type") (field +:+ ".type");
  _ ← assertNonEmpty (vget_opt value "id") (field +:+ ".id");
  type ← vget value "type";
  _ ← guard_exc (isEvidenceEntityType type)
        (field +:+ ".type must be a supported evidence graph entity type");
  id ← vget value "id";
  actorType ← vget value "actorType";
  resourceType ← vget value "resourceType";
  version ← vget value "version";
  pathHash ← vget value "pathHash";
  Ret (VObj ([("type", type); ("id", id)] ++ if_truthy "actorType" actorType
             ++ if_truthy "resourceType" resourceType ++ if_truthy "version" version
             ++ if_truthy "pathHash" pathHash)).

(** [[...new Set(xs)]]: the first occurrence of each element. *)
Fixpoint set_list (seen xs : list string) : list string :=
  match xs with
  | [] => []
  | x :: xs => if bool_decide (x ∈ seen) then set_list seen xs else x :: set_list (x :: seen) xs
  end.

Definition sorted_set (xs : list string) : list string := sort_by String.leb (set_list [] xs).

Record AuditEventInput := {
  in_id : val; in_occurredAt : val; in_actor : val; in_action : val; in_target : val; in_scope : val;
  in_requestId : val; in_purpose : val; in_lawfulBasis : val; in_dataCategories : option (list string);
  in_retention : val; in_metadata : val;
}.

Section Event.
Context `{Host}.

(** [(value instanceof Date ? value : new Date(value)).getTime()] *)
Definition date_value (value : val) : option Z :=
  match value with
  | VDate t => t
  | VStr s => date_parse s
  | VNum n => time_clip n
  | VBool b => Some (if b then 1 else 0)%Z
  | VNull => Some 0%Z
  | VUndef => None
  | VArr _ | VObj _ | VOther _ => date_of_object value
  end.

Definition normalizeDate (value : val) : exc string :=
  match date_value value with
  | Some t => Ret (toISOString t)
  | None => Throw "occurredAt must be a valid date"
  end.

(** [uuid] is what [randomUUID()] returns, [now] what the clock shows. *)
Definition createAuditEvent (uuid : string) (now : Z) (input : AuditEventInput) : exc val :=
  _ ← assertNonEmpty (vget_opt (in_actor input) "id") "actor.id";
  _ ← assertNonEmpty (vget_opt (in_actor input) "type") "actor.type";
  _ ← assertNonEmpty (in_action input) "action";
  _ ← assertNonEmpty (vget_opt (in_target input) "id") "target.id";
  _ ← assertNonEmpty (vget_opt (in_target input) "type") "target.type";
  _ ← guard_exc (match in_action input with VStr s => re_test ACTION_PATTERN s | _ => false end)
        "action must use dotted lowercase protocol form";
  occurredAt ← normalizeDate (nullish_or (in_occurredAt input) (VDate (Some now)));
  actor ← cleanPrincipal (in_actor input);
  target ← cleanResource (in_target input);
  metadata ← redactMetadata (nullish_or (in_metadata input) (VObj []));
  scope ← optional_scope (in_scope input);
  Ret (VObj ([("id", nullish_or (in_id input) (VStr ("evt_" +:+ uuid)));
              ("schemaVersion", VStr SCHEMA_VERSION);
              ("occurredAt", VStr occurredAt);
              ("actor", actor);
              ("action", in_action input);
              ("target", target);
              ("metadata", metadata)]
             ++ opt_field "scope" scope
             ++ if_truthy "requestId" (in_requestId input)
             ++ if_truthy "purpose" (in_purpose input)
             ++ if_truthy "lawfulBasis" (in_lawfulBasis input)
             ++ match in_dataCategories input with
                | Some ((_ :: _) as categories) =>
                    [("dataCategories", VArr (VStr <$> sorted_set categories))]
                | _ => []
                end
             ++ if_truthy "retention" (in_retention input))).

Definition createEvidenceEdge (uuid : string) (now : Z) (input : val) : exc val :=
  input_from ← vget input "from";
  from ← cleanEvidenceEntity input_from "from";
  input_to ← vget input "to";
  to ← cleanEvidenceEntity input_to "to";
  relation ← vget input "relation";
  _ ← guard_exc (isEvidenceEdgeRelation relation)
        "relation must be a supported evidence graph relation";
  id ← vget input "id";
  input_occurredAt ← vget input "occurredAt";
  occurredAt ← normalizeDate (nullish_or input_occurredAt (VDate (Some now)));
  input_metadata ← vget input "metadata";
  metadata ← redactMetadata (nullish_or input_metadata (VObj []));
  input_scope ← vget input "scope";
  scope ← optional_scope input_scope;
  Ret (VObj ([("id", nullish_or id (VStr ("edge_" +:+ uuid)));
              ("schemaVersion", VStr EDGE_SCHEMA_VERSION);
              ("occurredAt", VStr occurredAt);
              ("from", from);
              ("relation", relation);
              ("to", to);
              ("metadata", metadata)]
             ++ opt_field "scope" scope)).

(** A created event read back as input. *)
Definition as_input (event : val) : AuditEventInput := {|
  in_id := vget_opt event "id"; in_occurredAt := vget_opt event "occurredAt";
  in_actor := vget_opt event "actor"; in_action := vget_opt event "action";
  in_target := vget_opt event "target"; in_scope := vget_opt event "scope";
  in_requestId := vget_opt event "requestId"; in_purpose := vget_opt event "purpose";
  in_lawfulBasis := vget_opt event "lawfulBasis";
  in_dataCategories := match vget_opt event "dataCategories" with
                       | VArr xs => Some (omap str_of xs) | _ => None end;
  in_retention := vget_opt event "retention"; in_metadata := vget_opt event "metadata" |}.
End Event.

Section Idempotency.
Context `{Hasher}.

Definition nul : string := String (ascii_of_nat 0) "".

Definition hashIdempotencyKey (tenantId idempotencyKey : val) : exc string :=
  _ ← assertNonEmpty tenantId "tenantId";
  _ ← assertNonEmpty idempotencyKey "idempotencyKey";
  Ret (sha256Hex (default "" (str_of tenantId) +:+ nul +:+ default "" (str_of idempotencyKey))).
End Idempotency.

(** ** Lookups in built objects *)

Lemma obj_get_app k fs gs :
  obj_get k (fs ++ gs) = match obj_get k fs with Some v => Some v | None => obj_get k gs end.
Proof. induction fs as [|[a v] fs IH]; [done|]. cbn. by destruct (String.eqb a k). Qed.

Lemma obj_get_if_truthy k k' v :
  obj_get k (if_truthy k' v) = if String.eqb k' k then (if truthy v then Some v else None) else None.
Proof. unfold if_truthy. destruct (truthy v); cbn; by destruct (String.eqb k' k). Qed.

Lemma obj_get_opt_field k k' o :
  obj_get k (opt_field k' o) = if String.eqb k' k then o else None.
Proof. destruct o; cbn; by destruct (String.eqb k' k). Qed.

Lemma option_match_id {A} (o : option A) : match o with Some a => Some a | None => None end = o.
Proof. by destruct o. Qed.

Lemma if_truthy_again k v :
  if_truthy k (default VUndef (if truthy v then Some v else None)) = if_truthy k v.
Proof. unfold if_truthy. destruct (truthy v) eqn:E; cbn; [by rewrite E|done]. Qed.

(** Evaluates lookups in objects made of literal and optional properties. *)
Ltac lookup_fields :=
  cbn [vget vget_opt mbind exc_mbind];
  rewrite ?obj_get_app, ?obj_get_if_truthy, ?obj_get_opt_field; cbn;
  rewrite ?obj_get_app, ?obj_get_if_truthy, ?obj_get_opt_field; cbn.

(** Splits a computation into its steps, keeping each as a hypothesis. *)
Ltac steps_of H :=
  repeat (let x := fresh "x" in let E := fresh "E" in
          apply bind_ret in H as (x & E & H); cbn beta in H).

(** ** Helpers are idempotent *)

Lemma assertNonEmpty_ret v f : assertNonEmpty v f = Ret tt ↔ non_blank_string v = true.
Proof. apply guard_ret. Qed.

Lemma non_blank_nonnull v k : non_blank_string (vget_opt v k) = true → vget v k = Ret (vget_opt v k).
Proof. by destruct v. Qed.

Lemma cleanPrincipal_fixed v w : cleanPrincipal v = Ret w → cleanPrincipal w = Ret w.
Proof.
  unfold cleanPrincipal. intros E. steps_of E. injection E as <-. lookup_fields.
  by rewrite if_truthy_again.
Qed.

Lemma cleanPrincipal_get v w :
  cleanPrincipal v = Ret w →
  vget_opt w "id" = vget_opt v "id" ∧ vget_opt w "type" = vget_opt v "type".
Proof.
  unfold cleanPrincipal. intros E. steps_of E. injection E as <-. cbn.
  destruct v; cbn in *; inv_ret; done.
Qed.

Lemma cleanScope_fixed v w : cleanScope v = Ret (Some w) → truthy w = true ∧ cleanScope w = Ret (Some w).
Proof.
  unfold cleanScope. intros E. steps_of E.
  destruct (0 <? _)%nat eqn:El in E; [|done]. injection E as <-. split; [done|].
  unfold if_truthy in *.
  destruct (truthy x) eqn:?, (truthy x0) eqn:?, (truthy x1) eqn:?; cbn in *; try done;
    repeat match goal with Hx : truthy ?y = _ |- _ => rewrite Hx; clear Hx end; done.
Qed.

Lemma optional_scope_fixed v o :
  optional_scope v = Ret o → optional_scope (default VUndef o) = Ret o.
Proof.
  unfold optional_scope. destruct (truthy v); [|by intros [= <-]].
  destruct o as [w|]; [|done]. intros [Ht Hc]%cleanScope_fixed. cbn. by rewrite Ht.
Qed.

Lemma set_list_spec seen xs :
  NoDup (set_list seen xs) ∧ ∀ x, x ∈ set_list seen xs ↔ x ∈ xs ∧ x ∉ seen.
Proof.
  revert seen. induction xs as [|y xs IH]; intros seen; cbn.
  { split; [constructor|]. intros x. rewrite elem_of_nil. tauto. }
  case_bool_decide as Hy.
  - destruct (IH seen) as [Hn Hx]. split; [done|]. intros x. rewrite Hx, elem_of_cons.
    split; [tauto|]. intros [[->|?] ?]; tauto.
  - destruct (IH (y :: seen)) as [Hn Hx]. split.
    + constructor; [|done]. rewrite Hx. set_solver.
    + intros x. rewrite elem_of_cons, Hx. destruct (decide (x = y)) as [->|]; set_solver.
Qed.

Lemma set_list_id xs : NoDup xs → set_list [] xs = xs.
Proof.
  assert (∀ seen, NoDup xs → (∀ x, x ∈ xs → x ∉ seen) → set_list seen xs = xs) as Hgen.
  2:{ intros Hn. apply Hgen; [done|]. by intros x _ ?%elem_of_nil. }
  induction xs as [|x xs IH]; intros seen Hnd Hs; [done|]. cbn.
  apply NoDup_cons in Hnd as [Hx Hnd]. rewrite bool_decide_eq_false_2 by set_solver.
  f_equal. apply IH; [done|]. intros y Hy. rewrite not_elem_of_cons. split; [|set_solver].
  by intros ->.
Qed.

Lemma sorted_set_spec xs :
  sortedb String.leb (sorted_set xs) ∧ NoDup (sorted_set xs) ∧ ∀ x, x ∈ sorted_set xs ↔ x ∈ xs.
Proof.
  destruct (set_list_spec [] xs) as [Hn Hx]. unfold sorted_set. split_and!.
  - apply sort_by_sorted; [apply string_leb_total|apply string_compare_trans_le].
  - by rewrite sort_by_perm.
  - intros x. rewrite elem_of_sort_by, Hx. set_solver.
Qed.

Lemma sorted_set_idem xs : sorted_set (sorted_set xs) = sorted_set xs.
Proof.
  destruct (sorted_set_spec xs) as (Hs & Hn & _). unfold sorted_set at 1.
  rewrite set_list_id by done. by apply sort_by_id.
Qed.

Lemma omap_str_of (l : list string) : omap str_of (VStr <$> l) = l.
Proof. induction l as [|s l IH]; [done|]. cbn. by rewrite IH. Qed.

Lemma redact_not_null v w : is_json v = true → v ≠ VNull → redactAny v "" = Ret w → w ≠ VNull.
Proof.
  assert (sensitive "" = false) as Hs by (vm_compute; reflexivity).
  intros Hj Hv H. destruct v as [| | |n|s|xs|fs|t|o]; try done.
  - by injection H as <-.
  - cbn in H. destruct (is_finite n); [|done]. by injection H as <-.
  - by injection H as <-.
  - rewrite redactAny_arr in H by done. by apply bind_ret in H as (ys & _ & [= <-]).
  - rewrite redactAny_obj in H by done. destruct (sanitizeDigestEnvelope _) eqn:E.
    + injection H as <-. apply sanitize_envelope in E. by destruct E.
    + by apply bind_ret in H as (ys & _ & [= <-]).
Qed.

(** ** Created events *)

Section Created.
Context `{Host}.

(** The properties of a created event, given the steps of the constructor. *)
Lemma createAuditEvent_ret uuid now inp e :
  createAuditEvent uuid now inp = Ret e ↔
  ∃ action t actor target metadata scope,
    non_blank_string (vget_opt (in_actor inp) "id") = true ∧
    non_blank_string (vget_opt (in_actor inp) "type") = true ∧
    non_blank_string (vget_opt (in_target inp) "id") = true ∧
    non_blank_string (vget_opt (in_target inp) "type") = true ∧
    in_action inp = VStr action ∧ blank action = false ∧ re_test ACTION_PATTERN action = true ∧
    date_value (nullish_or (in_occurredAt inp) (VDate (Some now))) = Some t ∧
    cleanPrincipal (in_actor inp) = Ret actor ∧ cleanResource (in_target inp) = Ret target ∧
    redactMetadata (nullish_or (in_metadata inp) (VObj [])) = Ret metadata ∧
    optional_scope (in_scope inp) = Ret scope ∧
    e = VObj ([("id", nullish_or (in_id inp) (VStr ("evt_" +:+ uuid)));
               ("schemaVersion", VStr SCHEMA_VERSION); ("occurredAt", VStr (toISOString t));
               ("actor", actor); ("action", VStr action); ("target", target); ("metadata", metadata)]
             ++ opt_field "scope" scope
             ++ if_truthy "requestId" (in_requestId inp)
             ++ if_truthy "purpose" (in_purpose inp)
             ++ if_truthy "lawfulBasis" (in_lawfulBasis inp)
             ++ match in_dataCategories inp with
                | Some ((_ :: _) as categories) =>
                    [("dataCategories", VArr (VStr <$> sorted_set categories))]
                | _ => []
                end
             ++ if_truthy "retention" (in_retention inp)).
Proof.
  unfold createAuditEvent, normalizeDate. split.
  - intros E. steps_of E. repeat match goal with u : unit |- _ => destruct u end.
    repeat match goal with Ha : assertNonEmpty _ _ = Ret tt |- _ => apply assertNonEmpty_ret in Ha end.
    repeat match goal with Hg : guard_exc _ _ = Ret tt |- _ => apply guard_ret in Hg end.
    destruct (date_value _) as [t|] eqn:Et; [|done]. injection E as <-.
    destruct (in_action inp) as [| | | |action| | | |] eqn:Ea; try done.
    match goal with Hd : Ret _ = Ret _ |- _ => injection Hd as <- end.
    exists action, t. do 4 eexists. split_and!; try done. cbn in *. by bool_prop.
  - intros (action & t & actor & target & metadata & scope & H1 & H2 & H3 & H4 & Ha & Hb & Hp & Ht &
            Hactor & Htarget & Hmeta & Hscope & ->).
    rewrite (proj2 (assertNonEmpty_ret _ _) H1), (proj2 (assertNonEmpty_ret _ _) H2); cbn.
    rewrite Ha, (proj2 (assertNonEmpty_ret (VStr action) _)) by (cbn; by rewrite Hb). cbn.
    rewrite (proj2 (assertNonEmpty_ret _ _) H3), (proj2 (assertNonEmpty_ret _ _) H4); cbn.
    rewrite Hp; cbn. rewrite Ht; cbn. rewrite Hactor; cbn. rewrite Htarget; cbn.
    rewrite Hmeta; cbn. by rewrite Hscope.
Qed.

Definition category_field (categories : option (list string)) : list (string * val) :=
  match categories with
  | Some ((_ :: _) as categories) => [("dataCategories", VArr (VStr <$> sorted_set categories))]
  | _ => []
  end.

Definition kept (v : val) : val := default VUndef (if truthy v then Some v else None).

Lemma obj_get_categories k c :
  obj_get k (category_field c) =
  if String.eqb "dataCategories" k then
    match c with Some ((_ :: _) as c) => Some (VArr (VStr <$> sorted_set c)) | _ => None end
  else None.
Proof. destruct c as [[|s c]|]; cbn [category_field obj_get]; by destruct (String.eqb "dataCategories" k). Qed.

Lemma as_input_created id ver occ actor action target metadata scope req purp law cats ret :
  as_input (VObj ([("id", id); ("schemaVersion", ver); ("occurredAt", occ); ("actor", actor);
                   ("action", action); ("target", target); ("metadata", metadata)]
             ++ opt_field "scope" scope ++ if_truthy "requestId" req ++ if_truthy "purpose" purp
             ++ if_truthy "lawfulBasis" law ++ category_field cats ++ if_truthy "retention" ret)) =
  {| in_id := id; in_occurredAt := occ; in_actor := actor; in_action := action; in_target := target;
     in_scope := default VUndef scope; in_requestId := kept req; in_purpose := kept purp;
     in_lawfulBasis := kept law;
     in_dataCategories := match cats with Some ((_ :: _) as c) => Some (sorted_set c) | _ => None end;
     in_retention := kept ret; in_metadata := metadata |}.
Proof.
  unfold as_input, vget_opt.
  rewrite !obj_get_app, !obj_get_if_truthy, !obj_get_opt_field, !obj_get_categories. cbn -[sorted_set omap fmap].
  unfold kept. f_equal; try (by destruct scope); try (by destruct (truthy _)).
  destruct cats as [[|c cats]|]; [done| |done]. 
  change (Some (omap str_of (VStr <$> sorted_set (c :: cats))) = Some (sorted_set (c :: cats))).
  by rewrite omap_str_of.
Qed.

Lemma category_field_again cats :
  category_field (match cats with Some ((_ :: _) as c) => Some (sorted_set c) | _ => None end)
  = category_field cats.
Proof.
  destruct cats as [[|c cats]|]; try done. cbn [category_field].
  destruct (sorted_set (c :: cats)) as [|d l] eqn:E.
  - destruct (sorted_set_spec (c :: cats)) as (_ & _ & Hx). rewrite E in Hx.
    assert (c ∈ []) as []%elem_of_nil by (apply Hx; left).
  - by rewrite <- E, sorted_set_idem.
Qed.

Lemma createAuditEvent_again uuid now inp e uuid' now' :
  createAuditEvent uuid now inp = Ret e →
  (∀ t, date_value (nullish_or (in_occurredAt inp) (VDate (Some now))) = Some t →
        (min_time ≤ t ≤ max_time)%Z) →
  is_json (nullish_or (in_metadata inp) (VObj [])) = true →
  createAuditEvent uuid' now' (as_input e) = Ret e.
Proof.
  intros (action & t & actor & target & metadata & scope & H1 & H2 & H3 & H4 & Ha & Hb & Hp & Ht &
          Hactor & Htarget & Hmeta & Hscope & ->)%createAuditEvent_ret Hrange Hj.
  fold (category_field (in_dataCategories inp)). rewrite as_input_created.
  destruct (cleanPrincipal_get _ _ Hactor) as [Hi Hty].
  destruct (cleanPrincipal_get _ _ Htarget) as [Hi' Hty'].
  assert (redactMetadata metadata = Ret metadata) as Hmeta' by (by eapply redactAny_idempotent).
  assert (nullish_or metadata (VObj []) = metadata) as Hmn.
  { assert (metadata ≠ VNull) as Hn.
    { eapply redact_not_null; [exact Hj| |exact Hmeta]. by destruct (in_metadata inp). }
    pose proof (canonical_not_undef _ (redactAny_canonical _ _ _ (is_json_nums _ Hj) Hmeta)).
    by destruct metadata. }
  apply createAuditEvent_ret. exists action, t, actor, target, metadata, scope.
  cbn [in_id in_occurredAt in_actor in_action in_target in_scope in_requestId in_purpose
       in_lawfulBasis in_dataCategories in_retention in_metadata].
  rewrite Hi, Hty, Hi', Hty', Hmn. split_and!; try done.
  - change (date_parse (toISOString t) = Some t). unfold date_parse. by rewrite parse_iso_toISOString by (by apply Hrange).
  - by apply cleanPrincipal_fixed in Hactor.
  - by apply cleanPrincipal_fixed in Htarget.
  - by apply optional_scope_fixed in Hscope.
  - unfold kept. rewrite !if_truthy_again.
    fold (category_field (match in_dataCategories inp with
                          | Some ((_ :: _) as c) => Some (sorted_set c) | _ => None end)).
    rewrite category_field_again. do 3 f_equal. by destruct (in_id inp).
Qed.

(** ** Created edges *)

Lemma cleanEvidenceEntity_ret v f w :
  cleanEvidenceEntity v f = Ret w ↔
  ∃ type id,
    vget v "type" = Ret (VStr type) ∧ isEvidenceEntityType (VStr type) = true ∧ blank type = false ∧
    vget v "id" = Ret (VStr id) ∧ blank id = false ∧
    w = VObj ([("type", VStr type); ("id", VStr id)]
              ++ if_truthy "actorType" (vget_opt v "actorType")
              ++ if_truthy "resourceType" (vget_opt v "resourceType")
              ++ if_truthy "version" (vget_opt v "version")
              ++ if_truthy "pathHash" (vget_opt v "pathHash")).
Proof.
  unfold cleanEvidenceEntity. split.
  - intros E. steps_of E. repeat match goal with u : unit |- _ => destruct u end.
    repeat match goal with Ha : assertNonEmpty _ _ = Ret tt |- _ => apply assertNonEmpty_ret in Ha end.
    repeat match goal with Hg : guard_exc _ _ = Ret tt |- _ => apply guard_ret in Hg end.
    assert (∀ k, vget v k = Ret (vget_opt v k)) as Hget by (intros k; by destruct v).
    rewrite Hget in *. repeat match goal with Hd : Ret _ = Ret _ |- _ => apply Ret_inj in Hd end.
    subst. apply non_blank_string_str in E0 as (type & Et & Ht).
    apply non_blank_string_str in E1 as (id & Ei & Hi). rewrite Et, Ei in *.
    exists type, id. rewrite ?Hget, ?Et, ?Ei. by split_and!.
  - intros (type & id & Ht & Hty & Hb & Hi & Hbi & ->).
    assert (∀ k, vget v k = Ret (vget_opt v k)) as Hget by (intros k; by destruct v).
    rewrite Hget in Ht, Hi. apply Ret_inj in Ht, Hi. rewrite !Hget, Ht, Hi.
    rewrite (proj2 (assertNonEmpty_ret (VStr type) _)) by (cbn; by rewrite Hb).
    rewrite (proj2 (assertNonEmpty_ret (VStr id) _)) by (cbn; by rewrite Hbi).
    cbn -[isEvidenceEntityType]. by rewrite Hty.
Qed.

Lemma cleanEvidenceEntity_fixed v f w : cleanEvidenceEntity v f = Ret w → ∀ f', cleanEvidenceEntity w f' = Ret w.
Proof.
  intros (type & id & _ & Ht & Hb & _ & Hi & ->)%cleanEvidenceEntity_ret f'.
  apply cleanEvidenceEntity_ret. exists type, id. split_and!; try done.
  generalize (vget_opt v "actorType"), (vget_opt v "resourceType"), (vget_opt v "version"),
    (vget_opt v "pathHash"). intros a r ve p.
  unfold vget_opt. rewrite !obj_get_app, !obj_get_if_truthy. cbn.
  by rewrite !option_match_id, !if_truthy_again.
Qed.

Lemma createEvidenceEdge_ret uuid now inp e :
  createEvidenceEdge uuid now inp = Ret e ↔
  ∃ vf vt from to relation id occ t meta metadata vscope scope,
    vget inp "from" = Ret vf ∧ cleanEvidenceEntity vf "from" = Ret from ∧
    vget inp "to" = Ret vt ∧ cleanEvidenceEntity vt "to" = Ret to ∧
    vget inp "relation" = Ret relation ∧ isEvidenceEdgeRelation relation = true ∧
    vget inp "id" = Ret id ∧ vget inp "occurredAt" = Ret occ ∧
    date_value (nullish_or occ (VDate (Some now))) = Some t ∧
    vget inp "metadata" = Ret meta ∧ redactMetadata (nullish_or meta (VObj [])) = Ret metadata ∧
    vget inp "scope" = Ret vscope ∧ optional_scope vscope = Ret scope ∧
    e = VObj ([("id", nullish_or id (VStr ("edge_" +:+ uuid)));
               ("schemaVersion", VStr EDGE_SCHEMA_VERSION); ("occurredAt", VStr (toISOString t));
               ("from", from); ("relation", relation); ("to", to); ("metadata", metadata)]
             ++ opt_field "scope" scope).
Proof.
  unfold createEvidenceEdge, normalizeDate. split.
  - intros E. steps_of E. repeat match goal with u : unit |- _ => destruct u end.
    repeat match goal with Hg : guard_exc _ _ = Ret tt |- _ => apply guard_ret in Hg end.
    destruct (date_value _) as [t|] eqn:Et; [|done]. injection E as <-.
    match goal with Hd : Ret _ = Ret _ |- _ => injection Hd as <- end.
    do 12 eexists. split_and!; done.
  - intros (vf & vt & from & to & relation & id & occ & t & meta & metadata & vscope & scope &
            H1 & H2 & H3 & H4 & H5 & H6 & H7 & H8 & H9 & H10 & H11 & H12 & H13 & ->).
    rewrite H1; cbn. rewrite H2; cbn. rewrite H3; cbn. rewrite H4; cbn. rewrite H5; cbn.
    rewrite H6; cbn. rewrite H7; cbn. rewrite H8; cbn. rewrite H9; cbn. rewrite H10; cbn.
    rewrite H11; cbn. rewrite H12; cbn. by rewrite H13.
Qed.

Lemma createEvidenceEdge_again uuid now inp e uuid' now' :
  createEvidenceEdge uuid now inp = Ret e →
  (∀ t, date_value (nullish_or (vget_opt inp "occurredAt") (VDate (Some now))) = Some t →
        (min_time ≤ t ≤ max_time)%Z) →
  is_json (nullish_or (vget_opt inp "metadata") (VObj [])) = true →
  createEvidenceEdge uuid' now' e = Ret e.
Proof.
  intros (vf & vt & from & to & relation & id & occ & t & meta & metadata & vscope & scope &
          H1 & H2 & H3 & H4 & H5 & H6 & H7 & H8 & H9 & H10 & H11 & H12 & H13 & ->)%createEvidenceEdge_ret Hrange Hj.
  assert (vget_opt inp "occurredAt" = occ) as Eo by (destruct inp; cbn in *; congruence).
  assert (vget_opt inp "metadata" = meta) as Em by (destruct inp; cbn in *; congruence).
  rewrite Eo in Hrange. rewrite Em in Hj. apply createEvidenceEdge_ret.
  exists from, to, from, to, relation, (nullish_or id (VStr ("edge_" +:+ uuid))),
    (VStr (toISOString t)), t, metadata, metadata, (default VUndef scope), scope.
  assert (redactMetadata metadata = Ret metadata) as Hmeta' by (by eapply redactAny_idempotent).
  assert (nullish_or metadata (VObj []) = metadata) as Hmn.
  { assert (metadata ≠ VNull) as Hn.
    { eapply redact_not_null; [exact Hj| |exact H11]. by destruct meta. }
    pose proof (canonical_not_undef _ (redactAny_canonical _ _ _ (is_json_nums _ Hj) H11)).
    by destruct metadata. }
  rewrite Hmn. split_and!; try done.
  - by eapply cleanEvidenceEntity_fixed.
  - by eapply cleanEvidenceEntity_fixed.
  - change (date_parse (toISOString t) = Some t). unfold date_parse.
    by rewrite parse_iso_toISOString by (by apply Hrange).
  - cbn [vget]. rewrite obj_get_app, obj_get_opt_field. by destruct scope.
  - by eapply optional_scope_fixed.
  - do 3 f_equal. by destruct id.
Qed.
End Created.

(** ** Idempotency keys *)

Lemma chars_nul_split a b a' b' :
  ascii_of_nat 0 ∉ chars a → ascii_of_nat 0 ∉ chars a' →
  a +:+ nul +:+ b = a' +:+ nul +:+ b' → a = a' ∧ b = b'.
Proof.
  revert a'. induction a as [|c a IH]; intros [|c' a'] Ha Ha' E.
  - by injection E.
  - injection E as E _. destruct Ha'. rewrite <- E. left.
  - injection E as E _. destruct Ha. rewrite E. left.
  - cbn in Ha, Ha'. apply not_elem_of_cons in Ha as [_ Ha], Ha' as [_ Ha'].
    rewrite !(string_app_cons _ _ _) in E. injection E as -> E.
    by destruct (IH a' Ha Ha' E) as [-> ->].
Qed.

Lemma hashIdempotencyKey_ret `{Hasher} t k h :
  hashIdempotencyKey t k = Ret h ↔
  ∃ tenant key, t = VStr tenant ∧ k = VStr key ∧ blank tenant = false ∧ blank key = false ∧
                h = sha256Hex (tenant +:+ nul +:+ key).
Proof.
  unfold hashIdempotencyKey. split.
  - intros E. apply bind_ret in E as ([] & Ht%assertNonEmpty_ret & E).
    apply bind_ret in E as ([] & Hk%assertNonEmpty_ret & [= <-]).
    apply non_blank_string_str in Ht as (tenant & -> & Ht).
    apply non_blank_string_str in Hk as (key & -> & Hk). eauto 10.
  - intros (tenant & key & -> & -> & Ht & Hk & ->).
    rewrite !(proj2 (assertNonEmpty_ret _ _)) by (cbn; by rewrite ?Ht, ?Hk). done.
Qed.

Lemma blank_app s1 s2 : blank (s1 +:+ s2) = blank s1 && blank s2.
Proof. unfold blank. by rewrite chars_app, forallb_app. Qed.

(** ** Properties *)

#[local] Instance demo_host : Host :=
  {| host_dates := {| legacy_date_parse := λ _, None |}; date_of_object := λ _, None; date_string := λ _, "Invalid Date" |}.

Definition fixture_input : AuditEventInput :=
  as_input (json "{'id':'evt_fixture_create_01','occurredAt':'2026-06-10T00:00:00Z','actor':{'type':'user','id':'usr_fixture_123'},'action':'org.member.invited','target':{'type':'organization','id':'org_fixture_123'},'scope':{'tenantId':'org_fixture_123','workspaceId':'wks_fixture_456','environment':'test'},'requestId':'req_fixture_789','purpose':'access_management','lawfulBasis':'contract','dataCategories':['account','access','account'],'retention':'security_1y','metadata':{'invitedEmail':'member@example.invalid','role':'viewer','nested':{'apiToken':'token_fixture_value','note':'stable-id-only'}}}").

(** src/spec/conformance/event-creation.json *)
Example fixture_event_creation :
  canonicalJson (default VUndef (exc_to_option (createAuditEvent "u" 0 fixture_input)))
  = canonicalJson fixture_event.
Proof. vm_compute. reflexivity. Qed.

(** An event is created exactly when the actor and target are identified, the
    action is in dotted lowercase form, the time is valid and the metadata can be
    redacted; every other input is rejected before anything is recorded. *)
Theorem createAuditEvent_accepts `{Host} uuid now inp :
  is_ret (createAuditEvent uuid now inp) = true ↔
  non_blank_string (vget_opt (in_actor inp) "id") = true ∧
  non_blank_string (vget_opt (in_actor inp) "type") = true ∧
  non_blank_string (vget_opt (in_target inp) "id") = true ∧
  non_blank_string (vget_opt (in_target inp) "type") = true ∧
  (∃ action, in_action inp = VStr action ∧ lang ACTION_PATTERN (chars action)) ∧
  is_Some (date_value (nullish_or (in_occurredAt inp) (VDate (Some now)))) ∧
  is_ret (redactMetadata (nullish_or (in_metadata inp) (VObj []))) = true.
Proof.
  rewrite is_ret_spec. setoid_rewrite createAuditEvent_ret. split.
  - intros (e & action & t & actor & target & metadata & scope & H1 & H2 & H3 & H4 & Ha & Hb & Hp & Ht &
            _ & _ & Hm & _). rewrite Ht, Hm. split_and!; try done.
    exists action. by rewrite <- re_test_spec.
  - intros (H1 & H2 & H3 & H4 & (action & Ha & Hp) & [t Ht] & [metadata Hm]%is_ret_spec).
    assert (∀ v, non_blank_string (vget_opt v "id") = true → ∃ w, cleanPrincipal v = Ret w) as Hclean.
    { intros v Hv. unfold cleanPrincipal. destruct v as [| | | | | |fs| |]; try done. cbn. by eexists. }
    destruct (Hclean _ H1) as [actor Hactor], (Hclean _ H3) as [target Htarget].
    assert (∃ scope, optional_scope (in_scope inp) = Ret scope) as [scope Hscope].
    { unfold optional_scope. destruct (truthy (in_scope inp)) eqn:E; [|by eexists].
      assert (∀ k, vget (in_scope inp) k = Ret (vget_opt (in_scope inp) k)) as Hget
        by (intros k; by destruct (in_scope inp)).
      unfold cleanScope. rewrite !Hget. cbn. by eexists. }
    eexists. exists action, t, actor, target, metadata, scope. split_and!; try done.
    + apply re_test_spec in Hp. destruct (blank action) eqn:Hb; [|done]. exfalso.
      apply re_test_spec in Hp. unfold ACTION_PATTERN in Hp.
      apply lang_seq_inv in Hp as (l1 & l2 & E & Hp & _).
      apply lang_seq_inv in Hp as (l3 & l4 & -> & (c & -> & Hc)%lang_cls_inv & _).
      unfold blank in Hb. rewrite E in Hb. cbn in Hb.
      unfold lower_az, in_range in Hc. unfold js_space in Hb.
      change (code "a") with 97%Z in *. change (code "z") with 122%Z in *. lia.
    + by apply re_test_spec.
Qed.

Lemma createAuditEvent_accepts_witness :
  is_ret (createAuditEvent "u" 0 fixture_input) = true.
Proof.
  apply createAuditEvent_accepts. split_and!; try (vm_compute; reflexivity).
  - exists "org.member.invited". split; [reflexivity|]. apply re_test_spec. vm_compute. reflexivity.
  - vm_compute. by eexists.
Defined.

(** Creating an event is idempotent: a created event, given back as input,
    yields the same event, whatever id and time the environment would supply. So
    an event can pass through the recorder again without changing its hash. *)
Theorem createAuditEvent_stable `{Host} uuid now inp e uuid' now' :
  createAuditEvent uuid now inp = Ret e →
  (∀ t, date_value (nullish_or (in_occurredAt inp) (VDate (Some now))) = Some t →
        (min_time ≤ t ≤ max_time)%Z) →
  is_json (nullish_or (in_metadata inp) (VObj [])) = true →
  createAuditEvent uuid' now' (as_input e) = Ret e.
Proof. apply createAuditEvent_again. Qed.

Definition fixture_created : val := default VUndef (exc_to_option (createAuditEvent "u" 0 fixture_input)).

Lemma createAuditEvent_stable_witness :
  createAuditEvent "v" 1 (as_input fixture_created) = Ret fixture_created.
Proof.
  apply (createAuditEvent_stable "u" 0 fixture_input fixture_created "v" 1).
  - vm_compute. reflexivity.
  - intros t Ht. vm_compute in Ht. injection Ht as <-. by vm_compute.
  - vm_compute. reflexivity.
Defined.

(** The same for evidence edges: created edges are fixed points of creation,
    with both entities and the relation in the public vocabulary. *)
Theorem createEvidenceEdge_stable `{Host} uuid now inp e uuid' now' :
  createEvidenceEdge uuid now inp = Ret e →
  (∀ t, date_value (nullish_or (vget_opt inp "occurredAt") (VDate (Some now))) = Some t →
        (min_time ≤ t ≤ max_time)%Z) →
  is_json (nullish_or (vget_opt inp "metadata") (VObj [])) = true →
  createEvidenceEdge uuid' now' e = Ret e ∧
  isEvidenceEntityType (vget_opt (vget_opt e "from") "type") = true ∧
  isEvidenceEntityType (vget_opt (vget_opt e "to") "type") = true ∧
  isEvidenceEdgeRelation (vget_opt e "relation") = true.
Proof.
  intros Hc Ht Hm. split; [by eapply createEvidenceEdge_again|].
  apply createEvidenceEdge_ret in Hc as (vf & vt & from & to & relation & id & occ & t & meta & metadata &
    vscope & scope & _ & H2 & _ & H4 & _ & H6 & _ & _ & _ & _ & _ & _ & _ & ->).
  apply cleanEvidenceEntity_ret in H2 as (ty & i & _ & Hty & _ & _ & _ & ->).
  apply cleanEvidenceEntity_ret in H4 as (ty' & i' & _ & Hty' & _ & _ & _ & ->). done.
Qed.

Definition demo_edge_input : val :=
  json "{'id':'edge_1','occurredAt':'2026-06-10T00:00:00Z','from':{'type':'commit','id':'c1','x':1},'relation':'built_by','to':{'type':'ci_run','id':'r1','version':'2'},'scope':{'tenantId':'a'},'metadata':{'token':1}}".
Definition demo_edge : val := default VUndef (exc_to_option (createEvidenceEdge "u" 0 demo_edge_input)).

Lemma createEvidenceEdge_stable_witness :
  createEvidenceEdge "v" 1 demo_edge = Ret demo_edge ∧
  isEvidenceEntityType (vget_opt (vget_opt demo_edge "from") "type") = true ∧
  isEvidenceEntityType (vget_opt (vget_opt demo_edge "to") "type") = true ∧
  isEvidenceEdgeRelation (vget_opt demo_edge "relation") = true.
Proof.
  apply (createEvidenceEdge_stable "u" 0 demo_edge_input demo_edge "v" 1).
  - vm_compute. reflexivity.
  - intros t Ht. vm_compute in Ht. injection Ht as <-. by vm_compute.
  - vm_compute. reflexivity.
Defined.

(** Idempotency keys are separated by tenant: for tenant ids without the NUL
    character, equal key hashes come from equal tenants and equal keys, or from
    a collision of the digest. *)
Theorem hashIdempotencyKey_separates `{Hasher} t k t' k' h :
  hashIdempotencyKey (VStr t) (VStr k) = Ret h → hashIdempotencyKey (VStr t') (VStr k') = Ret h →
  ascii_of_nat 0 ∉ chars t → ascii_of_nat 0 ∉ chars t' →
  (t = t' ∧ k = k') ∨ Collision [t +:+ nul +:+ k] [t' +:+ nul +:+ k'].
Proof.
  intros (? & ? & [= <-] & [= <-] & _ & _ & ->)%hashIdempotencyKey_ret
    (? & ? & [= <-] & [= <-] & _ & _ & Hh)%hashIdempotencyKey_ret Hn Hn'.
  destruct (decide (t +:+ nul +:+ k = t' +:+ nul +:+ k')) as [E|Hne].
  - left. by apply chars_nul_split in E.
  - right. eexists _, _. split_and!; [left|left|done|done].
Qed.

Lemma hashIdempotencyKey_separates_witness :
  ("a" = "a" ∧ "k" = "k") ∨ Collision ["a" +:+ nul +:+ "k"] ["a" +:+ nul +:+ "k"].
Proof.
  apply (hashIdempotencyKey_separates "a" "k" "a" "k" (sha256Hex ("a" +:+ nul +:+ "k")));
    [reflexivity|reflexivity|cbn; set_solver|cbn; set_solver].
Defined.

(** The separation needs the condition on tenant ids: the separator is not
    escaped, so a tenant id that contains it shares key hashes with a shorter
    tenant id, for every digest function. *)
Theorem hashIdempotencyKey_nul_ambiguous `{Hasher} a b c :
  blank a = false → blank c = false →
  hashIdempotencyKey (VStr (a +:+ nul +:+ b)) (VStr c) = hashIdempotencyKey (VStr a) (VStr (b +:+ nul +:+ c)) ∧
  is_ret (hashIdempotencyKey (VStr a) (VStr (b +:+ nul +:+ c))) = true.
Proof.
  intros Ha Hc.
  assert (hashIdempotencyKey (VStr a) (VStr (b +:+ nul +:+ c))
          = Ret (sha256Hex (a +:+ nul +:+ b +:+ nul +:+ c))) as ->.
  { apply hashIdempotencyKey_ret. eexists _, _. split_and!; try done.
    rewrite !blank_app, Hc. by rewrite !andb_false_r. }
  split; [|done]. apply hashIdempotencyKey_ret. eexists _, _. split_and!; try done.
  - rewrite blank_app, Ha. done.
  - by rewrite <- !string_app_assoc.
Qed.

Lemma hashIdempotencyKey_nul_ambiguous_witness :
  hashIdempotencyKey (VStr ("acme" +:+ nul +:+ "eu")) (VStr "k") =
  hashIdempotencyKey (VStr "acme") (VStr ("eu" +:+ nul +:+ "k")) ∧
  is_ret (hashIdempotencyKey (VStr "acme") (VStr ("eu" +:+ nul +:+ "k"))) = true.
Proof. apply hashIdempotencyKey_nul_ambiguous; reflexivity. Defined.
