(* ===== verification/Demo.v ===== *)
(** * A small host for witnesses

    A checksum that evaluates fast in place of SHA-256 (the laws of [Hasher] ask
    for the shape of digests only), and a host without legacy dates. *)

From S2P Require Import Prelude Regex JsVal Dates Hash Event.

(** Sixty-three [a] and the sum of the bytes modulo 16. *)
Definition toy_digest (bytes : list Z) : string :=
  of_chars (replicate 63 "a"%char ++ [nth (Z.to_nat (fold_left Z.add bytes 0 mod 16)%Z) (chars "0123456789abcdef") "f"%char]).

Definition toy_hasher : Hasher.
Proof.
  refine {| digest_hex := toy_digest |}. intros bytes. unfold toy_digest. generalize (Z.to_nat (fold_left Z.add bytes 0 mod 16)%Z).
  intros n. do 16 (destruct n as [|n]; [vm_compute; reflexivity|]). cbn [nth chars]. vm_compute. destruct n; reflexivity.
Defined.
Definition toy_dates : DateHost := {| legacy_date_parse := λ _, Some 0%Z |}.
Definition toy_host : Host := {| host_dates := toy_dates; date_of_object := λ _, None; date_string := λ _, "" |}.

#[local] Open Scope Z_scope.

(** UTF-8 of code units below 256, read back. *)
Fixpoint latin1 (bytes : list Z) : list ascii :=
  match bytes with
  | [] => []
  | b :: rest =>
      if (b <? 128)%Z then ascii_of_N (Z.to_N b) :: latin1 rest
      else match rest with
           | c :: rest => ascii_of_N (Z.to_N ((b - 192) * 64 + (c - 128))%Z) :: latin1 rest
           | [] => []
           end
  end.
Lemma latin1_utf8 s : of_chars (latin1 (utf8 s)) = s.
Proof.
  rewrite <- (of_chars_chars s) at 2. f_equal. unfold utf8. induction (chars s) as [|c l IH]; [done|].
  cbn [fmap list_fmap concat]. unfold utf8_char at 1. pose proof (code_range c) as Hr. unfold code in *.
  destruct (Z.ltb_spec (Z.of_N (N_of_ascii c)) 128) as [Hc|Hc]; cbn [app latin1].
  - rewrite (proj2 (Z.ltb_lt _ _) Hc), IH. f_equal. by rewrite N2Z.id, ascii_N_embedding.
  - pose proof (Z.div_mod (Z.of_N (N_of_ascii c)) 64 ltac:(lia)). pose proof (Z.mod_pos_bound (Z.of_N (N_of_ascii c)) 64 ltac:(lia)).
    rewrite (proj2 (Z.ltb_ge _ _)) by lia. rewrite IH. f_equal.
    replace (_ + _) with (Z.of_N (N_of_ascii c)) by lia. by rewrite N2Z.id, ascii_N_embedding.
Qed.
Definition latin1_decoder : TextDecoder := {| decode_utf8 := λ b, of_chars (latin1 b); decode_utf8_spec := latin1_utf8 |}.
