(* ===== verification/Commit.v ===== *)
(** * Evidence commits (sdks/typescript/src/index.ts: createEvidenceCommit,
    hashEvidenceCommit, verifyEvidenceCommits and their helpers)

    A commit binds an ordered manifest of records by a Merkle root and chains to
    the previous commit of its stream. [tree] is the hash tree that
    [computeRecordsRoot] computes level by level. *)

From S2P Require Import Prelude Regex JsNum JsVal Dates JsonText Hash Sha256 Canonical.
From S2P Require Import Keyed Redact AuditChain ChainModes Event.

#[local] Arguments num_of_Z : simpl never.

Inductive commit_reason : Type :=
| commit_unsupported_hash_algorithm
| commit_unsupported_canonicalization
| commit_unsupported_tree_algorithm
| commit_sequence_mismatch
| commit_previous_hash_mismatch
| record_count_mismatch
| records_root_mismatch
| commit_hash_mismatch
| invalid_member_manifest.

Definition commit_reason_name (why : commit_reason) : string :=
  match why with
  | commit_unsupported_hash_algorithm => "unsupported_hash_algorithm"
  | commit_unsupported_canonicalization => "unsupported_canonicalization"
  | commit_unsupported_tree_algorithm => "unsupported_tree_algorithm"
  | commit_sequence_mismatch => "sequence_mismatch"
  | commit_previous_hash_mismatch => "previous_hash_mismatch"
  | record_count_mismatch => "record_count_mismatch"
  | records_root_mismatch => "records_root_mismatch"
  | commit_hash_mismatch => "hash_mismatch"
  | invalid_member_manifest => "invalid_member_manifest"
  end.

(** [EvidenceCommitMember], after cleaning. *)
Record member := Member { index : Z; recordType : string; recordId : string; recordHash : string }.

#[global] Instance member_eq_dec : EqDecision member.
Proof. solve_decision. Defined.

Definition member_record_types : list string :=
  ["audit.record"; "evidence.edge.record"; "entity.revision.record"; "activity.record";
   "assertion.record"; "change.record"].

Definition isEvidenceCommitMemberRecordType (value : val) : bool := includes member_record_types value.

Definition isSha256Digest (value : val) : bool :=
  match value with VStr s => re_test SHA256_DIGEST_PATTERN s | _ => false end.

Definition cleanCommitMember (value : val) : exc member :=
  index ← vget value "index";
  match (match index with VNum n => num_int n | _ => None end) with
  | Some i =>
      _ ← guard_exc (0 <=? i)%Z "member index must be a non-negative integer";
      type ← vget value "recordType";
      _ ← guard_exc (isEvidenceCommitMemberRecordType type)
            "recordType must be a supported commit member record type";
      id ← vget value "recordId";
      _ ← assertNonEmpty id "recordId";
      hash ← vget value "recordHash";
      _ ← guard_exc (isSha256Digest hash) "recordHash must be a sha256 digest";
      Ret (Member i (default "" (str_of type)) (default "" (str_of id)) (default "" (str_of hash)))
  | None => Throw "member index must be a non-negative integer"
  end.

Definition member_identity (m : member) : string := recordType m +:+ nul +:+ recordId m.

(** The loop over the sorted members: indices from [expectedIndex], no identity
    twice. *)
Fixpoint check_members (expectedIndex : Z) (identities : list string) (members : list member) : exc unit :=
  match members with
  | [] => Ret tt
  | m :: members =>
      _ ← guard_exc (index m =? expectedIndex)%Z "member indices must be contiguous from zero";
      _ ← guard_exc (negb (bool_decide (member_identity m ∈ identities))) "duplicate commit member";
      check_members (expectedIndex + 1) (member_identity m :: identities) members
  end.

Definition index_leb (a b : member) : bool := (index a <=? index b)%Z.

Definition normalizeCommitMembers (members : val) : exc (list member) :=
  match members with
  | VArr ((_ :: _) as ms) =>
      cleaned ← mapE cleanCommitMember ms;
      let sorted := sort_by index_leb cleaned in
      _ ← check_members 0 [] sorted;
      Ret sorted
  | _ => Throw "members must not be empty"
  end.

Definition member_val (m : member) : val :=
  VObj [("index", VInt (index m)); ("recordType", VStr (recordType m));
        ("recordId", VStr (recordId m)); ("recordHash", VStr (recordHash m))].

Section Commit.
Context `{Hasher}.

(** [prefixedSha256(canonicalJson(value))] *)
Definition prefixed_canonical (value : val) : exc string :=
  text ← canonicalJson value;
  match text with Some s => Ret (prefixedSha256 s) | None => Throw "data must be of type string" end.

Definition leaf_val (m : member) : val :=
  VObj [("domain", VStr "veritio-record-leaf-v1"); ("index", VInt (index m));
        ("recordType", VStr (recordType m)); ("recordId", VStr (recordId m));
        ("recordHash", VStr (recordHash m))].

Definition node_val (left right : string) : val :=
  VObj [("domain", VStr "veritio-merkle-node-v1"); ("left", VStr left); ("right", VStr right)].

Definition commitLeafHash (m : member) : exc string := prefixed_canonical (leaf_val m).

(** One pass over a level: pairs, the last hash doubled when it is alone. *)
Fixpoint next_level (level : list string) : exc (list string) :=
  match level with
  | l :: r :: level =>
      h ← prefixed_canonical (node_val l r); hs ← next_level level; Ret (h :: hs)
  | [l] => h ← prefixed_canonical (node_val l l); Ret [h]
  | [] => Ret []
  end.

(** [while (level.length > 1)]; a level of [n] hashes needs fewer than [n] passes. *)
Fixpoint merkle_loop (fuel : nat) (level : list string) : exc (list string) :=
  match fuel with
  | O => Ret level
  | S fuel => if (1 <? length level)%nat then level ← next_level level; merkle_loop fuel level
              else Ret level
  end.

Definition computeRecordsRoot (members : list member) : exc string :=
  leaves ← mapE commitLeafHash members;
  level ← merkle_loop (length leaves) leaves;
  match level with root :: _ => Ret root | [] => Throw "undefined" end.

(** All of a commit but the stored hash, under the domain marker. *)
Definition commit_text (commit : val) : exc (option string) :=
  fields ← own_props commit;
  canonicalJson (VObj [("domain", VStr "veritio-commit-v1"); ("commit", VObj (obj_omit "hash" fields))]).

Definition hashEvidenceCommit (commit : val) : exc string :=
  text ← commit_text commit;
  match text with Some s => Ret (prefixedSha256 s) | None => Throw "data must be of type string" end.

Definition createEvidenceCommit `{Host} (now : Z) (input : val) : exc val :=
  commitId ← vget input "commitId"; _ ← assertNonEmpty commitId "commitId";
  streamId ← vget input "streamId"; _ ← assertNonEmpty streamId "streamId";
  sequence ← vget input "sequence"; _ ← assertPositiveInteger sequence "sequence";
  previousCommitHash ← vget input "previousCommitHash";
  _ ← guard_exc (is_null previousCommitHash || isSha256Digest previousCommitHash)
        "previousCommitHash must be null or sha256 digest";
  input_members ← vget input "members";
  members ← normalizeCommitMembers input_members;
  recordsRoot ← computeRecordsRoot members;
  committedAt ← vget input "committedAt";
  date ← normalizeDate (nullish_or committedAt (VDate (Some now)));
  let commitWithoutHash :=
    [("recordType", VStr "evidence.commit"); ("schemaVersion", VStr EVIDENCE_COMMIT_SCHEMA_VERSION);
     ("commitId", commitId); ("streamId", streamId); ("sequence", sequence);
     ("previousCommitHash", previousCommitHash); ("members", VArr (member_val <$> members));
     ("recordCount", VInt (Z.of_nat (length members))); ("recordsRoot", VStr recordsRoot);
     ("canonicalization", VStr CANONICALIZATION); ("hashAlgorithm", VStr HASH_ALGORITHM);
     ("treeAlgorithm", VStr EVIDENCE_COMMIT_TREE_ALGORITHM); ("committedAt", VStr date)] in
  hash ← hashEvidenceCommit (VObj commitWithoutHash);
  Ret (VObj (commitWithoutHash ++ [("hash", VStr hash)])).

Definition check_commit_envelope (commit : val) : exc (commit_reason + val) :=
  hashAlgorithm ← vget commit "hashAlgorithm";
  if negb (strict_eq hashAlgorithm (VStr HASH_ALGORITHM)) then
    Ret (inl commit_unsupported_hash_algorithm) else
  canonicalization ← vget commit "canonicalization";
  if negb (strict_eq canonicalization (VStr CANONICALIZATION)) then
    Ret (inl commit_unsupported_canonicalization) else
  treeAlgorithm ← vget commit "treeAlgorithm";
  if negb (strict_eq treeAlgorithm (VStr EVIDENCE_COMMIT_TREE_ALGORITHM)) then
    Ret (inl commit_unsupported_tree_algorithm) else
  streamId ← vget commit "streamId";
  if negb (match streamId with VStr s => negb (String.eqb s "") | _ => false end) then
    Ret (inl invalid_member_manifest) else
  hash ← vget commit "hash";
  if negb (is_string hash) then Ret (inl commit_hash_mismatch) else
  Ret (inr streamId).

Definition check_commit (stored : option link_state) (commit : val) : exc (commit_reason + link_state) :=
  let state := default genesis stored in
  prev ← vget commit "previousCommitHash";
  if negb (strict_eq prev (previousHash state)) then Ret (inl commit_previous_hash_mismatch) else
  seq ← vget commit "sequence";
  if negb (strict_eq seq (VInt (sequence state + 1))) then Ret (inl commit_sequence_mismatch) else
  input_members ← vget commit "members";
  match normalizeCommitMembers input_members with
  | Throw _ => Ret (inl invalid_member_manifest)
  | Ret members =>
      recordCount ← vget commit "recordCount";
      if negb (strict_eq recordCount (VInt (Z.of_nat (length members)))) then
        Ret (inl record_count_mismatch) else
      recordsRoot ← vget commit "recordsRoot";
      root ← computeRecordsRoot members;
      if negb (strict_eq recordsRoot (VStr root)) then Ret (inl records_root_mismatch) else
      hash ← vget commit "hash";
      expected ← hashEvidenceCommit commit;
      if negb (strict_eq hash (VStr expected)) then Ret (inl commit_hash_mismatch) else
      Ret (inr (LinkState hash (sequence state + 1)))
  end.

Definition verifyEvidenceCommits (commits : list val) : exc (VerificationResult commit_reason) :=
  walk check_commit_envelope check_commit [] 0 commits.

Definition verifyCommitChain (records : list val) : ChainVerificationResult :=
  runChainVerifier commit_reason_name (verifyEvidenceCommits records).

(** ** The texts that are hashed *)

Lemma ctext_leaf m : ∃ s, canonicalJson (leaf_val m) = Ret (Some s).
Proof. apply canonicalJson_json. cbn. by rewrite is_json_int. Qed.

Lemma ctext_node l r : ∃ s, canonicalJson (node_val l r) = Ret (Some s).
Proof. by apply canonicalJson_json. Qed.

Lemma normalize_leaf m :
  normalizeForJson (leaf_val m) =
  Ret (VObj [("domain", VStr "veritio-record-leaf-v1"); ("index", VInt (index m));
             ("recordHash", VStr (recordHash m)); ("recordId", VStr (recordId m));
             ("recordType", VStr (recordType m))]).
Proof. cbn. rewrite normalize_VInt. reflexivity. Qed.

Lemma normalize_node l r : normalizeForJson (node_val l r) = Ret (node_val l r).
Proof. reflexivity. Qed.

Lemma leaf_text_inj m m' s :
  canonicalJson (leaf_val m) = Ret (Some s) → canonicalJson (leaf_val m') = Ret (Some s) → m = m'.
Proof.
  assert (∀ m, nums_wf (leaf_val m) = true) as Hn
    by (intros m0; apply is_json_nums; cbn; by rewrite is_json_int).
  intros H1 H2. pose proof (canonicalJson_inj _ _ s (Hn m) (Hn m') H1 H2) as E.
  rewrite !normalize_leaf in E. injection E as Ei Eh Eid Et.
  apply num_of_Z_inj in Ei. destruct m, m'; cbn in *; congruence.
Qed.

Lemma node_text_inj l r l' r' s :
  canonicalJson (node_val l r) = Ret (Some s) → canonicalJson (node_val l' r') = Ret (Some s) →
  l = l' ∧ r = r'.
Proof.
  intros H1 H2. pose proof (canonicalJson_inj (node_val l r) (node_val l' r') s eq_refl eq_refl H1 H2) as E.
  rewrite !normalize_node in E. by injection E.
Qed.

Lemma leaf_node_text m l r s :
  canonicalJson (leaf_val m) = Ret (Some s) → canonicalJson (node_val l r) = Ret (Some s) → False.
Proof.
  intros H1 H2.
  assert (nums_wf (leaf_val m) = true) as Hn by (apply is_json_nums; cbn; by rewrite is_json_int).
  pose proof (canonicalJson_inj (leaf_val m) (node_val l r) s Hn eq_refl H1 H2) as E.
  by rewrite normalize_leaf, normalize_node in E.
Qed.

(** ** The hash tree *)

Inductive tree := Leaf (m : member) | Node (l r : tree).

Fixpoint tree_hash (t : tree) : string :=
  match t with
  | Leaf m => default "" (exc_to_option (prefixed_canonical (leaf_val m)))
  | Node l r => default "" (exc_to_option (prefixed_canonical (node_val (tree_hash l) (tree_hash r))))
  end.

(** The texts hashed in a tree. *)
Definition ctext (v : val) : string :=
  match canonicalJson v with Ret (Some s) => s | _ => "" end.

Fixpoint tree_texts (t : tree) : list string :=
  match t with
  | Leaf m => [ctext (leaf_val m)]
  | Node l r => ctext (node_val (tree_hash l) (tree_hash r)) :: tree_texts l ++ tree_texts r
  end.

Fixpoint leaves (t : tree) : list member :=
  match t with Leaf m => [m] | Node l r => leaves l ++ leaves r end.

Fixpoint pair_up (ts : list tree) : list tree :=
  match ts with
  | t1 :: t2 :: ts => Node t1 t2 :: pair_up ts
  | [t] => [Node t t]
  | [] => []
  end.

Fixpoint tree_loop (fuel : nat) (ts : list tree) : list tree :=
  match fuel with
  | O => ts
  | S fuel => if (1 <? length ts)%nat then tree_loop fuel (pair_up ts) else ts
  end.

(** The tree of a member list ([None] only for the empty list). *)
Definition root_tree (ms : list member) : option tree := head (tree_loop (length ms) (Leaf <$> ms)).

Lemma prefixed_ctext v s :
  canonicalJson v = Ret (Some s) → prefixed_canonical v = Ret (prefixedSha256 s) ∧ ctext v = s.
Proof. unfold prefixed_canonical, ctext. intros ->. done. Qed.

Lemma tree_hash_leaf m : prefixed_canonical (leaf_val m) = Ret (tree_hash (Leaf m)).
Proof. destruct (ctext_leaf m) as [s Hs]. cbn [tree_hash]. by rewrite (proj1 (prefixed_ctext _ _ Hs)). Qed.

Lemma tree_hash_node l r :
  prefixed_canonical (node_val (tree_hash l) (tree_hash r)) = Ret (tree_hash (Node l r)).
Proof.
  destruct (ctext_node (tree_hash l) (tree_hash r)) as [s Hs]. cbn [tree_hash].
  by rewrite (proj1 (prefixed_ctext _ _ Hs)).
Qed.

Lemma two_step_ind {A} (P : list A → Prop) :
  P [] → (∀ a, P [a]) → (∀ a b l, P l → P (a :: b :: l)) → ∀ l, P l.
Proof.
  intros H0 H1 H2 l. assert (P l ∧ ∀ a, P (a :: l)) as [? _]; [|done].
  induction l as [|b l [IH1 IH2]]; [split; auto|]. split; [done|]. intros a. by apply H2.
Qed.

Lemma next_level_trees ts : next_level (tree_hash <$> ts) = Ret (tree_hash <$> pair_up ts).
Proof.
  induction ts as [|t|t1 t2 ts IH] using two_step_ind; rewrite ?fmap_cons; cbn [next_level pair_up].
  - done.
  - cbn [fmap list_fmap]. by rewrite tree_hash_node.
  - rewrite tree_hash_node, IH. by rewrite fmap_cons.
Qed.

Lemma merkle_loop_trees fuel ts :
  merkle_loop fuel (tree_hash <$> ts) = Ret (tree_hash <$> tree_loop fuel ts).
Proof.
  revert ts. induction fuel as [|fuel IH]; intros ts; [done|]. cbn [merkle_loop tree_loop].
  rewrite length_fmap. destruct (1 <? length ts)%nat; [|done].
  rewrite next_level_trees. cbn. apply IH.
Qed.

Lemma pair_up_length ts : (1 < length ts)%nat → (length (pair_up ts) < length ts)%nat ∧ pair_up ts ≠ [].
Proof.
  assert (∀ ts, (length (pair_up ts) ≤ length ts)%nat) as Hle.
  { intros us. induction us as [|t|t1 t2 us IH] using two_step_ind; cbn; lia. }
  destruct ts as [|t1 [|t2 ts]]; cbn; try lia. intros _. split; [|done]. pose proof (Hle ts). lia.
Qed.

Lemma tree_loop_singleton fuel ts :
  ts ≠ [] → (length ts ≤ fuel)%nat → ∃ t, tree_loop fuel ts = [t].
Proof.
  revert ts. induction fuel as [|fuel IH]; intros ts Hne Hf.
  { by destruct ts; [|cbn in Hf; lia]. }
  cbn [tree_loop]. destruct (Nat.ltb_spec 1 (length ts)) as [Hl|Hl].
  - destruct (pair_up_length ts Hl). apply IH; [done|lia].
  - destruct ts as [|t [|]]; [done|by exists t|cbn in Hl; lia].
Qed.

(** The root of a non-empty manifest is the hash of its tree. *)
Lemma computeRecordsRoot_tree ms :
  ms ≠ [] → ∃ t, root_tree ms = Some t ∧ computeRecordsRoot ms = Ret (tree_hash t).
Proof.
  intros Hne. unfold root_tree.
  destruct (tree_loop_singleton (length ms) (Leaf <$> ms)) as [t Ht].
  { by destruct ms. }
  { by rewrite length_fmap. }
  rewrite Ht. exists t. split; [done|]. unfold computeRecordsRoot.
  rewrite (mapE_total _ (λ m, tree_hash (Leaf m))) by (apply Forall_true; intros m; apply tree_hash_leaf).
  cbn [mbind exc_mbind]. rewrite length_fmap.
  replace ((λ m, tree_hash (Leaf m)) <$> ms) with (tree_hash <$> (Leaf <$> ms))
    by by rewrite <- list_fmap_compose.
  by rewrite merkle_loop_trees, Ht.
Qed.

(** ** What a root commits to *)

Lemma prefixedSha256_inj_text s s' : prefixedSha256 s = prefixedSha256 s' → sha256Hex s = sha256Hex s'.
Proof. apply string_app_inj_l. Qed.

Lemma tree_hash_text t s :
  canonicalJson (match t with
                 | Leaf m => leaf_val m
                 | Node l r => node_val (tree_hash l) (tree_hash r)
                 end) = Ret (Some s) →
  tree_hash t = prefixedSha256 s ∧ s ∈ tree_texts t.
Proof.
  destruct t as [m|l r]; intros Hs; destruct (prefixed_ctext _ _ Hs) as [Hp Hc]; cbn [tree_hash tree_texts].
  - rewrite Hp, Hc. split; [done|left].
  - rewrite Hp, Hc. split; [done|left].
Qed.

Lemma tree_texts_node l r :
  tree_texts l ⊆ tree_texts (Node l r) ∧ tree_texts r ⊆ tree_texts (Node l r).
Proof. split; intros x Hx; cbn [tree_texts]; right; apply elem_of_app; auto. Qed.

Lemma tree_hash_inj t t' :
  tree_hash t = tree_hash t' → t = t' ∨ Collision (tree_texts t) (tree_texts t').
Proof.
  revert t'. induction t as [m|l IHl r IHr]; intros [m'|l' r'] Hh.
  - destruct (ctext_leaf m) as [s Hs], (ctext_leaf m') as [s' Hs'].
    destruct (tree_hash_text (Leaf m) s Hs) as [H1 T1], (tree_hash_text (Leaf m') s' Hs') as [H2 T2].
    destruct (decide (s = s')) as [<-|Hne]; [left; f_equal; by eapply leaf_text_inj|right].
    exists s, s'. split_and!; try done. apply prefixedSha256_inj_text. congruence.
  - right. destruct (ctext_leaf m) as [s Hs], (ctext_node (tree_hash l') (tree_hash r')) as [s' Hs'].
    destruct (tree_hash_text (Leaf m) s Hs) as [H1 T1], (tree_hash_text (Node l' r') s' Hs') as [H2 T2].
    exists s, s'. split_and!; try done; [|apply prefixedSha256_inj_text; congruence].
    intros <-. by eapply leaf_node_text.
  - right. destruct (ctext_leaf m') as [s' Hs'], (ctext_node (tree_hash l) (tree_hash r)) as [s Hs].
    destruct (tree_hash_text (Leaf m') s' Hs') as [H1 T1], (tree_hash_text (Node l r) s Hs) as [H2 T2].
    exists s, s'. split_and!; try done; [|apply prefixedSha256_inj_text; congruence].
    intros <-. by eapply leaf_node_text.
  - destruct (ctext_node (tree_hash l) (tree_hash r)) as [s Hs],
      (ctext_node (tree_hash l') (tree_hash r')) as [s' Hs'].
    destruct (tree_hash_text (Node l r) s Hs) as [H1 T1], (tree_hash_text (Node l' r') s' Hs') as [H2 T2].
    destruct (decide (s = s')) as [<-|Hne].
    + destruct (node_text_inj _ _ _ _ _ Hs Hs') as [El Er].
      destruct (tree_texts_node l r) as [Sl Sr], (tree_texts_node l' r') as [Sl' Sr'].
      destruct (IHl _ El) as [->|Hc]; [|right; by eapply Collision_mono; [..|exact Hc]].
      destruct (IHr _ Er) as [->|Hc]; [by left|right; by eapply Collision_mono; [..|exact Hc]].
    + right. exists s, s'. split_and!; try done. apply prefixedSha256_inj_text. congruence.
Qed.

Definition fringe (ts : list tree) : list member := concat (leaves <$> ts).

Lemma fringe_cons t ts : fringe (t :: ts) = leaves t ++ fringe ts.
Proof. done. Qed.

(** Pairing only adds copies of members after the ones that are there. *)
Lemma fringe_pair_up ts : fringe ts `prefix_of` fringe (pair_up ts) ∧ fringe (pair_up ts) ⊆ fringe ts.
Proof.
  induction ts as [|t|t1 t2 ts [[b IH1] IH2]] using two_step_ind; cbn [pair_up]; rewrite ?fringe_cons; cbn [leaves].
  - done.
  - cbn. rewrite !app_nil_r. split; [by exists (leaves t)|set_solver].
  - split; [exists b; by rewrite IH1, <- !app_assoc|set_solver].
Qed.

Lemma fringe_tree_loop fuel ts :
  fringe ts `prefix_of` fringe (tree_loop fuel ts) ∧ fringe (tree_loop fuel ts) ⊆ fringe ts.
Proof.
  revert ts. induction fuel as [|fuel IH]; intros ts; [done|]. cbn [tree_loop].
  destruct (1 <? length ts)%nat; [|done].
  destruct (fringe_pair_up ts) as [P1 S1], (IH (pair_up ts)) as [P2 S2].
  split; [by etrans|]. by etrans.
Qed.

Lemma fringe_leaves ms : fringe (Leaf <$> ms) = ms.
Proof. induction ms as [|m ms IH]; [done|]. rewrite fmap_cons, fringe_cons, IH. done. Qed.

Lemma root_tree_leaves ms t :
  root_tree ms = Some t → ms ≠ [] → ms `prefix_of` leaves t ∧ leaves t ⊆ ms.
Proof.
  unfold root_tree. intros Ht Hne.
  destruct (tree_loop_singleton (length ms) (Leaf <$> ms)) as [t' Ht'].
  { by destruct ms. } { by rewrite length_fmap. }
  rewrite Ht' in Ht. injection Ht as ->.
  destruct (fringe_tree_loop (length ms) (Leaf <$> ms)) as [Hp Hs].
  rewrite Ht', fringe_leaves in Hp, Hs. unfold fringe in Hp, Hs. cbn in Hp, Hs.
  by rewrite app_nil_r in Hp, Hs.
Qed.

(** Manifests whose indices are their positions. *)
Definition indexed (ms : list member) : Prop := ∀ i m, ms !! i = Some m → index m = Z.of_nat i.

Lemma indexed_prefix_eq ms ms' l :
  indexed ms → indexed ms' → ms `prefix_of` l → ms' `prefix_of` l → l ⊆ ms →
  (length ms ≤ length ms')%nat → ms = ms'.
Proof.
  intros Hi Hi' [b Hb] [b' Hb'] Hsub Hlen.
  destruct (decide (length ms = length ms')) as [E|Hne].
  { rewrite Hb in Hb'. by apply app_inj_1 in Hb' as [? _]. }
  exfalso. destruct (lookup_lt_is_Some_2 ms' (length ms)) as [m Hm]; [lia|].
  pose proof (Hi' _ _ Hm) as Ei.
  assert (m ∈ ms) as [j Hj]%list_elem_of_lookup_1.
  { apply Hsub. rewrite Hb'. apply elem_of_app. left. by eapply list_elem_of_lookup_2. }
  pose proof (Hi _ _ Hj) as Ej. apply lookup_lt_Some in Hj. lia.
Qed.

Definition merkle_texts (ms : list member) : list string :=
  match root_tree ms with Some t => tree_texts t | None => [] end.

Lemma root_commits ms ms' root :
  ms ≠ [] → ms' ≠ [] → indexed ms → indexed ms' →
  computeRecordsRoot ms = Ret root → computeRecordsRoot ms' = Ret root →
  ms = ms' ∨ Collision (merkle_texts ms) (merkle_texts ms').
Proof.
  intros Hne Hne' Hi Hi' Hr Hr'.
  destruct (computeRecordsRoot_tree ms Hne) as (t & Ht & E), (computeRecordsRoot_tree ms' Hne') as (t' & Ht' & E').
  unfold merkle_texts. rewrite Ht, Ht'.
  destruct (tree_hash_inj t t') as [<-|Hc]; [congruence|left|by right].
  destruct (root_tree_leaves _ _ Ht Hne) as [P S], (root_tree_leaves _ _ Ht' Hne') as [P' S'].
  destruct (Nat.le_ge_cases (length ms) (length ms')).
  - by eapply indexed_prefix_eq.
  - symmetry. by eapply indexed_prefix_eq.
Qed.

(** ** Manifests *)

Lemma check_members_ok i ids ms :
  check_members i ids ms = Ret tt ↔
  (∀ j m, ms !! j = Some m → index m = (i + Z.of_nat j)%Z) ∧
  NoDup (member_identity <$> ms) ∧ Forall (λ m, member_identity m ∉ ids) ms.
Proof.
  revert i ids. induction ms as [|m ms IH]; intros i ids; cbn [check_members].
  { split; [intros _|done]. split; [done|]. split; [constructor|constructor]. }
  rewrite bind_ret. setoid_rewrite bind_ret. setoid_rewrite IH. rewrite fmap_cons, NoDup_cons. split.
  - intros ([] & G1%guard_ret & [] & G2%guard_ret & Hidx & Hnd & Hids). bool_prop. split_and!.
    + intros [|j] m' Hm; cbn in Hm; [injection Hm as <-; lia|]. rewrite (Hidx _ _ Hm). lia.
    + rewrite list_elem_of_fmap. intros (m' & E & Hin). rewrite Forall_forall in Hids.
      specialize (Hids _ Hin). rewrite <- E in Hids. apply Hids. left.
    + done.
    + constructor; [done|]. eapply Forall_impl; [exact Hids|]. intros m' Hm' Hin. apply Hm'. by right.
  - intros (Hidx & [Hn Hnd] & Hids). inversion Hids as [|? ? Hm Hms]; subst.
    exists tt. split; [apply guard_ret, Z.eqb_eq; specialize (Hidx 0%nat m eq_refl); lia|].
    exists tt. split; [by apply guard_ret, negb_true_iff, bool_decide_eq_false_2|].
    split_and!; [|done|].
    + intros j m' Hm'. specialize (Hidx (S j) m' Hm'). lia.
    + rewrite Forall_forall in *. intros m' Hm'. rewrite not_elem_of_cons. split; [|by apply Hms].
      intros E. apply Hn. rewrite <- E. by apply list_elem_of_fmap_2.
Qed.

(** A normalized manifest: cleaned members in index order, indices 0, 1, ...,
    no physical record twice. *)
Lemma normalizeCommitMembers_ok v ms :
  normalizeCommitMembers v = Ret ms ↔
  ∃ vs cleaned, v = VArr vs ∧ vs ≠ [] ∧ mapE cleanCommitMember vs = Ret cleaned ∧
    ms = sort_by index_leb cleaned ∧ indexed ms ∧ NoDup (member_identity <$> ms).
Proof.
  split.
  - intros E. destruct v as [| | | | |[|v0 vs]| | |]; try done. cbn [normalizeCommitMembers] in E.
    apply bind_ret in E as (cleaned & Hc & E). apply bind_ret in E as ([] & Hk & [= <-]).
    apply check_members_ok in Hk as (Hi & Hn & _). exists (v0 :: vs), cleaned. by split_and!.
  - intros (vs & cleaned & -> & Hne & Hc & -> & Hi & Hn). destruct vs as [|v0 vs]; [done|].
    cbn [normalizeCommitMembers]. rewrite Hc. cbn [mbind exc_mbind].
    rewrite (proj2 (check_members_ok 0 [] _)); [done|]. split_and!; try done.
    apply Forall_true. intros m. apply not_elem_of_nil.
Qed.

Lemma normalized_nonempty v ms : normalizeCommitMembers v = Ret ms → ms ≠ [].
Proof.
  intros (vs & cleaned & -> & Hne & Hc & -> & _)%normalizeCommitMembers_ok E.
  apply Hne. apply nil_length_inv. rewrite <- (mapE_length _ _ _ Hc).
  rewrite <- (sort_by_length index_leb). by rewrite E.
Qed.

Lemma index_leb_total a b : index_leb a b = false → index_leb b a = true.
Proof. unfold index_leb. lia. Qed.
Lemma index_leb_trans a b c : index_leb a b = true → index_leb b c = true → index_leb a c = true.
Proof. unfold index_leb. lia. Qed.

Lemma indexed_unique ms m m' : indexed ms → m ∈ ms → m' ∈ ms → index m = index m' → m = m'.
Proof.
  intros Hi [i Hm]%list_elem_of_lookup_1 [j Hm']%list_elem_of_lookup_1 E.
  rewrite (Hi _ _ Hm), (Hi _ _ Hm') in E. assert (i = j) as -> by lia. congruence.
Qed.

Lemma mapE_perm {A B} (f : A → exc B) xs ys zs :
  xs ≡ₚ ys → mapE f xs = Ret zs → ∃ ws, mapE f ys = Ret ws ∧ ws ≡ₚ zs.
Proof.
  intros Hp Hz%mapE_Forall2. destruct (Permutation_Forall2 Hp Hz) as (ws & Hw & Hf).
  exists ws. split; [by apply mapE_Forall2|by symmetry].
Qed.

(** The order in which members are listed does not matter. *)
Lemma normalize_members_perm vs vs' ms :
  vs ≡ₚ vs' → normalizeCommitMembers (VArr vs) = Ret ms → normalizeCommitMembers (VArr vs') = Ret ms.
Proof.
  intros Hp (? & cleaned & [= <-] & Hne & Hc & -> & Hi & Hn)%normalizeCommitMembers_ok.
  destruct (mapE_perm _ _ _ _ Hp Hc) as (ws & Hw & Hpw).
  apply normalizeCommitMembers_ok. exists vs', ws. split_and!; try done.
  { intros ->. apply Hne. by apply Permutation_nil_r. }
  apply (sorted_perm_eq index_leb).
  - intros a b Ha Hb L1 L2. apply (indexed_unique _ a b Hi Ha Hb). unfold index_leb in *. lia.
  - apply sort_by_sorted; [apply index_leb_total|apply index_leb_trans].
  - apply sort_by_sorted; [apply index_leb_total|apply index_leb_trans].
  - by rewrite !sort_by_perm, Hpw.
Qed.

(** ** Members of a created commit *)

Record valid_member (m : member) : Prop := {
  valid_index : (0 ≤ index m)%Z;
  valid_type : isEvidenceCommitMemberRecordType (VStr (recordType m)) = true;
  valid_id : blank (recordId m) = false;
  valid_hash : re_test SHA256_DIGEST_PATTERN (recordHash m) = true;
}.

Lemma includes_str l v : includes l v = true → ∃ s, v = VStr s ∧ s ∈ l.
Proof.
  unfold includes. intros (s & Hs & E)%existsb_exists. exists s.
  split; [|by apply list_elem_of_In].
  destruct v as [| | |n|s'| | | |]; try done. unfold strict_eq in E. by bool_prop; subst.
Qed.

Lemma cleanCommitMember_valid v m : cleanCommitMember v = Ret m → valid_member m.
Proof.
  unfold cleanCommitMember. intros E. apply bind_ret in E as (i & _ & E).
  destruct (match i with VNum n => num_int n | _ => None end) as [z|]; [|done].
  steps_of E. repeat match goal with u : unit |- _ => destruct u end.
  repeat match goal with Hg : guard_exc _ _ = Ret tt |- _ => apply guard_ret in Hg end.
  repeat match goal with Ha : assertNonEmpty _ _ = Ret tt |- _ => apply assertNonEmpty_ret in Ha end.
  injection E as <-. bool_prop.
  match goal with Ht : isEvidenceCommitMemberRecordType _ = true |- _ =>
    pose proof Ht as Hty; apply includes_str in Ht as (t & -> & _) end.
  match goal with Hb : non_blank_string _ = true |- _ =>
    apply non_blank_string_str in Hb as (id & -> & Hid) end.
  match goal with Hd : isSha256Digest ?h = true |- _ => destruct h; try done; by constructor end.
Qed.

Lemma cleanCommitMember_val m : valid_member m → cleanCommitMember (member_val m) = Ret m.
Proof.
  intros [Hi Ht Hid Hh]. unfold cleanCommitMember, member_val, VInt. cbn [vget obj_get].
  cbn -[isEvidenceCommitMemberRecordType isSha256Digest num_int].
  rewrite num_int_of_Z. rewrite (proj2 (Z.leb_le _ _) Hi). cbn -[isEvidenceCommitMemberRecordType isSha256Digest].
  rewrite Ht. cbn -[isSha256Digest].
  rewrite (proj2 (assertNonEmpty_ret (VStr (recordId m)) _)) by (cbn; by rewrite Hid).
  cbn. rewrite Hh. by destruct m.
Qed.

(** Normalized members, written back as values, normalize to themselves. *)
Lemma normalize_members_val v ms :
  normalizeCommitMembers v = Ret ms → normalizeCommitMembers (VArr (member_val <$> ms)) = Ret ms.
Proof.
  intros Hv. pose proof (normalized_nonempty _ _ Hv) as Hne.
  apply normalizeCommitMembers_ok in Hv as (vs & cleaned & -> & _ & Hc & -> & Hi & Hn).
  apply normalizeCommitMembers_ok. exists (member_val <$> sort_by index_leb cleaned), (sort_by index_leb cleaned).
  split_and!; try done.
  - intros E. by apply fmap_nil_inv in E.
  - apply mapE_Forall2, Forall2_fmap_l. apply Forall_Forall2_diag, Forall_forall.
    intros m Hm%elem_of_sort_by. apply cleanCommitMember_val.
    apply mapE_Forall2 in Hc. apply list_elem_of_lookup_1 in Hm as [j Hj].
    eapply Forall2_lookup_r in Hc as (v & _ & Hv); [|exact Hj]. by eapply cleanCommitMember_valid.
  - symmetry. apply sort_by_id, sort_by_sorted; [apply index_leb_total|apply index_leb_trans].
Qed.

(** ** Chains of commits *)

Record commit_link (s : link_state) (c : val) (s' : link_state) : Prop := {
  commit_previous : vget c "previousCommitHash" = Ret (previousHash s);
  commit_sequence : vget c "sequence" = Ret (VInt (sequence s + 1));
  commit_manifest : ∃ v ms root, vget c "members" = Ret v ∧ normalizeCommitMembers v = Ret ms ∧
    vget c "recordCount" = Ret (VInt (Z.of_nat (length ms))) ∧
    computeRecordsRoot ms = Ret root ∧ vget c "recordsRoot" = Ret (VStr root);
  commit_digest : ∃ h, hashEvidenceCommit c = Ret h ∧ vget c "hash" = Ret (VStr h) ∧
    s' = LinkState (VStr h) (sequence s + 1);
}.

Definition tip_state (s : link_state) : Prop := tip_ok (previousHash s).

Lemma check_commit_ok st c s' :
  tip_state (default genesis st) →
  check_commit st c = Ret (inr s') ↔ commit_link (default genesis st) c s'.
Proof.
  set (s := default genesis st). intros Htip. unfold check_commit. fold s. split.
  - intros E. apply bind_ret in E as (prev & Hprev & E).
    destruct (strict_eq prev _) eqn:E0; [cbn in E|done].
    apply bind_ret in E as (seq & Hseq & E). destruct (strict_eq seq _) eqn:E1; [cbn in E|done].
    apply bind_ret in E as (v & Hv & E). destruct (normalizeCommitMembers v) as [ms|] eqn:Em; [|done].
    apply bind_ret in E as (count & Hcount & E). destruct (strict_eq count _) eqn:E2; [cbn in E|done].
    apply bind_ret in E as (rr & Hrr & E). apply bind_ret in E as (root & Hroot & E).
    destruct (strict_eq rr _) eqn:E3; [cbn in E|done].
    apply bind_ret in E as (h & Hh & E). apply bind_ret in E as (e & He & E).
    destruct (strict_eq h _) eqn:E4; [cbn in E|done]. injection E as <-.
    apply strict_eq_tip in E0 as ->; [|done]. apply strict_eq_int in E1 as ->.
    apply strict_eq_int in E2 as ->. apply strict_eq_str in E3 as ->. apply strict_eq_str in E4 as ->.
    constructor; [done|done| |by eauto]. by exists v, ms, root.
  - intros [H1 H2 (v & ms & root & H3 & H4 & H5 & H6 & H7) (h & H8 & H9 & ->)].
    rewrite H1; cbn [mbind exc_mbind]. rewrite (proj2 (strict_eq_tip _ _ Htip) eq_refl); cbn [negb].
    rewrite H2; cbn [mbind exc_mbind]. rewrite strict_eq_int_refl; cbn [negb].
    rewrite H3; cbn [mbind exc_mbind]. rewrite H4, H5; cbn [mbind exc_mbind].
    rewrite strict_eq_int_refl; cbn [negb]. rewrite H7; cbn [mbind exc_mbind].
    rewrite H6; cbn [mbind exc_mbind]. rewrite strict_eq_str_refl; cbn [negb].
    rewrite H9; cbn [mbind exc_mbind]. rewrite H8; cbn [mbind exc_mbind].
    by rewrite strict_eq_str_refl.
Qed.

Lemma commit_link_tip s c s' : tip_state s → commit_link s c s' → tip_state s'.
Proof. intros _ [_ _ _ (h & _ & _ & ->)]. right. by exists h. Qed.

Definition commit_chain : list val → link_state → Prop := linked commit_link genesis.

Lemma commit_steps cs : is_Some (steps check_commit None cs) ↔ ∃ s, commit_chain cs s.
Proof.
  apply (steps_linked_some check_commit commit_link genesis tip_state).
  - by left.
  - apply commit_link_tip.
  - apply check_commit_ok.
Qed.

Lemma commit_chain_steps cs s :
  commit_chain cs s ↔ ∃ st, steps check_commit None cs = Some st ∧ default genesis st = s.
Proof.
  apply (steps_linked check_commit commit_link genesis tip_state).
  - by left.
  - apply commit_link_tip.
  - apply check_commit_ok.
Qed.

(** The commits of one stream. *)
Definition stream_commits : string → list val → list val := of_key check_commit_envelope.

Record commit_envelope (c : val) (stream : string) : Prop := {
  commit_algorithm : vget c "hashAlgorithm" = Ret (VStr HASH_ALGORITHM);
  commit_canonicalization : vget c "canonicalization" = Ret (VStr CANONICALIZATION);
  commit_tree : vget c "treeAlgorithm" = Ret (VStr EVIDENCE_COMMIT_TREE_ALGORITHM);
  commit_stream : vget c "streamId" = Ret (VStr stream) ∧ stream ≠ "";
  commit_hash : ∃ h, vget c "hash" = Ret (VStr h);
}.

Lemma check_commit_envelope_ok c k :
  check_commit_envelope c = Ret (inr k) ↔ ∃ stream, k = VStr stream ∧ commit_envelope c stream.
Proof.
  unfold check_commit_envelope. split.
  - intros E. apply bind_ret in E as (a & Ha & E). destruct (strict_eq a _) eqn:E0; [cbn in E|done].
    apply bind_ret in E as (b & Hb & E). destruct (strict_eq b _) eqn:E1; [cbn in E|done].
    apply bind_ret in E as (t & Ht & E). destruct (strict_eq t _) eqn:E2; [cbn in E|done].
    apply bind_ret in E as (s & Hs & E).
    destruct s as [| | | |stream| | | |]; try done. destruct (String.eqb_spec stream "") as [|Hne]; [done|].
    cbn in E. apply bind_ret in E as (h & Hh & E). destruct h as [| | | |h| | | |]; try done.
    injection E as <-. exists stream. split; [done|].
    apply strict_eq_str in E0 as ->. apply strict_eq_str in E1 as ->. apply strict_eq_str in E2 as ->.
    constructor; eauto.
  - intros (stream & -> & [H1 H2 H3 [H4 Hne] [h H5]]).
    rewrite H1; cbn [mbind exc_mbind]. rewrite strict_eq_str_refl; cbn [negb].
    rewrite H2; cbn [mbind exc_mbind]. rewrite strict_eq_str_refl; cbn [negb].
    rewrite H3; cbn [mbind exc_mbind]. rewrite strict_eq_str_refl; cbn [negb].
    rewrite H4; cbn [mbind exc_mbind]. rewrite (proj2 (String.eqb_neq _ _) Hne); cbn [negb].
    by rewrite H5.
Qed.

Lemma verify_commits_ok cs :
  verifyEvidenceCommits cs = Ret VerifyOk ↔
  Forall (λ c, ∃ stream, commit_envelope c stream) cs ∧
  ∀ stream, ∃ s, commit_chain (stream_commits stream cs) s.
Proof.
  unfold verifyEvidenceCommits, stream_commits.
  assert (Forall (λ c, ∃ stream, commit_envelope c stream) cs ↔
          Forall (string_keyed check_commit_envelope) cs) as Hkeys.
  { apply Forall_proper; [|done]. intros c. unfold string_keyed.
    setoid_rewrite check_commit_envelope_ok. naive_solver. }
  rewrite Hkeys. split.
  - intros Hw. assert (Forall (string_keyed check_commit_envelope) cs) as Hk.
    { eapply Forall_impl; [by eapply walk_ok_keys|]. intros c [k Hc]. pose proof Hc as Hc'.
      apply check_commit_envelope_ok in Hc' as (stream & -> & _). by exists stream. }
    split; [done|]. intros stream. apply commit_steps. by apply (proj1 (walk_ok _ _ _ _ _ Hk) Hw).
  - intros [Hk Hc]. apply walk_ok; [done|]. intros stream. apply commit_steps, Hc.
Qed.

(** ** Created commits *)

(** The fields of a commit before it is hashed. *)
Definition commit_fields (commitId streamId seq prev : val) (ms : list member) (root date : string)
    : list (string * val) :=
  [("recordType", VStr "evidence.commit"); ("schemaVersion", VStr EVIDENCE_COMMIT_SCHEMA_VERSION);
   ("commitId", commitId); ("streamId", streamId); ("sequence", seq);
   ("previousCommitHash", prev); ("members", VArr (member_val <$> ms));
   ("recordCount", VInt (Z.of_nat (length ms))); ("recordsRoot", VStr root);
   ("canonicalization", VStr CANONICALIZATION); ("hashAlgorithm", VStr HASH_ALGORITHM);
   ("treeAlgorithm", VStr EVIDENCE_COMMIT_TREE_ALGORITHM); ("committedAt", VStr date)].

Lemma createEvidenceCommit_ret `{Host} now input c :
  createEvidenceCommit now input = Ret c →
  ∃ commitId stream seq prev v ms root date h,
    vget input "streamId" = Ret (VStr stream) ∧ blank stream = false ∧
    vget input "sequence" = Ret seq ∧ vget input "previousCommitHash" = Ret prev ∧
    vget input "members" = Ret v ∧ normalizeCommitMembers v = Ret ms ∧
    computeRecordsRoot ms = Ret root ∧
    hashEvidenceCommit (VObj (commit_fields commitId (VStr stream) seq prev ms root date)) = Ret h ∧
    c = VObj (commit_fields commitId (VStr stream) seq prev ms root date ++ [("hash", VStr h)]).
Proof.
  unfold createEvidenceCommit. intros E.
  apply bind_ret in E as (commitId & _ & E). apply bind_ret in E as (_ & _ & E).
  apply bind_ret in E as (stream & Hs & E). apply bind_ret in E as ([] & Hb%assertNonEmpty_ret & E).
  apply bind_ret in E as (seq & Hseq & E). apply bind_ret in E as (_ & _ & E).
  apply bind_ret in E as (prev & Hprev & E). apply bind_ret in E as (_ & _ & E).
  apply bind_ret in E as (v & Hv & E). apply bind_ret in E as (ms & Hms & E).
  apply bind_ret in E as (root & Hroot & E). apply bind_ret in E as (cat & _ & E).
  apply bind_ret in E as (date & _ & E). apply bind_ret in E as (h & Hh & [= <-]).
  apply non_blank_string_str in Hb as (st & -> & Hb).
  exists commitId, st, seq, prev, v, ms, root, date, h. by split_and!.
Qed.

Lemma hash_sealed_commit commitId stream seq prev ms root date h :
  let fs := commit_fields commitId stream seq prev ms root date in
  hashEvidenceCommit (VObj (fs ++ [("hash", VStr h)])) = hashEvidenceCommit (VObj fs).
Proof. reflexivity. Qed.

Lemma blank_nonempty s : blank s = false → s ≠ "".
Proof. by intros Hb ->. Qed.

(** A created commit extends the ledger whose tip it names. *)
Lemma created_commit_link `{Host} now input c s stream :
  createEvidenceCommit now input = Ret c →
  vget input "streamId" = Ret (VStr stream) →
  vget input "sequence" = Ret (VInt (sequence s + 1)) →
  vget input "previousCommitHash" = Ret (previousHash s) →
  commit_envelope c stream ∧ ∃ s', commit_link s c s'.
Proof.
  intros (commitId & st & seq & prev & v & ms & root & date & h & H1 & Hb & H2 & H3 & H4 & Hms & Hroot & Hh & ->)%createEvidenceCommit_ret
    E1 E2 E3.
  rewrite H1 in E1. rewrite H2 in E2. rewrite H3 in E3.
  injection E1 as ->. apply Ret_inj in E2 as ->. apply Ret_inj in E3 as ->. split.
  - pose proof (blank_nonempty _ Hb). constructor; try (by eexists); done.
  - exists (LinkState (VStr h) (sequence s + 1)). constructor; try done.
    + exists (VArr (member_val <$> ms)), ms, root. split_and!; try done.
      by eapply normalize_members_val.
    + exists h. by rewrite hash_sealed_commit.
Qed.

Lemma stream_commits_snoc stream cs c stream' :
  commit_envelope c stream' →
  stream_commits stream (cs ++ [c]) =
  if String.eqb stream stream' then stream_commits stream cs ++ [c] else stream_commits stream cs.
Proof.
  intros Hc. unfold stream_commits. rewrite of_key_app, of_key_cons. unfold has_key.
  rewrite (proj2 (check_commit_envelope_ok c (VStr stream')) (ex_intro _ stream' (conj eq_refl Hc))).
  destruct (String.eqb stream stream'); [done|apply app_nil_r].
Qed.
End Commit.

(** ** Properties *)

(** C23. The commit verifier accepts exactly the ledgers in which every commit has
    a well formed envelope and the commits of every stream form a chain: sequence
    and previous hash continue the stream from genesis, the manifest normalizes,
    its count and Merkle root are the recorded ones, and the recorded hash is the
    digest of the rest of the commit. *)
Theorem verifyEvidenceCommits_spec `{Hasher} cs :
  verifyEvidenceCommits cs = Ret VerifyOk ↔
  Forall (λ c, ∃ stream, commit_envelope c stream) cs ∧
  ∀ stream, ∃ s, commit_chain (stream_commits stream cs) s.
Proof. apply verify_commits_ok. Qed.

(** The Merkle root commits to the manifest: two normalized manifests with
    the same root are the same, whatever their lengths, or two different texts
    hashed in their trees collide. In particular the duplication of the last hash
    of an odd level cannot be used to pass one manifest for another. *)
Theorem computeRecordsRoot_commits `{Hasher} v v' ms ms' root :
  normalizeCommitMembers v = Ret ms → normalizeCommitMembers v' = Ret ms' →
  computeRecordsRoot ms = Ret root → computeRecordsRoot ms' = Ret root →
  ms = ms' ∨ Collision (merkle_texts ms) (merkle_texts ms').
Proof.
  intros Hv Hv' Hr Hr'. pose proof (normalized_nonempty _ _ Hv). pose proof (normalized_nonempty _ _ Hv').
  apply normalizeCommitMembers_ok in Hv as (? & ? & _ & _ & _ & _ & Hi & _).
  apply normalizeCommitMembers_ok in Hv' as (? & ? & _ & _ & _ & _ & Hi' & _).
  by eapply root_commits.
Qed.

(** src/spec/conformance/evidence-commit.json *)
Definition fixture_commit_input : val := json
  "{'commitId':'cmt_fixture_01','streamId':'str_fixture_production','sequence':2,'previousCommitHash':'sha256:1111111111111111111111111111111111111111111111111111111111111111','committedAt':'2026-06-23T10:15:31Z','members':[{'index':1,'recordType':'evidence.edge.record','recordId':'edge_fixture_change_output_revision_01','recordHash':'sha256:bbbbbbbbbbbbbbbbbbbbbbbbbbbbbbbbbbbbbbbbbbbbbbbbbbbbbbbbbbbbbbbb'},{'index':0,'recordType':'audit.record','recordId':'evt_fixture_create_01','recordHash':'sha256:aaaaaaaaaaaaaaaaaaaaaaaaaaaaaaaaaaaaaaaaaaaaaaaaaaaaaaaaaaaaaaaa'}]}".

#[local] Instance demo_host : Host :=
  {| host_dates := {| legacy_date_parse := λ _, None |}; date_of_object := λ _, None; date_string := λ _, "Invalid Date" |}.

Definition fixture_commit : val :=
  default VUndef (exc_to_option (createEvidenceCommit 0 fixture_commit_input)).

Example fixture_commit_hash :
  (vget_opt fixture_commit "recordsRoot", vget_opt fixture_commit "hash") =
  (VStr "sha256:4040a5c8636b866d16162c018402152a224a22f081884dcb0571226480eef3b4",
   VStr "sha256:9b9b466ef25443505eed06c0c56158e24808e945144fedd03b834916391d3316").
Proof. vm_compute. reflexivity. Qed.

Definition demo_member (i : Z) (id : string) : val :=
  VObj [("index", VInt i); ("recordType", VStr "audit.record"); ("recordId", VStr id);
        ("recordHash", VStr "sha256:aaaaaaaaaaaaaaaaaaaaaaaaaaaaaaaaaaaaaaaaaaaaaaaaaaaaaaaaaaaaaaaa")].

Definition demo_members (l : list val) : list member :=
  default [] (exc_to_option (normalizeCommitMembers (VArr l))).

Definition demo_root (ms : list member) : string := default "" (exc_to_option (computeRecordsRoot ms)).

Example fixture_commit_odd_root :
  demo_root (demo_members [
    demo_member 0 "evt_fixture_a";
    VObj [("index", VInt 1); ("recordType", VStr "evidence.edge.record"); ("recordId", VStr "edge_fixture_b");
          ("recordHash", VStr "sha256:bbbbbbbbbbbbbbbbbbbbbbbbbbbbbbbbbbbbbbbbbbbbbbbbbbbbbbbbbbbbbbbb")];
    VObj [("index", VInt 2); ("recordType", VStr "entity.revision.record"); ("recordId", VStr "rev_fixture_c");
          ("recordHash", VStr "sha256:cccccccccccccccccccccccccccccccccccccccccccccccccccccccccccccccc")]])
  = "sha256:ac195c160b8aaaf84f873ddb6cf379aa7a06f58c13ea5315979f1f4fa1a1cde8".
Proof. vm_compute. reflexivity. Qed.

Lemma computeRecordsRoot_commits_witness :
  let ms := demo_members [demo_member 0 "a"; demo_member 1 "b"; demo_member 2 "c"] in
  ms = ms ∨ Collision (merkle_texts ms) (merkle_texts ms).
Proof.
  apply (computeRecordsRoot_commits
           (VArr [demo_member 0 "a"; demo_member 1 "b"; demo_member 2 "c"])
           (VArr [demo_member 2 "c"; demo_member 1 "b"; demo_member 0 "a"]) _ _
           (demo_root (demo_members [demo_member 0 "a"; demo_member 1 "b"; demo_member 2 "c"])));
    vm_compute; reflexivity.
Defined.

(** A created commit extends a verified ledger: if its input names the tip of
    its stream (sequence one more, previous hash the tip's), the ledger with the
    commit appended verifies. *)
Theorem createEvidenceCommit_extends `{Hasher} `{Host} cs now input c stream s :
  verifyEvidenceCommits cs = Ret VerifyOk →
  createEvidenceCommit now input = Ret c →
  commit_chain (stream_commits stream cs) s →
  vget input "streamId" = Ret (VStr stream) →
  vget input "sequence" = Ret (VInt (sequence s + 1)) →
  vget input "previousCommitHash" = Ret (previousHash s) →
  verifyEvidenceCommits (cs ++ [c]) = Ret VerifyOk.
Proof.
  intros [He Hc]%verify_commits_ok Hcreate Hs H1 H2 H3.
  destruct (created_commit_link now input c s stream Hcreate H1 H2 H3) as (Henv & s' & Hlink).
  apply verify_commits_ok. split; [apply Forall_app; split; [done|]; apply Forall_cons_2; [by exists stream|apply Forall_nil_2]|].
  intros stream'. rewrite (stream_commits_snoc _ _ _ _ Henv).
  destruct (String.eqb_spec stream' stream) as [->|]; [|apply Hc].
  exists s'. by econstructor.
Qed.

Definition demo_commit_input : val := VObj
  [("commitId", VStr "cmt_1"); ("streamId", VStr "str"); ("sequence", VInt 1);
   ("previousCommitHash", VNull); ("members", VArr [demo_member 1 "b"; demo_member 0 "a"]);
   ("committedAt", VStr "2026-06-23T10:15:31Z")].
Definition demo_commit : val := default VUndef (exc_to_option (createEvidenceCommit 0 demo_commit_input)).

Lemma createEvidenceCommit_extends_witness :
  verifyEvidenceCommits ([] ++ [demo_commit]) = Ret VerifyOk.
Proof.
  apply (createEvidenceCommit_extends [] 0 demo_commit_input demo_commit "str" genesis).
  - reflexivity.
  - vm_compute. reflexivity.
  - apply linked_nil.
  - reflexivity.
  - vm_compute. reflexivity.
  - reflexivity.
Defined.

(** A manifest is normalized to its members in index order, and only if the
    indices are exactly 0, 1, ... and no physical record occurs twice; the order in
    which the members were listed does not matter. *)
Theorem normalizeCommitMembers_spec vs vs' ms :
  normalizeCommitMembers (VArr vs) = Ret ms → vs ≡ₚ vs' →
  normalizeCommitMembers (VArr vs') = Ret ms ∧
  (∀ i m, ms !! i = Some m → index m = Z.of_nat i ∧ valid_member m) ∧
  NoDup (member_identity <$> ms) ∧ length ms = length vs.
Proof.
  intros Hv Hp. split; [by eapply normalize_members_perm|].
  apply normalizeCommitMembers_ok in Hv as (? & cleaned & [= <-] & Hne & Hc & -> & Hi & Hn).
  split_and!; [|done|by rewrite sort_by_length, (mapE_length _ _ _ Hc)].
  intros i m Hm. split; [by apply Hi|]. apply list_elem_of_lookup_2, elem_of_sort_by in Hm.
  apply list_elem_of_lookup_1 in Hm as [j Hj]. apply mapE_Forall2 in Hc.
  eapply Forall2_lookup_r in Hc as (v & _ & Hv); [|exact Hj]. by eapply cleanCommitMember_valid.
Qed.

Lemma normalizeCommitMembers_spec_witness :
  normalizeCommitMembers (VArr [demo_member 0 "a"; demo_member 1 "b"])
    = Ret (demo_members [demo_member 1 "b"; demo_member 0 "a"]) ∧
  (∀ i m, demo_members [demo_member 1 "b"; demo_member 0 "a"] !! i = Some m →
          index m = Z.of_nat i ∧ valid_member m) ∧
  NoDup (member_identity <$> demo_members [demo_member 1 "b"; demo_member 0 "a"]) ∧
  length (demo_members [demo_member 1 "b"; demo_member 0 "a"]) = 2%nat.
Proof.
  apply (normalizeCommitMembers_spec [demo_member 1 "b"; demo_member 0 "a"]);
    [vm_compute; reflexivity|apply Permutation_swap].
Defined.
