(* ===== verification/SameData.v ===== *)
(** * Verification depends on the data of a record, not on its key order

    Records travel as canonical JSON, so a reader sees their keys sorted. The
    readers of properties, the hashes and the chain verifiers of AuditChain,
    ChainModes and Commit give the same result on values that are the same data. *)

From S2P Require Import Prelude Regex JsNum JsVal Dates JsonText Hash Canonical Keyed.
From S2P Require Import AuditChain ChainModes Redact Event Commit.

(** ** Readers *)

Lemma obj_get_fields_rel k fs gs :
  Forall2 (fields_rel same_data) fs gs →
  match obj_get k fs, obj_get k gs with
  | Some a, Some b => same_data a b | None, None => True | _, _ => False
  end.
Proof.
  induction 1 as [|[k1 a] [k2 b] fs gs [Hk Hab] _ IH]; [done|]. cbn in *. subst k2.
  by destruct (String.eqb k1 k).
Qed.

Lemma obj_get_perm k fs gs : NoDup (keys fs) → fs ≡ₚ gs → obj_get k fs = obj_get k gs.
Proof.
  intros Hnd Hp. destruct (obj_get k gs) as [v|] eqn:E.
  - apply obj_get_NoDup; [done|]. rewrite Hp. by apply obj_get_elem.
  - apply obj_get_None. apply obj_get_None in E. unfold keys in *. by rewrite Hp.
Qed.

Lemma same_data_get fs gs k :
  same_data (VObj fs) (VObj gs) →
  match obj_get k fs, obj_get k gs with
  | Some a, Some b => same_data a b | None, None => True | _, _ => False
  end.
Proof.
  inversion 1 as [|? |? ? gs' Hnd Hfs Hp]; subst; [done|].
  pose proof (fields_rel_keys _ _ _ Hfs) as Hk. rewrite <- (obj_get_perm k gs' gs); [|by rewrite Hk|done].
  by apply obj_get_fields_rel.
Qed.

(** The shapes of two values that are the same data. *)
Inductive same_shape : val → val → Prop :=
| shape_leaf v : (match v with VArr _ | VObj _ => False | _ => True end) → same_shape v v
| shape_arr xs ys : Forall2 same_data xs ys → same_shape (VArr xs) (VArr ys)
| shape_obj fs gs : same_data (VObj fs) (VObj gs) → same_shape (VObj fs) (VObj gs).

Lemma same_data_shape v w : same_data v w → same_shape v w.
Proof. intros Hs. inversion Hs; subst; by constructor. Qed.

Lemma vget_opt_same v w k : same_data v w → same_data (vget_opt v k) (vget_opt w k).
Proof.
  intros [v' Hv|xs ys _|fs gs Hs]%same_data_shape; [by destruct v'; try done; constructor|by constructor|].
  pose proof (same_data_get fs gs k Hs) as Hk. cbn.
  destruct (obj_get k fs), (obj_get k gs); try done; by constructor.
Qed.

Lemma vget_bind_same {B} v w k (f g : val → exc B) :
  same_data v w → (∀ a b, same_data a b → f a = g b) → (vget v k ≫= f) = (vget w k ≫= g).
Proof.
  intros Hs Hf. pose proof (vget_opt_same v w k Hs) as Hk.
  destruct (same_data_shape _ _ Hs) as [v' Hv|xs ys _|fs gs Hs']; cbn in *.
  - destruct v'; try done; cbn; apply Hf; by constructor.
  - apply Hf. by constructor.
  - by apply Hf.
Qed.

Lemma strict_eq_same v w s : same_data v w → strict_eq v (VStr s) = strict_eq w (VStr s).
Proof. by intros [v' Hv|xs ys _|fs gs _]%same_data_shape. Qed.

Lemma strict_eq_same_int v w z : same_data v w → strict_eq v (VInt z) = strict_eq w (VInt z).
Proof. intros [v' Hv|xs ys _|fs gs _]%same_data_shape; [done|reflexivity|reflexivity]. Qed.

Lemma strict_eq_same_leaf v w x :
  same_data v w → (match x with VArr _ | VObj _ => False | _ => True end) → strict_eq v x = strict_eq w x.
Proof. intros [v' Hv|xs ys _|fs gs _]%same_data_shape Hx; [done|by destruct x|by destruct x]. Qed.

Lemma truthy_same v w : same_data v w → truthy v = truthy w.
Proof. by intros [v' Hv|xs ys _|fs gs _]%same_data_shape. Qed.

Lemma is_plain_object_same v w : same_data v w → is_plain_object v = is_plain_object w.
Proof. by intros [v' Hv|xs ys _|fs gs _]%same_data_shape. Qed.

Lemma string_same v w s : same_data v w → v = VStr s → w = VStr s.
Proof. intros [v' Hv|xs ys _|fs gs _]%same_data_shape E; congruence. Qed.

Lemma obj_omit_fields_rel k fs gs :
  Forall2 (fields_rel same_data) fs gs → Forall2 (fields_rel same_data) (obj_omit k fs) (obj_omit k gs).
Proof.
  induction 1 as [|[k1 a] [k2 b] fs gs [Hk Hab] _ IH]; [constructor|]. cbn in *. subst k2.
  destruct (String.eqb k1 k); [done|]. by constructor.
Qed.

Lemma obj_omit_perm k fs gs : fs ≡ₚ gs → obj_omit k fs ≡ₚ obj_omit k gs.
Proof.
  induction 1 as [|[a v] fs gs _ IH|[a v] [b w] fs|fs gs hs _ IH1 _ IH2]; cbn.
  - done.
  - destruct (String.eqb a k); [done|]. by constructor.
  - destruct (String.eqb a k), (String.eqb b k); try done. constructor.
  - by etrans.
Qed.

Lemma keys_omit_sublist k fs : keys (obj_omit k fs) `sublist_of` keys fs.
Proof. induction fs as [|[a v] fs IH]; cbn; [constructor|]. destruct (String.eqb a k); by constructor. Qed.

Lemma same_data_omit k fs gs :
  same_data (VObj fs) (VObj gs) → same_data (VObj (obj_omit k fs)) (VObj (obj_omit k gs)).
Proof.
  inversion 1 as [|? |? ? gs' Hnd Hfs Hp]; subst; [done|].
  apply (sd_obj _ _ (obj_omit k gs')).
  - eapply sublist_NoDup; [exact Hnd|]. apply keys_omit_sublist.
  - by apply obj_omit_fields_rel.
  - by apply obj_omit_perm.
Qed.

(** ** Chains *)

Section Same.
Context `{Hasher}.

Lemma hash_text_same fs gs : same_data (VObj fs) (VObj gs) → hash_text (VObj fs) = hash_text (VObj gs).
Proof. intros Hs. unfold hash_text. cbn [own_props mbind exc_mbind]. by rewrite (same_data_omit "hash" _ _ Hs). Qed.

Lemma hashRecord_same kind fs gs : same_data (VObj fs) (VObj gs) → hashRecord kind (VObj fs) = hashRecord kind (VObj gs).
Proof.
  intros Hs. destruct kind; unfold hashRecord, hashAuditRecord, hashEvidenceEdgeRecord; cbv beta iota;
    by rewrite (hash_text_same _ _ Hs).
Qed.

(** Results that are equal, or accept keys that are the same data. *)
Definition same_key {E : Type} (x y : exc (E + val)) : Prop :=
  x = y ∨ ∃ a b, x = Ret (inr a) ∧ y = Ret (inr b) ∧ same_data a b.

Lemma vget_bind_key {E} v w k (f g : val → exc (E + val)) :
  same_data v w → (∀ a b, same_data a b → same_key (f a) (g b)) → same_key (vget v k ≫= f) (vget w k ≫= g).
Proof.
  intros Hs Hf. pose proof (vget_opt_same v w k Hs) as Hk.
  destruct (same_data_shape _ _ Hs) as [v' Hv|xs ys _|fs gs Hs']; cbn in *.
  - destruct v'; try done; cbn; try (by left); apply Hf; by constructor.
  - apply Hf. by constructor.
  - by apply Hf.
Qed.

Lemma check_envelope_same kind r r' : same_data r r' → same_key (check_envelope kind r) (check_envelope kind r').
Proof.
  intros Hs. unfold check_envelope. apply vget_bind_key; [done|]. intros ev ev' He.
  apply vget_bind_key; [done|]. intros sc sc' Hsc. cbn zeta.
  pose proof (vget_opt_same _ _ "tenantId" Hsc) as Ht. rewrite (truthy_same _ _ Ht).
  destruct (negb _); [by left|]. apply vget_bind_key; [done|]. intros a a' Ha.
  rewrite (strict_eq_same _ _ _ Ha). destruct (negb _); [by left|].
  apply vget_bind_key; [done|]. intros c c' Hc. rewrite (strict_eq_same _ _ _ Hc).
  destruct (negb _); [by left|]. right. eauto.
Qed.

Lemma scoped_envelope_same kind r r' : same_data r r' → same_key (scoped_envelope kind r) (scoped_envelope kind r').
Proof.
  intros Hs. unfold scoped_envelope, scoped_tenant.
  rewrite !exc_bind_assoc. apply vget_bind_key; [done|]. intros ev ev' He. cbn [mbind exc_mbind].
  pose proof (vget_opt_same _ _ "tenantId" (vget_opt_same _ _ "scope" He)) as Ht. rewrite (truthy_same _ _ Ht).
  destruct (negb _); [by left|]. apply vget_bind_key; [done|]. intros a a' Ha.
  rewrite (strict_eq_same _ _ _ Ha). destruct (negb _); [by left|].
  apply vget_bind_key; [done|]. intros c c' Hc. rewrite (strict_eq_same _ _ _ Hc).
  destruct (negb _); [by left|]. right. eauto.
Qed.

Lemma check_link_same kind st r r' :
  tip_ok (previousHash (default genesis st)) → same_data r r' → check_link kind st r = check_link kind st r'.
Proof.
  intros Htip Hs. destruct (same_data_shape _ _ Hs) as [v Hv|xs ys _|fs gs Hs']; [done|reflexivity|].
  unfold check_link. cbn zeta. apply vget_bind_same; [done|]. intros q q' Hq.
  rewrite (strict_eq_same_int _ _ _ Hq). destruct (negb _); [done|].
  apply vget_bind_same; [done|]. intros p p' Hp.
  rewrite (strict_eq_same_leaf _ _ (previousHash (default genesis st)) Hp) by (by destruct Htip as [-> |[? ->]]).
  destruct (negb _); [done|]. rewrite (hashRecord_same _ _ _ Hs').
  destruct (hashRecord kind (VObj gs)) as [h|]; [cbn [mbind exc_mbind]|done].
  apply vget_bind_same; [done|]. intros s s' Hss. rewrite (strict_eq_same _ _ _ Hss).
  destruct (strict_eq s' _) eqn:E; [cbn [negb]|done]. apply strict_eq_str in E as ->.
  apply same_data_sym in Hss. by rewrite (string_same _ _ h Hss eq_refl).
Qed.

Lemma scoped_linkage_same scope st z p p' :
  same_data p p' → scoped_linkage scope st z p = scoped_linkage scope st z p'.
Proof.
  intros [v Hv|xs ys _|fs gs _]%same_data_shape; [done|reflexivity|reflexivity].
Qed.

Lemma check_scoped_same kind scope st r r' :
  same_data r r' → check_scoped kind scope st r = check_scoped kind scope st r'.
Proof.
  intros Hs. destruct (same_data_shape _ _ Hs) as [v Hv|xs ys _|fs gs Hs']; [done|reflexivity|].
  unfold check_scoped. apply vget_bind_same; [done|]. intros q q' Hq.
  apply vget_bind_same; [done|]. intros p p' Hp. apply vget_bind_same; [done|]. intros h h' Hh.
  destruct (same_data_shape _ _ Hq) as [q0 _|? ? _|? ? _]; [|done|done].
  destruct (match q0 with VNum n => num_int n | _ => None end) as [z|]; [|done].
  destruct (z <? 1)%Z; [done|].
  destruct (same_data_shape _ _ Hh) as [h0 _|? ? _|? ? _]; [|done|done].
  destruct h0; try done. rewrite (hashRecord_same _ _ _ Hs').
  by rewrite (scoped_linkage_same scope st z _ _ Hp).
Qed.

(** *** Commits *)

Lemma assertNonEmpty_same v w f : same_data v w → assertNonEmpty v f = assertNonEmpty w f.
Proof. by intros [v' _|xs ys _|fs gs _]%same_data_shape. Qed.

Lemma includes_same l v w : same_data v w → includes l v = includes l w.
Proof. by intros [v' _|xs ys _|fs gs _]%same_data_shape. Qed.

Lemma isSha256Digest_same v w : same_data v w → isSha256Digest v = isSha256Digest w.
Proof. by intros [v' _|xs ys _|fs gs _]%same_data_shape. Qed.

Lemma str_of_same v w : same_data v w → str_of v = str_of w.
Proof. by intros [v' _|xs ys _|fs gs _]%same_data_shape. Qed.

Lemma cleanCommitMember_same v w : same_data v w → cleanCommitMember v = cleanCommitMember w.
Proof.
  intros Hs. unfold cleanCommitMember, isEvidenceCommitMemberRecordType.
  apply vget_bind_same; [done|]. intros i i' Hi.
  assert ((match i with VNum n => num_int n | _ => None end) = (match i' with VNum n => num_int n | _ => None end))
    as -> by by destruct (same_data_shape _ _ Hi).
  destruct (match i' with VNum n => num_int n | _ => None end) as [z|]; [|done].
  destruct (guard_exc (0 <=? z)%Z _); [cbn [mbind exc_mbind]|done].
  apply vget_bind_same; [done|]. intros t t' Ht. rewrite (includes_same _ _ _ Ht), (str_of_same _ _ Ht).
  destruct (guard_exc (includes _ t') _); [cbn [mbind exc_mbind]|done].
  apply vget_bind_same; [done|]. intros d d' Hd. rewrite (assertNonEmpty_same _ _ _ Hd), (str_of_same _ _ Hd).
  destruct (assertNonEmpty d' _); [cbn [mbind exc_mbind]|done].
  apply vget_bind_same; [done|]. intros h h' Hh. by rewrite (isSha256Digest_same _ _ Hh), (str_of_same _ _ Hh).
Qed.

Lemma mapE_same {A B} (R : A → A → Prop) (f : A → exc B) xs ys :
  (∀ x y, R x y → f x = f y) → Forall2 R xs ys → mapE f xs = mapE f ys.
Proof. intros Hf. induction 1 as [|x y xs ys Hxy _ IH]; [done|]. cbn. by rewrite (Hf _ _ Hxy), IH. Qed.

Lemma normalizeCommitMembers_same v w :
  same_data v w → normalizeCommitMembers v = normalizeCommitMembers w.
Proof.
  intros [v' _|xs ys Hxs|fs gs _]%same_data_shape; [done| |done].
  unfold normalizeCommitMembers. rewrite (mapE_same same_data _ _ _ cleanCommitMember_same Hxs).
  by destruct Hxs.
Qed.

Lemma hashEvidenceCommit_same fs gs :
  same_data (VObj fs) (VObj gs) → hashEvidenceCommit (VObj fs) = hashEvidenceCommit (VObj gs).
Proof.
  intros Hs. unfold hashEvidenceCommit, commit_text. cbn [own_props mbind exc_mbind].
  assert (canonicalJson (VObj [("domain", VStr "veritio-commit-v1"); ("commit", VObj (obj_omit "hash" fs))]) =
          canonicalJson (VObj [("domain", VStr "veritio-commit-v1"); ("commit", VObj (obj_omit "hash" gs))]))
    as ->; [|done].
  apply canonicalJson_proper. eapply sd_obj; [| |done].
  - cbn. repeat constructor; set_solver.
  - constructor; [split; [done|by constructor]|]. constructor; [split; [done|]|constructor].
    by apply same_data_omit.
Qed.

Lemma check_commit_envelope_same r r' :
  same_data r r' → same_key (check_commit_envelope r) (check_commit_envelope r').
Proof.
  intros Hs. unfold check_commit_envelope.
  apply vget_bind_key; [done|]. intros a a' Ha. rewrite (strict_eq_same _ _ _ Ha). destruct (negb _); [by left|].
  apply vget_bind_key; [done|]. intros c c' Hc. rewrite (strict_eq_same _ _ _ Hc). destruct (negb _); [by left|].
  apply vget_bind_key; [done|]. intros t t' Ht. rewrite (strict_eq_same _ _ _ Ht). destruct (negb _); [by left|].
  apply vget_bind_key; [done|]. intros s s' Hss.
  assert ((match s with VStr s => negb (String.eqb s "") | _ => false end) =
          (match s' with VStr s => negb (String.eqb s "") | _ => false end)) as ->
    by by destruct (same_data_shape _ _ Hss).
  destruct (negb _); [by left|].
  apply vget_bind_key; [done|]. intros h h' Hh.
  assert (is_string h = is_string h') as -> by by destruct (same_data_shape _ _ Hh).
  destruct (negb _); [by left|]. right. eauto.
Qed.

Lemma check_commit_same st r r' :
  tip_ok (previousHash (default genesis st)) → same_data r r' → check_commit st r = check_commit st r'.
Proof.
  intros Htip Hs. destruct (same_data_shape _ _ Hs) as [v Hv|xs ys _|fs gs Hs']; [done| |].
  { unfold check_commit. cbn [vget mbind exc_mbind]. by destruct Htip as [-> |[? ->]]. }
  unfold check_commit. cbn zeta. apply vget_bind_same; [done|]. intros p p' Hp.
  rewrite (strict_eq_same_leaf _ _ (previousHash (default genesis st)) Hp) by (by destruct Htip as [-> |[? ->]]).
  destruct (negb _); [done|]. apply vget_bind_same; [done|]. intros q q' Hq.
  rewrite (strict_eq_same_int _ _ _ Hq). destruct (negb _); [done|].
  apply vget_bind_same; [done|]. intros m m' Hm. rewrite (normalizeCommitMembers_same _ _ Hm).
  destruct (normalizeCommitMembers m') as [members|]; [|done].
  apply vget_bind_same; [done|]. intros c c' Hc. rewrite (strict_eq_same_int _ _ _ Hc).
  destruct (negb _); [done|]. apply vget_bind_same; [done|]. intros t t' Ht.
  destruct (computeRecordsRoot members) as [root|]; [cbn [mbind exc_mbind]|done].
  rewrite (strict_eq_same _ _ _ Ht). destruct (negb _); [done|].
  apply vget_bind_same; [done|]. intros h h' Hh. rewrite (hashEvidenceCommit_same _ _ Hs').
  destruct (hashEvidenceCommit (VObj gs)) as [e|]; [cbn [mbind exc_mbind]|done].
  rewrite (strict_eq_same _ _ _ Hh). destruct (strict_eq h' _) eqn:E; [cbn [negb]|done].
  apply strict_eq_str in E as ->. apply same_data_sym in Hh. by rewrite (string_same _ _ e Hh eq_refl).
Qed.

(** *** The verifiers *)

(** Records with string keys, and states that satisfy [P], walk alike. *)
Lemma walk_same {S R} (P : S → Prop) (key : val → exc (R + val)) (step : option S → val → exc (R + S)) rs rs' :
  (∀ r r', same_data r r' → same_key (key r) (key r')) →
  (∀ st r r', (∀ s, st = Some s → P s) → same_data r r' → step st r = step st r') →
  (∀ st r s, step st r = Ret (inr s) → P s) →
  Forall (λ r, ∀ k, key r = Ret (inr k) → is_string k = true) rs → Forall2 same_data rs rs' →
  ∀ m i, (∀ k s, map_get (VStr k) m = Some s → P s) → walk key step m i rs = walk key step m i rs'.
Proof.
  intros Hkey Hstep HP Htyped Hrs. induction Hrs as [|r r' rs rs' Hr _ IH]; intros m i Hm; [done|].
  inversion Htyped as [|? ? Ht Htyped']; subst. cbn [walk].
  assert (key r = key r') as Ek.
  { destruct (Hkey _ _ Hr) as [E|(a & b & Ea & Eb & Hab)]; [done|]. rewrite Ea, Eb.
    pose proof (Ht _ Ea) as Hs. destruct a; try done. by rewrite (string_same _ _ _ Hab eq_refl). }
  rewrite <- Ek. destruct (key r) as [[why|k]|] eqn:E; [done|cbn [mbind exc_mbind]|done].
  pose proof (Ht _ eq_refl) as Hs. destruct k as [| | | |k| | | |]; try done.
  rewrite (Hstep _ _ _ (Hm k) Hr). destruct (step (map_get (VStr k) m) r') as [[why|s]|] eqn:Es; [done| |done].
  cbn [mbind exc_mbind]. apply IH; [done|]. intros k' s' Hs'. rewrite map_get_set in Hs'.
  destruct (String.eqb k k'); [injection Hs' as <-; by eapply HP|by eapply Hm].
Qed.

Definition state_tip_ok (s : link_state) : Prop := tip_ok (previousHash s).

Lemma state_tip_default st : (∀ s, st = Some s → state_tip_ok s) → tip_ok (previousHash (default genesis st)).
Proof. destruct st as [s|]; [intros Hs; by apply Hs|by left]. Qed.

Lemma verifyRecords_same kind rs rs' :
  Forall (tenant_typed kind) rs → Forall2 same_data rs rs' → verifyRecords kind rs = verifyRecords kind rs'.
Proof.
  intros Ht Hrs. unfold verifyRecords.
  apply (walk_same state_tip_ok); [apply check_envelope_same| | |exact Ht|exact Hrs|done].
  - intros st r r' Hst Hr. apply check_link_same; [by apply state_tip_default|done].
  - intros st r s E. unfold check_link in E. apply bind_ret in E as (q & _ & E). destruct (negb _); [done|].
    apply bind_ret in E as (p & _ & E). destruct (negb _); [done|]. apply bind_ret in E as (h & _ & E).
    apply bind_ret in E as (d & _ & E). destruct (strict_eq d _) eqn:Ed; [|done].
    apply strict_eq_str in Ed as ->. injection E as <-. right. by exists h.
Qed.

Lemma verifyScopedChain_same kind scope rs rs' :
  Forall (λ r, ∀ k, scoped_envelope kind r = Ret (inr k) → is_string k = true) rs → Forall2 same_data rs rs' →
  verifyScopedChain kind scope rs = verifyScopedChain kind scope rs'.
Proof.
  intros Ht Hrs. unfold verifyScopedChain.
  apply (walk_same (λ _, True)); [apply scoped_envelope_same| |done|exact Ht|exact Hrs|done].
  intros st r r' _ Hr. by apply check_scoped_same.
Qed.

Lemma commit_stream_string r k : check_commit_envelope r = Ret (inr k) → is_string k = true.
Proof.
  unfold check_commit_envelope. intros E. do 3 (apply bind_ret in E as (? & _ & E); destruct (negb _); [done|]).
  apply bind_ret in E as (s & _ & E). destruct (negb _) eqn:Es in E; [done|].
  apply bind_ret in E as (h & _ & E). destruct (negb (is_string h)); [done|]. injection E as <-. by destruct s.
Qed.

Lemma verifyEvidenceCommits_same rs rs' :
  Forall2 same_data rs rs' → verifyEvidenceCommits rs = verifyEvidenceCommits rs'.
Proof.
  intros Hrs. unfold verifyEvidenceCommits.
  apply (walk_same state_tip_ok); [apply check_commit_envelope_same| | | |exact Hrs|done].
  - intros st r r' Hst Hr. apply check_commit_same; [by apply state_tip_default|done].
  - intros st r s E. unfold check_commit in E.
    do 2 (apply bind_ret in E as (? & _ & E); destruct (negb _); [done|]).
    apply bind_ret in E as (m & _ & E). destruct (normalizeCommitMembers m); [|done].
    apply bind_ret in E as (c & _ & E). destruct (negb _); [done|]. apply bind_ret in E as (t & _ & E).
    apply bind_ret in E as (root & _ & E). destruct (negb _); [done|]. apply bind_ret in E as (h & _ & E).
    apply bind_ret in E as (d & _ & E). destruct (strict_eq h _) eqn:Ed; [|done].
    apply strict_eq_str in Ed as ->. injection E as <-. right. by exists d.
  - rewrite Forall_forall. intros r _ k. apply commit_stream_string.
Qed.

(** Both readings of the tenant are strings when they are present. *)
Definition typed_record (kind : chainKind) (r : val) : Prop :=
  tenant_typed kind r ∧ ∀ k, scoped_envelope kind r = Ret (inr k) → is_string k = true.

Lemma verifyChainScoped_same kind rs rs' scope :
  Forall (typed_record kind) rs → Forall2 same_data rs rs' →
  verifyChainScoped kind rs scope = verifyChainScoped kind rs' scope.
Proof.
  intros Ht Hrs.
  assert (verifyRecords kind rs = verifyRecords kind rs') as E1.
  { apply verifyRecords_same; [|done]. eapply Forall_impl; [exact Ht|]. by intros r []. }
  assert (verifyScopedChain kind scope rs = verifyScopedChain kind scope rs') as E2.
  { apply verifyScopedChain_same; [|done]. eapply Forall_impl; [exact Ht|]. by intros r []. }
  destruct kind; cbn; unfold verifyAuditChainScoped, verifyEdgeChainScoped, verifyAuditChain, verifyEdgeChain,
    verifyAuditRecords, verifyEvidenceEdgeRecords; destruct scope; rewrite ?E1, ?E2; done.
Qed.

Lemma verifyCommitChain_same rs rs' : Forall2 same_data rs rs' → verifyCommitChain rs = verifyCommitChain rs'.
Proof. intros Hrs. unfold verifyCommitChain. by rewrite (verifyEvidenceCommits_same _ _ Hrs). Qed.
End Same.
