(* ===== verification/GovernedChange.v ===== *)
(** * Governed changes (sdks/typescript/src/governed-change.ts)

    Drafts of the evidence of a mutation: a change, the activity that made it, and
    the revision of the entity, whose state is committed to field by field as the
    entity's capture policies say. Refs, scopes, rows and metadata, which the code
    inspects or passes on whole, are arbitrary values; ids, types and paths have
    their declared type. The host's HMAC is a parameter ([Hmac]), as are the clock
    and the hash function. *)

From S2P Require Import Prelude Regex JsNum JsVal Dates JsonText Hash Canonical Redact AuditChain Event.

(** [createHmac("sha256", secret).update(value).digest("hex")] *)
Class Hmac := { hmac_hex : string → string → string }.

Definition RESERVED_CONTEXT_KEYS : list string :=
  ["authSessionId"; "authContextId"; "activityEpisodeId"; "traceId"; "correlationId"; "causationEventId";
   "changeId"; "capturePolicyId"; "collectionSource"].

(** ** Refs *)

Definition ref_val (authority kind type id : string) : val :=
  VObj [("authority", VStr authority); ("kind", VStr kind); ("type", VStr type); ("id", VStr id)].

(** Validates full structured references before they cross SDK boundaries. *)
Definition assertRef (ref : val) : exc unit :=
  authority ← vget ref "authority"; _ ← assertNonEmpty authority "ref.authority";
  kind ← vget ref "kind"; _ ← assertNonEmpty kind "ref.kind";
  type ← vget ref "type"; _ ← assertNonEmpty type "ref.type";
  id ← vget ref "id"; assertNonEmpty id "ref.id".

(** A property that is known to be a string. *)
Definition ref_text (ref : val) (key : string) : string := default "" (str_of (vget_opt ref key)).

Definition refKey (ref : val) : exc string :=
  _ ← assertRef ref;
  Ret (ref_text ref "authority" +:+ ":" +:+ ref_text ref "kind" +:+ ":" +:+ ref_text ref "type" +:+ ":" +:+ ref_text ref "id").

(** ** Entities *)

(** [fields]: the capture policies, an object of objects. *)
Record GovernedEntity := Entity {
  authority : string; type_ : string; schemaRef : string; fieldSetRef : string;
  identity : val → exc val; fields : val;
}.

Definition defineEntity (definition : GovernedEntity) : exc GovernedEntity :=
  _ ← assertNonEmpty (VStr (authority definition)) "authority";
  _ ← assertNonEmpty (VStr (type_ definition)) "type";
  _ ← assertNonEmpty (VStr (schemaRef definition)) "schemaRef";
  _ ← assertNonEmpty (VStr (fieldSetRef definition)) "fieldSetRef";
  Ret definition.

(** [entity.ref(rowOrId)] *)
Definition entity_ref (definition : GovernedEntity) (rowOrId : val) : exc val :=
  id ← (if is_string rowOrId then Ret rowOrId else identity definition rowOrId);
  _ ← assertNonEmpty id "entity.id";
  Ret (ref_val (authority definition) "entity" (type_ definition) (default "" (str_of id))).

(** ** Metadata *)

(** [Object.entries(o).sort()]: entries are compared as their texts, which are
    taken when there is something to compare. *)
Definition sorted_entries `{Host} (fs : list (string * val)) : exc (list (string * val)) :=
  if (length fs <=? 1)%nat then Ret fs else
  texts ← mapE (λ kv, js_String (VArr [VStr kv.1; kv.2])) fs;
  Ret (snd <$> sort_fields (zip texts fs)).

(** [out[key] = value] for the entries that are neither [null] nor [undefined]. *)
Definition assign_present (fs : list (string * val)) : list (string * val) :=
  fold_left (λ out kv, if is_undef kv.2 || is_null kv.2 then out else obj_assign kv.1 kv.2 out) fs [].

Definition compactMetadata (fs : list (string * val)) : val := VObj (assign_present fs).

Fixpoint assign_context (context : val) (keys : list string) (merged : list (string * val)) : exc (list (string * val)) :=
  match keys with
  | [] => Ret merged
  | key :: keys =>
      value ← vget context key;
      assign_context context keys (if is_undef value then merged else obj_assign key value merged)
  end.

(** An argument that defaults to [{}]. *)
Definition or_empty (v : val) : val := if is_undef v then VObj [] else v.

(** [Object.hasOwn(metadata, key)] for the reserved keys in turn. *)
Fixpoint refuse_reserved (fs : list (string * val)) (keys : list string) : exc unit :=
  match keys with
  | [] => Ret tt
  | key :: keys => _ ← guard_exc (negb (obj_has key fs)) ("metadata." +:+ key +:+ " is reserved by Veritio"); refuse_reserved fs keys
  end.

Definition mergeVeritioMetadata `{Host} (callerMetadata context : val) : exc (list (string * val)) :=
  let callerMetadata := or_empty callerMetadata in
  let context := or_empty context in
  caller ← own_props callerMetadata;
  _ ← refuse_reserved caller RESERVED_CONTEXT_KEYS;
  entries ← sorted_entries caller;
  assign_context context RESERVED_CONTEXT_KEYS (assign_present entries).

(** ** Values of rows *)

Fixpoint toJsonValue (value : val) : exc val :=
  match value with
  | VNull | VStr _ | VBool _ => Ret value
  | VNum n => if is_finite n then Ret value else Throw "field values must be finite JSON numbers"
  | VArr xs => ys ← mapE toJsonValue xs; Ret (VArr ys)
  | VDate (Some t) => Ret (VStr (toISOString t))
  | VDate None => Throw "Invalid time value"
  | VObj fs =>
      out ← fold_left assign_normalized
              (sort_fields ((λ kv, (kv.1, if is_undef kv.2 then Ret VUndef else toJsonValue kv.2)) <$> fs)) (Ret []);
      Ret (VObj out)
  | VUndef => Throw "unsupported field value type: undefined"
  | VOther _ => Throw "unsupported field value type"
  end.

(** [row[key]], where [Object.prototype] answers for its own members. *)
Definition row_value (row : val) (key : string) : exc val :=
  value ← vget row key;
  Ret (if is_undef value && bool_decide (key ∈ object_prototype_keys) && negb (obj_has key (default [] (exc_to_option (own_props row))))
       then (if String.eqb key "__proto__" then VObj [] else VOther key) else value).

(** The policies of the captured fields, in the order of their names. *)
Definition captured_policies (fields : val) : exc (list (string * val)) :=
  policies ← own_props fields;
  captures ← mapE (λ kv, if truthy kv.2 then capture ← vget kv.2 "capture"; Ret (kv.1, capture) else Ret (kv.1, VStr "omit"))
               (sort_fields policies);
  Ret (filter (λ kv, strict_eq kv.2 (VStr "omit") = false) captures).

(** [canonicalJson(toJsonValue(value))] *)
Definition value_text (value : val) : exc string :=
  json ← toJsonValue value;
  text ← canonicalJson json;
  match text with Some s => Ret s | None => Throw "data must be of type string" end.

Section Draft.
Context `{Hasher} `{Hmac} `{Host}.

Definition prefixedHmacSha256 (value secret : string) : string := "sha256:" +:+ hmac_hex secret value.

(** What the commitment holds of a field that is captured. *)
Definition capture_value (capture digestKeys value : val) : exc val :=
  if strict_eq capture (VStr "full") then toJsonValue value
  else if strict_eq capture (VStr "keyed_digest") then
    keyedDigest ← vget digestKeys "keyedDigest";
    _ ← guard_exc (truthy keyedDigest) "digestKeys.keyedDigest is required for keyed_digest fields";
    keyVersion ← vget keyedDigest "keyVersion"; _ ← assertNonEmpty keyVersion "digestKeys.keyedDigest.keyVersion";
    secret ← vget keyedDigest "secret"; _ ← assertNonEmpty secret "digestKeys.keyedDigest.secret";
    text ← value_text value;
    Ret (VObj [("algorithm", VStr "hmac-sha256"); ("keyVersion", keyVersion);
               ("digest", VStr (prefixedHmacSha256 text (default "" (str_of secret))))])
  else if strict_eq capture (VStr "content_digest") then
    text ← value_text value;
    Ret (VObj [("captureMode", capture); ("digest", VStr (prefixedSha256 text))])
  else
    name ← js_String capture;
    Throw ("capture mode " +:+ name +:+ " is not supported by the current governed-change draft helper").

Fixpoint capture_fields (digestKeys row : val) (policies out : list (string * val)) : exc (list (string * val)) :=
  match policies with
  | [] => Ret out
  | (key, capture) :: policies =>
      value ← row_value row key;
      if is_undef value then capture_fields digestKeys row policies out else
      field ← capture_value capture digestKeys value;
      capture_fields digestKeys row policies (obj_assign key field out)
  end.

Definition createStateCommitment (entity : GovernedEntity) (row digestKeys : val) : exc val :=
  policies ← captured_policies (fields entity);
  fields ← capture_fields (or_empty digestKeys) row policies [];
  text ← canonicalJson (VObj fields);
  digest ← match text with Some s => Ret (prefixedSha256 s) | None => Throw "data must be of type string" end;
  Ret (VObj [("algorithm", VStr "sha256"); ("canonicalization", VStr "veritio-json-v1");
             ("schemaRef", VStr (schemaRef entity)); ("fieldSetRef", VStr (fieldSetRef entity));
             ("fields", VObj fields); ("digest", VStr digest)]).

(** ** Ids *)

Definition slice (from to_ : nat) (s : string) : string := of_chars (take (to_ - from) (drop from (chars s))).

Definition governedRevisionId (entityType entityId stateDigest changeId : string) : string :=
  let digest12 := slice 7 (7 + 12) stateDigest in
  let change8 := slice 0 8 (sha256Hex changeId) in
  "rev_" +:+ entityType +:+ "_" +:+ entityId +:+ "_" +:+ digest12 +:+ "_" +:+ change8.

Definition stableId (value : string) : string := slice 0 16 (sha256Hex value).

Definition stableActionDigest (tenantId idempotencyKey : string) : string :=
  slice 0 16 (sha256Hex (tenantId +:+ ":" +:+ idempotencyKey)).

(** ** Edges and actors *)

Definition isGraphActorType (value : val) : bool := includes ["user"; "service"; "system"; "ai_agent"] value.

Definition entityFromRef (ref : val) : exc val :=
  _ ← assertRef ref;
  let kind := vget_opt ref "kind" in
  let type := if strict_eq kind (VStr "commit") then VStr "evidence_commit" else kind in
  Ret (VObj ([("type", type); ("id", vget_opt ref "id"); ("resourceType", vget_opt ref "type")]
             ++ (if strict_eq kind (VStr "principal") && isGraphActorType (vget_opt ref "type")
                 then [("actorType", vget_opt ref "type")] else []))).

Definition draftEdge (relation : string) (from to_ : val) (occurredAt : string) (scope : val) : exc val :=
  fromKey ← refKey from;
  toKey ← refKey to_;
  fromEntity ← entityFromRef from;
  toEntity ← entityFromRef to_;
  Ret (VObj [("id", VStr ("edge_" +:+ relation +:+ "_" +:+ stableId fromKey +:+ "_" +:+ stableId toKey));
             ("occurredAt", VStr occurredAt); ("scope", scope);
             ("from", fromEntity); ("relation", VStr relation); ("to", toEntity);
             ("metadata", VObj [("fromRef", from); ("toRef", to_)])]).

Definition principalFromRef (ref : val) : exc val :=
  kind ← vget ref "kind";
  _ ← guard_exc (strict_eq kind (VStr "principal")) "principal ref is required";
  Ret (VObj [("type", vget_opt ref "type"); ("id", VStr (ref_text ref "authority" +:+ ":" +:+ ref_text ref "id"))]).

(** ** Dates *)

(** [/[zZ]$|[+-]\d{2}:?\d{2}$/], unanchored on the left. *)
Definition ZONE_PATTERN : re :=
  let anything := Star (Cls (λ _, true)) in
  Seq anything (Alt (Cls (one_of "zZ"))
                    (Seq (Cls (one_of "+-")) (Seq (pow 2 (Cls digit)) (Seq (opt (Cls (one_of ":"))) (pow 2 (Cls digit)))))).

Definition normalizeDate (value : val) : exc string :=
  let checked t := match t with Some t => Ret (toISOString t) | None => Throw "occurredAt must be a valid date" end in
  match value with
  | VDate t => checked t
  | _ =>
      text ← js_String value;
      checked (if re_test ZONE_PATTERN text then date_value value else date_parse (text +:+ "Z"))
  end.
End Draft.

(** ** Drafts *)

Record GovernedChangeDraftInput := ChangeInput {
  scope : val; entity : GovernedEntity; before : val; after : val; changedPaths : list string;
  change_id : string; change_type : string; initiatedBy : val;
  authorizationAssertionRef : val; delegationAssertionRef : val;
  activity_id : string; activity_type : string; performedBy : val;
  producer : val; occurredAt : val; idempotencyKeyHash : string; context : val; metadata : val;
  capturePolicyRef : val; expectedParentRevisionRef : val; mutationBinding : val; digestKeys : val;
}.

Record GovernedOutboxEntry := OutboxEntry {
  outbox_mutationBinding : val; outbox_parent : option val; outbox_records : list AuditEventInput; outbox_edges : list val;
}.

Record GovernedChangeDraft := ChangeDraft {
  changeRef : val; activityRef : val; entityRef : val; revision : val;
  draft_events : list AuditEventInput; draft_edges : list val; outboxEntry : GovernedOutboxEntry;
}.

(** The revision; [null] and absent properties are kept apart. *)
Definition revision_val (ref entity : val) (parents : list val) (stateCommitment : val) (changedPaths : list string)
    (generatedBy capturePolicyRef : val) : val :=
  VObj ([("ref", ref); ("entity", entity); ("parents", VArr parents); ("stateCommitment", stateCommitment);
         ("changedPaths", VArr (VStr <$> sort_by String.leb changedPaths)); ("generatedBy", generatedBy)]
        ++ if_truthy "capturePolicyRef" capturePolicyRef).

(** An event of a draft: [{ ...common, id, actor, action, target, metadata }], the
    metadata compacted from [{ ...metadata, ...own }]. *)
Definition draft_event (scope : val) (occurredAt id : string) (actor : val) (action : string) (target : val)
    (metadata own : list (string * val)) : AuditEventInput := {|
  in_id := VStr id; in_occurredAt := VStr occurredAt; in_actor := actor; in_action := VStr action; in_target := target;
  in_scope := scope; in_requestId := VUndef; in_purpose := VStr "change_provenance"; in_lawfulBasis := VUndef;
  in_dataCategories := Some ["source_reference"]; in_retention := VStr "change_1y";
  in_metadata := compactMetadata (fold_left (λ acc kv, obj_define kv.1 kv.2 acc) own metadata);
|}.

Definition target_val (type id : string) : val := VObj [("type", VStr type); ("id", VStr id)].

Section Drafts.
Context `{Hasher} `{Hmac} `{Host}.

Definition captureAssurance (input : GovernedChangeDraftInput) : val :=
  VObj [("captureMethod", VStr "transactional_outbox");
        ("mutationBinding", nullish_or (mutationBinding input) (VStr "not_transaction_bound"))].

Definition draft_events_of (input : GovernedChangeDraftInput) (occurredAt : string) (metadata : list (string * val))
    (changeRef activityRef revisionRef revision : val) (entityId : string) : exc (list AuditEventInput) :=
  let event := draft_event (scope input) occurredAt in
  let hash := ("idempotencyKeyHash", VStr (idempotencyKeyHash input)) in
  let assurance := ("captureAssurance", captureAssurance input) in
  initiator ← principalFromRef (initiatedBy input);
  performer ← principalFromRef (performedBy input);
  writer ← principalFromRef (producer input);
  Ret [event ("evt_change_declared_" +:+ change_id input) initiator "change.declared" (target_val "change" (change_id input)) metadata
         [("recordType", VStr "change.declared"); ("recordAuthority", vget_opt changeRef "authority"); ("producer", producer input);
          ("initiatedBy", initiatedBy input); ("changeType", VStr (change_type input)); hash;
          ("capturePolicyRef", capturePolicyRef input); ("authorizationAssertionRef", authorizationAssertionRef input);
          ("delegationAssertionRef", delegationAssertionRef input); assurance];
       event ("evt_activity_recorded_" +:+ activity_id input) performer "activity.recorded" (target_val "activity" (activity_id input)) metadata
         [("recordType", VStr "activity.recorded"); ("recordAuthority", vget_opt activityRef "authority"); ("producer", producer input);
          ("performedBy", performedBy input); ("activityType", VStr (activity_type input)); hash; assurance];
       event ("evt_entity_revision_" +:+ ref_text revisionRef "id") writer "entity.revision.created"
         (target_val (type_ (entity input)) entityId) metadata
         [("recordType", VStr "entity.revision"); ("recordAuthority", vget_opt revisionRef "authority"); ("producer", producer input);
          hash; ("veritio", VObj [("revision", revision)]); assurance]].

Definition draft_edges_of (input : GovernedChangeDraftInput) (occurredAt : string)
    (changeRef activityRef revisionRef parentRef : val) : exc (list val) :=
  let edge relation from to_ := draftEdge relation from to_ occurredAt (scope input) in
  has_activity ← edge "has_activity" changeRef activityRef;
  has_output ← edge "has_output" changeRef revisionRef;
  performed_by ← edge "performed_by" activityRef (performedBy input);
  generated ← edge "generated" activityRef revisionRef;
  derived ← (if truthy parentRef then derived_from ← edge "derived_from" revisionRef parentRef; Ret [derived_from] else Ret []);
  Ret ([has_activity; has_output; performed_by; generated] ++ derived).

Definition createGovernedChangeDraft (input : GovernedChangeDraftInput) : exc GovernedChangeDraft :=
  tenantId ← vget (scope input) "tenantId";
  _ ← assertNonEmpty tenantId "scope.tenantId";
  _ ← assertRef (initiatedBy input);
  _ ← assertRef (performedBy input);
  _ ← assertRef (producer input);
  occurredAt ← normalizeDate (occurredAt input);
  entityRef ← entity_ref (entity input) (after input);
  let entityId := ref_text entityRef "id" in
  let entityType := type_ (entity input) in
  let changeRef := ref_val "veritio" "change" (change_type input) (change_id input) in
  let activityRef := ref_val "veritio" "activity" (activity_type input) (activity_id input) in
  _ ← (if truthy (expectedParentRevisionRef input) then assertRef (expectedParentRevisionRef input) else Ret tt);
  let parentRef := if truthy (before input) then expectedParentRevisionRef input else VUndef in
  stateCommitment ← createStateCommitment (entity input) (after input) (digestKeys input);
  let revisionRef := ref_val "veritio" "revision" entityType
    (governedRevisionId entityType entityId (ref_text stateCommitment "digest") (change_id input)) in
  let parents := if truthy parentRef then [parentRef] else [] in
  let revision := revision_val revisionRef entityRef parents stateCommitment (changedPaths input) activityRef (capturePolicyRef input) in
  metadata ← mergeVeritioMetadata (metadata input) (context input);
  events ← draft_events_of input occurredAt metadata changeRef activityRef revisionRef revision entityId;
  edges ← draft_edges_of input occurredAt changeRef activityRef revisionRef parentRef;
  Ret (ChangeDraft changeRef activityRef entityRef revision events edges
         (OutboxEntry (nullish_or (mutationBinding input) (VStr "not_transaction_bound"))
            (if truthy parentRef then Some parentRef else None) events edges)).

(** ** Actions *)

Definition escapeJsonPointerSegment (value : string) : string :=
  of_chars (concat ((λ c, if Ascii.eqb c "~" then ["~"%char; "0"%char] else if Ascii.eqb c "/" then ["~"%char; "1"%char] else [c]) <$> chars value)).

(** [before === undefined || before[key] === undefined] *)
Definition absent_before (before : val) (key : string) : exc bool :=
  if is_undef before then Ret true else value ← row_value before key; Ret (is_undef value).

Fixpoint infer_paths (before after : val) (policies : list (string * val)) : exc (list string) :=
  match policies with
  | [] => Ret []
  | (key, _) :: policies =>
      value ← row_value after key;
      if is_undef value then infer_paths before after policies else
      absent ← absent_before before key;
      changed ← (if (absent : bool) then Ret true else
                 old ← row_value before key;
                 oldText ← value_text old;
                 newText ← value_text value;
                 Ret (negb (String.eqb oldText newText)));
      paths ← infer_paths before after policies;
      Ret (if (changed : bool) then ("/" +:+ escapeJsonPointerSegment key) :: paths else paths)
  end.

Definition inferChangedPaths (entity : GovernedEntity) (before after : val) : exc (list string) :=
  policies ← captured_policies (fields entity); infer_paths before after policies.

Record GovernedActionDraftInput := ActionInput {
  act_scope : val; act_entity : GovernedEntity; act_before : val; act_after : val; actionType : val; activityType : val;
  act_initiatedBy : val; act_performedBy : val; act_producer : val; act_occurredAt : val; idempotencyKey : val;
  act_changeId : option string; act_activityId : option string; act_changedPaths : option (list string);
  act_context : val; act_metadata : val; act_capturePolicyRef : val; act_expectedParentRevisionRef : val;
  act_mutationBinding : val; act_digestKeys : val;
}.

(** [now] is what the clock shows. *)
Definition createGovernedActionDraft (now : Z) (input : GovernedActionDraftInput) : exc GovernedChangeDraft :=
  tenantId ← vget (act_scope input) "tenantId";
  _ ← assertNonEmpty tenantId "scope.tenantId";
  _ ← assertNonEmpty (actionType input) "actionType";
  _ ← assertNonEmpty (activityType input) "activityType";
  _ ← assertNonEmpty (idempotencyKey input) "idempotencyKey";
  _ ← assertRef (act_initiatedBy input);
  _ ← assertRef (act_performedBy input);
  _ ← assertRef (act_producer input);
  entityRef ← entity_ref (act_entity input) (act_after input);
  let idSeed := stableActionDigest (default "" (str_of tenantId)) (default "" (str_of (idempotencyKey input))) in
  changedPaths ← match act_changedPaths input with
                 | Some paths => Ret paths
                 | None => inferChangedPaths (act_entity input) (act_before input) (act_after input)
                 end;
  _ ← guard_exc (negb (length changedPaths =? 0)%nat) "at least one governed field must change";
  let seeded kind := kind +:+ type_ (act_entity input) +:+ "_" +:+ ref_text entityRef "id" +:+ "_" +:+ idSeed in
  hash ← hashIdempotencyKey tenantId (idempotencyKey input);
  createGovernedChangeDraft (ChangeInput (act_scope input) (act_entity input) (act_before input) (act_after input) changedPaths
    (default (seeded "chg_") (act_changeId input)) (default "" (str_of (actionType input))) (act_initiatedBy input) VUndef VUndef
    (default (seeded "act_") (act_activityId input)) (default "" (str_of (activityType input))) (act_performedBy input)
    (act_producer input) (nullish_or (act_occurredAt input) (VDate (Some now))) hash (act_context input) (act_metadata input)
    (act_capturePolicyRef input) (act_expectedParentRevisionRef input) (act_mutationBinding input) (act_digestKeys input)).
End Drafts.
