(* ===== verification/GovernedSafety.v ===== *)
(** * What drafts of governed changes promise

    A draft shows of a row what the capture policies let through and nothing else,
    and its digest commits to it; callers cannot shadow the context of a change;
    and what is drafted can be recorded. *)

From S2P Require Import Prelude Regex JsNum JsVal Dates JsonText Hash Sha256 Canonical Redact AuditChain Event SameData Commit.
From S2P Require Import GovernedChange Demo.

(** ** What a commitment shows *)

Section Capture.
Context `{HS : Hasher} `{HM : Hmac} `{HO : Host}.

(** Values that a capture policy does not tell apart: of a digest field only the
    digest is seen. *)
Inductive same_capture (digestKeys : val) : val → val → val → Prop :=
| same_value capture v : same_capture digestKeys capture v v
| same_content v w s s' :
    value_text v = Ret s → value_text w = Ret s' → sha256Hex s = sha256Hex s' →
    same_capture digestKeys (VStr "content_digest") v w
| same_keyed v w s s' :
    value_text v = Ret s → value_text w = Ret s' →
    (∀ secret, hmac_hex secret s = hmac_hex secret s') →
    same_capture digestKeys (VStr "keyed_digest") v w.

(** Rows that agree, field by field, on what is captured of them. *)
Definition same_captures (R : val → val → val → Prop) (entity : GovernedEntity) (row row' : val) : Prop :=
  ∀ policies key capture, captured_policies (fields entity) = Ret policies → (key, capture) ∈ policies →
    match row_value row key, row_value row' key with
    | Ret v, Ret w => R capture v w
    | Throw e, Throw e' => e = e'
    | _, _ => False
    end.

Lemma value_text_defined v s : value_text v = Ret s → is_undef v = false.
Proof. by destruct v. Qed.

Lemma same_capture_undef keys capture v w : same_capture keys capture v w → is_undef v = is_undef w.
Proof. by destruct 1 as [|v w s s' Hv%value_text_defined Hw%value_text_defined|v w s s' Hv%value_text_defined Hw%value_text_defined]; rewrite ?Hv, ?Hw. Qed.

Lemma same_capture_value keys capture v w : same_capture keys capture v w →
  capture_value capture keys v = capture_value capture keys w.
Proof.
  destruct 1 as [|v w s s' Hv Hw E|v w s s' Hv Hw E]; [done|..]; unfold capture_value; cbn [strict_eq String.eqb].
  - cbn. rewrite Hv, Hw. cbn. unfold prefixedSha256. by rewrite E.
  - cbn. destruct (vget keys "keyedDigest") as [kd|]; [|done]. cbn. destruct (guard_exc _ _) as [[]|]; [|done]. cbn.
    destruct (vget kd "keyVersion") as [ver|]; [|done]. cbn. destruct (assertNonEmpty ver _) as [[]|]; [|done]. cbn.
    destruct (vget kd "secret") as [sec|]; [|done]. cbn. destruct (assertNonEmpty sec _) as [[]|]; [|done]. cbn.
    rewrite Hv, Hw. cbn. unfold prefixedHmacSha256. by rewrite E.
Qed.

Lemma same_captures_fields entity keys row row' policies out : captured_policies (fields entity) = Ret policies →
  same_captures (same_capture keys) entity row row' →
  capture_fields keys row policies out = capture_fields keys row' policies out.
Proof.
  intros Hp Hrow. assert (∀ key capture, (key, capture) ∈ policies → match row_value row key, row_value row' key with
    | Ret v, Ret w => same_capture keys capture v w | Throw e, Throw e' => e = e' | _, _ => False end) as Hall.
  { intros key capture Hin. by apply (Hrow policies). }
  clear Hp Hrow. revert out. induction policies as [|[key capture] policies IH]; intros out; [done|].
  cbn [capture_fields]. pose proof (Hall key capture ltac:(by left)) as Hk.
  assert (∀ out, capture_fields keys row policies out = capture_fields keys row' policies out) as IH'.
  { apply IH. intros k c Hin. apply Hall. by right. }
  destruct (row_value row key) as [v|e], (row_value row' key) as [w|e']; try done; [|by rewrite Hk].
  cbn [mbind exc_mbind]. rewrite (same_capture_undef _ _ _ _ Hk), (same_capture_value _ _ _ _ Hk).
  destruct (is_undef w); [by apply IH'|]. destruct (capture_value capture keys w); [by apply IH'|done].
Qed.

Lemma commitment_view entity keys row row' : same_captures (same_capture (or_empty keys)) entity row row' →
  createStateCommitment entity row keys = createStateCommitment entity row' keys.
Proof.
  intros Hrow. unfold createStateCommitment. destruct (captured_policies (fields entity)) as [policies|] eqn:Hp; [|done]. cbn [mbind exc_mbind].
  by rewrite (same_captures_fields entity (or_empty keys) row row' policies [] Hp Hrow).
Qed.

(** ** Changed paths *)

(** Whether a field has another value now than before, as far as its values can be
    told apart. *)
Definition changed (before after : val) (key : string) : exc bool :=
  value ← row_value after key;
  if is_undef value then Ret false else
  absent ← absent_before before key;
  if (absent : bool) then Ret true else
  old ← row_value before key; oldText ← value_text old; newText ← value_text value; Ret (negb (String.eqb oldText newText)).

(** The changed fields of two pairs of rows are the same captured ones. *)
Definition same_changes (entity : GovernedEntity) (before after before' after' : val) : Prop :=
  ∀ policies key capture, captured_policies (fields entity) = Ret policies → (key, capture) ∈ policies →
    changed before after key = changed before' after' key.

Lemma infer_paths_cons before after key capture policies :
  infer_paths before after ((key, capture) :: policies) =
  (here ← changed before after key; paths ← infer_paths before after policies;
   Ret (if (here : bool) then ("/" +:+ escapeJsonPointerSegment key) :: paths else paths)).
Proof.
  cbn [infer_paths]. unfold changed. destruct (row_value after key) as [v|]; [|done]. cbn [mbind exc_mbind].
  destruct (is_undef v); [by destruct (infer_paths before after policies)|].
  destruct (absent_before before key) as [[]|]; [done| |done]. cbn [mbind exc_mbind].
  destruct (row_value before key) as [w|]; [|done]. cbn [mbind exc_mbind]. destruct (value_text w); [|done]. cbn [mbind exc_mbind].
  by destruct (value_text v).
Qed.

Lemma infer_view entity before before' after after' : same_changes entity before after before' after' →
  inferChangedPaths entity before after = inferChangedPaths entity before' after'.
Proof.
  intros Hs. unfold inferChangedPaths. destruct (captured_policies (fields entity)) as [policies|] eqn:Hp; [|done]. cbn [mbind exc_mbind].
  assert (∀ key capture, (key, capture) ∈ policies → changed before after key = changed before' after' key) as Hall.
  { intros key capture. by apply Hs. }
  clear Hs Hp. induction policies as [|[key capture] policies IH]; [done|]. rewrite !infer_paths_cons.
  rewrite (Hall key capture) by by left. rewrite IH; [done|]. intros k c Hin. apply (Hall k c). by right.
Qed.
End Capture.

(** The same change of other rows. *)
Definition with_rows (input : GovernedChangeDraftInput) (before after : val) : GovernedChangeDraftInput :=
  ChangeInput (scope input) (entity input) before after (changedPaths input) (change_id input) (change_type input) (initiatedBy input)
    (authorizationAssertionRef input) (delegationAssertionRef input) (activity_id input) (activity_type input) (performedBy input)
    (producer input) (occurredAt input) (idempotencyKeyHash input) (context input) (metadata input) (capturePolicyRef input)
    (expectedParentRevisionRef input) (mutationBinding input) (digestKeys input).

Definition with_act_rows (input : GovernedActionDraftInput) (before after : val) : GovernedActionDraftInput :=
  ActionInput (act_scope input) (act_entity input) before after (actionType input) (activityType input)
    (act_initiatedBy input) (act_performedBy input) (act_producer input) (act_occurredAt input) (idempotencyKey input)
    (act_changeId input) (act_activityId input) (act_changedPaths input) (act_context input) (act_metadata input)
    (act_capturePolicyRef input) (act_expectedParentRevisionRef input) (act_mutationBinding input) (act_digestKeys input).

(** C16. A draft shows nothing of a row but its identity and its captures, whatever the
    hash functions are: rows of one identity that agree on the fields captured in
    full and on the digests of the fields captured as digests give the same draft,
    events, edges and outbox entry included. So do, for a governed action that infers
    its paths, rows whose captures agree now and of which the same captured fields
    have changed: of the values before, and of those behind a digest, the paths show
    no more than which fields changed, and omitted and undeclared fields never show. *)
Theorem draft_minimal `{Hasher} `{Hmac} `{Host} :
  (∀ input before after,
     entity_ref (entity input) after = entity_ref (entity input) (GovernedChange.after input) →
     truthy before = truthy (GovernedChange.before input) →
     same_captures (same_capture (or_empty (digestKeys input))) (entity input) after (GovernedChange.after input) →
     createGovernedChangeDraft (with_rows input before after) = createGovernedChangeDraft input) ∧
  (∀ now input before after,
     entity_ref (act_entity input) after = entity_ref (act_entity input) (act_after input) →
     truthy before = truthy (act_before input) →
     same_captures (same_capture (or_empty (act_digestKeys input))) (act_entity input) after (act_after input) →
     same_changes (act_entity input) before after (act_before input) (act_after input) →
     createGovernedActionDraft now (with_act_rows input before after) = createGovernedActionDraft now input).
Proof.
  assert (∀ input before after,
     entity_ref (entity input) after = entity_ref (entity input) (GovernedChange.after input) →
     truthy before = truthy (GovernedChange.before input) →
     same_captures (same_capture (or_empty (digestKeys input))) (entity input) after (GovernedChange.after input) →
     createGovernedChangeDraft (with_rows input before after) = createGovernedChangeDraft input) as Hchange.
  { intros input before after Hid Hb Hrow. unfold createGovernedChangeDraft, with_rows. cbn -[createStateCommitment].
    rewrite Hid, Hb. by rewrite (commitment_view _ _ _ _ Hrow). }
  split; [exact Hchange|]. intros now input before after Hid Hb Ha Hs.
  unfold createGovernedActionDraft, with_act_rows. cbn -[createGovernedChangeDraft inferChangedPaths].
  rewrite (infer_view _ _ _ _ _ Hs), Hid.
  repeat match goal with |- (?m ≫= ?f) = (?m ≫= ?g) => let E := fresh "E" in destruct m eqn:E; cbn [mbind exc_mbind]; [|done] end.
  match goal with |- createGovernedChangeDraft ?i = createGovernedChangeDraft ?j => change i with (with_rows j before after) end.
  apply Hchange; [cbn; congruence|done|exact Ha].
Qed.

(** ** What a commitment's digest binds *)

(** Converting a row's value for storage agrees with the canonical conversion. *)
Lemma toJson_normalize v : ∀ w, toJsonValue v = Ret w → normalizeForJson v = Ret w ∧ is_undef w = false.
Proof.
  induction v as [| |b|n|s|xs IH|fs IH|t|o] using val_rect_nested; intros w H; cbn in H; try done; try by injection H as <-.
  - cbn. destruct (is_finite n); [by injection H as <-|done].
  - apply bind_ret in H as (ys & Hys & [= <-]). cbn. apply mapE_Forall2 in Hys.
    assert (mapE (λ item, y ← normalizeForJson item; Ret (nullish_or y VNull)) xs = Ret ys) as ->; [|done].
    apply mapE_Forall2. clear -IH Hys. induction Hys as [|x y xs ys Hx _ IHl]; [constructor|].
    apply Forall_cons in IH as [IHx IH]. constructor; [|by apply IHl]. destruct (IHx y Hx) as [-> Hu]. by destruct y.
  - apply bind_ret in H as (out & H & [= <-]). cbn [normalizeForJson].
    assert ((λ kv, (kv.1, normalizeForJson kv.2)) <$> fs =
            (λ kv, (kv.1, if is_undef kv.2 then Ret VUndef else toJsonValue kv.2)) <$> fs) as ->; [|by rewrite H].
    apply fold_assign_ret in H. unfold sort_fields in H. rewrite sort_by_perm, Forall_fmap in H. apply list_fmap_ext.
    intros i kv Hin%list_elem_of_lookup_2. rewrite Forall_forall in IH, H. specialize (H kv Hin). specialize (IH kv Hin). cbn in H.
    f_equal. destruct (is_undef kv.2) eqn:Eu; [by destruct kv.2|]. apply is_ret_spec in H as [y Hy]. rewrite Hy. by destruct (IH y Hy).
  - destruct t; [|done]. by injection H as <-.
Qed.

Lemma obj_get_nums k v fs : obj_get k fs = Some v → nums_wf (VObj fs) = true → nums_wf v = true.
Proof. intros Hk%obj_get_elem Hn. cbn in Hn. rewrite forallb_forall in Hn. apply list_elem_of_In in Hk. by apply (Hn (k, v)). Qed.

Lemma row_value_nums row key v : nums_wf row = true → row_value row key = Ret v → nums_wf v = true.
Proof.
  unfold row_value. intros Hn. destruct (vget row key) as [w|] eqn:E; [|done]. cbn [mbind exc_mbind]. intros [= <-].
  destruct (_ && _); [by destruct (String.eqb _ _)|]. destruct row; try done; injection E as <-; try done.
  destruct (obj_get key fs) eqn:Eg; [by eapply obj_get_nums|done].
Qed.

Section Binding.
Context `{HS : Hasher} `{HM : Hmac} `{HO : Host}.

(** What one captured field holds. *)
Lemma capture_normal capture keys v f : nums_wf v = true → capture_value capture keys v = Ret f →
  nums_wf f = true ∧ ∃ g, normalizeForJson f = Ret g ∧ is_undef g = false.
Proof.
  intros Hn. unfold capture_value. destruct (strict_eq capture (VStr "full")).
  { intros H. destruct (toJson_normalize v f H) as [Hf Hu]. destruct (normalize_canonical v f Hn Hf) as [->|Hc]; [done|].
    split; [by apply is_json_nums, canonical_json|]. exists f. by split; [apply canonical_fixed|]. }
  destruct (strict_eq capture (VStr "keyed_digest")).
  { intros H. steps_of H. injection H as <-. match goal with H : assertNonEmpty ?k "digestKeys.keyedDigest.keyVersion" = _ |- _ => destruct k; try done end.
    split; [done|]. by eexists. }
  destruct (strict_eq capture (VStr "content_digest")) eqn:E; [|by destruct (js_String capture)].
  intros H. apply strict_eq_str in E as ->. steps_of H. injection H as <-. split; [done|]. by eexists.
Qed.

(** Of two rows, what equal captures say of a field. *)
Definition committed (capture v w : val) : Prop :=
  (capture = VStr "full" → ∃ json, toJsonValue v = Ret json ∧ toJsonValue w = Ret json) ∧
  (capture = VStr "content_digest" → ∃ s, value_text v = Ret s ∧ value_text w = Ret s) ∧
  (capture = VStr "keyed_digest" → ∃ s s' k k', value_text v = Ret s ∧ value_text w = Ret s' ∧ hmac_hex k s = hmac_hex k' s').

Definition digest_text (v : val) : string := default "" (exc_to_option (value_text v)).

Lemma equal_captures capture keys keys' v w f f' g : nums_wf v = true → nums_wf w = true →
  capture_value capture keys v = Ret f → capture_value capture keys' w = Ret f' →
  normalizeForJson f = Ret g → normalizeForJson f' = Ret g →
  committed capture v w ∨
  capture = VStr "content_digest" ∧ digest_text v ≠ digest_text w ∧ sha256Hex (digest_text v) = sha256Hex (digest_text w).
Proof.
  intros Hv Hw Hf Hf' Hg Hg'. unfold capture_value in Hf, Hf'. destruct (strict_eq capture (VStr "full")) eqn:E1.
  { apply strict_eq_str in E1 as ->. left. split; [|by split]. intros _. exists f. split; [done|].
    destruct (toJson_normalize v f Hf) as [Nf Hu], (toJson_normalize w f' Hf') as [Nf' Hu'].
    destruct (normalize_canonical v f Hv Nf) as [->|Hc]; [done|]. destruct (normalize_canonical w f' Hw Nf') as [->|Hc']; [done|].
    rewrite canonical_fixed in Hg, Hg' by done. congruence. }
  destruct (strict_eq capture (VStr "keyed_digest")) eqn:E2.
  { apply strict_eq_str in E2 as ->. left. split; [done|]. split; [done|]. intros _. steps_of Hf. steps_of Hf'. injection Hf as <-. injection Hf' as <-.
    match goal with H : assertNonEmpty ?k "digestKeys.keyedDigest.keyVersion" = _, H' : assertNonEmpty ?k' "digestKeys.keyedDigest.keyVersion" = _ |- _ =>
      lazymatch k with k' => fail | _ => destruct k; try done; destruct k'; try done end end.
    cbn in Hg, Hg'. rewrite <- Hg in Hg'. injection Hg' as Hd Hd'.
    do 4 eexists. split; [eassumption|]. split; [eassumption|]. unfold prefixedHmacSha256 in *. by eapply string_app_inj_l. }
  destruct (strict_eq capture (VStr "content_digest")) eqn:E3; [|by destruct (js_String capture)]. apply strict_eq_str in E3 as ->.
  steps_of Hf. steps_of Hf'. injection Hf as <-. injection Hf' as <-. cbn in Hg, Hg'. rewrite <- Hg in Hg'. injection Hg' as Hd.
  apply string_app_inj_l in Hd. symmetry in Hd. unfold digest_text. match goal with H : value_text v = Ret ?s, H' : value_text w = Ret ?s' |- _ => rewrite H, H'; cbn; destruct (decide (s = s')) as [->|Hne] end.
  - left. split; [done|]. split; [|done]. intros _. by eexists.
  - right. done.
Qed.

(** ** All fields *)

Lemma obj_assign_NoDup k v fs : NoDup (JsVal.keys fs) → NoDup (JsVal.keys (obj_assign k v fs)).
Proof.
  intros Hnd. unfold obj_assign. destruct (_ && _); [done|]. unfold obj_define. destruct (obj_has k fs) eqn:E; [by rewrite keys_replace|].
  apply obj_has_false in E. unfold JsVal.keys. rewrite obj_add_perm. by constructor.
Qed.

Lemma capture_fields_get keys row policies : NoDup (fst <$> policies) → ∀ out result,
  capture_fields keys row policies out = Ret result → nums_wf row = true → nums_wf (VObj out) = true → NoDup (JsVal.keys out) →
  nums_wf (VObj result) = true ∧ NoDup (JsVal.keys result) ∧
  (∀ key, key ∉ fst <$> policies → key ≠ "__proto__" → obj_get key result = obj_get key out) ∧
  ∀ key capture, (key, capture) ∈ policies → key ≠ "__proto__" → ∃ v, row_value row key = Ret v ∧
    if is_undef v then obj_get key result = obj_get key out
    else ∃ f, capture_value capture keys v = Ret f ∧ obj_get key result = Some f.
Proof.
  induction policies as [|[k c] policies IH]; intros Hnd out result E Hrow Hout Hok.
  { injection E as <-. split; [done|]. split; [done|]. split; [done|]. intros key capture H. by apply not_elem_of_nil in H. }
  cbn [fmap list_fmap fst] in Hnd. apply NoDup_cons in Hnd as [Hk Hnd]. cbn [capture_fields] in E.
  apply bind_ret in E as (v & Hv & E). destruct (is_undef v) eqn:Eu.
  - destruct (IH Hnd out result E Hrow Hout Hok) as (H1 & H2 & H3 & H4). split; [done|]. split; [done|]. split.
    + intros key Hn Hp. apply H3; [|done]. intros Hin. apply Hn. by right.
    + intros key capture [[= -> ->]|Hin]%elem_of_cons Hp; [|by apply H4]. exists v. rewrite Eu. split; [done|]. by apply H3.
  - apply bind_ret in E as (f & Hf & E). destruct (capture_normal c keys v f (row_value_nums row k v Hrow Hv) Hf) as [Hnf _].
    destruct (IH Hnd (obj_assign k f out) result E Hrow) as (H1 & H2 & H3 & H4).
    { cbn. apply forallb_forall. intros [a w] Hin. apply list_elem_of_In, obj_assign_elem in Hin as [[= -> ->]|Hin]; [done|].
      cbn in Hout. rewrite forallb_forall in Hout. apply list_elem_of_In in Hin. by apply (Hout (a, w)). }
    { by apply obj_assign_NoDup. }
    assert (∀ key, key ≠ "__proto__" → key ≠ k → obj_get key (obj_assign k f out) = obj_get key out) as Hother.
    { intros key Hp Hne. destruct (decide (k = "__proto__")) as [->|Hkp]; [by apply obj_get_assign_proto|].
      rewrite obj_get_assign by done. by rewrite (proj2 (String.eqb_neq _ _)) by congruence. }
    split; [done|]. split; [done|]. split.
    + intros key Hn Hp. rewrite H3; [|intros Hin; apply Hn; by right|done]. apply Hother; [done|]. intros ->. apply Hn. by left.
    + intros key capture [[= -> ->]|Hin]%elem_of_cons Hp.
      * exists v. rewrite Eu. split; [done|]. exists f. split; [done|]. rewrite H3 by done. rewrite obj_get_assign by done. by rewrite String.eqb_refl.
      * destruct (H4 key capture Hin Hp) as (w & Hw & Hcase). exists w. split; [done|]. destruct (is_undef w); [|done].
        rewrite Hcase. apply Hother; [done|]. intros ->. apply Hk. by apply (list_elem_of_fmap_2 fst) in Hin.
Qed.

Lemma captured_keys ps policies : captured_policies (VObj ps) = Ret policies → NoDup (JsVal.keys ps) → NoDup (fst <$> policies).
Proof.
  unfold captured_policies. intros E Hnd. cbn [own_props mbind exc_mbind] in E. apply bind_ret in E as (cs & Hcs & [= <-]).
  assert (fst <$> cs = fst <$> sort_fields ps) as Ec.
  { apply mapE_Forall2 in Hcs. clear -Hcs. induction Hcs as [|x y xs ys Hx _ IH]; [done|]. rewrite !fmap_cons. f_equal; [|exact IH].
    destruct (truthy x.2); [apply bind_ret in Hx as (? & _ & [= <-])|injection Hx as <-]; done. }
  assert (NoDup (fst <$> cs)) as Hc.
  { rewrite Ec. unfold sort_fields. by rewrite sort_by_perm. }
  clear -Hc. induction cs as [|c cs IH]; [constructor|]. rewrite fmap_cons in Hc. apply NoDup_cons in Hc as [Hin Hc].
  rewrite filter_cons. case_decide; [|by apply IH]. rewrite fmap_cons. constructor; [|by apply IH].
  intros H'. apply Hin. apply list_elem_of_fmap in H' as (x & -> & Hx). apply list_elem_of_filter in Hx as [_ Hx]. by apply list_elem_of_fmap_2.
Qed.

(** A successful commitment, opened. *)
Lemma commitment_fields entity row keys c : createStateCommitment entity row keys = Ret c →
  ∃ policies fs text, captured_policies (fields entity) = Ret policies ∧ capture_fields (or_empty keys) row policies [] = Ret fs ∧
    vget_opt c "fields" = VObj fs ∧ canonicalJson (VObj fs) = Ret (Some text) ∧ vget_opt c "digest" = VStr (prefixedSha256 text).
Proof.
  unfold createStateCommitment. intros E. apply bind_ret in E as (policies & Hp & E). apply bind_ret in E as (fs & Hfs & E).
  apply bind_ret in E as (text & Ht & E). destruct text as [text|]; [|done]. injection E as <-. by exists policies, fs, text.
Qed.

(** Fields objects with one normal form hold the same captures. *)
Lemma normal_get fs gs n k : NoDup (JsVal.keys fs) → NoDup (JsVal.keys gs) → k ≠ "__proto__" →
  normalizeForJson (VObj fs) = Ret n → normalizeForJson (VObj gs) = Ret n →
  (∀ f, obj_get k fs = Some f → ∃ g, normalizeForJson f = Ret g ∧ is_undef g = false) →
  (∀ f, obj_get k gs = Some f → ∃ g, normalizeForJson f = Ret g ∧ is_undef g = false) →
  match obj_get k fs, obj_get k gs with
  | Some f, Some f' => ∃ g, normalizeForJson f = Ret g ∧ normalizeForJson f' = Ret g
  | None, None => True
  | _, _ => False
  end.
Proof.
  intros Hf Hg Hk Nf Ng Df Dg. cbn in Nf, Ng. apply bind_ret in Nf as (out & Nf & [= <-]). apply bind_ret in Ng as (out' & Ng & [= ->]).
  pose proof (assign_sorted_get (λ kv, normalizeForJson kv.2) _ _ k Hf Hk Nf) as E.
  pose proof (assign_sorted_get (λ kv, normalizeForJson kv.2) _ _ k Hg Hk Ng) as E'. rewrite E in E'. cbn in E'. clear E.
  destruct (obj_get k fs) as [f|], (obj_get k gs) as [f'|]; [..|done].
  - destruct (Df f eq_refl) as (g & Eg & Hu), (Dg f' eq_refl) as (g' & Eg' & Hu'). rewrite Eg, Eg', Hu, Hu' in E'. injection E' as ->. by exists g'.
  - destruct (Df f eq_refl) as (g & Eg & Hu). by rewrite Eg, Hu in E'.
  - destruct (Dg f' eq_refl) as (g & Eg & Hu). by rewrite Eg, Hu in E'.
Qed.

(** The texts hashed for a commitment: that of its fields, and those of the
    values captured as digests. *)
Definition hashed_texts (policies : list (string * val)) (row c : val) : list string :=
  ctext (vget_opt c "fields") ::
  ((λ kv, digest_text (default VUndef (exc_to_option (row_value row kv.1)))) <$> filter (λ kv, strict_eq kv.2 (VStr "content_digest") = true) policies).
End Binding.

(** C17. The digest of a state commitment binds what was captured: if two
    commitments of an entity have one digest, then for every captured field either
    both rows have no value or both have one, and it is the same data where it was
    captured in full, has the same canonical text where its digest was, and the
    same keyed digest where that was; or two different texts that were hashed for
    the commitments have one digest. *)
Theorem commitment_binds `{Hasher} `{Hmac} `{Host} entity ps policies row row' keys keys' c c' :
  fields entity = VObj ps → NoDup (JsVal.keys ps) → captured_policies (fields entity) = Ret policies →
  nums_wf row = true → nums_wf row' = true →
  createStateCommitment entity row keys = Ret c → createStateCommitment entity row' keys' = Ret c' →
  vget_opt c "digest" = vget_opt c' "digest" →
  (∀ key capture, (key, capture) ∈ policies → key ≠ "__proto__" →
     ∃ v w, row_value row key = Ret v ∧ row_value row' key = Ret w ∧ is_undef v = is_undef w ∧
       (is_undef v = false → committed capture v w)) ∨
  Collision (hashed_texts policies row c) (hashed_texts policies row' c').
Proof.
  intros Hps Hnd Hpol Hr Hr' Hc Hc' Hd.
  destruct (commitment_fields entity row keys c Hc) as (p1 & fs & text & Hp1 & Hfs & Hcf & Ht & Hcd). rewrite Hpol in Hp1. injection Hp1 as <-.
  destruct (commitment_fields entity row' keys' c' Hc') as (p1 & fs' & text' & Hp1 & Hfs' & Hcf' & Ht' & Hcd'). rewrite Hpol in Hp1. injection Hp1 as <-.
  rewrite Hcd, Hcd' in Hd. injection Hd as Hd. apply string_app_inj_l in Hd. rewrite Hps in Hpol.
  pose proof (captured_keys ps policies Hpol Hnd) as Hkeys.
  destruct (capture_fields_get _ row policies Hkeys [] fs Hfs Hr eq_refl ltac:(constructor)) as (Hn & Hk & _ & Hget).
  destruct (capture_fields_get _ row' policies Hkeys [] fs' Hfs' Hr' eq_refl ltac:(constructor)) as (Hn' & Hk' & _ & Hget').
  destruct (decide (text = text')) as [<-|Hne].
  2:{ right. exists text, text'. unfold hashed_texts, ctext. rewrite Hcf, Hcf', Ht, Ht'. split; [by left|]. by split; [left|]. }
  pose proof (canonicalJson_parse _ _ Hn Ht) as (n & Hnorm & _). pose proof (canonicalJson_inj _ _ _ Hn Hn' Ht Ht') as Hnorm'.
  rewrite Hnorm in Hnorm'. symmetry in Hnorm'.
  assert (∀ key capture, (key, capture) ∈ policies → key ≠ "__proto__" → ∃ v w, row_value row key = Ret v ∧ row_value row' key = Ret w ∧
    is_undef v = is_undef w ∧ (is_undef v = false → committed capture v w ∨
      capture = VStr "content_digest" ∧ digest_text v ≠ digest_text w ∧ sha256Hex (digest_text v) = sha256Hex (digest_text w))) as Hone.
  { intros key capture Hin Hp. destruct (Hget key capture Hin Hp) as (v & Hv & Cv), (Hget' key capture Hin Hp) as (w & Hw & Cw).
    exists v, w. split; [done|]. split; [done|].
    pose proof (row_value_nums _ _ _ Hr Hv) as Nv. pose proof (row_value_nums _ _ _ Hr' Hw) as Nw.
    pose proof (normal_get fs fs' n key Hk Hk' Hp Hnorm Hnorm') as Hcase.
    destruct (is_undef v) eqn:Ev, (is_undef w) eqn:Ew; [done| | |].
    - destruct Cw as (f' & Hf' & Hg'). rewrite Cv, Hg' in Hcase. destruct Hcase; [done|].
      intros f0 [= <-]. by apply (capture_normal capture (or_empty keys') w).
    - destruct Cv as (f & Hf & Hg). rewrite Cw, Hg in Hcase. destruct Hcase; [|done].
      intros f0 [= <-]. by apply (capture_normal capture (or_empty keys) v).
    - destruct Cv as (f & Hf & Hg), Cw as (f' & Hf' & Hg'). rewrite Hg, Hg' in Hcase. split; [done|]. intros _.
      destruct Hcase as (g & G & G').
      + intros f0 [= <-]. by apply (capture_normal capture (or_empty keys) v).
      + intros f0 [= <-]. by apply (capture_normal capture (or_empty keys') w).
      + by eapply equal_captures. }
  assert (∀ l, l ⊆ policies → (∀ key capture, (key, capture) ∈ l → key ≠ "__proto__" →
     ∃ v w, row_value row key = Ret v ∧ row_value row' key = Ret w ∧ is_undef v = is_undef w ∧
       (is_undef v = false → committed capture v w)) ∨ Collision (hashed_texts policies row c) (hashed_texts policies row' c')) as Hall; [|by apply Hall].
  induction l as [|[key capture] l IH]; intros Hl; [left; intros ? ? ?%not_elem_of_nil; done|].
  destruct IH as [IH|IH]; [set_solver| |by right]. destruct (decide (key = "__proto__")) as [->|Hp].
  { left. intros k0 c0 [[= -> ->]|Hin]%elem_of_cons Hk0; [done|by apply IH]. }
  destruct (Hone key capture (Hl _ ltac:(by left)) Hp) as (v & w & Hv & Hw & Hu & Hcase).
  destruct (is_undef v) eqn:Ev.
  { left. intros k0 c0 [[= -> ->]|Hin]%elem_of_cons Hk0; [|by apply IH]. exists v, w. by rewrite Ev, <- Hu. }
  destruct (Hcase eq_refl) as [Hgood|(-> & Hne & Hh)].
  - left. intros k0 c0 [[= -> ->]|Hin]%elem_of_cons Hk0; [|by apply IH]. exists v, w. by rewrite Ev, <- Hu.
  - right. exists (digest_text v), (digest_text w). unfold hashed_texts. split; [right|split; [right|done]].
    + apply list_elem_of_fmap. exists (key, VStr "content_digest"). cbn. rewrite Hv. split; [done|]. apply list_elem_of_filter. split; [done|]. apply Hl. by left.
    + apply list_elem_of_fmap. exists (key, VStr "content_digest"). cbn. rewrite Hw. split; [done|]. apply list_elem_of_filter. split; [done|]. apply Hl. by left.
Qed.

(** ** Drafts, opened *)

Section Opened.
Context `{HS : Hasher} `{HM : Hmac} `{HO : Host}.

(** The parent a draft names: only one the caller gave, and only for an update. *)
Definition parent_of (input : GovernedChangeDraftInput) : val :=
  if truthy (before input) then expectedParentRevisionRef input else VUndef.

(** The refs, the tenant and the parts of a draft that was made. *)
Record drafted (input : GovernedChangeDraftInput) (d : GovernedChangeDraft) (occ : string)
    (md : list (string * val)) (entityId revisionId : string) (commitment : val) : Prop := {
  drafted_scope : ∃ fs tenant, scope input = VObj fs ∧ obj_get "tenantId" fs = Some (VStr tenant) ∧ blank tenant = false;
  drafted_date : GovernedChange.normalizeDate (occurredAt input) = Ret occ;
  drafted_refs : assertRef (initiatedBy input) = Ret tt ∧ assertRef (performedBy input) = Ret tt ∧ assertRef (producer input) = Ret tt;
  drafted_entity : entity_ref (entity input) (after input) = Ret (entityRef d) ∧ blank entityId = false ∧
    entityRef d = ref_val (authority (entity input)) "entity" (type_ (entity input)) entityId;
  drafted_commitment : createStateCommitment (entity input) (after input) (digestKeys input) = Ret commitment;
  drafted_change : changeRef d = ref_val "veritio" "change" (change_type input) (change_id input);
  drafted_activity : activityRef d = ref_val "veritio" "activity" (activity_type input) (activity_id input);
  drafted_metadata : mergeVeritioMetadata (metadata input) (context input) = Ret md;
  drafted_revision : revision d = revision_val (ref_val "veritio" "revision" (type_ (entity input)) revisionId) (entityRef d)
    (if truthy (parent_of input) then [parent_of input] else []) commitment (changedPaths input) (activityRef d) (capturePolicyRef input);
  drafted_events : draft_events_of input occ md (changeRef d) (activityRef d)
    (ref_val "veritio" "revision" (type_ (entity input)) revisionId) (revision d) entityId = Ret (draft_events d);
  drafted_edges : draft_edges_of input occ (changeRef d) (activityRef d)
    (ref_val "veritio" "revision" (type_ (entity input)) revisionId) (parent_of input) = Ret (draft_edges d);
  drafted_outbox : outboxEntry d = OutboxEntry (nullish_or (mutationBinding input) (VStr "not_transaction_bound"))
    (if truthy (parent_of input) then Some (parent_of input) else None) (draft_events d) (draft_edges d);
}.

Lemma entity_ref_ret e row r : entity_ref e row = Ret r →
  ∃ id, blank id = false ∧ r = ref_val (authority e) "entity" (type_ e) id.
Proof.
  unfold entity_ref. intros E. apply bind_ret in E as (id & _ & E). apply bind_ret in E as ([] & Hid%assertNonEmpty_ret & [= <-]).
  apply non_blank_string_str in Hid as (s & -> & Hs). by exists s.
Qed.

Lemma draft_opened input d : createGovernedChangeDraft input = Ret d →
  ∃ occ md entityId revisionId commitment, drafted input d occ md entityId revisionId commitment.
Proof.
  unfold createGovernedChangeDraft. intros E. apply bind_ret in E as (tenant & Ht & E).
  apply bind_ret in E as ([] & Htn%assertNonEmpty_ret & E). apply bind_ret in E as ([] & R1 & E). apply bind_ret in E as ([] & R2 & E).
  apply bind_ret in E as ([] & R3 & E). apply bind_ret in E as (occ & Hocc & E). apply bind_ret in E as (er & Her & E). cbn zeta in E.
  apply bind_ret in E as ([] & _ & E). apply bind_ret in E as (c & Hc & E). apply bind_ret in E as (md & Hmd & E).
  apply bind_ret in E as (events & Hev & E). apply bind_ret in E as (edges & Hed & E). injection E as <-.
  destruct (entity_ref_ret _ _ _ Her) as (id & Hid & Eer). apply non_blank_string_str in Htn as (tn & -> & Hb).
  assert (ref_text er "id" = id) as Ei by by subst er. rewrite Ei in *.
  exists occ, md, id. do 2 eexists. constructor; cbn -[createStateCommitment revision_val draft_events_of draft_edges_of]; try done.
  - destruct (scope input) as [| | | | | |fs| |]; try done. exists fs, tn. split; [done|]. split; [|done]. cbn in Ht.
    destruct (obj_get "tenantId" fs); by simplify_eq/=.
Qed.

Lemma draftEdge_ret relation from to_ occ sc e : draftEdge relation from to_ occ sc = Ret e →
  assertRef from = Ret tt ∧ assertRef to_ = Ret tt ∧ ∃ id fe te, entityFromRef from = Ret fe ∧ entityFromRef to_ = Ret te ∧
    e = VObj [("id", VStr id); ("occurredAt", VStr occ); ("scope", sc); ("from", fe); ("relation", VStr relation); ("to", te);
              ("metadata", VObj [("fromRef", from); ("toRef", to_)])].
Proof.
  unfold draftEdge, refKey. intros E. apply bind_ret in E as (fk & Hf & E). apply bind_ret in Hf as ([] & Hf & _).
  apply bind_ret in E as (tk & Ht & E). apply bind_ret in Ht as ([] & Ht & _).
  apply bind_ret in E as (fe & Hfe & E). apply bind_ret in E as (te & Hte & E). injection E as <-.
  split; [done|]. split; [done|]. by do 3 eexists.
Qed.

Lemma assertRef_ret r : assertRef r = Ret tt →
  ∃ a k t i, vget_opt r "authority" = VStr a ∧ vget_opt r "kind" = VStr k ∧ vget_opt r "type" = VStr t ∧ vget_opt r "id" = VStr i ∧
    blank a = false ∧ blank k = false ∧ blank t = false ∧ blank i = false ∧ ∀ key, vget r key = Ret (vget_opt r key).
Proof.
  unfold assertRef. intros E. destruct r as [| | | | | |fs| |]; try done. cbn [vget mbind exc_mbind] in E.
  apply bind_ret in E as ([] & H1%assertNonEmpty_ret & E). apply bind_ret in E as ([] & H2%assertNonEmpty_ret & E).
  apply bind_ret in E as ([] & H3%assertNonEmpty_ret & H4%assertNonEmpty_ret).
  apply non_blank_string_str in H1 as (a & Ha & ?), H2 as (k & Hk & ?), H3 as (t & Ht & ?), H4 as (i & Hi & ?).
  exists a, k, t, i. cbn [vget_opt]. by rewrite Ha, Hk, Ht, Hi.
Qed.

(** ** Lookups *)

Lemma fold_define_get k own : NoDup (JsVal.keys own) → ∀ acc,
  obj_get k (fold_left (λ acc kv, obj_define kv.1 kv.2 acc) own acc) =
  match obj_get k own with Some v => Some v | None => obj_get k acc end.
Proof.
  induction own as [|[a v] own IH]; intros Hnd acc; [done|]. cbn in Hnd. apply NoDup_cons in Hnd as [Ha Hnd].
  cbn [fold_left fst snd]. rewrite IH by done. cbn [obj_get]. rewrite obj_get_define.
  destruct (String.eqb_spec a k) as [->|]; [|done]. by rewrite (proj2 (obj_get_None _ _) Ha).
Qed.

Lemma fold_define_NoDup own : ∀ acc, NoDup (JsVal.keys acc) → NoDup (JsVal.keys (fold_left (λ acc kv, obj_define kv.1 kv.2 acc) own acc)).
Proof.
  induction own as [|[a v] own IH]; intros acc Hnd; [done|]. cbn [fold_left]. apply IH. cbn [fst snd]. unfold obj_define.
  destruct (obj_has a acc) eqn:E; [by rewrite keys_replace|]. apply obj_has_false in E. unfold JsVal.keys. rewrite obj_add_perm. by constructor.
Qed.

(** A value that is neither [null] nor [undefined]. *)
Definition present (v : val) : val := if is_null v then VUndef else v.

(** The properties with the values that are not dropped, assigned one by one. *)
Lemma fold_kept_get (drop : val → bool) k fs : k ≠ "__proto__" → NoDup (JsVal.keys fs) → ∀ acc,
  obj_get k (fold_left (λ out kv, if drop kv.2 then out else obj_assign kv.1 kv.2 out) fs acc) =
  match obj_get k fs with Some v => if drop v then obj_get k acc else Some v | None => obj_get k acc end.
Proof.
  intros Hk. induction fs as [|[a v] fs IH]; intros Hnd acc; [done|]. cbn in Hnd. apply NoDup_cons in Hnd as [Ha Hnd]. cbn [fold_left fst snd obj_get].
  rewrite IH by done. destruct (String.eqb_spec a k) as [->|Hne].
  - rewrite (proj2 (obj_get_None _ _) Ha). destruct (drop v); [done|]. rewrite obj_get_assign by done. by rewrite String.eqb_refl.
  - assert (obj_get k (if drop v then acc else obj_assign a v acc) = obj_get k acc) as E.
    { destruct (drop v); [done|]. destruct (decide (a = "__proto__")) as [->|]; [by apply obj_get_assign_proto|].
      rewrite obj_get_assign by done. by rewrite (proj2 (String.eqb_neq _ _)). }
    by destruct (obj_get k fs) as [w|]; [destruct (drop w)|].
Qed.

Lemma fold_kept_NoDup (drop : val → bool) fs : ∀ acc, NoDup (JsVal.keys acc) →
  NoDup (JsVal.keys (fold_left (λ out kv, if drop kv.2 then out else obj_assign kv.1 kv.2 out) fs acc)).
Proof.
  induction fs as [|[a v] fs IH]; intros acc Hnd; [done|]. cbn [fold_left fst snd].
  apply IH. destruct (drop v); [done|by apply obj_assign_NoDup].
Qed.

Lemma assign_present_lookup k fs : k ≠ "__proto__" → NoDup (JsVal.keys fs) →
  obj_get k (assign_present fs) = match obj_get k fs with Some v => if is_undef v || is_null v then None else Some v | None => None end.
Proof. intros Hk Hnd. exact (fold_kept_get (λ v, is_undef v || is_null v) k fs Hk Hnd []). Qed.

Lemma assign_present_get k fs : k ≠ "__proto__" → NoDup (JsVal.keys fs) →
  default VUndef (obj_get k (assign_present fs)) = present (default VUndef (obj_get k fs)).
Proof. intros Hk Hnd. rewrite assign_present_lookup by done. destruct (obj_get k fs) as [v|]; [|done]. by destruct v. Qed.

Lemma assign_present_NoDup fs : NoDup (JsVal.keys (assign_present fs)).
Proof. apply (fold_kept_NoDup (λ v, is_undef v || is_null v)). constructor. Qed.
End Opened.

(** ** Metadata *)

Section Merged.
Context `{HS : Hasher} `{HM : Hmac} `{HO : Host}.

Lemma refuse_reserved_ret fs ks : refuse_reserved fs ks = Ret tt → ∀ k, k ∈ ks → obj_get k fs = None.
Proof.
  induction ks as [|key ks IH]; intros E k Hk; [by apply not_elem_of_nil in Hk|]. cbn [refuse_reserved] in E.
  apply bind_ret in E as ([] & Hg%guard_ret & E). apply elem_of_cons in Hk as [->|Hk]; [|by apply IH].
  unfold obj_has in Hg. by destruct (obj_get key fs).
Qed.

(** Caller metadata with a reserved key is refused. *)
Lemma merge_refuses fs ctx m k : mergeVeritioMetadata (VObj fs) ctx = Ret m → k ∈ RESERVED_CONTEXT_KEYS → obj_get k fs = None.
Proof.
  unfold mergeVeritioMetadata. cbn [or_empty is_undef own_props mbind exc_mbind]. intros E Hk.
  apply bind_ret in E as ([] & Hres & _). by eapply refuse_reserved_ret.
Qed.

Lemma sorted_entries_perm fs es : sorted_entries fs = Ret es → es ≡ₚ fs.
Proof.
  unfold sorted_entries. destruct (_ <=? 1)%nat; [by intros [= <-]|]. intros E. apply bind_ret in E as (texts & Ht & [= <-]).
  apply mapE_Forall2, Forall2_length in Ht. unfold sort_fields. rewrite sort_by_perm.
  assert (snd <$> zip texts fs = fs) as -> by by rewrite snd_zip by lia. done.
Qed.

Lemma vget_opt_of v k w : vget v k = Ret w → vget_opt v k = w.
Proof. destruct v; cbn; congruence. Qed.

Lemma assign_context_get ctx ks : NoDup ks → "__proto__" ∉ ks → ∀ acc m, assign_context ctx ks acc = Ret m → NoDup (JsVal.keys acc) →
  NoDup (JsVal.keys m) ∧
  (∀ k, k ∈ ks → obj_get k acc = None → default VUndef (obj_get k m) = vget_opt ctx k) ∧
  (∀ k, k ∉ ks → obj_get k m = obj_get k acc).
Proof.
  induction ks as [|key ks IH]; intros Hnd Hp acc m E Hacc.
  { injection E as <-. split; [done|]. split; [by intros k ?%not_elem_of_nil|done]. }
  apply NoDup_cons in Hnd as [Hkey Hnd]. apply not_elem_of_cons in Hp as [Hne Hp]. cbn [assign_context] in E. apply bind_ret in E as (v & Hv & E).
  assert (∀ k, obj_get k (if is_undef v then acc else obj_assign key v acc) =
    if String.eqb key k then (if is_undef v then obj_get k acc else Some v) else obj_get k acc) as Hget.
  { intros k. destruct (is_undef v); [by destruct (String.eqb key k)|]. by rewrite obj_get_assign. }
  destruct (IH Hnd Hp _ _ E) as (H1 & H2 & H3); [destruct (is_undef v); [done|by apply obj_assign_NoDup]|].
  split; [done|]. split.
  - intros k [->|Hin]%elem_of_cons Hk.
    + rewrite H3 by done. rewrite Hget, String.eqb_refl, Hk. rewrite (vget_opt_of _ _ _ Hv). by destruct v.
    + apply H2; [done|]. rewrite Hget. rewrite (proj2 (String.eqb_neq _ _)); [done|]. by intros ->.
  - intros k Hk. apply not_elem_of_cons in Hk as [Hk Hks]. rewrite H3, Hget by done. by rewrite (proj2 (String.eqb_neq _ _)) by done.
Qed.

Lemma reserved_no_proto : "__proto__" ∉ RESERVED_CONTEXT_KEYS.
Proof. apply (bool_decide_unpack _). by vm_compute. Qed.

Lemma merge_get caller ctx m fs : mergeVeritioMetadata caller ctx = Ret m → own_props (or_empty caller) = Ret fs → NoDup (JsVal.keys fs) →
  NoDup (JsVal.keys m) ∧
  (∀ k, k ∈ RESERVED_CONTEXT_KEYS → default VUndef (obj_get k m) = vget_opt (or_empty ctx) k) ∧
  (∀ k, k ∉ RESERVED_CONTEXT_KEYS → k ≠ "__proto__" → default VUndef (obj_get k m) = present (default VUndef (obj_get k fs))).
Proof.
  unfold mergeVeritioMetadata. intros E Hfs Hnd. rewrite Hfs in E. cbn [mbind exc_mbind] in E.
  apply bind_ret in E as ([] & Hres & E). apply bind_ret in E as (es & Hes%sorted_entries_perm & E).
  assert (NoDup (JsVal.keys es)) as Hnde by (unfold JsVal.keys; by rewrite Hes).
  assert (∀ k, obj_get k es = obj_get k fs) as Hge by (intros k; by apply SameData.obj_get_perm).
  destruct (assign_context_get (or_empty ctx) RESERVED_CONTEXT_KEYS) with (acc := assign_present es) (m := m) as (H1 & H2 & H3); [..|done| |].
  - apply (bool_decide_unpack _). by vm_compute.
  - by apply reserved_no_proto.
  - apply assign_present_NoDup.
  - split; [done|]. split.
    + intros k Hk. apply H2; [done|]. pose proof (refuse_reserved_ret _ _ Hres k Hk) as Hn.
      assert (k ≠ "__proto__") as Hp by (intros ->; by apply reserved_no_proto in Hk).
      by rewrite assign_present_lookup, Hge, Hn.
    + intros k Hk Hp. rewrite H3, assign_present_get by done. by rewrite Hge.
Qed.

(** The properties the events of a draft set themselves. *)
Definition draft_keys : list string :=
  ["recordType"; "recordAuthority"; "producer"; "initiatedBy"; "performedBy"; "changeType"; "activityType"; "idempotencyKeyHash";
   "capturePolicyRef"; "authorizationAssertionRef"; "delegationAssertionRef"; "veritio"; "captureAssurance"].

(** The metadata of an event: its own properties over the merged ones. *)
Record own_metadata (input : GovernedChangeDraftInput) (md : list (string * val)) (e : AuditEventInput) (own : list (string * val)) : Prop := {
  own_over : in_metadata e = compactMetadata (fold_left (λ acc kv, obj_define kv.1 kv.2 acc) own md);
  own_NoDup : NoDup (JsVal.keys own);
  own_subset : JsVal.keys own ⊆ draft_keys;
  own_authority : obj_get "recordAuthority" own = Some (VStr "veritio");
  own_hash : obj_get "idempotencyKeyHash" own = Some (VStr (idempotencyKeyHash input));
  own_producer : obj_get "producer" own = Some (producer input);
  own_assurance : obj_get "captureAssurance" own = Some (captureAssurance input);
}.

Lemma reserved_not_drafted k : k ∈ RESERVED_CONTEXT_KEYS → k ∉ draft_keys.
Proof.
  assert (Forall (λ k, k ∉ draft_keys) RESERVED_CONTEXT_KEYS) as Hall by (apply (bool_decide_unpack _); by vm_compute).
  rewrite Forall_forall in Hall. apply Hall.
Qed.

Lemma draft_events_metadata input occ md ct ci ti ai rt ri rev id events :
  draft_events_of input occ md (ref_val "veritio" "change" ct ci) (ref_val "veritio" "activity" ti ai) (ref_val "veritio" "revision" rt ri) rev id
  = Ret events → Forall (λ e, ∃ own, own_metadata input md e own) events.
Proof.
  unfold draft_events_of. intros E. apply bind_ret in E as (a1 & _ & E). apply bind_ret in E as (a2 & _ & E). apply bind_ret in E as (a3 & _ & E).
  injection E as <-. repeat constructor; eexists; (constructor; [reflexivity| |  |reflexivity..]);
    try (apply (bool_decide_unpack _); by vm_compute); apply (bool_decide_unpack (_ ⊆ _)); by vm_compute.
Qed.
End Merged.

(** Callers cannot shadow what a draft says of its change: in every event's
    metadata the reserved context keys are those of the context, the record's
    authority, producer, idempotency hash and capture assurance are the draft's,
    and every other key has the caller's value. *)
Theorem metadata_unshadowed `{Hasher} `{Hmac} `{Host} input d caller e :
  createGovernedChangeDraft input = Ret d → own_props (or_empty (metadata input)) = Ret caller → NoDup (JsVal.keys caller) →
  e ∈ draft_events d →
  let said := vget_opt (in_metadata e) in
  (∀ k, k ∈ RESERVED_CONTEXT_KEYS → said k = present (vget_opt (or_empty (context input)) k)) ∧
  said "recordAuthority" = VStr "veritio" ∧ said "producer" = producer input ∧
  said "idempotencyKeyHash" = VStr (idempotencyKeyHash input) ∧ said "captureAssurance" = captureAssurance input ∧
  (∀ k, k ∉ RESERVED_CONTEXT_KEYS → k ∉ draft_keys → k ≠ "__proto__" → said k = present (default VUndef (obj_get k caller))).
Proof.
  intros Hd Hc Hnd He said. destruct (draft_opened input d Hd) as (occ & md & eid & rid & c & D).
  destruct (merge_get _ _ _ _ (drafted_metadata _ _ _ _ _ _ _ D) Hc Hnd) as (Hm & Hres & Hrest).
  pose proof (drafted_events _ _ _ _ _ _ _ D) as Hev. rewrite (drafted_change _ _ _ _ _ _ _ D), (drafted_activity _ _ _ _ _ _ _ D) in Hev.
  apply draft_events_metadata in Hev. rewrite Forall_forall in Hev. destruct (Hev e He) as (own & [Ho Hon Hsub Ha Hh Hp Hs]).
  assert (∀ k, k ≠ "__proto__" → said k = present (default VUndef (match obj_get k own with Some v => Some v | None => obj_get k md end))) as Hsaid.
  { intros k Hk. unfold said. rewrite Ho. cbn [compactMetadata vget_opt]. rewrite assign_present_get by by try apply fold_define_NoDup.
    by rewrite fold_define_get. }
  assert (∀ k, k ∉ draft_keys → obj_get k own = None) as Hother by (intros k Hk; apply obj_get_None; intros Hin; by apply Hk, Hsub).
  destruct (drafted_refs _ _ _ _ _ _ _ D) as (_ & _ & Hpr). split_and!.
  - intros k Hk. rewrite Hsaid by (intros ->; by apply reserved_no_proto). rewrite Hother; [by rewrite Hres|].
    intros Hin. apply (reserved_not_drafted k); done.
  - rewrite Hsaid by done. by rewrite Ha.
  - rewrite Hsaid by done. rewrite Hp. cbn. by destruct (producer input).
  - rewrite Hsaid by done. by rewrite Hh.
  - rewrite Hsaid by done. by rewrite Hs.
  - intros k Hk Hn Hpr'. rewrite Hsaid by done. rewrite Hother, Hrest by done. by destruct (default VUndef (obj_get k caller)).
Qed.

(** ** Recording a draft *)

Section Recording.
Context `{HS : Hasher} `{HM : Hmac} `{HO : Host}.

Lemma principalFromRef_ret r p : principalFromRef r = Ret p → vget_opt r "kind" = VStr "principal" ∧
  p = VObj [("type", vget_opt r "type"); ("id", VStr (ref_text r "authority" +:+ ":" +:+ ref_text r "id"))].
Proof.
  unfold principalFromRef. intros E. apply bind_ret in E as (k & Hk & E). apply bind_ret in E as ([] & Hg%guard_ret & [= <-]).
  apply strict_eq_str in Hg as ->. by rewrite (vget_opt_of _ _ _ Hk).
Qed.

Lemma blank_join s t : blank (s +:+ t) = blank s && blank t.
Proof. unfold blank. rewrite chars_app. apply forallb_app. Qed.

Lemma tenant_scope fs tenant : obj_get "tenantId" fs = Some (VStr tenant) → blank tenant = false →
  ∃ sc, optional_scope (VObj fs) = Ret (Some sc) ∧ vget_opt sc "tenantId" = VStr tenant.
Proof.
  intros Ht Hb. destruct tenant as [|ch tenant]; [done|]. eexists. split.
  - unfold optional_scope, cleanScope. cbn [truthy vget mbind exc_mbind]. rewrite Ht. reflexivity.
  - done.
Qed.

(** An event whose parts are in order is accepted. *)
Lemma event_accepted uuid now e ptype pid ttype tid action t md fs tenant :
  in_actor e = VObj [("type", VStr ptype); ("id", VStr pid)] → blank ptype = false → blank pid = false →
  in_target e = target_val ttype tid → blank ttype = false → blank tid = false →
  in_action e = VStr action → blank action = false → re_test ACTION_PATTERN action = true →
  in_occurredAt e = VStr (toISOString t) → (min_time <= t <= max_time)%Z →
  redactMetadata (nullish_or (in_metadata e) (VObj [])) = Ret md →
  in_scope e = VObj fs → obj_get "tenantId" fs = Some (VStr tenant) → blank tenant = false →
  (∃ i, in_id e = VStr i) →
  ∃ event, createAuditEvent uuid now e = Ret event ∧ vget_opt event "id" = in_id e ∧
    vget_opt (vget_opt event "scope") "tenantId" = VStr tenant.
Proof.
  intros Ha Hp1 Hp2 Ht Ht1 Ht2 Hac Hac1 Hac2 Hd Hr Hm Hs Hs1 Hs2 (i & Hi). destruct (tenant_scope fs tenant Hs1 Hs2) as (sc & Hsc & Hten).
  eexists. split.
  - apply createAuditEvent_ret. exists action, t. do 4 eexists. rewrite Ha, Ht, Hac, Hd, Hs. cbn [target_val vget_opt obj_get]. split_and!; cbn; try done.
    all: try (by rewrite ?Hp1, ?Hp2, ?Ht1, ?Ht2). all: try done. 
    + change (date_parse (toISOString t) = Some t). unfold date_parse. by rewrite parse_iso_toISOString.
  - rewrite Hi. split; [done|]. exact Hten.
Qed.

Lemma entityFromRef_ret r e : entityFromRef r = Ret e → ∃ k i t at_,
  vget_opt r "kind" = VStr k ∧ vget_opt r "id" = VStr i ∧ vget_opt r "type" = VStr t ∧ blank i = false ∧ blank k = false ∧
  e = VObj ([("type", VStr (if String.eqb k "commit" then "evidence_commit" else k)); ("id", VStr i); ("resourceType", VStr t)] ++ at_) ∧
  (at_ = [] ∨ at_ = [("actorType", VStr t)]).
Proof.
  unfold entityFromRef. intros E. apply bind_ret in E as ([] & Hr & [= <-]).
  destruct (assertRef_ret r Hr) as (a & k & t & i & _ & Hk & Ht & Hi & _ & Hbk & _ & Hbi & _). rewrite Hk, Ht, Hi.
  exists k, i, t, (if strict_eq (VStr k) (VStr "principal") && isGraphActorType (VStr t) then [("actorType", VStr t)] else []).
  repeat (split; [done|]). split; [|destruct (strict_eq _ _ && _); [by right|by left]].
  change (strict_eq (VStr k) (VStr "commit")) with (String.eqb k "commit"). destruct (String.eqb k "commit"); reflexivity.
Qed.

(** An endpoint of a supported type is accepted. *)
Lemma entity_accepted r e f : entityFromRef r = Ret e → isEvidenceEntityType (vget_opt e "type") = true → ∃ w, cleanEvidenceEntity e f = Ret w.
Proof.
  intros (k & i & t & at_ & _ & _ & _ & Hi & Hk & -> & Hat)%entityFromRef_ret Hty. cbn in Hty.
  eexists. apply cleanEvidenceEntity_ret. do 2 eexists. split_and!; try reflexivity; try done.
  by destruct (String.eqb k "commit").
Qed.

Lemma edge_accepted uuid now relation from to_ t fs tenant e md : draftEdge relation from to_ (toISOString t) (VObj fs) = Ret e →
  isEvidenceEdgeRelation (VStr relation) = true → (min_time <= t <= max_time)%Z →
  obj_get "tenantId" fs = Some (VStr tenant) → blank tenant = false →
  isEvidenceEntityType (vget_opt (vget_opt e "from") "type") = true → isEvidenceEntityType (vget_opt (vget_opt e "to") "type") = true →
  redactMetadata (vget_opt e "metadata") = Ret md →
  ∃ edge, createEvidenceEdge uuid now e = Ret edge ∧ vget_opt edge "id" = vget_opt e "id" ∧
    vget_opt (vget_opt edge "scope") "tenantId" = VStr tenant.
Proof.
  intros (_ & _ & id & fe & te & Hfe & Hte & ->)%draftEdge_ret Hrel Hr Hs1 Hs2 Hf Ht Hm. cbn in Hf, Ht. change (redactMetadata (VObj [("fromRef", from); ("toRef", to_)]) = Ret md) in Hm.
  destruct (tenant_scope fs tenant Hs1 Hs2) as (sc & Hsc & Hten).
  destruct (entity_accepted from fe "from" Hfe Hf) as [wf Hwf]. destruct (entity_accepted to_ te "to" Hte Ht) as [wt Hwt].
  eexists. split.
  - apply createEvidenceEdge_ret. exists fe, te, wf, wt, (VStr relation), (VStr id), (VStr (toISOString t)), t, (VObj [("fromRef", from); ("toRef", to_)]), md, (VObj fs), (Some sc).
    split_and!; try reflexivity; try done.
    change (date_parse (toISOString t) = Some t). unfold date_parse. by rewrite parse_iso_toISOString.
  - split; [done|]. exact Hten.
Qed.

Lemma assertRef_val a k t i : assertRef (ref_val a k t i) = Ret tt → blank t = false ∧ blank i = false.
Proof. intros (a' & k' & t' & i' & [= <-] & [= <-] & [= <-] & [= <-] & _ & _ & ? & ? & _)%assertRef_ret. done. Qed.

(** The edges of a draft: where each comes from. *)
Record drafted_edge (input : GovernedChangeDraftInput) (occ : string) (e : val) : Prop := {
  edge_drafted : ∃ relation from to_, draftEdge relation from to_ occ (scope input) = Ret e ∧
    isEvidenceEdgeRelation (VStr relation) = true;
  edge_from : isEvidenceEntityType (vget_opt (vget_opt e "from") "type") = true;
}.

Lemma drafted_edge_of input occ relation from to_ e : draftEdge relation from to_ occ (scope input) = Ret e →
  isEvidenceEdgeRelation (VStr relation) = true →
  (∃ k, vget_opt from "kind" = VStr k ∧ k ∈ ["change"; "activity"; "revision"]) → drafted_edge input occ e.
Proof.
  intros E Hrel (k & Hk & Hin). constructor; [by exists relation, from, to_|].
  destruct (draftEdge_ret _ _ _ _ _ _ E) as (_ & _ & id & fe & te & Hfe & _ & ->).
  destruct (entityFromRef_ret _ _ Hfe) as (k' & i & t & at_ & Hk' & _ & _ & _ & _ & -> & _). cbn.
  rewrite Hk in Hk'. injection Hk' as <-. repeat (apply elem_of_cons in Hin as [->|Hin]; [reflexivity|]). by apply not_elem_of_nil in Hin.
Qed.

Lemma drafted_edges_opened input occ ct ci ti ai rt ri parent edges :
  draft_edges_of input occ (ref_val "veritio" "change" ct ci) (ref_val "veritio" "activity" ti ai) (ref_val "veritio" "revision" rt ri) parent
  = Ret edges →
  Forall (drafted_edge input occ) edges ∧ (blank ci = false ∧ blank ai = false ∧ blank rt = false).
Proof.
  unfold draft_edges_of. intros E. apply bind_ret in E as (e1 & H1 & E). apply bind_ret in E as (e2 & H2 & E).
  apply bind_ret in E as (e3 & H3 & E). apply bind_ret in E as (e4 & H4 & E). apply bind_ret in E as (more & H5 & [= <-]).
  destruct (draftEdge_ret _ _ _ _ _ _ H1) as ([_ Hc]%assertRef_val & [_ Ha]%assertRef_val & _).
  destruct (draftEdge_ret _ _ _ _ _ _ H2) as (_ & [Hr _]%assertRef_val & _). split; [|done].
  repeat (apply Forall_cons_2; [eapply drafted_edge_of; [eassumption|reflexivity|eexists; split; [reflexivity|set_solver]]|]).
  destruct (truthy parent); [|injection H5 as <-; constructor]. apply bind_ret in H5 as (e5 & H5 & [= <-]).
  apply Forall_cons_2; [|constructor]. eapply drafted_edge_of; [eassumption|reflexivity|eexists; split; [reflexivity|set_solver]].
Qed.
End Recording.

(** C18. What is drafted can be recorded, in the tenant of the change: whenever a
    draft is made at a valid time, the SDK accepts each of its events, and each of
    its edges whose endpoints have types of the evidence graph, as soon as their
    metadata can be stored; the stored evidence keeps the drafted ids and the
    change's tenant. *)
Theorem draft_recordable `{Hasher} `{Hmac} `{Host} input d t uuid now :
  createGovernedChangeDraft input = Ret d →
  GovernedChange.normalizeDate (occurredAt input) = Ret (toISOString t) → (min_time <= t <= max_time)%Z →
  (∀ e md, e ∈ draft_events d → redactMetadata (in_metadata e) = Ret md →
     ∃ event, createAuditEvent uuid now e = Ret event ∧ vget_opt event "id" = in_id e ∧
       vget_opt (vget_opt event "scope") "tenantId" = vget_opt (scope input) "tenantId") ∧
  (∀ e md, e ∈ draft_edges d → redactMetadata (vget_opt e "metadata") = Ret md →
     isEvidenceEntityType (vget_opt (vget_opt e "to") "type") = true →
     ∃ edge, createEvidenceEdge uuid now e = Ret edge ∧ vget_opt edge "id" = vget_opt e "id" ∧
       vget_opt (vget_opt edge "scope") "tenantId" = vget_opt (scope input) "tenantId").
Proof.
  intros Hd Ht Hr. destruct (draft_opened input d Hd) as (occ & md & eid & rid & c & D).
  rewrite (drafted_date _ _ _ _ _ _ _ D) in Ht. injection Ht as ->.
  destruct (drafted_scope _ _ _ _ _ _ _ D) as (fs & tenant & Hsc & Htn & Hb). rewrite Hsc. cbn [vget_opt]. rewrite Htn.
  pose proof (drafted_events _ _ _ _ _ _ _ D) as Hev. pose proof (drafted_edges _ _ _ _ _ _ _ D) as Hed.
  rewrite (drafted_change _ _ _ _ _ _ _ D), (drafted_activity _ _ _ _ _ _ _ D) in Hev, Hed.
  destruct (drafted_edges_opened _ _ _ _ _ _ _ _ _ _ Hed) as (Hall & Hci & Hai & Hty). split.
  - intros e md' He Hm. unfold draft_events_of in Hev. apply bind_ret in Hev as (a1 & [_ P1]%principalFromRef_ret & Hev).
    apply bind_ret in Hev as (a2 & [_ P2]%principalFromRef_ret & Hev). apply bind_ret in Hev as (a3 & [_ P3]%principalFromRef_ret & Hev).
    destruct (drafted_refs _ _ _ _ _ _ _ D) as (R1 & R2 & R3). destruct (drafted_entity _ _ _ _ _ _ _ D) as (_ & Heid & _).
    injection Hev as Hev. rewrite <- Hev in He. clear Hev.
    apply assertRef_ret in R1 as (? & ? & ? & ? & _ & _ & T1 & _ & _ & _ & B1 & _), R2 as (? & ? & ? & ? & _ & _ & T2 & _ & _ & _ & B2 & _),
      R3 as (? & ? & ? & ? & _ & _ & T3 & _ & _ & _ & B3 & _). rewrite T1 in P1. rewrite T2 in P2. rewrite T3 in P3.
    repeat apply elem_of_cons in He as [He|He]; [..|by apply not_elem_of_nil in He]; subst e a1 a2 a3;
      (eapply event_accepted; [reflexivity|eassumption|by rewrite !blank_join, andb_false_r|reflexivity|done|done|reflexivity|reflexivity|by vm_compute
         |reflexivity|exact Hr|exact Hm|exact Hsc|exact Htn|exact Hb|by eexists]).
  - intros e md' He Hm Hto. rewrite Forall_forall in Hall. destruct (Hall e He) as [(relation & from & to_ & Hdr & Hrel) Hfrom].
    rewrite Hsc in Hdr. by eapply edge_accepted.
Qed.

(** ** Changed paths *)

Lemma escape_inj s s' : escapeJsonPointerSegment s = escapeJsonPointerSegment s' → s = s'.
Proof.
  unfold escapeJsonPointerSegment. intros E%(f_equal chars). rewrite !chars_of_chars in E.
  rewrite <- (of_chars_chars s), <- (of_chars_chars s'). f_equal. revert E. generalize (chars s) as l, (chars s') as l'.
  induction l as [|c l IH]; intros l' E.
  - destruct l' as [|c' l']; [done|]. rewrite fmap_cons in E. cbn [concat] in E.
    destruct (Ascii.eqb c' "~"); [done|]. by destruct (Ascii.eqb c' "/").
  - destruct l' as [|c' l'].
    { rewrite fmap_cons in E. cbn [concat] in E. destruct (Ascii.eqb c "~"); [done|]. by destruct (Ascii.eqb c "/"). }
    rewrite !fmap_cons in E. cbn [concat] in E.
    destruct (Ascii.eqb_spec c "~") as [->|H1], (Ascii.eqb_spec c' "~") as [->|H1'];
      destruct (Ascii.eqb_spec c "/") as [->|H2] || idtac; destruct (Ascii.eqb_spec c' "/") as [->|H2'] || idtac;
      cbn in E; simplify_eq; try done; f_equal; by apply IH.
Qed.

(** A captured field that the change sets: it has a value now, and had none or
    another before. *)
Definition field_changed (before after : val) (key : string) : Prop :=
  ∃ v, row_value after key = Ret v ∧ is_undef v = false ∧
    (is_undef before = true ∨ ∃ old, row_value before key = Ret old ∧ (is_undef old = true ∨ value_text old ≠ value_text v)).

Lemma infer_paths_spec before after policies : ∀ paths, infer_paths before after policies = Ret paths →
  ∀ path, path ∈ paths ↔ ∃ key, key ∈ fst <$> policies ∧ path = "/" +:+ escapeJsonPointerSegment key ∧ field_changed before after key.
Proof.
  induction policies as [|[key capture] policies IH]; intros paths E path.
  { injection E as <-. split; [by intros ?%not_elem_of_nil|]. by intros (key & ?%not_elem_of_nil & _). }
  cbn [infer_paths] in E. apply bind_ret in E as (v & Hv & E).
  assert (∀ rest, infer_paths before after policies = Ret rest → ∀ here : bool, (here = true ↔ field_changed before after key) →
    path ∈ (if here then ("/" +:+ escapeJsonPointerSegment key) :: rest else rest) ↔
    ∃ k, k ∈ fst <$> (key, capture) :: policies ∧ path = "/" +:+ escapeJsonPointerSegment k ∧ field_changed before after k) as Hstep.
  { intros rest Hrest here Hh. assert (path ∈ (if here then ("/" +:+ escapeJsonPointerSegment key) :: rest else rest) ↔
      (here = true ∧ path = "/" +:+ escapeJsonPointerSegment key) ∨ path ∈ rest) as ->.
    { destruct here; [rewrite elem_of_cons|]; intuition congruence. }
    rewrite (IH rest Hrest). setoid_rewrite elem_of_cons. cbn. split.
    - intros [[H1 H2]|(k & H1 & H2)]; [exists key; split; [by left|]; split; [done|by apply Hh]|exists k; split; [by right|done]].
    - intros (k & [->|H1] & H2 & H3); [left; split; [by apply Hh|done]|right; by exists k]. }
  destruct (is_undef v) eqn:Eu.
  { apply (Hstep paths E false). split; [done|]. intros (w & Hw & Hd & _). rewrite Hv in Hw. injection Hw as <-. congruence. }
  apply bind_ret in E as (absent & Ha & E). apply bind_ret in E as (changed & Hc & E). apply bind_ret in E as (rest & Hrest & [= <-]).
  apply (Hstep rest Hrest changed). unfold absent_before in Ha. destruct (is_undef before) eqn:Eb.
  { injection Ha as <-. injection Hc as <-. split; [|done]. intros _. exists v. rewrite Eu. split; [done|]. split; [done|by left]. }
  apply bind_ret in Ha as (old & Hold & [= <-]). destruct (is_undef old) eqn:Eo.
  { injection Hc as <-. split; [|done]. intros _. exists v. split; [done|]. split; [done|]. right. exists old. split; [done|by left]. }
  apply bind_ret in Hc as (o & Ho & Hc). rewrite Hold in Ho. injection Ho as <-.
  apply bind_ret in Hc as (t1 & Ht1 & Hc). apply bind_ret in Hc as (t2 & Ht2 & [= <-]). rewrite negb_true_iff. split.
  - intros Hne%String.eqb_neq. exists v. split; [done|]. split; [done|]. right. exists old. split; [done|]. right. rewrite Ht1, Ht2. congruence.
  - intros (w & Hw & _ & Hcase). rewrite Hv in Hw. injection Hw as <-. destruct Hcase as [?|(o & Ho & Hcase)]; [congruence|].
    rewrite Hold in Ho. injection Ho as <-. destruct Hcase as [?|Hne]; [congruence|]. apply String.eqb_neq. intros ->. apply Hne. congruence.
Qed.

(** The paths inferred for a change are the JSON pointers of exactly the
    captured fields it sets: those that have a value now and had none, or one with
    another canonical text, before; and a pointer names one field. *)
Theorem changed_paths_exact `{Hasher} `{Hmac} `{Host} entity policies before after paths :
  captured_policies (fields entity) = Ret policies → inferChangedPaths entity before after = Ret paths →
  (∀ path, path ∈ paths ↔
     ∃ key, key ∈ fst <$> policies ∧ path = "/" +:+ escapeJsonPointerSegment key ∧ field_changed before after key) ∧
  (∀ key key', "/" +:+ escapeJsonPointerSegment key = "/" +:+ escapeJsonPointerSegment key' → key = key').
Proof.
  intros Hp E. split; [|by intros key key' Hk%string_app_inj_l%escape_inj].
  unfold inferChangedPaths in E. rewrite Hp in E. by apply infer_paths_spec.
Qed.

(** ** A governed action *)

#[local] Existing Instance toy_hasher.
#[local] Existing Instance toy_host.
#[local] Instance toy_hmac : Hmac := {| hmac_hex := λ secret value, toy_digest (utf8 (secret +:+ value)) |}.

Definition demo_policies : list (string * val) :=
  let capture mode := VObj [("capture", VStr mode)] in
  [("quantity", capture "full"); ("status", capture "content_digest"); ("customerEmail", capture "keyed_digest"); ("temporaryCache", capture "omit")].

Definition demo_entity : GovernedEntity :=
  Entity "acme.billing" "project_entry" "acme.billing/project_entry@3" "project-entry-governed-fields@2" (λ row, vget row "id") (VObj demo_policies).

Definition demo_row (quantity : Z) (cache : string) : val :=
  VObj [("id", VStr "42"); ("quantity", VInt quantity); ("status", VStr "active"); ("customerEmail", VStr "buyer"); ("temporaryCache", VStr cache)].

Definition demo_keys : val := VObj [("keyedDigest", VObj [("keyVersion", VStr "key-7"); ("secret", VStr "s")])].
Definition demo_principal (id : string) : val := ref_val "acme" "principal" "service" id.

Definition demo_change : GovernedChangeDraftInput :=
  ChangeInput (VObj [("tenantId", VStr "org")]) demo_entity (demo_row 10 "hot") (demo_row 11 "warm") ["/quantity"] "chg_1" "project.updated"
    (demo_principal "usr") VUndef VUndef "act_1" "project.update" (demo_principal "api") (demo_principal "api") (VDate (Some 0%Z)) "h"
    (VObj [("traceId", VStr "trc")]) (VObj [("surface", VStr "api")]) VUndef (ref_val "veritio" "revision" "project_entry" "rev_0") VUndef demo_keys.

Definition demo_action : GovernedActionDraftInput :=
  ActionInput (VObj [("tenantId", VStr "org")]) demo_entity (demo_row 10 "hot") (demo_row 11 "warm") (VStr "project.updated") (VStr "project.update")
    (demo_principal "usr") (demo_principal "api") (demo_principal "api") (VDate (Some 0%Z)) (VStr "k") None None None VUndef VUndef VUndef VUndef VUndef demo_keys.

Definition demo_draft : option GovernedChangeDraft := exc_to_option (createGovernedChangeDraft demo_change).

Lemma demo_same_row :
  same_captures (same_capture (or_empty demo_keys)) demo_entity (demo_row 11 "cold") (demo_row 11 "warm").
Proof.
  intros policies key capture [= <-] Hin.
  repeat (apply elem_of_cons in Hin as [[= -> ->]|Hin]; [apply same_value|]). by apply not_elem_of_nil in Hin.
Qed.

(** Another quantity before: it was another one all the same. *)
Lemma demo_same_changes : same_changes demo_entity (demo_row 9 "hot") (demo_row 11 "cold") (demo_row 10 "hot") (demo_row 11 "warm").
Proof.
  intros policies key capture [= <-] Hin.
  repeat (apply elem_of_cons in Hin as [[= -> ->]|Hin]; [vm_compute; reflexivity|]). by apply not_elem_of_nil in Hin.
Qed.

Lemma draft_minimal_witness :
  createGovernedChangeDraft (with_rows demo_change (demo_row 10 "hot") (demo_row 11 "cold")) = createGovernedChangeDraft demo_change ∧
  createGovernedActionDraft 0 (with_act_rows demo_action (demo_row 9 "hot") (demo_row 11 "cold")) = createGovernedActionDraft 0 demo_action.
Proof.
  split.
  - apply (proj1 draft_minimal); [reflexivity..|exact demo_same_row].
  - apply (proj2 draft_minimal); [reflexivity..|exact demo_same_row|exact demo_same_changes].
Defined.

Lemma commitment_binds_witness : ∃ policies c,
  createStateCommitment demo_entity (demo_row 11 "warm") demo_keys = Ret c ∧
  ((∀ key capture, (key, capture) ∈ policies → key ≠ "__proto__" →
     ∃ v w, row_value (demo_row 11 "warm") key = Ret v ∧ row_value (demo_row 11 "cold") key = Ret w ∧ is_undef v = is_undef w ∧
       (is_undef v = false → committed capture v w)) ∨
   Collision (hashed_texts policies (demo_row 11 "warm") c) (hashed_texts policies (demo_row 11 "cold") c)).
Proof.
  exists (default [] (exc_to_option (captured_policies (VObj demo_policies)))), (default VUndef (exc_to_option (createStateCommitment demo_entity (demo_row 11 "warm") demo_keys))).
  split; [reflexivity|].
  apply (commitment_binds demo_entity demo_policies _ (demo_row 11 "warm") (demo_row 11 "cold") demo_keys demo_keys); try reflexivity.
  apply (bool_decide_unpack _). by vm_compute.
Defined.

Lemma metadata_unshadowed_witness : ∃ d e, createGovernedChangeDraft demo_change = Ret d ∧ e ∈ draft_events d ∧
  let said := vget_opt (in_metadata e) in
  (∀ k, k ∈ RESERVED_CONTEXT_KEYS → said k = present (vget_opt (VObj [("traceId", VStr "trc")]) k)) ∧
  said "recordAuthority" = VStr "veritio" ∧ said "producer" = demo_principal "api" ∧
  said "idempotencyKeyHash" = VStr "h" ∧ said "captureAssurance" = captureAssurance demo_change ∧
  (∀ k, k ∉ RESERVED_CONTEXT_KEYS → k ∉ draft_keys → k ≠ "__proto__" → said k = present (default VUndef (obj_get k [("surface", VStr "api")]))).
Proof.
  destruct (createGovernedChangeDraft demo_change) as [d|] eqn:E; [|by vm_compute in E]. exists d.
  destruct (draft_events d) as [|e es] eqn:Ev; [by vm_compute in E; injection E as <-|]. exists e. split; [done|]. split; [by left|].
  apply (metadata_unshadowed demo_change d [("surface", VStr "api")] e E); [reflexivity| |rewrite Ev; by left].
  apply (bool_decide_unpack _). by vm_compute.
Defined.

Lemma draft_recordable_witness : ∃ d, createGovernedChangeDraft demo_change = Ret d ∧
  (∀ e md, e ∈ draft_events d → redactMetadata (in_metadata e) = Ret md →
     ∃ event, createAuditEvent "u" 0 e = Ret event ∧ vget_opt event "id" = in_id e ∧
       vget_opt (vget_opt event "scope") "tenantId" = VStr "org") ∧
  (∀ e md, e ∈ draft_edges d → redactMetadata (vget_opt e "metadata") = Ret md →
     isEvidenceEntityType (vget_opt (vget_opt e "to") "type") = true →
     ∃ edge, createEvidenceEdge "u" 0 e = Ret edge ∧ vget_opt edge "id" = vget_opt e "id" ∧
       vget_opt (vget_opt edge "scope") "tenantId" = VStr "org").
Proof.
  destruct (createGovernedChangeDraft demo_change) as [d|] eqn:E; [|by vm_compute in E]. exists d. split; [done|].
  apply (draft_recordable demo_change d 0 "u" 0 E); [reflexivity|done].
Defined.

Lemma changed_paths_exact_witness :
  (∀ path, path ∈ ["/quantity"] ↔
     ∃ key, key ∈ fst <$> default [] (exc_to_option (captured_policies (VObj demo_policies))) ∧ path = "/" +:+ escapeJsonPointerSegment key ∧
       field_changed (demo_row 10 "hot") (demo_row 11 "warm") key) ∧
  (∀ key key', "/" +:+ escapeJsonPointerSegment key = "/" +:+ escapeJsonPointerSegment key' → key = key').
Proof. apply (changed_paths_exact demo_entity _ (demo_row 10 "hot") (demo_row 11 "warm") ["/quantity"]); reflexivity. Defined.

(** Of the repository's vectors (spec/conformance/governed-revision-id.json). *)
Example revision_id_vector :
  @governedRevisionId sha256_hasher "project_entry" "entry_42" "sha256:8c0fa61ac55fbdd9883cfc06e772022a4d2234317454ca0ddd0063454cb09c29" "chg_2026_001"
  = "rev_project_entry_entry_42_8c0fa61ac55f_d011d853".
Proof. vm_compute. reflexivity. Qed.

(** Separators are not escaped: two entities can have one revision id, two refs
    one key. *)
Example revision_id_ambiguous `{Hasher} digest change :
  governedRevisionId "project" "entry_42" digest change = governedRevisionId "project_entry" "42" digest change.
Proof. reflexivity. Qed.

Example ref_key_ambiguous :
  refKey (ref_val "acme" "entity" "order:line" "7") = refKey (ref_val "acme" "entity" "order" "line:7").
Proof. reflexivity. Qed.
