(* ===== verification/Retention.v ===== *)
(** * Retention checkpoints and dispositions (sdks/typescript/src/retention.ts)

    A checkpoint anchors the prefix of a tenant's audit chain that was moved to an
    archive; a disposition is the receipt of the archive's deletion. Records to
    verify are untrusted values. [Buffer.from(text, "base64")] and the signature
    verifier are supplied from outside ([Base64], [RetentionVerificationOptions]). *)

From S2P Require Import Prelude Regex JsNum JsVal Dates JsonText Hash Sha256 Canonical.
From S2P Require Import Keyed Redact AuditChain ChainModes Event.

#[local] Arguments num_of_Z : simpl never.

Definition RETENTION_SCHEMA_VERSION := "1.0".
Definition RETENTION_CANONICALIZATION := "veritio-json-v1".
Definition RETENTION_HASH_ALGORITHM := "sha256".

Definition word_char (c : ascii) : bool := upper_az c || lower_az c || digit c.
Definition id_char (c : ascii) : bool := word_char c || one_of "._:-" c.

Definition ID_PATTERN : re := rep 1 128 (Cls id_char).
Definition POLICY_REFERENCE_PATTERN : re := rep 1 256 (Cls id_char).
Definition BASE64_SIGNATURE_PATTERN : re :=
  Seq (pow 86 (Cls (λ c, word_char c || one_of "+/" c))) (word "==").

(** YYYY-MM-DDTHH:mm:ss.sssZ with month, day, hour, minute and second in range. *)
Definition TIMESTAMP_PATTERN : re :=
  let d := Cls digit in
  let month := Alt (Seq (lit "0") (Cls (in_range "1" "9"))) (Seq (lit "1") (Cls (in_range "0" "2"))) in
  let day := Alt (Seq (Cls (in_range "0" "2")) d) (Seq (lit "3") (Cls (one_of "01"))) in
  let hour := Alt (Seq (Cls (one_of "01")) d) (Seq (lit "2") (Cls (in_range "0" "3"))) in
  let sixty := Seq (Cls (in_range "0" "5")) d in
  Seq (pow 4 d) (Seq (lit "-") (Seq month (Seq (lit "-") (Seq day (Seq (lit "T") (Seq hour
    (Seq (lit ":") (Seq sixty (Seq (lit ":") (Seq sixty (Seq (lit ".") (Seq (pow 3 d) (lit "Z"))))))))))))).

Definition CHECKPOINT_RECORD_KEYS : list string :=
  ["recordType"; "schemaVersion"; "checkpointId"; "tenantId"; "chainKind"; "epoch"; "fromSequence";
   "fromPreviousHash"; "throughSequence"; "throughHash"; "recordCount"; "archiveRootHash";
   "previousCheckpointHash"; "createdAt"; "canonicalization"; "hashAlgorithm";
   "signaturePublicKeyFingerprint"; "hash"; "signature"].
Definition DISPOSITION_RECORD_KEYS : list string :=
  ["recordType"; "schemaVersion"; "dispositionId"; "tenantId"; "chainKind"; "checkpointHash";
   "fromSequence"; "throughSequence"; "archiveRootHash"; "method"; "policyReference"; "disposedAt";
   "canonicalization"; "hashAlgorithm"; "signaturePublicKeyFingerprint"; "hash"; "signature"].
Definition SIGNATURE_KEYS : list string := ["algorithm"; "publicKeyFingerprint"; "signature"].

Inductive RetentionSignatureStatus := SigValid | SigInvalid | SigSkipped | SigAbsent.

#[global] Instance signature_status_eq_dec : EqDecision RetentionSignatureStatus.
Proof. solve_decision. Defined.

Inductive RetentionVerificationReason : Type :=
| invalid_checkpoint | invalid_disposition | unsupported_protocol | retention_hash_mismatch
| signature_fingerprint_mismatch | signature_invalid | signature_required | tenant_mismatch
| chain_kind_mismatch | epoch_mismatch | range_mismatch | previous_checkpoint_hash_mismatch
| retention_missing_tenant_scope | retention_unsupported_hash_algorithm
| retention_unsupported_canonicalization | retention_sequence_mismatch
| retention_previous_hash_mismatch | record_hash_mismatch | checkpoint_mismatch.

Inductive RetentionVerificationResult : Type :=
| RetentionOk (signature : RetentionSignatureStatus)
| RetentionFail (index : nat) (reason : RetentionVerificationReason) (signature : RetentionSignatureStatus).

Record RetentionVerificationOptions := {
  trustedPublicKey : option (list Z);
  requireSignature : bool;
  signatureVerifier : option (list Z → list Z → list Z → exc bool);
}.

Definition no_options : RetentionVerificationOptions :=
  {| trustedPublicKey := None; requireSignature := false; signatureVerifier := None |}.

(** [Buffer.from(value, "base64")] *)
Class Base64 := { base64_bytes : val → exc (list Z) }.

(** ** Validation of fields *)

Definition assertId (value : val) (field : string) : exc unit :=
  guard_exc (match value with VStr s => re_test ID_PATTERN s | _ => false end) (field +:+ " is invalid").

(** Returns the asserted number. *)
Definition assertSafeInteger (value : val) (field : string) : exc Z :=
  match value with
  | VNum n =>
      match num_int n with
      | Some z => if is_safe_integer n && (1 <=? z)%Z then Ret z
                  else Throw (field +:+ " must be a positive safe integer")
      | None => Throw (field +:+ " must be a positive safe integer")
      end
  | _ => Throw (field +:+ " must be a positive safe integer")
  end.

Definition assertHash (value : val) (field : string) : exc unit :=
  guard_exc (match value with VStr s => re_test HASH_PATTERN s | _ => false end)
    (field +:+ " must be lowercase sha256").

Definition assertNullableHash (value : val) (field : string) : exc unit :=
  if is_null value then Ret tt else assertHash value field.

Definition hasOnlyKeys (value : val) (allowed : list string) : bool :=
  forallb (λ k, bool_decide (k ∈ allowed)) (own_keys value).

Definition combineSignatureStatus (current next : RetentionSignatureStatus) : RetentionSignatureStatus :=
  match current, next with
  | SigInvalid, _ | _, SigInvalid => SigInvalid
  | SigSkipped, _ | _, SigSkipped => SigSkipped
  | SigAbsent, _ | _, SigAbsent => SigAbsent
  | SigValid, SigValid => SigValid
  end.

Section Retention.
Context `{Hasher} `{Host} `{Base64}.

Definition assertTimestamp (value : val) (field : string) : exc unit :=
  guard_exc
    (match value with
     | VStr s =>
         re_test TIMESTAMP_PATTERN s &&
         match date_parse s with
         | Some t => negb (String.prefix "0000-" s) && String.eqb (toISOString t) s
         | None => false
         end
     | _ => false
     end) (field +:+ " must be exact UTC milliseconds").

(** [if (value !== undefined) assertHash(value)] *)
Definition assertOptionalHash (value : val) (field : string) : exc unit :=
  if is_undef value then Ret tt else assertHash value field.

Definition assertCheckpointInput (input : val) : exc unit :=
  checkpointId ← vget input "checkpointId"; _ ← assertId checkpointId "checkpointId";
  tenantId ← vget input "tenantId"; _ ← assertId tenantId "tenantId";
  chainKind ← vget input "chainKind";
  _ ← guard_exc (strict_eq chainKind (VStr "audit")) "chainKind must be audit";
  epoch ← vget input "epoch"; epoch ← assertSafeInteger epoch "epoch";
  from ← vget input "fromSequence"; from ← assertSafeInteger from "fromSequence";
  through ← vget input "throughSequence"; through ← assertSafeInteger through "throughSequence";
  count ← vget input "recordCount"; count ← assertSafeInteger count "recordCount";
  throughHash ← vget input "throughHash"; _ ← assertHash throughHash "throughHash";
  archive ← vget input "archiveRootHash"; _ ← assertHash archive "archiveRootHash";
  fromPrev ← vget input "fromPreviousHash"; _ ← assertNullableHash fromPrev "fromPreviousHash";
  prevCp ← vget input "previousCheckpointHash"; _ ← assertNullableHash prevCp "previousCheckpointHash";
  createdAt ← vget input "createdAt"; _ ← assertTimestamp createdAt "createdAt";
  fingerprint ← vget input "signaturePublicKeyFingerprint";
  _ ← assertOptionalHash fingerprint "signaturePublicKeyFingerprint";
  _ ← guard_exc (negb (through <? from)%Z && (count =? through - from + 1)%Z)
        "recordCount must equal the inclusive checkpoint range";
  if (epoch =? 1)%Z then
    guard_exc ((from =? 1)%Z && is_null fromPrev && is_null prevCp) "epoch one must begin at genesis"
  else
    guard_exc (negb (is_null fromPrev) && negb (is_null prevCp))
      "later epochs must link prior record and checkpoint hashes".

Definition assertDispositionInput (input : val) : exc unit :=
  dispositionId ← vget input "dispositionId"; _ ← assertId dispositionId "dispositionId";
  tenantId ← vget input "tenantId"; _ ← assertId tenantId "tenantId";
  chainKind ← vget input "chainKind";
  _ ← guard_exc (strict_eq chainKind (VStr "audit")) "chainKind must be audit";
  checkpointHash ← vget input "checkpointHash"; _ ← assertHash checkpointHash "checkpointHash";
  from ← vget input "fromSequence"; from ← assertSafeInteger from "fromSequence";
  through ← vget input "throughSequence"; through ← assertSafeInteger through "throughSequence";
  _ ← guard_exc (negb (through <? from)%Z) "disposition range must be ordered";
  archive ← vget input "archiveRootHash"; _ ← assertHash archive "archiveRootHash";
  policyReference ← vget input "policyReference";
  ok ← regex_test POLICY_REFERENCE_PATTERN policyReference;
  _ ← guard_exc ok "policyReference is invalid";
  disposedAt ← vget input "disposedAt"; _ ← assertTimestamp disposedAt "disposedAt";
  fingerprint ← vget input "signaturePublicKeyFingerprint";
  assertOptionalHash fingerprint "signaturePublicKeyFingerprint".

Definition assertSignaturePair (fingerprint signature : val) : exc unit :=
  _ ← guard_exc (Bool.eqb (truthy fingerprint) (truthy signature))
        "signature and fingerprint must appear together";
  if negb (truthy signature) then Ret tt else
  algorithm ← vget signature "algorithm";
  _ ← guard_exc (strict_eq algorithm (VStr "ed25519")) "signature algorithm must be ed25519";
  key ← vget signature "publicKeyFingerprint";
  _ ← assertHash key "signature.publicKeyFingerprint";
  _ ← guard_exc (strict_eq key fingerprint)
        "signature public key fingerprint must match the bound fingerprint";
  text ← vget signature "signature";
  ok ← regex_test BASE64_SIGNATURE_PATTERN text;
  guard_exc ok "signature must be padded base64".

(** ** Payloads *)

(** Copies the named properties of [input] in order. *)
Definition copy_fields (input : val) (ks : list string) : list (string * val) :=
  (λ k, (k, vget_opt input k)) <$> ks.

Definition fingerprint_field (input : val) : list (string * val) :=
  if_truthy "signaturePublicKeyFingerprint" (vget_opt input "signaturePublicKeyFingerprint").

Definition checkpoint_input_keys : list string :=
  ["checkpointId"; "tenantId"; "chainKind"; "epoch"; "fromSequence"; "fromPreviousHash";
   "throughSequence"; "throughHash"; "recordCount"; "archiveRootHash"; "previousCheckpointHash";
   "createdAt"].

Definition checkpointUnsigned (input : val) : val :=
  VObj ([("recordType", VStr "retention.checkpoint"); ("schemaVersion", VStr RETENTION_SCHEMA_VERSION)]
        ++ copy_fields input checkpoint_input_keys
        ++ [("canonicalization", VStr RETENTION_CANONICALIZATION);
            ("hashAlgorithm", VStr RETENTION_HASH_ALGORITHM)]
        ++ fingerprint_field input).

Definition disposition_input_keys : list string :=
  ["dispositionId"; "tenantId"; "chainKind"; "checkpointHash"; "fromSequence"; "throughSequence";
   "archiveRootHash"].

Definition dispositionUnsigned (input : val) : val :=
  VObj ([("recordType", VStr "retention.disposition"); ("schemaVersion", VStr RETENTION_SCHEMA_VERSION)]
        ++ copy_fields input disposition_input_keys
        ++ [("method", VStr "provider-delete")]
        ++ copy_fields input ["policyReference"; "disposedAt"]
        ++ [("canonicalization", VStr RETENTION_CANONICALIZATION);
            ("hashAlgorithm", VStr RETENTION_HASH_ALGORITHM)]
        ++ fingerprint_field input).

Definition checkpointHashPayload (checkpoint : val) : val :=
  VObj (copy_fields checkpoint (["recordType"; "schemaVersion"] ++ checkpoint_input_keys
                                ++ ["canonicalization"; "hashAlgorithm"])
        ++ fingerprint_field checkpoint).

Definition dispositionHashPayload (disposition : val) : val :=
  VObj (copy_fields disposition (["recordType"; "schemaVersion"] ++ disposition_input_keys
                                 ++ ["method"; "policyReference"; "disposedAt"; "canonicalization";
                                     "hashAlgorithm"])
        ++ fingerprint_field disposition).

Definition hashRetentionCheckpoint (checkpoint : val) : exc string :=
  text ← canonicalJson (checkpointHashPayload checkpoint); sha256HexOpt text.

Definition hashRetentionDisposition (disposition : val) : exc string :=
  text ← canonicalJson (dispositionHashPayload disposition); sha256HexOpt text.

Definition normalizeSignature (signature : val) : val := VObj (copy_fields signature SIGNATURE_KEYS).

Definition signature_field (signature : val) : list (string * val) :=
  if truthy signature then [("signature", normalizeSignature signature)] else [].

(** The record with its hash and, when signed, its signature. *)
Definition sealed_record (unsigned : val) (hash : string) (signature : val) : val :=
  match unsigned with
  | VObj fs => VObj (fs ++ [("hash", VStr hash)] ++ signature_field signature)
  | _ => unsigned
  end.

Definition createRetentionCheckpoint (input signature : val) : exc val :=
  _ ← assertCheckpointInput input;
  fingerprint ← vget input "signaturePublicKeyFingerprint";
  _ ← assertSignaturePair fingerprint signature;
  let unsigned := checkpointUnsigned input in
  hash ← hashRetentionCheckpoint unsigned;
  Ret (sealed_record unsigned hash signature).

Definition createRetentionDisposition (input signature : val) : exc val :=
  _ ← assertDispositionInput input;
  fingerprint ← vget input "signaturePublicKeyFingerprint";
  _ ← assertSignaturePair fingerprint signature;
  let unsigned := dispositionUnsigned input in
  hash ← hashRetentionDisposition unsigned;
  Ret (sealed_record unsigned hash signature).

(** ** Verification *)

(** The status, and the reason to reject if there is one. *)
Definition verifyDetachedSignature (record : val) (options : RetentionVerificationOptions)
    : exc (RetentionSignatureStatus * option RetentionVerificationReason) :=
  let fingerprint := vget_opt record "signaturePublicKeyFingerprint" in
  let signature := vget_opt record "signature" in
  if negb (truthy fingerprint) && negb (truthy signature) then
    Ret (SigAbsent, if requireSignature options then Some signature_required else None) else
  if negb (truthy fingerprint) || negb (truthy signature)
     || negb (strict_eq (vget_opt signature "publicKeyFingerprint") fingerprint) then
    Ret (SigInvalid, Some signature_fingerprint_mismatch) else
  if negb (is_plain_object signature) || negb (hasOnlyKeys signature SIGNATURE_KEYS) then
    Ret (SigInvalid, Some signature_invalid) else
  if negb (strict_eq (vget_opt signature "algorithm") (VStr "ed25519")) then
    Ret (SigInvalid, Some signature_invalid) else
  ok ← regex_test BASE64_SIGNATURE_PATTERN (vget_opt signature "signature");
  if negb ok then Ret (SigInvalid, Some signature_invalid) else
  match trustedPublicKey options, signatureVerifier options with
  | Some key, Some verifier =>
      if negb (strict_eq (VStr (sha256Bytes key)) fingerprint) then
        Ret (SigInvalid, Some signature_fingerprint_mismatch) else
      Ret (catch
        (signatureBytes ← base64_bytes (vget_opt signature "signature");
         accepted ← verifier key signatureBytes (utf8 (default "" (str_of (vget_opt record "hash"))));
         Ret (if accepted : bool then (SigValid, None) else (SigInvalid, Some signature_invalid)))
        (SigInvalid, Some signature_invalid))
  | _, _ => Ret (SigSkipped, if requireSignature options then Some signature_required else None)
  end.

(** The checks shared by both record types after their shape: hash and signature. *)
Definition verify_sealed (record : val) (hash : val → exc string)
    (options : RetentionVerificationOptions) (index : nat) : exc RetentionVerificationResult :=
  let stored := vget_opt record "hash" in
  ok ← regex_test HASH_PATTERN stored;
  if negb ok then Ret (RetentionFail index retention_hash_mismatch SigAbsent) else
  expected ← hash record;
  if negb (strict_eq stored (VStr expected)) then
    Ret (RetentionFail index retention_hash_mismatch SigAbsent) else
  signature ← verifyDetachedSignature record options;
  match signature with
  | (status, Some why) => Ret (RetentionFail index why status)
  | (status, None) => Ret (RetentionOk status)
  end.

Definition verifyCheckpointAt (checkpoint : val) (options : RetentionVerificationOptions) (index : nat)
    : exc RetentionVerificationResult :=
  if negb (is_plain_object checkpoint) || negb (hasOnlyKeys checkpoint CHECKPOINT_RECORD_KEYS) then
    Ret (RetentionFail index invalid_checkpoint SigAbsent) else
  if negb (strict_eq (vget_opt checkpoint "recordType") (VStr "retention.checkpoint")
           && strict_eq (vget_opt checkpoint "schemaVersion") (VStr RETENTION_SCHEMA_VERSION)
           && strict_eq (vget_opt checkpoint "canonicalization") (VStr RETENTION_CANONICALIZATION)
           && strict_eq (vget_opt checkpoint "hashAlgorithm") (VStr RETENTION_HASH_ALGORITHM)) then
    Ret (RetentionFail index unsupported_protocol SigAbsent) else
  if negb (is_ret (assertCheckpointInput checkpoint)) then
    Ret (RetentionFail index invalid_checkpoint SigAbsent) else
  verify_sealed checkpoint hashRetentionCheckpoint options index.

Definition verifyRetentionCheckpoint (checkpoint : val) (options : RetentionVerificationOptions)
    : exc RetentionVerificationResult := verifyCheckpointAt checkpoint options 0.

(** The links between a checkpoint and its predecessor. *)
Definition checkpoint_linkage (index : nat) (previous : option val) (checkpoint : val)
    : option RetentionVerificationReason :=
  let same k k' p := strict_eq (vget_opt checkpoint k) (vget_opt p k') in
  if negb (strict_eq (vget_opt checkpoint "epoch") (VInt (Z.of_nat index + 1))) then Some epoch_mismatch
  else match previous with
  | None => None
  | Some p =>
      if negb (same "tenantId" "tenantId" p) then Some tenant_mismatch
      else if negb (same "chainKind" "chainKind" p) then Some chain_kind_mismatch
      else if negb (match vget_opt p "throughSequence" with
                    | VNum n => match num_int n with
                                | Some z => strict_eq (vget_opt checkpoint "fromSequence") (VInt (z + 1))
                                | None => false
                                end
                    | _ => false
                    end)
              || negb (same "fromPreviousHash" "throughHash" p) then Some range_mismatch
      else if negb (same "previousCheckpointHash" "hash" p) then Some previous_checkpoint_hash_mismatch
      else None
  end.

Fixpoint verify_checkpoints (options : RetentionVerificationOptions)
    (signature : RetentionSignatureStatus) (previous : option val) (index : nat)
    (checkpoints : list val) : exc RetentionVerificationResult :=
  match checkpoints with
  | [] => Ret (RetentionOk signature)
  | checkpoint :: checkpoints =>
      verified ← verifyCheckpointAt checkpoint options index;
      match verified with
      | RetentionFail i why s => Ret (RetentionFail i why (combineSignatureStatus signature s))
      | RetentionOk s =>
          let signature := combineSignatureStatus signature s in
          match checkpoint_linkage index previous checkpoint with
          | Some why => Ret (RetentionFail index why signature)
          | None => verify_checkpoints options signature (Some checkpoint) (1 + index) checkpoints
          end
      end
  end.

Definition verifyRetentionCheckpointChain (checkpoints : list val)
    (options : RetentionVerificationOptions) : exc RetentionVerificationResult :=
  verify_checkpoints options (match checkpoints with [] => SigAbsent | _ => SigValid end)
    None 0 checkpoints.

(** The loop over the retained records; [status] is the checkpoint's. *)
Fixpoint verify_retained (tenantId : val) (status : RetentionSignatureStatus)
    (sequence : Z) (previousHash : val) (index : nat) (records : list val)
    : exc RetentionVerificationResult :=
  match records with
  | [] => Ret (RetentionOk status)
  | record :: records =>
      let fail why := Ret (RetentionFail index why status) in
      event ← vget record "event";
      scope ← vget event "scope";
      if negb (truthy (vget_opt scope "tenantId")) then fail retention_missing_tenant_scope else
      if negb (strict_eq (vget_opt scope "tenantId") tenantId) then fail tenant_mismatch else
      if negb (strict_eq (vget_opt record "hashAlgorithm") (VStr RETENTION_HASH_ALGORITHM)) then
        fail retention_unsupported_hash_algorithm else
      if negb (strict_eq (vget_opt record "canonicalization") (VStr RETENTION_CANONICALIZATION)) then
        fail retention_unsupported_canonicalization else
      if negb (strict_eq (vget_opt record "sequence") (VInt (js_succ sequence))) then
        fail retention_sequence_mismatch else
      if negb (strict_eq (vget_opt record "previousHash") previousHash) then
        fail retention_previous_hash_mismatch else
      expected ← hashAuditRecord record;
      if negb (strict_eq (vget_opt record "hash") (VStr expected)) then fail record_hash_mismatch else
      verify_retained tenantId status (js_succ sequence) (VStr expected) (1 + index) records
  end.

Definition verifyAuditRecordsFromCheckpoint (checkpoint : val) (records : list val)
    (options : RetentionVerificationOptions) : exc RetentionVerificationResult :=
  checkpointResult ← verifyRetentionCheckpoint checkpoint options;
  match checkpointResult with
  | RetentionFail _ _ _ => Ret checkpointResult
  | RetentionOk status =>
      match vget_opt checkpoint "throughSequence" with
      | VNum n =>
          verify_retained (vget_opt checkpoint "tenantId") status (default 0%Z (num_int n))
            (vget_opt checkpoint "throughHash") 0 records
      | _ => Ret checkpointResult
      end
  end.

Definition verifyRetentionDisposition (disposition checkpoint : val)
    (options : RetentionVerificationOptions) : exc RetentionVerificationResult :=
  checkpointResult ← verifyRetentionCheckpoint checkpoint
    {| trustedPublicKey := trustedPublicKey options; requireSignature := false;
       signatureVerifier := signatureVerifier options |};
  match checkpointResult with
  | RetentionFail _ _ _ => Ret checkpointResult
  | RetentionOk _ =>
      if negb (is_plain_object disposition) || negb (hasOnlyKeys disposition DISPOSITION_RECORD_KEYS) then
        Ret (RetentionFail 0 invalid_disposition SigAbsent) else
      if negb (strict_eq (vget_opt disposition "recordType") (VStr "retention.disposition")
               && strict_eq (vget_opt disposition "schemaVersion") (VStr RETENTION_SCHEMA_VERSION)
               && strict_eq (vget_opt disposition "method") (VStr "provider-delete")
               && strict_eq (vget_opt disposition "canonicalization") (VStr RETENTION_CANONICALIZATION)
               && strict_eq (vget_opt disposition "hashAlgorithm") (VStr RETENTION_HASH_ALGORITHM)) then
        Ret (RetentionFail 0 unsupported_protocol SigAbsent) else
      if negb (is_ret (assertDispositionInput disposition)) then
        Ret (RetentionFail 0 invalid_disposition SigAbsent) else
      result ← verify_sealed disposition hashRetentionDisposition options 0;
      match result with
      | RetentionFail _ _ _ => Ret result
      | RetentionOk status =>
          let same k k' := strict_eq (vget_opt disposition k) (vget_opt checkpoint k') in
          if negb (same "tenantId" "tenantId" && same "chainKind" "chainKind"
                   && same "checkpointHash" "hash" && same "fromSequence" "fromSequence"
                   && same "throughSequence" "throughSequence"
                   && same "archiveRootHash" "archiveRootHash") then
            Ret (RetentionFail 0 checkpoint_mismatch status)
          else Ret (RetentionOk status)
      end
  end.

(** ** What the validation of a checkpoint establishes *)

Definition int_of (v : val) : option Z := match v with VNum n => num_int n | _ => None end.

Definition nullable_hash (v : val) : Prop :=
  v = VNull ∨ ∃ h, v = VStr h ∧ re_test HASH_PATTERN h = true.

Record valid_checkpoint_input (c : val) (tenant : string) (epoch from through : Z) (h : string) : Prop := {
  vc_tenant : vget_opt c "tenantId" = VStr tenant ∧ re_test ID_PATTERN tenant = true;
  vc_kind : vget_opt c "chainKind" = VStr "audit";
  vc_epoch : int_of (vget_opt c "epoch") = Some epoch;
  vc_from : int_of (vget_opt c "fromSequence") = Some from;
  vc_through : int_of (vget_opt c "throughSequence") = Some through;
  vc_count : int_of (vget_opt c "recordCount") = Some (through - from + 1)%Z;
  vc_range : (1 ≤ epoch ∧ 1 ≤ from ∧ from ≤ through ∧ through ≤ max_safe_integer)%Z;
  vc_throughHash : vget_opt c "throughHash" = VStr h ∧ re_test HASH_PATTERN h = true;
  vc_links : nullable_hash (vget_opt c "fromPreviousHash") ∧ nullable_hash (vget_opt c "previousCheckpointHash");
  vc_genesis : epoch = 1%Z → from = 1%Z ∧ vget_opt c "fromPreviousHash" = VNull ∧
                              vget_opt c "previousCheckpointHash" = VNull;
  vc_fingerprint : truthy (vget_opt c "signaturePublicKeyFingerprint") = false →
    vget_opt c "signaturePublicKeyFingerprint" = VUndef;
  vc_later : epoch ≠ 1%Z → vget_opt c "fromPreviousHash" ≠ VNull ∧
                            vget_opt c "previousCheckpointHash" ≠ VNull;
}.

Lemma assertSafeInteger_ret v f z :
  assertSafeInteger v f = Ret z → int_of v = Some z ∧ (1 ≤ z ≤ max_safe_integer)%Z.
Proof.
  unfold assertSafeInteger, int_of, is_safe_integer. destruct v as [| | |n| | | | |]; try done.
  destruct (num_int n) as [z'|]; [|done].
  destruct (_ && _) eqn:E; [|done]. intros [= <-]. split; [done|]. bool_prop. lia.
Qed.

Lemma assertHash_ret v f : assertHash v f = Ret tt → ∃ h, v = VStr h ∧ re_test HASH_PATTERN h = true.
Proof. unfold assertHash. intros Hg%guard_ret. destruct v; try done. eauto. Qed.

Lemma assertId_ret v f : assertId v f = Ret tt → ∃ s, v = VStr s ∧ re_test ID_PATTERN s = true.
Proof. unfold assertId. intros Hg%guard_ret. destruct v; try done. eauto. Qed.

Lemma assertNullableHash_ret v f : assertNullableHash v f = Ret tt → nullable_hash v.
Proof.
  unfold assertNullableHash, nullable_hash. destruct (is_null v) eqn:E.
  - intros _. left. by destruct v.
  - intros Hh%assertHash_ret. by right.
Qed.

Lemma assertOptionalHash_falsy v f : assertOptionalHash v f = Ret tt → truthy v = false → v = VUndef.
Proof.
  unfold assertOptionalHash. destruct (is_undef v) eqn:E; [by destruct v|].
  intros (h & -> & Hh)%assertHash_ret Ht. cbn in Ht. bool_prop. subst. by vm_compute in Hh.
Qed.

Lemma is_null_spec v : is_null v = true ↔ v = VNull.
Proof. by destruct v. Qed.

Lemma assertCheckpointInput_ret c :
  assertCheckpointInput c = Ret tt → ∃ tenant epoch from through h, valid_checkpoint_input c tenant epoch from through h.
Proof.
  unfold assertCheckpointInput. intros E.
  apply bind_ret in E as (id & _ & E). apply bind_ret in E as (_ & _ & E).
  apply bind_ret in E as (t & Ht%vget_obj_opt & E).
  apply bind_ret in E as ([] & (tenant & -> & Htn)%assertId_ret & E).
  apply bind_ret in E as (k & Hk%vget_obj_opt & E). apply bind_ret in E as ([] & Gk%guard_ret & E).
  apply strict_eq_str in Gk as ->.
  apply bind_ret in E as (ve & He%vget_obj_opt & E).
  apply bind_ret in E as (epoch & [Hepoch ?]%assertSafeInteger_ret & E).
  apply bind_ret in E as (vf & Hf%vget_obj_opt & E).
  apply bind_ret in E as (from & [Hfrom ?]%assertSafeInteger_ret & E).
  apply bind_ret in E as (vt & Hthr%vget_obj_opt & E).
  apply bind_ret in E as (through & [Hthrough ?]%assertSafeInteger_ret & E).
  apply bind_ret in E as (vn & Hn%vget_obj_opt & E).
  apply bind_ret in E as (count & [Hcount ?]%assertSafeInteger_ret & E).
  apply bind_ret in E as (vh & Hh%vget_obj_opt & E).
  apply bind_ret in E as ([] & (h & -> & Hhp)%assertHash_ret & E).
  apply bind_ret in E as (va & _ & E). apply bind_ret in E as (_ & _ & E).
  apply bind_ret in E as (vp & Hp%vget_obj_opt & E).
  apply bind_ret in E as ([] & Hpn%assertNullableHash_ret & E).
  apply bind_ret in E as (vc & Hc%vget_obj_opt & E).
  apply bind_ret in E as ([] & Hcn%assertNullableHash_ret & E).
  apply bind_ret in E as (vd & _ & E). apply bind_ret in E as (_ & _ & E).
  apply bind_ret in E as (fp & Hfp%vget_obj_opt & E). apply bind_ret in E as ([] & Hfo & E).
  apply bind_ret in E as ([] & Gr%guard_ret & E). bool_prop. subst count.
  exists tenant, epoch, from, through, h. subst.
  constructor; try done; try lia; [|by eapply assertOptionalHash_falsy|]; intros Hep.
  - subst. cbn in E. apply guard_ret in E. bool_prop. by rewrite <- !is_null_spec.
  - rewrite (proj2 (Z.eqb_neq _ _) Hep) in E. apply guard_ret in E. bool_prop.
    rewrite <- !is_null_spec. by split; congruence.
Qed.

(** ** Accepted checkpoints *)

Record accepted_checkpoint (c : val) (h : string) : Prop := {
  ac_keys : hasOnlyKeys c CHECKPOINT_RECORD_KEYS = true;
  ac_input : assertCheckpointInput c = Ret tt;
  ac_hash : hashRetentionCheckpoint c = Ret h ∧ vget_opt c "hash" = VStr h;
}.

Lemma verify_sealed_ok record hash options index status :
  verify_sealed record hash options index = Ret (RetentionOk status) →
  ∃ h, hash record = Ret h ∧ vget_opt record "hash" = VStr h ∧
       verifyDetachedSignature record options = Ret (status, None).
Proof.
  unfold verify_sealed. intros E. apply bind_ret in E as ([] & _ & E); [|done]. cbn in E.
  apply bind_ret in E as (h & Hh & E). destruct (strict_eq _ _) eqn:Es; [cbn in E|done].
  apply strict_eq_str in Es. apply bind_ret in E as ([st [why|]] & Hsig & E); [done|].
  injection E as <-. exists h. by split_and!.
Qed.

Lemma verifyCheckpointAt_ok c options index status :
  verifyCheckpointAt c options index = Ret (RetentionOk status) →
  ∃ h, accepted_checkpoint c h ∧ verifyDetachedSignature c options = Ret (status, None).
Proof.
  unfold verifyCheckpointAt. intros E.
  destruct (is_plain_object c) eqn:Ep; [|done]. destruct (hasOnlyKeys c _) eqn:Ek; [|done]. cbn [negb orb] in E.
  destruct (negb (_ && _)); [done|].
  destruct (is_ret (assertCheckpointInput c)) eqn:Ea; [cbn in E|done].
  apply is_ret_spec in Ea as [[] Ea].
  apply verify_sealed_ok in E as (h & Hh & Hs & Hsig). exists h. by split.
Qed.

Lemma verifyCheckpointAt_fail_index c options index i why status :
  verifyCheckpointAt c options index = Ret (RetentionFail i why status) → i = index.
Proof.
  unfold verifyCheckpointAt, verify_sealed. intros E.
  destruct (negb _ || _); [by injection E|]. destruct (negb (_ && _)); [by injection E|].
  destruct (negb _); [by injection E|].
  apply bind_ret in E as (ok & _ & E). destruct (negb ok); [by injection E|].
  apply bind_ret in E as (h & _ & E). destruct (negb _); [by injection E|].
  apply bind_ret in E as ([st [w|]] & _ & E); by injection E.
Qed.

(** ** Checkpoint chains *)

(** The sequence numbers a checkpoint archives. *)
Definition range_of (c : val) : list Z :=
  match int_of (vget_opt c "fromSequence"), int_of (vget_opt c "throughSequence") with
  | Some from, Some through => seqZ from (through - from + 1)
  | _, _ => []
  end.

(** [c] continues the archive that ends with the checkpoint [p]. *)
Record continues (p c : val) : Prop := {
  cont_tenant : vget_opt c "tenantId" = vget_opt p "tenantId";
  cont_link : vget_opt c "fromPreviousHash" = vget_opt p "throughHash";
  cont_checkpoint : vget_opt c "previousCheckpointHash" = vget_opt p "hash";
}.

Lemma int_of_VInt z : int_of (VInt z) = Some z.
Proof. apply num_int_of_Z. Qed.

Lemma checkpoint_linkage_first index c :
  checkpoint_linkage index None c = None → int_of (vget_opt c "epoch") = Some (Z.of_nat index + 1)%Z.
Proof.
  unfold checkpoint_linkage. destruct (strict_eq _ _) eqn:E; [|done].
  apply strict_eq_int in E as ->. by rewrite int_of_VInt.
Qed.

Lemma checkpoint_linkage_next index p c tenant epoch from through h hp :
  valid_checkpoint_input p tenant epoch from through h → vget_opt p "hash" = VStr hp →
  checkpoint_linkage index (Some p) c = None →
  int_of (vget_opt c "epoch") = Some (Z.of_nat index + 1)%Z ∧
  int_of (vget_opt c "fromSequence") = Some (through + 1)%Z ∧ continues p c.
Proof.
  intros V Hp E. pose proof (vc_through _ _ _ _ _ _ V) as Ht.
  pose proof (vc_throughHash _ _ _ _ _ _ V) as [Hh _]. pose proof (vc_tenant _ _ _ _ _ _ V) as [Htn _].
  unfold checkpoint_linkage in E. rewrite Hp, Hh, Htn in E.
  destruct (strict_eq _ (VInt _)) eqn:E0 in E; [cbn in E|done].
  destruct (strict_eq _ (VStr tenant)) eqn:E1 in E; [cbn in E|done].
  destruct (strict_eq (vget_opt c "chainKind") _) eqn:E2 in E; [cbn in E|done].
  destruct (vget_opt p "throughSequence") as [| | |m| | | | |]; try done. cbn in Ht. rewrite Ht in E.
  destruct (strict_eq _ (VInt _)) eqn:E3 in E; [cbn in E|done].
  destruct (strict_eq _ (VStr h)) eqn:E4 in E; [cbn in E|done].
  destruct (strict_eq _ (VStr hp)) eqn:E5 in E; [|done].
  apply strict_eq_int in E0, E3. apply strict_eq_str in E1, E4, E5.
  rewrite E0, E3, !int_of_VInt. split_and!; try done. constructor; congruence.
Qed.

(** Everything the checkpoints after [p] archive, when the chain is accepted. *)
Lemma verify_checkpoints_covers options cps : ∀ sig p index s tenant epoch from through h hp,
  valid_checkpoint_input p tenant epoch from through h → vget_opt p "hash" = VStr hp →
  verify_checkpoints options sig (Some p) index cps = Ret (RetentionOk s) →
  (∃ n, (0 ≤ n)%Z ∧ concat (range_of <$> cps) = seqZ (through + 1) n) ∧
  (∀ i c, cps !! i = Some c → int_of (vget_opt c "epoch") = Some (Z.of_nat (index + i) + 1)%Z) ∧
  (∀ i q c, (p :: cps) !! i = Some q → cps !! i = Some c → continues q c).
Proof.
  induction cps as [|c cps IH]; intros sig p index s tenant epoch from through h hp V Hp E.
  { split_and!; [by exists 0%Z|done|done]. }
  cbn [verify_checkpoints] in E. apply bind_ret in E as ([s'|i w s'] & Hc & E); [|done].
  destruct (checkpoint_linkage _ _ _) eqn:El; [done|].
  apply verifyCheckpointAt_ok in Hc as (hc & [_ Ha [_ Hhc]] & _).
  destruct (assertCheckpointInput_ret c Ha) as (tenant' & epoch' & from' & through' & h' & V').
  destruct (checkpoint_linkage_next _ _ _ _ _ _ _ _ _ V Hp El) as (He & Hf & Hcont).
  destruct (IH _ _ _ _ _ _ _ _ _ _ V' Hhc E) as ((n & Hn & Hcat) & Hepochs & Hconts).
  pose proof (vc_range _ _ _ _ _ _ V') as Hr.
  assert (from' = through + 1)%Z as ->.
  { pose proof (vc_from _ _ _ _ _ _ V') as Hf'. congruence. }
  split_and!.
  - exists (through' - (through + 1) + 1 + n)%Z. split; [lia|]. rewrite fmap_cons. cbn [concat].
    rewrite Hcat. unfold range_of. rewrite Hf, (vc_through _ _ _ _ _ _ V').
    rewrite (seqZ_app (through + 1) (through' - (through + 1) + 1) n) by lia.
    by replace (through + 1 + (through' - (through + 1) + 1))%Z with (through' + 1)%Z by lia.
  - intros [|i] q Hq; [injection Hq as <-; by rewrite Nat.add_0_r|].
    cbn in Hq. rewrite (Hepochs i q Hq). do 2 f_equal. lia.
  - intros [|i] q d Hq Hd; cbn in Hq, Hd; [by injection Hq as <-; injection Hd as <-|].
    by apply (Hconts i q d).
Qed.

Lemma verify_checkpoints_accepted options cps : ∀ sig p index s,
  verify_checkpoints options sig p index cps = Ret (RetentionOk s) → Forall (λ c, ∃ h, accepted_checkpoint c h) cps.
Proof.
  induction cps as [|c cps IH]; intros sig p index s E; [constructor|]. cbn [verify_checkpoints] in E.
  apply bind_ret in E as ([s'|i w s'] & Hc & E); [|done]. destruct (checkpoint_linkage _ _ _); [done|].
  apply verifyCheckpointAt_ok in Hc as (h & Hc & _). constructor; [by exists h|by eapply IH].
Qed.

Lemma checkpoint_chain_covers cps options status :
  verifyRetentionCheckpointChain cps options = Ret (RetentionOk status) →
  (∃ n, (0 ≤ n)%Z ∧ concat (range_of <$> cps) = seqZ 1 n) ∧
  (∀ i c, cps !! i = Some c → int_of (vget_opt c "epoch") = Some (Z.of_nat i + 1)%Z) ∧
  (∀ i p c, cps !! i = Some p → cps !! S i = Some c → continues p c).
Proof.
  unfold verifyRetentionCheckpointChain. destruct cps as [|c cps]; intros E.
  { split_and!; [by exists 0%Z|done|done]. }
  cbn [verify_checkpoints] in E. apply bind_ret in E as ([s'|i w s'] & Hc & E); [|done].
  destruct (checkpoint_linkage _ _ _) eqn:El; [done|]. apply checkpoint_linkage_first in El.
  apply verifyCheckpointAt_ok in Hc as (hc & [_ Ha [_ Hhc]] & _).
  destruct (assertCheckpointInput_ret c Ha) as (tenant & epoch & from & through & h & V).
  destruct (verify_checkpoints_covers _ _ _ _ _ _ _ _ _ _ _ _ V Hhc E) as ((n & Hn & Hcat) & Hepochs & Hconts).
  pose proof (vc_epoch _ _ _ _ _ _ V) as He. rewrite El in He. injection He as <-.
  destruct (vc_genesis _ _ _ _ _ _ V eq_refl) as [-> _]. pose proof (vc_range _ _ _ _ _ _ V) as Hr.
  split_and!.
  - exists (through + n)%Z. split; [lia|]. rewrite fmap_cons. cbn [concat]. rewrite Hcat.
    unfold range_of. rewrite (vc_from _ _ _ _ _ _ V), (vc_through _ _ _ _ _ _ V).
    replace (through - 1 + 1)%Z with through by lia. rewrite (seqZ_app 1 through n) by lia.
    by rewrite (Z.add_comm 1).
  - intros [|i] q Hq; [by injection Hq as <-|]. cbn in Hq. by rewrite (Hepochs i q Hq).
  - intros i p d Hp Hd. by apply (Hconts i p d).
Qed.

(** ** Retained records *)

Lemma verify_retained_step t status n h i r rs :
  verify_retained (VStr t) status n (VStr h) i (r :: rs) = Ret (RetentionOk status) → t ≠ "" →
  (n < 2 ^ 53)%Z →
  envelope Audit r t ∧ ∃ h', link (VStr h) n r h' ∧
    verify_retained (VStr t) status (n + 1) (VStr h') (1 + i) rs = Ret (RetentionOk status).
Proof.
  intros E Hne Hn. cbn [verify_retained] in E. rewrite js_succ_exact in E by lia.
  apply bind_ret in E as (ev & Hev & E). apply bind_ret in E as (sc & Hsc & E).
  destruct (truthy _) eqn:Et; [cbn in E|done].
  destruct (strict_eq _ (VStr t)) eqn:E0 in E; [cbn in E|done].
  destruct (strict_eq _ (VStr RETENTION_HASH_ALGORITHM)) eqn:E1 in E; [cbn in E|done].
  destruct (strict_eq _ (VStr RETENTION_CANONICALIZATION)) eqn:E2 in E; [cbn in E|done].
  destruct (strict_eq _ (VInt (n + 1))) eqn:E3 in E; [cbn in E|done].
  destruct (strict_eq _ (VStr h)) eqn:E4 in E; [cbn in E|done].
  apply bind_ret in E as (h' & Hh & E).
  destruct (strict_eq _ (VStr h')) eqn:E5 in E; [cbn in E|done].
  apply strict_eq_str in E0, E1, E2, E4, E5. apply strict_eq_int in E3.
  assert (∀ k, vget r k = Ret (vget_opt r k)) as Hget by (intros k; by destruct r).
  split.
  - constructor; [|by rewrite Hget, E1|by rewrite Hget, E2]. by exists ev, sc.
  - exists h'. split; [|done]. constructor; [by rewrite Hget, E3|by rewrite Hget, E4|by rewrite Hget, E5|].
    by apply (hashRecord_text Audit).
Qed.

Lemma verify_retained_link t status n h i r rs h' :
  envelope Audit r t → link (VStr h) n r h' → (n < 2 ^ 53 - 1)%Z →
  verify_retained (VStr t) status n (VStr h) i (r :: rs) =
  verify_retained (VStr t) status (n + 1) (VStr h') (1 + i) rs.
Proof.
  intros [(ev & sc & Hev & Hsc & Ht & Hne) Halg Hcan] [Hs Hp Hh Hd] Hn.
  cbn [verify_retained]. rewrite js_succ_exact by lia. cbn in Hev. rewrite Hev; cbn [mbind exc_mbind].
  rewrite Hsc; cbn [mbind exc_mbind]. rewrite Ht. cbn [truthy]. rewrite (proj2 (String.eqb_neq _ _) Hne).
  cbn [negb]. rewrite strict_eq_str_refl; cbn [negb].
  rewrite (vget_obj_opt _ _ _ Halg), (vget_obj_opt _ _ _ Hcan), (vget_obj_opt _ _ _ Hs),
    (vget_obj_opt _ _ _ Hp), (vget_obj_opt _ _ _ Hh).
  change RETENTION_HASH_ALGORITHM with HASH_ALGORITHM.
  change RETENTION_CANONICALIZATION with CANONICALIZATION.
  rewrite !strict_eq_str_refl, strict_eq_int_refl; cbn [negb].
  change hashAuditRecord with (hashRecord Audit).
  rewrite (proj2 (hashRecord_text Audit r h') Hd); cbn [mbind exc_mbind].
  by rewrite strict_eq_str_refl.
Qed.

Lemma verify_retained_chain t status rs : ∀ pre n h i,
  t ≠ "" → chain pre (VStr h) n → (n + Z.of_nat (length rs) < 2 ^ 53)%Z →
  verify_retained (VStr t) status n (VStr h) i rs = Ret (RetentionOk status) ↔
  Forall (λ r, envelope Audit r t) rs ∧ ∃ tip m, chain (pre ++ rs) tip m.
Proof.
  induction rs as [|r rs IH]; intros pre n h i Hne C Hlen.
  { split; [intros _|done]. split; [constructor|]. rewrite app_nil_r. eauto. }
  cbn [length] in Hlen. split.
  - intros E. assert (n < 2 ^ 53 - 1)%Z as Hn by lia.
    destruct (verify_retained_step _ _ _ _ _ _ _ E Hne ltac:(lia)) as (He & h' & L & E').
    apply (IH (pre ++ [r]) (n + 1)%Z h' (1 + i)%nat Hne) in E' as [Hes Hc];
      [|by econstructor|lia].
    split; [by constructor|]. by rewrite <- app_assoc in Hc.
  - intros [Hes (tip & m & Hc)]. inversion Hes as [|? ? He Hes']; subst.
    change (r :: rs) with ([r] ++ rs) in Hc. rewrite app_assoc in Hc.
    destruct (chain_app_inv _ _ _ _ Hc) as (tip' & n' & C').
    destruct (chain_snoc_inv _ _ _ _ _ _ C C') as (h' & L & -> & ->).
    rewrite (verify_retained_link _ _ _ _ _ _ _ _ He L) by lia.
    apply (IH (pre ++ [r])); [done|done|lia|]. split; [done|eauto].
Qed.

(** ** Created records verify *)

Definition fingerprint_key : string := "signaturePublicKeyFingerprint".

Lemma assertCheckpointInput_ext c d :
  (∀ k, k ∈ checkpoint_input_keys ++ [fingerprint_key] → vget c k = vget d k) →
  assertCheckpointInput c = assertCheckpointInput d.
Proof.
  intros Hk. unfold assertCheckpointInput.
  rewrite !Hk by (eapply bool_decide_eq_true_1; vm_compute; reflexivity).
  done.
Qed.

Lemma assertDispositionInput_ext c d :
  (∀ k, k ∈ disposition_input_keys ++ ["policyReference"; "disposedAt"; fingerprint_key] → vget c k = vget d k) →
  assertDispositionInput c = assertDispositionInput d.
Proof.
  intros Hk. unfold assertDispositionInput.
  rewrite !Hk by (eapply bool_decide_eq_true_1; vm_compute; reflexivity).
  done.
Qed.

(** What [assertSignaturePair] establishes about a signature. *)
Lemma assertSignaturePair_ret fingerprint signature :
  assertSignaturePair fingerprint signature = Ret tt →
  truthy fingerprint = truthy signature ∧
  (truthy signature = true →
     (∀ k, vget signature k = Ret (vget_opt signature k)) ∧
     vget_opt signature "algorithm" = VStr "ed25519" ∧
     strict_eq (vget_opt signature "publicKeyFingerprint") fingerprint = true ∧
     regex_test BASE64_SIGNATURE_PATTERN (vget_opt signature "signature") = Ret true).
Proof.
  unfold assertSignaturePair. intros E. apply bind_ret in E as ([] & Hb%guard_ret & E).
  split; [by apply eqb_prop|]. intros Ht. rewrite Ht in E. cbn [negb] in E.
  assert (∀ k, vget signature k = Ret (vget_opt signature k)) as Hget by (intros k; by destruct signature).
  rewrite !Hget in E. cbn [mbind exc_mbind] in E.
  apply bind_ret in E as ([] & Ha%guard_ret & E). apply bind_ret in E as ([] & _ & E).
  apply bind_ret in E as ([] & Hk%guard_ret & E). apply bind_ret in E as (ok & Hok & E%guard_ret).
  subst ok. apply strict_eq_str in Ha. by split_and!.
Qed.

(** The status of a record signed (or not) by a created signature, when no key
    is configured. *)
Lemma detached_signature_created record fingerprint signature :
  assertSignaturePair fingerprint signature = Ret tt →
  vget_opt record "signaturePublicKeyFingerprint" = (if truthy signature then fingerprint else VUndef) →
  vget_opt record "signature" = (if truthy signature then normalizeSignature signature else VUndef) →
  verifyDetachedSignature record no_options =
  Ret (if truthy signature then SigSkipped else SigAbsent, None).
Proof.
  intros [Hb Hs]%assertSignaturePair_ret Hf Hsig. unfold verifyDetachedSignature. rewrite Hf, Hsig.
  destruct (truthy signature) eqn:Et; [|done]. destruct (Hs eq_refl) as (_ & Ha & Hk & Hr).
  rewrite Hb. change (truthy (normalizeSignature signature)) with true. cbn [negb andb orb].
  change (vget_opt (normalizeSignature signature) "publicKeyFingerprint")
    with (vget_opt signature "publicKeyFingerprint").
  change (vget_opt (normalizeSignature signature) "algorithm") with (vget_opt signature "algorithm").
  change (vget_opt (normalizeSignature signature) "signature") with (vget_opt signature "signature").
  rewrite Hk, Ha, Hr. reflexivity.
Qed.

Lemma sealed_ok record hash h index status :
  hash record = Ret h → vget_opt record "hash" = VStr h → re_test HASH_PATTERN h = true →
  verifyDetachedSignature record no_options = Ret (status, None) →
  verify_sealed record hash no_options index = Ret (RetentionOk status).
Proof.
  intros Hh Hs Hp Hsig. unfold verify_sealed, regex_test. rewrite Hs. cbn [js_String mbind exc_mbind].
  rewrite Hp. cbn [negb]. rewrite Hh. cbn [mbind exc_mbind]. rewrite strict_eq_str_refl. cbn [negb].
  by rewrite Hsig.
Qed.

Lemma sha256HexOpt_shape o h : sha256HexOpt o = Ret h → re_test HASH_PATTERN h = true.
Proof. destruct o as [s|]; [|done]. intros [= <-]. apply sha256Hex_shape. Qed.

Lemma created_checkpoint_verifies input signature c :
  createRetentionCheckpoint input signature = Ret c →
  verifyRetentionCheckpoint c no_options =
  Ret (RetentionOk (if truthy signature then SigSkipped else SigAbsent)).
Proof.
  unfold createRetentionCheckpoint. intros E.
  apply bind_ret in E as ([] & Ha & E). apply bind_ret in E as (fp & Hfp & E).
  apply bind_ret in E as ([] & Hp & E). apply bind_ret in E as (h & Hh & [= <-]).
  assert (re_test HASH_PATTERN h = true) as Hshape.
  { unfold hashRetentionCheckpoint in Hh. apply bind_ret in Hh as (o & _ & Ho). by eapply sha256HexOpt_shape. }
  pose proof (vget_obj_opt _ _ _ Hfp) as Efp.
  destruct (assertSignaturePair_ret _ _ Hp) as [Hb _].
  pose proof (vget_all _ _ _ Hfp) as Hget.
  assert (truthy fp = false → fp = VUndef) as Hundef.
  { destruct (assertCheckpointInput_ret _ Ha) as (? & ? & ? & ? & ? & V).
    pose proof (vc_fingerprint _ _ _ _ _ _ V) as Hf. by rewrite Efp in Hf. }
  unfold verifyRetentionCheckpoint, verifyCheckpointAt.
  unfold sealed_record, checkpointUnsigned, signature_field, fingerprint_field, if_truthy in *.
  rewrite Efp, Hb in *.
  destruct (truthy signature) eqn:Et; cbn [app]; (
    match goal with |- context [is_plain_object ?r] => set (c := r) end;
    assert (assertCheckpointInput c = Ret tt) as ->
      by (rewrite <- Ha; apply assertCheckpointInput_ext; intros k Hk;
          rewrite Hget; apply elem_of_app in Hk as [Hk|Hk%list_elem_of_singleton];
          [unfold checkpoint_input_keys in Hk; repeat (apply elem_of_cons in Hk as [->|Hk]; [reflexivity|]);
           by apply elem_of_nil in Hk
          |subst k; unfold fingerprint_key; rewrite Efp, ?Hundef by done; reflexivity]);
    change (hasOnlyKeys c CHECKPOINT_RECORD_KEYS) with true; cbn [is_plain_object negb orb is_ret];
    change (vget_opt c "recordType") with (VStr "retention.checkpoint");
    change (vget_opt c "schemaVersion") with (VStr RETENTION_SCHEMA_VERSION);
    change (vget_opt c "canonicalization") with (VStr RETENTION_CANONICALIZATION);
    change (vget_opt c "hashAlgorithm") with (VStr RETENTION_HASH_ALGORITHM);
    rewrite !strict_eq_str_refl; cbn [andb negb];
    apply (sealed_ok c _ h); [|done|done|]).
  - unfold hashRetentionCheckpoint in *. rewrite <- Hh. f_equal.
  - pose proof (detached_signature_created c fp signature Hp) as D. rewrite Et in D. by apply D.
  - unfold hashRetentionCheckpoint in *. rewrite <- Hh. f_equal.
  - pose proof (detached_signature_created c fp signature Hp) as D. rewrite Et in D. by apply D.
Qed.

Lemma assertDispositionInput_fingerprint d :
  assertDispositionInput d = Ret tt → truthy (vget_opt d fingerprint_key) = false →
  vget_opt d fingerprint_key = VUndef.
Proof.
  unfold assertDispositionInput. intros E.
  apply bind_ret in E as (? & _ & E). apply bind_ret in E as (_ & _ & E).
  apply bind_ret in E as (? & _ & E). apply bind_ret in E as (_ & _ & E).
  apply bind_ret in E as (? & _ & E). apply bind_ret in E as (_ & _ & E).
  apply bind_ret in E as (? & _ & E). apply bind_ret in E as (_ & _ & E).
  apply bind_ret in E as (? & _ & E). apply bind_ret in E as (? & _ & E).
  apply bind_ret in E as (? & _ & E). apply bind_ret in E as (? & _ & E).
  apply bind_ret in E as (_ & _ & E). apply bind_ret in E as (? & _ & E).
  apply bind_ret in E as (_ & _ & E). apply bind_ret in E as (? & _ & E).
  apply bind_ret in E as (? & _ & E). apply bind_ret in E as (_ & _ & E).
  apply bind_ret in E as (? & _ & E). apply bind_ret in E as (_ & _ & E).
  apply bind_ret in E as (fp & Hfp%vget_obj_opt & E). unfold fingerprint_key. rewrite Hfp.
  by eapply assertOptionalHash_falsy.
Qed.

(** The fields a disposition shares with the checkpoint it refers to. *)
Definition refers_to (d checkpoint : val) : bool :=
  let same k k' := strict_eq (vget_opt d k) (vget_opt checkpoint k') in
  same "tenantId" "tenantId" && same "chainKind" "chainKind" && same "checkpointHash" "hash"
  && same "fromSequence" "fromSequence" && same "throughSequence" "throughSequence"
  && same "archiveRootHash" "archiveRootHash".

Lemma created_disposition_verifies input signature d checkpoint status :
  createRetentionDisposition input signature = Ret d →
  verifyRetentionCheckpoint checkpoint no_options = Ret (RetentionOk status) →
  refers_to input checkpoint = true →
  verifyRetentionDisposition d checkpoint no_options =
  Ret (RetentionOk (if truthy signature then SigSkipped else SigAbsent)).
Proof.
  unfold createRetentionDisposition. intros E Hcp Href.
  apply bind_ret in E as ([] & Ha & E). apply bind_ret in E as (fp & Hfp & E).
  apply bind_ret in E as ([] & Hp & E). apply bind_ret in E as (h & Hh & [= <-]).
  assert (re_test HASH_PATTERN h = true) as Hshape.
  { unfold hashRetentionDisposition in Hh. apply bind_ret in Hh as (o & _ & Ho). by eapply sha256HexOpt_shape. }
  pose proof (vget_obj_opt _ _ _ Hfp) as Efp.
  destruct (assertSignaturePair_ret _ _ Hp) as [Hb _].
  pose proof (vget_all _ _ _ Hfp) as Hget.
  assert (truthy fp = false → fp = VUndef) as Hundef.
  { pose proof (assertDispositionInput_fingerprint _ Ha) as Hf. unfold fingerprint_key in Hf.
    by rewrite Efp in Hf. }
  unfold verifyRetentionDisposition. change {| trustedPublicKey := _; requireSignature := _; signatureVerifier := _ |}
    with no_options. rewrite Hcp. cbn [mbind exc_mbind].
  unfold sealed_record, dispositionUnsigned, signature_field, fingerprint_field, if_truthy in *.
  rewrite Efp, Hb in *.
  destruct (truthy signature) eqn:Et; cbn [app]; (
    match goal with |- context [is_plain_object ?r] => set (c := r) end;
    assert (assertDispositionInput c = Ret tt) as ->
      by (rewrite <- Ha; apply assertDispositionInput_ext; intros k Hk;
          rewrite Hget; apply elem_of_app in Hk as [Hk|Hk];
          [unfold disposition_input_keys in Hk; repeat (apply elem_of_cons in Hk as [->|Hk]; [reflexivity|]);
           by apply elem_of_nil in Hk
          |do 2 (apply elem_of_cons in Hk as [->|Hk]; [reflexivity|]);
           apply list_elem_of_singleton in Hk; subst k; unfold fingerprint_key;
           rewrite Efp, ?Hundef by done; reflexivity]);
    change (hasOnlyKeys c DISPOSITION_RECORD_KEYS) with true; cbn [is_plain_object negb orb is_ret];
    change (vget_opt c "recordType") with (VStr "retention.disposition");
    change (vget_opt c "schemaVersion") with (VStr RETENTION_SCHEMA_VERSION);
    change (vget_opt c "method") with (VStr "provider-delete");
    change (vget_opt c "canonicalization") with (VStr RETENTION_CANONICALIZATION);
    change (vget_opt c "hashAlgorithm") with (VStr RETENTION_HASH_ALGORITHM);
    rewrite !strict_eq_str_refl; cbn [andb negb];
    rewrite (sealed_ok c hashRetentionDisposition h 0 (if truthy signature then SigSkipped else SigAbsent));
    [rewrite Et; cbn [mbind exc_mbind]; cbv zeta beta;
     match goal with |- context [negb ?b] => replace b with true by (symmetry; exact Href) end; reflexivity
    |unfold hashRetentionDisposition in *; rewrite <- Hh; f_equal
    |done|done
    |pose proof (detached_signature_created c fp signature Hp) as D; rewrite Et in D |- *; by apply D]).
Qed.

(** What acceptance of a disposition establishes. *)
Lemma verifyRetentionDisposition_ok d checkpoint options status :
  verifyRetentionDisposition d checkpoint options = Ret (RetentionOk status) →
  (∃ h, accepted_checkpoint checkpoint h) ∧
  assertDispositionInput d = Ret tt ∧
  (∃ h, hashRetentionDisposition d = Ret h ∧ vget_opt d "hash" = VStr h) ∧
  refers_to d checkpoint = true ∧ vget_opt d "method" = VStr "provider-delete".
Proof.
  unfold verifyRetentionDisposition. intros E. apply bind_ret in E as ([s|] & Hcp & E); [|done].
  apply verifyCheckpointAt_ok in Hcp as (hc & Hc & _).
  destruct (negb _ || _); [done|].
  destruct (_ && strict_eq _ (VStr RETENTION_HASH_ALGORITHM)) eqn:Ep; [cbn [negb] in E|done].
  destruct (is_ret (assertDispositionInput d)) eqn:Ea; [cbn [negb] in E|done].
  apply is_ret_spec in Ea as [[] Ea].
  apply bind_ret in E as ([s'|] & Hs & E); [|done].
  apply verify_sealed_ok in Hs as (h & Hh & Hst & _).
  destruct (negb _) eqn:Er in E; [done|]. apply negb_false_iff in Er.
  change (refers_to d checkpoint = true) in Er. bool_prop. split_and!; eauto.
  match goal with Hm : strict_eq (vget_opt d "method") _ = true |- _ => by apply strict_eq_str in Hm end.
Qed.
End Retention.

(** ** Properties *)

#[local] Instance demo_host : Host :=
  {| host_dates := {| legacy_date_parse := λ _, None |}; date_of_object := λ _, None;
     date_string := λ _, "Invalid Date" |}.
#[local] Instance demo_base64 : Base64 := {| base64_bytes := λ _, Ret [] |}.

Definition demo_hash (c : ascii) : string := of_chars (replicate 64 c).

Definition demo_checkpoint_input (epoch from through : Z) (fromPrev through_hash prevCp : val) : val := VObj
  [("checkpointId", VStr "cp"); ("tenantId", VStr "a"); ("chainKind", VStr "audit"); ("epoch", VInt epoch);
   ("fromSequence", VInt from); ("fromPreviousHash", fromPrev); ("throughSequence", VInt through);
   ("throughHash", through_hash); ("recordCount", VInt (through - from + 1));
   ("archiveRootHash", VStr (demo_hash "e")); ("previousCheckpointHash", prevCp);
   ("createdAt", VStr "2026-06-10T00:00:00.000Z")].

Definition demo_checkpoint (epoch from through : Z) (fromPrev through_hash prevCp : val) : val :=
  default VUndef (exc_to_option (createRetentionCheckpoint
    (demo_checkpoint_input epoch from through fromPrev through_hash prevCp) VUndef)).

Definition demo_cp1 : val := demo_checkpoint 1 1 1 VNull (record_hash demo_a1) VNull.
Definition demo_cp2 : val :=
  demo_checkpoint 2 2 2 (record_hash demo_a1) (record_hash demo_a2) (record_hash demo_cp1).

(** Retained records verify against a checkpoint exactly when they complete the
    archived chain: for a checkpoint that anchors the chain [pre] of a tenant (its
    length and tip), verification of [post] from the checkpoint accepts precisely
    the records of that tenant with which [pre ++ post] is one chain. *)
Theorem verifyAuditRecordsFromCheckpoint_exact `{Hasher} `{Host} `{Base64} c options status t n h pre post :
  verifyRetentionCheckpoint c options = Ret (RetentionOk status) →
  vget_opt c "tenantId" = VStr t → vget_opt c "throughSequence" = VInt n →
  vget_opt c "throughHash" = VStr h →
  chain pre (VStr h) n → (n + Z.of_nat (length post) < 2 ^ 53)%Z →
  verifyAuditRecordsFromCheckpoint c post options = Ret (RetentionOk status) ↔
  Forall (λ r, envelope Audit r t) post ∧ ∃ tip m, chain (pre ++ post) tip m.
Proof.
  intros Hv Ht Hn Hh C Hlen. unfold verifyAuditRecordsFromCheckpoint. rewrite Hv. cbn [mbind exc_mbind].
  rewrite Ht, Hn, Hh. unfold VInt. rewrite num_int_of_Z. cbn [default].
  apply verify_retained_chain; try done.
  apply verifyCheckpointAt_ok in Hv as (hc & [_ Ha _] & _).
  apply assertCheckpointInput_ret in Ha as (t' & e & f & th & h' & V).
  pose proof (vc_tenant _ _ _ _ _ _ V) as [Ht' Hid]. rewrite Ht in Ht'. injection Ht' as <-.
  intros ->. by vm_compute in Hid.
Qed.

Lemma verifyAuditRecordsFromCheckpoint_exact_witness :
  verifyAuditRecordsFromCheckpoint demo_cp1 [demo_a2] no_options = Ret (RetentionOk SigAbsent) ↔
  Forall (λ r, envelope Audit r "a") [demo_a2] ∧ ∃ tip m, chain ([demo_a1] ++ [demo_a2]) tip m.
Proof.
  apply (verifyAuditRecordsFromCheckpoint_exact demo_cp1 no_options SigAbsent "a" 1
           (default "" (str_of (record_hash demo_a1)))).
  - vm_compute. reflexivity.
  - vm_compute. reflexivity.
  - vm_compute. reflexivity.
  - vm_compute. reflexivity.
  - apply (steps_chain Audit). eexists. split; vm_compute; reflexivity.
  - vm_compute. reflexivity.
Defined.

(** An accepted checkpoint chain archives the records 1, 2, ..., n of one
    tenant, each exactly once and in order: the ranges of the checkpoints join to
    that sequence, epochs count from one, and every checkpoint repeats its
    predecessor's tenant, tip and hash. *)
Theorem verifyRetentionCheckpointChain_covers `{Hasher} `{Host} `{Base64} cps options status :
  verifyRetentionCheckpointChain cps options = Ret (RetentionOk status) →
  (∃ n, (0 ≤ n)%Z ∧ concat (range_of <$> cps) = seqZ 1 n) ∧
  (∀ i c, cps !! i = Some c → int_of (vget_opt c "epoch") = Some (Z.of_nat i + 1)%Z) ∧
  (∀ i p c, cps !! i = Some p → cps !! S i = Some c → continues p c).
Proof. apply checkpoint_chain_covers. Qed.

Lemma verifyRetentionCheckpointChain_covers_witness :
  (∃ n, (0 ≤ n)%Z ∧ concat (range_of <$> [demo_cp1; demo_cp2]) = seqZ 1 n) ∧
  (∀ i c, [demo_cp1; demo_cp2] !! i = Some c → int_of (vget_opt c "epoch") = Some (Z.of_nat i + 1)%Z) ∧
  (∀ i p c, [demo_cp1; demo_cp2] !! i = Some p → [demo_cp1; demo_cp2] !! S i = Some c → continues p c).
Proof.
  apply (verifyRetentionCheckpointChain_covers [demo_cp1; demo_cp2] no_options SigAbsent).
  vm_compute. reflexivity.
Defined.

(** Created checkpoints verify, signed or not (without a configured key the
    signature is reported as skipped). *)
Theorem createRetentionCheckpoint_verifies `{Hasher} `{Host} `{Base64} input signature c :
  createRetentionCheckpoint input signature = Ret c →
  verifyRetentionCheckpoint c no_options =
  Ret (RetentionOk (if truthy signature then SigSkipped else SigAbsent)).
Proof. apply created_checkpoint_verifies. Qed.

Definition demo_signature : val := VObj
  [("algorithm", VStr "ed25519"); ("publicKeyFingerprint", VStr (demo_hash "f"));
   ("signature", VStr (of_chars (replicate 86 "A"%char) +:+ "=="))].

Definition demo_signed_input : val :=
  match demo_checkpoint_input 1 1 1 VNull (record_hash demo_a1) VNull with
  | VObj fs => VObj (fs ++ [("signaturePublicKeyFingerprint", VStr (demo_hash "f"))])
  | v => v
  end.

Lemma createRetentionCheckpoint_verifies_witness :
  verifyRetentionCheckpoint
    (default VUndef (exc_to_option (createRetentionCheckpoint demo_signed_input demo_signature))) no_options
  = Ret (RetentionOk SigSkipped).
Proof.
  apply (createRetentionCheckpoint_verifies demo_signed_input demo_signature). vm_compute. reflexivity.
Defined.

(** A created disposition verifies against the accepted checkpoint whose
    tenant, range, archive and hash it names. *)
Theorem createRetentionDisposition_verifies `{Hasher} `{Host} `{Base64} input signature d checkpoint status :
  createRetentionDisposition input signature = Ret d →
  verifyRetentionCheckpoint checkpoint no_options = Ret (RetentionOk status) →
  refers_to input checkpoint = true →
  verifyRetentionDisposition d checkpoint no_options =
  Ret (RetentionOk (if truthy signature then SigSkipped else SigAbsent)).
Proof. apply created_disposition_verifies. Qed.

Definition demo_disposition_fields : list (string * val) :=
  [("dispositionId", VStr "d1"); ("tenantId", VStr "a"); ("chainKind", VStr "audit");
   ("checkpointHash", record_hash demo_cp1); ("fromSequence", VInt 1); ("throughSequence", VInt 1);
   ("archiveRootHash", VStr (demo_hash "e")); ("disposedAt", VStr "2026-06-11T00:00:00.000Z")].

Definition demo_disposition_input : val :=
  VObj (demo_disposition_fields ++ [("policyReference", VStr "policy-1")]).

Definition demo_disposition : val :=
  default VUndef (exc_to_option (createRetentionDisposition demo_disposition_input VUndef)).

Lemma createRetentionDisposition_verifies_witness :
  verifyRetentionDisposition demo_disposition demo_cp1 no_options = Ret (RetentionOk SigAbsent).
Proof.
  apply (createRetentionDisposition_verifies demo_disposition_input VUndef demo_disposition demo_cp1 SigAbsent);
    vm_compute; reflexivity.
Defined.

(** An accepted disposition is bound to its checkpoint: the checkpoint itself
    is accepted, the receipt's hash is the digest of its payload, its method is
    provider deletion, and its tenant, chain kind, range, archive root and
    checkpoint hash are the checkpoint's. *)
Theorem verifyRetentionDisposition_bound `{Hasher} `{Host} `{Base64} d checkpoint options status :
  verifyRetentionDisposition d checkpoint options = Ret (RetentionOk status) →
  (∃ h, accepted_checkpoint checkpoint h) ∧
  (∃ h, hashRetentionDisposition d = Ret h ∧ vget_opt d "hash" = VStr h) ∧
  vget_opt d "method" = VStr "provider-delete" ∧ refers_to d checkpoint = true.
Proof. intros (? & _ & ? & ? & ?)%verifyRetentionDisposition_ok. by split_and!. Qed.

Lemma verifyRetentionDisposition_bound_witness :
  (∃ h, accepted_checkpoint demo_cp1 h) ∧
  (∃ h, hashRetentionDisposition demo_disposition = Ret h ∧ vget_opt demo_disposition "hash" = VStr h) ∧
  vget_opt demo_disposition "method" = VStr "provider-delete" ∧ refers_to demo_disposition demo_cp1 = true.
Proof.
  apply (verifyRetentionDisposition_bound demo_disposition demo_cp1 no_options SigAbsent).
  vm_compute. reflexivity.
Defined.

(** The policy reference is checked by its text after conversion to a string,
    so a receipt without one is created and accepted (the missing value reads as
    the identifier "undefined"). *)
Theorem disposition_without_policy_accepted :
  ∃ d, createRetentionDisposition (VObj demo_disposition_fields) VUndef = Ret d ∧
       vget_opt d "policyReference" = VUndef ∧
       verifyRetentionDisposition d demo_cp1 no_options = Ret (RetentionOk SigAbsent).
Proof.
  exists (default VUndef (exc_to_option (createRetentionDisposition (VObj demo_disposition_fields) VUndef))).
  split_and!; vm_compute; reflexivity.
Qed.

(** The checkpoint verifier does not return for every JSON input: a stored
    hash that cannot be converted to a string makes it throw. *)
Theorem verifyRetentionCheckpoint_throws :
  ∃ c, is_json c = true ∧ is_ret (verifyRetentionCheckpoint c no_options) = false.
Proof.
  exists (match demo_cp1 with
          | VObj fs => VObj (obj_omit "hash" fs ++ [("hash", VObj [("toString", VNull)])])
          | v => v
          end).
  split; vm_compute; reflexivity.
Qed.
