(* ===== verification/ExportBundle.v ===== *)
(** * Export bundles (sdks/typescript/src/export-bundle.ts, vevb-1)

    Building, signing, serializing, parsing and verifying a bundle. A bundle is a
    JSON object value. WebCrypto and its keys are an interface; base64 is the file
    WebBase64. The verifier reports a list of issues per gate: in the source every
    assignment of [false] to a gate goes with one pushed issue, so a gate passes
    when its list is empty. *)

From S2P Require Import Prelude Regex JsNum JsVal Dates JsonText Hash Sha256 Canonical.
From S2P Require Import Keyed AuditChain ChainModes WebBase64 Redact Event Commit Retention.

#[local] Arguments num_of_Z : simpl never.

(** What the module uses of [crypto.subtle]; a call may reject. *)
Class WebCrypto := {
  CryptoKey : Type;
  exportKeyRaw : CryptoKey → exc (list Z);
  subtle_sign : CryptoKey → list Z → exc (list Z);
  subtle_verify : CryptoKey → list Z → list Z → exc bool;
}.

Record ExportBundleInput := BundleInput {
  input_scope : val;
  input_range : val;
  input_producer : val;
  input_createdAt : val;
  input_chainScope : option ExportBundleChainScope;
  input_filters : val;
  input_events : list val;
  input_edges : list val;
  input_commits : option (list val);
  input_annex : option (list val);
}.

Definition scope_name (scope : ExportBundleChainScope) : string :=
  match scope with Full => "full" | Windowed => "windowed" | Filtered => "filtered" end.

(** [left < right]: code unit order on strings; paths that are not both strings
    count as incomparable. *)
Definition js_less (left right : val) : bool :=
  match left, right with VStr a, VStr b => negb (String.leb b a) | _, _ => false end.

(** The comparator of [sort] on one property: keeps the order unless the second
    is less. *)
Definition by_key (key : string) (left right : val) : bool :=
  negb (js_less (vget_opt right key) (vget_opt left key)).

(** [[...values].sort(compare on key)]; reading the key of a null entry throws,
    when there is something to compare. *)
Definition sort_entries (key : string) (values : list val) : exc (list val) :=
  _ ← (if (length values <=? 1)%nat then Ret [] else mapE (λ v, vget v key) values);
  Ret (sort_by (by_key key) values).

Definition newline : string := String (ascii_of_nat 10) "".

(** [packId] in printable ASCII. *)
Definition PACK_ID_PATTERN : re := plus (Cls (in_range " " "~")).

Definition RECORD_PATHS : list string :=
  ["records/audit-events.jsonl"; "records/evidence-edges.jsonl"; "records/commits.jsonl"].
Definition REQUIRED_PATHS : list string := RECORD_PATHS ++ ["verification.json"].

(** A file of the bundle under construction. *)
Record tracked_file := TrackedFile { path : string; content : string; record_count : val }.

Definition issue_val (issue : chain_issue) : val :=
  match issue with
  | VerifierResult index reason =>
      VObj [("ok", VBool false); ("index", VInt (Z.of_nat index)); ("reason", VStr reason)]
  | VerifierThrew => VObj [("reason", VStr "verifier_threw")]
  | WalkIssue reason => VStr reason
  end.

Definition chain_result_val (result : ChainVerificationResult) : val :=
  VObj (("valid", VBool (valid result)) ::
        opt_field "issues" ((λ l, VArr (issue_val <$> l)) <$> issues result)).

(** [text.split("\n")] *)
Fixpoint split_lines (cs : list ascii) : list string :=
  match cs with
  | [] => [""]
  | c :: cs =>
      let lines := split_lines cs in
      if Ascii.eqb c (ascii_of_nat 10) then "" :: lines
      else match lines with
           | line :: lines => String c line :: lines
           | [] => [String c ""]
           end
  end.

Definition splitRecordLines (payload : string) : list string :=
  if String.eqb payload "" then [] else
  let lines := split_lines (chars payload) in
  match last lines with
  | Some "" => take (length lines - 1) lines
  | _ => lines
  end.

Definition text_of (o : option string) : exc string :=
  match o with Some s => Ret s | None => Throw "not a JSON value" end.

(** [array.length] *)
Definition array_length (v : val) : exc val :=
  match v with
  | VArr xs => Ret (VInt (Z.of_nat (length xs)))
  | VStr s => Ret (VInt (Z.of_nat (String.length s)))
  | _ => vget v "length"
  end.

Record ExportBundleVerificationOptions {K : Type} := BundleOptions {
  publicKey : option K;
  requireBundleSignature : bool;
  retention : option RetentionVerificationOptions;
}.
Arguments ExportBundleVerificationOptions : clear implicits.
Arguments BundleOptions {K}.

Record ExportBundleVerificationReport := BundleReport {
  report_valid : bool;
  structure : bool;
  integrity : bool;
  chains : bool;
  signature : RetentionSignatureStatus;
  chainScope : ExportBundleChainScope;
  report_issues : list string;
}.

Section Bundle.
Context `{Hasher} `{Host} `{WebCrypto}.

(** [sha256Hex] of export-bundle-deps.ts: [TextEncoder] reads [undefined] as "". *)
Definition sha256HexText (text : option string) : string := sha256Hex (default "" text).

Definition computeRootHash (files : list val) : exc string :=
  sorted ← sort_entries "path" files;
  text ← canonicalJson (VArr sorted);
  Ret (sha256HexText text).

Definition serializeRecords (records : list val) : exc string :=
  match records with
  | [] => Ret ""
  | _ =>
      lines ← mapE canonicalJson records;
      Ret (join newline (default "" <$> lines) +:+ newline)
  end.

(** The loop over the sorted packs: printable and distinct ids. *)
Fixpoint check_annex (seen : list val) (packs : list val) : exc (list val) :=
  match packs with
  | [] => Ret seen
  | pack :: packs =>
      packId ← vget pack "packId";
      printable ← regex_test PACK_ID_PATTERN packId;
      if negb printable then Throw "export bundle: annex packId must be printable ASCII" else
      name ← js_String packId;
      if existsb (strict_eq packId) seen then Throw ("export bundle: duplicate annex packId " +:+ String dq (name +:+ String dq "")) else
      check_annex (packId :: seen) packs
  end.

Definition annex_file (pack : val) : exc tracked_file :=
  packId ← vget pack "packId";
  name ← js_String packId;
  text ← canonicalJson pack;
  content ← text_of text;
  entries ← vget pack "entries";
  count ← array_length entries;
  Ret (TrackedFile ("annex/" +:+ name +:+ ".json") content count).

Definition verification_val (events edges commits : list val) (scope : ExportBundleChainScope) : val :=
  VObj ([("audit", chain_result_val (verifyAuditChainScoped events scope));
         ("edges", chain_result_val (verifyEdgeChainScoped edges scope));
         ("commits", chain_result_val (verifyCommitChain commits))]
        ++ (if decide (scope = Full) then [] else [("chainScope", VStr (scope_name scope))])).

Definition trackedFiles (input : ExportBundleInput) (scope : ExportBundleChainScope) (commits : list val)
    (packs : list val) : exc (list tracked_file) :=
  events_text ← serializeRecords (input_events input);
  edges_text ← serializeRecords (input_edges input);
  commits_text ← serializeRecords commits;
  verification ← canonicalJson (verification_val (input_events input) (input_edges input) commits scope);
  verification_text ← text_of verification;
  annex ← mapE annex_file packs;
  let count (l : list val) := VInt (Z.of_nat (length l)) in
  Ret ([TrackedFile "records/audit-events.jsonl" events_text (count (input_events input));
        TrackedFile "records/evidence-edges.jsonl" edges_text (count (input_edges input));
        TrackedFile "records/commits.jsonl" commits_text (count commits);
        TrackedFile "verification.json" verification_text (VInt 0)] ++ annex).

Definition files_val (tracked : list tracked_file) : val :=
  VObj (fold_left (λ acc f, obj_assign (path f) (VStr (content f)) acc) tracked []).

Definition file_entry (f : tracked_file) : val :=
  VObj [("path", VStr (path f)); ("sha256", VStr (sha256Hex (content f))); ("records", record_count f)].

Definition buildExportBundle (input : ExportBundleInput) : exc val :=
  let commits := default [] (input_commits input) in
  let scope := default Full (input_chainScope input) in
  let filters := input_filters input in
  _ ← guard_exc (is_undef filters || bool_decide (scope = Filtered))
        "export bundle: filters require chainScope 'filtered'";
  _ ← guard_exc (negb (bool_decide (scope = Filtered) && is_undef filters))
        "export bundle: chainScope 'filtered' requires a filters declaration";
  _ ← guard_exc (bool_decide (scope = Full) || (length commits =? 0)%nat)
        "export bundle: commits are not supported in a scoped bundle";
  packs ← sort_entries "packId" (default [] (input_annex input));
  _ ← check_annex [] packs;
  tracked ← trackedFiles input scope commits packs;
  rootHash ← computeRootHash (file_entry <$> tracked);
  annex ← mapE (λ pack, packId ← vget pack "packId"; version ← vget pack "version";
                        Ret (VObj [("packId", packId); ("version", version)])) packs;
  let manifest := VObj (
    [("bundleVersion", VStr "vevb-1"); ("createdAt", input_createdAt input); ("scope", input_scope input);
     ("range", input_range input); ("producer", input_producer input); ("files", VArr (file_entry <$> tracked));
     ("rootHash", VStr rootHash)]
    ++ (if decide (scope = Full) then [] else [("chainScope", VStr (scope_name scope))])
    ++ (if is_undef filters then [] else [("filters", filters)])
    ++ opt_field "annex" ((λ _, VArr annex) <$> input_annex input)) in
  Ret (VObj [("bundleVersion", VStr "vevb-1"); ("manifest", manifest); ("files", files_val tracked)]).

(** ** Signing *)

Definition publicKeyFingerprint (key : CryptoKey) : exc string :=
  raw ← exportKeyRaw key; Ret (sha256Bytes raw).

Definition bytesToBase64 (bytes : list Z) : string := of_chars (b64_encode bytes).

Definition base64ToBytes (base64 : val) : exc (list Z) :=
  text ← js_String base64;
  match b64_decode (chars text) with
  | Some bytes => Ret bytes
  | None => Throw "InvalidCharacterError"
  end.

Definition signedManifestPayload (manifest : val) : exc (list Z) :=
  text ← canonicalJson manifest; Ret (utf8 (sha256HexText text)).

(** [{ ...value, [key]: v }] of an object value. *)
Definition spread_with (value : val) (fs : list (string * val)) : val :=
  VObj (fold_left (λ acc kv, obj_define kv.1 kv.2 acc) fs (match value with VObj gs => gs | _ => [] end)).

Definition signExportBundle (bundle : val) (privateKey key : CryptoKey) : exc val :=
  fingerprint ← publicKeyFingerprint key;
  bundle_manifest ← vget bundle "manifest";
  let manifest := spread_with bundle_manifest [("signaturePublicKeyFingerprint", VStr fingerprint)] in
  payload ← signedManifestPayload manifest;
  signatureBytes ← subtle_sign privateKey payload;
  Ret (spread_with bundle
    [("manifest", manifest);
     ("signature", VObj [("algorithm", VStr "ed25519"); ("publicKeyFingerprint", VStr fingerprint);
                         ("signature", VStr (bytesToBase64 signatureBytes))])]).

(** ** The single-file container *)

Definition serializeExportBundle (bundle : val) : exc (option string) := canonicalJson bundle.

Definition is_object (v : val) : bool := match v with VObj _ | VArr _ | VDate _ => true | _ => false end.

(** [isV2] is the recognizer of vevb-2 containers (export-bundle-v2.ts). *)
Definition parseExportBundle (isV2 : val → exc bool) (text : string) : exc val :=
  match json_parse text with
  | None => Throw "export bundle: invalid JSON container"
  | Some parsed =>
      if negb (is_object parsed) then Throw "export bundle: invalid JSON container" else
      let version := vget_opt parsed "bundleVersion" in
      if negb (strict_eq version (VStr "vevb-1")) && negb (strict_eq version (VStr "vevb-2")) then
        Throw ("export bundle: unsupported bundleVersion " +:+ default "undefined" (json_stringify version)) else
      closed ← (if strict_eq version (VStr "vevb-2") then isV2 parsed else Ret true);
      if negb (closed : bool) then Throw "export bundle: invalid vevb-2 container" else
      if negb (is_object (vget_opt parsed "manifest")) || negb (is_object (vget_opt parsed "files")) then
        Throw "export bundle: missing manifest or files" else
      Ret parsed
  end.

(** ** Verification *)

Definition invalid_signature (issue : string) : RetentionSignatureStatus * option string :=
  (SigInvalid, Some issue).

Definition verifyBundleSignature (bundle : val) (key : CryptoKey) : RetentionSignatureStatus * option string :=
  let sig := vget_opt bundle "signature" in
  let manifest := vget_opt bundle "manifest" in
  if negb (strict_eq (vget_opt sig "algorithm") (VStr "ed25519")) then
    invalid_signature "unsupported signature algorithm" else
  catch (
    fingerprint ← publicKeyFingerprint key;
    if negb (strict_eq (VStr fingerprint) (vget_opt sig "publicKeyFingerprint"))
       || negb (strict_eq (VStr fingerprint) (vget_opt manifest "signaturePublicKeyFingerprint")) then
      Ret (invalid_signature "signature public key fingerprint mismatch") else
    signatureBytes ← base64ToBytes (vget_opt sig "signature");
    payload ← signedManifestPayload manifest;
    ok ← subtle_verify key signatureBytes payload;
    Ret (if ok : bool then (SigValid, None) else invalid_signature "signature does not verify"))
    (invalid_signature "signature verification failed").

(** The signature verdict, whether it satisfies the options, and its issues. *)
Definition signature_gate (bundle : val) (opts : ExportBundleVerificationOptions CryptoKey)
    : RetentionSignatureStatus * bool * list string :=
  if is_plain_object (vget_opt bundle "signature") then
    match publicKey opts with
    | Some key =>
        let '(verdict, issue) := verifyBundleSignature bundle key in
        (verdict, bool_decide (verdict = SigValid), option_list issue)
    | None => (SigSkipped, true, [])
    end
  else if requireBundleSignature opts then (SigAbsent, false, ["signature required but absent"])
  else (SigAbsent, true, []).

Definition is_array (v : val) : bool := match v with VArr _ => true | _ => false end.

Definition issue_if (b : bool) (issue : string) : list string := if b then [issue] else [].

Definition shape_issues (manifest files : val) : list string :=
  issue_if (negb (is_plain_object manifest)) "manifest is not an object"
  ++ issue_if (negb (is_plain_object files)) "files is not an object"
  ++ issue_if (is_plain_object manifest && negb (is_array (vget_opt manifest "files")))
       "manifest.files is not an array".

Definition declared_scope (manifest : val) : ExportBundleChainScope * list string :=
  match vget_opt manifest "chainScope" with
  | VUndef => (Full, [])
  | declared =>
      if strict_eq declared (VStr "windowed") then (Windowed, [])
      else if strict_eq declared (VStr "filtered") then (Filtered, [])
      else (Full, ["manifest.chainScope is not a known scope"])
  end.

Definition filters_issues (manifest : val) (scope : ExportBundleChainScope) : list string :=
  issue_if (is_plain_object manifest && negb (is_undef (vget_opt manifest "filters"))
            && negb (bool_decide (scope = Filtered)))
    "manifest.filters requires chainScope 'filtered'".

(** The paths of the well-formed entries, in order, and the issues. *)
Fixpoint manifest_paths (seen : list string) (entries : list val) : list string * list string :=
  match entries with
  | [] => (seen, [])
  | entry :: entries =>
      match (if is_plain_object entry then str_of (vget_opt entry "path") else None) with
      | None =>
          let '(paths, found) := manifest_paths seen entries in
          (paths, "manifest.files entry is malformed" :: found)
      | Some p =>
          let '(paths, found) := manifest_paths (seen ++ [p]) entries in
          (paths, issue_if (bool_decide (p ∈ seen)) ("duplicate manifest path " +:+ p) ++ found)
      end
  end.

Definition path_issues (entries : list val) (files : val) : list string :=
  let '(paths, found) := manifest_paths [] entries in
  found
  ++ omap (λ p, if bool_decide (p ∈ own_keys files) then None
                else Some ("missing file payload for " +:+ p)) paths
  ++ omap (λ k, if bool_decide (k ∈ paths) then None
                else Some ("file key " +:+ k +:+ " not listed in manifest")) (own_keys files)
  ++ omap (λ r, if bool_decide (r ∈ paths) then None
                else Some ("required path missing: " +:+ r)) REQUIRED_PATHS.

Definition root_issues (entries : list val) (rootHash : val) : list string :=
  match computeRootHash entries with
  | Ret root => issue_if (negb (strict_eq (VStr root) rootHash)) "rootHash does not bind the manifest files"
  | Throw _ => ["rootHash could not be computed"]
  end.

Definition entry_issues (files entry : val) : list string :=
  match (if is_plain_object entry then str_of (vget_opt entry "path") else None) with
  | None => []
  | Some p =>
      match vget_opt files p with
      | VStr payload =>
          issue_if (negb (strict_eq (VStr (sha256Hex payload)) (vget_opt entry "sha256")))
            ("sha256 mismatch for " +:+ p)
          ++ issue_if (bool_decide (p ∈ RECORD_PATHS)
                       && negb (strict_eq (vget_opt entry "records")
                                  (VInt (Z.of_nat (length (splitRecordLines payload))))))
               ("record count mismatch for " +:+ p)
      | _ => ["missing payload for " +:+ p]
      end
  end.

Definition integrity_issues (entries : list val) (manifest files : val) : list string :=
  root_issues entries (vget_opt manifest "rootHash") ++ concat (entry_issues files <$> entries).

(** The records of one file, [None] when a line does not parse. *)
Definition parse_records (files : val) (p : string) : option (list val) :=
  match vget_opt files p with
  | VStr payload => mapM json_parse (splitRecordLines payload)
  | _ => None
  end.

Definition embedded_report (files : val) : val :=
  match vget_opt files "verification.json" with
  | VStr payload => default VUndef (json_parse payload)
  | _ => VUndef
  end.

Definition verdict_issues (events edges commits : list val) (scope : ExportBundleChainScope) (embedded : val)
    : list string :=
  let audit := valid (verifyAuditChainScoped events scope) in
  let edge := valid (verifyEdgeChainScoped edges scope) in
  let commit := valid (verifyCommitChain commits) in
  let part k := vget_opt embedded k in
  issue_if (negb (bool_decide (scope = Full)) && negb (length commits =? 0)%nat)
    "commits are not supported in a scoped bundle"
  ++ (if negb (is_plain_object embedded && is_plain_object (part "audit") && is_plain_object (part "edges")
               && is_plain_object (part "commits"))
      then ["embedded verification report unreadable"]
      else issue_if (negb (strict_eq (VBool audit) (vget_opt (part "audit") "valid"))
                     || negb (strict_eq (VBool edge) (vget_opt (part "edges") "valid"))
                     || negb (strict_eq (VBool commit) (vget_opt (part "commits") "valid")))
             "embedded verification report disagrees")
  ++ issue_if (negb (audit && edge && commit)) "record chain verification failed".

Definition chain_issues (files : val) (scope : ExportBundleChainScope) : list string :=
  let parsed := parse_records files <$> RECORD_PATHS in
  let unparsed := omap (λ p, match parse_records files p with
                             | Some _ => None
                             | None => Some ("unparseable record line in " +:+ p) end) RECORD_PATHS in
  match parsed with
  | [Some events; Some edges; Some commits] =>
      verdict_issues events edges commits scope (embedded_report files)
  | _ => unparsed
  end.

Definition passes (gate : list string) : bool := match gate with [] => true | _ => false end.

Definition verifyExportBundleV1 (bundle : val) (opts : ExportBundleVerificationOptions CryptoKey)
    : exc ExportBundleVerificationReport :=
  if negb (is_plain_object bundle) then Throw "verifyExportBundle: expected an ExportBundle object" else
  let manifest := vget_opt bundle "manifest" in
  let files := vget_opt bundle "files" in
  let '(verdict, signatureSatisfied, signature_issues) := signature_gate bundle opts in
  let '(scope, scope_issues) := declared_scope manifest in
  let shape := shape_issues manifest files ++ scope_issues ++ filters_issues manifest scope in
  match is_plain_object files, is_plain_object manifest, vget_opt manifest "files" with
  | true, true, VArr entries =>
      let structure_issues := shape ++ path_issues entries files in
      let integrity_found := integrity_issues entries manifest files in
      let chains_found := chain_issues files scope in
      Ret (BundleReport
             (passes structure_issues && passes integrity_found && passes chains_found && signatureSatisfied)
             (passes structure_issues) (passes integrity_found) (passes chains_found) verdict scope
             (signature_issues ++ structure_issues ++ integrity_found ++ chains_found))
  | _, _, _ => Ret (BundleReport false false false false verdict scope (signature_issues ++ shape))
  end.

(** The dispatch on the container version; [verifyV2] is verifyExportBundleV2. *)
Definition verifyExportBundle {R} (verifyV2 : val → ExportBundleVerificationOptions CryptoKey → exc R)
    (bundle : val) (opts : ExportBundleVerificationOptions CryptoKey)
    : exc (ExportBundleVerificationReport + R) :=
  if negb (is_plain_object bundle) then Throw "verifyExportBundle: expected an ExportBundle object" else
  let version := vget_opt bundle "bundleVersion" in
  if strict_eq version (VStr "vevb-2") then inr <$> verifyV2 bundle opts else
  if strict_eq version (VStr "vevb-1") then inl <$> verifyExportBundleV1 bundle opts else
  Throw ("verifyExportBundle: unsupported bundleVersion " +:+ default "undefined" (json_stringify version)).
End Bundle.
