(* ===== verification/BundleVerify.v ===== *)
(** * What export bundles guarantee

    Theorems on ExportBundle: a record file reads back as the data that was
    written, a built bundle verifies, an accepted one is what it claims, and the
    root hash and the signature bind its content. *)

From S2P Require Import Prelude Regex JsNum JsVal Dates JsonText Hash Sha256 Canonical.
From S2P Require Import Keyed AuditChain ChainModes WebBase64 Redact Event Commit SameData Retention.
From S2P Require Import ExportBundle.

#[local] Arguments num_of_Z : simpl never.

(** ** JSON text has no control characters *)

Definition visible (c : ascii) : Prop := (32 ≤ code c)%Z.

Lemma digit_visible c : digit c = true → visible c.
Proof. unfold digit, in_range, visible. intros Hd. bool_prop. change (code "0") with 48%Z in *. lia. Qed.

Lemma digits_visible n : (0 ≤ n)%Z → Forall visible (digits n).
Proof.
  intros Hn. destruct (digits_spec n Hn) as (_ & Hd & _). eapply Forall_impl; [exact Hd|]. apply digit_visible.
Qed.

Ltac visible_chars :=
  repeat first [apply Forall_nil_2 | apply Forall_cons_2; [unfold visible; vm_compute; congruence|]].

Lemma pos_num_visible m e : (0 < m)%Z → Forall visible (pos_num_to_chars m e).
Proof.
  intros Hm. pose proof (digits_visible m ltac:(lia)) as Hd.
  assert (∀ n, Forall visible (zeros n)) as Hz.
  { intros n. eapply Forall_impl; [apply zeros_digits|]. apply digit_visible. }
  assert (∀ x, Forall visible (exp_chars x)) as Hx.
  { intros x. unfold exp_chars. constructor; [|apply digits_visible; lia].
    destruct (x <? 0)%Z; unfold visible; vm_compute; congruence. }
  unfold pos_num_to_chars. cbn zeta.
  destruct (_ && _); [by apply Forall_app|]. destruct (_ && _).
  { apply Forall_app. split; [by apply Forall_take|]. constructor; [unfold visible; vm_compute; congruence|].
    by apply Forall_drop. }
  destruct (_ && _); [visible_chars; by apply Forall_app|].
  destruct (digits m) as [|c [|c' s]]; [constructor| |]; rewrite ?Forall_cons in Hd.
  - constructor; [tauto|]. by visible_chars.
  - constructor; [tauto|]. visible_chars. constructor; [tauto|]. apply Forall_app. split; [tauto|]. by visible_chars.
Qed.

Lemma num_visible n : Forall visible (num_to_chars n).
Proof.
  destruct n as [|b|m e]; [cbn; visible_chars|cbn; visible_chars|]. unfold num_to_chars.
  destruct (Z.eqb_spec m 0); [visible_chars|]. destruct (Z.ltb_spec m 0); [visible_chars|]; apply pos_num_visible; lia.
Qed.

Lemma escape_visible c : Forall visible (escape_char c).
Proof. destruct c as [[] [] [] [] [] [] [] []]; vm_compute escape_char; visible_chars. Qed.

Lemma quote_visible s : Forall visible (quote s).
Proof.
  unfold quote. visible_chars. apply Forall_app. split; [|visible_chars].
  induction (chars s) as [|c cs IH]; [constructor|]. cbn. apply Forall_app. split; [apply escape_visible|done].
Qed.

Lemma commas_visible ls : Forall (Forall visible) ls → Forall visible (commas ls).
Proof.
  induction 1 as [|l ls Hl Hls IH]; [constructor|]. rewrite commas_cons. apply Forall_app. split; [done|].
  destruct ls; [constructor|]. by visible_chars.
Qed.

Lemma jtext_visible v : is_json v = true → Forall visible (jtext v).
Proof.
  induction v as [| |[]|n|s|xs IH|fs IH|t|o] using val_rect_nested; intros Hj; try done.
  - cbn. visible_chars.
  - cbn. visible_chars.
  - cbn. visible_chars.
  - apply num_visible.
  - apply quote_visible.
  - rewrite jtext_arr by done. visible_chars. apply Forall_app. split; [|visible_chars].
    apply commas_visible, Forall_fmap. apply is_json_arr in Hj. rewrite Forall_forall in *. intros x Hx. by apply IH, Hj.
  - rewrite jtext_obj by done. visible_chars. apply Forall_app. split; [|visible_chars].
    apply commas_visible, Forall_fmap. apply is_json_obj in Hj as [_ Hj]. rewrite Forall_forall in *. intros [k x] Hx.
    unfold compose, ftext. apply Forall_app. split; [apply quote_visible|]. visible_chars.
    by apply (IH (k, x) Hx), (Hj (k, x) Hx).
Qed.

(** ** Record files *)

Definition nl : ascii := ascii_of_nat 10.

Lemma split_lines_line l rest :
  Forall visible l → split_lines (l ++ nl :: rest) = of_chars l :: split_lines rest.
Proof.
  induction 1 as [|c l Hc _ IH]; [done|]. cbn [app split_lines]. rewrite IH.
  destruct (Ascii.eqb_spec c (ascii_of_nat 10)) as [->|]; [|done]. by vm_compute in Hc.
Qed.

Lemma split_lines_text lines :
  Forall (λ l, Forall visible (chars l)) lines →
  split_lines (concat ((λ l, chars l ++ [nl]) <$> lines)) = lines ++ [""].
Proof.
  induction 1 as [|l lines Hl _ IH]; [done|]. rewrite fmap_cons. cbn [concat].
  rewrite <- app_assoc. cbn [app]. by rewrite split_lines_line, IH, of_chars_chars.
Qed.

Lemma chars_join lines :
  lines ≠ [] → chars (join newline lines +:+ newline) = concat ((λ l, chars l ++ [nl]) <$> lines).
Proof.
  intros Hne. induction lines as [|l [|l' lines] IH]; [done| |].
  - cbn [join fmap list_fmap concat]. rewrite chars_app, app_nil_r. done.
  - change (join newline (l :: l' :: lines)) with (l +:+ newline +:+ join newline (l' :: lines)).
    rewrite <- !string_app_assoc, !chars_app, fmap_cons. cbn [concat]. rewrite <- IH by done.
    rewrite chars_app, <- app_assoc. done.
Qed.

Lemma splitRecordLines_join lines :
  lines ≠ [] → Forall (λ l, Forall visible (chars l)) lines →
  splitRecordLines (join newline lines +:+ newline) = lines.
Proof.
  intros Hne Hl. unfold splitRecordLines. rewrite chars_join by done.
  rewrite split_lines_text by done. rewrite last_snoc, length_app. cbn [length].
  replace (length lines + 1 - 1)%nat with (length lines) by lia. rewrite take_app_length.
  destruct (String.eqb_spec (join newline lines +:+ newline) "") as [E|]; [|done].
  apply (f_equal chars) in E. rewrite chars_join in E by done. by destruct lines as [|[|c s] lines].
Qed.

(** The text a canonical value is written as. *)
Definition text_line (w : val) : string := of_chars (jtext w).

Lemma canonical_text_line w : canonical w → canonicalJson w = Ret (Some (text_line w)) ∧ json_parse (text_line w) = Some w.
Proof.
  intros Hc. assert (json_stringify w = Some (text_line w)) as E by by apply json_stringify_json, canonical_json.
  split; [|by apply parse_stringify, E; apply canonical_json].
  unfold canonicalJson. rewrite canonical_fixed by done. cbn [mbind exc_mbind]. by rewrite E.
Qed.

(** A record file has a line for the canonical form of every record. *)
Lemma serializeRecords_lines rs text :
  Forall (λ r, is_json r = true) rs → serializeRecords rs = Ret text →
  ∃ ws, Forall2 (λ r w, normalizeForJson r = Ret w ∧ canonical w) rs ws ∧
    splitRecordLines text = text_line <$> ws ∧
    chars text = concat ((λ l, chars l ++ [nl]) <$> (text_line <$> ws)).
Proof.
  intros Hj E. unfold serializeRecords in E. destruct rs as [|r0 rs0].
  { injection E as <-. exists []. by split_and!. }
  set (rs := r0 :: rs0) in *. apply bind_ret in E as (texts & Ht & [= <-]).
  pose proof (mapE_length _ _ _ Ht) as Hlen. apply mapE_Forall2 in Ht.
  assert (∃ ws, Forall2 (λ r w, normalizeForJson r = Ret w ∧ canonical w) rs ws ∧ texts = Some ∘ text_line <$> ws)
    as (ws & Hw & ->).
  { clear -Hj Ht. induction Ht as [|r o rs texts Hro _ IH]; [by exists []|]. inversion Hj; subst.
    destruct IH as (ws & Hw & ->); [done|]. destruct (normalize_json_total r) as (w & Hn & Hc); [done|].
    exists (w :: ws). split; [by constructor|]. cbn. f_equal. unfold canonicalJson in Hro. rewrite Hn in Hro.
    cbn [mbind exc_mbind] in Hro. rewrite json_stringify_json in Hro by by apply canonical_json.
    by injection Hro as <-. }
  exists ws. split; [done|]. rewrite <- list_fmap_compose. change (default "" ∘ (Some ∘ text_line)) with text_line.
  assert ((text_line <$> ws) ≠ []) as Hne by (destruct ws; [by inversion Hw|done]).
  split; [|by apply chars_join]. apply splitRecordLines_join; [done|].
  clear -Hw. induction Hw as [|r w rs ws [_ Hc] _ IH]; constructor; [|done].
  unfold text_line. rewrite chars_of_chars. by apply jtext_visible, canonical_json.
Qed.

(** What is written of JSON data reads back as its canonical form. *)
Lemma serializeRecords_parse rs text :
  Forall (λ r, is_json r = true) rs → serializeRecords rs = Ret text →
  length (splitRecordLines text) = length rs ∧
  ∃ ws, mapM json_parse (splitRecordLines text) = Some ws ∧
        Forall2 (λ r w, normalizeForJson r = Ret w ∧ canonical w) rs ws.
Proof.
  intros Hj E. destruct (serializeRecords_lines _ _ Hj E) as (ws & Hw & -> & _).
  rewrite length_fmap, (Forall2_length _ _ _ Hw). split; [done|]. exists ws. split; [|done].
  apply mapM_Some. clear -Hw. induction Hw as [|r w rs ws [_ Hc] _ IH]; cbn; constructor; [|done].
  by apply canonical_text_line.
Qed.

(** ** Built bundles *)

Lemma no_proto_obj fs :
  no_proto (VObj fs) = true ↔ Forall (λ kv, kv.1 ≠ "__proto__" ∧ no_proto kv.2 = true) fs.
Proof.
  cbn. rewrite forallb_forall, Forall_forall. setoid_rewrite <- list_elem_of_In.
  split; intros Hf x Hx; specialize (Hf x Hx); cbn in *; rewrite andb_true_iff, negb_true_iff, String.eqb_neq in *; done.
Qed.

Lemma assign_new k v fs : k ≠ "__proto__" → k ∉ keys fs → obj_assign k v fs = obj_add k v fs.
Proof.
  intros Hp Hk. unfold obj_assign. rewrite (proj2 (String.eqb_neq _ _) Hp). cbn [andb]. by apply obj_define_new.
Qed.

Lemma fold_files tracked acc :
  NoDup (keys acc ++ (path <$> tracked)) → Forall (λ f, path f ≠ "__proto__") tracked →
  let fs := fold_left (λ acc f, obj_assign (path f) (VStr (content f)) acc) tracked acc in
  keys fs ≡ₚ keys acc ++ (path <$> tracked) ∧
  (∀ k, (k ∉ (path <$> tracked)) → obj_get k fs = obj_get k acc) ∧
  ∀ f, f ∈ tracked → obj_get (path f) fs = Some (VStr (content f)).
Proof.
  revert acc. induction tracked as [|f tracked IH]; intros acc Hnd Hp; cbn zeta.
  { cbn. rewrite app_nil_r. split; [done|]. split; [done|]. by intros f Hf%elem_of_nil. }
  inversion Hp as [|? ? Hpf Hp']; subst. cbn [fold_left fmap list_fmap] in *.
  assert ((path f ∉ keys acc) ∧ (path f ∉ (path <$> tracked))) as [Hnew Hnot].
  { apply NoDup_app in Hnd as (_ & Hdis & Hnd). apply NoDup_cons in Hnd as [Hn _]. split; [|done].
    intros Hin. apply (Hdis _ Hin). by left. }
  rewrite (assign_new _ _ _ Hpf Hnew).
  assert (keys (obj_add (path f) (VStr (content f)) acc) ≡ₚ path f :: keys acc) as Hk.
  { unfold keys. by rewrite obj_add_perm. }
  destruct (IH (obj_add (path f) (VStr (content f)) acc)) as (IH1 & IH2 & IH3); [|done|].
  { rewrite Hk. cbn. by rewrite Permutation_middle. }
  split; [|split].
  - rewrite IH1, Hk. cbn. by rewrite Permutation_middle.
  - intros k Hkn. rewrite not_elem_of_cons in Hkn. rewrite IH2 by tauto. rewrite obj_get_add by done.
    rewrite (proj2 (String.eqb_neq _ _)); [done|]. by intros E; apply (proj1 Hkn).
  - intros g [->|Hg]%elem_of_cons; [|by apply IH3]. rewrite IH2 by done.
    rewrite obj_get_add by done. by rewrite String.eqb_refl.
Qed.

Lemma files_val_spec tracked :
  NoDup (path <$> tracked) → Forall (λ f, path f ≠ "__proto__") tracked →
  is_plain_object (files_val tracked) = true ∧ own_keys (files_val tracked) ≡ₚ path <$> tracked ∧
  ∀ f, f ∈ tracked → vget_opt (files_val tracked) (path f) = VStr (content f).
Proof.
  intros Hnd Hp. destruct (fold_files tracked [] Hnd Hp) as (Hk & _ & Hg). split_and!; [done|exact Hk|].
  intros f Hf. unfold files_val. cbn [vget_opt]. by rewrite (Hg f Hf).
Qed.

Section Verify.
Context `{Hasher} `{Host} `{WebCrypto}.

Lemma manifest_paths_entries tracked seen :
  NoDup (seen ++ (path <$> tracked)) →
  manifest_paths seen (file_entry <$> tracked) = (seen ++ (path <$> tracked), []).
Proof.
  revert seen. induction tracked as [|f tracked IH]; intros seen Hnd.
  { cbn. by rewrite app_nil_r. }
  rewrite !fmap_cons in *. cbn [manifest_paths]. change (is_plain_object (file_entry f)) with true.
  change (str_of (vget_opt (file_entry f) "path")) with (Some (path f)).
  assert (path f ∉ seen) as Hs.
  { apply NoDup_app in Hnd as (_ & Hdis & _). intros Hin. apply (Hdis _ Hin). by left. }
  cbn iota. rewrite (IH (seen ++ [path f])) by by rewrite <- app_assoc.
  rewrite <- app_assoc. by rewrite bool_decide_eq_false_2.
Qed.

Lemma path_issues_none tracked :
  NoDup (path <$> tracked) → Forall (λ f, path f ≠ "__proto__") tracked →
  (∀ p, p ∈ REQUIRED_PATHS → p ∈ path <$> tracked) →
  path_issues (file_entry <$> tracked) (files_val tracked) = [].
Proof.
  intros Hnd Hp Hreq. destruct (files_val_spec tracked Hnd Hp) as (_ & Hk & _).
  unfold path_issues. rewrite (manifest_paths_entries tracked []) by done. cbn [app].
  assert (∀ (l l' : list string) (g : string → string), (∀ x, x ∈ l → x ∈ l') →
    omap (λ x, if bool_decide (x ∈ l') then None else Some (g x)) l = []) as Ho.
  { intros l l' g Hl. induction l as [|x l IH]; [done|]. cbn. rewrite bool_decide_eq_true_2 by (apply Hl; by left).
    apply IH. intros y Hy. apply Hl. by right. }
  rewrite !Ho; [done|done| |]; intros x Hx; by rewrite Hk in *.
Qed.

Lemma entry_issues_none tracked f :
  NoDup (path <$> tracked) → Forall (λ f, path f ≠ "__proto__") tracked → f ∈ tracked →
  (path f ∈ RECORD_PATHS → record_count f = VInt (Z.of_nat (length (splitRecordLines (content f))))) →
  entry_issues (files_val tracked) (file_entry f) = [].
Proof.
  intros Hnd Hp Hf Hc. destruct (files_val_spec tracked Hnd Hp) as (_ & _ & Hg).
  unfold entry_issues. change (is_plain_object (file_entry f)) with true.
  change (str_of (vget_opt (file_entry f) "path")) with (Some (path f)). cbn iota. rewrite (Hg f Hf).
  change (vget_opt (file_entry f) "sha256") with (VStr (sha256Hex (content f))).
  change (vget_opt (file_entry f) "records") with (record_count f).
  rewrite strict_eq_str_refl. cbn [negb issue_if app]. case_bool_decide as Hr; [|done].
  rewrite Hc by done. by rewrite strict_eq_int_refl.
Qed.

(** *** The embedded report *)

Lemma issue_val_json issue : plain_json (issue_val issue).
Proof. destruct issue; split; cbn; by rewrite ?is_json_int. Qed.

Lemma chain_result_json r : plain_json (chain_result_val r).
Proof.
  assert (∀ l, plain_json (VArr (issue_val <$> l))) as Hl.
  { intros l. split.
    - apply is_json_arr, Forall_fmap, Forall_forall. intros x _. apply issue_val_json.
    - cbn. apply forallb_forall. intros x Hx%list_elem_of_In. apply list_elem_of_fmap in Hx as (y & -> & _).
      apply issue_val_json. }
  destruct r as [v [l|]]; cbn [chain_result_val valid issues]; [|by split].
  destruct (Hl l) as [J P]. split.
  - apply is_json_obj. split; [reflexivity|]. repeat apply Forall_cons_2; [done|done|constructor].
  - cbn. cbn in P. by rewrite P.
Qed.

Lemma verification_json events edges commits scope : plain_json (verification_val events edges commits scope).
Proof.
  unfold verification_val. set (a := verifyAuditChainScoped events scope). set (e := verifyEdgeChainScoped edges scope).
  set (c := verifyCommitChain commits).
  destruct (chain_result_json a) as [Ja Pa], (chain_result_json e) as [Je Pe], (chain_result_json c) as [Jc Pc].
  split.
  - apply is_json_obj. split; [by destruct scope|]. cbn [app].
    do 3 (apply Forall_cons_2; [done|]). destruct (decide _); repeat constructor.
  - apply no_proto_obj. cbn [app]. do 3 (apply Forall_cons_2; [done|]).
    destruct (decide _); [constructor|]. by repeat constructor.
Qed.

(** The flag a reader of the embedded report finds. *)
Lemma embedded_flag events edges commits scope w k r :
  same_data (verification_val events edges commits scope) w →
  vget_opt (verification_val events edges commits scope) k = chain_result_val r →
  is_plain_object (vget_opt w k) = true ∧ vget_opt (vget_opt w k) "valid" = VBool (valid r).
Proof.
  intros Hs Hk. pose proof (vget_opt_same _ _ k Hs) as Hp. rewrite Hk in Hp.
  rewrite <- (is_plain_object_same _ _ Hp). split; [done|].
  pose proof (vget_opt_same _ _ "valid" Hp) as Hv. cbn in Hv. by inversion Hv.
Qed.

Definition all_valid (events edges commits : list val) (scope : ExportBundleChainScope) : bool :=
  valid (verifyAuditChainScoped events scope) && valid (verifyEdgeChainScoped edges scope)
  && valid (verifyCommitChain commits).

Lemma verdict_issues_built events edges commits scope w :
  same_data (verification_val events edges commits scope) w →
  (scope = Full ∨ commits = []) →
  verdict_issues events edges commits scope w =
  issue_if (negb (all_valid events edges commits scope)) "record chain verification failed".
Proof.
  intros Hs Hc. unfold verdict_issues.
  destruct (embedded_flag _ _ _ _ w "audit" (verifyAuditChainScoped events scope) Hs) as [A1 A2]; [done|].
  destruct (embedded_flag _ _ _ _ w "edges" (verifyEdgeChainScoped edges scope) Hs) as [B1 B2]; [done|].
  destruct (embedded_flag _ _ _ _ w "commits" (verifyCommitChain commits) Hs) as [C1 C2]; [done|].
  assert (is_plain_object w = true) as Hw by by rewrite <- (is_plain_object_same _ _ Hs).
  rewrite Hw, A1, B1, C1, A2, B2, C2. cbn [andb negb].
  assert (∀ b, strict_eq (VBool b) (VBool b) = true) as Hb by (intros []; done). rewrite !Hb. cbn [negb orb issue_if app].
  assert (negb (bool_decide (scope = Full)) && negb (length commits =? 0)%nat = false) as ->.
  { destruct Hc as [-> | ->]; [done|]. cbn. by rewrite andb_false_r. }
  done.
Qed.

(** *** The tracked files *)

Record plain_input (input : ExportBundleInput) : Prop := {
  plain_events : Forall plain_json (input_events input) ∧ Forall (typed_record Audit) (input_events input);
  plain_edges : Forall plain_json (input_edges input) ∧ Forall (typed_record Edge) (input_edges input);
  plain_commits : Forall plain_json (default [] (input_commits input));
  plain_annex : Forall (λ pack, ∃ id, vget_opt pack "packId" = VStr id) (default [] (input_annex input));
}.

Definition pack_path (pack : val) : string := "annex/" +:+ default "" (str_of (vget_opt pack "packId")) +:+ ".json".

Lemma check_annex_ids packs seen out :
  Forall (λ pack, ∃ id, vget_opt pack "packId" = VStr id) packs → check_annex seen packs = Ret out →
  NoDup (pack_path <$> packs) ∧ Forall (λ p, existsb (strict_eq (vget_opt p "packId")) seen = false) packs.
Proof.
  intros Hp. revert seen. induction Hp as [|pack packs (id & Hid) Hp IH]; intros seen E; [by repeat constructor|].
  cbn [check_annex] in E. apply bind_ret in E as (v & Hv & E). apply vget_obj_opt in Hv.
  apply bind_ret in E as (b & _ & E). destruct (negb b); [done|]. apply bind_ret in E as (nm & _ & E).
  destruct (existsb (strict_eq v) seen) eqn:Ex; [done|]. destruct (IH _ E) as [Hnd Hs].
  rewrite Hid in Hv. subst v. split.
  - cbn. constructor; [|done]. intros (pack' & Epath & Hin)%list_elem_of_fmap.
    rewrite Forall_forall in Hs. specialize (Hs _ Hin). cbn in Hs. apply orb_false_iff in Hs as [Hs _].
    rewrite Forall_forall in Hp. destruct (Hp _ Hin) as [id' Hid']. rewrite Hid' in Hs.
    unfold pack_path in Epath. rewrite Hid, Hid' in Epath. cbn in Epath.
    apply string_app_inj_l in Epath. apply (f_equal chars) in Epath. rewrite !chars_app in Epath.
    apply app_inv_tail in Epath. apply (f_equal of_chars) in Epath. rewrite !of_chars_chars in Epath.
    subst id'. by rewrite strict_eq_str_refl in Hs.
  - constructor; [by rewrite Hid|]. eapply Forall_impl; [exact Hs|]. intros p Hpe. cbn in Hpe.
    by apply orb_false_iff in Hpe as [_ Hpe].
Qed.

Lemma annex_file_path pack f id :
  vget_opt pack "packId" = VStr id → annex_file pack = Ret f → path f = pack_path pack.
Proof.
  intros Hid E. unfold annex_file in E. apply bind_ret in E as (v & Hv & E). apply vget_obj_opt in Hv.
  rewrite Hid in Hv. subst v. cbn [js_String mbind exc_mbind] in E.
  apply bind_ret in E as (o & _ & E). apply bind_ret in E as (c & _ & E). apply bind_ret in E as (l & _ & E).
  apply bind_ret in E as (n & _ & [= <-]). unfold pack_path. by rewrite Hid.
Qed.

Lemma annex_paths packs annex :
  Forall (λ pack, ∃ id, vget_opt pack "packId" = VStr id) packs → mapE annex_file packs = Ret annex →
  path <$> annex = pack_path <$> packs.
Proof.
  intros Hp E. apply mapE_Forall2 in E. revert Hp. induction E as [|pack f packs annex Hf _ IH]; intros Hp; [done|].
  inversion Hp as [|? ? [id Hid] Hp']; subst. cbn. f_equal; [by eapply annex_file_path|by apply IH].
Qed.

Lemma annex_path_other p pack : p ∈ REQUIRED_PATHS → p ≠ pack_path pack.
Proof.
  intros Hp E. subst p. unfold REQUIRED_PATHS, RECORD_PATHS in Hp. cbn [app] in Hp.
  rewrite !elem_of_cons in Hp. unfold pack_path in Hp. destruct Hp as [E|[E|[E|[E|E]]]]; try discriminate.
  by apply elem_of_nil in E.
Qed.

Lemma tracked_paths input scope commits packs tracked :
  trackedFiles input scope commits packs = Ret tracked →
  Forall (λ pack, ∃ id, vget_opt pack "packId" = VStr id) packs → NoDup (pack_path <$> packs) →
  path <$> tracked = REQUIRED_PATHS ++ (pack_path <$> packs) ∧
  NoDup (path <$> tracked) ∧ Forall (λ f, path f ≠ "__proto__") tracked.
Proof.
  intros E Hp Hnd. unfold trackedFiles in E.
  do 3 (apply bind_ret in E as (? & _ & E)). apply bind_ret in E as (? & _ & E). apply bind_ret in E as (? & _ & E).
  apply bind_ret in E as (annex & Ha & E). apply Ret_inj in E.
  assert ((path <$> tracked) = REQUIRED_PATHS ++ (pack_path <$> packs)) as Epaths.
  { rewrite <- E, <- (annex_paths _ _ Hp Ha). reflexivity. }
  rewrite Epaths. split; [done|]. split.
  - apply NoDup_app. split; [apply (bool_decide_unpack _); by vm_compute|]. split; [|done].
    intros p Hin (pack & -> & _)%list_elem_of_fmap. by apply (annex_path_other _ pack Hin).
  - rewrite Forall_forall. intros f Hf Ep. apply (list_elem_of_fmap_2 path) in Hf. rewrite Ep, Epaths in Hf.
    apply elem_of_app in Hf as [Hf|Hf].
    + unfold REQUIRED_PATHS, RECORD_PATHS in Hf. cbn [app] in Hf. rewrite !elem_of_cons in Hf.
      destruct Hf as [Hf|[Hf|[Hf|[Hf|Hf]]]]; try discriminate. by apply elem_of_nil in Hf.
    + apply list_elem_of_fmap in Hf as (pack & Hf & _). discriminate.
Qed.

Lemma normalized_same rs ws :
  Forall plain_json rs → Forall2 (λ r w, normalizeForJson r = Ret w ∧ canonical w) rs ws →
  Forall2 same_data rs ws.
Proof.
  intros Hp Hrw. induction Hrw as [|r w rs ws [Hn _] _ IH]; [constructor|]. inversion Hp as [|? ? [Hj Hpr] Hp']; subst.
  constructor; [by apply normalize_same|by apply IH].
Qed.

Lemma plain_jsons rs : Forall plain_json rs → Forall (λ r, is_json r = true) rs.
Proof. intros Hp. eapply Forall_impl; [exact Hp|]. by intros r []. Qed.

Lemma parse_records_written files p text rs :
  vget_opt files p = VStr text → serializeRecords rs = Ret text → Forall plain_json rs →
  ∃ ws, parse_records files p = Some ws ∧ Forall2 same_data rs ws ∧
        length (splitRecordLines text) = length rs.
Proof.
  intros Hf E Hp. destruct (serializeRecords_parse _ _ (plain_jsons _ Hp) E) as (Hl & ws & Hws & Hrw).
  exists ws. unfold parse_records. rewrite Hf. split; [done|]. split; [by apply normalized_same|done].
Qed.

Lemma all_valid_same events edges commits events' edges' commits' scope :
  Forall (typed_record Audit) events → Forall (typed_record Edge) edges →
  Forall2 same_data events events' → Forall2 same_data edges edges' → Forall2 same_data commits commits' →
  verifyAuditChainScoped events scope = verifyAuditChainScoped events' scope ∧
  verifyEdgeChainScoped edges scope = verifyEdgeChainScoped edges' scope ∧
  verifyCommitChain commits = verifyCommitChain commits'.
Proof.
  intros Ta Te Sa Se Sc. split_and!.
  - exact (verifyChainScoped_same Audit _ _ scope Ta Sa).
  - exact (verifyChainScoped_same Edge _ _ scope Te Se).
  - by apply verifyCommitChain_same.
Qed.

(** The chain gate on the files of a build. *)
Lemma chain_issues_built files input scope text_a text_e text_c text_v :
  plain_input input → (scope = Full ∨ default [] (input_commits input) = []) →
  vget_opt files "records/audit-events.jsonl" = VStr text_a → serializeRecords (input_events input) = Ret text_a →
  vget_opt files "records/evidence-edges.jsonl" = VStr text_e → serializeRecords (input_edges input) = Ret text_e →
  vget_opt files "records/commits.jsonl" = VStr text_c →
  serializeRecords (default [] (input_commits input)) = Ret text_c →
  vget_opt files "verification.json" = VStr text_v →
  canonicalJson (verification_val (input_events input) (input_edges input) (default [] (input_commits input)) scope)
    = Ret (Some text_v) →
  chain_issues files scope =
  issue_if (negb (all_valid (input_events input) (input_edges input) (default [] (input_commits input)) scope))
    "record chain verification failed".
Proof.
  intros [[Pa Ta] [Pe Te] Pc _] Hscope Fa Sa Fe Se Fc Sc Fv Sv.
  destruct (parse_records_written _ _ _ _ Fa Sa Pa) as (wa & Wa & Da & _).
  destruct (parse_records_written _ _ _ _ Fe Se Pe) as (we & We & De & _).
  destruct (parse_records_written _ _ _ _ Fc Sc Pc) as (wc & Wc & Dc & _).
  unfold chain_issues, RECORD_PATHS. cbn [fmap list_fmap]. rewrite Wa, We, Wc.
  destruct (verification_json (input_events input) (input_edges input) (default [] (input_commits input)) scope) as [Jv Pv].
  destruct (canonicalJson_parse _ _ (is_json_nums _ Jv) Sv) as (wv & Nv & _ & Pwv).
  unfold embedded_report. rewrite Fv, Pwv. cbn [default from_option id].
  pose proof (normalize_same _ _ Jv Pv Nv) as Dv.
  destruct (all_valid_same _ _ _ _ _ _ scope Ta Te Da De Dc) as (Ea & Ee & Ec).
  unfold verification_val in Dv. rewrite Ea, Ee, Ec in Dv. fold (verification_val wa we wc scope) in Dv.
  unfold all_valid. rewrite Ea, Ee, Ec. apply verdict_issues_built; [exact Dv|].
  destruct Hscope as [Hf|E]; [by left|right]. rewrite E in Dc. by inversion Dc.
Qed.

(** What a build did. *)
Record built (input : ExportBundleInput) (b manifest : val) (tracked : list tracked_file)
    (scope : ExportBundleChainScope) : Prop := {
  built_bundle : b = VObj [("bundleVersion", VStr "vevb-1"); ("manifest", manifest); ("files", files_val tracked)];
  built_scope : scope = default Full (input_chainScope input);
  built_commits : scope = Full ∨ default [] (input_commits input) = [];
  built_tracked : ∃ packs seen, packs ≡ₚ default [] (input_annex input) ∧ check_annex [] packs = Ret seen ∧
    trackedFiles input scope (default [] (input_commits input)) packs = Ret tracked;
  built_files : vget_opt manifest "files" = VArr (file_entry <$> tracked);
  built_root : ∃ root, computeRootHash (file_entry <$> tracked) = Ret root ∧ vget_opt manifest "rootHash" = VStr root;
  built_shape : is_plain_object manifest = true ∧ declared_scope manifest = (scope, []) ∧
    filters_issues manifest scope = [];
}.

Lemma buildExportBundle_ret input b :
  buildExportBundle input = Ret b → ∃ manifest tracked scope, built input b manifest tracked scope.
Proof.
  unfold buildExportBundle. intros E. set (scope := default Full (input_chainScope input)) in *.
  apply bind_ret in E as ([] & G1%guard_ret & E). apply bind_ret in E as ([] & G2%guard_ret & E).
  apply bind_ret in E as ([] & G3%guard_ret & E). apply bind_ret in E as (packs & Hs & E).
  apply bind_ret in E as (seen & Hc & E). apply bind_ret in E as (tracked & Ht & E).
  apply bind_ret in E as (root & Hr & E). apply bind_ret in E as (annex & _ & E). apply Ret_inj in E.
  eexists _, tracked, scope. split; [symmetry; exact E|done| | |done|by exists root|].
  - apply orb_true_iff in G3 as [G3|G3]; [left; by apply bool_decide_eq_true in G3|right].
    apply Nat.eqb_eq in G3. by apply nil_length_inv.
  - exists packs, seen. split; [|done]. unfold sort_entries in Hs. apply bind_ret in Hs as (? & _ & Hs).
    injection Hs as <-. apply sort_by_perm.
  - split; [done|]. clear -G1 G2. unfold declared_scope, filters_issues.
    clearbody scope. destruct scope, (is_undef (input_filters input)) eqn:Ef, (input_annex input); cbn in *;
      repeat case_decide; try done; cbn; by rewrite ?Ef.
Qed.

(** The declared counts of the record files are their line counts. *)
Lemma record_counts input scope commits packs tracked f :
  trackedFiles input scope commits packs = Ret tracked → NoDup (path <$> tracked) →
  Forall plain_json (input_events input) → Forall plain_json (input_edges input) → Forall plain_json commits →
  f ∈ tracked → path f ∈ RECORD_PATHS → record_count f = VInt (Z.of_nat (length (splitRecordLines (content f)))).
Proof.
  intros E Hnd Pa Pe Pc Hf Hpath. unfold trackedFiles in E.
  apply bind_ret in E as (ta & Ea & E). apply bind_ret in E as (te & Ee & E). apply bind_ret in E as (tc & Ec & E).
  apply bind_ret in E as (ov & _ & E). apply bind_ret in E as (tv & _ & E).
  apply bind_ret in E as (annex & _ & E). apply Ret_inj in E.
  destruct (serializeRecords_parse _ _ (plain_jsons _ Pa) Ea) as [La _].
  destruct (serializeRecords_parse _ _ (plain_jsons _ Pe) Ee) as [Le _].
  destruct (serializeRecords_parse _ _ (plain_jsons _ Pc) Ec) as [Lc _].
  rewrite <- E in Hf, Hnd. rewrite fmap_app in Hnd.
  apply elem_of_app in Hf as [Hf|Hf].
  - rewrite !elem_of_cons in Hf. destruct Hf as [-> |[-> |[-> |[-> |Hf]]]]; cbn [record_count content];
      [by rewrite La|by rewrite Le|by rewrite Lc| |by apply elem_of_nil in Hf].
    cbn [path] in Hpath. unfold RECORD_PATHS in Hpath. rewrite !elem_of_cons in Hpath.
    destruct Hpath as [Hx|[Hx|[Hx|Hx]]]; try discriminate. by apply elem_of_nil in Hx.
  - exfalso. apply NoDup_app in Hnd as (_ & Hdis & _). apply (Hdis (path f)).
    + change ((path <$> [TrackedFile "records/audit-events.jsonl" ta (VInt (Z.of_nat (length (input_events input))));
        TrackedFile "records/evidence-edges.jsonl" te (VInt (Z.of_nat (length (input_edges input))));
        TrackedFile "records/commits.jsonl" tc (VInt (Z.of_nat (length commits)));
        TrackedFile "verification.json" tv (VInt 0)])) with (RECORD_PATHS ++ ["verification.json"]).
      apply elem_of_app. by left.
    + by apply list_elem_of_fmap_2.
Qed.

Lemma built_report input b opts :
  buildExportBundle input = Ret b → plain_input input → requireBundleSignature opts = false →
  let scope := default Full (input_chainScope input) in
  let ok := all_valid (input_events input) (input_edges input) (default [] (input_commits input)) scope in
  verifyExportBundleV1 b opts =
  Ret (BundleReport ok true true ok SigAbsent scope (issue_if (negb ok) "record chain verification failed")).
Proof.
  intros (manifest & tracked & scope & [-> Es Hcommits (packs & seen & Hperm & Hann & Ht) Hfiles (root & Hroot & Hr)
    (Hm & Hscope & Hfilters)])%buildExportBundle_ret Hp Hreq.
  cbn zeta. rewrite <- Es. set (ok := all_valid _ _ _ _).
  assert (Forall (λ pack, ∃ id, vget_opt pack "packId" = VStr id) packs) as Hids.
  { rewrite Hperm. apply (plain_annex _ Hp). }
  destruct (check_annex_ids _ _ _ Hids Hann) as [Hnd _].
  destruct (tracked_paths _ _ _ _ _ Ht Hids Hnd) as (Hpaths & Hnodup & Hproto).
  destruct (files_val_spec tracked Hnodup Hproto) as (Hplain & _ & Hget).
  pose proof Ht as E. unfold trackedFiles in E.
  apply bind_ret in E as (ta & Ea & E). apply bind_ret in E as (te & Ee & E). apply bind_ret in E as (tc & Ec & E).
  apply bind_ret in E as (ov & Eov & E). apply bind_ret in E as (tv & Etv & E).
  destruct ov as [tv'|]; [|done]. injection Etv as ->. apply bind_ret in E as (annex & Hannex & E). apply Ret_inj in E.
  assert (chain_issues (files_val tracked) scope = issue_if (negb ok) "record chain verification failed") as Hchains.
  { assert (∀ f, f ∈ [TrackedFile "records/audit-events.jsonl" ta (VInt (Z.of_nat (length (input_events input))));
        TrackedFile "records/evidence-edges.jsonl" te (VInt (Z.of_nat (length (input_edges input))));
        TrackedFile "records/commits.jsonl" tc (VInt (Z.of_nat (length (default [] (input_commits input)))));
        TrackedFile "verification.json" tv (VInt 0)] → f ∈ tracked) as Hin.
    { intros f Hf. rewrite <- E. apply elem_of_app. by left. }
    assert (∀ p c n, TrackedFile p c n ∈ tracked → vget_opt (files_val tracked) p = VStr c) as Hget'
      by (intros p c n Hf; exact (Hget _ Hf)).
    apply (chain_issues_built _ input scope ta te tc tv); try done; eapply Hget', Hin.
    - left.
    - right. left.
    - do 2 right. left.
    - do 3 right. left. }
  unfold verifyExportBundleV1. cbn [is_plain_object negb].
  change (vget_opt (VObj _) "manifest") with manifest. change (vget_opt (VObj _) "files") with (files_val tracked).
  unfold signature_gate. change (vget_opt (VObj _) "signature") with VUndef. cbn [is_plain_object].
  rewrite Hreq, Hscope, Hplain, Hm, Hfiles. cbn iota.
  assert (shape_issues manifest (files_val tracked) = []) as -> by (unfold shape_issues; by rewrite Hm, Hplain, Hfiles).
  rewrite Hfilters, path_issues_none, Hchains; [|done|done|intros p Hpr; rewrite Hpaths; apply elem_of_app; by left].
  assert (integrity_issues (file_entry <$> tracked) manifest (files_val tracked) = []) as ->.
  { unfold integrity_issues, root_issues. rewrite Hroot, Hr, strict_eq_str_refl. cbn [negb issue_if app].
    apply concat_nil_Forall. rewrite <- list_fmap_compose. apply Forall_fmap, Forall_forall. intros f Hf.
    apply entry_issues_none; [done|done|done|]. intros Hrec.
    apply (record_counts input scope _ packs tracked f Ht Hnodup (proj1 (plain_events _ Hp))
      (proj1 (plain_edges _ Hp)) (plain_commits _ Hp) Hf Hrec). }
  by destruct ok.
Qed.

(** ** Accepted bundles *)

Lemma passes_nil gate : passes gate = true ↔ gate = [].
Proof. by destruct gate. Qed.

Lemma issue_if_nil b issue : issue_if b issue = [] ↔ b = false.
Proof. by destruct b. Qed.

(** A manifest entry for path [p]. *)
Definition entry_for (entry : val) (p : string) : Prop :=
  is_plain_object entry = true ∧ vget_opt entry "path" = VStr p.

Lemma manifest_paths_ok entries : ∀ seen paths,
  manifest_paths seen entries = (paths, []) →
  ∃ ps, paths = seen ++ ps ∧ Forall2 entry_for entries ps ∧ NoDup ps ∧ (∀ p, p ∈ ps → p ∉ seen).
Proof.
  induction entries as [|e entries IH]; intros seen paths E.
  { injection E as <-. exists []. rewrite app_nil_r. split_and!; try constructor. by intros p Hp%elem_of_nil. }
  cbn [manifest_paths] in E. destruct (is_plain_object e) eqn:Eo.
  2:{ destruct (manifest_paths seen entries); discriminate. }
  destruct (vget_opt e "path") as [| | | |p| | | |] eqn:Ep; cbn [str_of] in E;
    try (destruct (manifest_paths seen entries); discriminate).
  destruct (manifest_paths (seen ++ [p]) entries) as [paths' found] eqn:Em.
  injection E as <- E. apply app_nil in E as [E ->]. apply issue_if_nil, bool_decide_eq_false in E.
  destruct (IH _ _ Em) as (ps & -> & Hf & Hnd & Hnot). exists (p :: ps). rewrite <- app_assoc. split; [done|].
  split; [by constructor|]. split.
  - constructor; [|done]. intros Hin. apply (Hnot _ Hin). apply elem_of_app. right. by left.
  - intros q [->|Hq]%elem_of_cons; [done|]. intros Hs. apply (Hnot _ Hq). apply elem_of_app. by left.
Qed.

Lemma omap_missing (l l' : list string) (g : string → string) :
  omap (λ x, if bool_decide (x ∈ l') then None else Some (g x)) l = [] → ∀ x, x ∈ l → x ∈ l'.
Proof.
  induction l as [|x l IH]; cbn; intros E y Hy; [by apply elem_of_nil in Hy|].
  destruct (bool_decide (x ∈ l')) eqn:Ex; [|done]. apply bool_decide_eq_true in Ex.
  apply elem_of_cons in Hy as [->|Hy]; [done|]. by apply IH.
Qed.

(** The manifest and the files of a bundle agree. *)
Record agreement (entries : list val) (files : val) (ps : list string) : Prop := {
  agree_entries : Forall2 entry_for entries ps;
  agree_distinct : NoDup ps;
  agree_keys : ∀ p, p ∈ ps ↔ p ∈ own_keys files;
  agree_required : REQUIRED_PATHS ⊆ ps;
}.

Lemma path_issues_ok entries files : path_issues entries files = [] → ∃ ps, agreement entries files ps.
Proof.
  unfold path_issues. destruct (manifest_paths [] entries) as [paths found] eqn:Em. intros E.
  apply app_nil in E as [-> E]. apply app_nil in E as [E1 E]. apply app_nil in E as [E2 E3].
  destruct (manifest_paths_ok _ _ _ Em) as (ps & -> & Hf & Hnd & _). cbn [app] in *.
  exists ps. split; [done|done| |].
  - intros p. split; [by apply (omap_missing _ _ _ E1)|by apply (omap_missing _ _ _ E2)].
  - intros p. apply (omap_missing _ _ _ E3).
Qed.

(** What integrity establishes of one file. *)
Definition file_hashed (files entry : val) : Prop :=
  ∀ p, entry_for entry p → ∃ payload, vget_opt files p = VStr payload ∧
    vget_opt entry "sha256" = VStr (sha256Hex payload) ∧
    (p ∈ RECORD_PATHS → vget_opt entry "records" = VInt (Z.of_nat (length (splitRecordLines payload)))).

Lemma entry_issues_ok files entry : entry_issues files entry = [] → file_hashed files entry.
Proof.
  unfold entry_issues. intros E p [Ho Hp]. rewrite Ho, Hp in E. cbn [str_of] in E.
  destruct (vget_opt files p) as [| | | |payload| | | |] eqn:Ef; try done.
  apply app_nil in E as [E1 E2]. apply issue_if_nil, negb_false_iff in E1. apply issue_if_nil in E2.
  exists payload. split; [done|]. split.
  - destruct (vget_opt entry "sha256") as [| | | |x| | | |]; try done. unfold strict_eq in E1.
    apply String.eqb_eq in E1. by rewrite E1.
  - intros Hr. rewrite bool_decide_eq_true_2 in E2 by done. cbn [andb] in E2. apply negb_false_iff in E2.
    by apply strict_eq_int in E2.
Qed.

Lemma computeRootHash_text entries root :
  computeRootHash entries = Ret root →
  ∃ sorted text, sorted ≡ₚ entries ∧ canonicalJson (VArr sorted) = Ret (Some text) ∧ root = sha256Hex text.
Proof.
  unfold computeRootHash, sort_entries. intros E. apply bind_ret in E as (sorted & Hs & E).
  apply bind_ret in Hs as (? & _ & [= <-]). apply bind_ret in E as (o & Ho & [= <-]).
  set (sorted := sort_by _ entries) in *. assert (∃ text, o = Some text) as [text ->].
  { unfold canonicalJson in Ho. apply bind_ret in Ho as (w & Hw & [= <-]). cbn in Hw.
    apply bind_ret in Hw as (ys & _ & [= <-]). unfold json_stringify. rewrite stringify_arr. cbn. by eexists. }
  exists sorted, text. split; [apply sort_by_perm|done].
Qed.

(** What structure and integrity establish of a bundle. *)
Record intact (b : val) (entries : list val) (ps : list string) (text : string) : Prop := {
  intact_entries : vget_opt (vget_opt b "manifest") "files" = VArr entries;
  intact_agree : agreement entries (vget_opt b "files") ps;
  intact_root : ∃ sorted, sorted ≡ₚ entries ∧ canonicalJson (VArr sorted) = Ret (Some text) ∧
    vget_opt (vget_opt b "manifest") "rootHash" = VStr (sha256Hex text);
  intact_files : Forall (file_hashed (vget_opt b "files")) entries;
}.

Lemma verify_intact b opts r :
  verifyExportBundleV1 b opts = Ret r → structure r = true → integrity r = true → ∃ entries ps text, intact b entries ps text.
Proof.
  unfold verifyExportBundleV1. destruct (negb (is_plain_object b)); [done|].
  destruct (signature_gate b opts) as [[verdict sat] sigs].
  destruct (declared_scope (vget_opt b "manifest")) as [scope scopes].
  set (manifest := vget_opt b "manifest"). set (files := vget_opt b "files").
  intros E Hs Hi.
  destruct (is_plain_object files), (is_plain_object manifest), (vget_opt manifest "files") as [| | | | |entries| | |] eqn:Ef;
    injection E as <-; cbn [structure integrity] in Hs, Hi; try done.
  apply passes_nil in Hs, Hi. apply app_nil in Hs as [_ Hs]. destruct (path_issues_ok _ _ Hs) as [ps Hagree].
  unfold integrity_issues in Hi. apply app_nil in Hi as [Hroot Hent].
  unfold root_issues in Hroot. destruct (computeRootHash entries) as [root|] eqn:Er; [|done].
  apply issue_if_nil, negb_false_iff in Hroot. destruct (computeRootHash_text _ _ Er) as (sorted & text & Hp & Ht & ->).
  exists entries, ps, text. split; [done|done| |].
  - exists sorted. split; [done|]. split; [done|]. fold manifest.
    destruct (vget_opt manifest "rootHash") as [| | | |x| | | |]; try done. unfold strict_eq in Hroot.
    apply String.eqb_eq in Hroot. by rewrite Hroot.
  - apply concat_nil_Forall, Forall_fmap in Hent. eapply Forall_impl; [exact Hent|]. intros e. apply entry_issues_ok.
Qed.

(** The texts whose digests an intact bundle states: its root text and payloads. *)
Definition stated_texts (b : val) (text : string) (ps : list string) : list string :=
  text :: omap (λ p, str_of (vget_opt (vget_opt b "files") p)) ps.

Lemma entry_for_same e e' p : same_data e e' → entry_for e p → entry_for e' p.
Proof.
  intros Hs [Ho Hp]. split; [by rewrite <- (is_plain_object_same _ _ Hs)|].
  exact (string_same _ _ _ (vget_opt_same _ _ "path" Hs) Hp).
Qed.

(** One file of two intact bundles whose entries are the same data. *)
Lemma same_entry_payload b b' entries entries' ps ps' text text' p :
  intact b entries ps text → intact b' entries' ps' text' →
  (∀ e, e ∈ entries → ∃ e', e' ∈ entries' ∧ same_data e e') →
  p ∈ ps →
  vget_opt (vget_opt b "files") p = vget_opt (vget_opt b' "files") p ∨
  Collision (stated_texts b text ps) (stated_texts b' text' ps').
Proof.
  intros I I' Hsub Hp. destruct (intact_agree _ _ _ _ I) as [Hf _ _ _]. destruct (intact_agree _ _ _ _ I') as [Hf' _ _ _].
  apply list_elem_of_lookup_1 in Hp as [i Hi]. destruct (Forall2_lookup_r _ _ _ _ _ Hf Hi) as (e & He & Hep).
  destruct (Hsub e (list_elem_of_lookup_2 _ _ _ He)) as (e' & He' & Hs).
  pose proof (intact_files _ _ _ _ I) as Hh. rewrite Forall_forall in Hh.
  pose proof (intact_files _ _ _ _ I') as Hh'. rewrite Forall_forall in Hh'.
  destruct (Hh e (list_elem_of_lookup_2 _ _ _ He) p Hep) as (x & Hx & Hsx & _).
  destruct (Hh' e' He' p (entry_for_same _ _ _ Hs Hep)) as (y & Hy & Hsy & _).
  pose proof (string_same _ _ _ (vget_opt_same _ _ "sha256" Hs) Hsx) as E. rewrite Hsy in E. injection E as E.
  destruct (decide (x = y)) as [<-|Hne]; [left; congruence|right]. exists x, y. split_and!; [| |done|done].
  - right. apply list_elem_of_omap. exists p. split; [by eapply list_elem_of_lookup_2|]. by rewrite Hx.
  - apply list_elem_of_lookup_1 in He' as [j Hj]. destruct (Forall2_lookup_l _ _ _ _ _ Hf' Hj) as (q & Hq & [_ Hqp]).
    destruct (entry_for_same _ _ _ Hs Hep) as [_ Hep']. rewrite Hqp in Hep'. injection Hep' as ->.
    right. apply list_elem_of_omap. exists p. split; [by eapply list_elem_of_lookup_2|]. by rewrite Hy.
Qed.

Lemma same_list_sub xs ys e : Forall2 same_data xs ys → e ∈ xs → ∃ e', e' ∈ ys ∧ same_data e e'.
Proof.
  intros Hf He. apply list_elem_of_lookup_1 in He as [i Hi]. destruct (Forall2_lookup_l _ _ _ _ _ Hf Hi) as (y & Hy & Hs).
  exists y. split; [by eapply list_elem_of_lookup_2|done].
Qed.

(** Bundles with one root hash state the same entries, or two texts collide. *)
Lemma same_root_entries b b' entries entries' ps ps' text text' :
  intact b entries ps text → intact b' entries' ps' text' →
  plain_json (VArr entries) → plain_json (VArr entries') →
  vget_opt (vget_opt b "manifest") "rootHash" = vget_opt (vget_opt b' "manifest") "rootHash" →
  (∀ e, e ∈ entries → ∃ e', e' ∈ entries' ∧ same_data e e') ∨
  Collision (stated_texts b text ps) (stated_texts b' text' ps').
Proof.
  intros I I' P P' Hroot. destruct (intact_root _ _ _ _ I) as (sorted & Hp & Ht & Hr).
  destruct (intact_root _ _ _ _ I') as (sorted' & Hp' & Ht' & Hr'). rewrite Hr, Hr' in Hroot. injection Hroot as Hroot.
  destruct (decide (text = text')) as [<-|Hne]; [left|right; exists text, text'; split_and!; [by left|by left|done|done]].
  assert (∀ l l', l ≡ₚ l' → plain_json (VArr l') → plain_json (VArr l)) as Hperm.
  { intros l l' Hl [J N]. split.
    - apply is_json_arr. apply is_json_arr in J. by rewrite Hl.
    - cbn in *. apply forallb_forall. intros x Hx%list_elem_of_In. rewrite forallb_forall in N. apply N, list_elem_of_In.
      by rewrite <- Hl. }
  destruct (Hperm _ _ Hp P) as [J N], (Hperm _ _ Hp' P') as [J' N'].
  assert (same_data (VArr sorted) (VArr sorted')) as Hs by (apply canonical_eq_same; congruence).
  intros e He. rewrite <- Hp in He. inversion Hs as [|? ? Hf|]; subst; [done|].
  destruct (same_list_sub _ _ _ Hf He) as (e' & He' & Hse). exists e'. by rewrite <- Hp'.
Qed.

(** The paths of intact bundles with the same entries. *)
Lemma same_entries_paths b b' entries entries' ps ps' text text' :
  intact b entries ps text → intact b' entries' ps' text' →
  (∀ e, e ∈ entries → ∃ e', e' ∈ entries' ∧ same_data e e') → ps ⊆ ps'.
Proof.
  intros I I' Hsub p Hp. destruct (intact_agree _ _ _ _ I) as [Hf _ _ _]. destruct (intact_agree _ _ _ _ I') as [Hf' _ _ _].
  apply list_elem_of_lookup_1 in Hp as [i Hi]. destruct (Forall2_lookup_r _ _ _ _ _ Hf Hi) as (e & He & Hep).
  destruct (Hsub e (list_elem_of_lookup_2 _ _ _ He)) as (e' & He' & Hs).
  apply list_elem_of_lookup_1 in He' as [j Hj]. destruct (Forall2_lookup_l _ _ _ _ _ Hf' Hj) as (q & Hq & [_ Hqp]).
  destruct (entry_for_same _ _ _ Hs Hep) as [_ Hep']. rewrite Hqp in Hep'. injection Hep' as ->.
  by eapply list_elem_of_lookup_2.
Qed.

Lemma Collision_sym texts texts' : Collision texts texts' → Collision texts' texts.
Proof. intros (s & s' & ? & ? & ? & ?). exists s', s. by split_and!. Qed.

Lemma intact_plain b entries ps text :
  intact b entries ps text → plain_json b → plain_json (VArr entries).
Proof.
  intros I Hb. assert (∀ v k, plain_json v → vget_opt v k ≠ VUndef → plain_json (vget_opt v k)) as Hget.
  { intros v k [J N] Hu. destruct v as [| | | | | |fs| |]; try done. cbn in Hu |- *.
    destruct (obj_get k fs) as [w|] eqn:E; [|done]. apply obj_get_elem in E. split.
    - apply is_json_obj in J as [_ J]. rewrite Forall_forall in J. exact (J _ E).
    - apply no_proto_obj in N. rewrite Forall_forall in N. apply (N _ E). }
  rewrite <- (intact_entries _ _ _ _ I). pose proof (intact_entries _ _ _ _ I) as E.
  apply Hget; [apply Hget; [done|]|congruence]. intros E'. by rewrite E' in E.
Qed.

Lemma same_root_files b b' entries entries' ps ps' text text' :
  intact b entries ps text → intact b' entries' ps' text' → plain_json b → plain_json b' →
  vget_opt (vget_opt b "manifest") "rootHash" = vget_opt (vget_opt b' "manifest") "rootHash" →
  (∀ p, vget_opt (vget_opt b "files") p = vget_opt (vget_opt b' "files") p) ∨
  Collision (stated_texts b text ps) (stated_texts b' text' ps').
Proof.
  intros I I' P P' Hroot.
  destruct (same_root_entries _ _ _ _ _ _ _ _ I I' (intact_plain _ _ _ _ I P) (intact_plain _ _ _ _ I' P') Hroot)
    as [Hs|]; [|by right].
  destruct (same_root_entries _ _ _ _ _ _ _ _ I' I (intact_plain _ _ _ _ I' P') (intact_plain _ _ _ _ I P) (eq_sym Hroot))
    as [Hs'|]; [|right; by apply Collision_sym].
  pose proof (same_entries_paths _ _ _ _ _ _ _ _ I I' Hs) as Hps.
  pose proof (same_entries_paths _ _ _ _ _ _ _ _ I' I Hs') as Hps'.
  destruct (decide (Forall (λ p, bool_decide (str_of (vget_opt (vget_opt b "files") p) =
    str_of (vget_opt (vget_opt b' "files") p)) = true) ps)) as [Hall|Hnot].
  - left. intros p. destruct (decide (p ∈ ps)) as [Hp|Hp].
    + destruct (same_entry_payload _ _ _ _ _ _ _ _ p I I' Hs Hp) as [E|C]; [done|].
      rewrite Forall_forall in Hall. pose proof (Hall p Hp) as E%bool_decide_eq_true.
      assert (∀ c es qs tx, intact c es qs tx → p ∈ qs → ∃ x, vget_opt (vget_opt c "files") p = VStr x) as Hstr.
      { intros c es qs tx Ic Hq. destruct (intact_agree _ _ _ _ Ic) as [Hf _ _ _].
        apply list_elem_of_lookup_1 in Hq as [i Hi]. destruct (Forall2_lookup_r _ _ _ _ _ Hf Hi) as (e & He & Hep).
        pose proof (intact_files _ _ _ _ Ic) as Hh. rewrite Forall_forall in Hh.
        destruct (Hh e (list_elem_of_lookup_2 _ _ _ He) p Hep) as (x & Hx & _). eauto. }
      destruct (Hstr _ _ _ _ I Hp) as [x Hx], (Hstr _ _ _ _ I' (Hps p Hp)) as [y Hy].
      rewrite Hx, Hy in E |- *. cbn in E. congruence.
    + assert (∀ c es qs tx, intact c es qs tx → p ∉ qs → vget_opt (vget_opt c "files") p = VUndef) as Hno.
      { intros c es qs tx Ic Hq. destruct (intact_agree _ _ _ _ Ic) as [_ _ Hk _].
        destruct (vget_opt c "files") as [| | | | | |fs| |]; try done. cbn.
        destruct (obj_get p fs) eqn:E; [|done]. exfalso. apply Hq, Hk. cbn. apply obj_has_spec. unfold obj_has. by rewrite E. }
      rewrite (Hno _ _ _ _ I Hp), (Hno _ _ _ _ I'); [done|]. intros Hp'. by apply Hp, Hps'.
  - apply not_Forall_Exists in Hnot; [|intros; apply _]. apply Exists_exists in Hnot as (p & Hp & Hne).
    destruct (same_entry_payload _ _ _ _ _ _ _ _ p I I' Hs Hp) as [E|C]; [|by right].
    exfalso. apply Hne. apply bool_decide_eq_true. by rewrite E.
Qed.

(** ** Chains and signatures of accepted bundles *)

(** The records of the three files, read back. *)
Definition bundle_records (b : val) (events edges commits : list val) : Prop :=
  let files := vget_opt b "files" in
  parse_records files "records/audit-events.jsonl" = Some events ∧
  parse_records files "records/evidence-edges.jsonl" = Some edges ∧
  parse_records files "records/commits.jsonl" = Some commits.

Lemma chain_issues_ok b scope :
  chain_issues (vget_opt b "files") scope = [] →
  ∃ events edges commits, bundle_records b events edges commits ∧
    all_valid events edges commits scope = true ∧ (scope = Full ∨ commits = []).
Proof.
  unfold chain_issues, bundle_records, RECORD_PATHS. cbn [fmap list_fmap omap list_omap]. cbn zeta.
  destruct (parse_records _ "records/audit-events.jsonl") as [events|]; [|done].
  destruct (parse_records _ "records/evidence-edges.jsonl") as [edges|]; [|done].
  destruct (parse_records _ "records/commits.jsonl") as [commits|]; [|done].
  unfold verdict_issues. intros E. apply app_nil in E as [E1 E]. apply app_nil in E as [_ E2].
  apply issue_if_nil in E1, E2. exists events, edges, commits. split; [done|]. split.
  - by apply negb_false_iff in E2.
  - destruct (decide (scope = Full)) as [->|Hne]; [by left|right]. rewrite bool_decide_eq_false_2 in E1 by done.
    apply negb_false_iff, Nat.eqb_eq in E1. by apply nil_length_inv.
Qed.

(** [b] carries a signature of its manifest that verifies under [key]. *)
Definition signed_by (b : val) (key : CryptoKey) : Prop :=
  let sig := vget_opt b "signature" in
  ∃ fingerprint bytes payload, publicKeyFingerprint key = Ret fingerprint ∧
    vget_opt sig "publicKeyFingerprint" = VStr fingerprint ∧
    vget_opt (vget_opt b "manifest") "signaturePublicKeyFingerprint" = VStr fingerprint ∧
    base64ToBytes (vget_opt sig "signature") = Ret bytes ∧
    signedManifestPayload (vget_opt b "manifest") = Ret payload ∧
    subtle_verify key bytes payload = Ret true.

Lemma strict_eq_str_l s v : strict_eq (VStr s) v = true ↔ v = VStr s.
Proof. destruct v; try done. unfold strict_eq. rewrite String.eqb_eq. split; congruence. Qed.

Lemma verifyBundleSignature_valid b key issue :
  verifyBundleSignature b key = (SigValid, issue) → signed_by b key.
Proof.
  unfold verifyBundleSignature, signed_by. cbn zeta. destruct (negb _); [done|].
  set (run := mbind _ _). destruct run as [verdict|] eqn:E; [|done]. unfold run in E. clear run. cbn [catch]. intros ->.
  apply bind_ret in E as (fp & Hfp & E). destruct (strict_eq (VStr fp) _) eqn:E1; [cbn [negb orb] in E|done].
  destruct (strict_eq (VStr fp) (vget_opt (vget_opt b "manifest") _)) eqn:E2; [cbn [negb] in E|done].
  apply bind_ret in E as (bytes & Hb & E). apply bind_ret in E as (payload & Hp & E).
  apply bind_ret in E as ([] & Hv & E); [|done].
  apply strict_eq_str_l in E1, E2. by exists fp, bytes, payload.
Qed.

(** The signature conditions of an accepted bundle. *)
Definition signature_accepted (b : val) (opts : ExportBundleVerificationOptions CryptoKey) : Prop :=
  (requireBundleSignature opts = true → is_plain_object (vget_opt b "signature") = true) ∧
  (is_plain_object (vget_opt b "signature") = true →
     match publicKey opts with Some key => signed_by b key | None => True end).

Lemma signature_gate_ok b opts verdict found :
  signature_gate b opts = (verdict, true, found) → signature_accepted b opts.
Proof.
  unfold signature_gate, signature_accepted. destruct (is_plain_object (vget_opt b "signature")).
  - intros E. split; [done|]. intros _. destruct (publicKey opts) as [key|]; [|done].
    destruct (verifyBundleSignature b key) as [v issue] eqn:Ev. injection E as _ Ed _.
    apply bool_decide_eq_true in Ed as ->. by eapply verifyBundleSignature_valid.
  - by destruct (requireBundleSignature opts).
Qed.

Lemma verify_accepted b opts r :
  verifyExportBundleV1 b opts = Ret r → report_valid r = true →
  structure r = true ∧ integrity r = true ∧ chain_issues (vget_opt b "files") (chainScope r) = [] ∧
  declared_scope (vget_opt b "manifest") = (chainScope r, []) ∧ signature_accepted b opts.
Proof.
  unfold verifyExportBundleV1. destruct (negb (is_plain_object b)); [done|].
  destruct (signature_gate b opts) as [[verdict sat] sigs] eqn:Es.
  destruct (declared_scope (vget_opt b "manifest")) as [scope scopes] eqn:Ed. cbn zeta.
  destruct (is_plain_object (vget_opt b "files")), (is_plain_object (vget_opt b "manifest")),
    (vget_opt (vget_opt b "manifest") "files") as [| | | | |entries| | |]; intros E Hv; injection E as <-;
    cbn [report_valid] in Hv; try done.
  apply andb_true_iff in Hv as [Hv ->]. apply andb_true_iff in Hv as [Hv Hc]. apply andb_true_iff in Hv as [Hs Hi].
  cbn [structure integrity chainScope]. split_and!; [done|done|by apply passes_nil| |by eapply signature_gate_ok].
  apply passes_nil in Hs. apply app_nil in Hs as [Hs _]. apply app_nil in Hs as [_ Hs]. apply app_nil in Hs as [Hs _].
  by rewrite Hs.
Qed.

(** ** Signing *)

Lemma vget_spread v fs k :
  vget_opt (spread_with v fs) k =
  match obj_get k (reverse fs) with Some w => w | None => vget_opt v k end.
Proof.
  unfold spread_with. set (gs := match v with VObj gs => gs | _ => [] end).
  assert (default VUndef (obj_get k gs) = vget_opt v k) as <- by by destruct v. generalize gs. clear gs.
  induction fs as [|[k' w] fs IH] using rev_ind; intros gs; [cbn; by destruct (obj_get k gs)|].
  rewrite fold_left_app, reverse_snoc. cbn [fold_left obj_get vget_opt]. rewrite obj_get_define. cbn [fst snd].
  destruct (String.eqb k' k); [done|]. apply IH.
Qed.

(** A signed bundle keeps the verdicts of its other gates. *)
Lemma signed_report b priv pub sb r required :
  signExportBundle b priv pub = Ret sb → is_plain_object b = true →
  is_plain_object (vget_opt b "manifest") = true →
  (∀ m s, subtle_sign priv m = Ret s → Forall byte s ∧ subtle_verify pub s m = Ret true) →
  verifyExportBundleV1 b (BundleOptions None false None) = Ret r →
  ∃ r', verifyExportBundleV1 sb (BundleOptions (Some pub) required None) = Ret r' ∧ signature r' = SigValid ∧
    report_valid r' = report_valid r ∧ structure r' = structure r ∧ integrity r' = integrity r ∧
    chains r' = chains r ∧ chainScope r' = chainScope r.
Proof.
  unfold signExportBundle. intros E Hb Hm Hlaw Hr. apply bind_ret in E as (fp & Hfp & E).
  apply bind_ret in E as (m & Hget & E). apply vget_obj_opt in Hget. subst m.
  set (m' := spread_with _ _) in E. apply bind_ret in E as (payload & Hp & E). apply bind_ret in E as (s & Hs & E).
  destruct (Hlaw _ _ Hs) as [Hbytes Hverify]. apply Ret_inj in E. subst sb. set (sb := spread_with b _).
  assert (vget_opt sb "manifest" = m') as Em by (unfold sb; by rewrite vget_spread).
  assert (vget_opt sb "files" = vget_opt b "files") as Ef by (unfold sb; by rewrite vget_spread).
  assert (∀ k, k ≠ "signaturePublicKeyFingerprint" → vget_opt m' k = vget_opt (vget_opt b "manifest") k) as Ek.
  { intros k Hk. unfold m'. rewrite vget_spread. cbn [reverse rev_append obj_get].
    change (reverse [("signaturePublicKeyFingerprint", VStr fp)]) with [("signaturePublicKeyFingerprint", VStr fp)].
    cbn [obj_get]. by rewrite (proj2 (String.eqb_neq _ _)) by congruence. }
  assert (signature_gate sb (BundleOptions (Some pub) required None) = (SigValid, true, [])) as Eg.
  { unfold signature_gate. assert (vget_opt sb "signature" = VObj [("algorithm", VStr "ed25519");
      ("publicKeyFingerprint", VStr fp); ("signature", VStr (bytesToBase64 s))]) as Es
      by (unfold sb; by rewrite vget_spread).
    rewrite Es. cbn [is_plain_object publicKey].
    assert (verifyBundleSignature sb pub = (SigValid, None)) as ->; [|done].
    unfold verifyBundleSignature. rewrite Es, Em. cbn zeta.
    change (vget_opt (VObj _) "algorithm") with (VStr "ed25519").
    change (vget_opt (VObj _) "publicKeyFingerprint") with (VStr fp).
    change (vget_opt (VObj _) "signature") with (VStr (bytesToBase64 s)).
    assert (vget_opt m' "signaturePublicKeyFingerprint" = VStr fp) as Efp by (unfold m'; by rewrite vget_spread).
    rewrite Efp, strict_eq_str_refl, Hfp. cbn [negb orb mbind exc_mbind]. rewrite strict_eq_str_refl.
    cbn [negb orb]. unfold base64ToBytes, bytesToBase64. cbn [js_String mbind exc_mbind].
    rewrite chars_of_chars, b64_decode_encode by done. cbn [mbind exc_mbind]. rewrite Hp. cbn [mbind exc_mbind].
    by rewrite Hverify. }
  unfold verifyExportBundleV1 in Hr |- *. rewrite Hb in Hr. cbn [negb] in Hr. cbn zeta in Hr |- *.
  change (is_plain_object sb) with true. cbn [negb]. rewrite Eg, Em, Ef.
  assert ((signature_gate b (BundleOptions None false None)).1.2 = true) as Hsat.
  { unfold signature_gate. cbn [publicKey requireBundleSignature]. by destruct (is_plain_object (vget_opt b "signature")). }
  destruct (signature_gate b _) as [[v sat] found]. cbn [fst snd] in Hsat. subst sat.
  assert (declared_scope m' = declared_scope (vget_opt b "manifest")) as -> by (unfold declared_scope; by rewrite Ek).
  destruct (declared_scope (vget_opt b "manifest")) as [scope scopes].
  assert (is_plain_object m' = true) as Hm' by done.
  rewrite Hm in Hr. rewrite Hm', (Ek "files") by done.
  assert (shape_issues m' (vget_opt b "files") = shape_issues (vget_opt b "manifest") (vget_opt b "files")) as ->
    by (unfold shape_issues; by rewrite Hm', Hm, (Ek "files")).
  assert (filters_issues m' scope = filters_issues (vget_opt b "manifest") scope) as ->
    by (unfold filters_issues; by rewrite Hm', Hm, (Ek "filters")).
  assert (∀ entries, integrity_issues entries m' (vget_opt b "files") =
    integrity_issues entries (vget_opt b "manifest") (vget_opt b "files")) as Ei
    by (intros entries; unfold integrity_issues; by rewrite (Ek "rootHash")).
  destruct (is_plain_object (vget_opt b "files")), (vget_opt (vget_opt b "manifest") "files");
    injection Hr as <-; eexists; (split; [reflexivity|]); rewrite ?Ei; by cbn.
Qed.
End Verify.

(** ** Properties *)

#[local] Instance demo_host : Host :=
  {| host_dates := {| legacy_date_parse := λ _, None |}; date_of_object := λ _, None;
     date_string := λ _, "Invalid Date" |}.

(** A toy signature scheme: a key signs with its own bytes. *)
#[local] Instance demo_crypto : WebCrypto := {|
  CryptoKey := list Z;
  exportKeyRaw := Ret;
  subtle_sign := λ k _, Ret k;
  subtle_verify := λ k s _, Ret (bool_decide (s = k));
|}.

Definition demo_pack : val := json "{'packId':'p1','version':'1','entries':[{'dutyId':'d','recordIds':[]}]}".
Definition demo_input : ExportBundleInput :=
  BundleInput (VObj [("tenantId", VStr "a")]) (VObj []) (VObj []) (VStr "2026-06-10T00:00:00Z") None VUndef
    [demo_a1; demo_b1; demo_a2] [] None (Some [demo_pack]).
Definition demo_bundle : val := default VUndef (exc_to_option (buildExportBundle demo_input)).
Definition demo_key : list Z := [1; 2; 3]%Z.
Definition demo_signed : val := default VUndef (exc_to_option (signExportBundle demo_bundle demo_key demo_key)).
Definition unsigned_options {K} : ExportBundleVerificationOptions K := BundleOptions None false None.

(** A built bundle verifies: for records that are JSON data with string
    tenants, and packs with string ids, its structure and integrity checks hold,
    and it is valid exactly when the three chains of its input are (the embedded
    report always agrees with the recomputed one). *)
Theorem built_bundle_verifies `{Hasher} `{Host} `{WebCrypto} input b opts :
  buildExportBundle input = Ret b → plain_input input → requireBundleSignature opts = false →
  let scope := default Full (input_chainScope input) in
  let ok := all_valid (input_events input) (input_edges input) (default [] (input_commits input)) scope in
  verifyExportBundleV1 b opts =
  Ret (BundleReport ok true true ok SigAbsent scope (issue_if (negb ok) "record chain verification failed")).
Proof. apply built_report. Qed.

Definition typed_recordb (kind : chainKind) (r : val) : bool :=
  match check_envelope kind r with Ret (inr tenant) => is_string tenant | _ => true end &&
  match scoped_envelope kind r with Ret (inr k) => is_string k | _ => true end.

Lemma typed_recordb_ok kind r : typed_recordb kind r = true → typed_record kind r.
Proof.
  unfold typed_recordb. intros [Hc Hs]%andb_true_iff. split.
  - intros t E. by rewrite E in Hc.
  - intros k E. by rewrite E in Hs.
Qed.

Lemma plain_input_ok input :
  forallb (λ r, is_json r && no_proto r && typed_recordb Audit r) (input_events input) = true →
  forallb (λ r, is_json r && no_proto r && typed_recordb Edge r) (input_edges input) = true →
  forallb (λ r, is_json r && no_proto r) (default [] (input_commits input)) = true →
  forallb (λ p, is_string (vget_opt p "packId")) (default [] (input_annex input)) = true → plain_input input.
Proof.
  rewrite !forallb_forall. intros Ha He Hc Hp. split.
  - split; apply Forall_forall; intros r Hr%list_elem_of_In%Ha; rewrite !andb_true_iff in Hr; destruct Hr as [[? ?] ?];
      [done|by apply typed_recordb_ok].
  - split; apply Forall_forall; intros r Hr%list_elem_of_In%He; rewrite !andb_true_iff in Hr; destruct Hr as [[? ?] ?];
      [done|by apply typed_recordb_ok].
  - apply Forall_forall. intros r Hr%list_elem_of_In%Hc. rewrite andb_true_iff in Hr. done.
  - apply Forall_forall. intros p Hr%list_elem_of_In%Hp. destruct (vget_opt p "packId"); try done. by eexists.
Qed.

Lemma demo_plain_input : plain_input demo_input.
Proof. apply plain_input_ok; vm_cast_no_check (@eq_refl bool true). Qed.

Lemma built_bundle_verifies_witness :
  let ok := all_valid (input_events demo_input) (input_edges demo_input) [] Full in
  verifyExportBundleV1 demo_bundle unsigned_options =
  Ret (BundleReport ok true true ok SigAbsent Full (issue_if (negb ok) "record chain verification failed")).
Proof.
  apply (built_bundle_verifies demo_input demo_bundle unsigned_options); [|exact demo_plain_input|reflexivity].
  vm_cast_no_check (@eq_refl (exc val) (Ret demo_bundle)).
Defined.

(** A bundle reported valid is what it claims: its manifest and its files
    correspond one to one and contain the required files, every file has the
    stated digest (and line count), the root hash is the digest of the entries,
    the records parse and their chains verify under the declared scope (and a
    scoped bundle has no commits); a signature is there when it is required, and
    one that is there verifies under the given key. *)
Theorem accepted_bundle_sound `{Hasher} `{Host} `{WebCrypto} b opts r :
  verifyExportBundleV1 b opts = Ret r → report_valid r = true →
  (∃ entries ps text, intact b entries ps text) ∧
  (∃ events edges commits, bundle_records b events edges commits ∧
     valid (verifyAuditChainScoped events (chainScope r)) = true ∧
     valid (verifyEdgeChainScoped edges (chainScope r)) = true ∧
     valid (verifyCommitChain commits) = true ∧ (chainScope r = Full ∨ commits = [])) ∧
  declared_scope (vget_opt b "manifest") = (chainScope r, []) ∧ signature_accepted b opts.
Proof.
  intros E Hv. destruct (verify_accepted _ _ _ E Hv) as (Hs & Hi & Hc & Hd & Hsig).
  split; [by eapply verify_intact|]. split; [|done].
  destruct (chain_issues_ok _ _ Hc) as (events & edges & commits & Hr & Ha & Hscope).
  exists events, edges, commits. unfold all_valid in Ha. rewrite !andb_true_iff in Ha. tauto.
Qed.

Definition demo_report : ExportBundleVerificationReport := BundleReport true true true true SigAbsent Full [].

Lemma demo_bundle_accepted : verifyExportBundleV1 demo_bundle unsigned_options = Ret demo_report.
Proof. vm_cast_no_check (@eq_refl (exc ExportBundleVerificationReport) (Ret demo_report)). Qed.

Lemma accepted_bundle_sound_witness :
  (∃ entries ps text, intact demo_bundle entries ps text) ∧
  (∃ events edges commits, bundle_records demo_bundle events edges commits ∧
     valid (verifyAuditChainScoped events Full) = true ∧ valid (verifyEdgeChainScoped edges Full) = true ∧
     valid (verifyCommitChain commits) = true ∧ (Full = Full ∨ commits = [])) ∧
  declared_scope (vget_opt demo_bundle "manifest") = (Full, []) ∧ signature_accepted demo_bundle unsigned_options.
Proof. apply (accepted_bundle_sound demo_bundle unsigned_options demo_report demo_bundle_accepted eq_refl). Defined.

(** The root hash binds the files: two bundles that pass the structure and
    integrity checks and state one root hash have the same payload under every
    path, or two texts whose digests they state collide. *)
Theorem root_hash_binds_files `{Hasher} `{Host} `{WebCrypto} b b' opts opts' r r' :
  plain_json b → plain_json b' →
  verifyExportBundleV1 b opts = Ret r → structure r = true → integrity r = true →
  verifyExportBundleV1 b' opts' = Ret r' → structure r' = true → integrity r' = true →
  vget_opt (vget_opt b "manifest") "rootHash" = vget_opt (vget_opt b' "manifest") "rootHash" →
  (∀ p, vget_opt (vget_opt b "files") p = vget_opt (vget_opt b' "files") p) ∨
  ∃ text ps text' ps', Collision (stated_texts b text ps) (stated_texts b' text' ps').
Proof.
  intros P P' E Hs Hi E' Hs' Hi' Hroot.
  destruct (verify_intact _ _ _ E Hs Hi) as (entries & ps & text & I).
  destruct (verify_intact _ _ _ E' Hs' Hi') as (entries' & ps' & text' & I').
  destruct (same_root_files _ _ _ _ _ _ _ _ I I' P P' Hroot) as [Hf|C]; [by left|right]. by exists text, ps, text', ps'.
Qed.

Lemma demo_bundle_plain : plain_json demo_bundle.
Proof. split; vm_compute; reflexivity. Qed.

Lemma root_hash_binds_files_witness :
  (∀ p, vget_opt (vget_opt demo_bundle "files") p = vget_opt (vget_opt demo_bundle "files") p) ∨
  ∃ text ps text' ps', Collision (stated_texts demo_bundle text ps) (stated_texts demo_bundle text' ps').
Proof.
  apply (root_hash_binds_files demo_bundle demo_bundle unsigned_options unsigned_options demo_report demo_report
    demo_bundle_plain demo_bundle_plain demo_bundle_accepted eq_refl eq_refl demo_bundle_accepted eq_refl eq_refl eq_refl).
Defined.

(** Signing completes a bundle: for a key pair whose signatures verify, the
    signed bundle's signature is valid under the public key, and every other
    check gives what it gave before. *)
Theorem signed_bundle_verifies `{Hasher} `{Host} `{WebCrypto} b priv pub sb r required :
  signExportBundle b priv pub = Ret sb → is_plain_object b = true →
  is_plain_object (vget_opt b "manifest") = true →
  (∀ m s, subtle_sign priv m = Ret s → Forall byte s ∧ subtle_verify pub s m = Ret true) →
  verifyExportBundleV1 b unsigned_options = Ret r →
  ∃ r', verifyExportBundleV1 sb (BundleOptions (Some pub) required None) = Ret r' ∧ signature r' = SigValid ∧
    report_valid r' = report_valid r ∧ structure r' = structure r ∧ integrity r' = integrity r ∧
    chains r' = chains r ∧ chainScope r' = chainScope r.
Proof. apply signed_report. Qed.

Lemma signed_bundle_verifies_witness :
  ∃ r', @verifyExportBundleV1 _ _ demo_crypto demo_signed (BundleOptions (Some demo_key) true None) = Ret r' ∧ signature r' = SigValid ∧
    report_valid r' = true ∧ structure r' = true ∧ integrity r' = true ∧ chains r' = true ∧ chainScope r' = Full.
Proof.
  apply (@signed_bundle_verifies _ _ demo_crypto demo_bundle demo_key demo_key demo_signed demo_report true).
  - vm_cast_no_check (@eq_refl (exc val) (Ret demo_signed)).
  - vm_compute. reflexivity.
  - vm_compute. reflexivity.
  - intros m s [= <-]. split; [|by cbn; rewrite bool_decide_eq_true_2].
    unfold demo_key, byte. repeat apply Forall_cons_2; try lia. apply Forall_nil_2.
  - exact demo_bundle_accepted.
Defined.

(** A signature binds the manifest: under a key for which no signature verifies
    two different messages, bundles that carry one signature and are both signed
    by the key have manifests with the same data, or their texts collide. *)
Theorem signature_binds_manifest `{Hasher} `{Host} `{WebCrypto} b b' key :
  (∀ s m m', subtle_verify key s m = Ret true → subtle_verify key s m' = Ret true → m = m') →
  signed_by b key → signed_by b' key →
  vget_opt (vget_opt b "signature") "signature" = vget_opt (vget_opt b' "signature") "signature" →
  plain_json (vget_opt b "manifest") → plain_json (vget_opt b' "manifest") →
  same_data (vget_opt b "manifest") (vget_opt b' "manifest") ∨
  ∃ text text', canonicalJson (vget_opt b "manifest") = Ret (Some text) ∧
    canonicalJson (vget_opt b' "manifest") = Ret (Some text') ∧ Collision [text] [text'].
Proof.
  intros Hkey (fp & bytes & payload & _ & _ & _ & Hb & Hp & Hv) (fp' & bytes' & payload' & _ & _ & _ & Hb' & Hp' & Hv')
    E [J N] [J' N'].
  rewrite <- E, Hb in Hb'. injection Hb' as <-. pose proof (Hkey _ _ _ Hv Hv') as <-.
  destruct (canonicalJson_json _ J) as [text Ht], (canonicalJson_json _ J') as [text' Ht'].
  unfold signedManifestPayload in Hp, Hp'. rewrite Ht in Hp. rewrite Ht' in Hp'. injection Hp as <-. injection Hp' as Hp'.
  apply utf8_inj in Hp'. cbn in Hp'. destruct (decide (text = text')) as [<-|Hne].
  - left. apply canonical_eq_same; congruence.
  - right. exists text, text'. split_and!; [done|done|]. exists text, text'. split_and!; [by left|by left|done|done].
Qed.

(** A key that signs one message only. *)
#[local] Instance single_crypto (message : list Z) : WebCrypto | 100 := {|
  CryptoKey := list Z;
  exportKeyRaw := Ret;
  subtle_sign := λ k _, Ret k;
  subtle_verify := λ k s m, Ret (bool_decide (s = k ∧ m = message));
|}.

Definition demo_payload : list Z :=
  default [] (exc_to_option (signedManifestPayload (vget_opt demo_signed "manifest"))).

Lemma signature_binds_manifest_witness :
  same_data (vget_opt demo_signed "manifest") (vget_opt demo_signed "manifest") ∨
  ∃ text text', canonicalJson (vget_opt demo_signed "manifest") = Ret (Some text) ∧
    canonicalJson (vget_opt demo_signed "manifest") = Ret (Some text') ∧ Collision [text] [text'].
Proof.
  assert (@signed_by _ _ (single_crypto demo_payload) demo_signed demo_key) as Hs.
  { exists (sha256Bytes demo_key), demo_key, demo_payload. split_and!; vm_compute; reflexivity. }
  apply (@signature_binds_manifest _ _ (single_crypto demo_payload) demo_signed demo_signed demo_key).
  - intros s m m' E E'. apply Ret_inj in E, E'. apply bool_decide_eq_true in E, E'. destruct E as [_ ->], E' as [_ ->]. done.
  - exact Hs.
  - exact Hs.
  - reflexivity.
  - split; vm_compute; reflexivity.
  - split; vm_compute; reflexivity.
Defined.

(** The container text reads back as the bundle: the text of a JSON bundle
    with a manifest and files parses to the same data. *)
Theorem container_roundtrip `{Hasher} `{Host} `{WebCrypto} isV2 b text :
  plain_json b → vget_opt b "bundleVersion" = VStr "vevb-1" →
  is_object (vget_opt b "manifest") = true → is_object (vget_opt b "files") = true →
  serializeExportBundle b = Ret (Some text) →
  ∃ w, parseExportBundle isV2 text = Ret w ∧ same_data b w.
Proof.
  intros [J N] Hv Hm Hf E. destruct (canonicalJson_parse _ _ (is_json_nums _ J) E) as (w & Hw & _ & Hp).
  pose proof (normalize_same _ _ J N Hw) as Hs. exists w. split; [|done].
  assert (∀ x y, same_data x y → is_object x = is_object y) as Ho
    by (by intros x y [v' Hx|xs ys _|fs gs _]%same_data_shape).
  unfold parseExportBundle. rewrite Hp, <- (Ho _ _ Hs).
  assert (is_object b = true) as -> by by destruct b.
  rewrite (string_same _ _ _ (vget_opt_same _ _ "bundleVersion" Hs) Hv).
  rewrite <- (Ho _ _ (vget_opt_same _ _ "manifest" Hs)), <- (Ho _ _ (vget_opt_same _ _ "files" Hs)), Hm, Hf.
  done.
Qed.

Lemma container_roundtrip_witness :
  ∃ w, parseExportBundle (λ _, Ret false) (default "" (mjoin (exc_to_option (serializeExportBundle demo_bundle)))) = Ret w ∧
       same_data demo_bundle w.
Proof.
  apply (container_roundtrip (λ _, Ret false) demo_bundle).
  - exact demo_bundle_plain.
  - vm_compute. reflexivity.
  - vm_compute. reflexivity.
  - vm_compute. reflexivity.
  - vm_compute. reflexivity.
Defined.
