(* ===== verification/Binary64.v ===== *)
(** * Binary floating point numbers

    The arithmetic of JavaScript numbers (IEEE 754 binary64, rounding to nearest,
    ties to even) as the scoring code uses it: exact results rounded once. A
    finite number is [±m * 2^e] with [e >= -1074]; its magnitude in units of
    [2^-1074] is an integer, and the order of numbers is the order of these
    integers ([units]). [round] computes the mantissa and the exponent,
    [round_mag] is the rounding of the magnitude; [round_units] relates them and
    [round_mag_mono] is the monotonicity all bounds rest on. *)

From S2P Require Import Prelude.

Inductive b64 : Type :=
| BNaN
| BInf (neg : bool)
| BFin (neg : bool) (m e : Z).

#[global] Instance b64_eq_dec : EqDecision b64.
Proof. solve_decision. Defined.

(** ** Rounding *)

(** The integer nearest to [a / b], the even one of two. *)
Definition half_even (a b : Z) : Z :=
  let q := (a / b)%Z in
  match Z.compare (2 * (a - b * q)) b with
  | Lt => q
  | Gt => (q + 1)%Z
  | Eq => if Z.even q then q else (q + 1)%Z
  end.

(** [p / q * 2^e] in units of [2^k], as a fraction. *)
Definition scaled (p q e k : Z) : Z * Z :=
  if (k <=? e)%Z then (Z.shiftl p (e - k), q) else (p, Z.shiftl q (k - e)).

(** The mantissa and the exponent nearest to [p / q * 2^e], for [p >= 0] and
    [q > 0]: 53 bits, fewer below the normal range. *)
Definition round (p q e : Z) : Z * Z :=
  let k := Z.max (-1074) (Z.log2 p - Z.log2 q + e - 53) in
  let f := scaled p q e k in
  let d := if (2 ^ 53 <=? f.1 / f.2)%Z then (k + 1)%Z else k in
  let f := scaled p q e d in
  let m := half_even f.1 f.2 in
  if (m =? 2 ^ 53)%Z then ((2 ^ 52)%Z, (d + 1)%Z) else (m, d).

(** Mantissas of value 2^1024 and more overflow. *)
Definition pack (neg : bool) (r : Z * Z) : b64 :=
  if (r.1 =? 0)%Z then BFin neg 0 0
  else if (1024 <=? Z.log2 r.1 + r.2)%Z then BInf neg else BFin neg r.1 r.2.

Definition of_Z (z : Z) : b64 := pack (z <? 0)%Z (round (Z.abs z) 1 0).

(** The numeral [m * 10^e]. *)
Definition dec (m e : Z) : b64 :=
  if (0 <=? e)%Z then pack (m <? 0)%Z (round (Z.abs m * 10 ^ e) 1 0)
  else pack (m <? 0)%Z (round (Z.abs m) (10 ^ (- e)) 0).

(** ** Operations *)

Definition signed (neg : bool) (m : Z) : Z := if neg then (- m)%Z else m.

Definition b64_opp (x : b64) : b64 :=
  match x with BNaN => BNaN | BInf s => BInf (negb s) | BFin s m e => BFin (negb s) m e end.

Definition b64_add (x y : b64) : b64 :=
  match x, y with
  | BNaN, _ | _, BNaN => BNaN
  | BInf s, BInf s' => if Bool.eqb s s' then BInf s else BNaN
  | BInf s, BFin _ _ _ | BFin _ _ _, BInf s => BInf s
  | BFin s m e, BFin s' m' e' =>
      let d := Z.min e e' in
      let z := (signed s (Z.shiftl m (e - d)) + signed s' (Z.shiftl m' (e' - d)))%Z in
      if (z =? 0)%Z then BFin (s && s') 0 0 else pack (z <? 0)%Z (round (Z.abs z) 1 d)
  end.

Definition b64_sub (x y : b64) : b64 := b64_add x (b64_opp y).

Definition b64_mul (x y : b64) : b64 :=
  match x, y with
  | BNaN, _ | _, BNaN => BNaN
  | BInf s, BInf s' => BInf (xorb s s')
  | BInf s, BFin s' m _ | BFin s' m _, BInf s => if (m =? 0)%Z then BNaN else BInf (xorb s s')
  | BFin s m e, BFin s' m' e' => pack (xorb s s') (round (m * m') 1 (e + e'))
  end.

Definition b64_div (x y : b64) : b64 :=
  match x, y with
  | BNaN, _ | _, BNaN | BInf _, BInf _ => BNaN
  | BInf s, BFin s' _ _ => BInf (xorb s s')
  | BFin s _ _, BInf s' => BFin (xorb s s') 0 0
  | BFin s m e, BFin s' m' e' =>
      if (m' =? 0)%Z then (if (m =? 0)%Z then BNaN else BInf (xorb s s'))
      else pack (xorb s s') (round m m' (e - e'))
  end.

(** The remainder [%], exact, with the sign of the dividend. *)
Definition b64_rem (x y : b64) : b64 :=
  match x, y with
  | BNaN, _ | _, BNaN | BInf _, _ => BNaN
  | BFin _ _ _, BInf _ => x
  | BFin s m e, BFin _ m' e' =>
      if (m' =? 0)%Z then BNaN else
      let d := Z.min e e' in
      pack s (round (Z.shiftl m (e - d) mod Z.shiftl m' (e' - d)) 1 d)
  end.

(** [Math.floor] *)
Definition b64_floor (x : b64) : b64 :=
  match x with
  | BFin s m e =>
      if (0 <=? e)%Z then x else
      let n := (signed s m / 2 ^ (- e))%Z in
      if (n =? 0)%Z then BFin s 0 0 else pack s (round (Z.abs n) 1 0)
  | _ => x
  end.

Definition b64_abs (x : b64) : b64 :=
  match x with BNaN => BNaN | BInf _ => BInf false | BFin _ m e => BFin false m e end.

(** ** Order *)

(** The magnitude in units of [2^-1074]; infinities are beyond every finite number. *)
Definition magnitude (m e : Z) : Z := (m * 2 ^ (e + 1074))%Z.
Definition limit : Z := (2 ^ 2098)%Z.

Definition b64_compare (x y : b64) : option comparison :=
  match x, y with
  | BNaN, _ | _, BNaN => None
  | BInf s, BInf s' => Some (if Bool.eqb s s' then Eq else if s then Lt else Gt)
  | BInf s, BFin _ _ _ => Some (if s then Lt else Gt)
  | BFin _ _ _, BInf s => Some (if s then Gt else Lt)
  | BFin s m e, BFin s' m' e' =>
      let d := Z.min e e' in
      Some (Z.compare (signed s (Z.shiftl m (e - d))) (signed s' (Z.shiftl m' (e' - d))))
  end.

Definition b64_lt (x y : b64) : bool := match b64_compare x y with Some Lt => true | _ => false end.
Definition b64_le (x y : b64) : bool := match b64_compare x y with Some (Lt | Eq) => true | _ => false end.
Definition b64_eq (x y : b64) : bool := match b64_compare x y with Some Eq => true | _ => false end.

Definition is_nan (x : b64) : bool := match x with BNaN => true | _ => false end.
Definition sign_bit (x : b64) : bool := match x with BNaN => false | BInf s | BFin s _ _ => s end.

(** [Math.max] and [Math.min] of two numbers; -0 is below +0. *)
Definition b64_max (x y : b64) : b64 :=
  if is_nan x || is_nan y then BNaN
  else if b64_lt x y || (b64_eq x y && sign_bit x) then y else x.
Definition b64_min (x y : b64) : b64 :=
  if is_nan x || is_nan y then BNaN
  else if b64_lt y x || (b64_eq x y && sign_bit y) then y else x.

(** [Number.isFinite] and [Number.isInteger] *)
Definition b64_finite (x : b64) : bool := match x with BFin _ _ _ => true | _ => false end.
Definition b64_integer (x : b64) : bool :=
  match x with BFin _ _ _ => b64_eq (b64_floor x) x | _ => false end.

(** The integer a number is, rounded down. *)
Definition b64_to_Z (x : b64) : Z :=
  match x with
  | BFin s m e => if (0 <=? e)%Z then signed s (Z.shiftl m e) else (signed s m / 2 ^ (- e))%Z
  | _ => 0%Z
  end.

(** ** Rounding of magnitudes *)

(** The multiple of the unit in the last place nearest to [p / q]. *)
Definition round_mag (p q : Z) : Z :=
  let d := Z.max 0 (Z.log2 (p / q) - 52) in (half_even p (q * 2 ^ d) * 2 ^ d)%Z.

Lemma half_even_bounds a b : (0 < b)%Z → (a / b ≤ half_even a b ≤ a / b + 1)%Z.
Proof. intros Hb. unfold half_even. cbv zeta. destruct (Z.compare _ _); [destruct (Z.even _)|..]; lia. Qed.

(** Rounding to integers depends on the ratio only, monotonically. *)
Lemma half_even_mono a b c d :
  (0 < b)%Z → (0 < d)%Z → (a * d ≤ c * b)%Z → (half_even a b ≤ half_even c d)%Z.
Proof.
  intros Hb Hd Hr. pose proof (half_even_bounds a b Hb). pose proof (half_even_bounds c d Hd).
  pose proof (Z.div_mod a b ltac:(lia)) as Ea. pose proof (Z.mod_pos_bound a b Hb) as Ra.
  pose proof (Z.div_mod c d ltac:(lia)) as Ec. pose proof (Z.mod_pos_bound c d Hd) as Rc.
  assert (a / b ≤ c / d)%Z as Hq.
  { apply Z.div_le_lower_bound; [done|]. nia. }
  destruct (Z.eq_dec (a / b) (c / d)) as [E|E]; [|lia].
  unfold half_even. cbv zeta. rewrite <- E in *.
  assert (2 * (a - b * (a / b)) * d ≤ 2 * (c - d * (a / b)) * b)%Z as Hrem by nia.
  destruct (Z.compare_spec (2 * (a - b * (a / b))) b), (Z.compare_spec (2 * (c - d * (a / b))) d);
    try (destruct (Z.even _)); try lia; exfalso; nia.
Qed.

Lemma half_even_ratio a b c d :
  (0 < b)%Z → (0 < d)%Z → (a * d = c * b)%Z → half_even a b = half_even c d.
Proof. intros Hb Hd E. pose proof (half_even_mono a b c d). pose proof (half_even_mono c d a b). lia. Qed.

Lemma half_even_exact a b : (0 < b)%Z → half_even (a * b) b = a.
Proof.
  intros Hb. unfold half_even. cbv zeta. rewrite Z.div_mul by lia.
  replace (2 * (a * b - b * a))%Z with 0%Z by lia. destruct (Z.compare_spec 0 b); lia.
Qed.

Lemma half_even_pos a b : (0 < b)%Z → (0 ≤ a)%Z → (0 ≤ half_even a b)%Z.
Proof. intros Hb Ha. pose proof (half_even_bounds a b Hb). pose proof (Z.div_pos a b Ha Hb). lia. Qed.

Definition ulp_exponent (f : Z) : Z := Z.max 0 (Z.log2 f - 52).

(** The rounded mantissa has at most 53 bits, and exactly 53 above the least exponent. *)
Lemma round_mag_mantissa p q :
  (0 ≤ p)%Z → (0 < q)%Z →
  let d := ulp_exponent (p / q) in let m := half_even p (q * 2 ^ d) in
  (0 ≤ m ≤ 2 ^ 53 ∧ (0 < d → 2 ^ 52 ≤ m))%Z.
Proof.
  intros Hp Hq d m. assert (0 ≤ d)%Z as Hd by (unfold d, ulp_exponent; lia).
  pose proof (Z.pow_pos_nonneg 2 d ltac:(lia) Hd) as H2.
  pose proof (half_even_bounds p (q * 2 ^ d) ltac:(nia)) as Hm. fold m in Hm.
  rewrite <- Z.div_div in Hm by lia. set (f := (p / q)%Z) in *.
  assert (0 ≤ f)%Z as Hf by (apply Z.div_pos; lia).
  destruct (Z.eq_dec f 0) as [E|Hne].
  { rewrite E, Z.div_0_l in Hm by lia. unfold d, ulp_exponent. rewrite E. cbn. lia. }
  pose proof (Z.log2_spec f ltac:(lia)) as [Hlo Hhi].
  assert (f / 2 ^ d < 2 ^ 53)%Z.
  { apply Z.div_lt_upper_bound; [lia|]. rewrite <- Z.pow_add_r by lia.
    eapply Z.lt_le_trans; [exact Hhi|]. apply Z.pow_le_mono_r; unfold d, ulp_exponent; lia. }
  split; [pose proof (Z.div_pos f (2 ^ d)); lia|]. intros Hpos.
  assert (2 ^ 52 ≤ f / 2 ^ d)%Z; [|lia].
  apply Z.div_le_lower_bound; [lia|]. rewrite <- Z.pow_add_r by lia.
  replace (d + 52)%Z with (Z.log2 f) by (unfold d, ulp_exponent in *; lia). done.
Qed.

Lemma round_mag_mono p q p' q' :
  (0 ≤ p)%Z → (0 < q)%Z → (0 < q')%Z → (p * q' ≤ p' * q)%Z → (round_mag p q ≤ round_mag p' q')%Z.
Proof.
  intros Hp Hq Hq' Hr. assert (0 ≤ p')%Z as Hp' by nia.
  pose proof (round_mag_mantissa p q Hp Hq) as [[Hm0 Hm] _].
  pose proof (round_mag_mantissa p' q' Hp' Hq') as [[Hm0' _] Hm'].
  unfold round_mag. fold (ulp_exponent (p / q)) (ulp_exponent (p' / q')).
  assert (p / q ≤ p' / q')%Z as Hf.
  { pose proof (Z.mul_div_le p q Hq). apply Z.div_le_lower_bound; [done|]. nia. }
  assert (ulp_exponent (p / q) ≤ ulp_exponent (p' / q'))%Z as Hd
    by (unfold ulp_exponent; pose proof (Z.log2_le_mono _ _ Hf); lia).
  set (d := ulp_exponent (p / q)) in *. set (d' := ulp_exponent (p' / q')) in *.
  assert (0 ≤ d)%Z as Hd0 by (unfold d, ulp_exponent; lia).
  pose proof (Z.pow_pos_nonneg 2 d ltac:(lia) Hd0) as H2.
  destruct (Z.eq_dec d d') as [E|Hne].
  - rewrite <- E. apply Z.mul_le_mono_nonneg_r; [lia|]. apply half_even_mono; nia.
  - transitivity (2 ^ 53 * 2 ^ d)%Z; [apply Z.mul_le_mono_nonneg_r; lia|].
    transitivity (2 ^ 52 * 2 ^ d')%Z; [|specialize (Hm' ltac:(lia)); apply Z.mul_le_mono_nonneg_r; lia].
    rewrite <- !Z.pow_add_r by lia. apply Z.pow_le_mono_r; lia.
Qed.

Lemma round_mag_ratio p q p' q' :
  (0 ≤ p)%Z → (0 < q)%Z → (0 < q')%Z → (p * q' = p' * q)%Z → round_mag p q = round_mag p' q'.
Proof.
  intros Hp Hq Hq' E. assert (0 ≤ p')%Z as Hp' by nia.
  pose proof (round_mag_mono p q p' q'). pose proof (round_mag_mono p' q' p q). lia.
Qed.

(** Numbers of at most 53 significant bits are not changed. *)
Lemma round_mag_exact k d : (0 ≤ k ≤ 2 ^ 53)%Z → (0 ≤ d)%Z → round_mag (k * 2 ^ d) 1 = (k * 2 ^ d)%Z.
Proof.
  intros Hk Hd. unfold round_mag. fold (ulp_exponent (k * 2 ^ d / 1)). rewrite Z.div_1_r, Z.mul_1_l.
  set (n := (k * 2 ^ d)%Z). set (u := ulp_exponent n). pose proof (Z.pow_pos_nonneg 2 d ltac:(lia) Hd) as H2.
  assert (0 ≤ u)%Z as Hu by (unfold u, ulp_exponent; lia).
  assert (∃ c, n = (c * 2 ^ u)%Z) as [c Hc].
  { destruct (Z.le_gt_cases u d).
    { exists (k * 2 ^ (d - u))%Z. unfold n. rewrite <- Z.mul_assoc, <- Z.pow_add_r by lia. do 2 f_equal. lia. }
    assert (u = Z.log2 n - 52)%Z as Eu by (unfold u, ulp_exponent in *; lia).
    destruct (Z.eq_dec n 0) as [E|Hn]; [exists 0%Z; lia|].
    pose proof (Z.log2_spec n ltac:(unfold n in *; nia)) as [Hlo _].
    assert (2 ^ (Z.log2 n) ≤ 2 ^ (53 + d))%Z as Hle
      by (etransitivity; [exact Hlo|]; unfold n; rewrite Z.pow_add_r by lia; nia).
    apply Z.pow_le_mono_r_iff in Hle; [|lia..].
    assert (u = d + 1)%Z as Ed by lia. exists (2 ^ 52)%Z.
    assert (n ≤ 2 ^ 53 * 2 ^ d)%Z by (unfold n; nia).
    replace (Z.log2 n) with (53 + d)%Z in Hlo by lia. rewrite Z.pow_add_r in Hlo by lia.
    rewrite Ed, Z.pow_add_r by lia. lia. }
  rewrite Hc. rewrite half_even_exact; [done|]. apply Z.pow_pos_nonneg; lia.
Qed.

Lemma round_mag_pos p q : (0 ≤ p)%Z → (0 < q)%Z → (0 ≤ round_mag p q)%Z.
Proof.
  intros Hp Hq. unfold round_mag. apply Z.mul_nonneg_nonneg; [|apply Z.pow_nonneg; lia].
  apply half_even_pos; [|done]. apply Z.mul_pos_pos; [done|]. apply Z.pow_pos_nonneg; lia.
Qed.

(** ** The mantissa and exponent computed *)

Lemma scaled_pos p q e k : (0 ≤ p)%Z → (0 < q)%Z → (0 ≤ (scaled p q e k).1 ∧ 0 < (scaled p q e k).2)%Z.
Proof.
  intros Hp Hq. unfold scaled. destruct (Z.leb_spec k e); cbn [fst snd]; rewrite !Z.shiftl_mul_pow2 by lia;
    pose proof (Z.pow_pos_nonneg 2 (Z.abs (e - k)) ltac:(lia) ltac:(lia)) as H2.
  - rewrite Z.abs_eq in H2 by lia. nia.
  - rewrite Z.abs_neq in H2 by lia. replace (- (e - k))%Z with (k - e)%Z in H2 by lia. nia.
Qed.

(** The same number in smaller units. *)
Lemma scaled_shift p q e j k :
  (j ≤ k)%Z →
  ((scaled p q e j).1 * (scaled p q e k).2 = (scaled p q e k).1 * ((scaled p q e j).2 * 2 ^ (k - j)))%Z.
Proof.
  intros Hj. unfold scaled. destruct (Z.leb_spec k e), (Z.leb_spec j e); cbn [fst snd]; try lia;
    rewrite ?Z.shiftl_mul_pow2 by lia.
  - replace (e - j)%Z with ((e - k) + (k - j))%Z by lia. rewrite Z.pow_add_r by lia. lia.
  - replace (k - j)%Z with ((k - e) + (e - j))%Z by lia. rewrite Z.pow_add_r by lia. lia.
  - replace (k - e)%Z with ((k - j) + (j - e))%Z by lia. rewrite Z.pow_add_r by lia. lia.
Qed.

Lemma div_ratio a b c d : (0 < b)%Z → (0 < d)%Z → (a * d = c * b)%Z → (a / b = c / d)%Z.
Proof.
  intros Hb Hd E. rewrite <- (Z.div_mul_cancel_r a b d) by lia. rewrite E.
  rewrite (Z.mul_comm b d), Z.div_mul_cancel_r by lia. done.
Qed.

(** The first guess of the exponent leaves 53 or 54 bits, or is the least one. *)
Lemma guess_bounds p q e :
  (0 < p)%Z → (0 < q)%Z →
  let f := scaled p q e (Z.log2 p - Z.log2 q + e - 53) in (2 ^ 52 ≤ f.1 / f.2 < 2 ^ 54)%Z.
Proof.
  intros Hp Hq f. pose proof (Z.log2_spec p Hp) as [Pl Ph]. pose proof (Z.log2_spec q Hq) as [Ql Qh].
  pose proof (Z.log2_nonneg p). pose proof (Z.log2_nonneg q).
  pose proof (scaled_pos p q e (Z.log2 p - Z.log2 q + e - 53) ltac:(lia) Hq) as [_ Hf]. fold f in Hf.
  assert (2 ^ 52 * f.2 ≤ f.1 ∧ f.1 < 2 ^ 54 * f.2)%Z as [Hl Hu].
  { subst f. unfold scaled in *. destruct (Z.leb_spec (Z.log2 p - Z.log2 q + e - 53) e); cbn [fst snd] in *;
      rewrite Z.shiftl_mul_pow2 in * by lia.
    - set (n := (e - (Z.log2 p - Z.log2 q + e - 53))%Z) in *.
      pose proof (Z.pow_pos_nonneg 2 n ltac:(lia) ltac:(lia)).
      assert (2 ^ (Z.log2 p) * 2 ^ n = 2 ^ 53 * 2 ^ (Z.log2 q))%Z as E
        by (rewrite <- !Z.pow_add_r by lia; f_equal; lia).
      rewrite !Z.pow_succ_r in * by lia. nia.
    - set (n := (Z.log2 p - Z.log2 q + e - 53 - e)%Z) in *.
      pose proof (Z.pow_pos_nonneg 2 n ltac:(lia) ltac:(lia)).
      assert (2 ^ (Z.log2 p) = 2 ^ 53 * (2 ^ (Z.log2 q) * 2 ^ n))%Z as E
        by (rewrite <- !Z.pow_add_r by lia; f_equal; lia).
      rewrite !Z.pow_succ_r in * by lia. nia. }
  split; [apply Z.div_le_lower_bound; lia|apply Z.div_lt_upper_bound; lia].
Qed.

Lemma log2_shift f n : (0 ≤ f)%Z → (0 ≤ n)%Z → (0 < f / 2 ^ n)%Z → Z.log2 f = (Z.log2 (f / 2 ^ n) + n)%Z.
Proof.
  intros Hf Hn Hq. assert (f ≠ 0%Z) by (intros ->; by rewrite Z.div_0_l in Hq by (apply Z.pow_nonzero; lia)).
  assert (n ≤ Z.log2 f)%Z.
  { destruct (Z.le_gt_cases n (Z.log2 f)); [done|]. rewrite Z.div_small in Hq; [lia|].
    split; [done|]. apply Z.log2_lt_pow2; lia. }
  rewrite <- Z.shiftr_div_pow2, Z.log2_shiftr by lia. lia.
Qed.

(** The exponent [round] settles on is the exponent of the unit in the last place. *)
Lemma round_exponent p q e :
  (0 < p)%Z → (0 < q)%Z →
  let k := Z.max (-1074) (Z.log2 p - Z.log2 q + e - 53) in
  let f := scaled p q e k in let u := scaled p q e (-1074) in
  ((if 2 ^ 53 <=? f.1 / f.2 then k + 1 else k) + 1074 = ulp_exponent (u.1 / u.2))%Z.
Proof.
  intros Hp Hq k f u. set (g := (Z.log2 p - Z.log2 q + e - 53)%Z) in *.
  pose proof (guess_bounds p q e Hp Hq) as Hg. fold g in Hg. cbv zeta in Hg.
  assert (∀ j, 0 < (scaled p q e j).2)%Z as Hpos by (intros j; apply scaled_pos; lia).
  assert (∀ j i, (i ≤ j)%Z → (scaled p q e j).1 / (scaled p q e j).2
      = (scaled p q e i).1 / (scaled p q e i).2 / 2 ^ (j - i))%Z as Hshift.
  { intros j i Hi. pose proof (Z.pow_pos_nonneg 2 (j - i) ltac:(lia) ltac:(lia)).
    rewrite Z.div_div by (try lia; pose proof (Hpos i); lia).
    apply div_ratio; [apply Hpos|apply Z.mul_pos_pos; [apply Hpos|done]|].
    symmetry. apply scaled_shift. done. }
  destruct (Z.le_gt_cases g (-1074)) as [Hle|Hgt].
  - assert (k = -1074)%Z as Ek by lia. subst f u. rewrite Ek. set (F := (_ / _)%Z).
    assert (F < 2 ^ 54)%Z as HF.
    { pose proof (Hshift (-1074)%Z g Hle) as E. fold F in E. rewrite E.
      pose proof (Z.pow_pos_nonneg 2 (-1074 - g) ltac:(lia) ltac:(lia)). apply Z.div_lt_upper_bound; [lia|]. nia. }
    unfold ulp_exponent. destruct (Z.leb_spec (2 ^ 53) F) as [HF'|HF'].
    + assert (Z.log2 F = 53)%Z as -> by (apply Z.log2_unique; lia). lia.
    + assert (Z.log2 F ≤ 52)%Z; [|lia]. destruct (Z.le_gt_cases F 0); [rewrite Z.log2_nonpos by lia; lia|].
      assert (Z.log2 F < 53)%Z; [apply Z.log2_lt_pow2; lia|lia].
  - assert (k = g) as Ek by lia. subst f u. rewrite Ek. set (F := (_ / _)%Z) in Hg |- *.
    pose proof (Hshift g (-1074)%Z ltac:(lia)) as E. fold F in E.
    set (U := ((scaled p q e (-1074)).1 / (scaled p q e (-1074)).2)%Z) in E |- *.
    assert (0 ≤ U)%Z as HU by (apply Z.div_pos; [apply scaled_pos; lia|apply Hpos]).
    unfold ulp_exponent. rewrite (log2_shift U (g - -1074)) by (rewrite <- ?E; lia). rewrite <- E.
    destruct (Z.leb_spec (2 ^ 53) F) as [HF'|HF'].
    + assert (Z.log2 F = 53)%Z as -> by (apply Z.log2_unique; lia). lia.
    + assert (Z.log2 F = 52)%Z as -> by (apply Z.log2_unique; lia). lia.
Qed.

Lemma round_units p q e :
  (0 ≤ p)%Z → (0 < q)%Z →
  let r := round p q e in let u := scaled p q e (-1074) in
  (0 ≤ r.1 ≤ 2 ^ 53 ∧ -1074 ≤ r.2 ∧ magnitude r.1 r.2 = round_mag u.1 u.2)%Z.
Proof.
  intros Hp Hq r u. pose proof (scaled_pos p q e (-1074) Hp Hq) as Hu. fold u in Hu.
  set (k := Z.max (-1074) (Z.log2 p - Z.log2 q + e - 53)) in *.
  set (d := (if 2 ^ 53 <=? (scaled p q e k).1 / (scaled p q e k).2 then k + 1 else k)%Z).
  assert (-1074 ≤ d)%Z as Hd by (unfold d, k; destruct (_ <=? _)%Z; lia).
  pose proof (Z.pow_pos_nonneg 2 (d + 1074) ltac:(lia) ltac:(lia)) as H2.
  assert (half_even (scaled p q e d).1 (scaled p q e d).2 = half_even u.1 (u.2 * 2 ^ (d + 1074))) as Em.
  { pose proof (scaled_pos p q e d Hp Hq). apply half_even_ratio; [lia|nia|].
    pose proof (scaled_shift p q e (-1074) d Hd) as E. fold u in E.
    replace (d - -1074)%Z with (d + 1074)%Z in E by lia. lia. }
  set (m := half_even (scaled p q e d).1 (scaled p q e d).2) in *.
  assert (0 ≤ m ≤ 2 ^ 53 ∧ m * 2 ^ (d + 1074) = round_mag u.1 u.2)%Z as [Hm Hr].
  { destruct (Z.eq_dec p 0) as [->|Hne].
    - assert (u.1 = 0%Z) as E0 by (subst u; unfold scaled; case_match; cbn [fst]; by rewrite ?Z.shiftl_0_l).
      assert (∀ b, (0 < b)%Z → half_even 0 b = 0%Z) as H0 by (intros b Hb; by apply (half_even_exact 0 b)).
      rewrite Em. unfold round_mag. rewrite E0, !H0 by nia. lia.
    - pose proof (round_exponent p q e ltac:(lia) Hq) as E. cbv zeta in E. fold k d u in E.
      pose proof (round_mag_mantissa u.1 u.2 ltac:(lia) ltac:(lia)) as [Hm _]. rewrite <- E, <- Em in Hm.
      split; [exact Hm|]. unfold round_mag. fold (ulp_exponent (u.1 / u.2)). by rewrite <- E, <- Em. }
  assert (r = if (m =? 2 ^ 53)%Z then ((2 ^ 52)%Z, (d + 1)%Z) else (m, d)) as -> by done.
  destruct (Z.eqb_spec m (2 ^ 53)) as [E|E]; cbn [fst snd]; split_and!; try lia.
  - rewrite <- Hr, E. unfold magnitude. replace (d + 1 + 1074)%Z with (Z.succ (d + 1074)) by lia.
    rewrite Z.pow_succ_r by lia. lia.
  - exact Hr.
Qed.

(** ** Values *)

(** A number as an integer of units; infinities are beyond the finite numbers. *)
Definition units (x : b64) : Z :=
  match x with BNaN => 0 | BInf s => signed s limit | BFin s m e => signed s (magnitude m e) end.

(** Numbers of the format. *)
Definition wf (x : b64) : Prop :=
  match x with
  | BFin _ m e => (0 ≤ m ≤ 2 ^ 53 ∧ -1074 ≤ e ∧ magnitude m e < limit)%Z
  | _ => True
  end.

(** The units of an exact result [z / q] after rounding. *)
Definition rounded (z q : Z) : Z := signed (z <? 0)%Z (Z.min (round_mag (Z.abs z) q) limit).

Lemma magnitude_nonneg m e : (0 ≤ m)%Z → (0 ≤ magnitude m e)%Z.
Proof. intros Hm. apply Z.mul_nonneg_nonneg; [done|]. apply Z.pow_nonneg. lia. Qed.

Lemma pack_units s p q e :
  (0 ≤ p)%Z → (0 < q)%Z →
  let u := scaled p q e (-1074) in
  wf (pack s (round p q e)) ∧ is_nan (pack s (round p q e)) = false ∧
  units (pack s (round p q e)) = signed s (Z.min (round_mag u.1 u.2) limit).
Proof.
  intros Hp Hq u. pose proof (round_units p q e Hp Hq) as (Hm & He & Hr). cbv zeta in *. fold u in Hr.
  set (r := round p q e) in *. rewrite <- Hr. unfold pack.
  destruct (Z.eqb_spec r.1 0) as [E0|E0].
  { rewrite E0. split_and!; try done. }
  unfold wf, units. pose proof (Z.log2_spec r.1 ltac:(lia)) as [Hl Hh].
  pose proof (Z.log2_nonneg r.1).
  destruct (Z.leb_spec 1024 (Z.log2 r.1 + r.2)).
  - split_and!; [done..|]. f_equal. rewrite Z.min_r; [done|]. unfold limit, magnitude.
    transitivity (2 ^ (Z.log2 r.1) * 2 ^ (r.2 + 1074))%Z; [|apply Z.mul_le_mono_nonneg_r; [apply Z.pow_nonneg|]; lia].
    rewrite <- Z.pow_add_r by lia. apply Z.pow_le_mono_r; lia.
  - assert (magnitude r.1 r.2 < limit)%Z.
    { unfold limit, magnitude. eapply Z.lt_le_trans.
      { apply Z.mul_lt_mono_pos_r; [apply Z.pow_pos_nonneg; lia|exact Hh]. }
      rewrite <- Z.pow_add_r by lia. apply Z.pow_le_mono_r; lia. }
    split_and!; try done; try lia. by rewrite Z.min_l by lia.
Qed.

Lemma scaled_units p q e a b :
  (0 ≤ a)%Z → (0 ≤ b)%Z → (e + 1074 = a - b)%Z →
  let u := scaled p q e (-1074) in (u.1 * (q * 2 ^ b) = (p * 2 ^ a) * u.2)%Z.
Proof.
  intros Ha Hb E. unfold scaled. destruct (Z.leb_spec (-1074) e); cbn [fst snd]; rewrite Z.shiftl_mul_pow2 by lia.
  - replace a with ((e - -1074) + b)%Z by lia. rewrite Z.pow_add_r by lia. lia.
  - replace b with ((-1074 - e) + a)%Z by lia. rewrite Z.pow_add_r by lia. lia.
Qed.

Lemma pack_value s p q e a b :
  (0 ≤ p)%Z → (0 < q)%Z → (0 ≤ a)%Z → (0 ≤ b)%Z → (e + 1074 = a - b)%Z →
  let x := pack s (round p q e) in
  wf x ∧ is_nan x = false ∧ units x = signed s (Z.min (round_mag (p * 2 ^ a) (q * 2 ^ b)) limit).
Proof.
  intros Hp Hq Ha Hb E x. destruct (pack_units s p q e Hp Hq) as (Hw & Hn & Hu). split_and!; [done..|].
  subst x. rewrite Hu. pose proof (scaled_pos p q e (-1074) Hp Hq).
  pose proof (Z.pow_pos_nonneg 2 b ltac:(lia) Hb). do 2 f_equal.
  apply round_mag_ratio; [lia..|nia|]. by apply scaled_units.
Qed.

Lemma shiftl_units s m e d :
  (-1074 ≤ d ≤ e)%Z → (signed s (Z.shiftl m (e - d)) * 2 ^ (d + 1074) = signed s (magnitude m e))%Z.
Proof.
  intros Hd. rewrite Z.shiftl_mul_pow2 by lia. unfold magnitude.
  replace (e + 1074)%Z with ((e - d) + (d + 1074))%Z by lia. rewrite (Z.pow_add_r 2 (e - d)) by lia. destruct s; unfold signed; ring.
Qed.

(** The order of numbers is the order of their units. *)
Lemma compare_units x y :
  wf x → wf y → is_nan x = false → is_nan y = false → b64_compare x y = Some (Z.compare (units x) (units y)).
Proof.
  destruct x as [|s|s m e], y as [|s'|s' m' e']; try done; intros Hx Hy _ _; cbn [b64_compare units].
  - by destruct s, s'.
  - destruct Hy as (Hm & He & Hl). pose proof (magnitude_nonneg m' e' ltac:(lia)).
    f_equal. destruct s, s'; cbn [signed]; symmetry; rewrite ?Z.compare_lt_iff, ?Z.compare_gt_iff; lia.
  - destruct Hx as (Hm & He & Hl). pose proof (magnitude_nonneg m e ltac:(lia)).
    f_equal. destruct s, s'; cbn [signed]; symmetry; rewrite ?Z.compare_lt_iff, ?Z.compare_gt_iff; lia.
  - destruct Hx as (_ & He & _), Hy as (_ & He' & _). f_equal.
    pose proof (shiftl_units s m e (Z.min e e') ltac:(lia)) as E.
    pose proof (shiftl_units s' m' e' (Z.min e e') ltac:(lia)) as E'.
    rewrite <- E, <- E'. apply Zmult_compare_compat_r, Z.lt_gt, Z.pow_pos_nonneg; lia.
Qed.

(** ** The operations on values *)

Definition finite (x : b64) : Prop := wf x ∧ b64_finite x = true.

Lemma finite_inv x : finite x → ∃ s m e, x = BFin s m e ∧ (0 ≤ m ≤ 2 ^ 53 ∧ -1074 ≤ e ∧ magnitude m e < limit)%Z.
Proof. intros [Hw Hf]. destruct x as [| |s m e]; try done. by exists s, m, e. Qed.

Lemma signed_abs s z : (s = (z <? 0)%Z ∨ z = 0%Z) → signed s (Z.abs z) = z.
Proof. intros [->| ->]; [|by destruct s]. destruct (Z.ltb_spec z 0); cbn; lia. Qed.

Lemma scale_sign z c : (0 < c)%Z → (z * c <? 0)%Z = (z <? 0)%Z.
Proof.
  intros Hc. destruct (Z.ltb_spec z 0); [apply Z.ltb_lt, Z.mul_neg_pos; done|apply Z.ltb_ge, Z.mul_nonneg_nonneg; lia].
Qed.

Lemma limit_pos : (0 < limit)%Z.
Proof. apply Z.pow_pos_nonneg; lia. Qed.

Lemma rounded_zero q : (0 < q)%Z → rounded 0 q = 0%Z.
Proof.
  intros Hq. unfold rounded. change (Z.abs 0) with 0%Z. rewrite (round_mag_ratio 0 q (0 * 2 ^ 0) 1) by lia.
  rewrite round_mag_exact by lia. pose proof limit_pos. by rewrite Z.min_l by lia.
Qed.

Lemma add_value x y :
  finite x → finite y →
  wf (b64_add x y) ∧ is_nan (b64_add x y) = false ∧ units (b64_add x y) = rounded (units x + units y) 1.
Proof.
  intros (s & m & e & -> & Hx)%finite_inv (s' & m' & e' & -> & Hy)%finite_inv. cbn [b64_add units].
  set (d := Z.min e e'). rewrite <- (shiftl_units s m e d), <- (shiftl_units s' m' e' d) by lia.
  rewrite <- Z.mul_add_distr_r. set (z := (_ + _)%Z).
  pose proof (Z.pow_pos_nonneg 2 (d + 1074) ltac:(lia) ltac:(lia)).
  destruct (Z.eqb_spec z 0) as [E|E].
  - rewrite E. cbn [Z.mul]. rewrite rounded_zero by lia. unfold wf, units, magnitude. split_and!; try done. by destruct s, s'.
  - destruct (pack_value (z <? 0)%Z (Z.abs z) 1 d (d + 1074) 0) as (Hw & Hn & Hu); try lia.
    split_and!; [done..|]. rewrite Hu. unfold rounded. rewrite Z.abs_mul, (Z.abs_eq (2 ^ (d + 1074))) by lia.
    by rewrite scale_sign.
Qed.

Lemma mul_value x y :
  finite x → finite y →
  wf (b64_mul x y) ∧ is_nan (b64_mul x y) = false ∧ units (b64_mul x y) = rounded (units x * units y) (2 ^ 1074).
Proof.
  intros (s & m & e & -> & Hx)%finite_inv (s' & m' & e' & -> & Hy)%finite_inv. cbn [b64_mul units].
  destruct (pack_value (xorb s s') (m * m') 1 (e + e') (e + 1074 + (e' + 1074)) 1074) as (Hw & Hn & Hu); try lia.
  split_and!; [done..|]. rewrite Hu. rewrite Z.mul_1_l, Z.pow_add_r by lia.
  replace (m * m' * (2 ^ (e + 1074) * 2 ^ (e' + 1074)))%Z with (magnitude m e * magnitude m' e')%Z
    by (unfold magnitude; lia).
  pose proof (magnitude_nonneg m e ltac:(lia)) as Ha. pose proof (magnitude_nonneg m' e' ltac:(lia)) as Hb.
  generalize (magnitude m e) (magnitude m' e') Ha Hb. intros a b Ha' Hb'. unfold rounded.
  destruct (Z.eq_dec (a * b) 0) as [E|E].
  - rewrite E. replace (signed s a * signed s' b)%Z with 0%Z by (destruct s, s'; cbn; lia).
    cbn [Z.abs]. replace (Z.min _ _) with 0%Z; [by destruct s, s'|].
    pose proof (rounded_zero (2 ^ 1074) ltac:(lia)) as H0. unfold rounded in H0. change (Z.abs 0) with 0%Z in H0. cbn [signed Z.ltb Z.compare] in H0. by rewrite H0.
  - assert (0 < a * b)%Z by nia.
    destruct s, s'; cbn [signed xorb]; rewrite ?Z.mul_opp_opp, ?Z.mul_opp_l, ?Z.mul_opp_r, ?Z.abs_opp, ?Z.abs_eq by lia;
      [rewrite (proj2 (Z.ltb_ge _ _)) by lia|rewrite (proj2 (Z.ltb_lt _ _)) by lia|
       rewrite (proj2 (Z.ltb_lt _ _)) by lia|rewrite (proj2 (Z.ltb_ge _ _)) by lia]; done.
Qed.

(** Division of a number by a positive one. *)
Lemma div_value x y :
  finite x → finite y → (0 < units y)%Z →
  wf (b64_div x y) ∧ is_nan (b64_div x y) = false ∧ units (b64_div x y) = rounded (units x * 2 ^ 1074) (units y).
Proof.
  intros (s & m & e & -> & Hx)%finite_inv (s' & m' & e' & -> & Hy)%finite_inv Hpos. cbn [b64_div units] in *.
  pose proof (magnitude_nonneg m' e' ltac:(lia)) as Hb.
  destruct s'; cbn [signed xorb] in *; [lia|].
  destruct (Z.eqb_spec m' 0) as [->|Hne]; [unfold magnitude in Hpos; lia|].
  rewrite xorb_false_r.
  destruct (pack_value s m m' (e - e') (e + 1074 + 1074) (e' + 1074)) as (Hw & Hn & Hu); try lia.
  split_and!; [done..|]. rewrite Hu. fold (magnitude m' e'). rewrite Z.pow_add_r by lia.
  replace (m * (2 ^ (e + 1074) * 2 ^ 1074))%Z with (magnitude m e * 2 ^ 1074)%Z by (unfold magnitude; lia).
  pose proof (magnitude_nonneg m e ltac:(lia)) as Ha. revert Ha Hpos. generalize (magnitude m e) (magnitude m' e').
  intros a b Ha Hpos. unfold rounded. destruct s; cbn [signed].
  - rewrite Z.mul_opp_l, Z.abs_opp, Z.abs_eq by lia. destruct (Z.ltb_spec (- (a * 2 ^ 1074)) 0); [done|].
    assert (a = 0%Z) as -> by lia. pose proof (rounded_zero b Hpos) as H0. unfold rounded in H0. change (Z.abs 0) with 0%Z in H0. cbn [signed Z.ltb Z.compare] in H0. by rewrite Z.mul_0_l, H0.
  - rewrite Z.abs_eq by lia. by rewrite (proj2 (Z.ltb_ge _ _)) by lia.
Qed.

(** ** Monotonicity and exactness *)

(** One, in units. *)
Definition U : Z := (2 ^ 1074)%Z.
Lemma U_pos : (0 < U)%Z.
Proof. apply Z.pow_pos_nonneg; lia. Qed.

Lemma rounded_nonneg z q : (0 < q)%Z → (0 ≤ z)%Z → rounded z q = Z.min (round_mag z q) limit.
Proof. intros Hq Hz. unfold rounded. rewrite Z.abs_eq by done. by rewrite (proj2 (Z.ltb_ge _ _)). Qed.

Lemma rounded_opp z q : (0 < q)%Z → rounded (- z) q = (- rounded z q)%Z.
Proof.
  intros Hq. destruct (Z.eq_dec z 0) as [->|Hz]; [by rewrite Z.opp_0, (rounded_zero q Hq)|].
  unfold rounded. rewrite Z.abs_opp. destruct (Z.ltb_spec z 0), (Z.ltb_spec (- z) 0); cbn [signed]; lia.
Qed.

Lemma rounded_sign z q : (0 < q)%Z → (0 ≤ z)%Z → (0 ≤ rounded z q ≤ limit)%Z.
Proof.
  intros Hq Hz. rewrite rounded_nonneg by done. pose proof (round_mag_pos z q Hz Hq). pose proof limit_pos. lia.
Qed.

Lemma rounded_mono z q z' q' :
  (0 < q)%Z → (0 < q')%Z → (z * q' ≤ z' * q)%Z → (rounded z q ≤ rounded z' q')%Z.
Proof.
  intros Hq Hq' Hz. destruct (Z.le_gt_cases 0 z) as [Hp|Hn].
  - rewrite !rounded_nonneg by nia. pose proof (round_mag_mono z q z' q' Hp Hq Hq' Hz). lia.
  - destruct (Z.le_gt_cases 0 z') as [Hp'|Hn'].
    + pose proof (rounded_sign z' q' Hq' Hp'). pose proof (rounded_sign (- z) q Hq ltac:(lia)) as Hs.
      rewrite rounded_opp in Hs by done. lia.
    + rewrite <- (Z.opp_involutive z), <- (Z.opp_involutive z'), !(rounded_opp (- _)) by done.
      rewrite !rounded_nonneg by lia.
      pose proof (round_mag_mono (- z') q' (- z) q ltac:(lia) Hq' Hq ltac:(lia)). lia.
Qed.

Lemma rounded_le z z' q : (0 < q)%Z → (z ≤ z')%Z → (rounded z q ≤ rounded z' q)%Z.
Proof. intros Hq Hz. apply rounded_mono; [done..|]. apply Z.mul_le_mono_nonneg_r; lia. Qed.

(** Results of at most 53 significant bits are exact. *)
Lemma rounded_exact s k d q :
  (0 ≤ k ≤ 2 ^ 53)%Z → (0 ≤ d)%Z → (0 < q)%Z → (k * 2 ^ d < limit)%Z →
  rounded (signed s (k * 2 ^ d) * q) q = signed s (k * 2 ^ d).
Proof.
  intros Hk Hd Hq Hl. pose proof (Z.pow_pos_nonneg 2 d ltac:(lia) Hd) as H2.
  assert (rounded (k * 2 ^ d * q) q = k * 2 ^ d)%Z as E.
  { rewrite rounded_nonneg by nia. rewrite (round_mag_ratio _ q (k * 2 ^ d) 1) by nia.
    rewrite round_mag_exact by done. lia. }
  destruct s; cbn [signed]; [|done]. by rewrite Z.mul_opp_l, rounded_opp, E by done.
Qed.

Lemma rounded_units x q : finite x → (0 < q)%Z → rounded (units x * q) q = units x.
Proof.
  intros (s & m & e & -> & Hm & He & Hl)%finite_inv Hq. apply rounded_exact; [lia|lia|done|]. exact Hl.
Qed.

Lemma finite_units x : finite x → (- limit < units x < limit)%Z.
Proof.
  intros (s & m & e & -> & Hm & He & Hl)%finite_inv. pose proof (magnitude_nonneg m e ltac:(lia)).
  destruct s; cbn [units signed]; lia.
Qed.

Lemma finite_between x : wf x → is_nan x = false → (- limit < units x < limit)%Z → finite x.
Proof. destruct x as [|s|s m e]; intros Hw Hn Hu; [done| |done]. destruct s; cbn [units signed] in Hu; lia. Qed.

(** ** Ranges *)

(** [x] is a finite number between [lo] and [hi]. *)
Definition in_range (lo x hi : b64) : Prop := finite x ∧ (units lo ≤ units x ≤ units hi)%Z.

Lemma in_range_self x : finite x → in_range x x x.
Proof. intros Hx. split; [done|lia]. Qed.

Lemma in_range_weaken lo hi lo' x hi' :
  in_range lo' x hi' → (units lo ≤ units lo')%Z → (units hi' ≤ units hi)%Z → in_range lo x hi.
Proof. intros [Hx Hu] Hl Hh. split; [done|lia]. Qed.

Lemma range_of (r lo hi : b64) z q :
  wf r → is_nan r = false → units r = rounded z q → finite lo → finite hi →
  (units lo ≤ rounded z q ≤ units hi)%Z → in_range lo r hi.
Proof.
  intros Hw Hn E Hl Hh Hb. split; [|lia].
  pose proof (finite_units _ Hl). pose proof (finite_units _ Hh). apply finite_between; [done|done|lia].
Qed.

Lemma range_add a x b c y d :
  finite a → finite b → finite c → finite d → finite (b64_add a c) → finite (b64_add b d) →
  in_range a x b → in_range c y d → in_range (b64_add a c) (b64_add x y) (b64_add b d).
Proof.
  intros Ha Hb Hc Hd Hl Hh [Hx Hux] [Hy Huy]. destruct (add_value x y Hx Hy) as (Hw & Hn & E).
  apply (range_of _ _ _ _ _ Hw Hn E Hl Hh).
  destruct (add_value a c Ha Hc) as (_ & _ & ->), (add_value b d Hb Hd) as (_ & _ & ->).
  split; apply rounded_le; lia.
Qed.

Lemma range_mul a x b c y d :
  finite a → finite b → finite c → finite d → finite (b64_mul b d) → (0 ≤ units a)%Z → (0 ≤ units c)%Z →
  in_range a x b → in_range c y d → in_range (b64_mul a c) (b64_mul x y) (b64_mul b d).
Proof.
  intros Ha Hb Hc Hd Hh Ha0 Hc0 [Hx Hux] [Hy Huy]. pose proof U_pos.
  destruct (mul_value x y Hx Hy) as (Hw & Hn & E).
  destruct (mul_value a c Ha Hc) as (Hw' & Hn' & E'), (mul_value b d Hb Hd) as (_ & _ & E'').
  assert (rounded (units a * units c) U ≤ rounded (units x * units y) U ≤ rounded (units b * units d) U)%Z as [H1 H2]
    by (split; (apply rounded_le; [done|]); apply Z.mul_le_mono_nonneg; lia).
  pose proof (finite_units _ Hh) as Hb'. rewrite E'' in Hb'. fold U in *.
  pose proof (rounded_sign (units a * units c) U U_pos ltac:(nia)).
  apply (range_of _ _ _ _ _ Hw Hn E); [apply finite_between; [done|done|lia]|done|lia].
Qed.

(** Multiplication by a constant that is not positive. *)
Lemma range_scale_neg c a x b :
  finite a → finite b → finite c → finite (b64_mul c a) → finite (b64_mul c b) → (units c ≤ 0)%Z →
  in_range a x b → in_range (b64_mul c b) (b64_mul c x) (b64_mul c a).
Proof.
  intros Ha Hb Hc Hl Hh Hc0 [Hx Hux]. pose proof U_pos.
  destruct (mul_value c x Hc Hx) as (Hw & Hn & E). apply (range_of _ _ _ _ _ Hw Hn E Hh Hl).
  destruct (mul_value c a Hc Ha) as (_ & _ & ->), (mul_value c b Hc Hb) as (_ & _ & ->).
  fold U. split; (apply rounded_le; [done|]); apply Z.mul_le_mono_nonpos_l; lia.
Qed.

(** ** Integers *)

Definition finiteb (x : b64) : bool :=
  match x with
  | BFin _ m e => (0 <=? m)%Z && (m <=? 2 ^ 53)%Z && (-1074 <=? e)%Z && ((m =? 0) || (Z.log2 m + e <? 1024))%Z
  | _ => false
  end.

Lemma finiteb_spec x : finiteb x = true ↔ finite x.
Proof.
  destruct x as [| |s m e]; [by split; [|intros [_ ?]]..|]. unfold finiteb, finite. cbn [wf b64_finite].
  rewrite !andb_true_iff, !Z.leb_le, orb_true_iff, Z.eqb_eq, Z.ltb_lt.
  assert (0 ≤ m → -1074 ≤ e → (m = 0 ∨ Z.log2 m + e < 1024) ↔ magnitude m e < limit)%Z as Hl; [|tauto].
  intros Hm He. unfold magnitude, limit. destruct (Z.eq_dec m 0) as [->|Hne].
  { split; [intros _; rewrite Z.mul_0_l; apply Z.pow_pos_nonneg; lia|by left]. }
  pose proof (Z.log2_spec m ltac:(lia)) as [Hlo Hhi]. pose proof (Z.log2_nonneg m).
  pose proof (Z.pow_pos_nonneg 2 (e + 1074) ltac:(lia) ltac:(lia)) as H2. split.
  - intros [|Hlog]; [done|]. eapply Z.lt_le_trans; [by apply Z.mul_lt_mono_pos_r; [|exact Hhi]|].
    rewrite <- Z.pow_add_r by lia. apply Z.pow_le_mono_r; lia.
  - intros Hlt. right. assert (2 ^ (Z.log2 m + (e + 1074)) < 2 ^ 2098)%Z as Hp.
    { eapply Z.le_lt_trans; [|exact Hlt]. rewrite Z.pow_add_r by lia. apply Z.mul_le_mono_nonneg_r; lia. }
    apply Z.pow_lt_mono_r_iff in Hp; lia.
Qed.
Lemma finiteb_finite x : finiteb x = true → finite x.
Proof. apply finiteb_spec. Qed.

Lemma U_limit : (2 ^ 53 * U < limit)%Z.
Proof. unfold U, limit. rewrite <- Z.pow_add_r by lia. apply Z.pow_lt_mono_r; lia. Qed.

Lemma rounded_integer z q : (Z.abs z ≤ 2 ^ 53)%Z → (0 < q)%Z → rounded (z * U * q) q = (z * U)%Z.
Proof.
  intros Hz Hq. pose proof U_limit. pose proof U_pos.
  pose proof (rounded_exact (z <? 0)%Z (Z.abs z) 1074 q ltac:(lia) ltac:(lia) Hq ltac:(unfold U in *; nia)) as E.
  replace (signed (z <? 0)%Z (Z.abs z * 2 ^ 1074)) with (z * U)%Z in E; [done|].
  unfold U. destruct (Z.ltb_spec z 0); cbn [signed]; lia.
Qed.

Lemma of_Z_pack z : of_Z z = pack (z <? 0)%Z (round (Z.abs z) 1 0).
Proof. reflexivity. Qed.

Lemma of_Z_value z : (Z.abs z ≤ 2 ^ 53)%Z → finite (of_Z z) ∧ units (of_Z z) = (z * U)%Z.
Proof.
  intros Hz. pose proof U_limit. pose proof U_pos. unfold of_Z.
  destruct (pack_value (z <? 0)%Z (Z.abs z) 1 0 1074 0) as (Hw & Hn & E); try lia.
  assert (units (pack (z <? 0)%Z (round (Z.abs z) 1 0)) = (z * U)%Z) as Eu.
  { rewrite E. fold U. change (1 * 2 ^ 0)%Z with 1%Z. pose proof (rounded_integer z 1 Hz ltac:(lia)) as R.
    rewrite Z.mul_1_r in R. rewrite <- R. unfold rounded. rewrite Z.abs_mul, (Z.abs_eq U) by lia.
    f_equal. symmetry. apply scale_sign, U_pos. }
  split; [|done]. apply finite_between; [done..|]. rewrite Eu. nia.
Qed.

(** The integer part of a number below 2^53. *)
Lemma floor_units s m e :
  (-1074 ≤ e < 0)%Z → (signed s (magnitude m e) / U = signed s m / 2 ^ (- e))%Z.
Proof.
  intros He. apply div_ratio; [exact U_pos|apply Z.pow_pos_nonneg; lia|]. unfold magnitude, U.
  replace 1074%Z with ((e + 1074) + (- e))%Z at 2 by lia. rewrite (Z.pow_add_r 2 (e + 1074) (- e)) by lia.
  destruct s; cbn [signed]; ring.
Qed.

Lemma magnitude_integer m e : (0 ≤ e)%Z → magnitude m e = (m * 2 ^ e * U)%Z.
Proof. intros He. unfold magnitude, U. rewrite Z.pow_add_r by lia. ring. Qed.

Lemma div_abs_bound s m c : (0 ≤ m)%Z → (0 < c)%Z → (Z.abs (signed s m / c) ≤ m ∧ (s = (signed s m / c <? 0) ∨ signed s m / c = 0))%Z.
Proof.
  intros Hm Hc. destruct s; cbn [signed].
  - assert (- m ≤ - m / c)%Z by (apply Z.div_le_lower_bound; [done|nia]).
    assert (- m / c ≤ 0)%Z by (apply Z.div_le_upper_bound; lia).
    split; [lia|]. destruct (Z.ltb_spec (- m / c) 0); [by left|right; lia].
  - assert (m / c ≤ m)%Z by (apply Z.div_le_upper_bound; [done|nia]).
    assert (0 ≤ m / c)%Z by (apply Z.div_pos; lia).
    split; [lia|left]. symmetry. by apply Z.ltb_ge.
Qed.

#[global] Opaque U limit.

Lemma zero_value s : finite (BFin s 0 0) ∧ units (BFin s 0 0) = 0%Z.
Proof.
  assert (magnitude 0 0 = 0)%Z as E by apply Z.mul_0_l. pose proof limit_pos.
  split; [|cbn [units]; rewrite E; by destruct s]. split; [|done]. unfold wf. rewrite E. lia.
Qed.

Lemma floor_value x :
  finite x → finite (b64_floor x) ∧ units (b64_floor x) = (units x / U * U)%Z.
Proof.
  intros Hx. destruct (finite_inv x Hx) as (s & m & e & -> & Hm & He & Hl). cbn [b64_floor units].
  pose proof U_pos. destruct (Z.leb_spec 0 e) as [Hpos|Hneg].
  - split; [exact Hx|]. cbn [units]. rewrite magnitude_integer by done.
    assert (signed s (m * 2 ^ e * U) = signed s (m * 2 ^ e) * U)%Z as -> by (destruct s; cbn [signed]; ring).
    rewrite Z.div_mul by lia. reflexivity.
  - rewrite floor_units by lia.
    destruct (div_abs_bound s m (2 ^ (- e))) as [Hn Hs]; [lia|apply Z.pow_pos_nonneg; lia|].
    revert Hn Hs. generalize (signed s m / 2 ^ (- e))%Z. intros n Hn Hs. destruct (Z.eqb_spec n 0) as [E|E].
    + rewrite E, Z.mul_0_l. apply zero_value.
    + destruct Hs as [->|]; [|contradiction]. rewrite <- of_Z_pack. apply of_Z_value. lia.
Qed.

Lemma integer_units x : finite x → b64_integer x = true → units x = (units x / U * U)%Z.
Proof.
  intros Hx Hi. destruct (floor_value x Hx) as [Hf Hu]. rewrite <- Hu.
  destruct x as [| |s m e]; try done. unfold b64_integer, b64_eq in Hi.
  rewrite compare_units in Hi by (apply Hf || apply Hx || (destruct Hf; by destruct (b64_floor _)) || done).
  destruct (Z.compare_spec (units (b64_floor (BFin s m e))) (units (BFin s m e))); done.
Qed.

(** ** Comparisons *)

Lemma finite_nan x : finite x → wf x ∧ is_nan x = false.
Proof. intros (s & m & e & -> & H)%finite_inv. done. Qed.

Lemma lt_units x y : finite x → finite y → b64_lt x y = (units x <? units y)%Z.
Proof.
  intros [? ?]%finite_nan [? ?]%finite_nan. unfold b64_lt. rewrite compare_units by done. unfold Z.ltb. by destruct (_ ?= _)%Z.
Qed.
Lemma le_units x y : finite x → finite y → b64_le x y = (units x <=? units y)%Z.
Proof.
  intros [? ?]%finite_nan [? ?]%finite_nan. unfold b64_le. rewrite compare_units by done. unfold Z.leb. by destruct (_ ?= _)%Z.
Qed.

Lemma opp_value x : finite x → finite (b64_opp x) ∧ units (b64_opp x) = (- units x)%Z.
Proof.
  intros (s & m & e & -> & H)%finite_inv. cbn [b64_opp]. split; [by split|]. destruct s; cbn [units negb signed]; lia.
Qed.

Lemma max_value x y : finite x → finite y → finite (b64_max x y) ∧ units (b64_max x y) = Z.max (units x) (units y).
Proof.
  intros Hx Hy. destruct (finite_nan _ Hx) as [Wx Nx], (finite_nan _ Hy) as [Wy Ny].
  unfold b64_max. rewrite Nx, Ny, lt_units by done. cbn [orb].
  unfold b64_eq. rewrite compare_units by done.
  destruct (Z.ltb_spec (units x) (units y)); cbn [orb]; [split; [done|lia]|].
  destruct (Z.compare_spec (units x) (units y)); cbn [andb]; [destruct (sign_bit x)|..]; split; try done; lia.
Qed.

Lemma min_value x y : finite x → finite y → finite (b64_min x y) ∧ units (b64_min x y) = Z.min (units x) (units y).
Proof.
  intros Hx Hy. destruct (finite_nan _ Hx) as [Wx Nx], (finite_nan _ Hy) as [Wy Ny].
  unfold b64_min. rewrite Nx, Ny, lt_units by done. cbn [orb].
  unfold b64_eq. rewrite compare_units by done.
  destruct (Z.ltb_spec (units y) (units x)); cbn [orb]; [split; [done|lia]|].
  destruct (Z.compare_spec (units x) (units y)); cbn [andb]; [destruct (sign_bit y)|..]; split; try done; lia.
Qed.

(** ** Monotone operations *)

(** [f] is monotone between [lo] and [hi], and stays between its values there. *)
Definition mono_on (f : b64 → b64) (lo hi : b64) : Prop :=
  ∀ x y, in_range lo x hi → in_range lo y hi → (units x ≤ units y)%Z →
  in_range (f lo) (f x) (f hi) ∧ in_range (f lo) (f y) (f hi) ∧ (units (f x) ≤ units (f y))%Z.

Lemma mono_compose f g lo hi :
  mono_on f lo hi → mono_on g (f lo) (f hi) → mono_on (λ x, g (f x)) lo hi.
Proof. intros Hf Hg x y Hx Hy Hxy. destruct (Hf x y Hx Hy Hxy) as (Rx & Ry & E). by apply Hg. Qed.

(** An operation that rounds a monotone exact result. *)
Lemma mono_rounded f lo hi (g : Z → Z) q :
  (0 < q)%Z → finite lo → finite hi → finite (f lo) → finite (f hi) →
  (∀ x, finite x → wf (f x) ∧ is_nan (f x) = false ∧ units (f x) = rounded (g (units x)) q) →
  (∀ a b, (a ≤ b)%Z → (g a ≤ g b)%Z) → mono_on f lo hi.
Proof.
  intros Hq Hl Hh Fl Fh Hf Hg x y [Hx Ux] [Hy Uy] Hxy.
  assert (∀ a b, finite a → finite b → (units a ≤ units b)%Z → (units (f a) ≤ units (f b))%Z) as M.
  { intros a b Ha Hb Hab. destruct (Hf a Ha) as (_ & _ & ->), (Hf b Hb) as (_ & _ & ->). apply rounded_le; auto. }
  pose proof (finite_units _ Fl). pose proof (finite_units _ Fh).
  assert (∀ z, finite z → (units lo ≤ units z ≤ units hi)%Z → in_range (f lo) (f z) (f hi)) as R.
  { intros z Hz [? ?]. destruct (Hf z Hz) as (Hw & Hn & _).
    pose proof (M lo z Hl Hz ltac:(lia)). pose proof (M z hi Hz Hh ltac:(lia)).
    split; [apply finite_between; [done|done|lia]|lia]. }
  split_and!; auto.
Qed.

Lemma mono_add c lo hi :
  finite c → finite lo → finite hi → finite (b64_add lo c) → finite (b64_add hi c) → mono_on (λ x, b64_add x c) lo hi.
Proof.
  intros Hc Hl Hh Fl Fh. apply (mono_rounded _ _ _ (λ z, z + units c)%Z 1); try done; [|lia].
  intros x Hx. by apply add_value.
Qed.

Lemma mono_mul c lo hi :
  finite c → (0 ≤ units c)%Z → finite lo → finite hi → finite (b64_mul lo c) → finite (b64_mul hi c) →
  mono_on (λ x, b64_mul x c) lo hi.
Proof.
  intros Hc Hc0 Hl Hh Fl Fh. apply (mono_rounded _ _ _ (λ z, z * units c)%Z (2 ^ 1074)); try done.
  - intros x Hx. by apply mul_value.
  - intros a b Hab. by apply Z.mul_le_mono_nonneg_r.
Qed.

Lemma mono_div c lo hi :
  finite c → (0 < units c)%Z → finite lo → finite hi → finite (b64_div lo c) → finite (b64_div hi c) →
  mono_on (λ x, b64_div x c) lo hi.
Proof.
  intros Hc Hc0 Hl Hh Fl Fh. apply (mono_rounded _ _ _ (λ z, z * 2 ^ 1074)%Z (units c)); try done.
  - intros x Hx. by apply div_value.
  - intros a b Hab. apply Z.mul_le_mono_nonneg_r; [apply Z.pow_nonneg; lia|done].
Qed.

Lemma mono_floor lo hi : finite lo → finite hi → mono_on b64_floor lo hi.
Proof.
  intros Hl Hh x y [Hx Ux] [Hy Uy] Hxy. pose proof U_pos.
  assert (∀ a b, finite a → finite b → (units a ≤ units b)%Z → (units (b64_floor a) ≤ units (b64_floor b))%Z) as M.
  { intros a b Ha Hb Hab. destruct (floor_value a Ha) as [_ ->], (floor_value b Hb) as [_ ->].
    apply Z.mul_le_mono_nonneg_r; [lia|]. apply Z.div_le_mono; lia. }
  assert (∀ z, finite z → finite (b64_floor z)) as F by (intros z Hz; by apply floor_value).
  split_and!; [split|split|]; auto; split; apply M; auto; lia.
Qed.

(** A monotone function is known by its values at the ends. *)
Lemma mono_range f lo hi x : mono_on f lo hi → in_range lo x hi → in_range (f lo) (f x) (f hi).
Proof. intros Hf Hx. by destruct (Hf x x Hx Hx ltac:(lia)). Qed.

Lemma units_le_computed x y : finiteb x = true → finiteb y = true → b64_le x y = true → (units x ≤ units y)%Z.
Proof. intros Hx%finiteb_finite Hy%finiteb_finite. rewrite le_units by done. apply Z.leb_le. Qed.

Lemma mono_add_l c lo hi :
  finite c → finite lo → finite hi → finite (b64_add c lo) → finite (b64_add c hi) → mono_on (λ x, b64_add c x) lo hi.
Proof.
  intros Hc Hl Hh Fl Fh. apply (mono_rounded _ _ _ (λ z, units c + z)%Z 1); try done; [|lia].
  intros x Hx. by apply add_value.
Qed.

(** ** Directions *)

Definition ordered (up : bool) (a b : Z) : Prop := if up then (a ≤ b)%Z else (b ≤ a)%Z.
Definition ends (up : bool) (a b : b64) : b64 * b64 := if up then (a, b) else (b, a).

(** [f] rises ([up]) or falls between [lo] and [hi]. *)
Definition dir_on (up : bool) (f : b64 → b64) (lo hi : b64) : Prop :=
  ∀ x y, in_range lo x hi → in_range lo y hi → (units x ≤ units y)%Z →
  finite (f x) ∧ finite (f y) ∧ ordered up (units (f x)) (units (f y)).

Lemma mono_dir f lo hi : mono_on f lo hi → dir_on true f lo hi.
Proof. intros Hf x y Hx Hy Hxy. destruct (Hf x y Hx Hy Hxy) as ([? _] & [? _] & ?). done. Qed.

Lemma dir_range up f lo hi x :
  dir_on up f lo hi → in_range lo lo hi → in_range lo hi hi → in_range lo x hi →
  in_range (ends up (f lo) (f hi)).1 (f x) (ends up (f lo) (f hi)).2.
Proof.
  intros Hf Hl Hh Hx. destruct (Hf lo x Hl Hx ltac:(apply Hx)) as (_ & F & A).
  destruct (Hf x hi Hx Hh ltac:(apply Hx)) as (_ & _ & B). split; [done|]. destruct up; cbn in *; lia.
Qed.

Lemma dir_compose u v f g lo hi :
  dir_on u f lo hi → in_range lo lo hi → in_range lo hi hi →
  dir_on v g (ends u (f lo) (f hi)).1 (ends u (f lo) (f hi)).2 → dir_on (Bool.eqb u v) (λ x, g (f x)) lo hi.
Proof.
  intros Hf Hl Hh Hg x y Hx Hy Hxy. pose proof (dir_range u f lo hi x Hf Hl Hh Hx) as Rx.
  pose proof (dir_range u f lo hi y Hf Hl Hh Hy) as Ry. destruct (Hf x y Hx Hy Hxy) as (_ & _ & A).
  destruct u; cbn [ordered ends fst snd] in *.
  - destruct (Hg _ _ Rx Ry A) as (? & ? & B). by destruct v.
  - destruct (Hg _ _ Ry Rx A) as (? & ? & B). by destruct v.
Qed.

(** Multiplication by a constant turns the direction when the constant is negative. *)
Lemma dir_mul_l c lo hi up :
  finite c → ordered up 0 (units c) → finite lo → finite hi → finite (b64_mul c lo) → finite (b64_mul c hi) →
  dir_on up (λ x, b64_mul c x) lo hi.
Proof.
  intros Hc Hc0 Hl Hh Fl Fh x y [Hx Ux] [Hy Uy] Hxy. pose proof U_pos.
  assert (∀ a b, finite a → finite b → (units a ≤ units b)%Z →
    ordered up (units (b64_mul c a)) (units (b64_mul c b))) as M.
  { intros a b Ha Hb Hab. destruct (mul_value c a Hc Ha) as (_ & _ & Ea), (mul_value c b Hc Hb) as (_ & _ & Eb).
    destruct up; cbn [ordered] in *; rewrite Ea, Eb; (apply rounded_le; [apply Z.pow_pos_nonneg; lia|]);
      [by apply Z.mul_le_mono_nonneg_l|by apply Z.mul_le_mono_nonpos_l]. }
  pose proof (finite_units _ Fl). pose proof (finite_units _ Fh).
  assert (∀ z, finite z → (units lo ≤ units z ≤ units hi)%Z → finite (b64_mul c z)) as F.
  { intros z Hz [? ?]. destruct (mul_value c z Hc Hz) as (Hw & Hn & _).
    pose proof (M lo z Hl Hz ltac:(lia)). pose proof (M z hi Hz Hh ltac:(lia)).
    apply finite_between; [done|done|]. destruct up; cbn [ordered] in *; lia. }
  split_and!; auto.
Qed.
