(* ===== verification/RiskScore.v ===== *)
(** * Risk scores (sdks/typescript/src/risk-score.ts)

    The scoring of one operation and the rollup of an episode, on binary64
    numbers. Values the code inspects at run time are [dyn]; the sub-objects of a
    policy are lists of properties, because policies are merged by spreading.
    A loop that does not end is [None]. *)

From S2P Require Import Prelude Dates Binary64.

Declare Scope b64_scope.
Delimit Scope b64_scope with b64.
Bind Scope b64_scope with b64.
Infix "+" := b64_add : b64_scope.
Infix "-" := b64_sub : b64_scope.
Infix "*" := b64_mul : b64_scope.
Infix "/" := b64_div : b64_scope.

(** A JavaScript value, as far as this code looks at it. *)
Inductive dyn : Type :=
| DUndef
| DNull
| DBool (b : bool)
| DNum (x : b64)
| DStr (s : string)
| DOther.

(** The properties of an object. *)
Definition props : Type := list (string * dyn).

Fixpoint prop {A} (key : string) (fields : list (string * A)) : option A :=
  match fields with
  | [] => None
  | (k, v) :: fields => if String.eqb k key then Some v else prop key fields
  end.
Definition get (key : string) (fields : props) : dyn := default DUndef (prop key fields).

(** [a ?? b] *)
Definition nullish (a b : dyn) : dyn := match a with DUndef | DNull => b | _ => a end.

(** The operand of an arithmetic operator; fields typed [number] are numbers or absent. *)
Definition as_number (d : dyn) : b64 := match d with DNum x => x | DNull => of_Z 0 | _ => BNaN end.
Definition number (fields : props) (key : string) : b64 := as_number (get key fields).

Definition includes_str (names : list string) (d : dyn) : bool :=
  match d with DStr s => bool_decide (s ∈ names) | _ => false end.

Record RiskSignals := Signals {
  operationType : dyn;
  reversibility : dyn;
  envCriticality : dyn;
  dataVolume : dyn;
  fanOut : dyn;
  referenceCount : dyn;
}.

Inductive RiskLevel := level_none | level_low | level_medium | level_high | level_critical.
#[global] Instance RiskLevel_eq_dec : EqDecision RiskLevel.
Proof. solve_decision. Defined.

Inductive factor_kind := base_factor | additive_factor | multiplier_factor.

Record RiskFactor := Factor {
  factor_key : string;
  factor_value : dyn;
  factor_kind_of : factor_kind;
  factor_weight : dyn;
  contribution : dyn;
}.

Record RiskAssessment := Assessment {
  score : b64;
  level : RiskLevel;
  assessment_policyVersion : dyn;
  factors : list RiskFactor;
}.

Record EpisodeRiskStep := Step {
  occurredAt : string;
  step_score : b64;
  action : option string;
}.

Record EpisodeFrequencyRule := FrequencyRule {
  actions : option (list dyn);
  rule_windowSeconds : dyn;
  threshold : dyn;
  boost : dyn;
}.

Record FrequencyRuleMatch := RuleMatch {
  matched_rule : EpisodeFrequencyRule;
  match_count : Z;
  fired : bool;
  match_boost : dyn;
}.

Record EpisodeRiskRollup := Rollup {
  rollup_score : b64;
  rollup_level : RiskLevel;
  peak : b64;
  velocityScore : b64;
  stepCount : nat;
  rollup_policyVersion : dyn;
  frequency : option (b64 * list FrequencyRuleMatch);
}.

Record magnitude_policy := MagnitudePolicy { maxBoost : dyn; weights : props; k : props }.

Record rollup_policy := RollupPolicy {
  windowSeconds : dyn;
  decayPerWindow : dyn;
  velocityNormalizer : dyn;
  frequencyRules : option (list EpisodeFrequencyRule);
}.

Record RiskScoringPolicy := Policy {
  policyVersion : dyn;
  operationBase : props;
  reversibilityFactor : props;
  envCriticalityFactor : props;
  magnitude_of : magnitude_policy;
  bands : props;
  rollup : rollup_policy;
}.

Definition DEFAULT_RISK_POLICY : RiskScoringPolicy :=
  let c m e := DNum (dec m e) in
  Policy (DStr "veritio.reference.v1")
    [("read", c 5 (-2)); ("create", c 2 (-1)); ("update", c 3 (-1)); ("config", c 45 (-2)); ("bulk", c 55 (-2));
     ("permission", c 6 (-1)); ("delete", c 7 (-1)); ("destructive", c 85 (-2))]%Z
    [("reversible", c 6 (-1)); ("recoverable", c 1 0); ("irreversible", c 13 (-1))]%Z
    [("sandbox", c 4 (-1)); ("development", c 6 (-1)); ("staging", c 8 (-1)); ("production", c 1 0)]%Z
    (MagnitudePolicy (c 4 (-1))%Z
       [("dataVolume", c 5 (-1)); ("fanOut", c 3 (-1)); ("referenceCount", c 2 (-1))]%Z
       [("dataVolume", c 100 0); ("fanOut", c 25 0); ("referenceCount", c 50 0)]%Z)
    [("low", c 5 (-2)); ("medium", c 25 (-2)); ("high", c 5 (-1)); ("critical", c 75 (-2))]%Z
    (RollupPolicy (c 60 0) (c 5 (-1)) (c 3 0) (Some []))%Z.

(** ** Arithmetic helpers *)

Definition clamp01 (x : b64) : b64 := b64_min (of_Z 1) (b64_max (of_Z 0) x).

Definition round4 (x : b64) : b64 := (b64_floor (x * of_Z 10000 + dec 5 (-1)) / of_Z 10000)%b64.

Definition sat (x k : b64) : b64 := (x / (x + k))%b64.

Definition bandOf (score : b64) (bands : props) : RiskLevel :=
  if b64_lt score (number bands "low") then level_none
  else if b64_lt score (number bands "medium") then level_low
  else if b64_lt score (number bands "high") then level_medium
  else if b64_lt score (number bands "critical") then level_high
  else level_critical.

(** ** Signals *)

Definition RISK_OPERATION_TYPES : list string :=
  ["read"; "create"; "update"; "config"; "bulk"; "permission"; "delete"; "destructive"].
Definition RISK_REVERSIBILITIES : list string := ["reversible"; "recoverable"; "irreversible"].
Definition RISK_ENV_CRITICALITIES : list string := ["sandbox"; "development"; "staging"; "production"].

Definition normalizeMagnitude (value : dyn) (field : string) : exc dyn :=
  match value with
  | DUndef => Ret (DNum (of_Z 0))
  | DNum x =>
      if negb (b64_integer x) || b64_lt x (of_Z 0) then Throw (field +:+ " must be a non-negative integer")
      else Ret value
  | _ => Throw (field +:+ " must be a non-negative integer")
  end.

Definition normalizeRiskSignals (signals : RiskSignals) : exc RiskSignals :=
  _ ← guard_exc (includes_str RISK_OPERATION_TYPES (operationType signals))
        "operationType must be a known risk operation type";
  let rev := nullish (reversibility signals) (DStr "recoverable") in
  _ ← guard_exc (includes_str RISK_REVERSIBILITIES rev) "reversibility must be a known risk reversibility class";
  let env := nullish (envCriticality signals) (DStr "production") in
  _ ← guard_exc (includes_str RISK_ENV_CRITICALITIES env)
        "envCriticality must be a known environment criticality";
  dv ← normalizeMagnitude (dataVolume signals) "dataVolume";
  fo ← normalizeMagnitude (fanOut signals) "fanOut";
  rc ← normalizeMagnitude (referenceCount signals) "referenceCount";
  Ret (Signals (operationType signals) rev env dv fo rc).

Definition text_of (d : dyn) : string := match d with DStr s => s | _ => "" end.

Definition scoreRiskSignals (signals : RiskSignals) (policy : RiskScoringPolicy) : exc RiskAssessment :=
  normalized ← normalizeRiskSignals signals;
  let op := operationType normalized in
  let rev := nullish (reversibility normalized) (DStr "recoverable") in
  let env := nullish (envCriticality normalized) (DStr "production") in
  let dv := nullish (dataVolume normalized) (DNum (of_Z 0)) in
  let fo := nullish (fanOut normalized) (DNum (of_Z 0)) in
  let rc := nullish (referenceCount normalized) (DNum (of_Z 0)) in
  let base := get (text_of op) (operationBase policy) in
  let max := as_number (maxBoost (magnitude_of policy)) in
  let w := weights (magnitude_of policy) in
  let kk := k (magnitude_of policy) in
  let part key value := round4 (max * number w key * sat (as_number value) (number kk key))%b64 in
  let dvC := part "dataVolume" dv in
  let foC := part "fanOut" fo in
  let rcC := part "referenceCount" rc in
  let revF := get (text_of rev) (reversibilityFactor policy) in
  let envF := get (text_of env) (envCriticalityFactor policy) in
  let score := clamp01 (round4 ((as_number base + dvC + foC + rcC) * as_number revF * as_number envF)%b64) in
  Ret (Assessment score (bandOf score (bands policy)) (policyVersion policy)
    [Factor "operationType" op base_factor (DNum (of_Z 1)) base;
     Factor "dataVolume" dv additive_factor (get "dataVolume" w) (DNum dvC);
     Factor "fanOut" fo additive_factor (get "fanOut" w) (DNum foC);
     Factor "referenceCount" rc additive_factor (get "referenceCount" w) (DNum rcC);
     Factor "reversibility" rev multiplier_factor revF revF;
     Factor "envCriticality" env multiplier_factor envF envF]).

(** ** Frequency rules *)

Definition is_nonempty_str (d : dyn) : bool := match d with DStr s => negb (String.eqb s "") | _ => false end.

Definition assertFrequencyRule (rule : EpisodeFrequencyRule) : exc unit :=
  let finite d := match d with DNum x => b64_finite x | _ => false end in
  _ ← guard_exc (match actions rule with Some (a :: l) => forallb is_nonempty_str (a :: l) | _ => false end)
        "frequencyRules[].actions must be a non-empty array of non-empty strings";
  let w := rule_windowSeconds rule in
  _ ← guard_exc (finite w && negb (b64_le (as_number w) (of_Z 0)))
        "frequencyRules[].windowSeconds must be a finite number greater than 0";
  let t := threshold rule in
  _ ← guard_exc (match t with DNum x => b64_integer x && negb (b64_lt x (of_Z 1)) | _ => false end)
        "frequencyRules[].threshold must be an integer greater than or equal to 1";
  guard_exc (finite (boost rule) && negb (b64_lt (as_number (boost rule)) (of_Z 0)))
    "frequencyRules[].boost must be a finite number greater than or equal to 0".

Definition assertFrequencyRules (rules : list EpisodeFrequencyRule) : exc unit :=
  _ ← mapE assertFrequencyRule rules; Ret tt.

Definition is_str (a : string) (d : dyn) : bool := match d with DStr s => String.eqb s a | _ => false end.

Section Rollup.
Context `{DateHost}.

(** [Date.parse] *)
Definition parse_ms (s : string) : b64 := match date_parse s with Some t => of_Z t | None => BNaN end.

Definition matching_times (rule : EpisodeFrequencyRule) (sorted : list EpisodeRiskStep) : list b64 :=
  omap (λ step, match action step, actions rule with
                | Some a, Some names => if existsb (is_str a) names then Some (parse_ms (occurredAt step)) else None
                | _, _ => None end) sorted.

Definition time_at (times : list b64) (i : nat) : b64 := default BNaN (times !! i).

(** [while (endMs - timesMs[start] > limit) start++]; reading past the end gives
    [undefined], which stops the loop. *)
Fixpoint advance (fuel : nat) (times : list b64) (endMs limit : b64) (start : nat) : nat :=
  match fuel with
  | O => start
  | S fuel =>
      if b64_lt limit (endMs - time_at times start)%b64 then advance fuel times endMs limit (S start) else start
  end.

(** The loop over [end]: the greatest number of times in a window. *)
Fixpoint sweep (times : list b64) (limit : b64) (ends : list nat) (start : nat) (maxCount : Z) : Z :=
  match ends with
  | [] => maxCount
  | last :: ends =>
      let start := advance (S (length times)) times (time_at times last) limit start in
      let count := (Z.of_nat last - Z.of_nat start + 1)%Z in
      sweep times limit ends start (if (maxCount <? count)%Z then count else maxCount)
  end.

Definition window_count (times : list b64) (limit : b64) : Z :=
  sweep times limit (seq 0 (length times)) 0 0.

Definition evaluate_rule (sorted : list EpisodeRiskStep) (rule : EpisodeFrequencyRule) : FrequencyRuleMatch :=
  let times := matching_times rule sorted in
  let maxCount := window_count times (as_number (rule_windowSeconds rule) * of_Z 1000)%b64 in
  let fired := b64_le (as_number (threshold rule)) (of_Z maxCount) in
  RuleMatch rule maxCount fired (if fired then boost rule else DNum (of_Z 0)).

Definition evaluateFrequencyRules (sorted : list EpisodeRiskStep) (rules : list EpisodeFrequencyRule)
    : b64 * list FrequencyRuleMatch :=
  let matches := evaluate_rule sorted <$> rules in
  let boostSum := fold_left (λ sum m, if fired m then (sum + as_number (boost (matched_rule m)))%b64 else sum)
                    matches (of_Z 0) in
  (clamp01 (round4 boostSum), matches).

(** ** Episodes *)

(** [[...steps].sort((a, b) => Date.parse(a.occurredAt) - Date.parse(b.occurredAt))]:
    the stable order of the times. (An invalid date compares equal to every date;
    the language leaves that order to the engine.) *)
Definition before (a b : EpisodeRiskStep) : bool :=
  b64_lt (parse_ms (occurredAt a) - parse_ms (occurredAt b))%b64 (of_Z 0).

Fixpoint insert_step (step : EpisodeRiskStep) (steps : list EpisodeRiskStep) : list EpisodeRiskStep :=
  match steps with
  | [] => [step]
  | s :: rest => if before step s then step :: steps else s :: insert_step step rest
  end.

Definition sort_steps (steps : list EpisodeRiskStep) : list EpisodeRiskStep :=
  fold_left (λ sorted step, insert_step step sorted) steps [].

(** The loop runs [windows] times; its counter does not get past 2^53. *)
Definition decayForGap (deltaMs windowSeconds decayPerWindow : b64) : option b64 :=
  let deltaSeconds := b64_max (of_Z 0) (deltaMs / of_Z 1000)%b64 in
  let windows := b64_floor (deltaSeconds / windowSeconds)%b64 in
  if b64_lt (of_Z (2 ^ 53)) windows then None
  else Some (Z.iter (b64_to_Z windows) (λ decay, decay * decayPerWindow)%b64 (of_Z 1)).

Record momentum_state := Momentum { peak_so_far : b64; momentum : b64; maxMomentum : b64; previousMs : option b64 }.

Definition momentum_step (p : rollup_policy) (st : momentum_state) (step : EpisodeRiskStep) : option momentum_state :=
  let currentMs := parse_ms (occurredAt step) in
  carried ← match previousMs st with
            | None => Some (of_Z 0)
            | Some prev =>
                decay ← decayForGap (currentMs - prev)%b64 (as_number (windowSeconds p)) (as_number (decayPerWindow p));
                Some (momentum st * decay)%b64
            end;
  let m := round4 (step_score step + carried)%b64 in
  Some (Momentum (if b64_lt (peak_so_far st) (step_score step) then step_score step else peak_so_far st) m
          (if b64_lt (maxMomentum st) m then m else maxMomentum st) (Some currentMs)).

Fixpoint momentum_loop (p : rollup_policy) (st : momentum_state) (steps : list EpisodeRiskStep)
    : option momentum_state :=
  match steps with
  | [] => Some st
  | step :: steps => st ← momentum_step p st step; momentum_loop p st steps
  end.

(** [None] when the decay loop does not end. *)
Definition rollupEpisodeRisk (steps : list EpisodeRiskStep) (policy : RiskScoringPolicy)
    : option (exc EpisodeRiskRollup) :=
  let rules := default [] (frequencyRules (rollup policy)) in
  let zero := of_Z 0 in
  match assertFrequencyRules rules with
  | Throw msg => Some (Throw msg)
  | Ret _ =>
      let evaluated sorted := match rules with [] => None | _ => Some (evaluateFrequencyRules sorted rules) end in
      match steps with
      | [] => Some (Ret (Rollup zero (bandOf zero (bands policy)) zero zero 0 (policyVersion policy) (evaluated [])))
      | _ =>
          let sorted := sort_steps steps in
          st ← momentum_loop (rollup policy) (Momentum zero zero zero None) sorted;
          let velocity := clamp01 (round4 (maxMomentum st / as_number (velocityNormalizer (rollup policy)))%b64) in
          let frequency := evaluated sorted in
          let top := b64_max (peak_so_far st) velocity in
          let top := match frequency with Some (f, _) => b64_max top f | None => top end in
          let score := clamp01 (round4 top) in
          Some (Ret (Rollup score (bandOf score (bands policy)) (peak_so_far st) velocity (length sorted)
                  (policyVersion policy) frequency))
      end
  end.
End Rollup.

(** [{ ...metadata, riskSignals: normalizeRiskSignals(signals) }] *)
Fixpoint define_prop {A} (key : string) (value : A) (fields : list (string * A)) : list (string * A) :=
  match fields with
  | [] => [(key, value)]
  | (k, v) :: fields => if String.eqb k key then (k, value) :: fields else (k, v) :: define_prop key value fields
  end.

Definition withRiskSignals {A} (metadata : list (string * A)) (signals : RiskSignals)
    : exc (list (string * (A + RiskSignals))) :=
  normalized ← normalizeRiskSignals signals;
  Ret (define_prop "riskSignals" (inr normalized) ((λ f, (f.1, inl f.2)) <$> metadata)).
