(* ===== verification/RiskPolicy.v ===== *)
(** * Risk policies (sdks/typescript/src/risk-policy.ts)

    Policies derived from a temperature and from overrides. *)

From S2P Require Import Prelude JsNum Dates Binary64 RiskScore.

Record RiskPolicyOverrides := Overrides {
  ov_policyVersion : dyn;
  ov_operationBase : props;
  ov_reversibilityFactor : props;
  ov_envCriticalityFactor : props;
  ov_maxBoost : dyn;
  ov_weights : props;
  ov_k : props;
  ov_bands : props;
  ov_windowSeconds : dyn;
  ov_decayPerWindow : dyn;
  ov_velocityNormalizer : dyn;
  ov_frequencyRules : option (list EpisodeFrequencyRule);
}.

(** [overrides] has its number of own keys; absent members are empty. *)
Record RiskPolicyOptions := Options {
  temperature : option dyn;
  overrides : option (nat * RiskPolicyOverrides);
}.

Record endpoint := Endpoint { lenient : b64; reference : b64; strict : b64 }.

Definition bandsLow := Endpoint (dec 1 (-1)) (dec 5 (-2)) (dec 2 (-2)).
Definition bandsMedium := Endpoint (dec 35 (-2)) (dec 25 (-2)) (dec 18 (-2)).
Definition bandsHigh := Endpoint (dec 6 (-1)) (dec 5 (-1)) (dec 4 (-1)).
Definition bandsCritical := Endpoint (dec 85 (-2)) (dec 75 (-2)) (dec 65 (-2)).
Definition decayEndpoint := Endpoint (dec 3 (-1)) (dec 5 (-1)) (dec 7 (-1)).
Definition velocityEndpoint := Endpoint (dec 4 0) (dec 3 0) (dec 2 0).
Definition maxBoostEndpoint := Endpoint (dec 25 (-2)) (dec 4 (-1)) (dec 6 (-1)).
Definition irreversibleFactor := Endpoint (dec 115 (-2)) (dec 13 (-1)) (dec 16 (-1)).
Definition productionFactor := Endpoint (dec 9 (-1)) (dec 1 0) (dec 12 (-1)).

Definition lerpTemperature (p : endpoint) (t : b64) : b64 :=
  let half := dec 5 (-1) in
  if b64_le t half then round4 (lenient p + (reference p - lenient p) * (t / half))%b64
  else round4 (reference p + (strict p - reference p) * ((t - half) / half))%b64.

(** [Math.round]: the nearest integer, halves upwards, of a number that is not negative. *)
Definition math_round (x : b64) : b64 :=
  let n := b64_floor x in if b64_le (dec 5 (-1)) (x - n)%b64 then (n + of_Z 1)%b64 else n.

Definition temperatureHundredths (temperature : dyn) : exc b64 :=
  match temperature with
  | DNum t =>
      if negb (b64_finite t) || b64_lt t (of_Z 0) || b64_lt (of_Z 1) t
      then Throw "temperature must be a finite number in [0,1]" else
      let hundredths := math_round (t * of_Z 100)%b64 in
      if b64_lt (dec 1 (-9)) (b64_abs (t * of_Z 100 - hundredths)%b64)
      then Throw "temperature must be a multiple of 0.01" else Ret hundredths
  | _ => Throw "temperature must be a finite number in [0,1]"
  end.

(** The text of an integer in a template. *)
Definition int_text (x : b64) : string := String.string_of_list_ascii (digits (b64_to_Z x)).

Definition temperatureVersion (hundredths : b64) : string :=
  let whole := b64_floor (hundredths / of_Z 100)%b64 in
  let frac := b64_rem hundredths (of_Z 100) in
  let padded := if b64_lt frac (of_Z 10) then "0" +:+ int_text frac else int_text frac in
  text_of (policyVersion DEFAULT_RISK_POLICY) +:+ "+temp" +:+ int_text whole +:+ "." +:+ padded.

(** [Object.values] *)
Definition values (fields : props) : list dyn := snd <$> fields.

Definition assertDerivedPolicy (policy : RiskScoringPolicy) : exc unit :=
  let mag := magnitude_of policy in
  let r := rollup policy in
  let numericLeaves :=
    values (operationBase policy) ++ values (reversibilityFactor policy) ++ values (envCriticalityFactor policy)
    ++ [maxBoost mag] ++ values (weights mag) ++ values (k mag) ++ values (bands policy)
    ++ [windowSeconds r; decayPerWindow r; velocityNormalizer r] in
  _ ← guard_exc (forallb (λ d, match d with DNum x => b64_finite x | _ => false end) numericLeaves)
        "policy numeric fields must all be finite numbers";
  let band := number (bands policy) in
  _ ← guard_exc (b64_lt (band "low") (band "medium") && b64_lt (band "medium") (band "high")
                 && b64_lt (band "high") (band "critical")) "policy bands must be strictly ascending";
  let factors := values (reversibilityFactor policy) ++ values (envCriticalityFactor policy) in
  _ ← guard_exc (negb (existsb (λ d, b64_le (as_number d) (of_Z 0)) factors))
        "policy multiplier factors must be greater than 0";
  _ ← guard_exc (negb (b64_le (as_number (windowSeconds r)) (of_Z 0)
                       || b64_le (as_number (velocityNormalizer r)) (of_Z 0)))
        "policy rollup windowSeconds and velocityNormalizer must be greater than 0";
  guard_exc (is_nonempty_str (policyVersion policy)) "policy policyVersion must be a non-empty string".

(** [{ ...base, ...overrides }] *)
Definition spread (base over : props) : props := fold_left (λ fields f, define_prop f.1 f.2 fields) over base.

Definition mergeOverrides (base : RiskScoringPolicy) (over : RiskPolicyOverrides) : exc RiskScoringPolicy :=
  _ ← guard_exc (is_nonempty_str (ov_policyVersion over))
        "overrides.policyVersion is required when overriding policy fields so a hand-tuned policy is never misrepresented by a temperature version";
  let mag := magnitude_of base in
  let r := rollup base in
  Ret (Policy (ov_policyVersion over) (spread (operationBase base) (ov_operationBase over))
    (spread (reversibilityFactor base) (ov_reversibilityFactor over))
    (spread (envCriticalityFactor base) (ov_envCriticalityFactor over))
    (MagnitudePolicy (nullish (ov_maxBoost over) (maxBoost mag)) (spread (weights mag) (ov_weights over))
       (spread (k mag) (ov_k over)))
    (spread (bands base) (ov_bands over))
    (RollupPolicy (nullish (ov_windowSeconds over) (windowSeconds r))
       (nullish (ov_decayPerWindow over) (decayPerWindow r))
       (nullish (ov_velocityNormalizer over) (velocityNormalizer r))
       (match ov_frequencyRules over with Some rules => Some rules | None => frequencyRules r end))).

(** The policy of a temperature [t]. *)
Definition at_temperature (base : RiskScoringPolicy) (version : string) (t : b64) : RiskScoringPolicy :=
  let lerp e := DNum (lerpTemperature e t) in
  let r := rollup base in
  Policy (DStr version) (operationBase base)
    (define_prop "irreversible" (lerp irreversibleFactor) (reversibilityFactor base))
    (define_prop "production" (lerp productionFactor) (envCriticalityFactor base))
    (MagnitudePolicy (lerp maxBoostEndpoint) (weights (magnitude_of base)) (k (magnitude_of base)))
    [("low", lerp bandsLow); ("medium", lerp bandsMedium); ("high", lerp bandsHigh); ("critical", lerp bandsCritical)]
    (RollupPolicy (windowSeconds r) (lerp decayEndpoint) (lerp velocityEndpoint) (frequencyRules r)).

Definition riskPolicy (options : RiskPolicyOptions) : exc RiskScoringPolicy :=
  derived ← match temperature options with
            | Some t => hundredths ← temperatureHundredths t;
                        Ret (at_temperature DEFAULT_RISK_POLICY (temperatureVersion hundredths) (as_number t))
            | None => Ret DEFAULT_RISK_POLICY
            end;
  derived ← match overrides options with
            | Some (keys, over) => if (0 <? keys)%nat then mergeOverrides derived over else Ret derived
            | None => Ret derived
            end;
  _ ← assertDerivedPolicy derived;
  Ret derived.
