(* ===== verification/RiskBounds.v ===== *)
(** * Bounds and monotonicity of risk scores

    Under a policy with factors in a sane range every accepted operation has a
    score in [0, 1], and larger magnitudes never lower it. *)

From S2P Require Import Prelude Binary64 RiskScore.

#[local] Open Scope Z_scope.
#[local] Arguments round4 : simpl never.
#[local] Arguments clamp01 : simpl never.
#[local] Arguments sat : simpl never.
#[local] Opaque round pack of_Z dec b64_add b64_mul b64_div b64_floor b64_min b64_max.

Definition zero : b64 := of_Z 0.
Definition one : b64 := of_Z 1.
Definition half : b64 := dec 5 (-1).

(** The constants the policies may use, and a bound on every intermediate result. *)
Definition top : b64 := of_Z (2 ^ 100).
Definition huge : b64 := of_Z (2 ^ 500).

(** Finds an element of a literal list. *)
Ltac listed := first [left | right; listed].
Ltac finite_computed := apply finiteb_finite; vm_compute; reflexivity.
(** Side conditions on constants. *)
Ltac constants := 
  lazymatch goal with
  | |- finite _ => finite_computed
  | |- _ => lia
  end.
Ltac le_computed := apply units_le_computed; vm_compute; reflexivity.

Lemma zero_finite : finite zero ∧ units zero = 0.
Proof. destruct (of_Z_value 0 ltac:(lia)) as [F E]. rewrite Z.mul_0_l in E. exact (conj F E). Qed.
Lemma one_finite : finite one ∧ units one = U.
Proof. destruct (of_Z_value 1 ltac:(lia)) as [F E]. rewrite Z.mul_1_l in E. exact (conj F E). Qed.
Lemma ten_thousand : finite (of_Z 10000) ∧ units (of_Z 10000) = 10000 * U.
Proof. apply of_Z_value. lia. Qed.
Lemma half_finite : finite half.
Proof. finite_computed. Qed.
Lemma top_finite : finite top.
Proof. finite_computed. Qed.
Lemma huge_finite : finite huge.
Proof. finite_computed. Qed.

(** ** [round4] and [clamp01] *)

Lemma round4_mono : mono_on round4 zero huge.
Proof.
  destruct zero_finite, ten_thousand. pose proof huge_finite. pose proof half_finite. pose proof U_pos.
  apply (mono_compose (λ x, b64_floor (b64_add (b64_mul x (of_Z 10000)) half)) (λ x, b64_div x (of_Z 10000))).
  - apply (mono_compose (λ x, b64_add (b64_mul x (of_Z 10000)) half) b64_floor).
    + apply (mono_compose (λ x, b64_mul x (of_Z 10000)) (λ x, b64_add x half)).
      * apply mono_mul; constants.
      * apply mono_add; constants.
    + apply mono_floor; constants.
  - apply mono_div; constants.
Qed.

Lemma clamp01_mono x y :
  finite x → finite y → (units x <= units y) ->
  in_range zero (clamp01 x) one ∧ (units (clamp01 x) <= units (clamp01 y)).
Proof.
  intros Hx Hy Hxy. destruct zero_finite as [Z0 Zu], one_finite as [O0 Ou]. pose proof U_pos. unfold clamp01.
  fold zero one. destruct (max_value zero x Z0 Hx) as [Mx Ex], (max_value zero y Z0 Hy) as [My Ey].
  destruct (min_value one _ O0 Mx) as [Nx Fx], (min_value one _ O0 My) as [Ny Fy].
  split; [split; [done|]|]; rewrite ?Fx, ?Fy; lia.
Qed.

(** Sums and products of numbers that are not negative, below computed bounds. *)
Lemma add_range x b y d :
  finite b → finite d → finite (b64_add b d) → in_range zero x b → in_range zero y d →
  in_range zero (b64_add x y) (b64_add b d).
Proof.
  intros Hb Hd Hf Hx Hy. destruct zero_finite as [Z0 Zu].
  assert (b64_add zero zero = zero) as Ez by (vm_compute; reflexivity).
  rewrite <- Ez at 1. apply range_add; first [assumption|rewrite Ez; assumption].
Qed.

Lemma mul_range x b y d :
  finite b → finite d → finite (b64_mul b d) → in_range zero x b → in_range zero y d →
  in_range zero (b64_mul x y) (b64_mul b d).
Proof.
  intros Hb Hd Hf Hx Hy. destruct zero_finite as [Z0 Zu].
  assert (b64_mul zero zero = zero) as Ez by (vm_compute; reflexivity).
  rewrite <- Ez at 1. apply range_mul; first [assumption|lia].
Qed.

(** Ranges of sums and products of ranges. *)
Ltac ranges :=
  repeat lazymatch goal with
  | |- in_range _ (b64_mul _ _) _ => apply mul_range
  | |- in_range _ (b64_add _ _) _ => apply add_range
  | |- finite _ => finite_computed
  | |- in_range _ _ _ => assumption
  end.

(** Products are monotone in both factors. *)
Lemma mul_le x x' y y' :
  finite x → finite x' → finite y → finite y' → (0 <= units x) → (0 <= units y) → (units x <= units x') →
  (units y <= units y') → units (b64_mul x y) <= units (b64_mul x' y').
Proof.
  intros Hx Hx' Hy Hy' Hx0 Hy0 Hxx Hyy.
  destruct (mul_value x y Hx Hy) as (_ & _ & ->), (mul_value x' y' Hx' Hy') as (_ & _ & ->).
  apply rounded_le; [exact U_pos|]. apply Z.mul_le_mono_nonneg; lia.
Qed.

Lemma add_le x x' y y' :
  finite x → finite x' → finite y → finite y' → (units x <= units x') → (units y <= units y') →
  units (b64_add x y) <= units (b64_add x' y').
Proof.
  intros Hx Hx' Hy Hy' Hxx Hyy.
  destruct (add_value x y Hx Hy) as (_ & _ & ->), (add_value x' y' Hx' Hy') as (_ & _ & ->).
  apply rounded_le; lia.
Qed.

(** ** Policies with factors in a sane range *)

Definition factor_ok (lo : b64) (x : b64) : bool := finiteb x && b64_le lo x && b64_le x top.

Definition MAGNITUDES : list string := ["dataVolume"; "fanOut"; "referenceCount"].

Definition scoring_policy (p : RiskScoringPolicy) : bool :=
  let mag := magnitude_of p in
  forallb (λ key, factor_ok zero (number (operationBase p) key)) RISK_OPERATION_TYPES
  && forallb (λ key, factor_ok zero (number (reversibilityFactor p) key)) RISK_REVERSIBILITIES
  && forallb (λ key, factor_ok zero (number (envCriticalityFactor p) key)) RISK_ENV_CRITICALITIES
  && factor_ok zero (as_number (maxBoost mag))
  && forallb (λ key, factor_ok zero (number (weights mag) key)) MAGNITUDES
  && forallb (λ key, factor_ok one (number (k mag) key)) MAGNITUDES.

Lemma factor_range lo x : finite lo → factor_ok lo x = true → in_range lo x top.
Proof.
  unfold factor_ok. rewrite !andb_true_iff. intros Hl [[Hx%finiteb_finite Hlo] Hhi].
  rewrite le_units in Hlo by assumption. rewrite le_units in Hhi by first [assumption|exact top_finite].
  split; [assumption|lia].
Qed.

Lemma factor_in lo names (f : string → b64) key :
  finite lo → forallb (λ key, factor_ok lo (f key)) names = true → key ∈ names → in_range lo (f key) top.
Proof.
  intros Hl Hf Hk. apply factor_range; [assumption|]. rewrite forallb_forall in Hf.
  by apply Hf, list_elem_of_In.
Qed.

(** Signals whose numbers are numbers of the format. *)
Definition wf_dyn (d : dyn) : Prop := match d with DNum x => wf x | _ => True end.
Definition wf_signals (s : RiskSignals) : Prop := wf_dyn (dataVolume s) ∧ wf_dyn (fanOut s) ∧ wf_dyn (referenceCount s).

(** ** The saturating boost *)

Lemma sat_range x kk :
  finite x → (0 <= units x) → in_range one kk top → in_range zero (sat x kk) one.
Proof.
  intros Hx Hx0 [Hk Hku]. destruct one_finite as [O0 Ou], zero_finite as [Z0 Zu]. pose proof U_pos.
  unfold sat. destruct (add_value x kk Hx Hk) as (Hw & Hn & E).
  pose proof (rounded_units x 1 Hx ltac:(lia)) as Ex. rewrite Z.mul_1_r in Ex.
  assert (units x <= units (b64_add x kk)) as Hle by (rewrite E, <- Ex at 1; apply rounded_le; lia).
  assert (0 < units (b64_add x kk)) as Hpos.
  { rewrite E. pose proof (rounded_le U (units x + units kk) 1 ltac:(lia) ltac:(lia)).
    rewrite <- Ou in *. rewrite <- (Z.mul_1_r (units one)), (rounded_units one 1 O0) in * by lia. lia. }
  destruct (b64_add x kk) as [|s|s m e] eqn:Es; [done| |].
  - destruct (finite_inv x Hx) as (s' & m' & e' & -> & _). cbn [b64_div].
    destruct (zero_value (xorb s' s)) as [Hz Ez]. split; [exact Hz|]. rewrite Ez, Zu, Ou. lia.
  - rewrite <- Es in *. assert (finite (b64_add x kk)) as Hf by (split; [exact Hw|by rewrite Es]).
    destruct (div_value x (b64_add x kk) Hx Hf Hpos) as (Wd & Nd & Ed).
    apply (range_of _ _ _ _ _ Wd Nd Ed Z0 O0). rewrite Zu, Ou. split; [apply rounded_sign; nia|].
    etransitivity; [apply rounded_le; [exact Hpos|]; apply Z.mul_le_mono_nonneg_r; [apply Z.pow_nonneg; lia|exact Hle]|].
    rewrite Z.mul_comm. pose proof (rounded_units one _ O0 Hpos) as Eo. rewrite Ou in Eo.
    etransitivity; [|apply Z.eq_le_incl, Eo]. apply rounded_le; [exact Hpos|]. reflexivity.
Qed.

(** Integers whose sum with [kk] is at most 2^53 are added exactly. *)
Definition exact_sum (x kk : b64) : Prop :=
  b64_integer x = true ∧ b64_integer kk = true ∧ (units x + units kk <= 2 ^ 53 * U).

Lemma exact_sum_units x kk :
  finite x → finite kk → (0 <= units x) → (0 <= units kk) → exact_sum x kk →
  finite (b64_add x kk) ∧ units (b64_add x kk) = units x + units kk.
Proof.
  intros Hx Hk Hx0 Hk0 (Ix%integer_units & Ik%integer_units & Hs); [|assumption..]. pose proof U_pos. pose proof U_limit.
  destruct (add_value x kk Hx Hk) as (Hw & Hn & E).
  assert (units (b64_add x kk) = units x + units kk) as Eu.
  { rewrite E, Ix, Ik, <- Z.mul_add_distr_r. rewrite Ix, Ik, <- Z.mul_add_distr_r in Hs.
    set (z := units x / U + units kk / U) in *.
    assert (0 <= z) by (apply Z.add_nonneg_nonneg; apply Z.div_pos; lia).
    pose proof (rounded_integer z 1 ltac:(nia) ltac:(lia)) as R. by rewrite Z.mul_1_r in R. }
  split; [|exact Eu]. apply finite_between; [assumption..|]. rewrite Eu. lia.
Qed.

Lemma sat_mono x y kk :
  finite x → finite y → (0 <= units x) → (units x <= units y) → in_range one kk top → exact_sum x kk →
  exact_sum y kk → units (sat x kk) <= units (sat y kk).
Proof.
  intros Hx Hy Hx0 Hxy [Hk Hku] Sx Sy. destruct one_finite as [O0 Ou]. pose proof U_pos.
  destruct (exact_sum_units x kk Hx Hk Hx0 ltac:(lia) Sx) as [Fx Ex].
  destruct (exact_sum_units y kk Hy Hk ltac:(lia) ltac:(lia) Sy) as [Fy Ey].
  unfold sat. destruct (div_value x _ Hx Fx ltac:(lia)) as (_ & _ & ->), (div_value y _ Hy Fy ltac:(lia)) as (_ & _ & ->).
  apply rounded_mono; [lia|lia|]. rewrite Ex, Ey.
  pose proof (Z.pow_pos_nonneg 2 1074 ltac:(lia) ltac:(lia)) as HP. revert HP. generalize (2 ^ 1074). intros P HP.
  replace (units x * P * (units y + units kk)) with (P * (units x * units y + units x * units kk)) by ring.
  replace (units y * P * (units x + units kk)) with (P * (units x * units y + units y * units kk)) by ring.
  apply Z.mul_le_mono_nonneg_l; [lia|]. apply Z.add_le_mono_l, Z.mul_le_mono_nonneg_r; lia.
Qed.

(** ** Contributions *)

Definition part (p : RiskScoringPolicy) (key : string) (v : b64) : b64 :=
  round4 (b64_mul (b64_mul (as_number (maxBoost (magnitude_of p))) (number (weights (magnitude_of p)) key))
            (sat v (number (k (magnitude_of p)) key))).

(** The greatest boost. *)
Definition boost_top : b64 := round4 (b64_mul (b64_mul top top) one).

Lemma boost_ranges p key :
  scoring_policy p = true → key ∈ MAGNITUDES →
  in_range zero (as_number (maxBoost (magnitude_of p))) top ∧
  in_range zero (number (weights (magnitude_of p)) key) top ∧ in_range one (number (k (magnitude_of p)) key) top.
Proof.
  intros Hp Hk. unfold scoring_policy in Hp. rewrite !andb_true_iff in Hp.
  destruct Hp as [[[[[_ _] _] Hm] Hw] Hkk]. destruct zero_finite as [Z0 _], one_finite as [O0 _].
  split; [by apply factor_range|]. split; [by eapply (factor_in zero)|by eapply (factor_in one)].
Qed.

(** [p'] weighs nothing less than [p], with the same saturation constants. *)
Record heavier (p p' : RiskScoringPolicy) : Prop := {
  heavier_base key : key ∈ RISK_OPERATION_TYPES → units (number (operationBase p) key) <= units (number (operationBase p') key);
  heavier_reversibility key : key ∈ RISK_REVERSIBILITIES →
    units (number (reversibilityFactor p) key) <= units (number (reversibilityFactor p') key);
  heavier_environment key : key ∈ RISK_ENV_CRITICALITIES →
    units (number (envCriticalityFactor p) key) <= units (number (envCriticalityFactor p') key);
  heavier_boost : units (as_number (maxBoost (magnitude_of p))) <= units (as_number (maxBoost (magnitude_of p')));
  heavier_weights key : key ∈ MAGNITUDES →
    units (number (weights (magnitude_of p)) key) <= units (number (weights (magnitude_of p')) key);
  same_saturation key : key ∈ MAGNITUDES →
    number (k (magnitude_of p)) key = number (k (magnitude_of p')) key;
}.

Lemma heavier_refl p : heavier p p.
Proof. by split. Qed.

Lemma part_argument p key v :
  scoring_policy p = true → key ∈ MAGNITUDES → finite v → (0 <= units v) →
  in_range zero (b64_mul (b64_mul (as_number (maxBoost (magnitude_of p))) (number (weights (magnitude_of p)) key))
                   (sat v (number (k (magnitude_of p)) key))) (b64_mul (b64_mul top top) one).
Proof.
  intros Hp Hk Hv Hv0. destruct (boost_ranges p key Hp Hk) as (Rm & Rw & Rk).
  apply mul_range; [finite_computed..| |by apply sat_range]. apply mul_range; first [finite_computed|assumption].
Qed.

Lemma below_huge x hi : in_range zero x hi → finiteb hi = true → b64_le hi huge = true → in_range zero x huge.
Proof.
  intros Hx Hf Hl. eapply in_range_weaken; [exact Hx|reflexivity|].
  apply units_le_computed; [exact Hf|vm_compute; reflexivity|exact Hl].
Qed.

Lemma round4_zero : round4 zero = zero.
Proof. vm_compute. reflexivity. Qed.

(** [round4] of a bounded number. *)
Lemma round4_bound x hi :
  in_range zero x hi → finiteb hi = true → b64_le hi huge = true → in_range zero (round4 x) (round4 hi).
Proof.
  intros Hx Hf Hl. pose proof (below_huge _ _ Hx Hf Hl) as Hh. pose proof (finiteb_finite _ Hf) as Hhf.
  assert (in_range zero hi huge) as Hi.
  { apply (below_huge _ hi); [|done..]. destruct Hx as [_ ?]. split; [done|]. destruct zero_finite. lia. }
  destruct (round4_mono x hi Hh Hi) as (R & _ & E); [apply Hx|]. rewrite round4_zero in R.
  split; [apply R|]. split; [apply R|exact E].
Qed.

Lemma part_range p key v :
  scoring_policy p = true → key ∈ MAGNITUDES → finite v → (0 <= units v) →
  in_range zero (part p key v) boost_top.
Proof.
  intros Hp Hk Hv Hv0. apply round4_bound; [by apply part_argument|vm_compute; reflexivity..].
Qed.

Lemma part_mono p p' key v w :
  scoring_policy p = true → scoring_policy p' = true → heavier p p' → key ∈ MAGNITUDES →
  finite v → finite w → (0 <= units v) → (units v <= units w) →
  exact_sum v (number (k (magnitude_of p)) key) → exact_sum w (number (k (magnitude_of p)) key) →
  units (part p key v) <= units (part p' key w).
Proof.
  intros Hp Hp' Hpp Hk Hv Hw Hv0 Hvw Sv Sw. destruct (boost_ranges p key Hp Hk) as (Rm & Rw & Rk).
  destruct (boost_ranges p' key Hp' Hk) as (Rm' & Rw' & Rk').
  pose proof (part_argument p key v Hp Hk Hv Hv0) as Av. pose proof (part_argument p' key w Hp' Hk Hw ltac:(lia)) as Aw.
  apply (round4_mono _ _ (below_huge _ _ Av eq_refl eq_refl) (below_huge _ _ Aw eq_refl eq_refl)).
  pose proof (heavier_boost _ _ Hpp) as Lm. pose proof (heavier_weights _ _ Hpp key Hk) as Lw.
  rewrite <- (same_saturation _ _ Hpp key Hk) in *.
  pose proof (sat_range v _ Hv Hv0 Rk) as [? ?]. pose proof (sat_range w _ Hw ltac:(lia) Rk) as [? ?].
  destruct zero_finite as [_ Zu].
  assert (∀ x y, in_range zero x top → in_range zero y top → in_range zero (b64_mul x y) (b64_mul top top)) as M by (intros; ranges).
  destruct (M _ _ Rm Rw), (M _ _ Rm' Rw'), Rm, Rw, Rm', Rw'.
  apply mul_le; try assumption; try lia; [apply mul_le; try assumption; lia|]. apply sat_mono; assumption.
Qed.

(** ** The score *)

(** The sum scaled by the factors, before the final rounding. *)
Definition weighted (base a b c rev env : b64) : b64 :=
  b64_mul (b64_mul (b64_add (b64_add (b64_add base a) b) c) rev) env.

Definition weighted_top : b64 := weighted top boost_top boost_top boost_top top top.

Lemma weighted_range base a b c rev env :
  in_range zero base top → in_range zero a boost_top → in_range zero b boost_top → in_range zero c boost_top →
  in_range zero rev top → in_range zero env top → in_range zero (weighted base a b c rev env) weighted_top.
Proof.
  intros Hb H1 H2 H3 Hr He. unfold weighted, weighted_top, weighted.
  ranges.
Qed.

Lemma weighted_mono base a b c rev env base' a' b' c' rev' env' :
  in_range zero base top → in_range zero a boost_top → in_range zero b boost_top → in_range zero c boost_top →
  in_range zero rev top → in_range zero env top →
  in_range zero base' top → in_range zero a' boost_top → in_range zero b' boost_top → in_range zero c' boost_top →
  in_range zero rev' top → in_range zero env' top →
  (units base <= units base') → (units a <= units a') → (units b <= units b') → (units c <= units c') →
  (units rev <= units rev') → (units env <= units env') →
  units (weighted base a b c rev env) <= units (weighted base' a' b' c' rev' env').
Proof.
  intros Hb1 Ha1 Hb Hc1 Hr1 He1 Hb2 Ha2 Hb' Hc2 Hr2 He2 L0 L1 L2 L3 L4 L5. unfold weighted. destruct zero_finite as [_ Zu].
  assert (∀ w x y z r, in_range zero w top → in_range zero x boost_top → in_range zero y boost_top →
    in_range zero z boost_top → in_range zero r top →
    in_range zero (b64_add w x) (b64_add top boost_top) ∧
    in_range zero (b64_add (b64_add w x) y) (b64_add (b64_add top boost_top) boost_top) ∧
    in_range zero (b64_add (b64_add (b64_add w x) y) z)
      (b64_add (b64_add (b64_add top boost_top) boost_top) boost_top) ∧
    in_range zero (b64_mul (b64_add (b64_add (b64_add w x) y) z) r)
      (b64_mul (b64_add (b64_add (b64_add top boost_top) boost_top) boost_top) top)) as R.
  { intros w x y z r Hw Hx Hy Hz Hr. split_and!; ranges. }
  destruct (R base a b c rev Hb1 Ha1 Hb Hc1 Hr1) as ([? ?] & [? ?] & [? ?] & [? ?]).
  destruct (R base' a' b' c' rev' Hb2 Ha2 Hb' Hc2 Hr2) as ([? ?] & [? ?] & [? ?] & [? ?]). clear R.
  repeat match goal with H : in_range _ _ _ |- _ => destruct H end.
  apply mul_le; try assumption; try lia. apply mul_le; try assumption; try lia.
  apply add_le; try assumption. apply add_le; try assumption. apply add_le; assumption.
Qed.

(** ** What the scorer computes *)

Definition accepted_magnitude (d : dyn) (x : b64) : Prop :=
  d = DNum x ∧ b64_integer x = true ∧ b64_lt x (of_Z 0) = false.

Lemma normalizeMagnitude_ret d f r :
  normalizeMagnitude d f = Ret r → ∃ x, accepted_magnitude r x ∧ (d = DUndef ∧ x = of_Z 0 ∨ d = DNum x).
Proof.
  destruct d as [| | |x| |]; try done; cbn [normalizeMagnitude].
  - intros [= <-]. exists (of_Z 0). split; [|by left]. split; [done|]. split; vm_compute; reflexivity.
  - destruct (b64_integer x) eqn:Ei, (b64_lt x (of_Z 0)) eqn:El; try done. intros [= <-]. exists x. by split; [|right].
Qed.

(** Accepted signals: known classes and magnitudes that are integers from zero on. *)
Record accepted (s n : RiskSignals) (op rev env : string) (dv fo rc : b64) : Prop := {
  ok_operation : operationType n = DStr op ∧ op ∈ RISK_OPERATION_TYPES ∧ operationType s = DStr op;
  ok_reversibility : reversibility n = DStr rev ∧ rev ∈ RISK_REVERSIBILITIES ∧
    nullish (reversibility s) (DStr "recoverable") = DStr rev;
  ok_environment : envCriticality n = DStr env ∧ env ∈ RISK_ENV_CRITICALITIES ∧
    nullish (envCriticality s) (DStr "production") = DStr env;
  ok_dataVolume : accepted_magnitude (dataVolume n) dv ∧ (dataVolume s = DUndef ∧ dv = of_Z 0 ∨ dataVolume s = DNum dv);
  ok_fanOut : accepted_magnitude (fanOut n) fo ∧ (fanOut s = DUndef ∧ fo = of_Z 0 ∨ fanOut s = DNum fo);
  ok_referenceCount : accepted_magnitude (referenceCount n) rc ∧
    (referenceCount s = DUndef ∧ rc = of_Z 0 ∨ referenceCount s = DNum rc);
}.

Lemma includes_str_true names d : includes_str names d = true → ∃ s, d = DStr s ∧ s ∈ names.
Proof. destruct d; try done. intros H%bool_decide_eq_true. by eexists. Qed.

Lemma normalizeRiskSignals_ret s n :
  normalizeRiskSignals s = Ret n → ∃ op rev env dv fo rc, accepted s n op rev env dv fo rc.
Proof.
  unfold normalizeRiskSignals. cbv zeta. intros E.
  apply bind_ret in E as ([] & (op & Eop & Hop)%guard_ret%includes_str_true & E).
  apply bind_ret in E as ([] & (rev & Erev & Hrev)%guard_ret%includes_str_true & E).
  apply bind_ret in E as ([] & (env & Eenv & Henv)%guard_ret%includes_str_true & E).
  apply bind_ret in E as (dv & (x & ? & ?)%normalizeMagnitude_ret & E).
  apply bind_ret in E as (fo & (y & ? & ?)%normalizeMagnitude_ret & E).
  apply bind_ret in E as (rc & (z & ? & ?)%normalizeMagnitude_ret & E). apply Ret_inj in E. subst n.
  exists op, rev, env, x, y, z. by split.
Qed.

(** The score of accepted signals. *)
Definition score_of (p : RiskScoringPolicy) (op rev env : string) (dv fo rc : b64) : b64 :=
  clamp01 (round4 (weighted (number (operationBase p) op) (part p "dataVolume" dv) (part p "fanOut" fo)
                     (part p "referenceCount" rc) (number (reversibilityFactor p) rev)
                     (number (envCriticalityFactor p) env))).

Lemma scoreRiskSignals_ret s p a :
  scoreRiskSignals s p = Ret a →
  ∃ n op rev env dv fo rc, normalizeRiskSignals s = Ret n ∧ accepted s n op rev env dv fo rc ∧
    score a = score_of p op rev env dv fo rc ∧ level a = bandOf (score a) (bands p).
Proof.
  unfold scoreRiskSignals. intros E. apply bind_ret in E as (n & Hn & E). cbv zeta in E.
  destruct (normalizeRiskSignals_ret s n Hn) as (op & rev & env & dv & fo & rc & A).
  exists n, op, rev, env, dv, fo, rc. split; [done|]. split; [done|].
  destruct (ok_dataVolume _ _ _ _ _ _ _ _ A) as [[E1 _] _], (ok_fanOut _ _ _ _ _ _ _ _ A) as [[E2 _] _],
    (ok_referenceCount _ _ _ _ _ _ _ _ A) as [[E3 _] _].
  rewrite (proj1 (ok_operation _ _ _ _ _ _ _ _ A)), (proj1 (ok_reversibility _ _ _ _ _ _ _ _ A)),
    (proj1 (ok_environment _ _ _ _ _ _ _ _ A)), E1, E2, E3 in E.
  apply Ret_inj in E. by subst a.
Qed.

Lemma magnitude_finite s n op rev env dv fo rc :
  accepted s n op rev env dv fo rc → wf_signals s →
  (finite dv ∧ 0 <= units dv) ∧ (finite fo ∧ 0 <= units fo) ∧ (finite rc ∧ 0 <= units rc).
Proof.
  intros [_ _ _ [A1 B1] [A2 B2] [A3 B3]] (W1 & W2 & W3). destruct zero_finite as [Z0 Zu].
  assert (∀ d d' x, accepted_magnitude d' x → wf_dyn d → (d = DUndef ∧ x = of_Z 0 ∨ d = DNum x) → finite x ∧ 0 <= units x) as F.
  { intros d d' x (_ & Hi & Hl) Hw [[-> ->]| ->].
    - split; [exact Z0|]. change (of_Z 0) with zero. lia.
    - assert (finite x) as Fx by (split; [exact Hw|by destruct x]). split; [exact Fx|].
      rewrite lt_units in Hl by first [exact Fx|exact Z0]. change (of_Z 0) with zero in Hl. lia. }
  split; [exact (F _ _ _ A1 W1 B1)|]. split; [exact (F _ _ _ A2 W2 B2)|exact (F _ _ _ A3 W3 B3)].
Qed.

Lemma score_parts p op rev env dv fo rc :
  scoring_policy p = true → op ∈ RISK_OPERATION_TYPES → rev ∈ RISK_REVERSIBILITIES → env ∈ RISK_ENV_CRITICALITIES →
  finite dv ∧ 0 <= units dv → finite fo ∧ 0 <= units fo → finite rc ∧ 0 <= units rc →
  in_range zero (number (operationBase p) op) top ∧ in_range zero (number (reversibilityFactor p) rev) top ∧
  in_range zero (number (envCriticalityFactor p) env) top ∧ in_range zero (part p "dataVolume" dv) boost_top ∧
  in_range zero (part p "fanOut" fo) boost_top ∧ in_range zero (part p "referenceCount" rc) boost_top.
Proof.
  intros Hp Hop Hrev Henv [? ?] [? ?] [? ?]. pose proof Hp as Hp'. unfold scoring_policy in Hp'.
  rewrite !andb_true_iff in Hp'. destruct Hp' as [[[[[Ho Hr] He] _] _] _]. destruct zero_finite as [Z0 _].
  split; [exact (factor_in _ _ _ _ Z0 Ho Hop)|]. split; [exact (factor_in _ _ _ _ Z0 Hr Hrev)|].
  split; [exact (factor_in _ _ _ _ Z0 He Henv)|].
  split; [|split]; (apply part_range; [exact Hp|listed|assumption..]).
Qed.

(** The score is a number in the unit interval. *)
Lemma score_bounds p op rev env dv fo rc :
  scoring_policy p = true → op ∈ RISK_OPERATION_TYPES → rev ∈ RISK_REVERSIBILITIES → env ∈ RISK_ENV_CRITICALITIES →
  finite dv ∧ 0 <= units dv → finite fo ∧ 0 <= units fo → finite rc ∧ 0 <= units rc →
  in_range zero (score_of p op rev env dv fo rc) one.
Proof.
  intros Hp Hop Hrev Henv Hd Hf Hr. destruct (score_parts p op rev env dv fo rc Hp Hop Hrev Henv Hd Hf Hr) as (? & ? & ? & ? & ? & ?).
  pose proof (weighted_range (number (operationBase p) op) (part p "dataVolume" dv) (part p "fanOut" fo)
    (part p "referenceCount" rc) (number (reversibilityFactor p) rev) (number (envCriticalityFactor p) env)) as W.
  pose proof (round4_bound _ _ (W ltac:(assumption) ltac:(assumption) ltac:(assumption) ltac:(assumption) ltac:(assumption) ltac:(assumption))
    eq_refl eq_refl) as [F _].
  apply (clamp01_mono _ _ F F). reflexivity.
Qed.

(** Magnitudes the saturating curve adds exactly: below 2^53 minus its constant. *)
Definition exact_magnitudes (p : RiskScoringPolicy) (dv fo rc : b64) : Prop :=
  exact_sum dv (number (k (magnitude_of p)) "dataVolume") ∧ exact_sum fo (number (k (magnitude_of p)) "fanOut") ∧
  exact_sum rc (number (k (magnitude_of p)) "referenceCount").

Lemma score_mono p p' op rev env dv fo rc dv' fo' rc' :
  scoring_policy p = true → scoring_policy p' = true → heavier p p' →
  op ∈ RISK_OPERATION_TYPES → rev ∈ RISK_REVERSIBILITIES → env ∈ RISK_ENV_CRITICALITIES →
  finite dv ∧ 0 <= units dv → finite fo ∧ 0 <= units fo → finite rc ∧ 0 <= units rc →
  finite dv' → finite fo' → finite rc' →
  (units dv <= units dv') → (units fo <= units fo') → (units rc <= units rc') →
  exact_magnitudes p dv fo rc → exact_magnitudes p dv' fo' rc' →
  units (score_of p op rev env dv fo rc) <= units (score_of p' op rev env dv' fo' rc').
Proof.
  intros Hp Hp' Hpp Hop Hrev Henv Hd Hf Hr Fd Ff Fr Ld Lf Lr (S1 & S2 & S3) (S1' & S2' & S3').
  destruct (score_parts p op rev env dv fo rc Hp Hop Hrev Henv Hd Hf Hr) as (B & R & E & P1 & P2 & P3).
  destruct (score_parts p' op rev env dv' fo' rc' Hp' Hop Hrev Henv) as (B' & R' & E' & P1' & P2' & P3');
    [split; [assumption|lia]..|].
  destruct Hd as [Hd ?], Hf as [Hf ?], Hr as [Hr ?].
  pose proof (part_mono p p' "dataVolume" dv dv' Hp Hp' Hpp ltac:(listed) Hd Fd ltac:(assumption) Ld S1 S1') as M1.
  pose proof (part_mono p p' "fanOut" fo fo' Hp Hp' Hpp ltac:(listed) Hf Ff ltac:(assumption) Lf S2 S2') as M2.
  pose proof (part_mono p p' "referenceCount" rc rc' Hp Hp' Hpp ltac:(listed) Hr Fr ltac:(assumption) Lr S3 S3') as M3.
  pose proof (weighted_range _ _ _ _ _ _ B P1 P2 P3 R E) as W.
  pose proof (weighted_range _ _ _ _ _ _ B' P1' P2' P3' R' E') as W'.
  pose proof (weighted_mono _ _ _ _ _ _ _ _ _ _ _ _ B P1 P2 P3 R E B' P1' P2' P3' R' E'
    (heavier_base _ _ Hpp _ Hop) M1 M2 M3 (heavier_reversibility _ _ Hpp _ Hrev) (heavier_environment _ _ Hpp _ Henv)) as M.
  destruct (round4_mono _ _ (below_huge _ _ W eq_refl eq_refl) (below_huge _ _ W' eq_refl eq_refl) M) as ([F _] & [F' _] & L).
  apply (clamp01_mono _ _ F F' L).
Qed.

(** ** Bands *)

Definition rank (l : RiskLevel) : Z :=
  match l with level_none => 0 | level_low => 1 | level_medium => 2 | level_high => 3 | level_critical => 4 end.

Definition BANDS : list string := ["low"; "medium"; "high"; "critical"].

Definition finite_bands (bs : props) : bool := forallb (λ b, finiteb (number bs b)) BANDS.

(** A greater score under thresholds that are no higher is never in a lower band. *)
Lemma bandOf_mono x y bs bs' :
  finite x → finite y → finite_bands bs = true → finite_bands bs' = true → (units x <= units y) →
  (∀ b, b ∈ BANDS → units (number bs' b) <= units (number bs b)) →
  rank (bandOf x bs) <= rank (bandOf y bs').
Proof.
  intros Hx Hy Hb Hb' Hxy Hl. unfold finite_bands in *. cbn [BANDS forallb] in Hb, Hb'. rewrite !andb_true_iff in Hb, Hb'.
  destruct Hb as (H1%finiteb_finite & H2%finiteb_finite & H3%finiteb_finite & H4%finiteb_finite & _).
  destruct Hb' as (H1'%finiteb_finite & H2'%finiteb_finite & H3'%finiteb_finite & H4'%finiteb_finite & _).
  pose proof (Hl "low" ltac:(listed)). pose proof (Hl "medium" ltac:(listed)).
  pose proof (Hl "high" ltac:(listed)). pose proof (Hl "critical" ltac:(listed)).
  unfold bandOf. rewrite !lt_units by assumption.
  repeat match goal with |- context [(?a <? ?b)] => destruct (Z.ltb_spec a b) end; cbn [rank]; lia.
Qed.

(** ** Properties *)

(** C39. Every score is a number in [0, 1]: under a policy whose base scores,
    boosts, weights and factors are between 0 and 2^100 and whose saturation
    constants are between 1 and 2^100, accepted signals of any size are scored
    between 0 and 1, never as NaN, and banded by that score. *)
Theorem score_in_unit_interval signals policy a :
  scoreRiskSignals signals policy = Ret a → scoring_policy policy = true → wf_signals signals →
  finite (score a) ∧ b64_le (of_Z 0) (score a) = true ∧ b64_le (score a) (of_Z 1) = true ∧
  level a = bandOf (score a) (bands policy).
Proof.
  intros (n & op & rev & env & dv & fo & rc & _ & A & -> & ->)%scoreRiskSignals_ret Hp Hw.
  destruct (magnitude_finite _ _ _ _ _ _ _ _ A Hw) as (Hd & Hf & Hr). destruct zero_finite as [Z0 _], one_finite as [O0 _].
  destruct (score_bounds policy op rev env dv fo rc Hp) as [F [L H]]; try assumption; [apply A..|].
  split; [exact F|]. rewrite !le_units by assumption. split_and!; [by apply Z.leb_le..|done].
Qed.

Definition demo_signals (rows : Z) : RiskSignals :=
  Signals (DStr "destructive") (DStr "irreversible") DUndef (DNum (of_Z rows)) DUndef (DNum (of_Z 12)).
Definition demo_assessment (rows : Z) : exc RiskAssessment := scoreRiskSignals (demo_signals rows) DEFAULT_RISK_POLICY.
Definition assessed (e : exc RiskAssessment) : RiskAssessment :=
  match e with Ret a => a | Throw _ => Assessment BNaN level_none DUndef [] end.

Lemma demo_wf rows : Z.abs rows <= 2 ^ 53 → wf_signals (demo_signals rows).
Proof. intros Hr. split; [apply of_Z_value, Hr|]. split; [exact I|]. apply (of_Z_value 12). lia. Qed.

Lemma score_in_unit_interval_witness :
  finite (score (assessed (demo_assessment 12000))) ∧
  b64_le (of_Z 0) (score (assessed (demo_assessment 12000))) = true ∧
  b64_le (score (assessed (demo_assessment 12000))) (of_Z 1) = true ∧
  level (assessed (demo_assessment 12000)) =
    bandOf (score (assessed (demo_assessment 12000))) (bands DEFAULT_RISK_POLICY).
Proof.
  apply (score_in_unit_interval (demo_signals 12000) DEFAULT_RISK_POLICY).
  - vm_compute. reflexivity.
  - vm_compute. reflexivity.
  - apply demo_wf. lia.
Defined.

(** A magnitude as the scorer reads it. *)
Definition magnitude_value (d : dyn) : b64 := match d with DNum x => x | _ => of_Z 0 end.

Definition exact_signals (p : RiskScoringPolicy) (s : RiskSignals) : Prop :=
  exact_magnitudes p (magnitude_value (dataVolume s)) (magnitude_value (fanOut s)) (magnitude_value (referenceCount s)).

(** The same operation class, with magnitudes that are no smaller. *)
Record at_least_as_large (s s' : RiskSignals) : Prop := {
  same_operation : operationType s = operationType s';
  same_reversibility : reversibility s = reversibility s';
  same_environment : envCriticality s = envCriticality s';
  larger_volume : units (magnitude_value (dataVolume s)) <= units (magnitude_value (dataVolume s'));
  larger_fanOut : units (magnitude_value (fanOut s)) <= units (magnitude_value (fanOut s'));
  larger_references : units (magnitude_value (referenceCount s)) <= units (magnitude_value (referenceCount s'));
}.

Lemma magnitude_value_eq d d' x : accepted_magnitude d' x → (d = DUndef ∧ x = of_Z 0 ∨ d = DNum x) → magnitude_value d = x.
Proof. by intros _ [[-> ->]| ->]. Qed.

(** More data, wider fan-out or more references never lower a score or its
    band, for magnitudes below 2^53 minus the saturation constant (where the
    curve's sum is exact). *)
Theorem larger_magnitudes_score_no_lower s s' policy a a' :
  scoreRiskSignals s policy = Ret a → scoreRiskSignals s' policy = Ret a' → scoring_policy policy = true →
  finite_bands (bands policy) = true → wf_signals s → wf_signals s' →
  at_least_as_large s s' → exact_signals policy s → exact_signals policy s' →
  b64_le (score a) (score a') = true ∧ rank (level a) <= rank (level a').
Proof.
  intros (n & op & rev & env & dv & fo & rc & _ & A & Es & El)%scoreRiskSignals_ret
    (n' & op' & rev' & env' & dv' & fo' & rc' & _ & A' & Es' & El')%scoreRiskSignals_ret Hp Hb Hw Hw' L X X'.
  destruct (magnitude_finite _ _ _ _ _ _ _ _ A Hw) as (Hd & Hf & Hr), (magnitude_finite _ _ _ _ _ _ _ _ A' Hw') as (Hd' & Hf' & Hr').
  destruct A as [(_ & Hop & Eo) (_ & Hrev & Er) (_ & Henv & Ee) [A1 B1] [A2 B2] [A3 B3]].
  destruct A' as [(_ & _ & Eo') (_ & _ & Er') (_ & _ & Ee') [A1' B1'] [A2' B2'] [A3' B3']].
  destruct L as [L1 L2 L3 L4 L5 L6]. unfold exact_signals in X, X'.
  rewrite (magnitude_value_eq _ _ _ A1 B1) in *. rewrite (magnitude_value_eq _ _ _ A2 B2) in *.
  rewrite (magnitude_value_eq _ _ _ A3 B3) in *. rewrite (magnitude_value_eq _ _ _ A1' B1') in *.
  rewrite (magnitude_value_eq _ _ _ A2' B2') in *. rewrite (magnitude_value_eq _ _ _ A3' B3') in *.
  assert (op' = op ∧ rev' = rev ∧ env' = env) as (-> & -> & ->) by (split_and!; congruence).
  destruct (score_bounds policy op rev env dv fo rc Hp Hop Hrev Henv Hd Hf Hr) as [F _].
  destruct (score_bounds policy op rev env dv' fo' rc' Hp Hop Hrev Henv Hd' Hf' Hr') as [F' _].
  pose proof (score_mono policy policy op rev env dv fo rc dv' fo' rc' Hp Hp (heavier_refl _) Hop Hrev Henv Hd Hf Hr (proj1 Hd') (proj1 Hf') (proj1 Hr')
    L4 L5 L6 X X') as M.
  rewrite <- Es in F. rewrite <- Es' in F'. rewrite <- Es, <- Es' in M. split.
  - rewrite le_units by assumption. by apply Z.leb_le.
  - rewrite El, El'. by apply bandOf_mono.
Qed.

Lemma exact_sum_ok x kk :
  finiteb x = true → finiteb kk = true → b64_integer x = true → b64_integer kk = true →
  b64_le x (of_Z (2 ^ 52)) = true → b64_le kk (of_Z (2 ^ 52)) = true → exact_sum x kk.
Proof.
  intros Hx%finiteb_finite Hk%finiteb_finite Ix Ik. destruct (of_Z_value (2 ^ 52) ltac:(lia)) as [F E].
  rewrite !le_units, E by assumption. intros ?%Z.leb_le ?%Z.leb_le. split; [exact Ix|]. split; [exact Ik|]. lia.
Qed.

Lemma larger_magnitudes_score_no_lower_witness :
  b64_le (score (assessed (demo_assessment 100))) (score (assessed (demo_assessment 12000))) = true ∧
  rank (level (assessed (demo_assessment 100))) <= rank (level (assessed (demo_assessment 12000))).
Proof.
  apply (larger_magnitudes_score_no_lower (demo_signals 100) (demo_signals 12000) DEFAULT_RISK_POLICY).
  - vm_compute. reflexivity.
  - vm_compute. reflexivity.
  - vm_compute. reflexivity.
  - vm_compute. reflexivity.
  - apply demo_wf. lia.
  - apply demo_wf. lia.
  - split; [reflexivity|reflexivity|reflexivity|le_computed|le_computed|le_computed].
  - split; [|split]; apply exact_sum_ok; vm_compute; reflexivity.
  - split; [|split]; apply exact_sum_ok; vm_compute; reflexivity.
Defined.
