(* ===== verification/PolicyBounds.v ===== *)
(** * Temperatures of risk policies

    Every accepted temperature yields a policy the bounds of scores hold for, and a
    higher temperature is stricter. *)

From S2P Require Import Prelude Binary64 RiskScore RiskPolicy RiskBounds.

#[local] Open Scope Z_scope.
#[local] Arguments round4 : simpl never.
#[local] Opaque round pack of_Z dec b64_add b64_sub b64_mul b64_div b64_floor b64_min b64_max.

(** ** Interpolation *)

Definition segment (a b : b64) (x : b64) : b64 := round4 (b64_add a (b64_mul (b64_sub b a) x)).

(** The constants of one segment: [a] moves to [b] in the direction [up]. *)
Definition segment_ok (up : bool) (a b : b64) : bool :=
  let d := b64_sub b a in
  finiteb a && finiteb d && (if up then b64_le zero d else b64_le d zero)
  && finiteb (b64_mul d zero) && finiteb (b64_mul d one)
  && finiteb (b64_add a (b64_mul d zero)) && finiteb (b64_add a (b64_mul d one))
  && b64_le zero (b64_add a (b64_mul d zero)) && b64_le zero (b64_add a (b64_mul d one))
  && b64_le (b64_add a (b64_mul d zero)) huge && b64_le (b64_add a (b64_mul d one)) huge.

Lemma segment_dir up a b : segment_ok up a b = true → dir_on up (segment a b) zero one.
Proof.
  unfold segment_ok. cbv zeta. rewrite !andb_true_iff.
  intros [[[[[[[[[[Ha%finiteb_finite Hd%finiteb_finite] Hup] Hm0%finiteb_finite] Hm1%finiteb_finite] F0%finiteb_finite]
    F1%finiteb_finite] L0] L1] H0] H1].
  destruct zero_finite as [Z0 Zu], one_finite as [O0 Ou]. pose proof U_pos. pose proof huge_finite as Hh.
  rewrite le_units in L0, L1, H0, H1 by assumption. apply Z.leb_le in L0, L1, H0, H1.
  assert (in_range zero zero one ∧ in_range zero one one) as [Rz Ro] by (split; (split; [assumption|lia])).
  assert (ordered up 0 (units (b64_sub b a))) as Hs.
  { destruct up; cbn [ordered]; rewrite le_units in Hup by assumption; apply Z.leb_le in Hup; lia. }
  pose proof (dir_mul_l (b64_sub b a) zero one up Hd Hs Z0 O0 Hm0 Hm1) as D.
  assert (dir_on up (λ x, b64_add a (b64_mul (b64_sub b a) x)) zero one) as D'.
  { replace up with (Bool.eqb up true) at 1 by (by destruct up).
    apply (dir_compose up true (λ x, b64_mul (b64_sub b a) x) (λ x, b64_add a x)); [exact D|exact Rz|exact Ro|].
    apply mono_dir. destruct up; cbn [ends fst snd]; apply mono_add_l; assumption. }
  replace up with (Bool.eqb up true) by (by destruct up).
  apply (dir_compose up true (λ x, b64_add a (b64_mul (b64_sub b a) x)) round4); [exact D'|exact Rz|exact Ro|].
  intros x y [Fx Hx] [Fy Hy] Hxy.
  assert (in_range zero x huge ∧ in_range zero y huge) as [Rx Ry].
  { destruct up; cbn [ends fst snd] in *; split; (split; [assumption|lia]). }
  destruct (round4_mono x y Rx Ry Hxy) as ([Gx _] & [Gy _] & Gl). exact (conj Gx (conj Gy Gl)).
Qed.

(** The position of [t] in its segment. *)
Lemma first_fraction : dir_on true (λ t, b64_div t half) zero half.
Proof.
  apply mono_dir, mono_div; try finite_computed. apply Z.ltb_lt. vm_compute. reflexivity.
Qed.
Lemma second_fraction : dir_on true (λ t, b64_div (b64_sub t half) half) half one.
Proof.
  apply (dir_compose true true (λ t, b64_add t (b64_opp half)) (λ x, b64_div x half)).
  - apply mono_dir, mono_add; finite_computed.
  - split; [finite_computed|]. split; le_computed.
  - split; [finite_computed|]. split; le_computed.
  - cbn [ends fst snd]. apply mono_dir, mono_div; try finite_computed. apply Z.ltb_lt. vm_compute. reflexivity.
Qed.

Definition endpoint_ok (up : bool) (e : endpoint) : bool :=
  segment_ok up (lenient e) (reference e) && segment_ok up (reference e) (strict e)
  && finiteb (segment (lenient e) (reference e) one) && finiteb (segment (reference e) (strict e) zero)
  && (if up then b64_le (segment (lenient e) (reference e) one) (segment (reference e) (strict e) zero)
      else b64_le (segment (reference e) (strict e) zero) (segment (lenient e) (reference e) one)).

Lemma lerp_segments e t :
  lerpTemperature e t =
  if b64_le t half then segment (lenient e) (reference e) (b64_div t half)
  else segment (reference e) (strict e) (b64_div (b64_sub t half) half).
Proof. reflexivity. Qed.

Lemma half_bounds : 0 <= units half <= units one.
Proof. destruct zero_finite as [_ <-]. split; le_computed. Qed.

Lemma lerp_dir up e : endpoint_ok up e = true → dir_on up (lerpTemperature e) zero one.
Proof.
  unfold endpoint_ok. rewrite !andb_true_iff. intros [[[[S1 S2] F1%finiteb_finite] F2%finiteb_finite] Hmid] x y [Fx Hx] [Fy Hy] Hxy.
  destruct zero_finite as [Z0 Zu], one_finite as [O0 Ou]. pose proof half_finite as Hf. pose proof half_bounds as Hh. pose proof U_pos.
  apply segment_dir in S1, S2.
  assert (in_range zero zero half ∧ in_range zero half half) as [Ra Rb] by (split; (split; [assumption|lia])).
  assert (in_range half half one ∧ in_range half one one) as [Rc Rd] by (split; (split; [assumption|lia])).
  assert (b64_div zero half = zero ∧ b64_div half half = one) as [E0 E1] by (split; vm_compute; reflexivity).
  assert (b64_div (b64_sub half half) half = zero ∧ b64_div (b64_sub one half) half = one) as [E2 E3] by (split; vm_compute; reflexivity).
  assert (dir_on up (λ t, segment (lenient e) (reference e) (b64_div t half)) zero half) as D1.
  { replace up with (Bool.eqb true up) by (by destruct up).
    apply (dir_compose true up (λ t, b64_div t half)); [exact first_fraction|exact Ra|exact Rb|].
    cbn [ends fst snd]. rewrite E0, E1. exact S1. }
  assert (dir_on up (λ t, segment (reference e) (strict e) (b64_div (b64_sub t half) half)) half one) as D2.
  { replace up with (Bool.eqb true up) by (by destruct up).
    apply (dir_compose true up (λ t, b64_div (b64_sub t half) half)); [exact second_fraction|exact Rc|exact Rd|].
    cbn [ends fst snd]. rewrite E2, E3. exact S2. }
  rewrite !lerp_segments, !le_units by assumption.
  destruct (Z.leb_spec (units x) (units half)), (Z.leb_spec (units y) (units half)); [| |lia|].
  - apply D1; [split; [assumption|lia]..|exact Hxy].
  - destruct (D1 x half) as (Gx & _ & Lx); [split; [assumption|lia]|exact Rb|assumption|].
    destruct (D2 half y) as (_ & Gy & Ly); [exact Rc|split; [assumption|lia]|lia|].
    split; [exact Gx|]. split; [exact Gy|]. rewrite E1 in Lx. rewrite E2 in Ly.
    destruct up; cbn [ordered] in *; rewrite le_units in Hmid by assumption; apply Z.leb_le in Hmid; lia.
  - apply D2; [split; [assumption|lia]..|exact Hxy].
Qed.

(** ** The pinned endpoints *)

Definition rising : list endpoint := [decayEndpoint; maxBoostEndpoint; irreversibleFactor; productionFactor].
Definition falling : list endpoint := [bandsLow; bandsMedium; bandsHigh; bandsCritical; velocityEndpoint].

Lemma rising_ok : forallb (endpoint_ok true) rising = true.
Proof. vm_compute. reflexivity. Qed.
Lemma falling_ok : forallb (endpoint_ok false) falling = true.
Proof. vm_compute. reflexivity. Qed.

Lemma rising_dir e : e ∈ rising → dir_on true (lerpTemperature e) zero one.
Proof. intros He. apply lerp_dir. pose proof rising_ok as R. rewrite forallb_forall in R. by apply R, list_elem_of_In. Qed.
Lemma falling_dir e : e ∈ falling → dir_on false (lerpTemperature e) zero one.
Proof. intros He. apply lerp_dir. pose proof falling_ok as R. rewrite forallb_forall in R. by apply R, list_elem_of_In. Qed.

Lemma unit_ends : in_range zero zero one ∧ in_range zero one one.
Proof. destruct zero_finite, one_finite. pose proof U_pos. split; (split; [assumption|lia]). Qed.

Lemma rising_range e t :
  e ∈ rising → in_range zero t one → in_range (lerpTemperature e zero) (lerpTemperature e t) (lerpTemperature e one).
Proof. intros He Ht. destruct unit_ends as [Rz Ro]. exact (dir_range true _ _ _ t (rising_dir e He) Rz Ro Ht). Qed.
Lemma falling_range e t :
  e ∈ falling → in_range zero t one → in_range (lerpTemperature e one) (lerpTemperature e t) (lerpTemperature e zero).
Proof. intros He Ht. destruct unit_ends as [Rz Ro]. exact (dir_range false _ _ _ t (falling_dir e He) Rz Ro Ht). Qed.

(** Bounds from computed bounds of a range. *)
Lemma range_ge lo x hi c : in_range lo x hi → finiteb lo = true → finiteb c = true → b64_le c lo = true → units c <= units x.
Proof. intros [_ Hx] Hl Hc Hle. pose proof (units_le_computed c lo Hc Hl Hle). lia. Qed.
Lemma range_le lo x hi c : in_range lo x hi → finiteb hi = true → finiteb c = true → b64_le hi c = true → units x <= units c.
Proof. intros [_ Hx] Hh Hc Hle. pose proof (units_le_computed hi c Hh Hc Hle). lia. Qed.


Lemma rising_factor e t : e ∈ rising → in_range zero t one → factor_ok zero (lerpTemperature e t) = true.
Proof.
  intros He Ht. pose proof (rising_range e t He Ht) as R. destruct zero_finite as [Z0 _]. pose proof top_finite as T0.
  unfold factor_ok. rewrite !le_units by first [assumption|apply R]. rewrite (proj2 (finiteb_spec _) (proj1 R)).
  assert (b64_le zero (lerpTemperature e zero) = true ∧ b64_le (lerpTemperature e one) top = true ∧
          finiteb (lerpTemperature e zero) = true ∧ finiteb (lerpTemperature e one) = true) as (L & H & F & G).
  { unfold rising in He. repeat (apply elem_of_cons in He as [->|He]; [split_and!; vm_compute; reflexivity|]).
    by apply elem_of_nil in He. }
  pose proof (range_ge _ _ _ zero R F eq_refl L) as Lo. pose proof (range_le _ _ _ top R G eq_refl H) as Hi.
  apply andb_true_iff. split; [by apply Z.leb_le|by apply Z.leb_le].
Qed.

Lemma prop_define {A} key (v : A) fields key' :
  prop key' (define_prop key v fields) = if String.eqb key key' then Some v else prop key' fields.
Proof.
  induction fields as [|[k w] fields IH]; cbn [define_prop prop]; [done|].
  destruct (String.eqb_spec k key) as [->|Hk]; cbn [prop].
  - by destruct (String.eqb key key').
  - rewrite IH. destruct (String.eqb_spec k key') as [->|]; [|done].
    by rewrite (proj2 (String.eqb_neq key key') (not_eq_sym Hk)).
Qed.

Lemma number_define key x fields key' :
  number (define_prop key (DNum x) fields) key' = if String.eqb key key' then x else number fields key'.
Proof. unfold number, get. rewrite prop_define. by destruct (String.eqb key key'). Qed.

Lemma factors_define lo key x fields names :
  factor_ok lo x = true → forallb (λ n, factor_ok lo (number fields n)) names = true →
  forallb (λ n, factor_ok lo (number (define_prop key (DNum x) fields) n)) names = true.
Proof.
  rewrite !forallb_forall. intros Hx Hf n Hn. rewrite number_define.
  destruct (String.eqb key n); [exact Hx|exact (Hf n Hn)].
Qed.

Lemma default_scoring : scoring_policy DEFAULT_RISK_POLICY = true.
Proof. vm_compute. reflexivity. Qed.

Lemma temperature_scoring version t :
  in_range zero t one → scoring_policy (at_temperature DEFAULT_RISK_POLICY version t) = true.
Proof.
  intros Ht. pose proof default_scoring as D. unfold scoring_policy in *. cbv zeta in *.
  unfold at_temperature. cbv zeta. cbn [operationBase reversibilityFactor envCriticalityFactor magnitude_of maxBoost weights k].
  rewrite !andb_true_iff in *. destruct D as [[[[[Do Dr] De] _] Dw] Dk].
  refine (conj (conj (conj (conj (conj Do _) _) _) Dw) Dk).
  - apply factors_define; [|exact Dr]. apply rising_factor; [listed|exact Ht].
  - apply factors_define; [|exact De]. apply rising_factor; [listed|exact Ht].
  - apply rising_factor; [listed|exact Ht].
Qed.

(** ** Accepted temperatures *)

Lemma temperatureHundredths_ret d h :
  temperatureHundredths d = Ret h →
  ∃ t, d = DNum t ∧ b64_finite t = true ∧ b64_lt t (of_Z 0) = false ∧ b64_lt (of_Z 1) t = false.
Proof.
  destruct d as [| | |t| |]; try discriminate. unfold temperatureHundredths.
  destruct (negb (b64_finite t) || b64_lt t (of_Z 0) || b64_lt (of_Z 1) t) eqn:C; [discriminate|]. intros _.
  apply orb_false_iff in C as [[C1%negb_false_iff C2]%orb_false_iff C3]. exists t. exact (conj eq_refl (conj C1 (conj C2 C3))).
Qed.

Lemma accepted_unit d h : wf_dyn d → temperatureHundredths d = Ret h → ∃ t, d = DNum t ∧ in_range zero t one.
Proof.
  intros Hw (t & -> & Hf & Hl & Hh)%temperatureHundredths_ret. exists t. split; [done|].
  assert (finite t) as Ft by (split; assumption). change (of_Z 0) with zero in Hl. change (of_Z 1) with one in Hh.
  rewrite lt_units in Hl by first [exact Ft|apply zero_finite]. rewrite lt_units in Hh by first [exact Ft|apply one_finite].
  apply Z.ltb_ge in Hl, Hh. split; [exact Ft|lia].
Qed.

(** The bands of a temperature, in four disjoint ranges. *)
Lemma falling_below e e' t :
  e ∈ falling → e' ∈ falling → in_range zero t one →
  finiteb (lerpTemperature e zero) = true → finiteb (lerpTemperature e' one) = true →
  b64_lt (lerpTemperature e zero) (lerpTemperature e' one) = true →
  b64_lt (lerpTemperature e t) (lerpTemperature e' t) = true.
Proof.
  intros He He' Ht Fz%finiteb_finite Fo%finiteb_finite Hlt. destruct (falling_range e t He Ht) as [Fe [_ Hu]].
  destruct (falling_range e' t He' Ht) as [Fe' [Hl _]]. rewrite lt_units in * by assumption.
  apply Z.ltb_lt in Hlt. apply Z.ltb_lt. lia.
Qed.

Lemma forallb_define (P : dyn → bool) key v fields :
  P v = true → forallb P (values fields) = true → forallb P (values (define_prop key v fields)) = true.
Proof.
  intros Hv. induction fields as [|[k w] fields IH]; cbn [define_prop values fmap list_fmap forallb snd].
  - by rewrite Hv.
  - intros [Hw Hf]%andb_true_iff. destruct (String.eqb k key); cbn [values fmap list_fmap forallb snd].
    + by rewrite Hv.
    + rewrite Hw. by apply IH.
Qed.

Definition finite_leaf (d : dyn) : bool := match d with DNum x => b64_finite x | _ => false end.
Definition positive (d : dyn) : bool := negb (b64_le (as_number d) (of_Z 0)).

Lemma existsb_negb {A} (P : A → bool) l : existsb P l = negb (forallb (λ x, negb (P x)) l).
Proof. induction l as [|x l IH]; cbn; [done|]. rewrite IH. by destruct (P x). Qed.

(** What an accepted policy satisfies. *)
Record derived_policy (p : RiskScoringPolicy) : Prop := {
  dp_leaves : forallb finite_leaf
    (values (operationBase p) ++ values (reversibilityFactor p) ++ values (envCriticalityFactor p)
     ++ [maxBoost (magnitude_of p)] ++ values (weights (magnitude_of p)) ++ values (k (magnitude_of p)) ++ values (bands p)
     ++ [windowSeconds (rollup p); decayPerWindow (rollup p); velocityNormalizer (rollup p)]) = true;
  dp_bands : b64_lt (number (bands p) "low") (number (bands p) "medium") = true ∧
    b64_lt (number (bands p) "medium") (number (bands p) "high") = true ∧
    b64_lt (number (bands p) "high") (number (bands p) "critical") = true;
  dp_factors : forallb positive (values (reversibilityFactor p) ++ values (envCriticalityFactor p)) = true;
  dp_window : positive (windowSeconds (rollup p)) = true;
  dp_velocity : positive (velocityNormalizer (rollup p)) = true;
  dp_version : is_nonempty_str (policyVersion p) = true;
}.

Lemma guard_true b msg : guard_exc b msg = Ret () ↔ b = true.
Proof. unfold guard_exc. by destruct b. Qed.

Lemma assertDerivedPolicy_spec p : assertDerivedPolicy p = Ret () ↔ derived_policy p.
Proof.
  unfold assertDerivedPolicy. cbv zeta. split.
  - intros E. apply bind_ret in E as ([] & E1%guard_true & E). apply bind_ret in E as ([] & E2%guard_true & E).
    apply bind_ret in E as ([] & E3%guard_true & E). apply bind_ret in E as ([] & E4%guard_true & E5%guard_true).
    rewrite !andb_true_iff in E2. rewrite existsb_negb, negb_involutive in E3. rewrite negb_orb, andb_true_iff in E4.
    destruct E2 as [[? ?] ?], E4. split; [exact E1|by split_and!|exact E3|assumption..].
  - intros [D1 (D2 & D2' & D2'') D3 D4 D5 D6]. unfold finite_leaf in D1. rewrite D1. cbn [guard_exc mbind exc_mbind].
    rewrite D2, D2', D2''. cbn [andb guard_exc mbind exc_mbind]. rewrite existsb_negb, negb_involutive.
    unfold positive in D3. rewrite D3. cbn [guard_exc mbind exc_mbind]. unfold positive in D4, D5.
    rewrite negb_orb, D4, D5. cbn [andb guard_exc mbind exc_mbind]. by rewrite D6.
Qed.

Lemma default_derived : derived_policy DEFAULT_RISK_POLICY.
Proof. split; [| split_and!| | | |]; vm_compute; reflexivity. Qed.

Lemma rising_lower e t c :
  e ∈ rising → in_range zero t one → finiteb (lerpTemperature e zero) = true → finiteb c = true →
  b64_le c (lerpTemperature e zero) = true → units c <= units (lerpTemperature e t).
Proof. intros He Ht. apply (range_ge _ _ _ c (rising_range e t He Ht)). Qed.

Lemma falling_lower e t c :
  e ∈ falling → in_range zero t one → finiteb (lerpTemperature e one) = true → finiteb c = true →
  b64_le c (lerpTemperature e one) = true → units c <= units (lerpTemperature e t).
Proof. intros He Ht. apply (range_ge _ _ _ c (falling_range e t He Ht)). Qed.

Lemma positive_ok x : finite x → (units one <= units x) ∨ (units half <= units x) → positive (DNum x) = true.
Proof.
  intros Hx Hu. unfold positive. change (as_number (DNum x)) with x. change (of_Z 0) with zero.
  destruct zero_finite as [Z0 Zu], one_finite as [_ Ou]. pose proof U_pos.
  assert (0 < units half) by (rewrite <- Zu; apply Z.ltb_lt; vm_compute; reflexivity).
  rewrite le_units by assumption. apply negb_true_iff, Z.leb_gt. lia.
Qed.

Lemma rising_finite e t : e ∈ rising → in_range zero t one → finite (lerpTemperature e t).
Proof. intros He Ht. apply (rising_range e t He Ht). Qed.
Lemma falling_finite e t : e ∈ falling → in_range zero t one → finite (lerpTemperature e t).
Proof. intros He Ht. apply (falling_range e t He Ht). Qed.

Lemma finite_leaf_ok x : finite x → finite_leaf (DNum x) = true.
Proof. by intros [_ ?]. Qed.

Lemma temperature_derived version t :
  in_range zero t one → version ≠ "" → derived_policy (at_temperature DEFAULT_RISK_POLICY version t).
Proof.
  intros Ht Hv. destruct default_derived as [D1 _ D3 D4 _ _]. rewrite !forallb_app in D1. rewrite !andb_true_iff in D1.
  rewrite forallb_app, andb_true_iff in D3. destruct D1 as (L1 & L2 & L3 & _ & L5 & L6 & _ & L8), D3 as [P1 P2].
  unfold at_temperature. split; cbn [operationBase reversibilityFactor envCriticalityFactor magnitude_of maxBoost weights k
    bands rollup windowSeconds decayPerWindow velocityNormalizer policyVersion].
  - rewrite !forallb_app, !andb_true_iff. split; [exact L1|].
    split; [apply forallb_define; [apply finite_leaf_ok, rising_finite; [listed|exact Ht]|exact L2]|].
    split; [apply forallb_define; [apply finite_leaf_ok, rising_finite; [listed|exact Ht]|exact L3]|].
    split; [apply andb_true_iff; split; [apply finite_leaf_ok, rising_finite; [listed|exact Ht]|reflexivity]|].
    split; [exact L5|]. split; [exact L6|]. split.
    + cbn [values fmap list_fmap snd forallb].
      rewrite !andb_true_iff. split_and!; try reflexivity; apply finite_leaf_ok, falling_finite; (listed || exact Ht).
    + cbn [forallb]. rewrite !andb_true_iff. split; [vm_compute; reflexivity|].
      split; [apply finite_leaf_ok, rising_finite; [listed|exact Ht]|].
      split; [apply finite_leaf_ok, falling_finite; [listed|exact Ht]|reflexivity].
  - split_and!.
    + apply (falling_below bandsLow bandsMedium t); [listed|listed|exact Ht|vm_compute; reflexivity..].
    + apply (falling_below bandsMedium bandsHigh t); [listed|listed|exact Ht|vm_compute; reflexivity..].
    + apply (falling_below bandsHigh bandsCritical t); [listed|listed|exact Ht|vm_compute; reflexivity..].
  - rewrite forallb_app, andb_true_iff. split; apply forallb_define; try assumption;
      (apply positive_ok; [apply rising_finite; [listed|exact Ht]|right;
       apply rising_lower; [listed|exact Ht|vm_compute; reflexivity..]]).
  - exact D4.
  - apply positive_ok; [apply falling_finite; [listed|exact Ht]|left].
    apply falling_lower; [listed|exact Ht|vm_compute; reflexivity..].
  - unfold is_nonempty_str. by apply negb_true_iff, String.eqb_neq.
Qed.

Lemma temperatureVersion_nonempty h : temperatureVersion h ≠ "".
Proof. unfold temperatureVersion. cbv zeta. discriminate. Qed.

(** Every accepted temperature gives a policy. *)
Lemma riskPolicy_temperature t h :
  in_range zero t one → temperatureHundredths (DNum t) = Ret h →
  riskPolicy (Options (Some (DNum t)) None) = Ret (at_temperature DEFAULT_RISK_POLICY (temperatureVersion h) t).
Proof.
  intros Ht Eh. unfold riskPolicy. cbn [temperature overrides]. rewrite Eh. cbn [mbind exc_mbind as_number].
  rewrite (proj2 (assertDerivedPolicy_spec _)); [reflexivity|].
  apply temperature_derived; [exact Ht|apply temperatureVersion_nonempty].
Qed.

Lemma rising_le e t t' :
  e ∈ rising → in_range zero t one → in_range zero t' one → units t <= units t' →
  units (lerpTemperature e t) <= units (lerpTemperature e t').
Proof. intros He Ht Ht' Hle. apply (rising_dir e He t t' Ht Ht' Hle). Qed.
Lemma falling_le e t t' :
  e ∈ falling → in_range zero t one → in_range zero t' one → units t <= units t' →
  units (lerpTemperature e t') <= units (lerpTemperature e t).
Proof. intros He Ht Ht' Hle. apply (falling_dir e He t t' Ht Ht' Hle). Qed.

(** A higher temperature weighs more ... *)
Lemma temperature_heavier v v' t t' :
  in_range zero t one → in_range zero t' one → units t <= units t' →
  heavier (at_temperature DEFAULT_RISK_POLICY v t) (at_temperature DEFAULT_RISK_POLICY v' t').
Proof.
  intros Ht Ht' Hle.
  split; unfold at_temperature; cbn [operationBase reversibilityFactor envCriticalityFactor magnitude_of maxBoost weights k];
    try reflexivity.
  - intros key _. rewrite !number_define. destruct (String.eqb _ key); [|reflexivity].
    apply rising_le; [listed|assumption..].
  - intros key _. rewrite !number_define. destruct (String.eqb _ key); [|reflexivity].
    apply rising_le; [listed|assumption..].
  - apply rising_le; [listed|assumption..].
Qed.

(** ... and has lower bands. *)
Lemma temperature_bands v v' t t' b :
  in_range zero t one → in_range zero t' one → units t <= units t' → b ∈ BANDS →
  units (number (bands (at_temperature DEFAULT_RISK_POLICY v' t')) b) <=
  units (number (bands (at_temperature DEFAULT_RISK_POLICY v t)) b).
Proof.
  intros Ht Ht' Hle Hb. unfold BANDS in Hb.
  repeat (apply elem_of_cons in Hb as [->|Hb]; [apply falling_le; [listed|assumption..]|]). by apply elem_of_nil in Hb.
Qed.

Lemma temperature_finite_bands v t :
  in_range zero t one → finite_bands (bands (at_temperature DEFAULT_RISK_POLICY v t)) = true.
Proof.
  intros Ht. unfold finite_bands. rewrite forallb_forall. intros b Hb%list_elem_of_In. apply finiteb_spec. unfold BANDS in Hb.
  repeat (apply elem_of_cons in Hb as [->|Hb]; [apply falling_finite; [listed|exact Ht]|]). by apply elem_of_nil in Hb.
Qed.

(** ** Properties *)

(** Every accepted temperature (a number in [0, 1] within 10^-9 hundredths of
    a multiple of 0.01) yields a policy: the derivation cannot produce one its own
    structural check refuses, the bands are strictly ascending, and the factors
    are in the range the bounds of scores need. *)
Theorem temperature_policies_valid d h :
  wf_dyn d → temperatureHundredths d = Ret h →
  ∃ p, riskPolicy (Options (Some d) None) = Ret p ∧ derived_policy p ∧ scoring_policy p = true ∧
    finite_bands (bands p) = true.
Proof.
  intros Hw Eh. destruct (accepted_unit d h Hw Eh) as (t & -> & Ht).
  exists (at_temperature DEFAULT_RISK_POLICY (temperatureVersion h) t).
  split; [by apply riskPolicy_temperature|]. split; [apply temperature_derived, temperatureVersion_nonempty; exact Ht|].
  split; [by apply temperature_scoring|by apply temperature_finite_bands].
Qed.

Definition warm : b64 := dec 7 (-1).
Lemma warm_finite : finite warm.
Proof. finite_computed. Qed.

Lemma temperature_policies_valid_witness :
  ∃ p, riskPolicy (Options (Some (DNum warm)) None) = Ret p ∧ derived_policy p ∧ scoring_policy p = true ∧
    finite_bands (bands p) = true.
Proof.
  apply (temperature_policies_valid (DNum warm) (of_Z 70)).
  - exact (proj1 warm_finite).
  - vm_compute. reflexivity.
Defined.

(** A higher temperature is stricter: the same signals never get a lower
    score or a lower band (magnitudes below 2^53 minus the saturation constant). *)
Theorem higher_temperature_stricter d d' p p' signals a a' :
  riskPolicy (Options (Some d) None) = Ret p → riskPolicy (Options (Some d') None) = Ret p' →
  wf_dyn d → wf_dyn d' → units (as_number d) <= units (as_number d') →
  scoreRiskSignals signals p = Ret a → scoreRiskSignals signals p' = Ret a' →
  wf_signals signals → exact_signals DEFAULT_RISK_POLICY signals →
  b64_le (score a) (score a') = true ∧ rank (level a) <= rank (level a').
Proof.
  intros Ep Ep' Hw Hw' Hle Ea Ea' Hs Hx.
  assert (∀ d p, wf_dyn d → riskPolicy (Options (Some d) None) = Ret p → ∃ v t, d = DNum t ∧ in_range zero t one ∧
    p = at_temperature DEFAULT_RISK_POLICY v t) as Hpol.
  { intros d0 p0 Hd E. destruct (temperatureHundredths d0) as [h|] eqn:Eh.
    - destruct (accepted_unit d0 h Hd Eh) as (t & -> & Ht). rewrite (riskPolicy_temperature t h Ht Eh) in E.
      apply Ret_inj in E. exists (temperatureVersion h), t. by split_and!.
    - unfold riskPolicy in E. cbn [temperature] in E. by rewrite Eh in E. }
  destruct (Hpol d p Hw Ep) as (v & t & -> & Ht & ->), (Hpol d' p' Hw' Ep') as (v' & t' & -> & Ht' & ->). cbn [as_number] in Hle.
  apply scoreRiskSignals_ret in Ea as (n & op & rev & env & dv & fo & rc & En & A & Es & El).
  apply scoreRiskSignals_ret in Ea' as (n' & op' & rev' & env' & dv' & fo' & rc' & En' & A' & Es' & El').
  assert (op' = op ∧ rev' = rev ∧ env' = env ∧ dv' = dv ∧ fo' = fo ∧ rc' = rc) as (-> & -> & -> & -> & -> & ->).
  { rewrite En in En'. apply Ret_inj in En'. subst n'.
    destruct A as [(E1 & _) (E2 & _) (E3 & _) [[E4 _] _] [[E5 _] _] [[E6 _] _]].
    destruct A' as [(E1' & _) (E2' & _) (E3' & _) [[E4' _] _] [[E5' _] _] [[E6' _] _]]. split_and!; congruence. }
  destruct (magnitude_finite _ _ _ _ _ _ _ _ A Hs) as (Hd & Hf & Hr).
  destruct A as [(_ & Hop & _) (_ & Hrev & _) (_ & Henv & _) [A1 B1] [A2 B2] [A3 B3]]. unfold exact_signals in Hx.
  rewrite (magnitude_value_eq _ _ _ A1 B1), (magnitude_value_eq _ _ _ A2 B2), (magnitude_value_eq _ _ _ A3 B3) in Hx.
  destruct (score_bounds _ op rev env dv fo rc (temperature_scoring v t Ht) Hop Hrev Henv Hd Hf Hr) as [F _].
  destruct (score_bounds _ op rev env dv fo rc (temperature_scoring v' t' Ht') Hop Hrev Henv Hd Hf Hr) as [F' _].
  pose proof (score_mono _ _ op rev env dv fo rc dv fo rc (temperature_scoring v t Ht) (temperature_scoring v' t' Ht')
    (temperature_heavier v v' t t' Ht Ht' Hle) Hop Hrev Henv Hd Hf Hr (proj1 Hd) (proj1 Hf) (proj1 Hr)
    ltac:(reflexivity) ltac:(reflexivity) ltac:(reflexivity) Hx Hx) as M.
  rewrite <- Es in F, M. rewrite <- Es' in F', M. split.
  - rewrite le_units by assumption. by apply Z.leb_le.
  - rewrite El, El'. apply bandOf_mono; try assumption; [by apply temperature_finite_bands..|].
    intros b Hb. by apply temperature_bands.
Qed.

Definition hot : b64 := dec 9 (-1).
Lemma hot_finite : finite hot.
Proof. finite_computed. Qed.
Definition policy_of (e : exc RiskScoringPolicy) : RiskScoringPolicy :=
  match e with Ret p => p | Throw _ => DEFAULT_RISK_POLICY end.
Definition policy_at (t : b64) : RiskScoringPolicy := policy_of (riskPolicy (Options (Some (DNum t)) None)).

Lemma higher_temperature_stricter_witness :
  b64_le (score (assessed (scoreRiskSignals (demo_signals 100) (policy_at warm))))
    (score (assessed (scoreRiskSignals (demo_signals 100) (policy_at hot)))) = true ∧
  rank (level (assessed (scoreRiskSignals (demo_signals 100) (policy_at warm)))) <=
  rank (level (assessed (scoreRiskSignals (demo_signals 100) (policy_at hot)))).
Proof.
  apply (higher_temperature_stricter (DNum warm) (DNum hot) (policy_at warm) (policy_at hot) (demo_signals 100)).
  - vm_compute. reflexivity.
  - vm_compute. reflexivity.
  - exact (proj1 warm_finite).
  - exact (proj1 hot_finite).
  - le_computed.
  - vm_compute. reflexivity.
  - vm_compute. reflexivity.
  - apply demo_wf. lia.
  - split; [|split]; apply exact_sum_ok; vm_compute; reflexivity.
Defined.

(** A saturation constant of zero passes the policy check, and an operation
    without references then scores NaN, which is banded critical. *)
Definition zero_saturation : RiskPolicyOptions :=
  Options None (Some (2%nat, Overrides (DStr "tuned") [] [] [] DUndef [] [("referenceCount", DNum (of_Z 0))] []
                           DUndef DUndef DUndef None)).

Example zero_saturation_scores_critical :
  match riskPolicy zero_saturation with
  | Ret policy => match scoreRiskSignals (Signals (DStr "read") DUndef (DStr "sandbox") DUndef DUndef DUndef) policy with
                  | Ret a => bool_decide (level a = level_critical) && negb (b64_finite (score a))
                  | Throw _ => false
                  end
  | Throw _ => false
  end = true.
Proof. vm_compute. reflexivity. Qed.

(** A member that no policy has is kept by the merge. *)
Example unknown_override_kept :
  match riskPolicy (Options None (Some (2%nat, Overrides (DStr "tuned") [("launch", DNum (of_Z 1))] [] [] DUndef [] [] []
                                             DUndef DUndef DUndef None))) with
  | Ret policy => bool_decide ("launch" ∈ fst <$> operationBase policy)
  | Throw _ => false
  end = true.
Proof. vm_compute. reflexivity. Qed.
