(* ===== verification/Episode.v ===== *)
(** * Episodes of risk steps

    The sliding window of a frequency rule counts what it means to, and the rollup
    ends and does not depend on the order of the steps. *)

From S2P Require Import Prelude Dates Binary64 RiskScore RiskPolicy RiskBounds.

#[local] Open Scope Z_scope.
#[local] Arguments round4 : simpl never.
#[local] Arguments clamp01 : simpl never.
#[local] Opaque round pack of_Z dec b64_add b64_sub b64_mul b64_div b64_floor b64_min b64_max.

(** ** The sliding window *)

Section Window.
Context (times : list b64) (limit : b64).

(** The [i]-th time is too far before the [j]-th. *)
Definition outside (i j : nat) : bool := b64_lt limit (b64_sub (time_at times j) (time_at times i)).

(** How many of the times up to the [j]-th are in the window that ends with it. *)
Definition window_at (j : nat) : Z :=
  Z.of_nat (length (List.filter (λ i, negb (outside i j)) (seq 0 (S j)))).

(** The greatest number of times in a window. *)
Definition greatest_window : Z := fold_left Z.max (window_at <$> seq 0 (length times)) 0.

Context (Hearlier : ∀ i i' j, (i ≤ i' ≤ j)%nat → (j < length times)%nat → outside i' j = true → outside i j = true).
Context (Hlater : ∀ i j j', (i ≤ j ≤ j')%nat → (j' < length times)%nat → outside i j = true → outside i j' = true).
Context (Hself : ∀ j, (j < length times)%nat → outside j j = false).

Lemma advance_spec j fuel : ∀ start,
  (start ≤ j < length times)%nat → (j - start < fuel)%nat → (∀ i, (i < start)%nat → outside i j = true) →
  let s := advance fuel times (time_at times j) limit start in
  (start ≤ s ≤ j)%nat ∧ (∀ i, (i < s)%nat → outside i j = true) ∧ outside s j = false.
Proof using Hself.
  induction fuel as [|fuel IH]; intros start Hs Hf Ho; [lia|]. cbn [advance].
  change (b64_lt limit (b64_sub (time_at times j) (time_at times start))) with (outside start j).
  destruct (outside start j) eqn:E; [|split_and!; [lia|lia|exact Ho|exact E]].
  assert (start ≠ j) by (intros ->; rewrite Hself in E by lia; discriminate).
  destruct (IH (S start)) as (H1 & H2 & H3); [lia|lia| |split_and!; try done; lia].
  intros i Hi. destruct (decide (i = start)) as [->|]; [done|]. apply Ho. lia.
Qed.

(** The window that ends with [j] starts at the first time not outside. *)
Lemma window_at_start j s :
  (s ≤ j < length times)%nat → (∀ i, (i < s)%nat → outside i j = true) → outside s j = false →
  window_at j = Z.of_nat j - Z.of_nat s + 1.
Proof using Hearlier.
  intros Hs Ho Hi. unfold window_at.
  replace (S j) with (s + (S j - s))%nat by lia. rewrite seq_app, List.filter_app, length_app. cbn [Nat.add].
  rewrite (filter_ext_in _ (λ _, false) (seq 0 s)), filter_false.
  2: { intros i Hin%in_seq. by rewrite Ho by lia. }
  rewrite (filter_ext_in _ (λ _, true) (seq s _)), filter_true, length_seq; [cbn; lia|].
  intros i Hin%in_seq. destruct (outside i j) eqn:E; [|done].
  rewrite (Hearlier s i j) in Hi; [done|lia|lia|done].
Qed.

Lemma sweep_spec n : ∀ j start best,
  (j + n = length times)%nat → (start ≤ j)%nat → (∀ i, (i < start)%nat → ∀ j', (j ≤ j' < length times)%nat → outside i j' = true) →
  sweep times limit (seq j n) start best = fold_left Z.max (window_at <$> seq j n) best.
Proof using Hearlier Hlater Hself.
  induction n as [|n IH]; intros j start best Hn Hs Ho; [done|]. cbn [seq sweep fmap list_fmap fold_left].
  destruct (advance_spec j (S (length times)) start) as (H1 & H2 & H3); [lia|lia|intros i Hi; apply Ho; lia|].
  set (s := advance _ _ _ _ _) in *. rewrite (window_at_start j s) by (done || lia).
  assert (∀ c, (if best <? c then c else best) = Z.max best c) as -> by (intros c; destruct (Z.ltb_spec best c); lia).
  apply IH; [lia|lia|]. intros i Hi j' Hj. apply (Hlater i j); [lia|lia|by apply H2].
Qed.

(** The two-pointer sweep finds the greatest window. *)
Lemma window_count_greatest : window_count times limit = greatest_window.
Proof using Hearlier Hlater Hself. apply sweep_spec; [lia|lia|]. intros i Hi. lia. Qed.
End Window.

(** ** Sorted times *)

Definition sorted_times (times : list b64) : Prop :=
  ∀ i j, (i ≤ j < length times)%nat → finite (time_at times i) ∧ finite (time_at times j) ∧
    units (time_at times i) <= units (time_at times j).

Lemma sub_value x y :
  finite x → finite y →
  wf (b64_sub x y) ∧ is_nan (b64_sub x y) = false ∧ units (b64_sub x y) = rounded (units x - units y) 1.
Proof. intros Hx Hy. destruct (opp_value y Hy) as [Fo Eo]. pose proof (add_value x _ Hx Fo) as A. by rewrite Eo in A. Qed.

(** The window condition on values, infinities included. *)
Lemma lt_limit limit x :
  wf limit → is_nan limit = false → wf x → is_nan x = false → b64_lt limit x = (units limit <? units x).
Proof.
  intros Hl Hn Hw Hx. unfold b64_lt. rewrite compare_units by done. unfold Z.ltb. by destruct (_ ?= _).
Qed.

Lemma outside_value times limit i j :
  sorted_times times → wf limit → is_nan limit = false → (i < length times)%nat → (j < length times)%nat →
  outside times limit i j = (units limit <? rounded (units (time_at times j) - units (time_at times i)) 1).
Proof.
  intros Hs Hl Hn Hi Hj. destruct (Hs i i ltac:(lia)) as (Fi & _), (Hs j j ltac:(lia)) as (Fj & _).
  destruct (sub_value _ _ Fj Fi) as (W & N & E). unfold outside. by rewrite lt_limit, E.
Qed.

Lemma sorted_window_count times limit :
  sorted_times times → wf limit → is_nan limit = false → 0 <= units limit → window_count times limit = greatest_window times limit.
Proof.
  intros Hs Hl Hn Hl0. apply window_count_greatest.
  - intros i i' j Hi Hj. rewrite !outside_value by (done || lia). intros H%Z.ltb_lt. apply Z.ltb_lt.
    eapply Z.lt_le_trans; [exact H|]. apply rounded_le; [lia|]. destruct (Hs i i' ltac:(lia)) as (_ & _ & ?). lia.
  - intros i j j' Hi Hj. rewrite !outside_value by (done || lia). intros H%Z.ltb_lt. apply Z.ltb_lt.
    eapply Z.lt_le_trans; [exact H|]. apply rounded_le; [lia|]. destruct (Hs j j' ltac:(lia)) as (_ & _ & ?). lia.
  - intros j Hj. rewrite outside_value by done. rewrite Z.sub_diag, rounded_zero by lia. by apply Z.ltb_ge.
Qed.

(** ** Sorting by time *)

Section Dated.
Context `{DateHost}.

(** The step's date is the time value [t]. *)
Definition dated (step : EpisodeRiskStep) (t : Z) : Prop :=
  date_parse (occurredAt step) = Some t ∧ Z.abs t <= 8640000000000000.
Definition all_dated (steps : list EpisodeRiskStep) : Prop := Forall (λ s, ∃ t, dated s t) steps.

Definition time_of (step : EpisodeRiskStep) : Z := default 0 (date_parse (occurredAt step)).

Lemma dated_time step t : dated step t → time_of step = t ∧ finite (parse_ms (occurredAt step)) ∧
  units (parse_ms (occurredAt step)) = t * U.
Proof. intros [E Hb]. unfold time_of, parse_ms. rewrite E. split; [done|]. apply of_Z_value. lia. Qed.

Lemma rounded_neg z : z <= - U → rounded z 1 < 0.
Proof.
  intros Hz. pose proof U_pos. pose proof (rounded_le z (- U) 1 ltac:(lia) Hz) as L.
  pose proof (rounded_integer (-1) 1 ltac:(lia) ltac:(lia)) as R. replace (-1 * U * 1) with (- U) in R by lia. lia.
Qed.

Lemma before_time a b ta tb : dated a ta → dated b tb → before a b = (ta <? tb).
Proof.
  intros Da Db. destruct (dated_time _ _ Da) as (_ & Fa & Ua), (dated_time _ _ Db) as (_ & Fb & Ub).
  destruct (sub_value _ _ Fa Fb) as (W & N & E). destruct zero_finite as [[Wz _] Zu]. pose proof U_pos.
  unfold before, b64_lt. change (of_Z 0) with zero. rewrite compare_units by done. rewrite E, Zu, Ua, Ub.
  destruct (Z.ltb_spec ta tb) as [Hlt|Hge].
  - pose proof (rounded_neg (ta * U - tb * U) ltac:(nia)) as Hn. by apply Z.compare_lt_iff in Hn as ->.
  - pose proof (rounded_sign (ta * U - tb * U) 1 ltac:(lia) ltac:(nia)) as [Hn _].
    apply Z.compare_ge_iff in Hn. by destruct (_ ?= _).
Qed.

Definition in_time (a b : EpisodeRiskStep) : Prop := time_of a <= time_of b.

Lemma insert_step_perm step steps : insert_step step steps ≡ₚ step :: steps.
Proof.
  induction steps as [|s steps IH]; cbn [insert_step]; [done|]. destruct (before step s); [done|].
  rewrite IH. constructor.
Qed.

Lemma sort_steps_perm steps : sort_steps steps ≡ₚ steps.
Proof.
  unfold sort_steps. rewrite <- (app_nil_r steps) at 2. generalize (@nil EpisodeRiskStep) as acc.
  induction steps as [|s steps IH]; intros acc; [done|]. cbn [fold_left app]. rewrite IH, insert_step_perm.
  by rewrite Permutation_middle.
Qed.

Lemma insert_step_sorted step steps :
  all_dated (step :: steps) → StronglySorted in_time steps → StronglySorted in_time (insert_step step steps).
Proof.
  intros [[t Dt] Hd]%Forall_cons_1 Hs. induction Hs as [|s steps Hs IH Hle]; cbn [insert_step].
  { by repeat constructor. }
  apply Forall_cons_1 in Hd as [[u Du] Hd]. rewrite (before_time _ _ _ _ Dt Du).
  destruct (dated_time _ _ Dt) as (Et & _), (dated_time _ _ Du) as (Eu & _).
  destruct (Z.ltb_spec t u) as [Hlt|Hge].
  - constructor; [by constructor|]. constructor; [unfold in_time; lia|].
    eapply Forall_impl; [exact Hle|]. intros x Hx. unfold in_time in *. lia.
  - constructor; [by apply IH|]. rewrite insert_step_perm. constructor; [unfold in_time; lia|done].
Qed.

Lemma sort_steps_sorted steps : all_dated steps → StronglySorted in_time (sort_steps steps).
Proof.
  unfold sort_steps. assert (all_dated [] ∧ StronglySorted in_time []) as [Ha Hs] by (split; constructor).
  revert Ha Hs. generalize (@nil EpisodeRiskStep) as acc.
  induction steps as [|s steps IH]; intros acc Ha Hs Hd; [done|]. apply Forall_cons_1 in Hd as [Ds Hd]. cbn [fold_left].
  assert (all_dated (s :: acc)) as Hc by by constructor.
  apply IH; [|by apply insert_step_sorted|done]. unfold all_dated. by rewrite insert_step_perm.
Qed.

(** Steps with different times have one sorted order. *)
Lemma sort_steps_unique steps steps' :
  all_dated steps → NoDup (time_of <$> steps) → steps ≡ₚ steps' → sort_steps steps = sort_steps steps'.
Proof.
  intros Hd Hn Hp. assert (all_dated steps') as Hd' by (unfold all_dated; by rewrite <- Hp).
  apply (StronglySorted_unique_strong in_time); [|by apply sort_steps_sorted..|by rewrite !sort_steps_perm].
  intros x y Hx Hy Hxy Hyx. assert (time_of x = time_of y) as E by (unfold in_time in *; lia).
  rewrite sort_steps_perm in Hx. rewrite sort_steps_perm, <- Hp in Hy.
  apply list_elem_of_lookup in Hx as [i Hi], Hy as [j Hj].
  assert (i = j) as ->; [|congruence].
  eapply (NoDup_lookup (time_of <$> steps)); [done|by rewrite list_lookup_fmap, Hi|by rewrite list_lookup_fmap, Hj; cbn; f_equal].
Qed.

(** The times a rule counts, in the order of the steps. *)
Lemma matching_times_spec rule l :
  all_dated l → StronglySorted in_time l →
  StronglySorted (λ x y, units x <= units y) (matching_times rule l) ∧
  Forall (λ x, finite x ∧ ∃ s, s ∈ l ∧ units x = time_of s * U) (matching_times rule l).
Proof.
  intros Hd Hs. induction Hs as [|s l Hs IH Hle]; [split; constructor|].
  apply Forall_cons_1 in Hd as [[t Dt] Hd]. destruct (IH Hd) as [S F]. destruct (dated_time _ _ Dt) as (Et & Ft & Ut).
  assert (Forall (λ x, finite x ∧ ∃ s', s' ∈ s :: l ∧ units x = time_of s' * U) (matching_times rule l)) as F'.
  { eapply Forall_impl; [exact F|]. intros x (Fx & s' & Hin & Ux). split; [done|]. exists s'. split; [by right|done]. }
  unfold matching_times in *. cbn [omap list_omap].
  destruct (match action s with Some a => _ | None => _ end) as [x|] eqn:Ex; [|by split].
  assert (x = parse_ms (occurredAt s)) as -> by (destruct (action s), (actions rule); try done; by case_match; simplify_eq).
  split; [constructor; [done|]|constructor; [|done]].
  - eapply Forall_impl; [exact F|]. intros x (_ & s' & Hin & Ux). rewrite Ux, Ut.
    rewrite Forall_forall in Hle. specialize (Hle _ Hin). unfold in_time in Hle. pose proof U_pos. nia.
  - split; [done|]. exists s. split; [by left|by rewrite Et].
Qed.

Lemma sorted_lookup {A} (R : relation A) l i j x y :
  StronglySorted R l → (i < j)%nat → l !! i = Some x → l !! j = Some y → R x y.
Proof.
  intros Hs Hij Hx Hy. rewrite <- (take_drop j l) in Hs. eapply StronglySorted_app_1_elem_of; [exact Hs|..].
  - apply (list_elem_of_lookup_2 _ i). by rewrite lookup_take_lt.
  - apply (list_elem_of_lookup_2 _ 0%nat). by rewrite lookup_drop, Nat.add_0_r.
Qed.

Lemma matching_times_sorted rule steps : all_dated steps → sorted_times (matching_times rule (sort_steps steps)).
Proof.
  intros Hd. destruct (matching_times_spec rule (sort_steps steps)) as [S F];
    [unfold all_dated; by rewrite sort_steps_perm|by apply sort_steps_sorted|].
  intros i j Hij. unfold time_at.
  destruct (lookup_lt_is_Some_2 _ i (Nat.le_lt_trans _ _ _ (proj1 Hij) (proj2 Hij))) as [x Hx].
  destruct (lookup_lt_is_Some_2 _ j (proj2 Hij)) as [y Hy]. rewrite Hx, Hy. cbn [default from_option id].
  destruct (Forall_lookup_1 _ _ _ _ F Hx) as [Fx _], (Forall_lookup_1 _ _ _ _ F Hy) as [Fy _]. split_and!; [done..|].
  destruct (decide (i = j)) as [->|Hne]; [by simplify_eq|].
  exact (sorted_lookup (λ x y, units x <= units y) _ i j _ _ S ltac:(lia) Hx Hy).
Qed.

(** ** The rollup ends *)

(** Windows of a hundredth of a second and more keep the loop's bound below 2^53. *)
Definition least_window : b64 := dec 1 (-2).
Definition longest_gap : b64 := of_Z (2 ^ 54).

Lemma gap_range a b ta tb : dated a ta → dated b tb →
  in_range (b64_opp longest_gap) (b64_sub (parse_ms (occurredAt a)) (parse_ms (occurredAt b))) longest_gap.
Proof.
  intros Da Db. destruct (dated_time _ _ Da) as (_ & Fa & Ua), (dated_time _ _ Db) as (_ & Fb & Ub).
  destruct (sub_value _ _ Fa Fb) as (W & N & E). destruct Da as [_ Ba], Db as [_ Bb]. pose proof U_pos.
  assert (finite longest_gap) as Fl by finite_computed.
  assert (units longest_gap = 2 ^ 54 * U) as El by (vm_compute; reflexivity).
  pose proof (rounded_units longest_gap 1 Fl ltac:(lia)) as R. rewrite Z.mul_1_r in R.
  assert (units (b64_sub (parse_ms (occurredAt a)) (parse_ms (occurredAt b))) <= units longest_gap) as Hle
    by (rewrite E, <- R; apply rounded_le; [lia|rewrite Ua, Ub, El; nia]).
  pose proof (finite_units _ Fl).
  pose proof (rounded_le (- units longest_gap) (units (parse_ms (occurredAt a)) - units (parse_ms (occurredAt b))) 1
    ltac:(lia) ltac:(rewrite Ua, Ub, El; nia)) as L.
  rewrite rounded_opp, R in L by lia. destruct (opp_value _ Fl) as [_ Eo].
  split; [apply finite_between; [done..|lia]|]. rewrite Eo. lia.
Qed.

(** The number of windows in a gap. *)
(** The divisions of a bounded gap. *)
Lemma gap_seconds g :
  in_range (b64_opp longest_gap) g longest_gap →
  in_range zero (b64_max zero (b64_div g (of_Z 1000))) (b64_div longest_gap (of_Z 1000)).
Proof.
  intros Hg. destruct zero_finite as [Z0 Zu]. destruct (of_Z_value 1000 ltac:(lia)) as [F1000 U1000]. pose proof U_pos.
  assert (mono_on (λ x, b64_div x (of_Z 1000)) (b64_opp longest_gap) longest_gap) as M.
  { apply mono_div; [exact F1000|lia|finite_computed..]. }
  destruct (mono_range _ _ _ g M Hg) as [Fs Hs].
  assert (units zero <= units (b64_div longest_gap (of_Z 1000))) by le_computed.
  destruct (max_value zero _ Z0 Fs) as [Fm Em]. split; [exact Fm|]. rewrite Em. lia.
Qed.

Lemma windows_bound x ws :
  in_range zero x (b64_div longest_gap (of_Z 1000)) → finite ws → units least_window <= units ws →
  b64_lt (of_Z (2 ^ 53)) (b64_floor (b64_div x ws)) = false.
Proof.
  intros [Fx [Hx0 Hx]] Fw Hw. destruct zero_finite as [Z0 Zu]. pose proof U_pos.
  assert (finite least_window) as Fl by finite_computed.
  assert (0 < units least_window) as Hl0 by (rewrite <- Zu; apply Z.ltb_lt; vm_compute; reflexivity).
  set (most := b64_div longest_gap (of_Z 1000)) in *. assert (finite most) as Fm by finite_computed.
  destruct (div_value x ws Fx Fw ltac:(lia)) as (Wd & Nd & Ed), (div_value most least_window Fm Fl Hl0) as (_ & _ & Em).
  assert (finite (b64_div most least_window)) as Fq by finite_computed. pose proof (finite_units _ Fq).
  assert (0 <= units (b64_div x ws) <= units (b64_div most least_window)) as Hq.
  { rewrite Ed, Em. pose proof (Z.pow_pos_nonneg 2 1074 ltac:(lia) ltac:(lia)) as HP.
    split; [apply rounded_sign; [lia|apply Z.mul_nonneg_nonneg; lia]|].
    apply rounded_mono; [lia|lia|]. apply Z.mul_le_mono_nonneg; [apply Z.mul_nonneg_nonneg; lia| |lia|exact Hw].
    apply Z.mul_le_mono_nonneg_r; lia. }
  assert (finite (b64_div x ws)) as Fd by (apply finite_between; [done..|lia]).
  destruct (floor_value _ Fd) as [Ff Ef]. destruct (of_Z_value (2 ^ 53) ltac:(lia)) as [F53 U53].
  rewrite lt_units, Ef by assumption. apply Z.ltb_ge.
  pose proof (Z.mul_div_le (units (b64_div x ws)) U U_pos).
  assert (units (b64_div most least_window) <= units (of_Z (2 ^ 53))) by le_computed. lia.
Qed.

Lemma some_branch {A} (b : bool) (x : A) : b = false → is_Some (if b then None else Some x).
Proof. intros ->. by eexists. Qed.

Lemma decay_terminates a b ta tb ws d :
  dated a ta → dated b tb → finite ws → units least_window <= units ws →
  is_Some (decayForGap (b64_sub (parse_ms (occurredAt a)) (parse_ms (occurredAt b))) ws d).
Proof.
  intros Da Db Fw Hw. unfold decayForGap. change (of_Z 0) with zero.
  apply some_branch, windows_bound; [exact (gap_seconds _ (gap_range a b ta tb Da Db))|exact Fw|exact Hw].
Qed.

Lemma nan_terminates ws d : is_Some (decayForGap BNaN ws d).
Proof.
  unfold decayForGap. apply some_branch. assert (∀ y, b64_div BNaN y = BNaN) as E by reflexivity.
  rewrite (E (of_Z 1000)). assert (b64_max (of_Z 0) BNaN = BNaN) as -> by (vm_compute; reflexivity).
  rewrite (E ws). vm_compute. reflexivity.
Qed.

(** A date that parses is a time value. *)
Definition time_values (steps : list EpisodeRiskStep) : Prop :=
  Forall (λ s, ∀ t, date_parse (occurredAt s) = Some t → Z.abs t <= 8640000000000000) steps.

Lemma gap_terminates a b ws d :
  (∀ t, date_parse (occurredAt a) = Some t → Z.abs t <= 8640000000000000) →
  (∀ t, date_parse (occurredAt b) = Some t → Z.abs t <= 8640000000000000) →
  finite ws → units least_window <= units ws →
  is_Some (decayForGap (b64_sub (parse_ms (occurredAt a)) (parse_ms (occurredAt b))) ws d).
Proof.
  intros Ha Hb Fw Hw. assert (∀ x, b64_sub BNaN x = BNaN) as En by reflexivity.
  assert (∀ x, b64_sub (of_Z x) BNaN = BNaN) as En'.
  { intros x. generalize (of_Z x). intros [| |]; reflexivity. }
  destruct (date_parse (occurredAt a)) as [ta|] eqn:Ea.
  - destruct (date_parse (occurredAt b)) as [tb|] eqn:Eb.
    + apply (decay_terminates a b ta tb); [split; [exact Ea|by apply Ha]|split; [exact Eb|by apply Hb]|exact Fw|exact Hw].
    + unfold parse_ms. rewrite Ea, Eb, En'. apply nan_terminates.
  - unfold parse_ms at 1. rewrite Ea, En. apply nan_terminates.
Qed.

Lemma momentum_step_some p st step prev :
  previousMs st = (parse_ms ∘ occurredAt) <$> prev →
  (∀ a, prev = Some a → ∀ t, date_parse (occurredAt a) = Some t → Z.abs t <= 8640000000000000) →
  (∀ t, date_parse (occurredAt step) = Some t → Z.abs t <= 8640000000000000) →
  finite (as_number (windowSeconds p)) → units least_window <= units (as_number (windowSeconds p)) →
  ∃ st', momentum_step p st step = Some st' ∧ previousMs st' = Some (parse_ms (occurredAt step)).
Proof.
  intros Hprev Ha Hs Fw Hw. unfold momentum_step. cbv zeta. rewrite Hprev. destruct prev as [a|]; cbn [fmap option_fmap option_map compose].
  - destruct (gap_terminates step a (as_number (windowSeconds p)) (as_number (decayPerWindow p)) Hs (Ha a eq_refl) Fw Hw) as [d Ed].
    rewrite Ed. cbn [mbind option_bind]. eexists. split; reflexivity.
  - cbn [mbind option_bind]. eexists. split; reflexivity.
Qed.

Lemma momentum_loop_some p steps : ∀ st prev,
  previousMs st = (parse_ms ∘ occurredAt) <$> prev →
  (∀ a, prev = Some a → ∀ t, date_parse (occurredAt a) = Some t → Z.abs t <= 8640000000000000) →
  time_values steps → finite (as_number (windowSeconds p)) →
  units least_window <= units (as_number (windowSeconds p)) → is_Some (momentum_loop p st steps).
Proof.
  induction steps as [|s steps IH]; intros st prev Hp Ha Hs Fw Hw; [by eexists|]. apply Forall_cons_1 in Hs as [Hs Hss].
  destruct (momentum_step_some p st s prev Hp Ha Hs Fw Hw) as (st' & E & Ep). cbn [momentum_loop]. rewrite E.
  cbn [mbind option_bind]. apply (IH st' (Some s)); try assumption. by intros a [= <-].
Qed.
End Dated.

(** ** Properties *)

(** C38. The rollup returns: with a decay window of a hundredth of a second or
    more (the reference policy has sixty seconds), it gives a result or rejects
    a frequency rule for all steps, valid dates or not. *)
Theorem rollup_returns `{DateHost} steps policy :
  time_values steps → finite (as_number (windowSeconds (rollup policy))) →
  b64_le least_window (as_number (windowSeconds (rollup policy))) = true →
  ∃ r, rollupEpisodeRisk steps policy = Some r.
Proof.
  intros Hs Fw Hw. assert (finite least_window) as Fl by finite_computed.
  rewrite le_units in Hw by assumption. apply Z.leb_le in Hw. unfold rollupEpisodeRisk. cbv zeta.
  destruct (assertFrequencyRules _) as [u|msg]; [|by eexists].
  destruct steps as [|s steps]; [by eexists|].
  destruct (momentum_loop_some (rollup policy) (sort_steps (s :: steps)) (Momentum (of_Z 0) (of_Z 0) (of_Z 0) None) None) as [st Est];
    try done; [unfold time_values; by rewrite sort_steps_perm|].
  rewrite Est. cbn [mbind option_bind]. eexists. reflexivity.
Qed.

#[local] Instance demo_dates : DateHost := {| legacy_date_parse := λ _, None |}.

Definition demo_steps : list EpisodeRiskStep :=
  [Step "2026-06-23T00:01:00.000Z" (dec 5 (-1)) (Some "auth.login.failed");
   Step "2026-06-23T00:00:00.000Z" (dec 3 (-1)) (Some "auth.login.failed")].

Lemma demo_time_values : time_values demo_steps.
Proof. repeat constructor; intros t E; vm_compute in E; injection E as <-; lia. Qed.

Lemma rollup_returns_witness : ∃ r, rollupEpisodeRisk demo_steps DEFAULT_RISK_POLICY = Some r.
Proof.
  apply (rollup_returns demo_steps DEFAULT_RISK_POLICY); [exact demo_time_values|finite_computed|vm_compute; reflexivity].
Defined.

(** C37. The sliding window counts what it means to: for dated steps and an
    accepted rule, the count is the greatest number of qualifying steps that lie
    within the rule's window before one of them, and the rule fires exactly when
    that count reaches the threshold, contributing its boost then and nothing
    otherwise. *)
Theorem frequency_rule_counts `{DateHost} steps rule :
  all_dated steps → assertFrequencyRule rule = Ret () → wf_dyn (rule_windowSeconds rule) →
  let times := matching_times rule (sort_steps steps) in
  let limit := b64_mul (as_number (rule_windowSeconds rule)) (of_Z 1000) in
  let m := evaluate_rule (sort_steps steps) rule in
  match_count m = greatest_window times limit ∧
  fired m = b64_le (as_number (threshold rule)) (of_Z (greatest_window times limit)) ∧
  match_boost m = if fired m then boost rule else DNum (of_Z 0).
Proof.
  intros Hd Ha Hw. cbv zeta. unfold assertFrequencyRule in Ha. cbv zeta in Ha.
  apply bind_ret in Ha as ([] & _ & Ha). apply bind_ret in Ha as ([] & [Hf Hp]%guard_ret%andb_true_iff & _).
  destruct (rule_windowSeconds rule) as [| | |w| |] eqn:Ew; try discriminate. cbn [as_number] in *.
  assert (finite w) as Fw by (split; assumption). destruct zero_finite as [Z0 Zu].
  change (of_Z 0) with zero in Hp. rewrite le_units in Hp by assumption. apply negb_true_iff, Z.leb_gt in Hp.
  destruct (of_Z_value 1000 ltac:(lia)) as [F1000 U1000]. pose proof U_pos.
  destruct (mul_value w (of_Z 1000) Fw F1000) as (Wl & Nl & El).
  assert (0 <= units (b64_mul w (of_Z 1000))) as Hl
    by (rewrite El; apply rounded_sign; [apply Z.pow_pos_nonneg; lia|apply Z.mul_nonneg_nonneg; lia]).
  pose proof (sorted_window_count _ _ (matching_times_sorted rule steps Hd) Wl Nl Hl) as E.
  unfold evaluate_rule. cbv zeta. cbn [match_count fired match_boost]. rewrite Ew. cbn [as_number]. rewrite E. exact (conj eq_refl (conj eq_refl eq_refl)).
Qed.

Definition demo_rule : EpisodeFrequencyRule :=
  FrequencyRule (Some [DStr "auth.login.failed"]) (DNum (of_Z 60)) (DNum (of_Z 2)) (DNum (dec 8 (-1))).

Lemma demo_dated : all_dated demo_steps.
Proof. repeat constructor; eexists; (split; [vm_compute; reflexivity|vm_compute; discriminate]). Qed.

Lemma frequency_rule_counts_witness :
  let times := matching_times demo_rule (sort_steps demo_steps) in
  let limit := b64_mul (as_number (rule_windowSeconds demo_rule)) (of_Z 1000) in
  let m := evaluate_rule (sort_steps demo_steps) demo_rule in
  match_count m = greatest_window times limit ∧
  fired m = b64_le (as_number (threshold demo_rule)) (of_Z (greatest_window times limit)) ∧
  match_boost m = if fired m then boost demo_rule else DNum (of_Z 0).
Proof.
  assert (finite (of_Z 60)) as [Wd _] by finite_computed.
  apply (frequency_rule_counts demo_steps demo_rule demo_dated); [vm_compute; reflexivity|exact Wd].
Defined.

Example demo_window :
  (match_count (evaluate_rule (sort_steps demo_steps) demo_rule), fired (evaluate_rule (sort_steps demo_steps) demo_rule)) = (2, true).
Proof. vm_compute. reflexivity. Qed.

(** The rollup does not depend on the order in which the steps are given, when
    their dates are valid and different. *)
Theorem rollup_order_insensitive `{DateHost} steps steps' policy :
  all_dated steps → NoDup (time_of <$> steps) → steps ≡ₚ steps' →
  rollupEpisodeRisk steps policy = rollupEpisodeRisk steps' policy.
Proof.
  intros Hd Hn Hp. unfold rollupEpisodeRisk. cbv zeta. destruct (assertFrequencyRules _) as [u|msg]; [|done].
  destruct steps as [|s steps], steps' as [|s' steps']; try done;
    [by apply Permutation_nil_l in Hp|by apply Permutation_nil_r in Hp|].
  by rewrite (sort_steps_unique _ _ Hd Hn Hp).
Qed.

Lemma rollup_order_insensitive_witness :
  rollupEpisodeRisk demo_steps DEFAULT_RISK_POLICY = rollupEpisodeRisk (reverse demo_steps) DEFAULT_RISK_POLICY.
Proof.
  apply (rollup_order_insensitive demo_steps (reverse demo_steps) DEFAULT_RISK_POLICY demo_dated).
  - apply (bool_decide_unpack (NoDup _)). vm_compute. exact I.
  - symmetry. apply reverse_Permutation.
Defined.

(** With a decay window of a nanosecond, which the policy check accepts, two
    steps two years apart keep the decay loop running for ever. *)
Example tiny_window_never_returns :
  let p := DEFAULT_RISK_POLICY in
  let r := RollupPolicy (DNum (dec 1 (-9))) (decayPerWindow (rollup p)) (velocityNormalizer (rollup p)) None in
  let policy := Policy (policyVersion p) (operationBase p) (reversibilityFactor p) (envCriticalityFactor p)
                  (magnitude_of p) (bands p) r in
  assertDerivedPolicy policy = Ret () ∧
  rollupEpisodeRisk [Step "2024-06-23T00:00:00.000Z" (of_Z 0) None; Step "2026-06-23T00:00:00.000Z" (of_Z 0) None] policy
  = None.
Proof. vm_compute. split; reflexivity. Qed.
