(* ===== verification/EpisodeBounds.v ===== *)
(** * Bounds of episode rollups

    With step scores in [0, 1] the momentum after n steps is at most n, so no
    rollup overflows or is NaN: peak, velocity and episode score are in [0, 1],
    and frequency rules can only raise the score. *)

From S2P Require Import Prelude Dates Binary64 RiskScore RiskPolicy RiskBounds Episode.

#[local] Open Scope Z_scope.
#[local] Arguments round4 : simpl never.
#[local] Arguments clamp01 : simpl never.
#[local] Opaque round pack of_Z dec b64_add b64_sub b64_mul b64_div b64_floor b64_min b64_max.

(** ** Rounding numbers that need not be finite *)

Definition not_nan (x : b64) : Prop := wf x ∧ is_nan x = false.

Lemma not_nan_cases x : not_nan x → finite x ∨ x = BInf true ∨ x = BInf false.
Proof. intros [W N]. destruct x as [|[]|s m e]; [discriminate|by right; left|by right; right|left; by split]. Qed.

(** An operation keeps numbers when it does so on finite numbers and infinities. *)
Lemma keeps_numbers f :
  (∀ x, finite x → not_nan (f x)) → not_nan (f (BInf true)) → not_nan (f (BInf false)) → ∀ x, not_nan x → not_nan (f x).
Proof. intros Hf Ht Hs x Hx. destruct (not_nan_cases x Hx) as [F|[->|E]]; [exact (Hf x F)|exact Ht|rewrite E; exact Hs]. Qed.

Lemma add_number x c : finite c → not_nan x → not_nan (b64_add x c).
Proof.
  intros Hc. revert x. assert (∀ s, b64_add (BInf s) c = BInf s) as E.
  { destruct c as [| |s' m e]; [by destruct Hc as [_ ?]..|]. reflexivity. }
  apply keeps_numbers; [|rewrite E; by split..]. intros x Hx. destruct (add_value x c Hx Hc) as (W & N & _). exact (conj W N).
Qed.

Lemma round4_number x : not_nan x → not_nan (round4 x).
Proof.
  intros Hx. destruct ten_thousand as [Ft Ut]. pose proof U_pos. unfold round4.
  pose proof (keeps_numbers (λ x, b64_mul x (of_Z 10000))) as M. specialize (M (λ x Fx, match mul_value x _ Fx Ft with conj W (conj N _) => conj W N end)).
  specialize (M ltac:(vm_compute; split; reflexivity) ltac:(vm_compute; split; reflexivity) x Hx).
  pose proof (add_number _ half half_finite M) as A.
  pose proof (keeps_numbers b64_floor (λ x Fx, finite_nan _ (proj1 (floor_value x Fx))) ltac:(vm_compute; split; reflexivity)
    ltac:(vm_compute; split; reflexivity) _ A) as F.
  pose proof (keeps_numbers (λ x, b64_div x (of_Z 10000))) as D.
  specialize (D (λ x Fx, match div_value x _ Fx Ft ltac:(rewrite Ut; lia) with conj W (conj N _) => conj W N end)).
  exact (D ltac:(vm_compute; split; reflexivity) ltac:(vm_compute; split; reflexivity) _ F).
Qed.

Lemma clamp01_number x : not_nan x → in_range zero (clamp01 x) one.
Proof.
  intros Hx. destruct (not_nan_cases x Hx) as [F|[->|E]].
  - apply (clamp01_mono x x F F). reflexivity.
  - assert (clamp01 (BInf true) = zero) as -> by (vm_compute; reflexivity). split; [apply zero_finite|split; le_computed].
  - rewrite E. assert (clamp01 (BInf false) = one) as -> by (vm_compute; reflexivity). split; [apply one_finite|split; le_computed].
Qed.

Lemma finite_number x : finite x → not_nan x.
Proof. exact (finite_nan x). Qed.

(** ** Integers are fixed by [round4] *)

Lemma units_half : 2 * units half = U.
Proof. vm_compute. reflexivity. Qed.

Lemma round4_integer n : 0 <= n <= 2 ^ 38 → finite (round4 (of_Z n)) ∧ units (round4 (of_Z n)) = n * U.
Proof.
  intros Hn. pose proof U_pos as HU. pose proof units_half as H2. destruct ten_thousand as [Ft Ut].
  destruct (of_Z_value n ltac:(lia)) as [Fn Un]. pose proof U_limit as HL. unfold round4. change (dec 5 (-1)) with half.
  destruct (mul_value _ _ Fn Ft) as (Wm & Nm & Em). rewrite Un, Ut in Em. change (2 ^ 1074) with U in Em.
  replace (n * U * (10000 * U)) with (n * 10000 * U * U) in Em by lia. rewrite rounded_integer in Em by lia.
  assert (finite (b64_mul (of_Z n) (of_Z 10000))) as Fm by (apply finite_between; [exact Wm|exact Nm|rewrite Em; nia]).
  destruct (add_value _ half Fm half_finite) as (Wa & Na & Ea). rewrite Em in Ea.
  assert (rounded (n * 10000 * U + units half) 1 = n * 10000 * U + units half) as R.
  { pose proof (rounded_exact false (20000 * n + 1) 1073 1) as R. cbn [signed] in R.
    assert (units half = 2 ^ 1073) as Eh by (vm_compute; reflexivity).
    assert (n * 10000 * U + units half = (20000 * n + 1) * 2 ^ 1073) as Es by lia.
    rewrite Es. rewrite Z.mul_1_r in R. apply R; [lia|lia|lia|nia]. }
  rewrite R in Ea. assert (finite (b64_add (b64_mul (of_Z n) (of_Z 10000)) half)) as Fa
    by (apply finite_between; [exact Wa|exact Na|rewrite Ea; nia]).
  destruct (floor_value _ Fa) as [Ff Ef]. rewrite Ea in Ef.
  assert ((n * 10000 * U + units half) / U = n * 10000) as Ed by (symmetry; apply (Z.div_unique _ _ _ (units half)); lia).
  rewrite Ed in Ef. destruct (div_value _ _ Ff Ft ltac:(rewrite Ut; lia)) as (Wd & Nd & Eq). rewrite Ef, Ut in Eq.
  change (2 ^ 1074) with U in Eq. replace (n * 10000 * U * U) with (n * U * (10000 * U)) in Eq by lia.
  rewrite rounded_integer in Eq by lia. split; [apply finite_between; [exact Wd|exact Nd|rewrite Eq; nia]|exact Eq].
Qed.

(** ** Momentum *)

(** A finite number in [0, n]. *)
Definition upto (n : Z) (x : b64) : Prop := finite x ∧ 0 <= units x <= n * U.

Lemma upto_one x : upto 1 x ↔ in_range zero x one.
Proof. destruct zero_finite as [_ Z0], one_finite as [_ O0]. unfold upto, in_range. rewrite Z0, O0, Z.mul_1_l. reflexivity. Qed.

Lemma upto_le n m x : n <= m → upto n x → upto m x.
Proof. pose proof U_pos. intros Hnm [F Hx]. split; [exact F|nia]. Qed.

Lemma upto_rounded n r z q :
  0 <= n <= 2 ^ 53 → 0 < q → not_nan r → units r = rounded z q → 0 <= z <= n * U * q → upto n r.
Proof.
  intros Hn Hq [W N] E Hz. pose proof U_limit. pose proof U_pos.
  pose proof (rounded_sign z q Hq (proj1 Hz)) as [Lo _]. pose proof (rounded_le z _ q Hq (proj2 Hz)) as Hi.
  rewrite rounded_integer in Hi by lia. rewrite <- E in Lo, Hi. split; [apply finite_between; [exact W|exact N|nia]|lia].
Qed.

Lemma upto_mul n x y : 0 <= n <= 2 ^ 53 → upto n x → upto 1 y → upto n (b64_mul x y).
Proof.
  intros Hn [Fx Hx] [Fy Hy]. destruct (mul_value x y Fx Fy) as (W & N & E). change (2 ^ 1074) with U in E. pose proof U_pos.
  exact (upto_rounded n _ _ U Hn U_pos (conj W N) E ltac:(nia)).
Qed.

Lemma upto_add n m x y : 0 <= n → 0 <= m → n + m <= 2 ^ 53 → upto n x → upto m y → upto (n + m) (b64_add x y).
Proof.
  intros Hn Hm Hs [Fx Hx] [Fy Hy]. destruct (add_value x y Fx Fy) as (W & N & E).
  exact (upto_rounded (n + m) _ _ 1 ltac:(lia) ltac:(lia) (conj W N) E ltac:(lia)).
Qed.

Lemma huge_units : units (of_Z (2 ^ 53)) <= units huge.
Proof. le_computed. Qed.

Lemma upto_huge n x : 0 <= n <= 2 ^ 53 → upto n x → in_range zero x huge.
Proof.
  intros Hn [F Hx]. pose proof huge_units as Hh. destruct (of_Z_value (2 ^ 53) ltac:(lia)) as [_ E]. rewrite E in Hh.
  destruct zero_finite as [_ Z0]. pose proof U_pos. split; [exact F|]. rewrite Z0. nia.
Qed.

Lemma upto_round4 n x : 0 <= n <= 2 ^ 38 → upto n x → upto n (round4 x).
Proof.
  intros Hn Hx. destruct (of_Z_value n ltac:(lia)) as [Fn Un], (round4_integer n Hn) as [_ Ur]. pose proof U_pos.
  destruct (round4_mono x (of_Z n) (upto_huge n x ltac:(lia) Hx)) as ([F [L _]] & _ & M);
    [apply (upto_huge n); [lia|split; [exact Fn|nia]]|rewrite Un; apply Hx|].
  rewrite Ur in M. rewrite round4_zero in L. destruct zero_finite as [_ Z0]. rewrite Z0 in L. split; [exact F|lia].
Qed.

Lemma upto_greater n x y (b : bool) : upto n x → upto n y → upto n (if b then x else y).
Proof. by destruct b. Qed.

Lemma upto_zero n : 0 <= n → upto n (of_Z 0).
Proof. intros Hn. destruct zero_finite as [F E]. pose proof U_pos. split; [exact F|]. change (of_Z 0) with zero. rewrite E. nia. Qed.

Lemma iter_invariant {A} (P : A → Prop) (f : A → A) n x : (∀ y, P y → P (f y)) → P x → P (Z.iter n f x).
Proof. intros Hf Hx. destruct n as [|p|p]; [exact Hx|exact (Pos.iter_invariant p A f P Hf x Hx)|exact Hx]. Qed.

Lemma decay_unit gap ws d r : upto 1 d → decayForGap gap ws d = Some r → upto 1 r.
Proof.
  intros Hd. unfold decayForGap. destruct (b64_lt _ _); intros E; [discriminate|]. injection E as <-.
  apply iter_invariant; [intros y Hy; exact (upto_mul 1 y d ltac:(lia) Hy Hd)|].
  destruct one_finite as [F E]. pose proof U_pos. split; [exact F|]. change (of_Z 1) with one. rewrite E. lia.
Qed.

Record momentum_bounds (n : Z) (st : momentum_state) : Prop := {
  momentum_upto : upto n (momentum st);
  max_upto : upto n (maxMomentum st);
  peak_upto : upto 1 (peak_so_far st);
}.

Section Bounds.
Context `{DateHost}.

Lemma momentum_step_bounds p n st step st' :
  0 <= n < 2 ^ 38 → upto 1 (as_number (decayPerWindow p)) → upto 1 (step_score step) →
  momentum_bounds n st → momentum_step p st step = Some st' → momentum_bounds (n + 1) st'.
Proof.
  intros Hn Hd Hs [Hm Hx Hp] E. unfold momentum_step in E. cbv zeta in E.
  apply bind_Some in E as (carried & Ec & E). injection E as <-.
  assert (upto n carried) as Hc.
  { destruct (previousMs st) as [prev|].
    - apply bind_Some in Ec as (decay & Ed & Ec). injection Ec as <-.
      exact (upto_mul n _ _ ltac:(lia) Hm (decay_unit _ _ _ _ Hd Ed)).
    - injection Ec as <-. apply upto_zero. lia. }
  assert (upto (n + 1) (round4 (b64_add (step_score step) carried))) as Hr.
  { apply upto_round4; [lia|]. rewrite Z.add_comm. apply upto_add; [lia|lia|lia|exact Hs|exact Hc]. }
  split; cbn [momentum maxMomentum peak_so_far]; [exact Hr|apply upto_greater; [exact Hr|apply (upto_le n); [lia|exact Hx]]|].
  apply upto_greater; [exact Hs|exact Hp].
Qed.

Lemma momentum_loop_bounds p steps : ∀ n st st',
  0 <= n → n + Z.of_nat (length steps) <= 2 ^ 38 → upto 1 (as_number (decayPerWindow p)) →
  Forall (upto 1 ∘ step_score) steps → momentum_bounds n st → momentum_loop p st steps = Some st' →
  momentum_bounds (n + Z.of_nat (length steps)) st'.
Proof.
  induction steps as [|s steps IH]; intros n st st' Hn Hl Hd Hs Hb E; cbn [momentum_loop length] in *.
  - injection E as <-. rewrite Z.add_0_r. exact Hb.
  - apply bind_Some in E as (st1 & E1 & E). apply Forall_cons_1 in Hs as [Hs Hss].
    pose proof (momentum_step_bounds p n st s st1 ltac:(lia) Hd Hs Hb E1) as H1.
    replace (n + Z.of_nat (S (length steps))) with (n + 1 + Z.of_nat (length steps)) by lia.
    apply (IH (n + 1) st1); [lia|lia|exact Hd|exact Hss|exact H1|exact E].
Qed.

(** ** The result *)

Definition rule_ok (rule : EpisodeFrequencyRule) : Prop := finite (as_number (boost rule)).

Lemma frequency_score_unit sorted rules :
  Forall rule_ok rules → in_range zero (evaluateFrequencyRules sorted rules).1 one.
Proof.
  intros Hr. unfold evaluateFrequencyRules. cbv zeta. cbn [fst]. apply clamp01_number, round4_number.
  assert (not_nan (of_Z 0)) as Hz by (apply finite_number, zero_finite). revert Hz. generalize (of_Z 0) as sum.
  induction Hr as [|rule rules Hr _ IH]; intros sum Hs; cbn [fmap list_fmap fold_left]; [exact Hs|].
  apply IH. destruct (fired _); [|exact Hs]. apply add_number; [exact Hr|exact Hs].
Qed.

(** What a policy's rollup needs to stay in bounds. *)
Record rollup_policy_ok (p : rollup_policy) : Prop := {
  decay_ok : upto 1 (as_number (decayPerWindow p));
  normalizer_finite : finite (as_number (velocityNormalizer p));
  normalizer_positive : 0 < units (as_number (velocityNormalizer p));
}.

(** The score of a peak, a velocity and a frequency score. *)
Definition combined (pk velocity : b64) (f : option b64) : b64 :=
  let top := b64_max pk velocity in
  clamp01 (round4 (match f with Some f => b64_max top f | None => top end)).

Lemma combined_unit pk velocity f :
  in_range zero pk one → in_range zero velocity one → from_option (λ f, in_range zero f one) True f →
  in_range zero (combined pk velocity f) one ∧
  units (combined pk velocity None) <= units (combined pk velocity f).
Proof.
  intros [Fp Hp] [Fv Hv] Hf. destruct (max_value _ _ Fp Fv) as [Fm Em]. unfold combined. cbv zeta.
  assert (∀ x, upto 1 x → in_range zero x huge) as Hh by (intros x; apply upto_huge; lia).
  assert (upto 1 (b64_max pk velocity)) as Hm by (apply upto_one; split; [exact Fm|lia]).
  destruct f as [f|]; [destruct Hf as [Ff Hf]; destruct (max_value _ _ Fm Ff) as [Ft Et]|].
  - assert (upto 1 (b64_max (b64_max pk velocity) f)) as Ht by (apply upto_one; split; [exact Ft|lia]).
    destruct (round4_mono _ _ (Hh _ Hm) (Hh _ Ht) ltac:(lia)) as ([Fa _] & [Fb _] & L).
    split; [apply (clamp01_mono _ _ Fb Fb); lia|apply (clamp01_mono _ _ Fa Fb L)].
  - destruct (upto_round4 1 _ ltac:(lia) Hm) as [Fa _]. split; [apply (clamp01_mono _ _ Fa Fa); lia|lia].
Qed.

Definition velocity_of (p : rollup_policy) (st : momentum_state) : b64 :=
  clamp01 (round4 (b64_div (maxMomentum st) (as_number (velocityNormalizer p)))).

Lemma velocity_unit p n st : rollup_policy_ok p → momentum_bounds n st → in_range zero (velocity_of p st) one.
Proof.
  intros [_ Fn Hn] [_ [Fm _] _]. apply clamp01_number, round4_number.
  destruct (div_value _ _ Fm Fn Hn) as (W & N & _). exact (conj W N).
Qed.

Definition start_state : momentum_state := Momentum (of_Z 0) (of_Z 0) (of_Z 0) None.

Lemma start_bounds : momentum_bounds 0 start_state.
Proof. split; apply upto_zero; lia. Qed.

(** The result of a rollup that has steps. *)
Lemma rollup_some steps policy r :
  steps ≠ [] → rollupEpisodeRisk steps policy = Some (Ret r) →
  ∃ st, momentum_loop (rollup policy) start_state (sort_steps steps) = Some st ∧
    peak r = peak_so_far st ∧ velocityScore r = velocity_of (rollup policy) st ∧
    rollup_score r = combined (peak_so_far st) (velocity_of (rollup policy) st) (fst <$> frequency r) ∧
    (∀ f, frequency r = Some f → f = evaluateFrequencyRules (sort_steps steps) (default [] (frequencyRules (rollup policy)))).
Proof.
  intros Hne E. unfold rollupEpisodeRisk in E. cbv zeta in E. destruct (assertFrequencyRules _); [|discriminate].
  destruct steps as [|s steps]; [done|]. apply bind_Some in E as (st & Est & E). injection E as <-.
  exists st. cbn [peak velocityScore rollup_score frequency]. repeat split; [exact Est|..].
  - unfold combined. destruct (default [] _); reflexivity.
  - intros f. destruct (default [] _); intros E; [discriminate|]. injection E as <-. reflexivity.
Qed.

Lemma rollup_unit steps policy r :
  rollupEpisodeRisk steps policy = Some (Ret r) → Forall (upto 1 ∘ step_score) steps →
  Z.of_nat (length steps) <= 2 ^ 38 → rollup_policy_ok (rollup policy) →
  Forall rule_ok (default [] (frequencyRules (rollup policy))) →
  in_range zero (peak r) one ∧ in_range zero (velocityScore r) one ∧ in_range zero (rollup_score r) one.
Proof.
  intros E Hs Hl Hp Hr. destruct (decide (steps = [])) as [->|Hne].
  - unfold rollupEpisodeRisk in E. cbv zeta in E. destruct (assertFrequencyRules _); [|discriminate]. injection E as <-.
    cbn [peak velocityScore rollup_score]. assert (in_range zero (of_Z 0) one) as Hz
      by exact (proj1 (upto_one _) (upto_zero 1 ltac:(lia))).
    exact (conj Hz (conj Hz Hz)).
  - destruct (rollup_some _ _ _ Hne E) as (st & Est & -> & -> & -> & Hf).
    pose proof (Permutation_length (sort_steps_perm steps)) as El.
    pose proof (Permutation_Forall (Permutation_sym (sort_steps_perm steps)) Hs) as Hss.
    pose proof (momentum_loop_bounds (rollup policy) (sort_steps steps) 0 start_state st ltac:(lia) ltac:(rewrite El; exact Hl)
      (decay_ok _ Hp) Hss start_bounds Est) as B.
    pose proof (velocity_unit _ _ _ Hp B) as Hv. pose proof (proj1 (upto_one _) (peak_upto _ _ B)) as Hk.
    split; [exact Hk|split; [exact Hv|]]. apply (combined_unit _ _ _ Hk Hv).
    destruct (frequency r) as [f|]; [|exact I]. rewrite (Hf f eq_refl). by apply frequency_score_unit.
Qed.

(** The same policy without frequency rules. *)
Definition without_rules (p : RiskScoringPolicy) : RiskScoringPolicy :=
  let r := rollup p in
  Policy (policyVersion p) (operationBase p) (reversibilityFactor p) (envCriticalityFactor p) (magnitude_of p) (bands p)
    (RollupPolicy (windowSeconds r) (decayPerWindow r) (velocityNormalizer r) None).

Lemma momentum_loop_same p q steps : ∀ st,
  windowSeconds p = windowSeconds q → decayPerWindow p = decayPerWindow q →
  momentum_loop p st steps = momentum_loop q st steps.
Proof.
  induction steps as [|s steps IH]; intros st Hw Hd; cbn [momentum_loop]; [reflexivity|].
  assert (momentum_step p st s = momentum_step q st s) as -> by (unfold momentum_step; rewrite Hw, Hd; reflexivity).
  destruct (momentum_step q st s) as [st'|]; [exact (IH st' Hw Hd)|reflexivity].
Qed.
End Bounds.

(** ** Properties *)

(** A finite number in [0, 1]. *)
Definition unit_interval (x : b64) : Prop := finite x ∧ b64_le (of_Z 0) x = true ∧ b64_le x (of_Z 1) = true.

Lemma unit_interval_range x : in_range zero x one → unit_interval x.
Proof.
  intros [F [Lo Hi]]. split; [exact F|]. change (of_Z 0) with zero. change (of_Z 1) with one.
  rewrite (le_units zero x (proj1 zero_finite) F), (le_units x one F (proj1 one_finite)).
  exact (conj (proj2 (Z.leb_le _ _) Lo) (proj2 (Z.leb_le _ _) Hi)).
Qed.

(** An episode of steps with scores in [0, 1] has its peak, velocity and score
    in [0, 1] and never NaN, for any number of steps up to 2^38, any dates, and
    frequency rules whose boosts may add up beyond the largest number; the
    policy's decay is in [0, 1] and its normalizer positive, as in every policy
    of a temperature. *)
Theorem rollup_in_unit_interval `{DateHost} steps policy r :
  rollupEpisodeRisk steps policy = Some (Ret r) → Forall (upto 1 ∘ step_score) steps →
  Z.of_nat (length steps) <= 2 ^ 38 → rollup_policy_ok (rollup policy) →
  Forall rule_ok (default [] (frequencyRules (rollup policy))) →
  unit_interval (peak r) ∧ unit_interval (velocityScore r) ∧ unit_interval (rollup_score r).
Proof.
  intros E Hs Hl Hp Hr. destruct (rollup_unit _ _ _ E Hs Hl Hp Hr) as (H1 & H2 & H3).
  exact (conj (unit_interval_range _ H1) (conj (unit_interval_range _ H2) (unit_interval_range _ H3))).
Qed.

(** Frequency rules can only raise the score of an episode: without them the
    same steps have the same peak and velocity and a score that is no higher. *)
Theorem frequency_rules_only_raise `{DateHost} steps policy r r' :
  rollupEpisodeRisk steps policy = Some (Ret r) → rollupEpisodeRisk steps (without_rules policy) = Some (Ret r') →
  Forall (upto 1 ∘ step_score) steps → Z.of_nat (length steps) <= 2 ^ 38 → rollup_policy_ok (rollup policy) →
  Forall rule_ok (default [] (frequencyRules (rollup policy))) →
  peak r' = peak r ∧ velocityScore r' = velocityScore r ∧ b64_le (rollup_score r') (rollup_score r) = true.
Proof.
  intros E E' Hs Hl Hp Hr. destruct (rollup_unit _ _ _ E Hs Hl Hp Hr) as (U1 & U2 & U3).
  assert (rollup_policy_ok (rollup (without_rules policy))) as Hp' by (destruct Hp; by split).
  destruct (rollup_unit _ _ _ E' Hs Hl Hp' ltac:(constructor)) as (_ & _ & U3').
  destruct (decide (steps = [])) as [->|Hne].
  - unfold rollupEpisodeRisk in E, E'. cbv zeta in E, E'. destruct (assertFrequencyRules _), (assertFrequencyRules _); try discriminate.
    injection E as <-. injection E' as <-. cbn [peak velocityScore rollup_score].
    split; [reflexivity|split; reflexivity].
  - destruct (rollup_some _ _ _ Hne E) as (st & Est & Ep & Ev & Es & Hf), (rollup_some _ _ _ Hne E') as (st' & Est' & Ep' & Ev' & Es' & Hf').
    pose proof (momentum_loop_same (rollup (without_rules policy)) (rollup policy) (sort_steps steps) start_state eq_refl eq_refl) as L.
    rewrite L, Est in Est'. injection Est' as <-.
    rewrite Ep', Ev', Ep, Ev. split; [reflexivity|split; [reflexivity|]].
    rewrite (le_units _ _ (proj1 U3') (proj1 U3)), Es, Es'. apply Z.leb_le. rewrite Ep in U1. rewrite Ev in U2.
    assert (frequency r' = None) as ->.
    { destruct steps as [|s steps]; [exact (False_ind _ (Hne eq_refl))|]. unfold rollupEpisodeRisk in E'. cbv zeta in E'. cbn [assertFrequencyRules] in E'.
      apply bind_Some in E' as (? & _ & E'). injection E' as <-. reflexivity. }
    cbn [fmap option_fmap option_map]. apply (combined_unit _ (velocity_of (rollup policy) st) _ U1 U2).
    destruct (frequency r) as [f|]; [|exact I]. rewrite (Hf f eq_refl). by apply frequency_score_unit.
Qed.

#[local] Instance bounds_dates : DateHost := {| legacy_date_parse := λ _, None |}.

Definition watched_policy : RiskScoringPolicy :=
  let p := DEFAULT_RISK_POLICY in
  let r := rollup p in
  Policy (policyVersion p) (operationBase p) (reversibilityFactor p) (envCriticalityFactor p) (magnitude_of p) (bands p)
    (RollupPolicy (windowSeconds r) (decayPerWindow r) (velocityNormalizer r) (Some [demo_rule])).

Definition rolled (policy : RiskScoringPolicy) : EpisodeRiskRollup :=
  match rollupEpisodeRisk demo_steps policy with
  | Some (Ret r) => r
  | _ => Rollup BNaN level_none BNaN BNaN 0 DUndef None
  end.

Lemma demo_unit : Forall (upto 1 ∘ step_score) demo_steps.
Proof.
  constructor; [|constructor; [|constructor]]; apply upto_one; (split; [finite_computed|split; le_computed]).
Qed.

Lemma watched_ok : rollup_policy_ok (rollup watched_policy).
Proof.
  split; [apply upto_one; split; [finite_computed|split; le_computed]|finite_computed|].
  apply Z.ltb_lt. vm_compute. reflexivity.
Qed.

Lemma watched_rules : Forall rule_ok (default [] (frequencyRules (rollup watched_policy))).
Proof. constructor; [unfold rule_ok; finite_computed|constructor]. Qed.

Lemma demo_length : Z.of_nat (length demo_steps) <= 2 ^ 38.
Proof. vm_compute. discriminate. Qed.

Lemma rollup_in_unit_interval_witness :
  unit_interval (peak (rolled watched_policy)) ∧ unit_interval (velocityScore (rolled watched_policy)) ∧
  unit_interval (rollup_score (rolled watched_policy)).
Proof.
  apply (rollup_in_unit_interval demo_steps watched_policy (rolled watched_policy));
    [vm_compute; reflexivity|exact demo_unit|exact demo_length|exact watched_ok|exact watched_rules].
Defined.

Lemma frequency_rules_only_raise_witness :
  let r := rolled watched_policy in let r' := rolled (without_rules watched_policy) in
  peak r' = peak r ∧ velocityScore r' = velocityScore r ∧ b64_le (rollup_score r') (rollup_score r) = true.
Proof.
  apply (frequency_rules_only_raise demo_steps watched_policy (rolled watched_policy) (rolled (without_rules watched_policy)));
    [vm_compute; reflexivity|vm_compute; reflexivity|exact demo_unit|exact demo_length|exact watched_ok|exact watched_rules].
Defined.
