(* ===== verification/Doubles.v ===== *)
(** * Doubles as values

    The double a JSON number denotes, the shortest decimal of a double, and the
    addition of one that [x + 1] is for any value: a sum of numbers, or the text
    of [x] with a digit. *)

From S2P Require Import Prelude JsNum JsVal Dates Hash Canonical Redact Event Binary64.

#[local] Open Scope Z_scope.

Definition b64_of_num (n : num) : b64 :=
  match n with NNaN => BNaN | NInf neg => BInf neg | NFin m e => dec m e end.

(** [Number.prototype.toString] of a double: the least number of digits of a
    decimal that rounds to it, and the closest such decimal. *)
Definition closest (a b : Z) (candidates : list Z) : option Z :=
  match candidates with
  | [] => None
  | m :: rest => Some (fold_left (λ best m, if Z.abs (m * b - a) <? Z.abs (best * b - a) then m else best) rest m)
  end.

(** The decimals with exponent [p] next to [a / b]. *)
Definition decimals_at (x : b64) (a b p : Z) : option num :=
  let '(a, b) := if 0 <=? p then (a, b * 10 ^ p) else (a * 10 ^ (- p), b) in
  let q := a / b in
  m ← closest a b (filter (λ m, bool_decide (dec m p = x) = true) [q; q + 1]);
  Some (mk_num m p).

Fixpoint first_some {A B} (f : A → option B) (l : list A) : option B :=
  match l with [] => None | a :: l => match f a with Some b => Some b | None => first_some f l end end.

Definition num_of_b64 (x : b64) : num :=
  match x with
  | BNaN => NNaN
  | BInf neg => NInf neg
  | BFin neg m e =>
      if m =? 0 then NFin 0 0 else
      let '(a, b) := if 0 <=? e then (m * 2 ^ e, 1) else (m, 2 ^ (- e)) in
      let top := Z.of_nat (length (digits (a / b))) in
      let negate n := match n with NFin m e => NFin (- m) e | _ => n end in
      match first_some (decimals_at (BFin false m e) a b) ((λ n, top - Z.of_nat n) <$> seq 1 340) with
      | Some n => if neg then negate n else n
      | None => NNaN
      end
  end.

(** [value + 1] *)
Definition plus_one `{Host} (value : val) : exc val :=
  match value with
  | VUndef => Ret (VNum NNaN)
  | VNull => Ret (VInt 1)
  | VBool b => Ret (VInt (if b then 2 else 1))
  | VNum n => Ret (match num_int n with
                   | Some z => VInt (z + 1)
                   | None => VNum (num_of_b64 (b64_add (b64_of_num n) (of_Z 1)))
                   end)
  | value => text ← js_String value; Ret (VStr (text +:+ "1"))
  end.

Lemma plus_one_int `{Host} z : plus_one (VInt z) = Ret (VInt (z + 1)).
Proof. unfold VInt at 1. cbn [plus_one]. by rewrite num_int_of_Z. Qed.

(** [b - a + 1] on integers: exact while everything is at most 2^53. *)
Definition span (a b : Z) : val :=
  if (Z.abs a <=? 2 ^ 53) && (Z.abs b <=? 2 ^ 53) && (Z.abs (b - a) <=? 2 ^ 53) && (Z.abs (b - a + 1) <=? 2 ^ 53)
  then VInt (b - a + 1)
  else VNum (num_of_b64 (b64_add (b64_sub (b64_of_num (num_of_Z b)) (b64_of_num (num_of_Z a))) (of_Z 1))).

(** [a <= b] on numbers: decimals that denote different doubles are ordered like
    these. *)
Definition num_leb (a b : num) : bool :=
  match a, b with
  | NNaN, _ | _, NNaN => false
  | NInf neg, NInf neg' => neg || negb neg'
  | NInf neg, NFin _ _ => neg
  | NFin _ _, NInf neg => negb neg
  | NFin m e, NFin m' e' => let low := Z.min e e' in m * 10 ^ (e - low) <=? m' * 10 ^ (e' - low)
  end.

Definition js_leb (a b : val) : bool :=
  match a, b with VNum n, VNum n' => num_leb n n' | _, _ => false end.

Lemma num_leb_int z z' : num_leb (num_of_Z z) (num_of_Z z') = (z <=? z').
Proof.
  pose proof (num_int_of_Z z) as H. pose proof (num_int_of_Z z') as H'.
  destruct (num_of_Z z) as [| |m e]; try discriminate H. destruct (num_of_Z z') as [| |m' e']; try discriminate H'.
  cbn in *. destruct (Z.leb_spec 0 e); [|discriminate]. destruct (Z.leb_spec 0 e'); [|discriminate].
  injection H as <-. injection H' as <-. set (low := Z.min e e').
  assert (∀ a x, low <= x → a * 10 ^ x = 10 ^ low * (a * 10 ^ (x - low))) as E.
  { intros a x Hx. replace x with (low + (x - low)) at 1 by lia. rewrite Z.pow_add_r by lia. ring. }
  rewrite (E m e), (E m' e') by lia. assert (0 < 10 ^ low) by (apply Z.pow_pos_nonneg; lia).
  destruct (Z.leb_spec (m * 10 ^ (e - low)) (m' * 10 ^ (e' - low))); symmetry; [apply Z.leb_le|apply Z.leb_gt]; nia.
Qed.

Lemma js_leb_int z z' : js_leb (VInt z) (VInt z') = (z <=? z').
Proof. apply num_leb_int. Qed.

Lemma span_int a b : 0 <= a → a <= b → b < 2 ^ 53 → span a b = VInt (b - a + 1).
Proof.
  intros Ha Hab Hb. unfold span. rewrite !(proj2 (Z.leb_le _ _)); [done|lia..].
Qed.
