(* ===== verification/RiskAssertion.v ===== *)
(** * Risk assertions (sdks/typescript/src/risk.ts)

    The append-only [security.risk] assertion with its hash, and the audit event of
    an assessment. Input fields are arbitrary values; the random id and the clock
    are arguments. Messages of the checks name the field, as in the code. *)

From S2P Require Import Prelude Regex JsNum JsVal Dates JsonText Hash Canonical Redact AuditChain Event.
From S2P Require Import Binary64 RiskScore Doubles GovernedChange.

(** ** Signals as metadata *)

Definition dyn_val (d : dyn) : val :=
  match d with
  | DUndef => VUndef | DNull => VNull | DBool b => VBool b | DNum x => VNum (num_of_b64 x) | DStr s => VStr s | DOther => VOther ""
  end.

(** The object [normalizeRiskSignals] returns. *)
Definition signals_val (s : RiskSignals) : val :=
  VObj [("operationType", dyn_val (operationType s)); ("reversibility", dyn_val (reversibility s));
        ("envCriticality", dyn_val (envCriticality s)); ("dataVolume", dyn_val (dataVolume s));
        ("fanOut", dyn_val (fanOut s)); ("referenceCount", dyn_val (referenceCount s))].

(** [withRiskSignals(metadata, signals)] on the properties of the metadata. *)
Definition stampRiskSignals (metadata : list (string * val)) (signals : RiskSignals) : exc (list (string * val)) :=
  normalized ← normalizeRiskSignals signals;
  Ret (obj_define "riskSignals" (signals_val normalized) metadata).

(** ** Checks *)

Definition RISK_LEVELS : list string := ["none"; "low"; "medium"; "high"; "critical"].
Definition EVIDENCE_REF_KINDS : list string :=
  ["principal"; "entity"; "activity"; "change"; "revision"; "assertion"; "record"; "commit"].

(** [0 <= score && score <= 1] of a finite number [m * 10 ^ e]. *)
Definition in_unit (m e : Z) : bool :=
  ((0 <=? m) && (if 0 <=? e then m * 10 ^ e <=? 1 else m <=? 10 ^ (- e)))%Z.

Definition assertRiskConclusion (conclusion : val) (field : string) : exc unit :=
  score ← vget conclusion "score";
  _ ← guard_exc (match score with VNum (NFin m e) => in_unit m e | _ => false end) (field +:+ ".score must be a finite number in [0,1]");
  level ← vget conclusion "level";
  guard_exc (includes RISK_LEVELS level) (field +:+ ".level must be a known risk level").

Definition assertRiskText (value : val) (field : string) : exc unit := guard_exc (non_blank_string value) (field +:+ " is required").

Definition assertEvidenceRef (ref : val) (field : string) : exc unit :=
  _ ← assertRiskText (vget_opt ref "authority") (field +:+ ".authority");
  _ ← assertRiskText (vget_opt ref "type") (field +:+ ".type");
  _ ← assertRiskText (vget_opt ref "id") (field +:+ ".id");
  guard_exc (includes EVIDENCE_REF_KINDS (vget_opt ref "kind")) (field +:+ ".kind must be a supported evidence ref kind").

(** [xs.map(f)] of an array. *)
Definition map_array (f : val → exc val) (v : val) : exc val :=
  match v with VArr xs => ys ← mapE f xs; Ret (VArr ys) | _ => Throw "factors.map is not a function" end.

Definition factor_fields : list string := ["key"; "value"; "kind"; "weight"; "contribution"].
Definition conclusion_fields : list string := ["score"; "level"; "policyVersion"; "assessment"].

(** [{ a: v.a, b: v.b, ... }] *)
Definition copy_fields (fields : list string) (v : val) : exc val :=
  copies ← mapE (λ k, value ← vget v k; Ret (k, value)) fields; Ret (VObj copies).

(** ** The assertion *)

Record SecurityRiskAssertionInput := AssertionInput {
  asr_id : val; asr_scope : val; asr_occurredAt : val; producerId : val; subject : val; asr_idempotencyKey : val;
  conclusion : val; factors : val;
}.

Section Assertion.
Context `{Hasher} `{Host}.

Definition normalizeRiskDate (value : val) : exc string := GovernedChange.normalizeDate value.

Definition createSecurityRiskAssertion (uuid : string) (now : Z) (input : SecurityRiskAssertionInput) : exc val :=
  _ ← assertRiskText (vget_opt (asr_scope input) "tenantId") "scope.tenantId";
  _ ← assertRiskText (producerId input) "producerId";
  _ ← assertRiskText (asr_idempotencyKey input) "idempotencyKey";
  _ ← assertEvidenceRef (subject input) "subject";
  _ ← assertRiskConclusion (conclusion input) "conclusion";
  assessment ← vget (conclusion input) "assessment";
  _ ← guard_exc (includes ["step"; "episode_rollup"] assessment) "conclusion.assessment must be 'step' or 'episode_rollup'";
  let field k := vget_opt (asr_scope input) k in
  let scope := VObj (("tenantId", field "tenantId") :: if_truthy "workspaceId" (field "workspaceId")
                       ++ if_truthy "environment" (field "environment")) in
  occurredAt ← normalizeRiskDate (nullish_or (asr_occurredAt input) (VDate (Some now)));
  keyHash ← hashIdempotencyKey (field "tenantId") (asr_idempotencyKey input);
  subject ← copy_fields ["authority"; "kind"; "type"; "id"] (subject input);
  conclusion ← copy_fields conclusion_fields (conclusion input);
  factors ← map_array (copy_fields factor_fields) (factors input);
  Ret (VObj [("recordType", VStr "assertion.recorded"); ("schemaVersion", VStr "2026-06-23"); ("recordAuthority", VStr "veritio");
             ("id", nullish_or (asr_id input) (VStr ("asr_" +:+ uuid))); ("type", VStr "security.risk"); ("scope", scope);
             ("occurredAt", VStr occurredAt);
             ("producer", VObj [("authority", VStr "veritio.detectors"); ("kind", VStr "principal"); ("type", VStr "service"); ("id", producerId input)]);
             ("idempotencyKeyHash", VStr keyHash); ("subject", subject); ("conclusion", conclusion); ("factors", factors)]).

(** The text hashed: the record without a stored hash. *)
Definition assertion_text (assertion : val) : exc (option string) :=
  fields ← own_props assertion; canonicalJson (VObj (obj_omit "hash" fields)).

Definition hashAssertionRecord (assertion : val) : exc string := text ← assertion_text assertion; sha256HexOpt text.

(** ** The event *)

Record SecurityRiskAssessedEventInput := AssessedInput {
  ase_scope : val; ase_occurredAt : val; ase_producerId : val; ase_actor : val; ase_subject : val; ase_conclusion : val;
  ase_factors : val; ase_riskSignals : option RiskSignals; ase_activityEpisodeId : val; ase_metadata : val;
}.

(** [{ ...v }]: nothing of [null] and [undefined]. *)
Definition spread (v : val) : list (string * val) := default [] (exc_to_option (own_props v)).

Definition buildSecurityRiskAssessedEvent (input : SecurityRiskAssessedEventInput) : exc AuditEventInput :=
  _ ← assertRiskText (vget_opt (ase_scope input) "tenantId") "scope.tenantId";
  _ ← assertRiskText (ase_producerId input) "producerId";
  _ ← assertEvidenceRef (ase_subject input) "subject";
  _ ← assertRiskConclusion (ase_conclusion input) "conclusion";
  let caller := spread (ase_metadata input) in
  baseMetadata ← match ase_riskSignals input with Some signals => stampRiskSignals caller signals | None => Ret caller end;
  assessment ← copy_fields conclusion_fields (ase_conclusion input);
  let riskAssessment := VObj (spread assessment ++ if_truthy "factors" (ase_factors input)) in
  metadata ← mergeVeritioMetadata (VObj (obj_assign "riskAssessment" riskAssessment baseMetadata))
               (if is_undef (ase_activityEpisodeId input) then VObj [] else VObj [("activityEpisodeId", ase_activityEpisodeId input)]);
  Ret {| in_id := VUndef; in_occurredAt := ase_occurredAt input;
         in_actor := nullish_or (ase_actor input) (VObj [("type", VStr "service"); ("id", ase_producerId input)]);
         in_action := VStr "security.risk.assessed";
         in_target := VObj [("type", vget_opt (ase_subject input) "type"); ("id", vget_opt (ase_subject input) "id")];
         in_scope := ase_scope input; in_requestId := VUndef; in_purpose := VUndef; in_lawfulBasis := VUndef;
         in_dataCategories := None; in_retention := VUndef; in_metadata := VObj metadata |}.
End Assertion.
