(* ===== verification/RiskAssertionSafety.v ===== *)
(** * Properties of risk assertions

    What an accepted assertion holds, what its hash binds, and what the event of an
    assessment says whatever the caller's metadata. *)

From S2P Require Import Prelude Regex JsNum JsVal Dates JsonText Hash Canonical SameData Redact AuditChain Event Commit Demo.
From S2P Require Import Binary64 RiskScore Doubles GovernedChange GovernedSafety RiskAssertion.

(** ** Checks *)

Lemma risk_text_ret v f : assertRiskText v f = Ret tt → ∃ s, v = VStr s ∧ blank s = false.
Proof. by intros ?%guard_ret%non_blank_string_str. Qed.

Lemma includes_elem l v : includes l v = true → ∃ s, v = VStr s ∧ s ∈ l.
Proof.
  unfold includes. intros (s & Hs & E)%existsb_exists. exists s. split; [|by apply list_elem_of_In].
  destruct v; try done. by apply strict_eq_str in E as [= ->].
Qed.

(** A number from zero to one, as the decimal [m * 10 ^ e]. *)
Definition unit_score (v : val) : Prop :=
  ∃ m e, v = VNum (NFin m e) ∧ (0 <= m)%Z ∧ (m * 10 ^ Z.max e 0 <= 10 ^ Z.max (- e) 0)%Z.

(** A conclusion of an assessment. *)
Definition conclusion_ok (c : val) : Prop :=
  unit_score (vget_opt c "score") ∧ ∃ level, vget_opt c "level" = VStr level ∧ level ∈ RISK_LEVELS.

Lemma conclusion_ret c f : assertRiskConclusion c f = Ret tt → conclusion_ok c.
Proof.
  unfold assertRiskConclusion. intros E. apply bind_ret in E as (score & Hs%vget_opt_of & E). apply bind_ret in E as ([] & Hg%guard_ret & E).
  apply bind_ret in E as (level & Hl%vget_opt_of & E%guard_ret). split.
  - rewrite Hs. destruct score as [| | |[| |m e]| | | | |]; try done. exists m, e. unfold in_unit in Hg. apply andb_true_iff in Hg as [Hm Hg].
    split; [done|]. split; [by apply Z.leb_le|]. destruct (Z.leb_spec 0 e); apply Z.leb_le in Hg.
    + rewrite Z.max_l, (Z.max_r (- e)) by lia. exact Hg.
    + rewrite Z.max_r, Z.max_l by lia. by rewrite Z.mul_1_r.
  - rewrite Hl. by apply includes_elem in E.
Qed.

Lemma copy_fields_ret fields v w : copy_fields fields v = Ret w → w = VObj ((λ k, (k, vget_opt v k)) <$> fields).
Proof.
  unfold copy_fields. intros E. apply bind_ret in E as (copies & Hc%mapE_Forall2 & [= <-]). f_equal.
  induction Hc as [|k kv ks kvs Hk _ IH]; [done|]. rewrite fmap_cons. f_equal; [|exact IH].
  apply bind_ret in Hk as (x & Hx%vget_opt_of & [= <-]). by rewrite Hx.
Qed.

Lemma copied_get fields v k : k ∈ fields → vget_opt (VObj ((λ k, (k, vget_opt v k)) <$> fields)) k = vget_opt v k.
Proof.
  cbn [vget_opt]. induction fields as [|k' ks IH]; intros Hk; [by apply not_elem_of_nil in Hk|]. rewrite fmap_cons. cbn [obj_get].
  destruct (String.eqb_spec k' k) as [->|Hne]; [done|]. apply IH. apply elem_of_cons in Hk as [->|]; [done|done].
Qed.

(** The keys of an object. *)
Definition keys_are (v : val) (ks : list string) : Prop := ∃ fs, v = VObj fs ∧ JsVal.keys fs = ks.

Lemma copied_keys fields v : keys_are (VObj ((λ k, (k, vget_opt v k)) <$> fields)) fields.
Proof. eexists. split; [reflexivity|]. unfold JsVal.keys. rewrite <- list_fmap_compose. by apply list_fmap_id. Qed.

(** The properties of an assertion. *)
Definition assertion_keys : list string :=
  ["recordType"; "schemaVersion"; "recordAuthority"; "id"; "type"; "scope"; "occurredAt"; "producer"; "idempotencyKeyHash"; "subject";
   "conclusion"; "factors"].

Section Assertions.
Context `{HS : Hasher} `{HO : Host}.

(** An assertion, opened. *)
Lemma assertion_opened uuid now input a : createSecurityRiskAssertion uuid now input = Ret a →
  ∃ tenant producer key scope occurredAt factors fs, let c := vget_opt a in
    vget_opt (asr_scope input) "tenantId" = VStr tenant ∧ blank tenant = false ∧ producerId input = VStr producer ∧ blank producer = false ∧
    asr_idempotencyKey input = VStr key ∧ blank key = false ∧ conclusion_ok (conclusion input) ∧
    (∃ kind, vget_opt (conclusion input) "assessment" = VStr kind ∧ kind ∈ ["step"; "episode_rollup"]) ∧
    a = VObj fs ∧ JsVal.keys fs = assertion_keys ∧ c "recordAuthority" = VStr "veritio" ∧
    c "scope" = VObj (("tenantId", VStr tenant) :: scope) ∧ JsVal.keys scope ⊆ ["workspaceId"; "environment"] ∧
    normalizeRiskDate (nullish_or (asr_occurredAt input) (VDate (Some now))) = Ret occurredAt ∧ c "occurredAt" = VStr occurredAt ∧
    c "idempotencyKeyHash" = VStr (sha256Hex (tenant +:+ nul +:+ key)) ∧
    c "producer" = VObj [("authority", VStr "veritio.detectors"); ("kind", VStr "principal"); ("type", VStr "service"); ("id", VStr producer)] ∧
    c "subject" = VObj ((λ k, (k, vget_opt (subject input) k)) <$> ["authority"; "kind"; "type"; "id"]) ∧
    c "conclusion" = VObj ((λ k, (k, vget_opt (conclusion input) k)) <$> conclusion_fields) ∧
    RiskAssertion.factors input = VArr factors ∧ c "factors" = VArr ((λ f, VObj ((λ k, (k, vget_opt f k)) <$> factor_fields)) <$> factors).
Proof.
  unfold createSecurityRiskAssertion. intros E. apply bind_ret in E as ([] & Ht%risk_text_ret & E).
  apply bind_ret in E as ([] & Hp%risk_text_ret & E). apply bind_ret in E as ([] & Hk%risk_text_ret & E).
  apply bind_ret in E as ([] & _ & E). apply bind_ret in E as ([] & Hc%conclusion_ret & E). apply bind_ret in E as (kind & Hkind%vget_opt_of & E).
  apply bind_ret in E as ([] & Hg%guard_ret%includes_elem & E). cbn zeta in E. apply bind_ret in E as (occ & Hocc & E).
  apply bind_ret in E as (h & Hh & E). apply bind_ret in E as (sub & Hsub%copy_fields_ret & E).
  apply bind_ret in E as (con & Hcon%copy_fields_ret & E). apply bind_ret in E as (facs & Hf & [= <-]).
  destruct Ht as (tenant & Ht & Hbt), Hp as (producer & Hp & Hbp), Hk as (key & Hk & Hbk). rewrite Ht in *.
  unfold map_array in Hf. destruct (RiskAssertion.factors input) as [| | | | |xs| | |]; try done. apply bind_ret in Hf as (ys & Hys%mapE_Forall2 & [= <-]).
  rewrite Hk in Hh. unfold hashIdempotencyKey in Hh. apply bind_ret in Hh as (? & _ & Hh). apply bind_ret in Hh as (? & _ & [= <-]).
  exists tenant, producer, key. do 2 eexists. exists xs. eexists. cbn zeta. rewrite Hkind, Hk, Hp, Hsub, Hcon.
  split_and!; try reflexivity; try done.
  - intros k Hin. unfold JsVal.keys in Hin. rewrite fmap_app in Hin. apply elem_of_app in Hin as [Hin|Hin];
      unfold if_truthy in Hin; destruct (truthy _); cbn in Hin; set_solver.
  - cbn [vget_opt obj_get]. simpl. f_equal. clear -Hys. induction Hys as [|x y xs ys Hx _ IH]; [done|]. rewrite fmap_cons. f_equal; [|exact IH].
    by apply copy_fields_ret in Hx.
Qed.
End Assertions.

(** C21. An accepted risk assertion is well formed and holds the documented fields
    only: its score is a finite number from zero to one and its level a known one;
    its authorities are the SDK's, its tenant is the one given and its idempotency
    key is stored as a hash; and the assertion, its scope, its subject, its
    conclusion and every factor have no other property than the record's. *)
Theorem assertion_well_formed `{Hasher} `{Host} uuid now input a :
  createSecurityRiskAssertion uuid now input = Ret a →
  conclusion_ok (vget_opt a "conclusion") ∧ keys_are (vget_opt a "conclusion") conclusion_fields ∧
  keys_are a assertion_keys ∧ keys_are (vget_opt a "subject") ["authority"; "kind"; "type"; "id"] ∧
  (∃ fs, vget_opt a "factors" = VArr fs ∧ Forall (λ f, keys_are f factor_fields) fs) ∧
  vget_opt a "recordAuthority" = VStr "veritio" ∧ vget_opt (vget_opt a "producer") "authority" = VStr "veritio.detectors" ∧
  (∃ tenant key rest, vget_opt (asr_scope input) "tenantId" = VStr tenant ∧ asr_idempotencyKey input = VStr key ∧
     vget_opt a "scope" = VObj (("tenantId", VStr tenant) :: rest) ∧ JsVal.keys rest ⊆ ["workspaceId"; "environment"] ∧
     vget_opt a "idempotencyKeyHash" = VStr (sha256Hex (tenant +:+ nul +:+ key))).
Proof.
  intros (tenant & producer & key & scope & occ & factors & fs & Ht & _ & _ & _ & Hk & _ & (Hs & Hl) & _ & Ea & Hkeys & Ha & Hscope & Hsub & _ & _ & Hh & Hp & Hsu & Hc & _ & Hf)%assertion_opened.
  rewrite Hsu, Hc, Hf, Hp, Hscope, Hh, Ha. split_and!; try done; try apply copied_keys.
  - by exists fs.
  - eexists. split; [reflexivity|]. apply Forall_fmap, Forall_true. intros f. apply copied_keys.
  - by exists tenant, key, scope.
Qed.

(** ** The hash *)

Lemma obj_omit_absent k fs : k ∉ JsVal.keys fs → obj_omit k fs = fs.
Proof.
  induction fs as [|[k' v] fs IH]; [done|]. intros Hk. cbn in Hk. apply not_elem_of_cons in Hk as [Hne Hk]. cbn [obj_omit].
  rewrite (proj2 (String.eqb_neq _ _)) by done. f_equal. by apply IH.
Qed.

Lemma obj_omit_app k fs gs : obj_omit k (fs ++ gs) = obj_omit k fs ++ obj_omit k gs.
Proof. induction fs as [|[k' v] fs IH]; [done|]. cbn. destruct (String.eqb k' k); [done|]. cbn. by rewrite IH. Qed.

Lemma assertion_no_hash : "hash" ∉ assertion_keys.
Proof. apply (bool_decide_unpack _). by vm_compute. Qed.

(** The hash of a risk assertion binds all of it: two assertions of JSON data with
    one hash are the same data, up to the order of keys, or two texts collide. A
    hash stored with the record does not count. *)
Theorem assertion_hash_binds `{Hasher} `{Host} uuid now input a uuid' now' input' b h :
  createSecurityRiskAssertion uuid now input = Ret a → createSecurityRiskAssertion uuid' now' input' = Ret b →
  is_json a = true → no_proto a = true → is_json b = true → no_proto b = true →
  hashAssertionRecord a = Ret h →
  (∀ fs stored, a = VObj fs → hashAssertionRecord (VObj (fs ++ [("hash", stored)])) = Ret h) ∧
  (hashAssertionRecord b = Ret h → same_data a b ∨ Collision [ctext a] [ctext b]).
Proof.
  intros Ha Hb Ja Pa Jb Pb Hh.
  assert (∀ uuid now input a, createSecurityRiskAssertion uuid now input = Ret a → ∃ fs, a = VObj fs ∧ obj_omit "hash" fs = fs) as Hobj.
  { intros ? ? ? ? (? & ? & ? & ? & ? & ? & fs & _ & _ & _ & _ & _ & _ & _ & _ & -> & Hk & _)%assertion_opened. exists fs. split; [done|].
    apply obj_omit_absent. rewrite Hk. apply assertion_no_hash. }
  destruct (Hobj _ _ _ _ Ha) as (fs & -> & Of), (Hobj _ _ _ _ Hb) as (gs & -> & Og). unfold hashAssertionRecord, assertion_text in *.
  cbn [own_props mbind exc_mbind] in *. rewrite Of in Hh. rewrite Og. split.
  - intros ? stored [= <-]. rewrite obj_omit_app, Of. cbn. by rewrite app_nil_r.
  - intros Hh'. destruct (canonicalJson_json _ Ja) as [ta Ea], (canonicalJson_json _ Jb) as [tb Eb]. unfold ctext. rewrite Ea, Eb in *.
    cbn in Hh, Hh'. destruct (decide (ta = tb)) as [->|Hne].
    + left. apply canonical_eq_same; [done..|congruence].
    + right. exists ta, tb. split; [by left|]. split; [by left|]. split; [done|congruence].
Qed.

(** ** The event of an assessment *)

Lemma obj_define_NoDup k v fs : NoDup (JsVal.keys fs) → NoDup (JsVal.keys (obj_define k v fs)).
Proof. intros Hnd. exact (fold_define_NoDup [(k, v)] fs Hnd). Qed.

Lemma copied_in k fields v : k ∈ fields → k ∈ JsVal.keys ((λ k, (k, vget_opt v k)) <$> fields).
Proof. intros Hk. destruct (copied_keys fields v) as (fs & E & Hks). injection E as <-. by rewrite Hks. Qed.

(** What follows the fields of a conclusion does not hide them. *)
Lemma assessment_kept k fs gs : k ∈ JsVal.keys fs →
  vget_opt (present (default VUndef (Some (VObj (spread (VObj fs) ++ gs))))) k = vget_opt (VObj fs) k.
Proof.
  intros Hk. cbn. rewrite obj_get_app. destruct (obj_get k fs) eqn:E; [done|]. by apply obj_get_None in E.
Qed.

(** What was put together for an event. *)
Record assessed `{Host} (input : SecurityRiskAssessedEventInput) (base : list (string * val)) (made : val)
    (ctx md : list (string * val)) : Prop := {
  assessed_base : NoDup (JsVal.keys base);
  assessed_signals signals : ase_riskSignals input = Some signals →
    ∃ n, normalizeRiskSignals signals = Ret n ∧ obj_get "riskSignals" base = Some (signals_val n);
  assessed_caller k : k ≠ "riskSignals" → obj_get k base = obj_get k (spread (ase_metadata input));
  assessed_made k : k ∈ conclusion_fields → vget_opt made k = vget_opt (ase_conclusion input) k;
  assessed_made_object : present (default VUndef (Some made)) = made;
  assessed_merged : mergeVeritioMetadata (VObj (obj_assign "riskAssessment" made base)) (VObj ctx) = Ret md;
  assessed_context k : default VUndef (obj_get k ctx) = if String.eqb "activityEpisodeId" k then ase_activityEpisodeId input else VUndef;
}.

Lemma assessed_opened `{Host} input e : buildSecurityRiskAssessedEvent input = Ret e → NoDup (JsVal.keys (spread (ase_metadata input))) →
  conclusion_ok (ase_conclusion input) ∧ ∃ base made ctx md, in_metadata e = VObj md ∧ assessed input base made ctx md.
Proof.
  intros E Hnd. unfold buildSecurityRiskAssessedEvent in E. apply bind_ret in E as ([] & _ & E). apply bind_ret in E as ([] & _ & E).
  apply bind_ret in E as ([] & _ & E). apply bind_ret in E as ([] & Hc%conclusion_ret & E). cbn zeta in E.
  apply bind_ret in E as (base & Hbase & E). apply bind_ret in E as (w & ->%copy_fields_ret & E). apply bind_ret in E as (md & Hmd & [= <-]).
  split; [done|]. set (made := VObj (spread _ ++ _)) in Hmd.
  assert (∃ ctx, mergeVeritioMetadata (VObj (obj_assign "riskAssessment" made base)) (VObj ctx) = Ret md ∧
    ∀ k, default VUndef (obj_get k ctx) = if String.eqb "activityEpisodeId" k then ase_activityEpisodeId input else VUndef) as (ctx & Hm & Hctx).
  { destruct (is_undef (ase_activityEpisodeId input)) eqn:Eu; eexists; (split; [exact Hmd|]); intros k; cbn [obj_get].
    - destruct (String.eqb _ k); [by destruct (ase_activityEpisodeId input)|done].
    - by destruct (String.eqb _ k). }
  exists base, made, ctx, md. split; [done|].
  assert (NoDup (JsVal.keys base) ∧ (∀ signals, ase_riskSignals input = Some signals →
      ∃ n, normalizeRiskSignals signals = Ret n ∧ obj_get "riskSignals" base = Some (signals_val n)) ∧
    (∀ k, k ≠ "riskSignals" → obj_get k base = obj_get k (spread (ase_metadata input)))) as (Hnb & Hsig & Hrest).
  { destruct (ase_riskSignals input) as [signals|]; [|injection Hbase as <-; by split_and!].
    apply bind_ret in Hbase as (n & Hn & [= <-]). split; [by apply obj_define_NoDup|]. split.
    - intros ? [= <-]. exists n. by rewrite obj_get_define.
    - intros k Hk. by rewrite obj_get_define, (proj2 (String.eqb_neq _ _)). }
  constructor; try done. intros k Hk.
  etransitivity; [exact (assessment_kept k _ _ (copied_in k conclusion_fields (ase_conclusion input) Hk))|by apply copied_get].
Qed.

Lemma assessment_keys k : k ∈ ["riskAssessment"; "riskSignals"] → k ∉ RESERVED_CONTEXT_KEYS ∧ k ≠ "__proto__".
Proof.
  intros Hk. split; [|by intros ->; revert Hk; apply (bool_decide_unpack _); vm_compute].
  revert k Hk. apply Forall_forall. apply (bool_decide_unpack _). by vm_compute.
Qed.

(** C22. The event of an assessment says what the SDK was given, whatever the caller's
    metadata says. A caller whose metadata has a reserved key gets no event. In an
    event that is built the conclusion, checked, is the one assessed, the signals are
    normalized, the activity episode is the one given or none, there is no other
    reserved key, and the caller's other keys ride along. *)
Theorem assessed_event_binds `{Host} input :
  NoDup (JsVal.keys (spread (ase_metadata input))) →
  (∀ k, k ∈ RESERVED_CONTEXT_KEYS → k ∈ JsVal.keys (spread (ase_metadata input)) →
     ∃ msg, buildSecurityRiskAssessedEvent input = Throw msg) ∧
  (∀ e, buildSecurityRiskAssessedEvent input = Ret e →
     let said := vget_opt (in_metadata e) in
     conclusion_ok (ase_conclusion input) ∧
     (∀ k, k ∈ conclusion_fields → vget_opt (said "riskAssessment") k = vget_opt (ase_conclusion input) k) ∧
     (∀ signals, ase_riskSignals input = Some signals →
        (∃ n, normalizeRiskSignals signals = Ret n ∧ said "riskSignals" = signals_val n)) ∧
     said "activityEpisodeId" = ase_activityEpisodeId input ∧
     (∀ k, k ∈ RESERVED_CONTEXT_KEYS → k ≠ "activityEpisodeId" → said k = VUndef) ∧
     (∀ k, k ∉ RESERVED_CONTEXT_KEYS → k ∉ ["riskAssessment"; "riskSignals"; "__proto__"] →
        said k = present (default VUndef (obj_get k (spread (ase_metadata input)))))).
Proof.
  intros Hnd. destruct (assessment_keys "riskAssessment" ltac:(left)) as [N1 N2], (assessment_keys "riskSignals" ltac:(right; left)) as [N3 N4]. split.
  - intros k Hk Hin. destruct (buildSecurityRiskAssessedEvent input) as [e|msg] eqn:E; [|by exists msg]. exfalso.
    destruct (assessed_opened _ _ E Hnd) as (_ & base & made & ctx & md & _ & [_ _ Hrest _ _ Hm _]).
    pose proof (merge_refuses _ _ _ _ Hm Hk) as Hn. rewrite obj_get_assign in Hn by done.
    rewrite (proj2 (String.eqb_neq _ _)), Hrest in Hn by congruence.
    by apply obj_get_None in Hn.
  - intros e E said. destruct (assessed_opened _ _ E Hnd) as (Hc & base & made & ctx & md & Em & [Hnb Hsig Hrest Hmade Hobj Hm Hctx]).
    destruct (merge_get _ _ _ _ Hm eq_refl (obj_assign_NoDup _ _ _ Hnb)) as (_ & Hres & Hoth).
    assert (∀ k, said k = default VUndef (obj_get k md)) as Hsaid by (intros k; unfold said; by rewrite Em).
    split; [done|]. split; [|split; [|split; [|split]]].
    + intros k Hk. rewrite Hsaid, (Hoth _ N1 N2), obj_get_assign by done.
      change (String.eqb "riskAssessment" "riskAssessment") with true. cbn iota. rewrite Hobj. by apply Hmade.
    + intros signals (n & Hn & Hg)%Hsig. exists n. split; [done|]. rewrite Hsaid, (Hoth _ N3 N4), obj_get_assign by done.
      change (String.eqb "riskAssessment" "riskSignals") with false. cbn iota. by rewrite Hg.
    + rewrite Hsaid, Hres by (apply (bool_decide_unpack _); by vm_compute). cbn. by rewrite Hctx.
    + intros k Hk Hne. rewrite Hsaid, Hres by done. cbn. rewrite Hctx. by rewrite (proj2 (String.eqb_neq _ _)).
    + intros k Hk Hne. rewrite !not_elem_of_cons in Hne. destruct Hne as (M1 & M2 & M3 & _).
      rewrite Hsaid, (Hoth _ Hk M3), obj_get_assign by done. rewrite (proj2 (String.eqb_neq _ _)) by done. by rewrite Hrest.
Qed.

(** ** An assessment *)

#[local] Existing Instance toy_hasher.
#[local] Existing Instance toy_host.

Definition demo_conclusion (score : num) : val :=
  VObj [("score", VNum score); ("level", VStr "high"); ("policyVersion", VStr "p1"); ("assessment", VStr "step"); ("note", VStr "x")].
Definition demo_subject : val := ref_val "acme" "activity" "tool_call" "call_1".
Definition demo_factor : val := VObj [("key", VStr "fanOut"); ("value", VInt 3); ("kind", VStr "additive"); ("weight", VInt 1); ("contribution", VInt 0)].
Definition demo_assertion_input (score : num) : SecurityRiskAssertionInput :=
  AssertionInput VUndef (VObj [("tenantId", VStr "t"); ("region", VStr "eu")]) (VDate (Some 0%Z)) (VStr "detector") demo_subject (VStr "k")
    (demo_conclusion score) (VArr [demo_factor]).
Definition demo_assertion (score : num) : val :=
  default VUndef (exc_to_option (createSecurityRiskAssertion "u" 0 (demo_assertion_input score))).

Lemma demo_assertion_made : createSecurityRiskAssertion "u" 0 (demo_assertion_input (NFin 8 (-1))) = Ret (demo_assertion (NFin 8 (-1))).
Proof. vm_compute. reflexivity. Qed.

Lemma assertion_well_formed_witness :
  createSecurityRiskAssertion "u" 0 (demo_assertion_input (NFin 12 (-1))) = Throw "conclusion.score must be a finite number in [0,1]" ∧
  keys_are (vget_opt (demo_assertion (NFin 8 (-1))) "conclusion") conclusion_fields ∧
  conclusion_ok (vget_opt (demo_assertion (NFin 8 (-1))) "conclusion").
Proof.
  split; [reflexivity|]. destruct (assertion_well_formed _ _ _ _ demo_assertion_made) as (H1 & H2 & _). split; [exact H2|exact H1].
Defined.

Definition demo_hash : string := default "" (exc_to_option (hashAssertionRecord (demo_assertion (NFin 8 (-1))))).
Definition demo_stored : val :=
  match demo_assertion (NFin 8 (-1)) with VObj fs => VObj (fs ++ [("hash", VStr "stale")]) | v => v end.

Lemma assertion_hash_binds_witness : hashAssertionRecord demo_stored = Ret demo_hash.
Proof.
  destruct (assertion_hash_binds "u" 0 (demo_assertion_input (NFin 8 (-1))) _ "u" 0 (demo_assertion_input (NFin 8 (-1))) _ demo_hash
    demo_assertion_made demo_assertion_made) as [H _]; [reflexivity..|].
  destruct (demo_assertion (NFin 8 (-1))) as [| | | | | |fs| |] eqn:E; try (vm_compute in E; discriminate E).
  unfold demo_stored. rewrite E. apply H. reflexivity.
Defined.

Definition demo_assessed : SecurityRiskAssessedEventInput :=
  AssessedInput (VObj [("tenantId", VStr "t")]) VUndef (VStr "detector") VUndef demo_subject (demo_conclusion (NFin 8 (-1))) VUndef None
    (VStr "ep_1") (VObj [("riskAssessment", VStr "none"); ("team", VStr "a")]).
Definition demo_assessed_event : option AuditEventInput := exc_to_option (buildSecurityRiskAssessedEvent demo_assessed).

Lemma assessed_event_binds_witness : ∃ e, buildSecurityRiskAssessedEvent demo_assessed = Ret e ∧
  let said := vget_opt (in_metadata e) in
  vget_opt (said "riskAssessment") "level" = VStr "high" ∧ said "activityEpisodeId" = VStr "ep_1" ∧ said "team" = VStr "a".
Proof.
  destruct (buildSecurityRiskAssessedEvent demo_assessed) as [e|m] eqn:E; [|by vm_compute in E]. exists e. split; [done|].
  destruct (assessed_event_binds demo_assessed) as [_ Ha]; [apply (bool_decide_unpack _); by vm_compute|].
  destruct (Ha e E) as (_ & H1 & _ & H2 & _ & H3).
  cbn zeta. rewrite H1, H2, H3; [by vm_compute|apply (bool_decide_unpack _); by vm_compute..].
Defined.

(** A property that the record does not document is hashed with it. *)
Example undocumented_field_hashed :
  let with_field v := match v with VObj fs => VObj (fs ++ [("note", VStr "x")]) | v => v end in
  assertion_text (with_field (demo_assertion (NFin 8 (-1)))) ≠ assertion_text (demo_assertion (NFin 8 (-1))).
Proof. vm_compute. discriminate. Qed.
