(* ===== verification/Provenance.v ===== *)
(** * Agent provenance (sdks/typescript/src/provenance.ts)

    A session turns what an agent does into events and the edges that connect
    them. Every record method is a plan, the event and then its edges, that is run
    on the host's sinks one call after another. The sinks are state transformers
    that may throw ([ProvenanceSinks]); ids and file references have their declared
    types, and what the code passes on to metadata is arbitrary. *)

From S2P Require Import Prelude Regex JsNum JsVal Dates JsonText Hash Canonical Redact AuditChain Event.
From S2P Require Import Binary64 RiskScore Doubles GovernedChange RiskAssertion.

Definition DEFAULT_PURPOSE : string := "agent_provenance".

(** [compact]: the properties that are not [undefined]. *)
Definition compact (fs : list (string * val)) : list (string * val) :=
  fold_left (λ out kv, if is_undef kv.2 then out else obj_assign kv.1 kv.2 out) fs [].

(** An object literal whose parts are listed in order, spreads included. *)
Definition literal (fs : list (string * val)) : list (string * val) :=
  fold_left (λ acc kv, obj_define kv.1 kv.2 acc) fs [].

(** ** Entities *)

Definition entity (type id : string) : val := VObj [("type", VStr type); ("id", VStr id)].
Definition typed_resource (id resourceType : string) : val :=
  VObj [("type", VStr "resource"); ("id", VStr id); ("resourceType", VStr resourceType)].

Record FileRef := File { file_id : string; pathHash : val }.
Record FileModification := Modification {
  mod_file : FileRef; afterHash : val; beforeHash : val; hunkHashes : option (list string); action : option string;
}.

Definition file_entity (f : FileRef) : val := VObj [("type", VStr "file"); ("id", VStr (file_id f)); ("pathHash", pathHash f)].

Definition fileRelation (action : option string) : string :=
  match action with
  | Some a => if String.eqb a "create" then "created" else if String.eqb a "delete" then "deleted" else "modified"
  | None => "modified"
  end.

Definition actorEntity (principal : val) : val :=
  VObj ([("type", VStr "actor"); ("id", vget_opt principal "id")]
        ++ (if includes ["user"; "service"; "system"; "ai_agent"] (vget_opt principal "type") then [("actorType", vget_opt principal "type")] else [])).

(** ** Edges *)

Definition edge_ends (from : val) (relation : string) (to_ : val) : string :=
  ref_text from "type" +:+ ":" +:+ ref_text from "id" +:+ "__" +:+ relation +:+ "__" +:+ ref_text to_ "type" +:+ ":" +:+ ref_text to_ "id".

Definition edgeIdFor (from : val) (relation : string) (to_ : val) : string := "edge_" +:+ edge_ends from relation to_.

(** An edge of a record method, before it has an owner. *)
Record edge_spec := Edge { edge_from : val; edge_relation : string; edge_to : val; edge_metadata : val }.

(** The edge [persistEdge] passes to the sink. *)
Definition edge_input (scope : val) (ownerEventId : option string) (occurredAt : val) (e : edge_spec) : val :=
  let id := match ownerEventId with
            | None => edgeIdFor (edge_from e) (edge_relation e) (edge_to e)
            | Some owner => "edge_" +:+ owner +:+ "__" +:+ edge_ends (edge_from e) (edge_relation e) (edge_to e)
            end in
  VObj ([("id", VStr id); ("scope", scope); ("from", edge_from e); ("relation", VStr (edge_relation e)); ("to", edge_to e);
         ("metadata", edge_metadata e)] ++ (if is_undef occurredAt then [] else [("occurredAt", occurredAt)])).

(** ** Sessions *)

Record SessionContext := Context_ { purpose : val; retention : val; dataCategories : option (list string); activityEpisodeId : val }.
Record ProvenanceSession := Session { ses_scope : val; sessionId : string; agentActor : val; ctx : SessionContext }.

(** What a record method does: its event, and its edges once the event is recorded. *)
Record plan := Plan { plan_event : AuditEventInput; plan_occurredAt : val; plan_edges : list edge_spec }.

Definition sessionEntity (s : ProvenanceSession) : val := entity "agent_session" (sessionId s).

Section Methods.
Context `{Host}.

Definition buildEvent (s : ProvenanceSession) (id : string) (occurredAt actor : val) (action : val) (target : val)
    (metadata : list (string * val)) (riskSignals : option RiskSignals) : exc AuditEventInput :=
  let stamped := obj_define "sessionId" (VStr (sessionId s)) metadata in
  let stamped := if is_undef (activityEpisodeId (ctx s)) then stamped
                 else obj_define "activityEpisodeId" (activityEpisodeId (ctx s)) stamped in
  finalMetadata ← match riskSignals with Some signals => stampRiskSignals stamped signals | None => Ret stamped end;
  Ret {| in_id := VStr id; in_occurredAt := occurredAt; in_actor := actor; in_action := action; in_target := target;
         in_scope := ses_scope s; in_requestId := VUndef; in_purpose := purpose (ctx s); in_lawfulBasis := VUndef;
         in_dataCategories := dataCategories (ctx s); in_retention := retention (ctx s); in_metadata := VObj finalMetadata |}.

(** The parts every input has. *)
Record common := Common { com_id : option string; com_occurredAt : val; com_metadata : val; com_riskSignals : option RiskSignals }.

Definition method (s : ProvenanceSession) (c : common) (id : string) (actor : val) (action : val) (target : val)
    (fields : list (string * val)) (edges : list edge_spec) : exc plan :=
  event ← buildEvent s (default id (com_id c)) (com_occurredAt c) actor action target
            (compact (literal (fields ++ spread (com_metadata c)))) (com_riskSignals c);
  Ret (Plan event (com_occurredAt c) edges).

Definition recordPrompt (s : ProvenanceSession) (c : common) (promptHash : string) (contextHashes : val) : exc plan :=
  when ← (if is_undef (com_occurredAt c) then Ret "" else
          match com_id c with
          | Some _ => Ret ""
          | None => match date_value (com_occurredAt c) with
                    | Some t => Ret ("__" +:+ toISOString t)
                    | None => Throw "Invalid time value"
                    end
          end);
  method s c ("evt_prompt__" +:+ sessionId s +:+ "__" +:+ promptHash +:+ when) (agentActor s) (VStr "agent.prompt.recorded")
    (sessionEntity s) [("promptHash", VStr promptHash); ("contextHashes", contextHashes)] [].

Definition modification_edge (from : val) (extra : list (string * val)) (m : FileModification) : edge_spec :=
  Edge from (fileRelation (action m)) (file_entity (mod_file m))
    (VObj (compact ([("beforeHash", beforeHash m); ("afterHash", afterHash m)] ++ extra))).

Definition recordToolCall (s : ProvenanceSession) (c : common) (toolCallId : string) (tool status approval inputHash phase latencyMs : val)
    (reads : option (list FileRef)) (modifies : option (list FileModification)) : exc plan :=
  let toolEntity := entity "tool_call" toolCallId in
  method s c ("evt_tool__" +:+ toolCallId) (agentActor s) (VStr "agent.tool.called") toolEntity
    [("tool", tool); ("status", status); ("approval", approval); ("inputHash", inputHash); ("phase", phase); ("latencyMs", latencyMs)]
    (Edge (sessionEntity s) "created" toolEntity (VObj [("tool", tool)])
     :: ((λ f, Edge toolEntity "read" (file_entity f) (VObj [])) <$> default [] reads)
     ++ (modification_edge toolEntity [] <$> default [] modifies)).

Record Hunk := HunkOf { hunk_id : val; hunk_hash : string; hunk_fileId : val }.

Definition recordChangeProposal (s : ProvenanceSession) (c : common) (proposalId : string)
    (baseVersion resultVersion proposalSignature acceptedPathHashes : val) (rejectedFiles : option (list FileRef))
    (createdHunks : option (list Hunk)) : exc plan :=
  let proposalEntity := typed_resource proposalId "change_proposal" in
  method s c ("evt_proposal__" +:+ proposalId) (agentActor s) (VStr "change.proposal.created") (entity "change_proposal" proposalId)
    [("baseVersion", baseVersion); ("resultVersion", resultVersion); ("proposalSignature", proposalSignature);
     ("acceptedPathHashes", acceptedPathHashes)]
    (Edge proposalEntity "part_of" (sessionEntity s) (VObj [])
     :: ((λ f, Edge proposalEntity "read" (file_entity f) (VObj [("decision", VStr "rejected")])) <$> default [] rejectedFiles)
     ++ ((λ h, Edge proposalEntity "created" (entity "diff_hunk" (hunk_hash h)) (VObj [("hunkId", hunk_id h); ("fileId", hunk_fileId h)]))
         <$> default [] createdHunks)).

(** An optional list of strings as a value. *)
Definition strings_val (o : option (list string)) : val := match o with Some l => VArr (VStr <$> l) | None => VUndef end.

Definition file_summary (m : FileModification) : val :=
  VObj (compact [("pathHash", pathHash (mod_file m)); ("beforeHash", beforeHash m); ("afterHash", afterHash m);
                 ("hunkHashes", strings_val (hunkHashes m)); ("action", VStr (default "upsert" (action m)))]).

Definition file_edges (changedBy resultVersion : val) (causedByProposalId : option string) (m : FileModification) : list edge_spec :=
  let fileEntity := file_entity (mod_file m) in
  modification_edge changedBy [("resultVersion", resultVersion)] m
  :: ((λ h, Edge (entity "diff_hunk" h) "part_of" fileEntity (VObj [("hunkHash", VStr h)])) <$> default [] (hunkHashes m))
  ++ match causedByProposalId with
     | Some p => if String.eqb p "" then [] else [Edge fileEntity "caused_by" (typed_resource p "change_proposal") (VObj [])]
     | None => []
     end.

Definition recordFileChange (s : ProvenanceSession) (c : common) (sourceTreeId : string) (files : list FileModification)
    (baseVersion resultVersion rootHash manifestDigest : val) (causedByProposalId : option string) (changedBy : val) : exc plan :=
  version ← match com_id c with Some _ => Ret "" | None => js_String (nullish_or resultVersion (VStr "x")) end;
  method s c ("evt_filechange__" +:+ sourceTreeId +:+ "__" +:+ version) (agentActor s) (VStr "change.files.changed") (entity "source_tree" sourceTreeId)
    [("baseVersion", baseVersion); ("resultVersion", resultVersion); ("rootHash", rootHash); ("manifestDigest", manifestDigest);
     ("files", VArr (file_summary <$> files))]
    (concat (file_edges (nullish_or changedBy (sessionEntity s)) resultVersion causedByProposalId <$> files)).

Definition review_relation (decision : val) : string :=
  if strict_eq decision (VStr "waived") then "waived_by"
  else if strict_eq decision (VStr "changes_requested") then "reviewed_by" else "approved_by".

Definition review_action (decision : val) : string :=
  if strict_eq decision (VStr "changes_requested") then "review.finding.created"
  else if strict_eq decision (VStr "waived") then "review.waiver.recorded" else "review.approval.recorded".

(** [if (input.id) ...] for an optional id. *)
Definition given (o : option string) : option string := match o with Some s => if String.eqb s "" then None else Some s | None => None end.

Definition recordReview (s : ProvenanceSession) (c : common) (pullRequestId : string) (reviewer : val) (proposalId : option string)
    (approvalHash findingCount waiverCount decision : val) : exc plan :=
  method s c ("evt_review__" +:+ pullRequestId) reviewer (VStr (review_action decision)) (entity "pull_request" pullRequestId)
    [("approvalHash", approvalHash); ("findingCount", findingCount); ("waiverCount", waiverCount); ("decision", decision)]
    match given proposalId with
    | Some p => [Edge (typed_resource p "change_proposal") (review_relation decision) (actorEntity reviewer)
                   (VObj (compact [("approvalHash", approvalHash)]))]
    | None => []
    end.

Definition recordCiRun (s : ProvenanceSession) (c : common) (ciRunId : string) (service status checks artifactHash : val)
    (artifactId : option string) (derivedFromFiles : option (list FileRef)) : exc plan :=
  let ciEntity := entity "ci_run" ciRunId in
  method s c ("evt_ci__" +:+ ciRunId) service (VStr "ci.job.completed") ciEntity
    [("status", status); ("checks", checks); ("artifactHash", artifactHash)]
    match given artifactId with
    | Some a => Edge (entity "artifact" a) "built_by" ciEntity (VObj (compact [("status", status)]))
                :: ((λ f, Edge (entity "artifact" a) "derived_from" (file_entity f) (VObj [])) <$> default [] derivedFromFiles)
    | None => []
    end.

Definition recordDeployment (s : ProvenanceSession) (c : common) (deploymentId : string) (service : val) (artifactId : option string)
    (bundleHash sourceHash : val) (policyId : option string) (policyRequirements : val) : exc plan :=
  let deploymentEntity := entity "deployment" deploymentId in
  method s c ("evt_deploy__" +:+ deploymentId) service (VStr "deploy.deployed") deploymentEntity
    [("bundleHash", bundleHash); ("sourceHash", sourceHash)]
    (match given artifactId with
     | Some a => [Edge (entity "artifact" a) "deployed_as" deploymentEntity (VObj (compact [("bundleHash", bundleHash)]))]
     | None => []
     end ++
     match given policyId with
     | Some p => [Edge deploymentEntity "satisfies_policy" (entity "policy" p) (VObj (compact [("requirements", policyRequirements)]))]
     | None => []
     end).

Definition recordRuntimeEvent (s : ProvenanceSession) (c : common) (runtimeEventId : string) (actor action : val)
    (deploymentId : option string) (routeHash observedOutcome : val) : exc plan :=
  let runtimeEntity := entity "runtime_event" runtimeEventId in
  method s c ("evt_runtime__" +:+ runtimeEventId) actor action runtimeEntity
    [("deploymentId", default VUndef (VStr <$> deploymentId)); ("routeHash", routeHash); ("observedOutcome", observedOutcome)]
    match given deploymentId with
    | Some d => [Edge (entity "deployment" d) "observed_in" runtimeEntity (VObj (compact [("routeHash", routeHash)]))]
    | None => []
    end.

(** ** Starting a session *)

Record StartSessionInput := StartInput {
  st_scope : val; st_sessionId : string; st_initiatedBy : val; st_agentActor : val; st_agent_name : val; st_agent_version : val;
  st_model_provider : val; st_model_name : val; st_id : option string; st_occurredAt : val; st_purpose : val; st_retention : val;
  st_dataCategories : option (list string); st_repository : val; st_branch : val; st_policyHash : val; st_configHash : val; st_sandbox : val;
  st_promptHash : val; st_contextHashes : val; st_requestId : option string; st_metadata : val; st_activityEpisodeId : val;
}.

Definition startSession (input : StartSessionInput) : plan * ProvenanceSession :=
  let sessionMetadata := compact (literal (
    [("agent", VObj (compact [("name", st_agent_name input); ("version", st_agent_version input)]));
     ("model", VObj [("provider", st_model_provider input); ("name", st_model_name input)]);
     ("repository", st_repository input); ("branch", st_branch input); ("policyHash", st_policyHash input);
     ("configHash", st_configHash input); ("sandbox", st_sandbox input); ("promptHash", st_promptHash input);
     ("contextHashes", st_contextHashes input)]
    ++ spread (st_metadata input)
    ++ [("sessionId", VStr (st_sessionId input)); ("activityEpisodeId", st_activityEpisodeId input)])) in
  let purpose := nullish_or (st_purpose input) (VStr DEFAULT_PURPOSE) in
  let sessionEntity := entity "agent_session" (st_sessionId input) in
  let event := {|
    in_id := VStr (default ("evt_session__" +:+ st_sessionId input) (st_id input)); in_occurredAt := st_occurredAt input;
    in_actor := st_agentActor input; in_action := VStr "agent.session.started"; in_target := sessionEntity;
    in_scope := st_scope input; in_requestId := VUndef; in_purpose := purpose; in_lawfulBasis := VUndef;
    in_dataCategories := st_dataCategories input; in_retention := st_retention input; in_metadata := VObj sessionMetadata |} in
  (Plan event (st_occurredAt input)
     (Edge sessionEntity "caused_by" (actorEntity (st_initiatedBy input)) (VObj [("role", VStr "enforced_by")])
      :: match given (st_requestId input) with
         | Some r => [Edge sessionEntity "caused_by" (typed_resource r "change_request") (VObj [])]
         | None => []
         end),
   Session (st_scope input) (st_sessionId input) (st_agentActor input)
     (Context_ purpose (st_retention input) (st_dataCategories input) (st_activityEpisodeId input))).
End Methods.

(** ** Running a plan *)

(** The host's sinks over its state. *)
Record ProvenanceSinks (S : Type) := Sinks {
  sink_event : AuditEventInput → S → S * exc val;
  sink_edge : val → S → S * exc val;
}.
Arguments sink_event {S} _ _ _.
Arguments sink_edge {S} _ _ _.

Section Run.
Context {S : Type} (sinks : ProvenanceSinks S).

Fixpoint persist_edges (scope : val) (owner : option string) (occurredAt : val) (edges : list edge_spec) (s : S) : S * exc (list val) :=
  match edges with
  | [] => (s, Ret [])
  | e :: edges =>
      match sink_edge sinks (edge_input scope owner occurredAt e) s with
      | (s, Throw msg) => (s, Throw msg)
      | (s, Ret record) =>
          match persist_edges scope owner occurredAt edges s with
          | (s, Throw msg) => (s, Throw msg)
          | (s, Ret records) => (s, Ret (record :: records))
          end
      end
  end.

(** A record method: the event, then its edges under the id the store gave it. *)
Definition run_plan (p : plan) (s : S) : S * exc (val * list val) :=
  match sink_event sinks (plan_event p) s with
  | (s, Throw msg) => (s, Throw msg)
  | (s, Ret event) =>
      match persist_edges (in_scope (plan_event p)) (Some (ref_text (vget_opt event "event") "id")) (plan_occurredAt p) (plan_edges p) s with
      | (s, Throw msg) => (s, Throw msg)
      | (s, Ret edges) => (s, Ret (event, edges))
      end
  end.

Definition link (session : ProvenanceSession) (from : val) (relation : string) (to_ metadata occurredAt : val) (s : S) : S * exc val :=
  sink_edge sinks (edge_input (ses_scope session) None occurredAt (Edge from relation to_ (nullish_or metadata (VObj [])))) s.
End Run.
