(* ===== verification/ProvenanceSafety.v ===== *)
(** * Properties of agent provenance

    What every event and edge of a session says, and in which order they reach the
    sinks. *)

From S2P Require Import Prelude Regex JsNum JsVal Dates JsonText Hash Canonical SameData Redact AuditChain Event Demo.
From S2P Require Import Binary64 RiskScore Doubles GovernedChange GovernedSafety RiskAssertion Provenance.

(** An entity of the evidence graph. *)
Definition legal_entity (v : val) : Prop := isEvidenceEntityType (vget_opt v "type") = true.

(** The plans of a session's record methods, of the common input [c]. *)
Inductive recorded `{Host} (s : ProvenanceSession) (c : common) : plan → Prop :=
| rec_prompt hash hashes p : recordPrompt s c hash hashes = Ret p → recorded s c p
| rec_tool id tool status approval inputHash phase latencyMs reads modifies p :
    recordToolCall s c id tool status approval inputHash phase latencyMs reads modifies = Ret p → recorded s c p
| rec_proposal id base result signature paths rejected hunks p :
    recordChangeProposal s c id base result signature paths rejected hunks = Ret p → recorded s c p
| rec_files id files base result root manifest proposal changedBy p :
    recordFileChange s c id files base result root manifest proposal changedBy = Ret p →
    is_undef changedBy = true ∨ is_null changedBy = true ∨ legal_entity changedBy → recorded s c p
| rec_review id reviewer proposal hash findings waivers decision p :
    recordReview s c id reviewer proposal hash findings waivers decision = Ret p → recorded s c p
| rec_ci id service status checks hash artifact derived p :
    recordCiRun s c id service status checks hash artifact derived = Ret p → recorded s c p
| rec_deploy id service artifact bundle source policy requirements p :
    recordDeployment s c id service artifact bundle source policy requirements = Ret p → recorded s c p
| rec_runtime id actor action deployment route outcome p :
    recordRuntimeEvent s c id actor action deployment route outcome = Ret p → recorded s c p.

Section Methods.
Context `{HO : Host}.

(** ** Every method is one event *)

Lemma recorded_method s c p : recorded s c p →
  ∃ id actor action target fields, method s c id actor action target fields (plan_edges p) = Ret p.
Proof.
  assert (∀ id actor action target fields edges q, method s c id actor action target fields edges = Ret q → plan_edges q = edges) as Hedges.
  { intros * E. unfold method in E. apply bind_ret in E as (? & _ & [= <-]). done. }
  assert (∀ id actor action target fields edges q, method s c id actor action target fields edges = Ret q →
    ∃ id actor action target fields, method s c id actor action target fields (plan_edges q) = Ret q) as Hone.
  { intros * E. rewrite (Hedges _ _ _ _ _ _ _ E). eauto 10. }
  destruct 1 as [* E|* E|* E|* E _|* E|* E|* E|* E]; try by eapply Hone, E.
  - unfold recordPrompt in E. apply bind_ret in E as (when & _ & E). by eapply Hone, E.
  - unfold recordFileChange in E. apply bind_ret in E as (version & _ & E). by eapply Hone, E.
Qed.

Lemma compact_get k fs : k ≠ "__proto__" → NoDup (JsVal.keys fs) →
  obj_get k (compact fs) = match obj_get k fs with Some v => if is_undef v then None else Some v | None => None end.
Proof. intros Hk Hnd. exact (fold_kept_get is_undef k fs Hk Hnd []). Qed.

Lemma literal_NoDup fs : NoDup (JsVal.keys (literal fs)).
Proof. apply fold_define_NoDup. constructor. Qed.

(** A spread at the end of a literal has the last word. *)
Lemma literal_spread k fs own : NoDup (JsVal.keys own) →
  obj_get k (literal (fs ++ own)) = match obj_get k own with Some v => Some v | None => obj_get k (literal fs) end.
Proof. intros Hnd. unfold literal. rewrite fold_left_app. by apply fold_define_get. Qed.

Definition stamps : list string := ["sessionId"; "activityEpisodeId"; "riskSignals"].

(** What an event of the session says under a key. *)
Lemma method_says s c id actor action target fields edges p : method s c id actor action target fields edges = Ret p →
  let said := vget_opt (in_metadata (plan_event p)) in
  said "sessionId" = VStr (sessionId s) ∧
  (is_undef (activityEpisodeId (ctx s)) = false → said "activityEpisodeId" = activityEpisodeId (ctx s)) ∧
  (∀ signals, com_riskSignals c = Some signals → ∃ n, normalizeRiskSignals signals = Ret n ∧ said "riskSignals" = signals_val n) ∧
  (∀ k, k ∉ stamps → said k = default VUndef (obj_get k (compact (literal (fields ++ spread (com_metadata c)))))).
Proof.
  unfold method, buildEvent. generalize (compact (literal (fields ++ spread (com_metadata c)))) as base. intros base E.
  apply bind_ret in E as (event & E & [= <-]). apply bind_ret in E as (md & Hmd & [= <-]). cbn [plan_event in_metadata vget_opt].
  set (stamped := if _ : bool then _ else _) in Hmd.
  assert (obj_get "sessionId" stamped = Some (VStr (sessionId s)) ∧
    (is_undef (activityEpisodeId (ctx s)) = false → obj_get "activityEpisodeId" stamped = Some (activityEpisodeId (ctx s))) ∧
    ∀ k, k ∉ stamps → obj_get k stamped = obj_get k base) as (S1 & S2 & S3).
  { assert (∀ k, k ∉ stamps → String.eqb "sessionId" k = false ∧ String.eqb "activityEpisodeId" k = false) as Hne.
    { unfold stamps. intros k Hk. rewrite !not_elem_of_cons in Hk. destruct Hk as (H1 & H2 & _).
      split; by apply String.eqb_neq, not_eq_sym. }
    unfold stamped. destruct (is_undef _); (split; [by rewrite ?obj_get_define|]; split; [by rewrite ?obj_get_define|]; intros k Hk;
      destruct (Hne k Hk) as [N1 N2]; by rewrite !obj_get_define, N1, ?N2). }
  destruct (com_riskSignals c) as [signals|].
  - unfold stampRiskSignals in Hmd. apply bind_ret in Hmd as (n & Hn & [= <-]). rewrite !obj_get_define. cbn [String.eqb Ascii.eqb Bool.eqb].
    change (String.eqb "riskSignals" "sessionId") with false. change (String.eqb "riskSignals" "activityEpisodeId") with false.
    rewrite S1. split; [done|]. split; [intros Hu; by rewrite S2|]. split; [intros ? [= <-]; by exists n|].
    intros k Hk. rewrite obj_get_define, S3 by done. destruct (String.eqb_spec "riskSignals" k) as [<-|]; [|done].
    destruct Hk. unfold stamps. do 2 right. left.
  - injection Hmd as <-. rewrite S1. split; [done|]. split; [intros Hu; by rewrite S2|]. split; [done|]. intros k Hk. by rewrite S3.
Qed.
End Methods.

(** ** The edges of a session *)

(** Of a relation of the evidence graph, between two of its entities. *)
Definition legal_edge (e : edge_spec) : Prop :=
  isEvidenceEdgeRelation (VStr (edge_relation e)) = true ∧ legal_entity (edge_from e) ∧ legal_entity (edge_to e).

Section Edges.
Context `{HO : Host}.

Lemma modification_legal from extra m : legal_entity from → legal_edge (modification_edge from extra m).
Proof.
  intros Hf. split; [|split; [done|reflexivity]]. cbn [modification_edge edge_relation]. unfold fileRelation.
  destruct (action m) as [a|]; [|reflexivity]. by destruct (String.eqb a "create"); [|destruct (String.eqb a "delete")].
Qed.

Lemma file_edges_legal changedBy version proposal m : legal_entity changedBy →
  Forall legal_edge (file_edges changedBy version proposal m).
Proof.
  intros Hf. constructor; [by apply modification_legal|]. apply Forall_app. split.
  - apply Forall_fmap, Forall_true. intros h. by split_and!.
  - destruct proposal as [p|]; [|constructor]. destruct (String.eqb p ""); [constructor|]. constructor; [by split_and!|constructor].
Qed.

(** One literal edge, or those of a list. *)
Ltac legal_edges :=
  repeat match goal with
  | |- Forall legal_edge (_ ++ _) => apply Forall_app; split
  | |- Forall legal_edge (_ <$> _) => apply Forall_fmap, Forall_true; intros ?
  | |- Forall legal_edge (match given ?o with _ => _ end) => destruct (given o)
  | |- Forall legal_edge [] => constructor
  | |- Forall legal_edge (_ :: _) => constructor
  end.

Lemma recorded_legal s c p : recorded s c p → Forall legal_edge (plan_edges p).
Proof.
  assert (∀ id actor action target fields edges q, method s c id actor action target fields edges = Ret q →
    Forall legal_edge edges → Forall legal_edge (plan_edges q)) as Hm.
  { intros * E. unfold method in E. by apply bind_ret in E as (? & _ & [= <-]). }
  destruct 1 as [* E|* E|* E|* E Hc|* E|* E|* E|* E].
  - unfold recordPrompt in E. apply bind_ret in E as (when & _ & E). eapply Hm; [exact E|constructor].
  - eapply Hm; [exact E|]. legal_edges; try by split_and!. by apply modification_legal.
  - eapply Hm; [exact E|]. legal_edges; by split_and!.
  - unfold recordFileChange in E. apply bind_ret in E as (version & _ & E). eapply Hm; [exact E|].
    apply Forall_concat, Forall_fmap, Forall_true. intros m. apply file_edges_legal.
    destruct Hc as [Hu|[Hu|Hl]]; [by destruct changedBy..|]. by destruct changedBy.
  - eapply Hm; [exact E|]. legal_edges. unfold actorEntity. split_and!; try done.
    cbn [edge_relation]. unfold review_relation. by destruct (strict_eq _ _); [|destruct (strict_eq _ _)].
  - eapply Hm; [exact E|]. legal_edges; by split_and!.
  - eapply Hm; [exact E|]. legal_edges; by split_and!.
  - eapply Hm; [exact E|]. legal_edges; by split_and!.
Qed.

Lemma legal_clean v f id : legal_entity v → vget_opt v "id" = VStr id → blank id = false → ∃ w, cleanEvidenceEntity v f = Ret w.
Proof.
  unfold legal_entity. intros Ht Hi Hb.
  assert (∃ t, vget_opt v "type" = VStr t ∧ blank t = false) as (t & Hty & Hbt).
  { destruct (vget_opt v "type") as [| | | |t| | | |]; try done. exists t. split; [done|]. unfold isEvidenceEntityType, includes in Ht.
    apply existsb_exists in Ht as (x & Hx & [= ->]%strict_eq_str). clear -Hx. revert t Hx. apply List.Forall_forall.
    repeat (constructor; [reflexivity|]). constructor. }
  assert (∀ k x, vget_opt v k = VStr x → vget v k = Ret (VStr x)) as Hget by (destruct v; cbn; intros; congruence).
  eexists. apply cleanEvidenceEntity_ret. exists t, id. rewrite Hty in Ht. split_and!; [by apply Hget|done|done|by apply Hget|done|reflexivity].
Qed.
End Edges.

(** Every edge of a record method has a relation of the evidence graph and joins
    two of its entities, so that the SDK accepts it wherever the ids are not blank
    and its date, scope and metadata can be stored; the stored edge has an id that
    begins with the one of the event that owns it. *)
Theorem session_edges_accepted `{Host} s c p e owner from to_ t md sc uuid now :
  recorded s c p → e ∈ plan_edges p →
  vget_opt (edge_from e) "id" = VStr from → blank from = false → vget_opt (edge_to e) "id" = VStr to_ → blank to_ = false →
  date_value (nullish_or (com_occurredAt c) (VDate (Some now))) = Some t →
  redactMetadata (nullish_or (edge_metadata e) (VObj [])) = Ret md → optional_scope (ses_scope s) = Ret sc →
  legal_edge e ∧ ∃ edge rest, createEvidenceEdge uuid now (edge_input (ses_scope s) (Some owner) (com_occurredAt c) e) = Ret edge ∧
    vget_opt edge "id" = VStr ("edge_" +:+ owner +:+ "__" +:+ rest) ∧ vget_opt edge "relation" = VStr (edge_relation e) ∧
    vget_opt edge "occurredAt" = VStr (toISOString t).
Proof.
  intros Hr He Hf Hbf Ht Hbt Hd Hm Hs. pose proof (recorded_legal _ _ _ Hr) as Hl. rewrite Forall_forall in Hl.
  destruct (Hl e He) as (Hrel & Hlf & Hlt). split; [done|].
  destruct (legal_clean _ "from" _ Hlf Hf Hbf) as [wf Hwf]. destruct (legal_clean _ "to" _ Hlt Ht Hbt) as [wt Hwt].
  do 2 eexists. split.
  - apply createEvidenceEdge_ret. exists (edge_from e), (edge_to e), wf, wt, (VStr (edge_relation e)).
    eexists _, (com_occurredAt c), t, (edge_metadata e), md, (ses_scope s), sc.
    split_and!; try done; try reflexivity.
    unfold edge_input. cbn [vget]. rewrite obj_get_app. cbn. by destruct (com_occurredAt c).
  - split_and!; reflexivity.
Qed.

(** ** The order of the calls *)

Definition call : Type := AuditEventInput + val.

Definition sink_call {S} (sinks : ProvenanceSinks S) (c : call) (s : S) : S * exc val :=
  match c with inl event => sink_event sinks event s | inr edge => sink_edge sinks edge s end.

(** The calls of a plan whose event was stored under this id. *)
Definition edge_calls (p : plan) (owner : string) : list call :=
  (λ e, inr (edge_input (in_scope (plan_event p)) (Some owner) (plan_occurredAt p) e)) <$> plan_edges p.

(** Sinks that note every call, and whether it was answered. *)
Definition noted {S} (sinks : ProvenanceSinks S) : ProvenanceSinks (S * list (call * bool)) :=
  let note c (sl : S * list (call * bool)) :=
    let '(s, o) := sink_call sinks c sl.1 in ((s, sl.2 ++ [(c, match o with Ret _ => true | Throw _ => false end)]), o) in
  {| sink_event := λ i, note (inl i); sink_edge := λ e, note (inr e) |}.

Definition answered (cs : list call) : list (call * bool) := (λ c, (c, true)) <$> cs.

Lemma persist_edges_noted {S} (sinks : ProvenanceSinks S) scope owner occ edges : ∀ s l s' l' o,
  persist_edges (noted sinks) scope owner occ edges (s, l) = ((s', l'), o) →
  let calls := (λ e, inr (edge_input scope owner occ e)) <$> edges in
  match o with
  | Ret records => l' = l ++ answered calls ∧ length records = length edges
  | Throw _ => ∃ made c rest, calls = made ++ c :: rest ∧ l' = l ++ answered made ++ [(c, false)]
  end.
Proof.
  induction edges as [|e edges IH]; intros s l s' l' o E; cbn [persist_edges] in E.
  - injection E as <- <- <-. cbn. by rewrite app_nil_r.
  - cbn [sink_edge noted] in E. unfold sink_call in E. cbn [fst snd] in E.
    destruct (sink_edge sinks (edge_input scope owner occ e) s) as [s1 [r|m]].
    + destruct (persist_edges (noted sinks) scope owner occ edges _) as [[s2 l2] o2] eqn:E2. apply IH in E2. cbn zeta in *.
      destruct o2 as [rs|m2]; injection E as <- <- <-.
      * destruct E2 as [-> Hlen]. rewrite <- app_assoc. split; [done|]. cbn. by rewrite Hlen.
      * destruct E2 as (made & c & rest & Hc & ->). exists (inr (edge_input scope owner occ e) :: made), c, rest. rewrite fmap_cons, Hc.
        split; [done|]. by rewrite <- app_assoc.
    + injection E as <- <- <-. exists [], (inr (edge_input scope owner occ e)), ((λ e, inr (edge_input scope owner occ e)) <$> edges). done.
Qed.

(** Whatever the sinks do, a record method calls them in order: the event first,
    then each edge once the one before it was stored, under the id the store gave
    the event; at the first refusal it stops, and it returns only when every call
    was answered, with one record per edge. *)
Theorem record_in_order {S} (sinks : ProvenanceSinks S) p s s' log o :
  run_plan (noted sinks) p (s, []) = ((s', log), o) →
  match o with
  | Ret (event, edges) =>
      log = answered (inl (plan_event p) :: edge_calls p (ref_text (vget_opt event "event") "id")) ∧ length edges = length (plan_edges p)
  | Throw _ => log = [(inl (plan_event p), false)] ∨
      ∃ owner made c rest, edge_calls p owner = made ++ c :: rest ∧ log = answered (inl (plan_event p) :: made) ++ [(c, false)]
  end.
Proof.
  unfold run_plan. cbn [sink_event noted]. unfold sink_call. cbn [fst snd].
  destruct (sink_event sinks (plan_event p) s) as [s1 [r|m]]; [|intros [= <- <- <-]; by left].
  destruct (persist_edges _ _ _ _ _ _) as [[s2 l2] o2] eqn:E. apply persist_edges_noted in E. cbn zeta in E.
  destruct o2 as [rs|m]; intros [= <- <- <-].
  - destruct E as [-> Hlen]. by split.
  - right. destruct E as (made & c & rest & Hc & ->). by exists (ref_text (vget_opt r "event") "id"), made, c, rest.
Qed.

(** ** A session *)

#[local] Existing Instance toy_host.

Definition demo_scope : val := VObj [("tenantId", VStr "t")].
Definition demo_agent : val := VObj [("id", VStr "a1"); ("type", VStr "ai_agent")].
Definition demo_session : ProvenanceSession :=
  Session demo_scope "ses_1" demo_agent (Context_ (VStr DEFAULT_PURPOSE) VUndef None (VStr "ep_1")).
Definition demo_common : common :=
  Common None (VDate (Some 0%Z)) (VObj [("sessionId", VStr "other"); ("status", VStr "late")]) None.
Definition demo_file : FileRef := File "src/a.ts" (VStr "h1").
Definition no_event : AuditEventInput := {|
  in_id := VUndef; in_occurredAt := VUndef; in_actor := VUndef; in_action := VUndef; in_target := VUndef; in_scope := VUndef;
  in_requestId := VUndef; in_purpose := VUndef; in_lawfulBasis := VUndef; in_dataCategories := None; in_retention := VUndef;
  in_metadata := VUndef |}.

Definition demo_plan : plan :=
  default (Plan no_event VUndef [])
    (exc_to_option (recordToolCall demo_session demo_common "call_1" (VStr "edit") (VStr "ok") VUndef VUndef VUndef VUndef
                      (Some [demo_file]) (Some [Modification demo_file (VStr "h2") VUndef None (Some "delete")]))).

Lemma demo_recorded : recorded demo_session demo_common demo_plan.
Proof.
  eapply (rec_tool _ _ "call_1" (VStr "edit") (VStr "ok") VUndef VUndef VUndef VUndef (Some [demo_file])
            (Some [Modification demo_file (VStr "h2") VUndef None (Some "delete")])).
  vm_compute. reflexivity.
Qed.


Definition demo_spec : edge_spec := default (Edge VUndef "" VUndef VUndef) (plan_edges demo_plan !! 2%nat).

Lemma session_edges_accepted_witness :
  legal_edge demo_spec ∧ edge_relation demo_spec = "deleted" ∧
  ∃ edge rest, createEvidenceEdge "u" 5 (edge_input demo_scope (Some "evt_tool__call_1") (VDate (Some 0%Z)) demo_spec) = Ret edge ∧
    vget_opt edge "id" = VStr ("edge_" +:+ "evt_tool__call_1" +:+ "__" +:+ rest).
Proof.
  destruct (session_edges_accepted demo_session demo_common demo_plan demo_spec "evt_tool__call_1" "call_1" "src/a.ts" 0
    (VObj [("afterHash", VStr "h2")]) (Some demo_scope) "u" 5 demo_recorded) as (Hl & edge & rest & H1 & H2 & _); try reflexivity.
  - apply (list_elem_of_lookup_2 _ 2%nat). vm_compute. reflexivity.
  - split; [exact Hl|]. split; [reflexivity|]. by exists edge, rest.
Defined.

(** Sinks that store everything until they have three records. *)
Definition demo_sinks : ProvenanceSinks nat :=
  let store n (r : val) := if Nat.eqb n 3 then (n, Throw "full") else (S n, Ret r) in
  {| sink_event := λ i n, store n (VObj [("event", VObj [("id", in_id i)])]); sink_edge := λ e n, store n e |}.

Lemma record_in_order_witness :
  let '(s, o) := run_plan (noted demo_sinks) demo_plan (0, []) in
  o = Throw "full" ∧ ∃ owner made c rest, edge_calls demo_plan owner = made ++ c :: rest ∧ length made = 2%nat ∧
    s.2 = answered (inl (plan_event demo_plan) :: made) ++ [(c, false)].
Proof.
  destruct (run_plan (noted demo_sinks) demo_plan (0, [])) as [[n log] o] eqn:E.
  assert (o = Throw "full" ∧ length log = 4%nat) as [-> Hlen] by (vm_compute in E; by injection E as <- <- <-).
  split; [done|]. destruct (record_in_order demo_sinks demo_plan 0 n log _ E) as [->|(owner & made & c & rest & H1 & H2)]; [done|].
  exists owner, made, c, rest. split; [done|]. split; [|done]. rewrite H2 in Hlen. cbn in Hlen. rewrite length_app, length_fmap in Hlen.
  cbn in Hlen. lia.
Defined.

(** The parts of an edge id are joined without escaping: two links can have one id. *)
Example edge_id_ambiguous :
  edgeIdFor (entity "file" "a__read__file:b") "read" (entity "file" "c") = edgeIdFor (entity "file" "a") "read" (entity "file" "b__read__file:c").
Proof. reflexivity. Qed.

(** A file modified twice by one tool call is two edges of one id, which a store
    that keys records by id refuses: the second has another hash. *)
Example same_file_same_id :
  let edges hashes := default [] (plan_edges <$> exc_to_option (recordToolCall demo_session demo_common "call_1" (VStr "edit") (VStr "ok")
    VUndef VUndef VUndef VUndef None (Some ((λ h, Modification demo_file (VStr h) VUndef None None) <$> hashes)))) in
  let ids := (λ e, vget_opt (edge_input demo_scope (Some "evt") VUndef e) "id") <$> edges ["h2"; "h3"] in
  ids !! 1%nat = ids !! 2%nat ∧ (edge_metadata <$> edges ["h2"; "h3"]) !! 1%nat ≠ (edge_metadata <$> edges ["h2"; "h3"]) !! 2%nat.
Proof. vm_compute. split; [reflexivity|discriminate]. Qed.
