(* ===== verification/RecordSchema.v ===== *)
(** * The closed record schemas (sdks/typescript/src/export-bundle-v2.ts)

    The predicates with which a vevb-2 bundle admits audit and edge records: closed
    key sets, the field types, the tenant. They read untrusted values and never
    throw, so they are boolean functions. *)

From S2P Require Import Prelude Regex JsNum JsVal Dates JsonText Hash Sha256 Canonical.
From S2P Require Import Redact AuditChain Event Retention.

#[local] Arguments num_of_Z : simpl never.

Definition AUDIT_RECORD_KEYS : list string :=
  ["event"; "sequence"; "previousHash"; "hashAlgorithm"; "canonicalization"; "appendedAt";
   "idempotencyKeyHash"; "hash"].
Definition EDGE_RECORD_KEYS : list string :=
  ["edge"; "sequence"; "previousHash"; "hashAlgorithm"; "canonicalization"; "appendedAt";
   "idempotencyKeyHash"; "hash"].
Definition EVENT_KEYS : list string :=
  ["id"; "schemaVersion"; "occurredAt"; "actor"; "action"; "target"; "scope"; "requestId"; "purpose";
   "lawfulBasis"; "dataCategories"; "retention"; "metadata"].
Definition EVENT_REQUIRED_KEYS : list string :=
  ["id"; "schemaVersion"; "occurredAt"; "actor"; "action"; "target"; "metadata"].
Definition ACTOR_KEYS : list string := ["type"; "id"; "display"].
Definition TARGET_KEYS : list string := ["type"; "id"; "display"].
Definition EVENT_SCOPE_KEYS : list string := ["tenantId"; "workspaceId"; "environment"].
Definition EDGE_KEYS : list string :=
  ["id"; "schemaVersion"; "occurredAt"; "scope"; "from"; "relation"; "to"; "metadata"].
Definition EDGE_REQUIRED_KEYS : list string :=
  ["id"; "schemaVersion"; "occurredAt"; "from"; "relation"; "to"; "metadata"].
Definition ENTITY_KEYS : list string := ["type"; "id"; "actorType"; "resourceType"; "version"; "pathHash"].
Definition ACTOR_TYPES : list string := ["user"; "system"; "service"; "ai_agent"; "anonymous"].
Definition LAWFUL_BASES : list string :=
  ["consent"; "contract"; "legal_obligation"; "vital_interests"; "public_task"; "legitimate_interests";
   "not_applicable"].
Definition ENTITY_TYPES : list string :=
  ["tenant"; "principal"; "actor"; "activity"; "change"; "revision"; "assertion"; "record";
   "evidence_commit"; "data_subject"; "resource"; "data_category"; "purpose"; "policy"; "consent";
   "processor"; "system"; "repository"; "branch"; "commit"; "pull_request"; "file"; "diff_hunk";
   "agent_session"; "tool_call"; "ci_run"; "artifact"; "deployment"; "runtime_event";
   "subject_request"; "export_bundle"].
Definition ENTITY_ACTOR_TYPES : list string := ["user"; "service"; "system"; "ai_agent"].
Definition EDGE_RELATIONS : list string :=
  ["caused_by"; "part_of"; "read"; "modified"; "created"; "deleted"; "derived_from"; "reviewed_by";
   "approved_by"; "waived_by"; "built_by"; "deployed_as"; "observed_in"; "attests_to"; "exports";
   "satisfies_policy"; "violates_policy"; "subject_of"; "processed_for"; "retained_under"; "sent_to";
   "has_activity"; "has_input"; "has_output"; "has_assertion"; "resulted_in"; "performed_by"; "used";
   "generated"; "based_on"; "asserts_about"; "retracts"; "corrects"; "supersedes"; "disputes";
   "confirms"; "compensates"].

(** ** Helpers *)

Definition hasExactKeys (value : val) (ks : list string) : bool :=
  (length (own_keys value) =? length ks)%nat && hasOnlyKeys value ks.

(** [Object.hasOwn] of every key. *)
Definition hasAllKeys (value : val) (ks : list string) : bool :=
  forallb (λ k, bool_decide (k ∈ own_keys value)) ks.

Definition nonEmpty (value : val) : bool :=
  match value with VStr s => (0 <? String.length s)%nat | _ => false end.

(** [Number.isSafeInteger(value) && value >= lo] *)
Definition safe_from (lo : Z) (value : val) : bool :=
  match value with
  | VNum n => match num_int n with Some z => is_safe_integer n && (lo <=? z)%Z | None => false end
  | _ => false
  end.

(** [typeof value === "string" && pattern.test(value)] *)
Definition string_match (pattern : re) (value : val) : bool :=
  match value with VStr s => re_test pattern s | _ => false end.
Definition is_hash (value : val) : bool := string_match HASH_PATTERN value.

Definition optional (ok : val → bool) (value : val) : bool := is_undef value || ok value.

Fixpoint isJsonValue (value : val) : bool :=
  match value with
  | VNull | VBool _ | VStr _ => true
  | VNum n => is_finite n
  | VArr xs => forallb isJsonValue xs
  | VObj fs => forallb (λ kv, isJsonValue kv.2) fs
  | VDate _ => true
  | VUndef | VOther _ => false
  end.

(** A value that is an object and whose property values are JSON values. *)
Definition isJsonObject (value : val) : bool := is_plain_object value && isJsonValue value.

Section Schema.
Context `{DateHost}.

Definition validTimestamp (value : val) : bool :=
  match value with
  | VStr s =>
      re_test TIMESTAMP_PATTERN s &&
      match date_parse s with
      | Some t => negb (String.prefix "0000-" s) && String.eqb (toISOString t) s
      | None => false
      end
  | _ => false
  end.

(** ** Audit records *)

Definition validActor (value : val) : bool :=
  is_plain_object value && hasOnlyKeys value ACTOR_KEYS && hasAllKeys value ["type"; "id"]
  && includes ACTOR_TYPES (vget_opt value "type") && is_string (vget_opt value "id")
  && optional is_string (vget_opt value "display").

Definition validTarget (value : val) : bool :=
  is_plain_object value && hasOnlyKeys value TARGET_KEYS && hasAllKeys value ["type"; "id"]
  && is_string (vget_opt value "type") && is_string (vget_opt value "id")
  && optional is_string (vget_opt value "display").

Definition validEventScope (value : val) (tenantId : string) : bool :=
  is_plain_object value && hasOnlyKeys value EVENT_SCOPE_KEYS && nonEmpty (vget_opt value "tenantId")
  && strict_eq (vget_opt value "tenantId") (VStr tenantId)
  && optional is_string (vget_opt value "workspaceId") && optional is_string (vget_opt value "environment").

(** An array of distinct strings. *)
Definition string_set (value : val) : bool :=
  match value with
  | VArr xs => forallb is_string xs && bool_decide (NoDup (omap str_of xs))
  | _ => false
  end.

Definition validAuditEvent (value : val) (tenantId : string) : bool :=
  let get k := vget_opt value k in
  is_plain_object value && hasOnlyKeys value EVENT_KEYS && hasAllKeys value EVENT_REQUIRED_KEYS
  && nonEmpty (get "id") && strict_eq (get "schemaVersion") (VStr "2026-06-10")
  && validTimestamp (get "occurredAt") && validActor (get "actor")
  && string_match ACTION_PATTERN (get "action")
  && validTarget (get "target") && validEventScope (get "scope") tenantId && isJsonObject (get "metadata")
  && optional is_string (get "requestId") && optional is_string (get "purpose")
  && optional is_string (get "retention") && optional (includes LAWFUL_BASES) (get "lawfulBasis")
  && optional string_set (get "dataCategories").

(** The envelope both record kinds share. *)
Definition valid_envelope (value : val) : bool :=
  let get k := vget_opt value k in
  safe_from 1 (get "sequence") && (is_null (get "previousHash") || is_hash (get "previousHash"))
  && strict_eq (get "hashAlgorithm") (VStr "sha256") && strict_eq (get "canonicalization") (VStr "veritio-json-v1")
  && validTimestamp (get "appendedAt") && is_hash (get "idempotencyKeyHash") && is_hash (get "hash").

Definition validAuditRecord (value : val) (tenantId : string) : bool :=
  is_plain_object value && hasExactKeys value AUDIT_RECORD_KEYS && valid_envelope value
  && validAuditEvent (vget_opt value "event") tenantId.

Definition recordsAreValidAuditRecords (records : list val) (tenantId : string) : bool :=
  forallb (λ r, validAuditRecord r tenantId) records.

(** ** Edge records *)

Definition validEntity (value : val) : bool :=
  is_plain_object value && hasOnlyKeys value ENTITY_KEYS && hasAllKeys value ["type"; "id"]
  && includes ENTITY_TYPES (vget_opt value "type") && nonEmpty (vget_opt value "id")
  && optional (includes ENTITY_ACTOR_TYPES) (vget_opt value "actorType")
  && optional is_string (vget_opt value "resourceType") && optional is_string (vget_opt value "version")
  && optional is_string (vget_opt value "pathHash").

Definition validEvidenceEdge (value : val) (tenantId : string) : bool :=
  let get k := vget_opt value k in
  is_plain_object value && hasOnlyKeys value EDGE_KEYS && hasAllKeys value EDGE_REQUIRED_KEYS
  && nonEmpty (get "id") && strict_eq (get "schemaVersion") (VStr "2026-06-13")
  && validTimestamp (get "occurredAt") && validEventScope (get "scope") tenantId
  && validEntity (get "from") && includes EDGE_RELATIONS (get "relation") && validEntity (get "to")
  && isJsonObject (get "metadata").

Definition validEdgeRecord (value : val) (tenantId : string) : bool :=
  is_plain_object value && hasExactKeys value EDGE_RECORD_KEYS && valid_envelope value
  && validEvidenceEdge (vget_opt value "edge") tenantId.

Definition recordsAreValidEdgeRecords (records : list val) (tenantId : string) : bool :=
  forallb (λ r, validEdgeRecord r tenantId) records.
End Schema.
