(* ===== verification/SameRecords.v ===== *)
(** * Schemas and retention verdicts depend on data only

    The closed schemas and the retention verifiers read a record by its keys, so
    they give equal answers on records that are the same data, whatever the order
    of the keys: [Proper] instances for the readers, lemmas for the verifiers. *)

From S2P Require Import Prelude Regex JsNum JsVal Dates JsonText Hash Sha256 Canonical.
From S2P Require Import Keyed AuditChain ChainModes Redact Event Commit SameData Retention RecordSchema.

#[local] Arguments num_of_Z : simpl never.

(** ** Readers *)

Lemma own_keys_same v w : same_data v w → own_keys v ≡ₚ own_keys w.
Proof.
  intros [v' Hv| |fs gs Hs]%same_data_shape; [done|done|].
  inversion Hs as [| |? ? gs' _ Hf Hp]; subst; [done|]. cbn. unfold keys. rewrite <- Hp.
  clear Hs Hp. apply reflexive_eq. induction Hf as [|a b fs' hs [E _] _ IH]; [done|]. cbn. rewrite E. by f_equal.
Qed.

#[export] Instance vget_opt_proper : Proper (same_data ==> eq ==> same_data) vget_opt.
Proof. intros v w Hs k ? <-. by apply vget_opt_same. Qed.
#[export] Instance is_plain_object_proper : Proper (same_data ==> eq) is_plain_object.
Proof. intros v w Hs. by apply is_plain_object_same. Qed.
#[export] Instance truthy_proper : Proper (same_data ==> eq) truthy.
Proof. intros v w Hs. by apply truthy_same. Qed.
#[export] Instance str_of_proper : Proper (same_data ==> eq) str_of.
Proof. intros v w Hs. by apply str_of_same. Qed.
#[export] Instance includes_proper : Proper (eq ==> same_data ==> eq) includes.
Proof. intros l ? <- v w Hs. by apply includes_same. Qed.

(** A reader that looks at the outermost constructor (and the leaf) only. *)
Ltac by_shape := intros ? ? [? _|? ? _|? ? _]%same_data_shape; reflexivity.

#[export] Instance is_string_proper : Proper (same_data ==> eq) is_string.
Proof. by_shape. Qed.
#[export] Instance is_undef_proper : Proper (same_data ==> eq) is_undef.
Proof. by_shape. Qed.
#[export] Instance is_null_proper : Proper (same_data ==> eq) is_null.
Proof. by_shape. Qed.
#[export] Instance nonEmpty_proper : Proper (same_data ==> eq) nonEmpty.
Proof. by_shape. Qed.
#[export] Instance string_match_proper : Proper (eq ==> same_data ==> eq) string_match.
Proof. intros r ? <-. by_shape. Qed.
#[export] Instance is_hash_proper : Proper (same_data ==> eq) is_hash.
Proof. by_shape. Qed.
#[export] Instance safe_from_proper : Proper (eq ==> same_data ==> eq) safe_from.
Proof. intros z ? <-. by_shape. Qed.
#[export] Instance int_of_proper : Proper (same_data ==> eq) int_of.
Proof. by_shape. Qed.
#[export] Instance validTimestamp_proper `{DateHost} : Proper (same_data ==> eq) validTimestamp.
Proof. by_shape. Qed.

(** Leaves are themselves. *)
#[export] Instance str_same s : Proper same_data (VStr s).
Proof. by constructor. Qed.
#[export] Instance bool_same b : Proper same_data (VBool b).
Proof. by constructor. Qed.
#[export] Instance num_same n : Proper same_data (VNum n).
Proof. by constructor. Qed.
#[export] Instance int_same z : Proper same_data (VInt z).
Proof. by constructor. Qed.

(** Two object values are never the same reference. *)
#[export] Instance strict_eq_proper : Proper (same_data ==> same_data ==> eq) strict_eq.
Proof.
  intros v w Hs x y Hx. destruct (same_data_shape _ _ Hs), (same_data_shape _ _ Hx); try reflexivity;
    match goal with v : val |- _ => by destruct v end.
Qed.

#[export] Instance hasOnlyKeys_proper : Proper (same_data ==> eq ==> eq) hasOnlyKeys.
Proof.
  intros v w Hs ks ? <-. unfold hasOnlyKeys. apply eq_iff_eq_true. rewrite !forallb_forall.
  by setoid_rewrite <- list_elem_of_In; setoid_rewrite (own_keys_same v w Hs).
Qed.
#[export] Instance hasExactKeys_proper : Proper (same_data ==> eq ==> eq) hasExactKeys.
Proof.
  intros v w Hs ks ? <-. unfold hasExactKeys. by rewrite (Permutation_length (own_keys_same v w Hs)), Hs.
Qed.
#[export] Instance hasAllKeys_proper : Proper (same_data ==> eq ==> eq) hasAllKeys.
Proof.
  intros v w Hs ks ? <-. unfold hasAllKeys. induction ks as [|k ks IH]; [done|]. cbn. rewrite IH. f_equal.
  apply bool_decide_ext. by rewrite (own_keys_same v w Hs).
Qed.
#[export] Instance optional_proper : Proper ((same_data ==> eq) ==> same_data ==> eq) optional.
Proof. intros f g Hf v w Hs. unfold optional. by rewrite (is_undef_proper _ _ Hs), (Hf _ _ Hs). Qed.

Lemma forallb_same {A} (R : A → A → Prop) (f : A → bool) xs ys :
  Forall2 R xs ys → (∀ x y, x ∈ xs → R x y → f x = f y) → forallb f xs = forallb f ys.
Proof.
  induction 1 as [|x y xs ys Hxy _ IH]; intros Hf; [done|]. cbn. rewrite (Hf x y) by (done || left).
  rewrite IH; [done|]. intros a b Ha. apply Hf. by right.
Qed.

Lemma forallb_perm {A} (f : A → bool) xs ys : xs ≡ₚ ys → forallb f xs = forallb f ys.
Proof.
  intros Hp. apply eq_iff_eq_true. rewrite !forallb_forall. by setoid_rewrite <- list_elem_of_In; setoid_rewrite Hp.
Qed.

#[export] Instance isJsonValue_proper : Proper (same_data ==> eq) isJsonValue.
Proof.
  intros v. induction v as [| |b|n|s|xs IH|fs IH|t|o] using val_rect_nested; intros w Hs;
    inversion Hs as [? Hl|? ys Hxs|? gs gs' Hnd Hfs Hp]; subst; try done.
  - cbn. apply (forallb_same same_data _ _ _ Hxs). intros x y Hx Hxy. rewrite Forall_forall in IH. by apply (IH x Hx).
  - cbn. rewrite <- (forallb_perm _ _ _ Hp). apply (forallb_same (fields_rel same_data) _ _ _ Hfs).
    intros x y Hx [_ Hxy]. rewrite Forall_forall in IH. by apply (IH x Hx).
Qed.
#[export] Instance isJsonObject_proper : Proper (same_data ==> eq) isJsonObject.
Proof. intros v w Hs. unfold isJsonObject. by rewrite Hs. Qed.

#[export] Instance string_set_proper : Proper (same_data ==> eq) string_set.
Proof.
  intros v w [? _|xs ys Hxs|? ? _]%same_data_shape; [done| |done]. cbn.
  rewrite (forallb_same same_data is_string xs ys Hxs) by (intros; by apply is_string_proper).
  assert (omap str_of xs = omap str_of ys) as ->; [|done].
  induction Hxs as [|a b xs ys Hab _ IH]; [done|]. cbn. by rewrite (str_of_same _ _ Hab), IH.
Qed.

(** ** The closed schemas *)

Section Schema.
Context `{DateHost}.

#[export] Instance validActor_proper : Proper (same_data ==> eq) validActor.
Proof. intros v w Hs. unfold validActor. by rewrite Hs. Qed.
#[export] Instance validTarget_proper : Proper (same_data ==> eq) validTarget.
Proof. intros v w Hs. unfold validTarget. by rewrite Hs. Qed.
#[export] Instance validEventScope_proper : Proper (same_data ==> eq ==> eq) validEventScope.
Proof. intros v w Hs t ? <-. unfold validEventScope. by rewrite Hs. Qed.
#[export] Instance validAuditEvent_proper : Proper (same_data ==> eq ==> eq) validAuditEvent.
Proof. intros v w Hs t ? <-. unfold validAuditEvent. cbv zeta. by rewrite Hs. Qed.
#[export] Instance validEntity_proper : Proper (same_data ==> eq) validEntity.
Proof. intros v w Hs. unfold validEntity. by rewrite Hs. Qed.
#[export] Instance validEvidenceEdge_proper : Proper (same_data ==> eq ==> eq) validEvidenceEdge.
Proof. intros v w Hs t ? <-. unfold validEvidenceEdge. cbv zeta. by rewrite Hs. Qed.
#[export] Instance valid_envelope_proper : Proper (same_data ==> eq) valid_envelope.
Proof. intros v w Hs. unfold valid_envelope. cbv zeta. by rewrite Hs. Qed.
#[export] Instance validAuditRecord_proper : Proper (same_data ==> eq ==> eq) validAuditRecord.
Proof. intros v w Hs t ? <-. unfold validAuditRecord. by rewrite Hs. Qed.
#[export] Instance validEdgeRecord_proper : Proper (same_data ==> eq ==> eq) validEdgeRecord.
Proof. intros v w Hs t ? <-. unfold validEdgeRecord. by rewrite Hs. Qed.

Lemma audit_records_same rs rs' t :
  Forall2 same_data rs rs' → recordsAreValidAuditRecords rs t = recordsAreValidAuditRecords rs' t.
Proof. intros Hrs. apply (forallb_same _ _ _ _ Hrs). intros r r' _ Hr. by rewrite Hr. Qed.
Lemma edge_records_same rs rs' t :
  Forall2 same_data rs rs' → recordsAreValidEdgeRecords rs t = recordsAreValidEdgeRecords rs' t.
Proof. intros Hrs. apply (forallb_same _ _ _ _ Hrs). intros r r' _ Hr. by rewrite Hr. Qed.
End Schema.

(** ** Retention records *)

Section Retention.
Context `{Hasher} `{Host} `{Base64}.

#[export] Instance js_String_proper : Proper (same_data ==> eq) js_String.
Proof.
  intros v. induction v as [| |b|n|s|xs IH|fs IH|t|o] using val_rect_nested; intros w Hs;
    inversion Hs as [? Hl|? ys Hxs|? gs gs' Hnd Hfs Hp]; subst; try done.
  - cbn [js_String]. clear Hs. assert (∀ f : list string → exc string, ∀ l l', l = l' → (l ≫= f) = (l' ≫= f))
      as Hb by (by intros f l l' ->). apply Hb. clear Hb. revert IH.
    induction Hxs as [|a b xs ys Hab _ IHl]; intros IH; [done|]. inversion IH as [|? ? Ha IH']; subst.
    cbn [mapE]. rewrite (IHl IH').
    by destruct (same_data_shape _ _ Hab); [|rewrite (Ha _ Hab)|rewrite (Ha _ Hab)].
  - cbn [js_String]. unfold obj_has. pose proof (same_data_get fs gs "toString" Hs) as Hg.
    by destruct (obj_get "toString" fs), (obj_get "toString" gs).
Qed.
#[export] Instance regex_test_proper : Proper (eq ==> same_data ==> eq) regex_test.
Proof. intros r ? <- v w Hs. unfold regex_test. by rewrite Hs. Qed.

#[export] Instance assertId_proper : Proper (same_data ==> eq ==> eq) assertId.
Proof. intros v w Hs f ? <-. revert v w Hs. by_shape. Qed.
#[export] Instance assertSafeInteger_proper : Proper (same_data ==> eq ==> eq) assertSafeInteger.
Proof. intros v w Hs f ? <-. revert v w Hs. by_shape. Qed.
#[export] Instance assertHash_proper : Proper (same_data ==> eq ==> eq) assertHash.
Proof. intros v w Hs f ? <-. revert v w Hs. by_shape. Qed.
#[export] Instance assertNullableHash_proper : Proper (same_data ==> eq ==> eq) assertNullableHash.
Proof. intros v w Hs f ? <-. revert v w Hs. by_shape. Qed.
#[export] Instance assertOptionalHash_proper : Proper (same_data ==> eq ==> eq) assertOptionalHash.
Proof. intros v w Hs f ? <-. revert v w Hs. by_shape. Qed.
#[export] Instance assertTimestamp_proper : Proper (same_data ==> eq ==> eq) assertTimestamp.
Proof. intros v w Hs f ? <-. revert v w Hs. by_shape. Qed.

Lemma bind_same {A B} (e e' : exc A) (f f' : A → exc B) :
  e = e' → (∀ x, f x = f' x) → (e ≫= f) = (e' ≫= f').
Proof. intros -> Hf. destruct e'; [apply Hf|done]. Qed.

(** Replaces the values on the left by the same data on the right. *)
Ltac same_leaf :=
  repeat match goal with H : same_data ?v ?w |- context [?v] => rewrite H; clear H end; reflexivity.

(** Walks through the reads and the checks of a function of two values. *)
Ltac same_walk :=
  repeat first
    [ progress cbv zeta
    | reflexivity
    | match goal with
      | |- (vget _ _ ≫= _) = (vget _ _ ≫= _) => apply vget_bind_same; [eassumption|intros ? ? ?]
      | |- (_ ≫= _) = (_ ≫= _) => apply bind_same; [same_leaf|intros ?]
      | |- (if ?b then _ else _) = (if ?c then _ else _) => replace b with c by (symmetry; same_leaf); destruct c
      end
    | same_leaf ].

#[export] Instance assertCheckpointInput_proper : Proper (same_data ==> eq) assertCheckpointInput.
Proof. intros v w Hs. unfold assertCheckpointInput. same_walk. Qed.
#[export] Instance assertDispositionInput_proper : Proper (same_data ==> eq) assertDispositionInput.
Proof. intros v w Hs. unfold assertDispositionInput. same_walk. Qed.

(** ** Hashes and verdicts *)

Lemma copy_fields_same v w ks :
  same_data v w → Forall2 (fields_rel same_data) (copy_fields v ks) (copy_fields w ks).
Proof.
  intros Hs. unfold copy_fields. induction ks as [|k ks IH]; constructor; [|done].
  split; [done|]. by apply vget_opt_same.
Qed.

Lemma fingerprint_field_same v w :
  same_data v w → Forall2 (fields_rel same_data) (fingerprint_field v) (fingerprint_field w).
Proof.
  intros Hs. unfold fingerprint_field, if_truthy.
  pose proof (vget_opt_same _ _ "signaturePublicKeyFingerprint" Hs) as Hf.
  rewrite (truthy_same _ _ Hf). destruct (truthy _); repeat constructor. done.
Qed.

(** A payload of distinct copied keys, the fingerprint last. *)
Lemma payload_same v w ks :
  same_data v w → NoDup (ks ++ ["signaturePublicKeyFingerprint"]) →
  same_data (VObj (copy_fields v ks ++ fingerprint_field v)) (VObj (copy_fields w ks ++ fingerprint_field w)).
Proof.
  intros Hs Hnd. apply (sd_obj _ _ (copy_fields w ks ++ fingerprint_field w)).
  - eapply sublist_NoDup; [exact Hnd|]. unfold keys. rewrite fmap_app. apply sublist_app.
    + apply reflexive_eq. unfold copy_fields. rewrite <- list_fmap_compose. apply list_fmap_id.
    + unfold fingerprint_field, if_truthy. destruct (truthy _); repeat constructor.
  - apply Forall2_app; [by apply copy_fields_same|by apply fingerprint_field_same].
  - done.
Qed.

#[export] Instance hashRetentionCheckpoint_proper : Proper (same_data ==> eq) hashRetentionCheckpoint.
Proof.
  intros v w Hs. unfold hashRetentionCheckpoint, checkpointHashPayload.
  rewrite (payload_same v w _ Hs); [done|]. apply (bool_decide_unpack (NoDup _)). vm_compute. exact I.
Qed.
#[export] Instance hashRetentionDisposition_proper : Proper (same_data ==> eq) hashRetentionDisposition.
Proof.
  intros v w Hs. unfold hashRetentionDisposition, dispositionHashPayload.
  rewrite (payload_same v w _ Hs); [done|]. apply (bool_decide_unpack (NoDup _)). vm_compute. exact I.
Qed.

Section Untrusted.
Context (options : RetentionVerificationOptions) (Huntrusted : trustedPublicKey options = None).

#[local] Instance detached_signature_proper :
  Proper (same_data ==> eq) (λ r, verifyDetachedSignature r options).
Proof using Huntrusted.
  intros v w Hs. unfold verifyDetachedSignature. cbv zeta. rewrite Huntrusted.
  same_walk.
Qed.

Lemma verify_sealed_same v w hash index :
  Proper (same_data ==> eq) hash → same_data v w →
  verify_sealed v hash options index = verify_sealed w hash options index.
Proof using Huntrusted.
  intros Hh Hs. unfold verify_sealed. cbv zeta.
  apply bind_same; [same_leaf|]. intros ok. destruct (negb ok); [done|].
  apply bind_same; [by apply Hh|]. intros expected.
  replace (strict_eq (vget_opt v "hash") (VStr expected)) with (strict_eq (vget_opt w "hash") (VStr expected))
    by (symmetry; same_leaf).
  destruct (negb _); [done|]. apply bind_same; [by apply detached_signature_proper|done].
Qed.

#[export] Instance verifyCheckpointAt_proper index :
  Proper (same_data ==> eq) (λ c, verifyCheckpointAt c options index).
Proof using Huntrusted.
  intros v w Hs. unfold verifyCheckpointAt. same_walk.
  apply verify_sealed_same; [apply _|done].
Qed.

Lemma checkpoint_linkage_same index p p' c c' :
  option_Forall2 same_data p p' → same_data c c' → checkpoint_linkage index p c = checkpoint_linkage index p' c'.
Proof using Huntrusted.
  intros Hp Hs. unfold checkpoint_linkage. cbv zeta.
  replace (strict_eq (vget_opt c "epoch") _) with (strict_eq (vget_opt c' "epoch") (VInt (Z.of_nat index + 1)))
    by (symmetry; same_leaf).
  destruct (negb _); [done|]. destruct Hp as [p p' Hp|]; [|done].
  assert (∀ k k', strict_eq (vget_opt c k) (vget_opt p k') = strict_eq (vget_opt c' k) (vget_opt p' k')) as E
    by (intros k k'; apply strict_eq_proper; by apply vget_opt_same).
  rewrite !E. clear E.
  pose proof (vget_opt_same _ _ "throughSequence" Hp) as Ht.
  destruct (same_data_shape _ _ Ht) as [x Hx|? ? _|? ? _]; [|done|done].
  destruct x as [| | |n| | | | |]; try done. destruct (num_int n) as [z|]; [|done].
  by rewrite (strict_eq_same_int _ _ (z + 1) (vget_opt_same _ _ "fromSequence" Hs)).
Qed.

Lemma verify_checkpoints_same cs cs' : Forall2 same_data cs cs' → ∀ sig p p' index,
  option_Forall2 same_data p p' →
  verify_checkpoints options sig p index cs = verify_checkpoints options sig p' index cs'.
Proof using Huntrusted.
  induction 1 as [|c c' cs cs' Hc Hcs IH]; intros sig p p' index Hp; [done|]. cbn [verify_checkpoints].
  apply bind_same; [by apply verifyCheckpointAt_proper|]. intros [s|]; [|done]. cbv zeta.
  rewrite (checkpoint_linkage_same index p p' c c') by done.
  destruct (checkpoint_linkage index p' c'); [done|]. apply IH. by constructor.
Qed.

Lemma verifyRetentionCheckpointChain_same cs cs' :
  Forall2 same_data cs cs' →
  verifyRetentionCheckpointChain cs options = verifyRetentionCheckpointChain cs' options.
Proof using Huntrusted.
  intros Hcs. unfold verifyRetentionCheckpointChain. rewrite (verify_checkpoints_same cs cs' Hcs _ None None) by constructor.
  by destruct Hcs.
Qed.

Lemma verify_retained_same t status rs rs' : Forall2 same_data rs rs' → ∀ n h index,
  verify_retained (VStr t) status n (VStr h) index rs = verify_retained (VStr t) status n (VStr h) index rs'.
Proof.
  induction 1 as [|r r' rs rs' Hr Hrs IH]; intros n h index; [done|]. cbn [verify_retained]. cbv zeta.
  destruct (same_data_shape _ _ Hr) as [x Hx|? ? _|fs gs Hs]; [by destruct x|done|].
  apply vget_bind_same; [done|]. intros ev ev' Hev. apply vget_bind_same; [done|]. intros sc sc' Hsc.
  same_walk.
  apply bind_same; [by apply (hashRecord_same Audit)|]. intros expected.
  replace (strict_eq (vget_opt (VObj fs) "hash") (VStr expected))
    with (strict_eq (vget_opt (VObj gs) "hash") (VStr expected)) by (symmetry; same_leaf).
  destruct (negb _); [done|]. apply IH.
Qed.

Lemma verifyAuditRecordsFromCheckpoint_same c c' rs rs' :
  same_data c c' → Forall2 same_data rs rs' →
  verifyAuditRecordsFromCheckpoint c rs options = verifyAuditRecordsFromCheckpoint c' rs' options.
Proof using Huntrusted.
  intros Hc Hrs. unfold verifyAuditRecordsFromCheckpoint, verifyRetentionCheckpoint.
  rewrite <- (verifyCheckpointAt_proper 0 c c' Hc).
  destruct (verifyCheckpointAt c options 0) as [[status|i why s]|m] eqn:E; [|done|done]. cbn [mbind exc_mbind].
  destruct (verifyCheckpointAt_ok _ _ _ _ E) as (h0 & A & _).
  destruct (assertCheckpointInput_ret _ (ac_input _ _ A)) as (t & ep & from & through & h & V).
  rewrite (string_same _ _ _ (vget_opt_same _ _ "tenantId" Hc) (proj1 (vc_tenant _ _ _ _ _ _ V))).
  rewrite (string_same _ _ _ (vget_opt_same _ _ "throughHash" Hc) (proj1 (vc_throughHash _ _ _ _ _ _ V))).
  rewrite (proj1 (vc_tenant _ _ _ _ _ _ V)), (proj1 (vc_throughHash _ _ _ _ _ _ V)).
  destruct (same_data_shape _ _ (vget_opt_same _ _ "throughSequence" Hc)) as [x _|? ? _|? ? _]; [|done|done].
  destruct x as [| | |n| | | | |]; try done. by apply verify_retained_same.
Qed.

End Untrusted.

Lemma verifyRetentionDisposition_same options d d' c c' :
  trustedPublicKey options = None → same_data d d' → same_data c c' →
  verifyRetentionDisposition d c options = verifyRetentionDisposition d' c' options.
Proof.
  intros Huntrusted Hd Hc. unfold verifyRetentionDisposition, verifyRetentionCheckpoint.
  apply bind_same.
  { apply (verifyCheckpointAt_proper {| trustedPublicKey := trustedPublicKey options; requireSignature := false;
      signatureVerifier := signatureVerifier options |} Huntrusted 0 c c' Hc). }
  intros [status|]; [|done].
  replace (is_plain_object d) with (is_plain_object d') by (symmetry; same_leaf).
  replace (hasOnlyKeys d DISPOSITION_RECORD_KEYS) with (hasOnlyKeys d' DISPOSITION_RECORD_KEYS)
    by (symmetry; clear Hc; same_leaf).
  destruct (_ || _); [done|].
  assert (∀ k s, strict_eq (vget_opt d k) (VStr s) = strict_eq (vget_opt d' k) (VStr s)) as E
    by (intros k s; apply strict_eq_same, vget_opt_same, Hd).
  rewrite !E. destruct (negb _); [done|]. rewrite (assertDispositionInput_proper d d' Hd).
  destruct (negb _); [done|].
  apply bind_same; [apply verify_sealed_same; [exact Huntrusted|apply _|exact Hd]|]. intros [s|]; [|done]. cbv zeta.
  assert (∀ k k', strict_eq (vget_opt d k) (vget_opt c k') = strict_eq (vget_opt d' k) (vget_opt c' k')) as E'
    by (intros k k'; apply strict_eq_proper; by apply vget_opt_same).
  by rewrite !E'.
Qed.
End Retention.
