(* ===== verification/ExportBundle2.v ===== *)
(** * Checkpoint-aware export bundles (sdks/typescript/src/export-bundle-v2.ts, vevb-2)

    The closed container: its recognizer, the builder and the offline verifier. The
    verifier's checks may throw where the source has no [try]; then the whole
    verification does. File contents are compared by their UTF-8 bytes. Line
    splitting, record serialization and the root hash have the code of vevb-1 and
    are shared with the file ExportBundle. *)

From S2P Require Import Prelude Regex JsNum JsVal Dates JsonText Hash Sha256 Canonical.
From S2P Require Import Keyed AuditChain ChainModes WebBase64 Redact Event Commit Retention.
From S2P Require Import ExportBundle RecordSchema.

#[local] Arguments num_of_Z : simpl never.

Definition CONTAINER_KEYS : list string := ["bundleVersion"; "manifest"; "files"; "signature"].
Definition MANIFEST_KEYS : list string :=
  ["bundleVersion"; "createdAt"; "scope"; "range"; "producer"; "chainClaims"; "files"; "rootHash";
   "signaturePublicKeyFingerprint"].
Definition SCOPE_KEYS : list string := ["tenantId"; "workspaceId"; "environment"].
Definition RANGE_KEYS : list string := ["from"; "to"].
Definition PRODUCER_KEYS : list string := ["authority"; "kind"; "type"; "id"].
Definition CLAIM_KEYS : list string := ["audit"; "evidenceEdges"; "evidenceCommits"].
Definition CHAIN_CLAIM_KEYS : list string := ["origin"; "completeness"].
Definition GENESIS_ORIGIN_KEYS : list string := ["kind"].
Definition CHECKPOINT_ORIGIN_KEYS : list string := ["kind"; "checkpointHash"].
Definition FILE_ENTRY_KEYS : list string := ["path"; "sha256"; "records"; "bytes"].

Definition V2_RECORD_PATHS : list string :=
  ["records/audit-events.jsonl"; "records/evidence-edges.jsonl"; "records/commits.jsonl";
   "records/retention-checkpoints.jsonl"; "records/retention-dispositions.jsonl"].
Definition V2_REQUIRED_PATHS : list string := V2_RECORD_PATHS ++ ["verification.json"].

Record ExportBundleV2Input := V2Input {
  v2_scope : val;
  v2_range : val;
  v2_producer : val;
  v2_createdAt : val;
  v2_auditOrigin : val;
  v2_events : list val;
  v2_edges : list val;
  v2_commits : option (list val);
  v2_checkpoints : list val;
  v2_dispositions : option (list val);
}.

Record ExportBundleV2VerificationReport := V2Report {
  v2_valid : bool;
  v2_structure : bool;
  v2_integrity : bool;
  v2_checkpoints_ok : bool;
  v2_dispositions_ok : bool;
  v2_audit : bool;
  v2_edges_ok : bool;
  v2_commits_ok : bool;
  v2_signature : RetentionSignatureStatus;
  v2_checkpoint_signatures : RetentionSignatureStatus;
  v2_disposition_signatures : RetentionSignatureStatus;
  v2_issues : list string;
}.

(** ** Claims and manifest fields *)

Definition isAuditOrigin (value : val) : bool :=
  is_plain_object value &&
  if strict_eq (vget_opt value "kind") (VStr "genesis") then hasOnlyKeys value GENESIS_ORIGIN_KEYS
  else strict_eq (vget_opt value "kind") (VStr "checkpoint") && hasOnlyKeys value CHECKPOINT_ORIGIN_KEYS
       && is_hash (vget_opt value "checkpointHash").

Definition isFixedClaim (value : val) (completeness : string) : bool :=
  let origin := vget_opt value "origin" in
  is_plain_object value && hasOnlyKeys value CHAIN_CLAIM_KEYS
  && strict_eq (vget_opt value "completeness") (VStr completeness)
  && is_plain_object origin && hasOnlyKeys origin GENESIS_ORIGIN_KEYS
  && strict_eq (vget_opt origin "kind") (VStr "genesis").

Definition is_genesis (origin : val) : bool := strict_eq (vget_opt origin "kind") (VStr "genesis").

Definition validClaims (value : val) : bool :=
  let audit := vget_opt value "audit" in
  is_plain_object value && hasOnlyKeys value CLAIM_KEYS
  && is_plain_object audit && hasOnlyKeys audit CHAIN_CLAIM_KEYS && isAuditOrigin (vget_opt audit "origin")
  && strict_eq (vget_opt audit "completeness")
       (VStr (if is_genesis (vget_opt audit "origin") then "full" else "complete-retained-tail"))
  && isFixedClaim (vget_opt value "evidenceEdges") "full"
  && isFixedClaim (vget_opt value "evidenceCommits") "empty".

Definition validScope (value : val) : bool :=
  is_plain_object value && hasOnlyKeys value SCOPE_KEYS && nonEmpty (vget_opt value "tenantId")
  && optional nonEmpty (vget_opt value "workspaceId") && optional nonEmpty (vget_opt value "environment").

Definition validProducer (value : val) : bool :=
  is_plain_object value && hasOnlyKeys value PRODUCER_KEYS && nonEmpty (vget_opt value "authority")
  && strict_eq (vget_opt value "kind") (VStr "principal")
  && (strict_eq (vget_opt value "type") (VStr "service") || strict_eq (vget_opt value "type") (VStr "user"))
  && nonEmpty (vget_opt value "id").

Definition utf8Size (text : string) : Z := Z.of_nat (length (utf8 text)).

Definition combineSignature (left right : RetentionSignatureStatus) : RetentionSignatureStatus :=
  match left, right with
  | SigInvalid, _ | _, SigInvalid => SigInvalid
  | SigSkipped, _ | _, SigSkipped => SigSkipped
  | SigAbsent, _ | _, SigAbsent => SigAbsent
  | SigValid, SigValid => SigValid
  end.

Definition signature_name (s : RetentionSignatureStatus) : string :=
  match s with SigValid => "valid" | SigInvalid => "invalid" | SigSkipped => "skipped" | SigAbsent => "absent" end.

Definition isSignatureStatus (value : val) : bool := includes ["valid"; "invalid"; "skipped"; "absent"] value.

Definition result_ok (r : RetentionVerificationResult) : bool :=
  match r with RetentionOk _ => true | RetentionFail _ _ _ => false end.
Definition result_signature (r : RetentionVerificationResult) : RetentionSignatureStatus :=
  match r with RetentionOk s => s | RetentionFail _ _ s => s end.

Definition failedV2Report (signature : RetentionSignatureStatus) (issues : list string)
    : ExportBundleV2VerificationReport :=
  V2Report false false false false false false false false signature SigAbsent SigAbsent issues.

(** A retention verdict: [{ valid, signature }]. *)
Definition verdict : Type := bool * RetentionSignatureStatus.
Definition verdict_val (v : verdict) : val :=
  VObj [("valid", VBool v.1); ("signature", VStr (signature_name v.2))].

Definition embedded_val (checkpoints dispositions : verdict) (audit edges : bool) : val :=
  let flag b := VObj [("valid", VBool b)] in
  VObj [("checkpoints", verdict_val checkpoints); ("dispositions", verdict_val dispositions);
        ("audit", flag audit); ("edges", flag edges); ("commits", flag true)].

(** The claims of a bundle with the given audit origin. *)
Definition chain_claims (origin : val) : val :=
  let genesis := VObj [("kind", VStr "genesis")] in
  let claim o c := VObj [("origin", o); ("completeness", VStr c)] in
  VObj [("audit", if is_genesis origin then claim genesis "full"
                  else claim (VObj [("kind", VStr "checkpoint"); ("checkpointHash", vget_opt origin "checkpointHash")])
                         "complete-retained-tail");
        ("evidenceEdges", claim genesis "full"); ("evidenceCommits", claim genesis "empty")].

(** ** Record lines *)

Definition parseJsonLines (payload : val) : option (list val) :=
  match payload with VStr text => mapM json_parse (splitRecordLines text) | _ => None end.

(** The line is the canonical text of the value it denotes; a throw counts as no. *)
Definition canonical_line (line : string) : bool :=
  match json_parse line with
  | Some v => match canonicalJson v with Ret (Some text) => String.eqb text line | _ => false end
  | None => false
  end.

Definition isCanonicalJsonLines (payload : string) : bool :=
  String.eqb payload "" ||
  match last (chars payload) with
  | Some c => Ascii.eqb c (ascii_of_nat 10) && forallb canonical_line (splitRecordLines payload)
  | None => false
  end.

(** [Object.keys(value).sort().join(",")] *)
Definition sorted_keys (value : val) : string := join "," (sort_by String.leb (own_keys value)).

Definition is_bool (value : val) : bool := match value with VBool _ => true | _ => false end.

Definition parseEmbedded (payload : val) : option val :=
  match payload with
  | VStr text =>
      match json_parse text with
      | Some value =>
          let flag k := is_plain_object (vget_opt value k)
                        && String.eqb (join "," (own_keys (vget_opt value k))) "valid"
                        && is_bool (vget_opt (vget_opt value k) "valid") in
          let status k := is_plain_object (vget_opt value k)
                          && String.eqb (sorted_keys (vget_opt value k)) "signature,valid"
                          && is_bool (vget_opt (vget_opt value k) "valid")
                          && isSignatureStatus (vget_opt (vget_opt value k) "signature") in
          if is_plain_object value
             && match canonicalJson value with Ret (Some t) => String.eqb t text | _ => false end
             && String.eqb (sorted_keys value) "audit,checkpoints,commits,dispositions,edges"
             && flag "audit" && flag "edges" && flag "commits" && status "checkpoints" && status "dispositions"
          then Some value else None
      | None => None
      end
  | _ => None
  end.

Section Bundle2.
Context `{Hasher} `{Host} `{WebCrypto} `{Base64}.

Definition validRange (value : val) : bool :=
  is_plain_object value && hasOnlyKeys value RANGE_KEYS && validTimestamp (vget_opt value "from")
  && validTimestamp (vget_opt value "to").

(** ** The shape of the container *)

(** The checks of the manifest's fields up to [rootHash], the first that may throw. *)
Definition manifest_fields_ok (manifest : val) : exc bool :=
  let get k := vget_opt manifest k in
  if strict_eq (get "bundleVersion") (VStr "vevb-2") && validScope (get "scope") && validRange (get "range")
     && validTimestamp (get "createdAt") && validProducer (get "producer") && validClaims (get "chainClaims")
  then ok ← regex_test HASH_PATTERN (get "rootHash"); Ret (ok && is_array (get "files"))
  else Ret false.

(** The loop over the entries: whether all are valid, and the paths of the valid ones. *)
Fixpoint manifest_entries (valid : bool) (paths : list string) (entries : list val) : exc (bool * list string) :=
  match entries with
  | [] => Ret (valid, paths)
  | entry :: entries =>
      match (if is_plain_object entry && hasOnlyKeys entry FILE_ENTRY_KEYS
             then str_of (vget_opt entry "path") else None) with
      | None => manifest_entries false paths entries
      | Some p =>
          hashed ← regex_test HASH_PATTERN (vget_opt entry "sha256");
          if hashed && safe_from 0 (vget_opt entry "records") && safe_from 0 (vget_opt entry "bytes")
             && negb (bool_decide (p ∈ paths))
          then manifest_entries valid (paths ++ [p]) entries
          else manifest_entries false paths entries
      end
  end.

Definition entries_of (manifest : val) : list val :=
  match vget_opt manifest "files" with VArr entries => entries | _ => [] end.

Definition files_shape (paths : list string) (files : val) : bool :=
  let fileKeys := own_keys files in
  (length paths =? length V2_REQUIRED_PATHS)%nat && (length fileKeys =? length V2_REQUIRED_PATHS)%nat
  && forallb (λ p, bool_decide (p ∈ paths) && bool_decide (p ∈ fileKeys)) V2_REQUIRED_PATHS
  && forallb (λ k, is_string (vget_opt files k)) fileKeys.

Definition verification_entry (entries : list val) : option val :=
  List.find (λ entry, is_plain_object entry && strict_eq (vget_opt entry "path") (VStr "verification.json")) entries.

(** [signature !== undefined] implies the closed signature shape, bound to the manifest. *)
Definition signature_shape (signature fingerprint : val) : exc bool :=
  if is_undef signature then Ret true else
  if is_plain_object signature && hasOnlyKeys signature SIGNATURE_KEYS
     && strict_eq (vget_opt signature "algorithm") (VStr "ed25519") then
    hashed ← regex_test HASH_PATTERN (vget_opt signature "publicKeyFingerprint");
    Ret (hashed && strict_eq (vget_opt signature "publicKeyFingerprint") fingerprint
         && match vget_opt signature "signature" with
            | VStr s => re_test BASE64_SIGNATURE_PATTERN s | _ => false end)
  else Ret false.

Definition verifyV2Shape (bundle : val) : exc (bool * list string) :=
  if negb (is_plain_object bundle && hasOnlyKeys bundle CONTAINER_KEYS
           && strict_eq (vget_opt bundle "bundleVersion") (VStr "vevb-2")) then
    Ret (false, ["invalid vevb-2 container shape"]) else
  let manifest := vget_opt bundle "manifest" in
  let files := vget_opt bundle "files" in
  if negb (is_plain_object manifest && hasOnlyKeys manifest MANIFEST_KEYS && is_plain_object files) then
    Ret (false, ["invalid vevb-2 manifest or files shape"]) else
  fields_ok ← manifest_fields_ok manifest;
  listed ← manifest_entries fields_ok [] (entries_of manifest);
  let fingerprint := vget_opt manifest "signaturePublicKeyFingerprint" in
  let signature := vget_opt bundle "signature" in
  fingerprint_ok ← (if is_undef fingerprint then Ret true else regex_test HASH_PATTERN fingerprint);
  signature_ok ← signature_shape signature fingerprint;
  let valid := listed.1 && files_shape listed.2 files
    && match verification_entry (entries_of manifest) with
       | Some entry => strict_eq (vget_opt entry "records") (VInt 0) | None => false end
    && Bool.eqb (truthy signature) (truthy fingerprint) && fingerprint_ok && signature_ok in
  Ret (valid, issue_if (negb valid) "vevb-2 structure or chain claims are invalid").

Definition isExportBundleV2Container (value : val) : exc bool := shape ← verifyV2Shape value; Ret shape.1.

(** ** Chain claims *)

Definition verifyCheckpointClaim (origin : val) (checkpoints : list val) (tenantId : val)
    (options : RetentionVerificationOptions) : exc verdict :=
  if is_genesis origin then Ret ((length checkpoints =? 0)%nat, SigAbsent) else
  match last checkpoints with
  | None => Ret (false, SigAbsent)
  | Some latest =>
      result ← verifyRetentionCheckpointChain checkpoints options;
      Ret (result_ok result && strict_eq (vget_opt latest "hash") (vget_opt origin "checkpointHash")
           && strict_eq (vget_opt latest "tenantId") tenantId,
           result_signature result)
  end.

(** The loop over the dispositions; [prior] is the index of the last checkpoint used. *)
Fixpoint verify_dispositions (checkpoints : list val) (options : RetentionVerificationOptions)
    (signature : RetentionSignatureStatus) (prior : Z) (seen : list string) (dispositions : list val)
    : exc verdict :=
  match dispositions with
  | [] => Ret (true, signature)
  | disposition :: dispositions =>
      match (if is_plain_object disposition then str_of (vget_opt disposition "checkpointHash") else None) with
      | None => Ret (false, signature)
      | Some hash =>
          match list_find (λ c, strict_eq (vget_opt c "hash") (VStr hash) = true) checkpoints with
          | None => Ret (false, signature)
          | Some (index, checkpoint) =>
              if (Z.of_nat index <=? prior)%Z || bool_decide (hash ∈ seen) then Ret (false, signature) else
              result ← verifyRetentionDisposition disposition checkpoint options;
              let signature := combineSignature signature (result_signature result) in
              if result_ok result
              then verify_dispositions checkpoints options signature (Z.of_nat index) (hash :: seen) dispositions
              else Ret (false, signature)
          end
      end
  end.

Definition verifyDispositionSet (dispositions checkpoints : list val) (options : RetentionVerificationOptions)
    : exc verdict :=
  verify_dispositions checkpoints options
    (match dispositions with [] => SigAbsent | _ => SigValid end) (-1) [] dispositions.

Definition verifyAuditClaim (origin : val) (checkpoints events : list val) (tenantId : string)
    (options : RetentionVerificationOptions) : bool :=
  if negb (recordsAreValidAuditRecords events tenantId) then false else
  if is_genesis origin then
    match verifyAuditRecords events with Ret VerifyOk => true | _ => false end
  else match last checkpoints with
  | Some latest =>
      if negb (truthy latest) || negb (strict_eq (vget_opt latest "hash") (vget_opt origin "checkpointHash"))
      then false
      else match verifyAuditRecordsFromCheckpoint latest events options with
           | Ret result => result_ok result | Throw _ => false end
  | None => false
  end.

Definition edges_claim (edges : list val) (tenantId : string) : bool :=
  valid (verifyEdgeChain edges) && recordsAreValidEdgeRecords edges tenantId.

(** ** Building *)

Definition v2_file_entry (f : tracked_file) : val :=
  VObj [("path", VStr (path f)); ("sha256", VStr (sha256Hex (content f))); ("records", record_count f);
        ("bytes", VInt (utf8Size (content f)))].

Definition trackedRecords (p : string) (records : list val) : exc tracked_file :=
  text ← serializeRecords records; Ret (TrackedFile p text (VInt (Z.of_nat (length records)))).

Definition computeV2RootHash (files : list val) : exc string := computeRootHash files.

Definition v2_tracked (input : ExportBundleV2Input) (commits dispositions : list val) (embedded : val)
    : exc (list tracked_file) :=
  events ← trackedRecords "records/audit-events.jsonl" (v2_events input);
  edges ← trackedRecords "records/evidence-edges.jsonl" (v2_edges input);
  commit_file ← trackedRecords "records/commits.jsonl" commits;
  checkpoints ← trackedRecords "records/retention-checkpoints.jsonl" (v2_checkpoints input);
  receipts ← trackedRecords "records/retention-dispositions.jsonl" dispositions;
  text ← canonicalJson embedded;
  verification ← text_of text;
  Ret [events; edges; commit_file; checkpoints; receipts; TrackedFile "verification.json" verification (VInt 0)].

Definition buildExportBundleV2 (input : ExportBundleV2Input) : exc val :=
  let commits := default [] (v2_commits input) in
  let dispositions := default [] (v2_dispositions input) in
  let origin := v2_auditOrigin input in
  let checkpoints := v2_checkpoints input in
  _ ← guard_exc (isAuditOrigin origin) "export bundle v2: auditOrigin is required";
  _ ← guard_exc (validScope (v2_scope input) && validRange (v2_range input)
                 && validTimestamp (v2_createdAt input) && validProducer (v2_producer input))
        "export bundle v2: invalid manifest input";
  _ ← guard_exc (length commits =? 0)%nat "export bundle v2: EvidenceCommit records must be empty";
  let tenant := vget_opt (v2_scope input) "tenantId" in
  let tenantId := default "" (str_of tenant) in
  checkpointVerdict ← verifyCheckpointClaim origin checkpoints tenant no_options;
  _ ← guard_exc checkpointVerdict.1 "export bundle v2: incomplete or invalid checkpoint claim";
  dispositionVerdict ← verifyDispositionSet dispositions checkpoints no_options;
  _ ← guard_exc dispositionVerdict.1 "export bundle v2: invalid disposition set";
  _ ← guard_exc (verifyAuditClaim origin checkpoints (v2_events input) tenantId no_options)
        "export bundle v2: invalid audit selection";
  _ ← guard_exc (edges_claim (v2_edges input) tenantId)
        "export bundle v2: evidence edges must be a full genesis chain";
  tracked ← v2_tracked input commits dispositions (embedded_val checkpointVerdict dispositionVerdict true true);
  rootHash ← computeV2RootHash (v2_file_entry <$> tracked);
  let manifest := VObj
    [("bundleVersion", VStr "vevb-2"); ("createdAt", v2_createdAt input); ("scope", v2_scope input);
     ("range", v2_range input); ("producer", v2_producer input); ("chainClaims", chain_claims origin);
     ("files", VArr (v2_file_entry <$> tracked)); ("rootHash", VStr rootHash)] in
  Ret (VObj [("bundleVersion", VStr "vevb-2"); ("manifest", manifest); ("files", files_val tracked)]).

(** ** Verification *)

Definition verifyV2Signature (bundle : val) (options : ExportBundleVerificationOptions CryptoKey)
    : exc (RetentionSignatureStatus * option string) :=
  signature ← vget bundle "signature";
  if negb (truthy signature) then
    Ret (SigAbsent, if requireBundleSignature options then Some "signature required but absent" else None) else
  match publicKey options with
  | None => Ret (SigSkipped, None)
  | Some key =>
      Ret (catch (
        if negb (strict_eq (vget_opt signature "algorithm") (VStr "ed25519")) then
          Ret (invalid_signature "unsupported signature algorithm") else
        fingerprint ← publicKeyFingerprint key;
        let mismatch := Ret (invalid_signature "signature public key fingerprint mismatch") in
        if negb (strict_eq (VStr fingerprint) (vget_opt signature "publicKeyFingerprint")) then mismatch else
        manifest ← vget bundle "manifest";
        bound ← vget manifest "signaturePublicKeyFingerprint";
        if negb (strict_eq (VStr fingerprint) bound) then mismatch else
        payload ← signedManifestPayload manifest;
        signatureBytes ← base64_bytes (vget_opt signature "signature");
        ok ← subtle_verify key signatureBytes payload;
        Ret (if ok : bool then (SigValid, None) else invalid_signature "signature does not verify"))
        (invalid_signature "signature verification failed"))
  end.

Definition v2_entry_issues (files entry : val) : list string :=
  let p := default "" (str_of (vget_opt entry "path")) in
  match vget_opt files p with
  | VStr payload =>
      issue_if (negb (strict_eq (VStr (sha256Hex payload)) (vget_opt entry "sha256"))) ("sha256 mismatch for " +:+ p)
      ++ issue_if (negb (strict_eq (VInt (utf8Size payload)) (vget_opt entry "bytes")))
           ("byte-size mismatch for " +:+ p)
      ++ issue_if (bool_decide (p ∈ V2_RECORD_PATHS)
                   && negb (strict_eq (VInt (Z.of_nat (length (splitRecordLines payload)))) (vget_opt entry "records")))
           ("record count mismatch for " +:+ p)
      ++ issue_if (bool_decide (p ∈ V2_RECORD_PATHS) && negb (isCanonicalJsonLines payload))
           ("non-canonical record bytes for " +:+ p)
  | _ => ["sha256 mismatch for " +:+ p; "byte-size mismatch for " +:+ p]
  end.

Definition v2_integrity_issues (manifest files : val) : exc (list string) :=
  root ← computeV2RootHash (entries_of manifest);
  Ret (issue_if (negb (strict_eq (VStr root) (vget_opt manifest "rootHash"))) "rootHash does not bind the manifest files"
       ++ concat (v2_entry_issues files <$> entries_of manifest)).

(** The records of a file, none when it does not parse. *)
Definition v2_records (files : val) (p : string) : list val := default [] (parseJsonLines (vget_opt files p)).
Definition v2_parses (files : val) (p : string) : bool :=
  match parseJsonLines (vget_opt files p) with Some _ => true | None => false end.

Definition parse_issues (files : val) : list string :=
  omap (λ p, if v2_parses files p then None else Some ("unparseable record line in " +:+ p)) V2_RECORD_PATHS.

(** What the report's checks are computed from, before the embedded report is compared. *)
Record v2_checks := V2Checks {
  baseline_checkpoint : verdict;
  trusted_checkpoint : verdict;
  baseline_disposition : verdict;
  trusted_disposition : verdict;
  baseline_audit : bool;
  trusted_audit : bool;
  edge_ok : bool;
  commit_ok : bool;
}.

Definition run_checks (manifest files : val) (options : RetentionVerificationOptions) : exc v2_checks :=
  let origin := vget_opt (vget_opt (vget_opt manifest "chainClaims") "audit") "origin" in
  let tenant := vget_opt (vget_opt manifest "scope") "tenantId" in
  let tenantId := default "" (str_of tenant) in
  let checkpoints := v2_records files "records/retention-checkpoints.jsonl" in
  let dispositions := v2_records files "records/retention-dispositions.jsonl" in
  let events := v2_records files "records/audit-events.jsonl" in
  let edges := v2_records files "records/evidence-edges.jsonl" in
  let commits := v2_records files "records/commits.jsonl" in
  baseline_cp ← verifyCheckpointClaim origin checkpoints tenant no_options;
  cp ← verifyCheckpointClaim origin checkpoints tenant options;
  baseline_dp ← verifyDispositionSet dispositions checkpoints no_options;
  dp ← verifyDispositionSet dispositions checkpoints options;
  Ret (V2Checks baseline_cp cp baseline_dp dp
         (verifyAuditClaim origin checkpoints events tenantId no_options)
         (verifyAuditClaim origin checkpoints events tenantId options)
         (edges_claim edges tenantId) ((length commits =? 0)%nat && valid (verifyCommitChain commits))).

(** [embedded[k].valid === b] *)
Definition embedded_agrees (embedded : val) (k : string) (b : bool) : bool :=
  strict_eq (vget_opt (vget_opt embedded k) "valid") (VBool b).

(** [canonicalJson(embedded[k]) === canonicalJson(verdict)] *)
Definition same_verdict (embedded : val) (k : string) (v : verdict) : exc bool :=
  stated ← canonicalJson (vget_opt embedded k);
  expected ← canonicalJson (verdict_val v);
  Ret (bool_decide (stated = expected)).

(** The five checks against the embedded report. *)
Definition compare_embedded (files : val) (c : v2_checks) : exc (bool * bool * bool * bool * bool * list string) :=
  let cp := (trusted_checkpoint c).1 && v2_parses files "records/retention-checkpoints.jsonl" in
  let dp := (trusted_disposition c).1 && v2_parses files "records/retention-dispositions.jsonl" in
  let audit := trusted_audit c && v2_parses files "records/audit-events.jsonl" in
  let edge := edge_ok c && v2_parses files "records/evidence-edges.jsonl" in
  let commit := commit_ok c && v2_parses files "records/commits.jsonl" in
  match parseEmbedded (vget_opt files "verification.json") with
  | None => Ret (false, false, false, false, false, ["embedded verification report unreadable"])
  | Some embedded =>
      cp_same ← same_verdict embedded "checkpoints" (baseline_checkpoint c);
      dp_same ← same_verdict embedded "dispositions" (baseline_disposition c);
      Ret (cp && cp_same, dp && dp_same, audit && embedded_agrees embedded "audit" (baseline_audit c),
           edge && embedded_agrees embedded "edges" edge, commit && embedded_agrees embedded "commits" commit, [])
  end.

Definition origin_selects_latest (manifest files : val) : bool :=
  let origin := vget_opt (vget_opt (vget_opt manifest "chainClaims") "audit") "origin" in
  negb (strict_eq (vget_opt origin "kind") (VStr "checkpoint"))
  || strict_eq (default VUndef ((λ c, vget_opt c "hash") <$> last (v2_records files "records/retention-checkpoints.jsonl")))
       (vget_opt origin "checkpointHash").

Definition verifyExportBundleV2 (bundle : val) (options : ExportBundleVerificationOptions CryptoKey)
    : exc ExportBundleV2VerificationReport :=
  shape ← verifyV2Shape bundle;
  signed ← verifyV2Signature bundle options;
  let before := shape.2 ++ option_list signed.2 in
  if negb shape.1 then Ret (failedV2Report signed.1 before) else
  let manifest := vget_opt bundle "manifest" in
  let files := vget_opt bundle "files" in
  integrity_found ← v2_integrity_issues manifest files;
  c ← run_checks manifest files (default no_options (retention options));
  let structure_ok := origin_selects_latest manifest files in
  compared ← compare_embedded files c;
  let '(cp, dp, audit, edge, commit, embedded_issues) := compared in
  let signatureSatisfied := negb (bool_decide (signed.1 = SigInvalid))
    && negb (requireBundleSignature options && bool_decide (signed.1 = SigAbsent)) in
  Ret (V2Report
         (structure_ok && passes integrity_found && cp && dp && audit && edge && commit && signatureSatisfied)
         structure_ok (passes integrity_found) cp dp audit edge commit signed.1
         (trusted_checkpoint c).2 (trusted_disposition c).2
         (before ++ integrity_found ++ parse_issues files
          ++ issue_if (negb structure_ok) "audit checkpoint origin does not select the latest included checkpoint"
          ++ embedded_issues
          ++ issue_if (negb cp) "checkpoint chain verification failed"
          ++ issue_if (negb dp) "disposition verification failed"
          ++ issue_if (negb audit) "audit chain verification failed"
          ++ issue_if (negb edge) "evidence-edge chain verification failed"
          ++ issue_if (negb commit) "EvidenceCommit selection must be empty")).

(** ** Both versions *)

(** [parseExportBundle] and [verifyExportBundle] with the vevb-2 functions they call. *)
Definition parseBundle (text : string) : exc val := parseExportBundle isExportBundleV2Container text.
Definition verifyBundle (bundle : val) (options : ExportBundleVerificationOptions CryptoKey)
    : exc (ExportBundleVerificationReport + ExportBundleV2VerificationReport) :=
  verifyExportBundle verifyExportBundleV2 bundle options.
End Bundle2.
