(* ===== verification/Bundle2Verify.v ===== *)
(** * What vevb-2 verification establishes

    The verifier's checks depend on the data of the records only, so a built
    bundle verifies after its records were written and parsed; a bundle reported
    valid accounts for every sequence number from one. *)

From S2P Require Import Prelude Regex JsNum JsVal Dates JsonText Hash Sha256 Canonical.
From S2P Require Import Keyed AuditChain ChainModes WebBase64 Redact Event Commit SameData Retention.
From S2P Require Import ExportBundle BundleVerify RecordSchema SameRecords ExportBundle2.

#[local] Arguments num_of_Z : simpl never.

(** Finds an element of a literal list. *)
Ltac listed := first [left | right; listed].

(** Splits a conjunction of booleans. *)
Ltac split_and_true :=
  repeat match goal with H : (_ && _) = true |- _ => apply andb_true_iff in H as [? H] end.

Lemma plain_vget v k : is_plain_object v = true → vget v k = Ret (vget_opt v k).
Proof. by destruct v. Qed.

Section Facts.
Context `{DateHost}.

(** An admitted record is in the tenant's chain envelope. *)
Lemma event_scope_tenant scope t : validEventScope scope t = true → vget_opt scope "tenantId" = VStr t ∧ t ≠ "".
Proof.
  unfold validEventScope. intros Hv. split_and_true.
  match goal with H : strict_eq _ (VStr t) = true |- _ => apply strict_eq_str in H; rewrite H in * end.
  split; [done|]. intros ->. done.
Qed.

Lemma valid_audit_envelope r t : validAuditRecord r t = true → envelope Audit r t.
Proof.
  unfold validAuditRecord, valid_envelope, validAuditEvent. cbv zeta. intros Hv. split_and_true.
  repeat match goal with H : strict_eq _ (VStr _) = true |- _ => apply strict_eq_str in H end.
  split.
  - exists (vget_opt r "event"), (vget_opt (vget_opt r "event") "scope").
    rewrite !plain_vget by done.
    destruct (event_scope_tenant (vget_opt (vget_opt r "event") "scope") t); [done|]. by split_and!.
  - rewrite plain_vget by done. by f_equal.
  - rewrite plain_vget by done. by f_equal.
Qed.

Lemma valid_edge_envelope r t : validEdgeRecord r t = true → envelope Edge r t.
Proof.
  unfold validEdgeRecord, valid_envelope, validEvidenceEdge. cbv zeta. intros Hv. split_and_true.
  repeat match goal with H : strict_eq _ (VStr _) = true |- _ => apply strict_eq_str in H end.
  split.
  - exists (vget_opt r "edge"), (vget_opt (vget_opt r "edge") "scope"). rewrite !plain_vget by done.
    destruct (event_scope_tenant (vget_opt (vget_opt r "edge") "scope") t); [done|]. by split_and!.
  - rewrite plain_vget by done. by f_equal.
  - rewrite plain_vget by done. by f_equal.
Qed.

Lemma audit_records_envelopes rs t :
  recordsAreValidAuditRecords rs t = true → Forall (λ r, envelope Audit r t) rs.
Proof.
  unfold recordsAreValidAuditRecords. rewrite forallb_forall. intros Hr. apply Forall_forall.
  intros r Hin%list_elem_of_In. by apply valid_audit_envelope, Hr.
Qed.

Lemma edge_records_envelopes rs t :
  recordsAreValidEdgeRecords rs t = true → Forall (λ r, envelope Edge r t) rs.
Proof.
  unfold recordsAreValidEdgeRecords. rewrite forallb_forall. intros Hr. apply Forall_forall.
  intros r Hin%list_elem_of_In. by apply valid_edge_envelope, Hr.
Qed.
End Facts.

(** ** The checks depend on data only *)

Section Same.
Context `{Hasher} `{Host} `{Base64}.
Context (options : RetentionVerificationOptions) (Huntrusted : trustedPublicKey options = None).

(** Origins the verifiers cannot tell apart. *)
Definition same_origin (o o' : val) : Prop :=
  is_genesis o = is_genesis o' ∧ vget_opt o "checkpointHash" = vget_opt o' "checkpointHash".

Lemma last_same rs rs' : Forall2 same_data rs rs' → option_Forall2 same_data (last rs) (last rs').
Proof.
  induction 1 as [|r r' rs rs' Hr Hrs IH]; [constructor|]. destruct Hrs; [by constructor|]. exact IH.
Qed.

Lemma checkpoint_claim_same o o' cs cs' tenant :
  same_origin o o' → Forall2 same_data cs cs' → is_string tenant = true → is_hash (vget_opt o "checkpointHash") = true ∨ is_genesis o = true →
  verifyCheckpointClaim o cs tenant options = verifyCheckpointClaim o' cs' tenant options.
Proof using Huntrusted.
  intros [Hg Hh] Hcs Ht Ho. unfold verifyCheckpointClaim. rewrite <- Hg, <- Hh, (Forall2_length _ _ _ Hcs).
  destruct (is_genesis o); [done|]. destruct Ho as [Ho|]; [|done].
  destruct (last_same _ _ Hcs) as [c c' Hc|]; [|done].
  rewrite (verifyRetentionCheckpointChain_same options Huntrusted _ _ Hcs).
  destruct (verifyRetentionCheckpointChain cs' options); [|done]. cbn [mbind exc_mbind].
  destruct tenant; try done. destruct (vget_opt o "checkpointHash"); try done.
  by rewrite (strict_eq_same _ _ _ (vget_opt_same _ _ "hash" Hc)), (strict_eq_same _ _ _ (vget_opt_same _ _ "tenantId" Hc)).
Qed.

Lemma find_hash_same hash cs cs' :
  Forall2 same_data cs cs' →
  let found := list_find (λ c, strict_eq (vget_opt c "hash") (VStr hash) = true) in
  option_Forall2 (λ a b, a.1 = b.1 ∧ same_data a.2 b.2) (found cs) (found cs').
Proof.
  cbn zeta. induction 1 as [|c c' cs cs' Hc Hcs IH]; [constructor|]. cbn.
  pose proof (strict_eq_same _ _ hash (vget_opt_same _ _ "hash" Hc)) as E.
  do 2 case_decide; try congruence; [by constructor|]. destruct IH as [[i a] [j b] [Hij Hab]|]; [|constructor].
  constructor. cbn in *. split; [congruence|done].
Qed.

Lemma dispositions_same ds ds' cs cs' : Forall2 same_data ds ds' → Forall2 same_data cs cs' → ∀ sig prior seen,
  verify_dispositions cs options sig prior seen ds = verify_dispositions cs' options sig prior seen ds'.
Proof using Huntrusted.
  intros Hds Hcs. induction Hds as [|d d' ds ds' Hd _ IH]; intros sig prior seen; [done|].
  cbn [verify_dispositions]. rewrite (is_plain_object_same _ _ Hd), (str_of_same _ _ (vget_opt_same _ _ "checkpointHash" Hd)).
  destruct (if is_plain_object d' then _ else None) as [hash|]; [|done].
  destruct (find_hash_same hash _ _ Hcs) as [[i a] [j b] [Hij Hab]|]; [|done]. cbn in Hij, Hab. subst j.
  destruct (_ || _); [done|]. rewrite (verifyRetentionDisposition_same options d d' a b) by done.
  apply bind_same; [done|]. intros result. destruct (result_ok result); [apply IH|done].
Qed.

Lemma disposition_set_same ds ds' cs cs' :
  Forall2 same_data ds ds' → Forall2 same_data cs cs' →
  verifyDispositionSet ds cs options = verifyDispositionSet ds' cs' options.
Proof using Huntrusted.
  intros Hds Hcs. unfold verifyDispositionSet.
  destruct Hds; apply dispositions_same; try done; by constructor.
Qed.

Lemma audit_claim_same o o' cs cs' es es' t :
  same_origin o o' → is_hash (vget_opt o "checkpointHash") = true ∨ is_genesis o = true →
  Forall2 same_data cs cs' → Forall2 same_data es es' →
  verifyAuditClaim o cs es t options = verifyAuditClaim o' cs' es' t options.
Proof using Huntrusted.
  intros [Hg Hh] Ho Hcs Hes. unfold verifyAuditClaim. rewrite <- Hg, <- Hh, <- (audit_records_same _ _ t Hes).
  destruct (recordsAreValidAuditRecords es t) eqn:Ev; [|done]. cbn [negb].
  destruct (is_genesis o).
  - unfold verifyAuditRecords. rewrite (verifyRecords_same Audit es es'); [done| |done].
    eapply Forall_impl; [by apply audit_records_envelopes|]. intros r. apply envelope_typed.
  - destruct Ho as [Ho|]; [|done]. destruct (last_same _ _ Hcs) as [c c' Hc|]; [|done].
    rewrite (truthy_same _ _ Hc). destruct (vget_opt o "checkpointHash") as [| | | |h| | | |]; try done.
    rewrite (strict_eq_same _ _ _ (vget_opt_same _ _ "hash" Hc)). destruct (_ || _); [done|].
    by rewrite (verifyAuditRecordsFromCheckpoint_same options Huntrusted c c' es es').
Qed.

Lemma edges_claim_same es es' t : Forall2 same_data es es' → edges_claim es t = edges_claim es' t.
Proof.
  intros Hes. unfold edges_claim. rewrite <- (edge_records_same _ _ t Hes).
  destruct (recordsAreValidEdgeRecords es t) eqn:Ev; [|by rewrite !andb_false_r]. f_equal.
  unfold verifyEdgeChain, verifyEvidenceEdgeRecords. rewrite (verifyRecords_same Edge es es'); [done| |done].
  eapply Forall_impl; [by apply edge_records_envelopes|]. intros r. apply envelope_typed.
Qed.
End Same.

(** ** Built bundles *)

Lemma last_lines (lines : list string) :
  lines ≠ [] → last (concat ((λ l, chars l ++ [nl]) <$> lines)) = Some nl.
Proof.
  intros Hne. destruct lines as [|l lines _] using rev_ind; [done|].
  rewrite fmap_app, concat_app. cbn [fmap list_fmap concat]. by rewrite app_nil_r, app_assoc, last_snoc.
Qed.

Lemma canonical_lines rs text :
  Forall (λ r, is_json r = true) rs → serializeRecords rs = Ret text → isCanonicalJsonLines text = true.
Proof.
  intros Hj E. destruct (serializeRecords_lines _ _ Hj E) as (ws & Hw & Hl & Hc).
  unfold isCanonicalJsonLines. destruct (String.eqb_spec text "") as [|Hne]; [done|]. cbn [orb].
  assert ((text_line <$> ws) ≠ []) as Hws.
  { intros Hn. rewrite Hn in Hc. apply Hne. by destruct text. }
  rewrite Hc, last_lines, Hl by done. cbn [andb nl]. change (Ascii.eqb nl (ascii_of_nat 10)) with true. cbn [andb].
  clear -Hw. induction Hw as [|r w rs ws [_ Hcw] _ IH]; [done|]. cbn. rewrite IH, andb_true_r.
  destruct (canonical_text_line w Hcw) as [E1 E2]. unfold canonical_line. by rewrite E2, E1, String.eqb_refl.
Qed.

Lemma utf8_length text : (length (chars text) ≤ length (utf8 text))%nat.
Proof.
  unfold utf8. induction (chars text) as [|c cs IH]; [done|]. rewrite fmap_cons. cbn [concat length].
  rewrite length_app. assert (1 ≤ length (utf8_char c))%nat by (unfold utf8_char; destruct (_ <? _)%Z; cbn; lia). lia.
Qed.

Lemma lines_length (lines : list string) : (length lines ≤ length (concat ((λ l, chars l ++ [nl]) <$> lines)))%nat.
Proof.
  induction lines as [|l lines IH]; [done|]. rewrite fmap_cons. cbn [concat length]. rewrite !length_app. cbn [length]. lia.
Qed.

Lemma record_count_size rs text :
  Forall (λ r, is_json r = true) rs → serializeRecords rs = Ret text → (Z.of_nat (length rs) ≤ utf8Size text)%Z.
Proof.
  intros Hj E. destruct (serializeRecords_lines _ _ Hj E) as (ws & Hw & _ & Hc). unfold utf8Size.
  rewrite (Forall2_length _ _ _ Hw), <- (length_fmap text_line ws).
  pose proof (lines_length (text_line <$> ws)). pose proof (utf8_length text). rewrite Hc in *. lia.
Qed.

Lemma safe_from_int lo z : (lo ≤ z ≤ max_safe_integer)%Z → (0 ≤ lo)%Z → safe_from lo (VInt z) = true.
Proof.
  intros Hz Hlo. unfold safe_from, VInt, is_safe_integer. rewrite num_int_of_Z.
  apply andb_true_iff. split; [|lia]. apply Z.leb_le. lia.
Qed.

(** ** The shape of what the builder makes *)

Lemma chain_claims_valid origin : isAuditOrigin origin = true → validClaims (chain_claims origin) = true.
Proof.
  unfold isAuditOrigin, chain_claims, is_genesis. intros [_ Ho]%andb_true_iff.
  destruct (strict_eq (vget_opt origin "kind") (VStr "genesis")); [done|].
  apply andb_true_iff in Ho as [_ Hh]. unfold validClaims. cbn -[is_hash]. by rewrite Hh.
Qed.

(** The origin stated in the claims is the input's. *)
Lemma chain_claims_origin origin :
  isAuditOrigin origin = true →
  same_origin origin (vget_opt (vget_opt (chain_claims origin) "audit") "origin").
Proof.
  unfold isAuditOrigin, chain_claims, same_origin, is_genesis. intros [Hp Ho]%andb_true_iff.
  destruct (strict_eq (vget_opt origin "kind") (VStr "genesis")) eqn:Eg; [|done]. split; [done|].
  change (vget_opt _ "checkpointHash") with VUndef at 2. destruct origin as [| | | | | |gs| |]; try done. cbn.
  destruct (obj_get "checkpointHash" gs) as [v|] eqn:E; [|done].
  apply obj_get_elem in E. unfold hasOnlyKeys in Ho. rewrite forallb_forall in Ho.
  specialize (Ho "checkpointHash"). rewrite <- list_elem_of_In in Ho.
  apply (list_elem_of_fmap_2 fst) in E. specialize (Ho E). by apply bool_decide_eq_true, list_elem_of_singleton in Ho.
Qed.

Lemma origin_hash origin :
  isAuditOrigin origin = true → is_hash (vget_opt origin "checkpointHash") = true ∨ is_genesis origin = true.
Proof.
  unfold isAuditOrigin, is_genesis. intros [_ Ho]%andb_true_iff.
  destruct (strict_eq _ (VStr "genesis")); [by right|left]. by apply andb_true_iff in Ho as [_ Ho].
Qed.

Lemma hash_test `{Hasher} `{Host} text : regex_test HASH_PATTERN (VStr (sha256Hex text)) = Ret true.
Proof. unfold regex_test. cbn. by rewrite sha256Hex_shape. Qed.

Lemma manifest_entries_tracked `{Hasher} `{Host} fs : ∀ seen,
  NoDup (seen ++ (path <$> fs)) →
  Forall (λ f, safe_from 0 (record_count f) = true ∧ (utf8Size (content f) ≤ max_safe_integer)%Z) fs →
  manifest_entries true seen (v2_file_entry <$> fs) = Ret (true, seen ++ (path <$> fs)).
Proof.
  induction fs as [|f fs IH]; intros seen Hnd Hs; [by rewrite app_nil_r|].
  inversion Hs as [|? ? [Hc Hb] Hs']; subst. rewrite !fmap_cons in *. cbn [manifest_entries].
  change (is_plain_object (v2_file_entry f)) with true.
  change (hasOnlyKeys (v2_file_entry f) FILE_ENTRY_KEYS) with true.
  change (vget_opt (v2_file_entry f) "path") with (VStr (path f)).
  change (vget_opt (v2_file_entry f) "sha256") with (VStr (sha256Hex (content f))).
  change (vget_opt (v2_file_entry f) "records") with (record_count f).
  change (vget_opt (v2_file_entry f) "bytes") with (VInt (utf8Size (content f))).
  cbn [andb str_of]. rewrite hash_test, Hc. cbn [mbind exc_mbind andb].
  rewrite (safe_from_int 0) by (unfold utf8Size in *; lia). cbn [andb].
  apply NoDup_app in Hnd as Hnd'. destruct Hnd' as (_ & Hnot & _).
  rewrite bool_decide_eq_false_2 by (intros Hin; apply (Hnot _ Hin); left). cbn [negb].
  rewrite IH; [by rewrite <- app_assoc|by rewrite <- app_assoc|done].
Qed.

(** The record files of an input, with the records each holds. *)
Definition record_sets (input : ExportBundleV2Input) : list (string * list val) :=
  [("records/audit-events.jsonl", v2_events input); ("records/evidence-edges.jsonl", v2_edges input);
   ("records/commits.jsonl", []); ("records/retention-checkpoints.jsonl", v2_checkpoints input);
   ("records/retention-dispositions.jsonl", default [] (v2_dispositions input))].

Record plain_v2_input (input : ExportBundleV2Input) : Prop := {
  plain_sets : Forall (λ set, Forall plain_json set.2) (record_sets input);
}.

Section Built.
Context `{Hasher} `{Host} `{WebCrypto} `{Base64}.

Definition written (set : string * list val) (f : tracked_file) : Prop :=
  path f = set.1 ∧ serializeRecords set.2 = Ret (content f) ∧ record_count f = VInt (Z.of_nat (length set.2)).

(** The record files and the embedded report. *)
Definition with_report (fs : list tracked_file) (text : string) : list tracked_file :=
  fs ++ [TrackedFile "verification.json" text (VInt 0)].

(** What the builder checked and made. *)
Record built_v2 (input : ExportBundleV2Input) (b : val) (fs : list tracked_file) (text root : string)
    (cp dp : RetentionSignatureStatus) : Prop := {
  bv_origin : isAuditOrigin (v2_auditOrigin input) = true;
  bv_fields : validScope (v2_scope input) = true ∧ validRange (v2_range input) = true ∧
    validTimestamp (v2_createdAt input) = true ∧ validProducer (v2_producer input) = true;
  bv_checkpoints : verifyCheckpointClaim (v2_auditOrigin input) (v2_checkpoints input)
    (vget_opt (v2_scope input) "tenantId") no_options = Ret (true, cp);
  bv_dispositions : verifyDispositionSet (default [] (v2_dispositions input)) (v2_checkpoints input) no_options
    = Ret (true, dp);
  bv_audit : verifyAuditClaim (v2_auditOrigin input) (v2_checkpoints input) (v2_events input)
    (default "" (str_of (vget_opt (v2_scope input) "tenantId"))) no_options = true;
  bv_edges : edges_claim (v2_edges input) (default "" (str_of (vget_opt (v2_scope input) "tenantId"))) = true;
  bv_files : Forall2 written (record_sets input) fs;
  bv_text : canonicalJson (embedded_val (true, cp) (true, dp) true true) = Ret (Some text);
  bv_root : computeV2RootHash (v2_file_entry <$> with_report fs text) = Ret root;
  bv_bundle : b = VObj
    [("bundleVersion", VStr "vevb-2");
     ("manifest", VObj
       [("bundleVersion", VStr "vevb-2"); ("createdAt", v2_createdAt input); ("scope", v2_scope input);
        ("range", v2_range input); ("producer", v2_producer input);
        ("chainClaims", chain_claims (v2_auditOrigin input));
        ("files", VArr (v2_file_entry <$> with_report fs text));
        ("rootHash", VStr root)]);
     ("files", files_val (with_report fs text))];
}.

Lemma trackedRecords_ret p records f : trackedRecords p records = Ret f → written (p, records) f.
Proof. unfold trackedRecords. intros E. apply bind_ret in E as (text & Ht & [= <-]). by split_and!. Qed.

Lemma buildExportBundleV2_ret input b :
  buildExportBundleV2 input = Ret b → ∃ fs text root cp dp, built_v2 input b fs text root cp dp.
Proof.
  unfold buildExportBundleV2. cbv zeta. intros E.
  apply bind_ret in E as ([] & Ho%guard_ret & E). apply bind_ret in E as ([] & Hf%guard_ret & E).
  rewrite !andb_true_iff in Hf. destruct Hf as [[[? ?] ?] ?].
  apply bind_ret in E as ([] & Hc%guard_ret & E). apply Nat.eqb_eq, nil_length_inv in Hc. rewrite Hc in E.
  apply bind_ret in E as ([ok cp] & Hcp & E). apply bind_ret in E as ([] & Ecp%guard_ret & E). cbn in Ecp. subst ok.
  apply bind_ret in E as ([ok dp] & Hdp & E). apply bind_ret in E as ([] & Edp%guard_ret & E). cbn in Edp. subst ok.
  apply bind_ret in E as ([] & Ha%guard_ret & E). apply bind_ret in E as ([] & He%guard_ret & E).
  apply bind_ret in E as (tracked & Ht & E). apply bind_ret in E as (root & Hr & [= <-]).
  unfold v2_tracked in Ht. do 5 (apply bind_ret in Ht as (? & ?%trackedRecords_ret & Ht)).
  apply bind_ret in Ht as (o & Ho' & Ht). apply bind_ret in Ht as (text & Htext & Ht). apply Ret_inj in Ht. subst tracked.
  destruct o as [text'|]; [|done]. injection Htext as ->.
  eexists [_; _; _; _; _], text, root, cp, dp. split; try done.
  - by repeat apply Forall2_cons_2.
  - exact Hr.
Qed.

Context (input : ExportBundleV2Input) (b : val) (fs : list tracked_file) (text root : string)
  (cp dp : RetentionSignatureStatus) (B : built_v2 input b fs text root cp dp) (Hplain : plain_v2_input input).

Let tracked : list tracked_file := with_report fs text.
Let files : val := files_val tracked.

Lemma built_paths : path <$> tracked = V2_REQUIRED_PATHS.
Proof using B.
  pose proof (bv_files _ _ _ _ _ _ _ B) as Hfs. unfold tracked, with_report. rewrite fmap_app.
  assert (path <$> fs = fst <$> record_sets input) as ->; [|done].
  clear -Hfs. induction Hfs as [|set f sets fs (E & _) _ IH]; [done|]. rewrite !fmap_cons. by f_equal.
Qed.

Lemma built_files :
  is_plain_object files = true ∧ own_keys files ≡ₚ V2_REQUIRED_PATHS ∧
  ∀ f, f ∈ tracked → vget_opt files (path f) = VStr (content f).
Proof using B.
  rewrite <- built_paths. apply files_val_spec.
  - rewrite built_paths. apply (bool_decide_unpack (NoDup _)). vm_compute. exact I.
  - apply Forall_forall. intros f Hf E. apply (list_elem_of_fmap_2 path) in Hf. rewrite built_paths, E in Hf.
    revert Hf. apply (bool_decide_unpack (_ ∉ _)). vm_compute. exact I.
Qed.

Lemma written_in set : set ∈ record_sets input → ∃ f, f ∈ fs ∧ written set f.
Proof using B.
  intros [i Hi]%list_elem_of_lookup_1. destruct (Forall2_lookup_l _ _ _ _ _ (bv_files _ _ _ _ _ _ _ B) Hi) as (f & Hf & Hw).
  exists f. split; [by eapply list_elem_of_lookup_2|done].
Qed.

Lemma set_of f : f ∈ fs → ∃ set, set ∈ record_sets input ∧ written set f.
Proof using B.
  intros [i Hi]%list_elem_of_lookup_1. destruct (Forall2_lookup_r _ _ _ _ _ (bv_files _ _ _ _ _ _ _ B) Hi) as (set & Hs & Hw).
  exists set. split; [by eapply list_elem_of_lookup_2|done].
Qed.

Lemma set_plain set : set ∈ record_sets input → Forall plain_json set.2.
Proof using Hplain. intros Hs. pose proof (plain_sets _ Hplain) as Hp. rewrite Forall_forall in Hp. by apply Hp. Qed.

(** The records of a file read back as the same data. *)
Lemma built_records set :
  set ∈ record_sets input →
  v2_parses files set.1 = true ∧ Forall2 same_data set.2 (v2_records files set.1).
Proof using B Hplain.
  intros Hs. destruct (written_in _ Hs) as (f & Hf & <- & Et & _).
  destruct built_files as (_ & _ & Hget).
  assert (f ∈ tracked) as Hf' by (apply elem_of_app; by left).
  destruct (serializeRecords_parse _ _ (plain_jsons _ (set_plain _ Hs)) Et) as (_ & ws & Hws & Hrw).
  unfold v2_parses, v2_records. rewrite (Hget f Hf'). cbn [parseJsonLines]. rewrite Hws. split; [done|].
  cbn [default from_option id]. apply normalized_same; [by apply set_plain|done].
Qed.

Lemma built_entry_issues f : f ∈ tracked → v2_entry_issues files (v2_file_entry f) = [].
Proof using B Hplain.
  intros Hf. destruct built_files as (_ & _ & Hget). unfold v2_entry_issues.
  change (vget_opt (v2_file_entry f) "path") with (VStr (path f)). cbn [str_of default from_option id].
  rewrite (Hget f Hf). change (vget_opt (v2_file_entry f) "sha256") with (VStr (sha256Hex (content f))).
  change (vget_opt (v2_file_entry f) "bytes") with (VInt (utf8Size (content f))).
  change (vget_opt (v2_file_entry f) "records") with (record_count f).
  rewrite strict_eq_str_refl, strict_eq_int_refl. cbn [negb issue_if app].
  apply elem_of_app in Hf as [Hf| ->%list_elem_of_singleton]; [|done].
  destruct (set_of _ Hf) as (set & Hs & _ & Et & Ec). pose proof (plain_jsons _ (set_plain _ Hs)) as Hj.
  destruct (serializeRecords_parse _ _ Hj Et) as (Hl & _).
  rewrite Ec, Hl, strict_eq_int_refl, (canonical_lines _ _ Hj Et). cbn [negb]. by rewrite !andb_false_r.
Qed.

Context (Hsize : ∀ p s, vget_opt files p = VStr s → (utf8Size s ≤ max_safe_integer)%Z).

Lemma tracked_safe :
  Forall (λ f, safe_from 0 (record_count f) = true ∧ (utf8Size (content f) ≤ max_safe_integer)%Z) tracked.
Proof using B Hplain Hsize.
  apply Forall_forall. intros f Hf. destruct built_files as (_ & _ & Hget).
  pose proof (Hsize _ _ (Hget f Hf)) as Hb. split; [|done].
  apply elem_of_app in Hf as [Hf| ->%list_elem_of_singleton]; [|done].
  destruct (set_of _ Hf) as (set & Hs & _ & Et & ->). apply safe_from_int; [|done].
  pose proof (record_count_size _ _ (plain_jsons _ (set_plain _ Hs)) Et). lia.
Qed.

Lemma built_verification_entry :
  verification_entry (v2_file_entry <$> tracked) = Some (v2_file_entry (TrackedFile "verification.json" text (VInt 0))).
Proof using B.
  unfold tracked, with_report. rewrite fmap_app.
  assert (Forall (λ f, path f ∈ V2_RECORD_PATHS) fs) as Hp.
  { apply Forall_forall. intros f Hf. destruct (set_of _ Hf) as (set & Hs & -> & _).
    apply (list_elem_of_fmap_2 fst) in Hs. exact Hs. }
  clear -Hp. induction Hp as [|f l Hf _ IH]; [done|]. rewrite fmap_cons. cbn [app]. unfold verification_entry. cbn [List.find].
  change (is_plain_object (v2_file_entry f)) with true.
  change (vget_opt (v2_file_entry f) "path") with (VStr (path f)). cbn [andb].
  destruct (strict_eq _ _) eqn:E; [|exact IH]. apply strict_eq_str in E. injection E as E. rewrite E in Hf.
  exfalso. revert Hf. apply (bool_decide_unpack (_ ∉ _)). vm_compute. exact I.
Qed.

Let manifest : val := VObj
  [("bundleVersion", VStr "vevb-2"); ("createdAt", v2_createdAt input); ("scope", v2_scope input);
   ("range", v2_range input); ("producer", v2_producer input);
   ("chainClaims", chain_claims (v2_auditOrigin input));
   ("files", VArr (v2_file_entry <$> tracked)); ("rootHash", VStr root)].

Lemma built_manifest_fields : manifest_fields_ok manifest = Ret true.
Proof using B.
  unfold manifest_fields_ok. cbv zeta.
  change (vget_opt manifest "bundleVersion") with (VStr "vevb-2").
  change (vget_opt manifest "scope") with (v2_scope input).
  change (vget_opt manifest "range") with (v2_range input).
  change (vget_opt manifest "createdAt") with (v2_createdAt input).
  change (vget_opt manifest "producer") with (v2_producer input).
  change (vget_opt manifest "chainClaims") with (chain_claims (v2_auditOrigin input)).
  change (vget_opt manifest "rootHash") with (VStr root).
  destruct (bv_fields _ _ _ _ _ _ _ B) as (-> & -> & -> & ->).
  rewrite (chain_claims_valid _ (bv_origin _ _ _ _ _ _ _ B)), strict_eq_str_refl. cbn [andb].
  destruct (computeRootHash_text _ _ (bv_root _ _ _ _ _ _ _ B)) as (? & rt & _ & _ & ->). by rewrite hash_test.
Qed.

Lemma built_shape : verifyV2Shape b = Ret (true, []).
Proof using B Hplain Hsize.
  rewrite (bv_bundle _ _ _ _ _ _ _ B). fold tracked. fold files manifest. unfold verifyV2Shape.
  change (is_plain_object (VObj _) && _ && _) with true. cbn [negb]. cbv zeta.
  change (vget_opt (VObj _) "manifest") with manifest. change (vget_opt (VObj _) "files") with files.
  change (vget_opt (VObj _) "signature") with VUndef. change (vget_opt manifest _) with VUndef.
  destruct built_files as (-> & Hkeys & Hget).
  change (is_plain_object manifest) with true. change (hasOnlyKeys manifest MANIFEST_KEYS) with true. cbn [andb negb].
  rewrite built_manifest_fields. cbn [mbind exc_mbind]. change (entries_of manifest) with (v2_file_entry <$> tracked).
  assert (NoDup (path <$> tracked)) as Hnd.
  { rewrite built_paths. apply (bool_decide_unpack (NoDup _)). vm_compute. exact I. }
  rewrite manifest_entries_tracked by (done || apply tracked_safe). cbn [mbind exc_mbind app fst snd is_undef signature_shape].
  rewrite built_verification_entry, built_paths.
  change (vget_opt (v2_file_entry (TrackedFile _ _ _)) "records") with (VInt 0). rewrite strict_eq_int_refl.
  assert (files_shape V2_REQUIRED_PATHS files = true) as ->; [|done].
  unfold files_shape. rewrite (Permutation_length Hkeys). cbn [andb Nat.eqb length].
  apply andb_true_iff. split.
  - apply forallb_forall. intros p Hp%list_elem_of_In. by rewrite !bool_decide_eq_true_2 by (rewrite ?Hkeys; done).
  - apply forallb_forall. intros p Hp%list_elem_of_In. rewrite Hkeys, <- built_paths in Hp.
    apply list_elem_of_fmap in Hp as (f & -> & Hf). by rewrite (Hget f Hf).
Qed.

Lemma built_integrity : v2_integrity_issues manifest files = Ret [].
Proof using B Hplain.
  unfold v2_integrity_issues. change (entries_of manifest) with (v2_file_entry <$> tracked).
  change (vget_opt manifest "rootHash") with (VStr root).
  pose proof (bv_root _ _ _ _ _ _ _ B) as Hr. fold tracked in Hr. rewrite Hr. cbn [mbind exc_mbind].
  rewrite strict_eq_str_refl. cbn [negb issue_if app]. f_equal. apply concat_nil_Forall.
  rewrite <- list_fmap_compose. apply Forall_fmap, Forall_forall. intros f Hf. by apply built_entry_issues.
Qed.

Lemma set_at i set : record_sets input !! i = Some set → set ∈ record_sets input.
Proof. apply list_elem_of_lookup_2. Qed.

Lemma built_checks :
  run_checks manifest files no_options = Ret (V2Checks (true, cp) (true, cp) (true, dp) (true, dp) true true true true).
Proof using B Hplain.
  unfold run_checks. cbv zeta.
  change (vget_opt (vget_opt manifest "scope") "tenantId") with (vget_opt (v2_scope input) "tenantId").
  change (vget_opt manifest "chainClaims") with (chain_claims (v2_auditOrigin input)).
  destruct (built_records _ (set_at 0 _ eq_refl)) as [_ Ha]. destruct (built_records _ (set_at 1 _ eq_refl)) as [_ He].
  destruct (built_records _ (set_at 2 _ eq_refl)) as [_ Hc]. destruct (built_records _ (set_at 3 _ eq_refl)) as [_ Hcp].
  destruct (built_records _ (set_at 4 _ eq_refl)) as [_ Hd]. cbn [fst snd] in *.
  pose proof (bv_origin _ _ _ _ _ _ _ B) as Ho. pose proof (chain_claims_origin _ Ho) as Hso.
  pose proof (origin_hash _ Ho) as Hoh.
  destruct (bv_fields _ _ _ _ _ _ _ B) as (Hscope & _). unfold validScope in Hscope. split_and_true.
  assert (is_string (vget_opt (v2_scope input) "tenantId") = true) as Ht by by destruct (vget_opt (v2_scope input) "tenantId").
  rewrite <- (checkpoint_claim_same no_options eq_refl _ _ _ _ _ Hso Hcp Ht Hoh), (bv_checkpoints _ _ _ _ _ _ _ B).
  cbn [mbind exc_mbind].
  rewrite <- (disposition_set_same no_options eq_refl _ _ _ _ Hd Hcp), (bv_dispositions _ _ _ _ _ _ _ B).
  cbn [mbind exc_mbind].
  rewrite <- (audit_claim_same no_options eq_refl _ _ _ _ _ _ _ Hso Hoh Hcp Ha), (bv_audit _ _ _ _ _ _ _ B).
  rewrite <- (edges_claim_same _ _ _ He), (bv_edges _ _ _ _ _ _ _ B).
  by apply Forall2_nil_inv_l in Hc as ->.
Qed.

(** The embedded report in its canonical form. *)
Let report : val :=
  let flag b := VObj [("valid", VBool b)] in
  let status s := VObj [("signature", VStr (signature_name s)); ("valid", VBool true)] in
  VObj [("audit", flag true); ("checkpoints", status cp); ("commits", flag true); ("dispositions", status dp);
        ("edges", flag true)].

Lemma built_embedded :
  parseEmbedded (vget_opt files "verification.json") = Some report.
Proof using B.
  destruct built_files as (_ & _ & Hget).
  assert (vget_opt files "verification.json" = VStr text) as ->.
  { apply (Hget (TrackedFile "verification.json" text (VInt 0))). apply elem_of_app. right. by left. }
  pose proof (bv_text _ _ _ _ _ _ _ B) as Ht.
  assert (normalizeForJson (embedded_val (true, cp) (true, dp) true true) = Ret report) as Hn
    by (vm_compute; reflexivity).
  assert (nums_wf (embedded_val (true, cp) (true, dp) true true) = true) as Hw by done.
  destruct (canonicalJson_parse _ _ Hw Ht) as (w & Hn' & Hc & Hp). rewrite Hn in Hn'. injection Hn' as <-.
  unfold parseEmbedded. rewrite Hp. cbv zeta.
  assert (canonicalJson report = Ret (Some text)) as Er.
  { rewrite <- Ht. unfold canonicalJson. by rewrite Hn, canonical_fixed. }
  rewrite Er, String.eqb_refl. by destruct cp, dp; vm_compute.
Qed.

Lemma built_comparison :
  compare_embedded files (V2Checks (true, cp) (true, cp) (true, dp) (true, dp) true true true true) =
  Ret (true, true, true, true, true, []).
Proof using B Hplain.
  unfold compare_embedded. cbv zeta. rewrite built_embedded.
  assert (∀ i set, record_sets input !! i = Some set → v2_parses files set.1 = true) as Hp
    by (intros i set Hi; by apply built_records, (set_at i)).
  pose proof (Hp 0%nat _ eq_refl) as H0'. pose proof (Hp 1%nat _ eq_refl) as H1'. pose proof (Hp 2%nat _ eq_refl) as H2'.
  pose proof (Hp 3%nat _ eq_refl) as H3'. pose proof (Hp 4%nat _ eq_refl) as H4'. cbn [fst] in *.
  rewrite H0', H1', H2', H3', H4'.
  assert (∀ k s, vget_opt report k = VObj [("signature", VStr (signature_name s)); ("valid", VBool true)] →
    same_verdict report k (true, s) = Ret true) as Hv.
  { intros k s E. unfold same_verdict. rewrite E. destruct s; by vm_compute. }
  cbn [baseline_checkpoint trusted_checkpoint baseline_disposition trusted_disposition baseline_audit trusted_audit
    edge_ok commit_ok fst andb].
  by rewrite (Hv "checkpoints" cp), (Hv "dispositions" dp).
Qed.

Lemma built_parse_issues : parse_issues files = [].
Proof using B Hplain.
  assert (∀ i set, record_sets input !! i = Some set → v2_parses files set.1 = true) as Hp
    by (intros i set Hi; by apply built_records, (set_at i)).
  pose proof (Hp 0%nat _ eq_refl) as H0'. pose proof (Hp 1%nat _ eq_refl) as H1'. pose proof (Hp 2%nat _ eq_refl) as H2'.
  pose proof (Hp 3%nat _ eq_refl) as H3'. pose proof (Hp 4%nat _ eq_refl) as H4'. cbn [fst] in *.
  unfold parse_issues, V2_RECORD_PATHS. cbn [omap list_omap]. by rewrite H0', H1', H2', H3', H4'.
Qed.

Lemma built_origin : origin_selects_latest manifest files = true.
Proof using B Hplain.
  unfold origin_selects_latest. cbv zeta.
  change (vget_opt manifest "chainClaims") with (chain_claims (v2_auditOrigin input)).
  pose proof (bv_origin _ _ _ _ _ _ _ B) as Ho. destruct (chain_claims_origin _ Ho) as [_ <-].
  destruct (negb _) eqn:En; [done|]. cbn [orb].
  destruct (built_records _ (set_at 3 _ eq_refl)) as [_ Hcp]. cbn [fst snd] in Hcp.
  pose proof (bv_checkpoints _ _ _ _ _ _ _ B) as Hc. unfold verifyCheckpointClaim in Hc.
  unfold chain_claims in En. destruct (is_genesis (v2_auditOrigin input)) eqn:Eg; [done|].
  destruct (origin_hash _ Ho) as [Hh|]; [|congruence].
  destruct (last_same _ _ Hcp) as [c c' Hs|]; [|done].
  apply bind_ret in Hc as (res & _ & [= Hc _]). rewrite !andb_true_iff in Hc. destruct Hc as [[_ Hc] _].
  cbn. destruct (vget_opt (v2_auditOrigin input) "checkpointHash"); try done.
  by rewrite <- (strict_eq_same _ _ _ (vget_opt_same _ _ "hash" Hs)).
Qed.

(** The verdict on a built bundle. *)
Lemma built_v2_report (options : ExportBundleVerificationOptions CryptoKey) :
  requireBundleSignature options = false → retention options = None →
  verifyExportBundleV2 b options =
  Ret (V2Report true true true true true true true true SigAbsent cp dp []).
Proof using B Hplain Hsize.
  intros Hreq Hret. unfold verifyExportBundleV2. rewrite built_shape. cbn [mbind exc_mbind].
  assert (verifyV2Signature b options = Ret (SigAbsent, None)) as ->
    by (rewrite (bv_bundle _ _ _ _ _ _ _ B); unfold verifyV2Signature; cbn; by rewrite Hreq).
  cbn [mbind exc_mbind fst snd negb option_list app]. cbv zeta.
  assert (vget_opt b "manifest" = manifest ∧ vget_opt b "files" = files) as [-> ->]
    by by rewrite (bv_bundle _ _ _ _ _ _ _ B).
  rewrite built_integrity, Hret. cbn [mbind exc_mbind default from_option id]. rewrite built_checks.
  cbn [mbind exc_mbind]. rewrite built_comparison. cbn [mbind exc_mbind].
  by rewrite built_origin, built_parse_issues, Hreq.
Qed.
End Built.

(** ** Accepted bundles *)

(** [rs] extends the chain tip [tip] of length [n], each record linked to its
    predecessor, up to the tip [tip'] of length [n']. *)
Inductive run `{Hasher} : val → Z → list val → val → Z → Prop :=
| run_nil tip n : run tip n [] tip n
| run_cons tip n r h rs tip' n' : link tip n r h → run (VStr h) (n + 1) rs tip' n' → run tip n (r :: rs) tip' n'.

Definition sequences (rs : list val) : list val := (λ r, vget_opt r "sequence") <$> rs.

Lemma run_snoc `{Hasher} tip n rs tip' n' r h :
  run tip n rs tip' n' → link tip' n' r h → run tip n (rs ++ [r]) (VStr h) (n' + 1).
Proof. induction 1; intros L; econstructor; eauto. constructor. Qed.

Lemma chain_run `{Hasher} rs tip n : chain rs tip n → run VNull 0 rs tip n.
Proof. induction 1; [constructor|]. by eapply run_snoc. Qed.

Lemma run_seqs `{Hasher} tip n rs tip' n' :
  run tip n rs tip' n' → sequences rs = VInt <$> seqZ (n + 1) (Z.of_nat (length rs)).
Proof.
  induction 1 as [|tip n r h rs tip' n' L _ IH]; [done|].
  pose proof (link_sequence _ _ _ _ L) as Hs. apply vget_obj_opt in Hs.
  unfold sequences in *. rewrite fmap_cons, Hs, IH. cbn [length].
  rewrite Nat2Z.inj_succ. unfold Z.succ. rewrite (seqZ_cons (n + 1) (Z.of_nat (length rs) + 1)) by lia.
  rewrite fmap_cons. do 3 f_equal; lia.
Qed.

Lemma safe_bound lo z : safe_from lo (VInt z) = true → (z ≤ max_safe_integer)%Z.
Proof. unfold safe_from, VInt, is_safe_integer. rewrite num_int_of_Z. intros [Hz%Z.leb_le _]%andb_true_iff. lia. Qed.

Section Accepted.
Context `{Hasher} `{Host} `{WebCrypto} `{Base64}.

Lemma audit_sequence_safe r t : validAuditRecord r t = true → safe_from 1 (vget_opt r "sequence") = true.
Proof. unfold validAuditRecord, valid_envelope. cbv zeta. intros Hv. by split_and_true. Qed.

Lemma verify_retained_status t status rs : ∀ n prev i s,
  verify_retained t status n prev i rs = Ret (RetentionOk s) → status = s.
Proof.
  induction rs as [|r rs IH]; intros n prev i s E; [by injection E|]. cbn [verify_retained] in E.
  apply bind_ret in E as (? & _ & E). apply bind_ret in E as (? & _ & E).
  repeat match type of E with (if ?b then _ else _) = _ => destruct b; [done|] end.
  apply bind_ret in E as (? & _ & E). match type of E with (if ?b then _ else _) = _ => destruct b; [done|] end.
  by eapply IH.
Qed.

(** Retained records continue the archive. *)
Lemma retained_run t status rs : t ≠ "" → ∀ n h i,
  verify_retained (VStr t) status n (VStr h) i rs = Ret (RetentionOk status) →
  recordsAreValidAuditRecords rs t = true → (n ≤ max_safe_integer)%Z →
  ∃ tip n', run (VStr h) n rs tip n'.
Proof.
  intros Ht. induction rs as [|r rs IH]; intros n h i E Hv Hn; [eexists _, _; constructor|].
  cbn in Hv. apply andb_true_iff in Hv as [Hr Hv]. unfold max_safe_integer in Hn.
  destruct (verify_retained_step _ _ _ _ _ _ _ E Ht ltac:(lia)) as (_ & h' & L & E').
  pose proof (link_sequence _ _ _ _ L) as Hs. apply vget_obj_opt in Hs.
  pose proof (audit_sequence_safe _ _ Hr) as Hsafe. rewrite Hs in Hsafe. apply safe_bound in Hsafe.
  destruct (IH _ _ _ E' Hv Hsafe) as (tip & n' & R). exists tip, n'. by econstructor.
Qed.

(** The checkpoints of an accepted claim: none, or a chain from the first record
    on that ends with the checkpoint the claim names. [tip] is the hash of its last
    record, the [k]-th. *)
Definition claimed_archive (origin : val) (checkpoints : list val) (tenant : string) (tip : val) (k : Z) : Prop :=
  concat (range_of <$> checkpoints) = seqZ 1 k ∧
  Forall (λ c, vget_opt c "tenantId" = VStr tenant) checkpoints ∧
  if is_genesis origin then checkpoints = [] ∧ tip = VNull ∧ k = 0%Z
  else ∃ latest, last checkpoints = Some latest ∧
         strict_eq (vget_opt latest "hash") (vget_opt origin "checkpointHash") = true ∧
         vget_opt latest "throughHash" = tip ∧ int_of (vget_opt latest "throughSequence") = Some k.

Lemma linked_tenants cps latest tenant :
  (∀ i p c, cps !! i = Some p → cps !! S i = Some c → continues p c) →
  last cps = Some latest → vget_opt latest "tenantId" = VStr tenant →
  Forall (λ c, vget_opt c "tenantId" = VStr tenant) cps.
Proof.
  intros Hc Hl Ht. apply last_Some in Hl as [init ->].
  apply Forall_app. split; [|by constructor]. revert latest Hc Ht.
  induction init as [|p init IH] using rev_ind; intros latest Hc Ht; [constructor|].
  assert (continues p latest) as Hp.
  { apply (Hc (length init)); [rewrite <- app_assoc; cbn [app]; by rewrite list_lookup_middle|].
    rewrite lookup_app_r by (rewrite length_app; cbn; lia). rewrite length_app. cbn.
    by replace (S (length init) - (length init + 1))%nat with 0%nat by lia. }
  apply Forall_app. assert (vget_opt p "tenantId" = VStr tenant) as Hpt by by rewrite <- (cont_tenant _ _ Hp).
  split; [|by constructor]. apply (IH p); [|done]. intros i q c Hq Hqc. apply (Hc i); by apply lookup_app_l_Some.
Qed.

Lemma last_range cps latest from through k :
  last cps = Some latest → int_of (vget_opt latest "fromSequence") = Some from →
  int_of (vget_opt latest "throughSequence") = Some through → (from ≤ through)%Z →
  concat (range_of <$> cps) = seqZ 1 k → through = k.
Proof.
  intros [init ->]%last_Some Hf Ht Hle E. rewrite fmap_app, concat_app in E. cbn [fmap list_fmap concat] in E.
  rewrite app_nil_r in E. unfold range_of in E at 2. rewrite Hf, Ht in E.
  assert (last (seqZ 1 k) = Some through) as Hl.
  { rewrite <- E. replace (through - from + 1)%Z with ((through - from) + 1)%Z by lia.
    rewrite (seqZ_app from (through - from) 1) by lia. change (seqZ ?x 1) with [x].
    rewrite app_assoc, last_snoc. f_equal. lia. }
  rewrite last_lookup, length_seqZ in Hl. apply lookup_seqZ in Hl as [-> Hl]. lia.
Qed.

Lemma checkpoint_claim_covers origin cps tenant options status :
  verifyCheckpointClaim origin cps (VStr tenant) options = Ret (true, status) →
  ∃ tip k, claimed_archive origin cps tenant tip k.
Proof.
  unfold verifyCheckpointClaim, claimed_archive. destruct (is_genesis origin).
  { intros [= Hl%Nat.eqb_eq%nil_length_inv]. subst cps. exists VNull, 0%Z. by split_and!. }
  destruct (last cps) as [latest|] eqn:El; [|done]. intros E.
  apply bind_ret in E as ([s|i w s] & Hv & [= E _]). cbn [result_ok andb] in E.
  apply andb_true_iff in E as [Eh Et].
  apply strict_eq_str in Et. destruct (checkpoint_chain_covers _ _ _ Hv) as ((k & Hk & Hcat) & _ & Hc).
  exists (vget_opt latest "throughHash"), k. split; [done|]. split; [by eapply linked_tenants|].
  exists latest. split_and!; [done|done|done|].
  pose proof (verify_checkpoints_accepted _ _ _ _ _ _ Hv) as Ha. rewrite Forall_forall in Ha.
  destruct (Ha latest (last_Some_elem_of _ _ El)) as (h & A).
  destruct (assertCheckpointInput_ret _ (ac_input _ _ A)) as (t & ep & from & through & th & V).
  pose proof (vc_range _ _ _ _ _ _ V). pose proof (vc_through _ _ _ _ _ _ V) as Ht.
  by rewrite Ht, (last_range cps latest from through k El (vc_from _ _ _ _ _ _ V) Ht) by (done || lia).
Qed.

(** The audit events of an accepted claim continue the archive without a gap. *)
Lemma audit_claim_run origin cps events tenant tip k options :
  claimed_archive origin cps tenant tip k → tenant ≠ "" →
  verifyAuditClaim origin cps events tenant options = true →
  recordsAreValidAuditRecords events tenant = true ∧ ∃ tip' n, run tip k events tip' n.
Proof.
  intros (Hcat & Ht & Harch) Hne. unfold verifyAuditClaim.
  destruct (recordsAreValidAuditRecords events tenant) eqn:Ev; [|done]. cbn [negb]. intros E. split; [done|].
  pose proof (audit_records_envelopes _ _ Ev) as He. destruct (is_genesis origin).
  - destruct Harch as (-> & -> & ->). destruct (verifyAuditRecords events) as [[|]|] eqn:Er; try done.
    apply (one_tenant_verifies Audit tenant) in Er as (tip & n & C); [|done]. exists tip, n. by apply chain_run.
  - destruct Harch as (latest & El & _ & <- & Hk). rewrite El in E. destruct (_ || _); [done|].
    destruct (verifyAuditRecordsFromCheckpoint latest events options) as [[s|]|] eqn:Er; try done.
    unfold verifyAuditRecordsFromCheckpoint in Er. apply bind_ret in Er as ([s'|] & Hc & Er); [|done].
    apply verifyCheckpointAt_ok in Hc as (h & A & _).
    destruct (assertCheckpointInput_ret _ (ac_input _ _ A)) as (t & ep & from & through & th & V).
    rewrite Forall_forall in Ht. rewrite (Ht latest (last_Some_elem_of _ _ El)), (proj1 (vc_throughHash _ _ _ _ _ _ V)) in Er.
    pose proof (vc_range _ _ _ _ _ _ V) as Hr. rewrite (vc_through _ _ _ _ _ _ V) in Hk. injection Hk as <-.
    pose proof (vc_through _ _ _ _ _ _ V) as Hth. unfold int_of in Hth.
    destruct (vget_opt latest "throughSequence") as [| | |n| | | | |]; try done. rewrite Hth in Er.
    pose proof (verify_retained_status _ _ _ _ _ _ _ Er) as ->. rewrite (proj1 (vc_throughHash _ _ _ _ _ _ V)).
    apply (retained_run tenant s events Hne _ _ _ Er Ev). cbn. lia.
Qed.

Lemma edges_claim_run edges tenant :
  edges_claim edges tenant = true →
  recordsAreValidEdgeRecords edges tenant = true ∧ ∃ tip n, run VNull 0 edges tip n.
Proof.
  unfold edges_claim. intros [E Ev]%andb_true_iff. split; [done|].
  unfold verifyEdgeChain, runChainVerifier in E.
  destruct (verifyEvidenceEdgeRecords edges) as [[|]|] eqn:Er; try done.
  apply (one_tenant_verifies Edge tenant) in Er as (tip & n & C); [|by apply edge_records_envelopes].
  exists tip, n. by apply chain_run.
Qed.

(** [d] is a receipt for the accepted checkpoint [c]. *)
Definition receipt_for (d c : val) : Prop :=
  refers_to d c = true ∧ (∃ h, accepted_checkpoint c h) ∧
  ∃ h, hashRetentionDisposition d = Ret h ∧ vget_opt d "hash" = VStr h.

Lemma dispositions_bound options cps ds : ∀ sig prior seen s,
  (-1 ≤ prior)%Z →
  verify_dispositions cps options sig prior seen ds = Ret (true, s) →
  ∃ picked, Forall2 receipt_for ds picked ∧ picked `sublist_of` drop (Z.to_nat (prior + 1)) cps.
Proof.
  induction ds as [|d ds IH]; intros sig prior seen s Hp E; [exists []; split; [constructor|apply sublist_nil_l]|].
  cbn [verify_dispositions] in E. destruct (if is_plain_object d then _ else None) as [hash|]; [|done].
  destruct (list_find _ cps) as [[i c]|] eqn:Ef; [|done].
  destruct (_ <=? _)%Z eqn:Ei; [done|]. destruct (bool_decide (hash ∈ seen)); [done|]. cbn [orb] in E.
  apply bind_ret in E as ([s'|i' w s'] & Hv & E); [|done]. cbn [result_ok] in E. apply Z.leb_gt in Ei.
  destruct (IH _ (Z.of_nat i) _ _ ltac:(lia) E) as (picked & Hf & Hs). exists (c :: picked). split.
  - constructor; [|done]. destruct (verifyRetentionDisposition_ok _ _ _ _ Hv) as (? & _ & ? & ? & _). done.
  - apply list_find_Some in Ef as (Hi & _ & _). replace (Z.to_nat (Z.of_nat i + 1)) with (S i) in Hs by lia.
    pose proof (lookup_lt_Some _ _ _ Hi) as Hlt.
    assert (drop (Z.to_nat (prior + 1)) cps = drop (Z.to_nat (prior + 1)) (take i cps) ++ c :: drop (S i) cps) as ->.
    { rewrite <- (take_drop i cps) at 1. rewrite drop_app_le by (rewrite length_take_le; lia).
      by rewrite (drop_S _ _ _ Hi). }
    apply sublist_inserts_l. by constructor.
Qed.

(** The entries of a manifest whose shape was accepted have the required paths. *)
Lemma manifest_entries_paths entries : ∀ ok seen ok' paths,
  manifest_entries ok seen entries = Ret (ok', paths) → ok' = true →
  ok = true ∧ ∃ ps, paths = seen ++ ps ∧ Forall2 entry_for entries ps.
Proof.
  induction entries as [|e entries IH]; intros ok seen ok' paths E Hok.
  { injection E as -> ->. split; [done|]. exists []. by rewrite app_nil_r. }
  cbn [manifest_entries] in E.
  destruct (is_plain_object e) eqn:Eo; [|by destruct (IH _ _ _ _ E Hok)].
  destruct (hasOnlyKeys e FILE_ENTRY_KEYS); [|by destruct (IH _ _ _ _ E Hok)]. cbn [andb] in E.
  destruct (vget_opt e "path") as [| | | |p| | | |] eqn:Ep; cbn [str_of] in E;
    try (by destruct (IH _ _ _ _ E Hok)).
  apply bind_ret in E as (hashed & _ & E).
  destruct (_ && negb _) in E; [|by destruct (IH _ _ _ _ E Hok)].
  destruct (IH _ _ _ _ E Hok) as (-> & ps & -> & Hf). split; [done|]. exists (p :: ps).
  rewrite <- app_assoc. split; [done|]. by constructor.
Qed.

(** The parts of a bundle. *)
Definition v2_manifest (b : val) : val := vget_opt b "manifest".
Definition v2_payload (b : val) (p : string) : val := vget_opt (vget_opt b "files") p.
Definition v2_origin (b : val) : val := vget_opt (vget_opt (vget_opt (v2_manifest b) "chainClaims") "audit") "origin".

(** Every required file is there with the size and the digest its entry states, and
    the root hash is the digest of the entries. *)
Record hashed_files (b : val) : Prop := {
  hf_root : ∃ sorted text, sorted ≡ₚ entries_of (v2_manifest b) ∧ canonicalJson (VArr sorted) = Ret (Some text) ∧
    vget_opt (v2_manifest b) "rootHash" = VStr (sha256Hex text);
  hf_files : ∀ p, p ∈ V2_REQUIRED_PATHS → ∃ entry payload, entry ∈ entries_of (v2_manifest b) ∧ entry_for entry p ∧
    v2_payload b p = VStr payload ∧ vget_opt entry "sha256" = VStr (sha256Hex payload) ∧
    vget_opt entry "bytes" = VInt (utf8Size payload);
}.

(** The evidence a bundle carries for one tenant. *)
Record v2_evidence (b : val) (tenant : string) (events edges checkpoints dispositions : list val) (k : Z) : Prop := {
  ev_tenant : vget_opt (vget_opt (v2_manifest b) "scope") "tenantId" = VStr tenant ∧ tenant ≠ "";
  ev_events : parseJsonLines (v2_payload b "records/audit-events.jsonl") = Some events;
  ev_edges : parseJsonLines (v2_payload b "records/evidence-edges.jsonl") = Some edges;
  ev_commits : parseJsonLines (v2_payload b "records/commits.jsonl") = Some [];
  ev_checkpoints : parseJsonLines (v2_payload b "records/retention-checkpoints.jsonl") = Some checkpoints;
  ev_dispositions : parseJsonLines (v2_payload b "records/retention-dispositions.jsonl") = Some dispositions;
  ev_audit : ∃ tip tip' n, claimed_archive (v2_origin b) checkpoints tenant tip k ∧
    recordsAreValidAuditRecords events tenant = true ∧ run tip k events tip' n ∧
    sequences events = VInt <$> seqZ (k + 1) (Z.of_nat (length events));
  ev_edge_chain : ∃ tip n, recordsAreValidEdgeRecords edges tenant = true ∧ run VNull 0 edges tip n ∧
    sequences edges = VInt <$> seqZ 1 (Z.of_nat (length edges));
  ev_receipts : ∃ picked, Forall2 receipt_for dispositions picked ∧ picked `sublist_of` checkpoints;
}.

Lemma v2_entry_issues_ok files e p :
  v2_entry_issues files e = [] → entry_for e p → ∃ payload, vget_opt files p = VStr payload ∧
    vget_opt e "sha256" = VStr (sha256Hex payload) ∧ vget_opt e "bytes" = VInt (utf8Size payload).
Proof.
  unfold v2_entry_issues. intros E [_ Hp]. rewrite Hp in E. cbn [str_of default from_option id] in E.
  destruct (vget_opt files p) as [| | | |payload| | | |]; try done. exists payload. split; [done|].
  apply app_nil in E as [E1 E]. apply app_nil in E as [E2 _].
  apply issue_if_nil, negb_false_iff in E1, E2. split; [by apply strict_eq_str_l|].
  by apply strict_eq_int_l in E2.
Qed.

Lemma shape_manifest b issues :
  verifyV2Shape b = Ret (true, issues) →
  manifest_fields_ok (v2_manifest b) = Ret true ∧
  ∃ ps, Forall2 entry_for (entries_of (v2_manifest b)) ps ∧ V2_REQUIRED_PATHS ⊆ ps.
Proof.
  unfold verifyV2Shape. destruct (negb _); [done|]. cbv zeta. destruct (negb _); [done|]. intros E.
  apply bind_ret in E as (ok & Hok & E). apply bind_ret in E as ([ok' paths] & Hl & E).
  apply bind_ret in E as (? & _ & E). apply bind_ret in E as (? & _ & [= E _]). cbn [fst snd] in E.
  rewrite !andb_true_iff in E. destruct E as [[[[[-> Hf] _] _] _] _].
  destruct (manifest_entries_paths _ _ _ _ _ Hl eq_refl) as (-> & ps & -> & Hps). split; [done|]. exists ps. split; [done|].
  unfold files_shape in Hf. rewrite !andb_true_iff in Hf. destruct Hf as [[_ Hr] _]. rewrite forallb_forall in Hr.
  intros p Hp%list_elem_of_In%Hr. apply andb_true_iff in Hp as [Hp _]. by apply bool_decide_eq_true in Hp.
Qed.

Lemma integrity_hashed b issues :
  verifyV2Shape b = Ret (true, issues) → v2_integrity_issues (v2_manifest b) (vget_opt b "files") = Ret [] →
  hashed_files b.
Proof.
  intros Hs E. destruct (shape_manifest _ _ Hs) as (_ & ps & Hps & Hreq).
  unfold v2_integrity_issues in E. apply bind_ret in E as (root & Hr & [= E]). apply app_nil in E as [E1 E2].
  apply issue_if_nil, negb_false_iff, strict_eq_str_l in E1.
  destruct (computeRootHash_text _ _ Hr) as (sorted & text & Hp & Ht & ->). split; [by exists sorted, text|].
  intros p Hp'%Hreq. apply list_elem_of_lookup_1 in Hp' as [i Hi].
  destruct (Forall2_lookup_r _ _ _ _ _ Hps Hi) as (e & He & Hep). apply list_elem_of_lookup_2 in He.
  apply concat_nil_Forall, Forall_fmap in E2. rewrite Forall_forall in E2.
  destruct (v2_entry_issues_ok _ _ _ (E2 e He) Hep) as (payload & ? & ? & ?). by exists e, payload.
Qed.

Lemma manifest_tenant b :
  manifest_fields_ok (v2_manifest b) = Ret true →
  ∃ tenant, vget_opt (vget_opt (v2_manifest b) "scope") "tenantId" = VStr tenant ∧ tenant ≠ "".
Proof.
  unfold manifest_fields_ok. cbv zeta. destruct (_ && validClaims _) eqn:E; [intros _|done].
  split_and_true. match goal with H : validScope _ = true |- _ => unfold validScope in H end. split_and_true.
  destruct (vget_opt (vget_opt (v2_manifest b) "scope") "tenantId") as [| | | |t| | | |]; try done.
  exists t. split; [done|]. by intros ->.
Qed.

(** What the five compared checks establish. *)
Lemma compared_ok files c r :
  compare_embedded files c = Ret r → r.1 = (true, true, true, true, true) →
  ((trusted_checkpoint c).1 = true ∧ (trusted_disposition c).1 = true ∧ trusted_audit c = true ∧ edge_ok c = true ∧
   commit_ok c = true) ∧ ∀ p, p ∈ V2_RECORD_PATHS → v2_parses files p = true.
Proof.
  unfold compare_embedded. cbv zeta. destruct (parseEmbedded _) as [emb|]; [|by intros [= <-]]. intros E Hr.
  apply bind_ret in E as (x & _ & E). apply bind_ret in E as (y & _ & E). injection E as <-. cbn [fst] in Hr.
  injection Hr as H1' H2' H3' H4' H5'. rewrite !andb_true_iff in *.
  destruct H1' as [[? ?] _], H2' as [[? ?] _], H3' as [[? ?] _], H4' as [[? ?] _], H5' as [[? ?] _].
  split; [done|]. intros p Hp. unfold V2_RECORD_PATHS in Hp.
  repeat (apply elem_of_cons in Hp as [->|Hp]; [done|]). by apply elem_of_nil in Hp.
Qed.

Lemma parses_records files p : v2_parses files p = true → parseJsonLines (vget_opt files p) = Some (v2_records files p).
Proof. unfold v2_parses, v2_records. by destruct (parseJsonLines _). Qed.

(** The signature conditions of an accepted bundle. *)
Definition v2_signature_accepted (b : val) (options : ExportBundleVerificationOptions CryptoKey) : Prop :=
  let sig := vget_opt b "signature" in
  (requireBundleSignature options = true → truthy sig = true) ∧
  ∀ key, truthy sig = true → publicKey options = Some key →
    ∃ fingerprint bytes payload, publicKeyFingerprint key = Ret fingerprint ∧
      vget_opt sig "publicKeyFingerprint" = VStr fingerprint ∧
      vget_opt (v2_manifest b) "signaturePublicKeyFingerprint" = VStr fingerprint ∧
      base64_bytes (vget_opt sig "signature") = Ret bytes ∧ signedManifestPayload (v2_manifest b) = Ret payload ∧
      subtle_verify key bytes payload = Ret true.

Lemma v2_signature_ok b options signed :
  verifyV2Signature b options = Ret signed → signed.1 ≠ SigInvalid →
  (requireBundleSignature options = true → signed.1 ≠ SigAbsent) → v2_signature_accepted b options.
Proof.
  unfold verifyV2Signature, v2_signature_accepted, v2_manifest. intros E Hi Hr.
  apply bind_ret in E as (sig & Hsig & E). pose proof (vget_obj_opt _ _ _ Hsig) as ->.
  assert (Hget : ∀ k, vget b k = Ret (vget_opt b k)) by (intros k; by destruct b).
  destruct (truthy sig) eqn:Et; cbn [negb] in E; [|injection E as <-; split; [|done]; intros Hreq; by destruct (Hr Hreq)].
  split; [done|]. intros key _ Hk. rewrite Hk in E. injection E as E.
  set (run := if negb _ then _ else _) in E. destruct run as [v|] eqn:Erun; cbn [catch] in E; [|by subst signed].
  subst v. unfold run in Erun. clear run.
  destruct (strict_eq _ (VStr "ed25519")); cbn [negb] in Erun; [|by injection Erun as <-].
  apply bind_ret in Erun as (fp & Hfp & Erun). cbv zeta in Erun.
  destruct (strict_eq (VStr fp) (vget_opt sig _)) eqn:E1; cbn [negb] in Erun; [|by injection Erun as <-].
  rewrite Hget in Erun. cbn [mbind exc_mbind] in Erun.
  apply bind_ret in Erun as (bound & Hb & Erun). apply vget_obj_opt in Hb.
  destruct (strict_eq (VStr fp) bound) eqn:E2; cbn [negb] in Erun; [|by injection Erun as <-].
  apply bind_ret in Erun as (payload & Hp & Erun). apply bind_ret in Erun as (bytes & Hby & Erun).
  apply bind_ret in Erun as ([] & Hv & Erun); [|by injection Erun as <-].
  apply strict_eq_str_l in E1, E2. exists fp, bytes, payload. split_and!; try done. congruence.
Qed.

Lemma v2_accepted b options r :
  verifyExportBundleV2 b options = Ret r → v2_valid r = true →
  hashed_files b ∧ v2_signature_accepted b options ∧
  ∃ tenant events edges checkpoints dispositions k, v2_evidence b tenant events edges checkpoints dispositions k.
Proof.
  unfold verifyExportBundleV2. intros E Hv. apply bind_ret in E as ([ok issues] & Hs & E).
  apply bind_ret in E as (signed & Hsig & E). cbv zeta in E. cbn [fst snd] in E.
  destruct ok; cbn [negb] in E; [|by injection E as <-].
  apply bind_ret in E as (found & Hi & E). apply bind_ret in E as (c & Hc & E).
  apply bind_ret in E as ([[[[[cp dp] audit] edge] commit] emb] & Hcomp & E). injection E as <-. cbn [v2_valid] in Hv.
  rewrite !andb_true_iff in Hv. destruct Hv as [[[[[[[_ Hf] ->] ->] ->] ->] ->] [Hn1 Hn2]].
  apply passes_nil in Hf. subst found.
  split; [by eapply integrity_hashed|]. split.
  { apply (v2_signature_ok _ _ signed Hsig).
    - intros E. by rewrite E in Hn1.
    - intros Hreq E. by rewrite Hreq, E in Hn2. }
  destruct (compared_ok _ _ _ Hcomp eq_refl) as [(Hcp & Hdp & Ha & He & Hco) Hp].
  destruct (manifest_tenant b (proj1 (shape_manifest _ _ Hs))) as (tenant & Ht & Hne).
  unfold run_checks in Hc. cbv zeta in Hc. fold (v2_manifest b) in Hc. rewrite Ht in Hc.
  cbn [str_of default from_option id] in Hc.
  apply bind_ret in Hc as (? & _ & Hc). apply bind_ret in Hc as ([okc sc] & Hclaim & Hc).
  apply bind_ret in Hc as (? & _ & Hc). apply bind_ret in Hc as ([okd sd] & Hds & Hc). injection Hc as <-.
  cbn [trusted_checkpoint trusted_disposition trusted_audit edge_ok commit_ok fst] in *. subst okc okd.
  destruct (checkpoint_claim_covers _ _ _ _ _ Hclaim) as (tip & k & Hk).
  destruct (audit_claim_run _ _ _ _ _ _ _ Hk Hne Ha) as (Hva & tip' & n & R).
  destruct (edges_claim_run _ _ He) as (Hve & tipe & ne & Re).
  destruct (dispositions_bound _ _ _ _ _ _ _ ltac:(done) Hds) as (picked & Hf & Hsub).
  apply andb_true_iff in Hco as [Hco%Nat.eqb_eq%nil_length_inv _].
  exists tenant, (v2_records (vget_opt b "files") "records/audit-events.jsonl"),
    (v2_records (vget_opt b "files") "records/evidence-edges.jsonl"),
    (v2_records (vget_opt b "files") "records/retention-checkpoints.jsonl"),
    (v2_records (vget_opt b "files") "records/retention-dispositions.jsonl"), k.
  split.
  - done.
  - apply parses_records, Hp. listed.
  - apply parses_records, Hp. listed.
  - rewrite <- Hco. apply parses_records, Hp. listed.
  - apply parses_records, Hp. listed.
  - apply parses_records, Hp. listed.
  - exists tip, tip', n. split_and!; [done..|by eapply run_seqs].
  - exists tipe, ne. split_and!; [done..|exact (run_seqs _ _ _ _ _ Re)].
  - exists picked. split; [done|]. exact Hsub.
Qed.
End Accepted.

(** ** Properties *)

(** Contents of at most 2^53 - 1 bytes; [bytes] is not a safe integer beyond. *)
Definition sized_files (b : val) : Prop :=
  ∀ p s, vget_opt (vget_opt b "files") p = VStr s → (utf8Size s ≤ max_safe_integer)%Z.

(** Nothing in the bundle is compared to a key. *)
Definition unkeyed {K} (options : ExportBundleVerificationOptions K) : Prop :=
  requireBundleSignature options = false ∧ retention options = None.

(** C5. A built vevb-2 bundle verifies: for records that are JSON data without a
    property named __proto__, files of fewer than 2^53 bytes, and options that
    require no key (no signature is asked for and no retention keys are given),
    every check of the verifier passes without an issue, and the retention
    signatures have the status the builder embedded. *)
Theorem built_v2_bundle_verifies `{Hasher} `{Host} `{WebCrypto} `{Base64} input b
    (options : ExportBundleVerificationOptions CryptoKey) :
  buildExportBundleV2 input = Ret b → plain_v2_input input → sized_files b → unkeyed options →
  ∃ cp dp, verifyCheckpointClaim (v2_auditOrigin input) (v2_checkpoints input)
      (vget_opt (v2_scope input) "tenantId") no_options = Ret (true, cp) ∧
    verifyDispositionSet (default [] (v2_dispositions input)) (v2_checkpoints input) no_options = Ret (true, dp) ∧
    verifyExportBundleV2 b options = Ret (V2Report true true true true true true true true SigAbsent cp dp []).
Proof.
  intros (fs & text & root & cp & dp & B)%buildExportBundleV2_ret Hp Hs [Hr Ho].
  exists cp, dp. split; [apply B|]. split; [apply B|].
  apply (built_v2_report _ _ _ _ _ _ _ B Hp); [|done..].
  intros p s Hps. apply (Hs p). by rewrite (bv_bundle _ _ _ _ _ _ _ B).
Qed.

#[local] Instance demo_host : Host :=
  {| host_dates := {| legacy_date_parse := λ _, None |}; date_of_object := λ _, None;
     date_string := λ _, "Invalid Date" |}.
#[local] Instance demo_base64 : Base64 := {| base64_bytes := λ _, Ret [] |}.
#[local] Instance demo_crypto : WebCrypto := {|
  CryptoKey := unit;
  exportKeyRaw := λ _, Ret [];
  subtle_sign := λ _ _, Ret [];
  subtle_verify := λ _ _ _, Ret true;
|}.

(** A sealed audit record that the closed schema admits. *)
Definition demo_body : list (string * val) :=
  [("event", json "{'id':'e1','schemaVersion':'2026-06-10','occurredAt':'2026-06-10T00:00:00.000Z','actor':{'type':'user','id':'u'},'action':'org.member.invited','target':{'type':'org','id':'o'},'scope':{'tenantId':'t'},'metadata':{}}");
   ("sequence", VInt 1); ("previousHash", VNull); ("hashAlgorithm", VStr "sha256");
   ("canonicalization", VStr "veritio-json-v1"); ("appendedAt", VStr "2026-06-10T00:00:01.000Z");
   ("idempotencyKeyHash", VStr "e2f857781cf313401025789ca53293022218a149c7bfd66b1d2b52b72935b9ce")].
Definition demo_record : val :=
  VObj (demo_body ++ [("hash", VStr (default "" (exc_to_option (hashAuditRecord (VObj demo_body)))))]).

Definition demo_input : ExportBundleV2Input :=
  V2Input (json "{'tenantId':'t'}") (json "{'from':'2026-06-10T00:00:00.000Z','to':'2026-06-11T00:00:00.000Z'}")
    (json "{'authority':'veritio','kind':'principal','type':'service','id':'s'}") (VStr "2026-06-12T00:00:00.000Z")
    (json "{'kind':'genesis'}") [demo_record] [] None [] None.
Definition demo_bundle : val := Eval vm_compute in default VUndef (exc_to_option (buildExportBundleV2 demo_input)).
Definition demo_options {K} : ExportBundleVerificationOptions K := BundleOptions None false None.
Definition demo_report : ExportBundleV2VerificationReport :=
  V2Report true true true true true true true true SigAbsent SigAbsent SigAbsent [].

Lemma sized_files_ok fs b :
  vget_opt b "files" = VObj fs →
  forallb (λ f, match f.2 with VStr s => (utf8Size s <=? max_safe_integer)%Z | _ => true end) fs = true → sized_files b.
Proof.
  rewrite forallb_forall. intros Hb Hs p s. rewrite Hb. cbn. destruct (obj_get p fs) as [v|] eqn:E; [|done]. intros [= ->].
  apply obj_get_elem, list_elem_of_In, Hs, Z.leb_le in E. exact E.
Qed.

Lemma demo_sized : sized_files demo_bundle.
Proof. eapply sized_files_ok; [reflexivity|]. vm_cast_no_check (@eq_refl bool true). Qed.

Lemma plain_v2_input_ok input :
  forallb (λ set, forallb (λ r, is_json r && no_proto r) set.2) (record_sets input) = true → plain_v2_input input.
Proof.
  rewrite forallb_forall. intros Hs. split. apply Forall_forall. intros set Hin%list_elem_of_In%Hs.
  rewrite forallb_forall in Hin. apply Forall_forall. intros r Hr%list_elem_of_In%Hin. by apply andb_true_iff in Hr.
Qed.

Lemma built_v2_bundle_verifies_witness :
  ∃ cp dp, verifyCheckpointClaim (v2_auditOrigin demo_input) (v2_checkpoints demo_input)
      (vget_opt (v2_scope demo_input) "tenantId") no_options = Ret (true, cp) ∧
    verifyDispositionSet (default [] (v2_dispositions demo_input)) (v2_checkpoints demo_input) no_options
      = Ret (true, dp) ∧
    verifyExportBundleV2 demo_bundle demo_options = Ret (V2Report true true true true true true true true SigAbsent cp dp []).
Proof.
  apply (built_v2_bundle_verifies demo_input demo_bundle demo_options); [| |exact demo_sized|split; reflexivity].
  - vm_cast_no_check (@eq_refl (exc val) (Ret demo_bundle)).
  - apply plain_v2_input_ok. vm_cast_no_check (@eq_refl bool true).
Defined.

(** C4. A vevb-2 bundle reported valid accounts for everything it claims: every
    required file is there with the size and digest its manifest entry states
    and the root hash is the digest of the entries; a signature is there when
    required and verifies under the given key; the checkpoints are the claimed
    archive of the first [k] sequence numbers, the audit records are schema-valid
    records of the tenant numbered [k + 1], [k + 2], ... without a gap and linked
    by hash to each other and to the archive's last record, the edges are such
    records numbered and linked from the first, there are no commits, and the
    dispositions belong to distinct checkpoints in chain order. *)
Theorem accepted_v2_bundle_sound `{Hasher} `{Host} `{WebCrypto} `{Base64} b options r :
  verifyExportBundleV2 b options = Ret r → v2_valid r = true →
  hashed_files b ∧ v2_signature_accepted b options ∧
  ∃ tenant events edges checkpoints dispositions k, v2_evidence b tenant events edges checkpoints dispositions k.
Proof. apply v2_accepted. Qed.

Lemma demo_accepted : verifyExportBundleV2 demo_bundle demo_options = Ret demo_report.
Proof. vm_cast_no_check (@eq_refl (exc ExportBundleV2VerificationReport) (Ret demo_report)). Qed.

Lemma accepted_v2_bundle_sound_witness :
  hashed_files demo_bundle ∧ v2_signature_accepted demo_bundle demo_options ∧
  ∃ tenant events edges checkpoints dispositions k,
    v2_evidence demo_bundle tenant events edges checkpoints dispositions k.
Proof. apply (accepted_v2_bundle_sound demo_bundle demo_options demo_report demo_accepted eq_refl). Defined.
