(* ===== verification/DeliverySafety.v ===== *)
(** * Delivery safety policies (storage/src/delivery-safety.ts)

    The finite ceilings of the transport: parsed from an untrusted host value,
    where an omitted, zero or unlimited ceiling is refused. *)

From S2P Require Import Prelude JsNum JsVal.

#[local] Open Scope Z_scope.

Inductive DeliveryDisposition := retry | pause | reject.
#[global] Instance DeliveryDisposition_eq_dec : EqDecision DeliveryDisposition.
Proof. solve_decision. Defined.

Record recommended_limits := Recommended { rec_queuedBytes : Z; rec_rollingSendBytes : Z }.

Record hard_limits := Hard {
  batchBytes : Z;
  queuedBytes : Z;
  rollingSendBytes : Z;
  rollingRequests : Z;
  windowMs : Z;
  automaticReplayBatches : Z;
}.

Record DeliverySafetyPolicy := SafetyPolicy { recommended : recommended_limits; hard : hard_limits }.

Definition DEFAULT_DELIVERY_SAFETY_POLICY : DeliverySafetyPolicy :=
  SafetyPolicy (Recommended (5 * 1024 * 1024) (1024 * 1024))
    (Hard (1024 * 1024) (64 * 1024 * 1024) (2 * 1024 * 1024) 30 60000 1).

Definition requireObject (value : val) (field : string) : exc val :=
  if is_plain_object value then Ret value else Throw (field +:+ " must be an object").

(** [Number.isSafeInteger] *)
Definition safe_integer (value : val) : option Z :=
  match value with
  | VNum n => match num_int n with Some z => if Z.abs z <=? 9007199254740991 then Some z else None | None => None end
  | _ => None
  end.

Definition requirePositiveInteger (value : val) (field : string) : exc Z :=
  match safe_integer value with
  | Some z => if z <=? 0 then Throw (field +:+ " must be a positive safe integer") else Ret z
  | None => Throw (field +:+ " must be a positive safe integer")
  end.

Definition requireAutomaticReplayBatches (value : val) : exc Z :=
  if strict_eq value (VInt 0) then Ret 0
  else if strict_eq value (VInt 1) then Ret 1
  else Throw "hard.automaticReplayBatches must be 0 or 1".

Definition parseDeliverySafetyPolicy (input : val) : exc DeliverySafetyPolicy :=
  if is_undef input then Ret DEFAULT_DELIVERY_SAFETY_POLICY else
  root ← requireObject input "deliverySafety";
  root_recommended ← vget root "recommended";
  rec ← requireObject root_recommended "recommended";
  root_hard ← vget root "hard";
  h ← requireObject root_hard "hard";
  let field (o : val) (group key : string) :=
    value ← vget o key; requirePositiveInteger value (group +:+ "." +:+ key) in
  rec_queued ← field rec "recommended" "queuedBytes";
  rec_rolling ← field rec "recommended" "rollingSendBytes";
  batch ← field h "hard" "batchBytes";
  queued ← field h "hard" "queuedBytes";
  rolling ← field h "hard" "rollingSendBytes";
  requests ← field h "hard" "rollingRequests";
  window ← field h "hard" "windowMs";
  replay ← vget h "automaticReplayBatches";
  batches ← requireAutomaticReplayBatches replay;
  _ ← guard_exc (rec_queued <=? queued) "recommended.queuedBytes must not exceed hard.queuedBytes";
  _ ← guard_exc (rec_rolling <=? rolling) "recommended.rollingSendBytes must not exceed hard.rollingSendBytes";
  _ ← guard_exc (batch <=? rolling) "hard.batchBytes must not exceed hard.rollingSendBytes";
  Ret (SafetyPolicy (Recommended rec_queued rec_rolling) (Hard batch queued rolling requests window batches)).

(** ** Correctness *)

Definition ceiling (z : Z) : Prop := 0 < z <= 9007199254740991.

(** A policy whose ceilings are finite, positive and consistent. *)
Record safe_policy (p : DeliverySafetyPolicy) : Prop := {
  safe_ceilings : Forall ceiling
    [rec_queuedBytes (recommended p); rec_rollingSendBytes (recommended p); batchBytes (hard p);
     queuedBytes (hard p); rollingSendBytes (hard p); rollingRequests (hard p); windowMs (hard p)];
  safe_replay : automaticReplayBatches (hard p) = 0 ∨ automaticReplayBatches (hard p) = 1;
  safe_queued : rec_queuedBytes (recommended p) <= queuedBytes (hard p);
  safe_rolling : rec_rollingSendBytes (recommended p) <= rollingSendBytes (hard p);
  safe_batch : batchBytes (hard p) <= rollingSendBytes (hard p);
}.

(** The value a host writes for a policy. *)
Definition policy_val (p : DeliverySafetyPolicy) : val :=
  VObj [("recommended", VObj [("queuedBytes", VInt (rec_queuedBytes (recommended p)));
                              ("rollingSendBytes", VInt (rec_rollingSendBytes (recommended p)))]);
        ("hard", VObj [("batchBytes", VInt (batchBytes (hard p))); ("queuedBytes", VInt (queuedBytes (hard p)));
                       ("rollingSendBytes", VInt (rollingSendBytes (hard p)));
                       ("rollingRequests", VInt (rollingRequests (hard p))); ("windowMs", VInt (windowMs (hard p)));
                       ("automaticReplayBatches", VInt (automaticReplayBatches (hard p)))])].

Lemma requirePositiveInteger_ret v f z : requirePositiveInteger v f = Ret z → ceiling z.
Proof.
  unfold requirePositiveInteger, safe_integer, ceiling. destruct v as [| | |n| | | | |]; try discriminate.
  destruct (num_int n) as [y|]; [|discriminate]. destruct (Z.leb_spec (Z.abs y) 9007199254740991); [|discriminate].
  destruct (Z.leb_spec y 0); [discriminate|]. intros [= <-]. lia.
Qed.

Lemma requirePositiveInteger_int z f : ceiling z → requirePositiveInteger (VInt z) f = Ret z.
Proof.
  intros Hz. unfold ceiling in Hz. unfold requirePositiveInteger, safe_integer, VInt. rewrite num_int_of_Z.
  by rewrite (proj2 (Z.leb_le _ _)), (proj2 (Z.leb_gt _ _)) by lia.
Qed.

Lemma requireAutomaticReplayBatches_ret v z : requireAutomaticReplayBatches v = Ret z → z = 0 ∨ z = 1.
Proof.
  unfold requireAutomaticReplayBatches.
  destruct (strict_eq v (VInt 0)); [intros [= <-]; by left|]. destruct (strict_eq v (VInt 1)); [intros [= <-]; by right|done].
Qed.

Lemma default_policy_safe : safe_policy DEFAULT_DELIVERY_SAFETY_POLICY.
Proof. split; cbn; [repeat constructor|by right|lia..]; unfold ceiling; lia. Qed.

Lemma parsed_policy_safe v p : parseDeliverySafetyPolicy v = Ret p → safe_policy p.
Proof.
  unfold parseDeliverySafetyPolicy. destruct (is_undef v); [intros [= <-]; exact default_policy_safe|].
  intros E. cbv zeta in E.
  repeat (let x := fresh "x" in apply bind_ret in E as (x & ? & E)).
  repeat match goal with H : (_ ≫= _) = Ret _ |- _ => apply bind_ret in H as (? & _ & H) end.
  injection E as <-.
  repeat match goal with
  | H : requirePositiveInteger _ _ = Ret _ |- _ => apply requirePositiveInteger_ret in H
  | H : requireAutomaticReplayBatches _ = Ret _ |- _ => apply requireAutomaticReplayBatches_ret in H
  | x : unit |- _ => destruct x
  | H : guard_exc _ _ = Ret tt |- _ => apply guard_ret, Z.leb_le in H
  end.
  split; cbn; [by rewrite !Forall_cons, Forall_nil|done..].
Qed.

Lemma parse_policy_val p : safe_policy p → parseDeliverySafetyPolicy (policy_val p) = Ret p.
Proof.
  intros [Hc Hr H1 H2 H3]. repeat rewrite Forall_cons in Hc. destruct Hc as (C1 & C2 & C3 & C4 & C5 & C6 & C7 & _).
  destruct p as [[rq rr] [b q r n w a]]. cbn [recommended hard rec_queuedBytes rec_rollingSendBytes batchBytes queuedBytes
    rollingSendBytes rollingRequests windowMs automaticReplayBatches] in *.
  unfold parseDeliverySafetyPolicy, policy_val. cbn -[requirePositiveInteger requireAutomaticReplayBatches Z.leb VInt String.append].
  rewrite !requirePositiveInteger_int by done. cbn -[requireAutomaticReplayBatches Z.leb VInt String.append].
  assert (requireAutomaticReplayBatches (VInt a) = Ret a) as -> by (destruct Hr as [->| ->]; reflexivity).
  cbn -[Z.leb]. unfold guard_exc. by rewrite !(proj2 (Z.leb_le _ _)) by done.
Qed.

(** The accepted delivery policies are exactly the safe ones: every ceiling is
    a positive safe integer (zero never means unlimited), unattended replay is
    none or one batch, recommended limits do not exceed hard ones and a batch
    fits the rolling window; a missing policy is the default one. *)
Theorem accepted_policies_safe p : (∃ v, parseDeliverySafetyPolicy v = Ret p) ↔ safe_policy p.
Proof.
  split; [intros [v E]; exact (parsed_policy_safe v p E)|]. intros Hp. exists (policy_val p). exact (parse_policy_val p Hp).
Qed.
