(* ===== verification/Store.v ===== *)
(** * The in-memory audit store (sdks/typescript/src/index.ts: MemoryAuditStore)

    The state of the store and its operations. Records, checkpoints and receipts
    are the JSON values the store keeps; the maps are keyed by tenant (and by
    checkpoint hash below a tenant). An operation returns the next state, or
    throws and leaves the store as it was: no operation of the source changes a
    field before its last check. The clock is an argument. *)

From S2P Require Import Prelude Regex JsNum JsVal Dates JsonText Hash Sha256 Canonical.
From S2P Require Import Keyed Redact AuditChain ChainModes Event Retention.

#[local] Arguments num_of_Z : simpl never.

Record AuditChainState := ChainState {
  authoritativeTipSequence : Z;
  authoritativeTipHash : option string;
  minimumRetainedSequence : Z;
  latestCheckpointHash : option string;
  retentionPolicyFence : Z;
}.

Definition genesis_state : AuditChainState := ChainState 0 None 1 None 0.

Definition chain_state_val (s : AuditChainState) : val := VObj
  [("authoritativeTipSequence", VInt (authoritativeTipSequence s));
   ("authoritativeTipHash", vnull_or_str (authoritativeTipHash s));
   ("minimumRetainedSequence", VInt (minimumRetainedSequence s));
   ("latestCheckpointHash", vnull_or_str (latestCheckpointHash s));
   ("retentionPolicyFence", VInt (retentionPolicyFence s))].

Inductive attempt_status := Pending | Disposed.
#[global] Instance attempt_status_eq_dec : EqDecision attempt_status.
Proof. solve_decision. Defined.

Definition status_name (s : attempt_status) : string :=
  match s with Pending => "pending" | Disposed => "disposed" end.

Record DispositionAttempt := Attempt {
  attemptId : string;
  attempt_checkpointHash : string;
  policyFence : Z;
  status : attempt_status;
}.

Definition attempt_val (a : DispositionAttempt) : val := VObj
  [("attemptId", VStr (attemptId a)); ("checkpointHash", VStr (attempt_checkpointHash a));
   ("policyFence", VInt (policyFence a)); ("status", VStr (status_name (status a)))].

(** An entry of [#idempotencyRecords]; compaction drops the record. *)
Record idempotency_entry := IdempotencyEntry {
  eventCanonicalHash : string;
  originalSequence : Z;
  originalRecordHash : string;
  entry_record : option val;
}.

Record store := Store {
  records : list val;
  idempotencyRecords : gmap string idempotency_entry;
  tenantChainStates : gmap string AuditChainState;
  tenantCheckpoints : gmap string (list val);
  tenantDispositionAttempts : gmap string (gmap string DispositionAttempt);
  tenantDispositions : gmap string (gmap string val);
}.

Definition empty_store : store := Store [] ∅ ∅ ∅ ∅ ∅.

Record AuditStoreAppendOptions := AppendOptions { idempotencyKey : val; expectedPreviousHash : val }.
Record AuditStoreListOptions := ListOptions { afterSequence : val; limit : val }.

(** [JSON.parse(JSON.stringify(value))] *)
Definition json_clone (value : val) : exc val :=
  match json_stringify value with
  | Some text => match json_parse text with
                 | Some v => Ret v
                 | None => Throw "unexpected token"
                 end
  | None => Throw "unexpected token"
  end.

Definition record_tenant (record : val) : val :=
  vget_opt (vget_opt (vget_opt record "event") "scope") "tenantId".

Definition requireTenantId (event : val) : exc string :=
  scope ← vget event "scope";
  match vget_opt scope "tenantId" with
  | VStr t => if blank t then Throw "scope.tenantId is required" else Ret t
  | _ => Throw "scope.tenantId is required"
  end.

(** [assertNonEmpty(scope.tenantId, "scope.tenantId")], returning the tenant. *)
Definition scope_tenant (scope : val) : exc string :=
  tenantId ← vget scope "tenantId";
  match tenantId with
  | VStr t => if blank t then Throw "scope.tenantId is required" else Ret t
  | _ => Throw "scope.tenantId is required"
  end.

Definition non_negative_safe (value : val) : option Z :=
  match value with
  | VNum n =>
      match num_int n with
      | Some z => if is_safe_integer n && (0 <=? z)%Z then Some z else None
      | None => None
      end
  | _ => None
  end.

Definition assertRetentionPolicyFence (value : val) : exc Z :=
  match non_negative_safe value with
  | Some z => Ret z
  | None => Throw "retention policy fence must be a non-negative safe integer"
  end.

Section Store.
Context `{Hasher} `{Host} `{Base64}.

(** [value !== null && !/^[a-f0-9]{64}$/.test(value)], negated. *)
Definition null_or_hash (value : val) : exc bool :=
  if is_null value then Ret true else regex_test HASH_PATTERN value.

Definition assertAuditChainState (value : val) : exc unit :=
  if negb (match value with VObj _ | VArr _ | VDate _ => true | _ => false end) then
    Throw "invalid audit chain state" else
  match non_negative_safe (vget_opt value "authoritativeTipSequence"),
        non_negative_safe (vget_opt value "minimumRetainedSequence") with
  | Some tip, Some minimum =>
      if (minimum <? 1)%Z || (tip + 1 <? minimum)%Z then Throw "invalid audit chain state" else
      tip_ok ← null_or_hash (vget_opt value "authoritativeTipHash");
      if negb tip_ok then Throw "invalid audit chain state" else
      checkpoint_ok ← null_or_hash (vget_opt value "latestCheckpointHash");
      if negb checkpoint_ok then Throw "invalid audit chain state" else
      _ ← guard_exc (Bool.eqb (tip =? 0)%Z (is_null (vget_opt value "authoritativeTipHash"))
                     && Bool.eqb (minimum =? 1)%Z (is_null (vget_opt value "latestCheckpointHash")))
            "invalid audit chain state";
      _ ← assertRetentionPolicyFence (vget_opt value "retentionPolicyFence");
      Ret tt
  | _, _ => Throw "invalid audit chain state"
  end.

Definition auditChainStatesEqual (left : AuditChainState) (right : val) : bool :=
  let l := chain_state_val left in
  let same k := strict_eq (vget_opt l k) (vget_opt right k) in
  same "authoritativeTipSequence" && same "authoritativeTipHash" && same "minimumRetainedSequence"
  && same "latestCheckpointHash" && same "retentionPolicyFence".

(** [#chainState(tenantId)] *)
Definition chainState (s : store) (tenantId : string) : exc AuditChainState :=
  let state := default genesis_state (tenantChainStates s !! tenantId) in
  _ ← assertAuditChainState (chain_state_val state);
  Ret state.

(** The fields of a record before it is hashed. *)
Definition record_fields (event : val) (seq : Z) (previousHash : option string) (appendedAt : string)
    (idempotencyKeyHash : string) : list (string * val) :=
  [("event", event); ("sequence", VInt seq); ("previousHash", vnull_or_str previousHash);
   ("hashAlgorithm", VStr HASH_ALGORITHM); ("canonicalization", VStr CANONICALIZATION);
   ("appendedAt", VStr appendedAt); ("idempotencyKeyHash", VStr idempotencyKeyHash)].

Definition append (now : Z) (s : store) (event : val) (options : AuditStoreAppendOptions)
    : exc (store * val) :=
  tenantId ← requireTenantId event;
  id ← vget event "id";
  keyHash ← hashIdempotencyKey (VStr tenantId) (nullish_or (idempotencyKey options) id);
  eventCanonical ← canonicalJson event;
  canonicalHash ← sha256HexOpt eventCanonical;
  storedEvent ← json_clone event;
  match idempotencyRecords s !! keyHash with
  | Some existing =>
      if negb (String.eqb (eventCanonicalHash existing) canonicalHash) then
        Throw "idempotency conflict"
      else match entry_record existing with
           | None => Throw "idempotency_history_disposed"
           | Some record => clone ← json_clone record; Ret (s, clone)
           end
  | None =>
      state ← chainState s tenantId;
      let previousHash := authoritativeTipHash state in
      _ ← guard_exc (is_undef (expectedPreviousHash options)
                     || strict_eq (expectedPreviousHash options) (vnull_or_str previousHash))
            "expectedPreviousHash does not match tenant chain tip";
      let sequence := (authoritativeTipSequence state + 1)%Z in
      let fields := record_fields storedEvent sequence previousHash (toISOString now) keyHash in
      hash ← hashAuditRecord (VObj fields);
      let record := VObj (fields ++ [("hash", VStr hash)]) in
      clone ← json_clone record;
      Ret (Store
             (records s ++ [record])
             (<[keyHash := IdempotencyEntry canonicalHash sequence hash (Some record)]> (idempotencyRecords s))
             (<[tenantId := ChainState sequence (Some hash) (minimumRetainedSequence state)
                              (latestCheckpointHash state) (retentionPolicyFence state)]>
                (tenantChainStates s))
             (tenantCheckpoints s) (tenantDispositionAttempts s) (tenantDispositions s),
           clone)
  end.

(** [createAuditRecorder({ store }).record(input, options)] *)
Definition record_event (uuid : string) (now : Z) (s : store) (input : AuditEventInput)
    (options : AuditStoreAppendOptions) : exc (store * val) :=
  event ← createAuditEvent uuid now input; append now s event options.

(** A non-negative integer option, [None] when it is not given. *)
Definition list_option (value : val) (message : string) : exc (option Z) :=
  match value with
  | VUndef => Ret None
  | VNum n => match num_int n with
              | Some z => if (0 <=? z)%Z then Ret (Some z) else Throw message
              | None => Throw message
              end
  | _ => Throw message
  end.

Definition record_sequence (record : val) : Z := default 0%Z (int_of (vget_opt record "sequence")).

Definition of_tenant (tenantId : string) (record : val) : bool :=
  strict_eq (record_tenant record) (VStr tenantId).

Definition list_records (s : store) (scope : val) (options : AuditStoreListOptions) : exc (list val) :=
  tenantId ← scope_tenant scope;
  limit ← list_option (limit options) "limit must be a non-negative integer";
  after ← list_option (afterSequence options) "afterSequence must be a non-negative integer";
  let found := filter (λ r, (of_tenant tenantId r && (default 0 after <? record_sequence r)%Z) = true)
                 (records s) in
  mapE json_clone (match limit with None => found | Some n => take (Z.to_nat n) found end).

Definition getChainState (s : store) (scope : val) : exc AuditChainState :=
  tenantId ← scope_tenant scope; chainState s tenantId.

Definition set_chain_state (tenantId : string) (state : AuditChainState) (s : store) : store :=
  Store (records s) (idempotencyRecords s) (<[tenantId := state]> (tenantChainStates s))
    (tenantCheckpoints s) (tenantDispositionAttempts s) (tenantDispositions s).

Definition advanceRetentionPolicyFence (s : store) (scope expectedVersion : val) : exc (store * Z) :=
  tenantId ← scope_tenant scope;
  expected ← assertRetentionPolicyFence expectedVersion;
  current ← chainState s tenantId;
  _ ← guard_exc (retentionPolicyFence current =? expected)%Z "retention policy fence mismatch";
  let next := (retentionPolicyFence current + 1)%Z in
  _ ← guard_exc (next <=? max_safe_integer)%Z "retention policy fence exhausted";
  Ret (set_chain_state tenantId
         (ChainState (authoritativeTipSequence current) (authoritativeTipHash current)
            (minimumRetainedSequence current) (latestCheckpointHash current) next) s, next).

Definition checkpoints_of (s : store) (tenantId : string) : list val :=
  default [] (tenantCheckpoints s !! tenantId).

Definition in_range_of (tenantId : string) (from through : Z) (record : val) : bool :=
  of_tenant tenantId record
  && (from <=? record_sequence record)%Z && (record_sequence record <=? through)%Z.

Definition sequence_leb (a b : val) : bool := (record_sequence a <=? record_sequence b)%Z.

(** The loop over the covered records: from the expected sequence and previous
    hash to the last hash. *)
Fixpoint check_covered (sequence : Z) (previousHash : val) (covered : list val) : exc val :=
  match covered with
  | [] => Ret previousHash
  | record :: covered =>
      let failed := Throw "checkpoint range failed authoritative integrity validation" in
      if negb (strict_eq (vget_opt record "sequence") (VInt sequence))
         || negb (strict_eq (vget_opt record "previousHash") previousHash) then failed else
      hash ← hashAuditRecord record;
      if negb (strict_eq (VStr hash) (vget_opt record "hash")) then failed else
      check_covered (sequence + 1) (vget_opt record "hash") covered
  end.

(** Drops the record of the entry of one covered idempotency hash. *)
Definition drop_entry (m : gmap string idempotency_entry) (record : val) : gmap string idempotency_entry :=
  match vget_opt record "idempotencyKeyHash" with
  | VStr k =>
      match m !! k with
      | Some e => <[k := IdempotencyEntry (eventCanonicalHash e) (originalSequence e)
                           (originalRecordHash e) None]> m
      | None => m
      end
  | _ => m
  end.

Definition compactRange (s : store) (scope checkpoint expected policyFence : val) : exc store :=
  tenantId ← scope_tenant scope;
  fence ← assertRetentionPolicyFence policyFence;
  _ ← assertAuditChainState expected;
  current ← chainState s tenantId;
  _ ← guard_exc (auditChainStatesEqual current expected) "audit chain state mismatch";
  _ ← guard_exc ((fence =? retentionPolicyFence current)%Z
                 && strict_eq (vget_opt expected "retentionPolicyFence") (VInt fence))
        "retention policy fence mismatch";
  verification ← verifyRetentionCheckpoint checkpoint no_options;
  _ ← guard_exc (match verification with RetentionOk _ => true | _ => false end)
        "invalid retention checkpoint";
  let cp k := vget_opt checkpoint k in
  _ ← guard_exc (strict_eq (cp "tenantId") (VStr tenantId) && strict_eq (cp "chainKind") (VStr "audit"))
        "checkpoint tenant or chain kind mismatch";
  let checkpoints := checkpoints_of s tenantId in
  let previous k := match last checkpoints with Some p => vget_opt p k | None => VNull end in
  _ ← guard_exc (strict_eq (cp "epoch") (VInt (Z.of_nat (length checkpoints) + 1))
                 && strict_eq (cp "previousCheckpointHash") (previous "hash")
                 && strict_eq (cp "fromSequence") (VInt (minimumRetainedSequence current))
                 && strict_eq (cp "fromPreviousHash") (previous "throughHash"))
        "checkpoint prefix or prior checkpoint mismatch";
  let from := default 0%Z (int_of (cp "fromSequence")) in
  let through := default 0%Z (int_of (cp "throughSequence")) in
  _ ← guard_exc (through <=? authoritativeTipSequence current)%Z
        "checkpoint range exceeds authoritative tip";
  let covered := sort_by sequence_leb
                   (filter (λ r, in_range_of tenantId from through r = true) (records s)) in
  _ ← guard_exc (strict_eq (VInt (Z.of_nat (length covered))) (cp "recordCount"))
        "checkpoint range is not an intact hot prefix";
  lastHash ← check_covered from (cp "fromPreviousHash") covered;
  _ ← guard_exc (strict_eq lastHash (cp "throughHash"))
        "checkpoint throughHash does not match authoritative boundary";
  stored ← json_clone checkpoint;
  Ret (Store
         (filter (λ r, in_range_of tenantId from through r = false) (records s))
         (fold_left drop_entry covered (idempotencyRecords s))
         (<[tenantId := ChainState (authoritativeTipSequence current) (authoritativeTipHash current)
                          (through + 1) (str_of (cp "hash")) (retentionPolicyFence current)]>
            (tenantChainStates s))
         (<[tenantId := checkpoints ++ [stored]]> (tenantCheckpoints s))
         (tenantDispositionAttempts s) (tenantDispositions s)).

Definition listCheckpoints (s : store) (scope : val) : exc (list val) :=
  tenantId ← scope_tenant scope; mapE json_clone (checkpoints_of s tenantId).

(** [/^[A-Za-z0-9._:-]{1,128}$/] is the pattern of retention ids too. *)
Definition RETENTION_ATTEMPT_KEYS : list string := ["attemptId"; "checkpointHash"; "policyFence"; "status"].

Definition assertDispositionAttempt (attempt : val) : exc unit :=
  if negb (match attempt with VObj _ | VArr _ | VDate _ => true | _ => false end) then
    Throw "invalid disposition attempt" else
  let keys := own_keys attempt in
  _ ← guard_exc ((length keys =? length RETENTION_ATTEMPT_KEYS)%nat
                 && forallb (λ k, bool_decide (k ∈ RETENTION_ATTEMPT_KEYS)) keys)
        "invalid disposition attempt fields";
  _ ← guard_exc (match vget_opt attempt "attemptId" with VStr s => re_test ID_PATTERN s | _ => false end)
        "attempt.attemptId is invalid";
  ok ← regex_test HASH_PATTERN (vget_opt attempt "checkpointHash");
  _ ← guard_exc ok "attempt.checkpointHash must be lowercase sha256";
  _ ← assertRetentionPolicyFence (vget_opt attempt "policyFence");
  guard_exc (strict_eq (vget_opt attempt "status") (VStr "pending")
             || strict_eq (vget_opt attempt "status") (VStr "disposed")) "attempt.status is invalid".

Definition find_checkpoint (s : store) (tenantId hash : string) : option val :=
  snd <$> list_find (λ c, strict_eq (vget_opt c "hash") (VStr hash) = true) (checkpoints_of s tenantId).

Definition attempts_of (s : store) (tenantId : string) : gmap string DispositionAttempt :=
  default ∅ (tenantDispositionAttempts s !! tenantId).
Definition dispositions_of (s : store) (tenantId : string) : gmap string val :=
  default ∅ (tenantDispositions s !! tenantId).

(** The attempt an accepted pending attempt object denotes. *)
Definition read_pending (attempt : val) (checkpointHash : string) (fence : Z) : DispositionAttempt :=
  Attempt (default "" (str_of (vget_opt attempt "attemptId"))) checkpointHash fence Pending.

Definition prepareDisposition (s : store) (scope checkpointHash attempt expectedPolicyFence : val)
    : exc (store * DispositionAttempt) :=
  tenantId ← scope_tenant scope;
  _ ← assertNonEmpty checkpointHash "checkpointHash";
  let hash := default "" (str_of checkpointHash) in
  _ ← assertDispositionAttempt attempt;
  expected ← assertRetentionPolicyFence expectedPolicyFence;
  current ← chainState s tenantId;
  _ ← guard_exc ((retentionPolicyFence current =? expected)%Z
                 && strict_eq (vget_opt attempt "policyFence") (VInt expected))
        "retention policy fence mismatch";
  _ ← guard_exc (strict_eq (vget_opt attempt "status") (VStr "pending")
                 && strict_eq (vget_opt attempt "checkpointHash") (VStr hash))
        "disposition attempt binding mismatch";
  match find_checkpoint s tenantId hash with
  | None => Throw "disposition checkpoint not found"
  | Some _ =>
      match dispositions_of s tenantId !! hash with
      | Some _ => Throw "checkpoint disposition already confirmed"
      | None =>
          let a := read_pending attempt hash expected in
          let stored := Store (records s) (idempotencyRecords s) (tenantChainStates s)
                          (tenantCheckpoints s)
                          (<[tenantId := <[hash := a]> (attempts_of s tenantId)]>
                             (tenantDispositionAttempts s))
                          (tenantDispositions s) in
          match attempts_of s tenantId !! hash with
          | None => Ret (stored, a)
          | Some existing =>
              existing_text ← canonicalJson (attempt_val existing);
              attempt_text ← canonicalJson attempt;
              if bool_decide (existing_text = attempt_text) then Ret (s, existing)
              else if negb (bool_decide (status existing = Pending)) || (expected <=? policyFence existing)%Z
              then Throw "disposition attempt conflict"
              else Ret (stored, a)
          end
      end
  end.

Definition confirmDisposition (s : store) (scope receipt expectedAttemptId expectedPolicyFence : val)
    : exc store :=
  tenantId ← scope_tenant scope;
  _ ← assertNonEmpty expectedAttemptId "expectedAttemptId";
  expected ← assertRetentionPolicyFence expectedPolicyFence;
  current ← chainState s tenantId;
  _ ← guard_exc (retentionPolicyFence current =? expected)%Z "retention policy fence mismatch";
  checkpointHash ← vget receipt "checkpointHash";
  match (match checkpointHash with VStr h => (h,.) <$> attempts_of s tenantId !! h | _ => None end) with
  | None => Throw "disposition attempt mismatch"
  | Some (hash, attempt) =>
      _ ← guard_exc (strict_eq expectedAttemptId (VStr (attemptId attempt))) "disposition attempt mismatch";
      _ ← guard_exc ((policyFence attempt =? expected)%Z
                     && String.eqb (attempt_checkpointHash attempt) hash)
            "disposition attempt fence mismatch";
      match find_checkpoint s tenantId hash with
      | None => Throw "disposition checkpoint not found"
      | Some checkpoint =>
          match dispositions_of s tenantId !! hash with
          | Some existing =>
              same ← (if bool_decide (status attempt = Disposed) then
                        existing_text ← canonicalJson existing;
                        receipt_text ← canonicalJson receipt;
                        Ret (bool_decide (existing_text = receipt_text))
                      else Ret false);
              if same : bool then Ret s else Throw "conflicting disposition receipt"
          | None =>
              _ ← guard_exc (bool_decide (status attempt = Pending)) "disposition attempt is not pending";
              verification ← verifyRetentionDisposition receipt checkpoint no_options;
              _ ← guard_exc (match verification with RetentionOk _ => true | _ => false end)
                    "invalid retention disposition";
              stored ← json_clone receipt;
              Ret (Store (records s) (idempotencyRecords s) (tenantChainStates s) (tenantCheckpoints s)
                     (<[tenantId := <[hash := Attempt (attemptId attempt) (attempt_checkpointHash attempt)
                                                (policyFence attempt) Disposed]>
                                      (attempts_of s tenantId)]> (tenantDispositionAttempts s))
                     (<[tenantId := <[hash := stored]> (dispositions_of s tenantId)]>
                        (tenantDispositions s)))
          end
      end
  end.

Definition listDispositions (s : store) (scope : val) : exc (list val) :=
  tenantId ← scope_tenant scope;
  mapE json_clone
    (omap (λ c, match vget_opt c "hash" with
                | VStr h => dispositions_of s tenantId !! h | _ => None end)
       (checkpoints_of s tenantId)).

(** [records()]: a snapshot of all tenants' hot records. *)
Definition store_records (s : store) : exc (list val) := mapE json_clone (records s).
End Store.
