(* ===== verification/StoreHistory.v ===== *)
(** * Histories of the in-memory audit store

    What every sequence of calls on a MemoryAuditStore guarantees: the store holds
    the retained suffix of one valid hash chain per tenant, anchored at the last
    checkpoint; appends are idempotent, and tenants do not interfere. *)

From S2P Require Import Prelude Regex JsNum JsVal Dates JsonText Hash Sha256 Canonical.
From S2P Require Import Keyed Redact AuditChain ChainModes Event Retention Store.

#[local] Arguments num_of_Z : simpl never.

Section Histories.
Context `{Hasher} `{Host} `{Base64}.

(** The calls that change the store, by the tenant they are made for; events,
    checkpoints and receipts are JSON data, as their types declare. *)
Inductive store_step (t : string) (s : store) : store → Prop :=
| step_append now event options s' r :
    is_json event = true → requireTenantId event = Ret t →
    append now s event options = Ret (s', r) → store_step t s s'
| step_advance scope v s' fence :
    scope_tenant scope = Ret t →
    advanceRetentionPolicyFence s scope v = Ret (s', fence) → store_step t s s'
| step_compact scope checkpoint expected fence s' :
    scope_tenant scope = Ret t → is_json checkpoint = true →
    compactRange s scope checkpoint expected fence = Ret s' → store_step t s s'
| step_prepare scope h attempt fence s' a :
    scope_tenant scope = Ret t →
    prepareDisposition s scope h attempt fence = Ret (s', a) → store_step t s s'
| step_confirm scope receipt id fence s' :
    scope_tenant scope = Ret t → is_json receipt = true →
    confirmDisposition s scope receipt id fence = Ret s' → store_step t s s'.

Definition some_step (s s' : store) : Prop := ∃ t, store_step t s s'.

Definition reachable (s : store) : Prop := rtc some_step empty_store s.

Definition state_of (s : store) (t : string) : AuditChainState :=
  default genesis_state (tenantChainStates s !! t).

(** The records of a tenant that are still in the store. *)
Definition hot (s : store) (t : string) : list val := filter (λ r, of_tenant t r = true) (records s).

(** The last checkpoint [cp] of tenant [t] anchors the history [hist] at the
    first retained sequence. *)
Definition anchored (hist : list val) (t : string) (st : AuditChainState) (cp : val) : Prop :=
  let n := (minimumRetainedSequence st - 1)%Z in
  ∃ h hash sig,
    verifyRetentionCheckpoint cp no_options = Ret (RetentionOk sig) ∧
    vget_opt cp "tenantId" = VStr t ∧
    int_of (vget_opt cp "throughSequence") = Some n ∧ vget_opt cp "throughHash" = VStr h ∧
    chain (take (Z.to_nat n) hist) (VStr h) n ∧
    vget_opt cp "hash" = VStr hash ∧ latestCheckpointHash st = Some hash.

(** [hist] is everything tenant [t] ever appended: one valid chain that ends at
    the authoritative tip, of which the store keeps the part from the first
    retained sequence on. *)
Record history (t : string) (kept : list val) (st : AuditChainState) (cps : list val)
    (hist : list val) : Prop := {
  hist_chain : chain hist (vnull_or_str (authoritativeTipHash st)) (authoritativeTipSequence st);
  hist_envelope : Forall (λ r, envelope Audit r t) hist;
  hist_min : (1 ≤ minimumRetainedSequence st ≤ authoritativeTipSequence st + 1)%Z;
  hist_kept : kept = drop (Z.to_nat (minimumRetainedSequence st - 1)) hist;
  hist_fence : (0 ≤ retentionPolicyFence st ≤ max_safe_integer)%Z;
  hist_anchor : match last cps with
                | None => minimumRetainedSequence st = 1%Z ∧ latestCheckpointHash st = None
                | Some cp => (1 < minimumRetainedSequence st)%Z ∧ anchored hist t st cp
                end;
}.

Definition history_of (s : store) (t : string) : list val → Prop :=
  history t (hot s t) (state_of s t) (checkpoints_of s t).

Definition store_ok (s : store) : Prop := ∀ t, t ≠ "" → ∃ hist, history_of s t hist.

(** ** The operations, case by case *)

Lemma json_clone_json v : is_json v = true → json_clone v = Ret v.
Proof.
  intros Hv. unfold json_clone. rewrite json_stringify_json by done.
  rewrite (parse_stringify v); [done|done|]. by apply json_stringify_json.
Qed.

Lemma chainState_ret s t st : chainState s t = Ret st → st = state_of s t.
Proof. unfold chainState, state_of. intros ([] & _ & [= <-])%bind_ret. done. Qed.

Lemma scope_tenant_ret scope t : scope_tenant scope = Ret t → vget scope "tenantId" = Ret (VStr t) ∧ blank t = false.
Proof.
  unfold scope_tenant. intros (v & Hv & E)%bind_ret. destruct v as [| | | |s| | | |]; try done.
  destruct (blank s) eqn:Hb; [done|]. by injection E as <-.
Qed.

Lemma requireTenantId_ret event t :
  requireTenantId event = Ret t →
  (∃ scope, vget event "scope" = Ret scope ∧ vget_opt scope "tenantId" = VStr t) ∧ blank t = false.
Proof.
  unfold requireTenantId. intros (v & Hv & E)%bind_ret.
  destruct (vget_opt v "tenantId") as [| | | |s| | | |] eqn:Et; try done.
  destruct (blank s) eqn:Hb; [done|]. injection E as <-. eauto.
Qed.

(** The record an append creates. *)
Definition new_record (event : val) (st : AuditChainState) (now : Z) (keyHash hash : string) : val :=
  VObj (record_fields event (authoritativeTipSequence st + 1) (authoritativeTipHash st)
          (toISOString now) keyHash ++ [("hash", VStr hash)]).

Definition appended (s : store) (t keyHash canonicalHash hash : string) (record : val) : store :=
  let st := state_of s t in
  Store (records s ++ [record])
    (<[keyHash := IdempotencyEntry canonicalHash (authoritativeTipSequence st + 1) hash (Some record)]>
       (idempotencyRecords s))
    (<[t := ChainState (authoritativeTipSequence st + 1) (Some hash) (minimumRetainedSequence st)
              (latestCheckpointHash st) (retentionPolicyFence st)]> (tenantChainStates s))
    (tenantCheckpoints s) (tenantDispositionAttempts s) (tenantDispositions s).

Lemma new_record_json event st now keyHash hash :
  is_json event = true → is_json (new_record event st now keyHash hash) = true.
Proof.
  intros He. apply is_json_obj. split; [reflexivity|].
  unfold record_fields. destruct (authoritativeTipHash st);
    repeat first [apply Forall_nil_2 | apply Forall_cons_2; [first [exact He|apply is_json_int|reflexivity]|]].
Qed.

(** The digest of an event's canonical text. *)
Definition event_digest (event : val) : exc string := text ← canonicalJson event; sha256HexOpt text.

(** The idempotency key an append is made under. *)
Definition append_key (t : string) (event : val) (options : AuditStoreAppendOptions) : exc string :=
  hashIdempotencyKey (VStr t) (nullish_or (idempotencyKey options) (vget_opt event "id")).

(** What an append did: a replay of a stored record, or one more record. *)
Lemma append_ret now s event options s' r :
  is_json event = true → append now s event options = Ret (s', r) →
  ∃ t k c, requireTenantId event = Ret t ∧ (append_key t event options = Ret k ∧ event_digest event = Ret c) ∧
    ((∃ e record, idempotencyRecords s !! k = Some e ∧ entry_record e = Some record ∧
        eventCanonicalHash e = c ∧ s' = s ∧ json_clone record = Ret r) ∨
     (idempotencyRecords s !! k = None ∧ ∃ hash,
        hashAuditRecord (VObj (record_fields event (authoritativeTipSequence (state_of s t) + 1)
          (authoritativeTipHash (state_of s t)) (toISOString now) k)) = Ret hash ∧
        r = new_record event (state_of s t) now k hash ∧ s' = appended s t k c hash r)).
Proof.
  intros Hj E. unfold append in E. apply bind_ret in E as (t & Ht & E). apply bind_ret in E as (id & Hid & E).
  apply vget_obj_opt in Hid as Hid'. apply bind_ret in E as (k & Hk & E).
  apply bind_ret in E as (o & Ho & E). apply bind_ret in E as (c & Hcd & E).
  rewrite json_clone_json in E by done. cbn [mbind exc_mbind] in E.
  exists t, k, c. split; [done|].
  split; [unfold append_key, event_digest; rewrite Hid', Ho; by split|].
  destruct (idempotencyRecords s !! k) as [e|] eqn:El; [left|right].
  - destruct (String.eqb _ c) eqn:Ec; [cbn [negb] in E|done]. apply String.eqb_eq in Ec.
    destruct (entry_record e) as [record|] eqn:Er; [|done].
    apply bind_ret in E as (cl & Hcl & [= <- <-]). by exists e, record.
  - split; [done|]. apply bind_ret in E as (st & ->%chainState_ret & E).
    apply bind_ret in E as ([] & _ & E). apply bind_ret in E as (hash & Hh & E).
    exists hash. split; [done|].
    change (VObj (_ ++ [("hash", VStr hash)])) with (new_record event (state_of s t) now k hash) in E.
    rewrite json_clone_json in E by by apply new_record_json.
    injection E as <- <-. done.
Qed.

(** The new record continues its tenant's chain. *)
Lemma new_record_link t st event now k hash :
  requireTenantId event = Ret t →
  hashAuditRecord (VObj (record_fields event (authoritativeTipSequence st + 1)
    (authoritativeTipHash st) (toISOString now) k)) = Ret hash →
  link (vnull_or_str (authoritativeTipHash st)) (authoritativeTipSequence st)
    (new_record event st now k hash) hash ∧
  envelope Audit (new_record event st now k hash) t ∧
  of_tenant t (new_record event st now k hash) = true.
Proof.
  intros ((scope & Hsc & Ht) & Hb)%requireTenantId_ret Hh. split_and!.
  - constructor; [done|done|done|]. by apply (hashRecord_text Audit) in Hh.
  - constructor; [|done|done]. exists event, scope. split_and!; [done|done|done|].
    intros ->. done.
  - unfold of_tenant, record_tenant. change (vget_opt (new_record _ _ _ _ _) "event") with event.
    rewrite (vget_obj_opt _ _ _ Hsc), Ht. apply strict_eq_str_refl.
Qed.

Lemma of_tenant_unique t t' r : of_tenant t r = true → of_tenant t' r = true → t = t'.
Proof. unfold of_tenant. rewrite !strict_eq_str. congruence. Qed.

Lemma envelope_of_tenant t r : envelope Audit r t → of_tenant t r = true.
Proof.
  intros [(ev & sc & Hev & Hsc & Ht & _) _ _]. unfold of_tenant, record_tenant. cbn in Hev.
  rewrite (vget_obj_opt _ _ _ Hev), (vget_obj_opt _ _ _ Hsc), Ht. apply strict_eq_str_refl.
Qed.

(** *** Ranges of numbered records *)

Definition numbered (k : Z) (l : list val) : Prop :=
  ∀ i r, l !! i = Some r → record_sequence r = (k + Z.of_nat i)%Z.

Lemma numbered_cons k r l : numbered k (r :: l) ↔ record_sequence r = k ∧ numbered (k + 1) l.
Proof.
  split.
  - intros Hn. split; [rewrite (Hn O r eq_refl); lia|]. intros i x Hi. rewrite (Hn (S i) x Hi). lia.
  - intros [Hr Hn] [|i] x Hi; [injection Hi as <-; lia|]. rewrite (Hn i x Hi). lia.
Qed.

Lemma numbered_sorted k l : numbered k l → sortedb sequence_leb l ∧ Forall (λ r, k ≤ record_sequence r)%Z l.
Proof.
  revert k. induction l as [|r l IH]; intros k; [by repeat constructor|].
  intros [Hr [Hs Hf]%IH]%numbered_cons. split.
  - constructor; [done|]. eapply Forall_impl; [exact Hf|]. intros x Hx. unfold sequence_leb. cbn in Hx.
    apply Z.leb_le. lia.
  - constructor; [lia|]. eapply Forall_impl; [exact Hf|]. intros x Hx. cbn in Hx. lia.
Qed.

Lemma numbered_range from thr l :
  numbered from l →
  filter (λ r, ((from <=? record_sequence r) && (record_sequence r <=? thr) = true)%Z) l =
    take (Z.to_nat (thr - from + 1)) l ∧
  filter (λ r, ((from <=? record_sequence r) && (record_sequence r <=? thr) = false)%Z) l =
    drop (Z.to_nat (thr - from + 1)) l.
Proof.
  assert (∀ k, (from ≤ k)%Z → numbered k l →
    filter (λ r, ((from <=? record_sequence r) && (record_sequence r <=? thr) = true)%Z) l =
      take (Z.to_nat (thr - k + 1)) l ∧
    filter (λ r, ((from <=? record_sequence r) && (record_sequence r <=? thr) = false)%Z) l =
      drop (Z.to_nat (thr - k + 1)) l) as Hk; [|apply Hk; lia].
  induction l as [|r l IH]; intros k Hle Hn; [by rewrite take_nil, drop_nil|].
  apply numbered_cons in Hn as [Hr Hn]. destruct (IH (k + 1)%Z ltac:(lia) Hn) as [E1 E2].
  rewrite !filter_cons, Hr, (proj2 (Z.leb_le _ _) Hle). cbn [andb].
  destruct (k <=? thr)%Z eqn:E.
  - apply Z.leb_le in E. rewrite decide_True, decide_False by done. rewrite E1, E2.
    replace (Z.to_nat (thr - k + 1)) with (S (Z.to_nat (thr - (k + 1) + 1))) by lia. done.
  - apply Z.leb_gt in E. rewrite decide_False, decide_True by done. rewrite E1, E2.
    replace (Z.to_nat (thr - k + 1)) with O by lia.
    by replace (Z.to_nat (thr - (k + 1) + 1)) with O by lia.
Qed.

Lemma chain_numbered hist tip n : chain hist tip n → numbered 1 hist.
Proof.
  intros C i r Hi. pose proof (chain_sequences _ _ _ _ _ C Hi) as Hs. unfold record_sequence.
  rewrite (vget_obj_opt _ _ _ Hs), int_of_VInt. cbn. lia.
Qed.

Lemma numbered_drop k n l : numbered k l → numbered (k + Z.of_nat n) (drop n l).
Proof. intros Hn i r Hi. rewrite lookup_drop in Hi. rewrite (Hn _ _ Hi). lia. Qed.

Lemma kept_numbered t kept st cps hist :
  history t kept st cps hist → numbered (minimumRetainedSequence st) kept.
Proof.
  intros [C _ Hm -> _ _]. apply chain_numbered in C.
  pose proof (numbered_drop _ (Z.to_nat (minimumRetainedSequence st - 1)) _ C) as Hn.
  by replace (1 + Z.of_nat (Z.to_nat (minimumRetainedSequence st - 1)))%Z
    with (minimumRetainedSequence st) in Hn by lia.
Qed.

(** *** Preservation *)

Lemma history_append t kept st cps hist r hash :
  history t kept st cps hist →
  link (vnull_or_str (authoritativeTipHash st)) (authoritativeTipSequence st) r hash →
  envelope Audit r t →
  history t (kept ++ [r])
    (ChainState (authoritativeTipSequence st + 1) (Some hash) (minimumRetainedSequence st)
       (latestCheckpointHash st) (retentionPolicyFence st)) cps (hist ++ [r]).
Proof.
  intros [C E M -> F A] L En. pose proof (chain_length _ _ _ C) as Hlen.
  constructor; cbn [authoritativeTipSequence authoritativeTipHash minimumRetainedSequence
                    latestCheckpointHash retentionPolicyFence]; try done.
  - by apply chain_snoc with (tip := vnull_or_str (authoritativeTipHash st)).
  - apply Forall_app. split; [done|by apply Forall_singleton].
  - lia.
  - rewrite drop_app_le; [done|lia].
  - destruct (last cps) as [cp|]; [|done]. destruct A as [Hlt (h & ch & sig & A)]. split; [done|].
    exists h, ch, sig. cbn [minimumRetainedSequence latestCheckpointHash].
    rewrite take_app_le; [done|lia].
Qed.

Lemma history_fence t kept st cps hist fence :
  history t kept st cps hist → (0 ≤ fence ≤ max_safe_integer)%Z →
  history t kept (ChainState (authoritativeTipSequence st) (authoritativeTipHash st)
    (minimumRetainedSequence st) (latestCheckpointHash st) fence) cps hist.
Proof. intros [C E M K F A] Hf. by constructor. Qed.

Lemma chain_last_hash rs tip n r : chain rs tip n → last rs = Some r → vget_opt r "hash" = tip.
Proof.
  intros C Hl. destruct C as [|rs tip n r' h C L]; [done|]. rewrite last_snoc in Hl. injection Hl as <-.
  apply vget_obj_opt, (link_hash _ _ _ _ L).
Qed.

Lemma check_covered_last l : ∀ n p v,
  check_covered n p l = Ret v → match last l with None => v = p | Some r => vget_opt r "hash" = v end.
Proof.
  induction l as [|r l IH]; intros n p v E; [by injection E|]. cbn [check_covered] in E.
  destruct (negb _ || _); [done|]. apply bind_ret in E as (h & _ & E).
  destruct (negb _); [done|]. apply IH in E. rewrite last_cons. by destruct (last l).
Qed.

(** A prefix of the records kept, archived by an accepted checkpoint. *)
Lemma history_compact t kept st cps hist cp through sig h ch lastHash prev :
  history t kept st cps hist →
  verifyRetentionCheckpoint cp no_options = Ret (RetentionOk sig) →
  vget_opt cp "tenantId" = VStr t → int_of (vget_opt cp "throughSequence") = Some through →
  vget_opt cp "throughHash" = VStr h → vget_opt cp "hash" = VStr ch →
  (minimumRetainedSequence st ≤ through ≤ authoritativeTipSequence st)%Z →
  check_covered (minimumRetainedSequence st) prev
    (take (Z.to_nat (through - minimumRetainedSequence st + 1)) kept) = Ret lastHash →
  lastHash = VStr h →
  history t (drop (Z.to_nat (through - minimumRetainedSequence st + 1)) kept)
    (ChainState (authoritativeTipSequence st) (authoritativeTipHash st) (through + 1) (Some ch)
       (retentionPolicyFence st)) (cps ++ [cp]) hist.
Proof.
  intros [C E M -> F A] Hv Ht Hth Hh Hch Hr Hcov ->. pose proof (chain_length _ _ _ C) as Hlen.
  set (m := minimumRetainedSequence st) in *.
  constructor; cbn [authoritativeTipSequence authoritativeTipHash minimumRetainedSequence
                    latestCheckpointHash retentionPolicyFence]; try done.
  - lia.
  - rewrite drop_drop. f_equal. lia.
  - rewrite last_snoc. split; [lia|]. exists h, ch, sig.
    cbn [minimumRetainedSequence latestCheckpointHash]. replace (through + 1 - 1)%Z with through by lia.
    split_and!; try done.
    rewrite <- (take_drop (Z.to_nat through) hist) in C.
    destruct (chain_app_inv _ _ _ _ C) as (tip & n & C').
    pose proof (chain_length _ _ _ C') as Hn. rewrite length_take in Hn.
    replace n with through in C' by lia.
    assert (last (take (Z.to_nat (through - m + 1)) (drop (Z.to_nat (m - 1)) hist)) =
            last (take (Z.to_nat through) hist)) as El.
    { rewrite !last_lookup, !length_take, length_drop, !lookup_take_lt, lookup_drop by lia. f_equal. lia. }
    apply check_covered_last in Hcov. rewrite El in Hcov.
    destruct (last (take (Z.to_nat through) hist)) as [r|] eqn:Er.
    + pose proof (chain_last_hash _ _ _ _ C' Er) as Ehash. by rewrite <- Hcov, Ehash.
    + apply last_None in Er. apply (f_equal length) in Er. rewrite length_take in Er. cbn in Er. lia.
Qed.

(** The records a compaction for tenant [t] covers, and those it leaves. *)
Lemma compact_kept s t from thr :
  numbered from (hot s t) →
  let covered := filter (λ r, in_range_of t from thr r = true) (records s) in
  let rest := filter (λ r, in_range_of t from thr r = false) (records s) in
  sort_by sequence_leb covered = take (Z.to_nat (thr - from + 1)) (hot s t) ∧
  filter (λ r, of_tenant t r = true) rest = drop (Z.to_nat (thr - from + 1)) (hot s t) ∧
  ∀ t', t' ≠ t → filter (λ r, of_tenant t' r = true) rest = hot s t'.
Proof.
  intros Hn. cbn zeta. destruct (numbered_range from thr _ Hn) as [E1 E2]. split_and!.
  - rewrite <- E1. unfold hot. rewrite list_filter_filter.
    rewrite (list_filter_iff (λ r, in_range_of t from thr r = true)
      (λ r, ((from <=? record_sequence r)%Z && (record_sequence r <=? thr)%Z = true) ∧ of_tenant t r = true)).
    2:{ intros r. unfold in_range_of. rewrite !andb_true_iff. tauto. }
    rewrite <- list_filter_filter. fold (hot s t). rewrite E1. apply sort_by_id.
    apply (numbered_sorted from). intros i r Hi. apply lookup_take_Some in Hi as [Hi _]. by apply Hn.
  - rewrite <- E2. unfold hot. rewrite !list_filter_filter. apply list_filter_iff. intros r.
    unfold in_range_of. destruct (of_tenant t r); cbn; [|intuition congruence].
    destruct (_ && _)%bool; intuition congruence.
  - intros t' Hne. unfold hot. rewrite list_filter_filter. apply list_filter_iff. intros r.
    unfold in_range_of. split; [tauto|]. intros Ht'. split; [done|].
    destruct (of_tenant t r) eqn:Et; [|done]. exfalso. by apply Hne, (of_tenant_unique _ _ r).
Qed.

(** What an accepted compaction did. *)
Definition compacted (s : store) (t : string) (from through : Z) (ch : string) (cp : val) : store :=
  let st := state_of s t in
  Store (filter (λ r, in_range_of t from through r = false) (records s))
    (fold_left drop_entry
       (sort_by sequence_leb (filter (λ r, in_range_of t from through r = true) (records s)))
       (idempotencyRecords s))
    (<[t := ChainState (authoritativeTipSequence st) (authoritativeTipHash st) (through + 1) (Some ch)
              (retentionPolicyFence st)]> (tenantChainStates s))
    (<[t := checkpoints_of s t ++ [cp]]> (tenantCheckpoints s))
    (tenantDispositionAttempts s) (tenantDispositions s).

Lemma compactRange_ret s scope cp expected fence s' :
  is_json cp = true → compactRange s scope cp expected fence = Ret s' →
  ∃ t through sig h ch prev,
    scope_tenant scope = Ret t ∧ verifyRetentionCheckpoint cp no_options = Ret (RetentionOk sig) ∧
    vget_opt cp "tenantId" = VStr t ∧ int_of (vget_opt cp "throughSequence") = Some through ∧
    vget_opt cp "throughHash" = VStr h ∧ vget_opt cp "hash" = VStr ch ∧
    (minimumRetainedSequence (state_of s t) ≤ through ≤ authoritativeTipSequence (state_of s t))%Z ∧
    check_covered (minimumRetainedSequence (state_of s t)) prev
      (sort_by sequence_leb (filter (λ r,
         in_range_of t (minimumRetainedSequence (state_of s t)) through r = true) (records s)))
      = Ret (VStr h) ∧
    s' = compacted s t (minimumRetainedSequence (state_of s t)) through ch cp.
Proof.
  intros Hj E. unfold compactRange in E. apply bind_ret in E as (t & Hs & E).
  apply bind_ret in E as (f & _ & E). apply bind_ret in E as ([] & _ & E).
  apply bind_ret in E as (st & ->%chainState_ret & E).
  apply bind_ret in E as ([] & _ & E). apply bind_ret in E as ([] & _ & E).
  apply bind_ret in E as (ver & Hv & E). apply bind_ret in E as ([] & Hok%guard_ret & E).
  destruct ver as [sig|]; [|done]. apply verifyCheckpointAt_ok in Hv as Hacc.
  destruct Hacc as (ch & [_ Ha [_ Hch]] & _). apply assertCheckpointInput_ret in Ha as (t' & e & fr & thr & h & V).
  apply bind_ret in E as ([] & Ht%guard_ret & E). apply bind_ret in E as ([] & Hf%guard_ret & E).
  apply bind_ret in E as ([] & Hthr%guard_ret & E). apply bind_ret in E as ([] & _ & E).
  apply andb_prop in Ht as [Ht%strict_eq_str _]. apply andb_prop in Hf as [Hf _].
  apply andb_prop in Hf as [_ Hf%strict_eq_int].
  pose proof (vc_from _ _ _ _ _ _ V) as Vf. rewrite Hf, int_of_VInt in Vf. injection Vf as <-.
  rewrite Hf, int_of_VInt, (vc_through _ _ _ _ _ _ V), Hch in *. cbn [default str_of] in *.
  apply bind_ret in E as (lastHash & Hcov & E). apply bind_ret in E as ([] & Hl%guard_ret & E).
  pose proof (vc_throughHash _ _ _ _ _ _ V) as [Hh _]. rewrite Hh in Hl. apply strict_eq_str in Hl as ->.
  rewrite json_clone_json in E by done. injection E as <-.
  pose proof (vc_range _ _ _ _ _ _ V) as Hr. apply Z.leb_le in Hthr.
  exists t, thr, sig, h, ch, (vget_opt cp "fromPreviousHash"). split_and!; try done. lia.
Qed.

(** The minimum of the expected state is the current one. *)
Lemma compactRange_expected s scope cp expected fence s' t :
  scope_tenant scope = Ret t → compactRange s scope cp expected fence = Ret s' →
  vget_opt expected "minimumRetainedSequence" = VInt (minimumRetainedSequence (state_of s t)).
Proof.
  intros Hs E. unfold compactRange in E. rewrite Hs in E. cbn [mbind exc_mbind] in E.
  apply bind_ret in E as (f & _ & E). apply bind_ret in E as ([] & _ & E).
  apply bind_ret in E as (st & ->%chainState_ret & E).
  apply bind_ret in E as ([] & He%guard_ret & _). unfold auditChainStatesEqual in He.
  apply andb_prop in He as [He _]. apply andb_prop in He as [He _]. apply andb_prop in He as [_ He].
  by apply strict_eq_int_l in He.
Qed.

Lemma advance_ret s scope v s' fence :
  advanceRetentionPolicyFence s scope v = Ret (s', fence) →
  ∃ t, scope_tenant scope = Ret t ∧ non_negative_safe v = Some (retentionPolicyFence (state_of s t)) ∧
    fence = (retentionPolicyFence (state_of s t) + 1)%Z ∧ (0 < fence ≤ max_safe_integer)%Z ∧
    s' = set_chain_state t (ChainState (authoritativeTipSequence (state_of s t))
           (authoritativeTipHash (state_of s t)) (minimumRetainedSequence (state_of s t))
           (latestCheckpointHash (state_of s t)) fence) s.
Proof.
  unfold advanceRetentionPolicyFence. intros E. apply bind_ret in E as (t & Hs & E).
  apply bind_ret in E as (ex & He & E). apply bind_ret in E as (st & ->%chainState_ret & E).
  apply bind_ret in E as ([] & Hf%guard_ret & E). apply bind_ret in E as ([] & Hm%guard_ret & E).
  injection E as <- <-. apply Z.eqb_eq in Hf. apply Z.leb_le in Hm.
  unfold assertRetentionPolicyFence in He. destruct (non_negative_safe v) as [z|] eqn:Ez; [|done].
  injection He as ->. exists t. split_and!; try done; [by rewrite Hf|].
  unfold non_negative_safe in Ez. destruct v as [| | |n| | | | |]; try done.
  destruct (num_int n) as [z|]; [|done]. destruct (is_safe_integer n && _) eqn:Eb in Ez; [|done].
  injection Ez as ->. bool_prop. lia.
Qed.

Definition with_attempt (s : store) (t h : string) (a : DispositionAttempt) : store :=
  Store (records s) (idempotencyRecords s) (tenantChainStates s) (tenantCheckpoints s)
    (<[t := <[h := a]> (attempts_of s t)]> (tenantDispositionAttempts s)) (tenantDispositions s).

Definition with_receipt (s : store) (t h : string) (receipt : val) : store :=
  Store (records s) (idempotencyRecords s) (tenantChainStates s) (tenantCheckpoints s)
    (tenantDispositionAttempts s) (<[t := <[h := receipt]> (dispositions_of s t)]> (tenantDispositions s)).

Lemma prepare_ret s scope ch attempt fence s' a :
  prepareDisposition s scope ch attempt fence = Ret (s', a) →
  ∃ t h, scope_tenant scope = Ret t ∧ is_Some (find_checkpoint s t h) ∧
    dispositions_of s t !! h = None ∧
    ((s' = s ∧ attempts_of s t !! h = Some a) ∨
     (s' = with_attempt s t h a ∧ status a = Pending ∧ attempt_checkpointHash a = h ∧
      policyFence a = retentionPolicyFence (state_of s t) ∧
      ∀ a', attempts_of s t !! h = Some a' → status a' = Pending ∧ (policyFence a' < policyFence a)%Z)).
Proof.
  unfold prepareDisposition. intros E. apply bind_ret in E as (t & Hs & E).
  apply bind_ret in E as ([] & _ & E). apply bind_ret in E as ([] & _ & E).
  apply bind_ret in E as (ex & _ & E). apply bind_ret in E as (st & ->%chainState_ret & E).
  apply bind_ret in E as ([] & Hf%guard_ret & E). apply bind_ret in E as ([] & _ & E).
  apply andb_prop in Hf as [Hf%Z.eqb_eq _]. set (h := default "" (str_of ch)) in *.
  destruct (find_checkpoint s t h) as [c|] eqn:Ec; [|done].
  destruct (dispositions_of s t !! h) eqn:Ed; [done|].
  exists t, h. rewrite Ec. split; [done|]. split; [done|]. split; [done|].
  destruct (attempts_of s t !! h) as [old|] eqn:Ea.
  - apply bind_ret in E as (x & _ & E). apply bind_ret in E as (y & _ & E).
    destruct (bool_decide (x = y)); [left; by injection E as <- <-|].
    destruct (bool_decide (status old = Pending)) eqn:Ep; cbn [negb orb] in E; [|done].
    destruct (ex <=? policyFence old)%Z eqn:El; [done|]. injection E as <- <-. right.
    split_and!; [done|done|done|done|]. intros a' [= <-]. apply bool_decide_eq_true in Ep.
    apply Z.leb_gt in El. split; [done|]. cbn. lia.
  - injection E as <- <-. right. by split_and!.
Qed.

Lemma confirm_ret s scope receipt id fence s' :
  is_json receipt = true → confirmDisposition s scope receipt id fence = Ret s' →
  ∃ t, scope_tenant scope = Ret t ∧
    (s' = s ∨
     ∃ h a cp sig, vget_opt receipt "checkpointHash" = VStr h ∧ attempts_of s t !! h = Some a ∧
       status a = Pending ∧ id = VStr (attemptId a) ∧
       policyFence a = retentionPolicyFence (state_of s t) ∧ find_checkpoint s t h = Some cp ∧
       dispositions_of s t !! h = None ∧
       verifyRetentionDisposition receipt cp no_options = Ret (RetentionOk sig) ∧
       s' = with_receipt (with_attempt s t h (Attempt (attemptId a) h (policyFence a) Disposed)) t h receipt).
Proof.
  unfold confirmDisposition. intros Hj E. apply bind_ret in E as (t & Hs & E).
  apply bind_ret in E as ([] & _ & E). apply bind_ret in E as (ex & _ & E).
  apply bind_ret in E as (st & ->%chainState_ret & E). apply bind_ret in E as ([] & Hf%guard_ret & E).
  apply bind_ret in E as (cv & Hcv & E). exists t. split; [done|].
  destruct cv as [| | | |h| | | |]; try done. cbn in E.
  destruct (attempts_of s t !! h) as [a|] eqn:Ea; [cbn in E|done].
  apply bind_ret in E as ([] & Hi%guard_ret & E). apply bind_ret in E as ([] & Hp%guard_ret & E).
  apply strict_eq_str in Hi as ->. apply andb_prop in Hp as [Hp%Z.eqb_eq Hh%String.eqb_eq].
  apply Z.eqb_eq in Hf. destruct (find_checkpoint s t h) as [c|] eqn:Ec; [|done].
  destruct (dispositions_of s t !! h) as [old|] eqn:Ed.
  - apply bind_ret in E as ([] & _ & E); [|done]. left. by injection E.
  - apply bind_ret in E as ([] & Hst%guard_ret & E). apply bind_ret in E as (ver & Hv & E).
    apply bind_ret in E as ([] & Hok%guard_ret & E). destruct ver as [sig|]; [|done].
    rewrite json_clone_json in E by done. injection E as <-. right.
    exists h, a, c, sig. apply bool_decide_eq_true in Hst. apply vget_obj_opt in Hcv. rewrite Hh.
    split_and!; try done. congruence.
Qed.

(** *** Frames *)

Definition same_view (s s' : store) (t : string) : Prop :=
  hot s' t = hot s t ∧ state_of s' t = state_of s t ∧ checkpoints_of s' t = checkpoints_of s t ∧
  attempts_of s' t = attempts_of s t ∧ dispositions_of s' t = dispositions_of s t.

Lemma same_view_refl s t : same_view s s t.
Proof. done. Qed.

Lemma same_view_history s s' t hist : same_view s s' t → history_of s t hist → history_of s' t hist.
Proof. unfold history_of. by intros (-> & -> & -> & _). Qed.

Lemma appended_frame s t k c hash r t' :
  of_tenant t r = true → t' ≠ t → same_view s (appended s t k c hash r) t'.
Proof.
  intros Ht Hne. unfold same_view, hot, state_of, checkpoints_of, attempts_of, dispositions_of, appended. cbn.
  rewrite lookup_insert_ne by done. split_and!; try done. rewrite filter_app, filter_cons_False, app_nil_r; [done|].
  intros Hr. by apply Hne, (of_tenant_unique _ _ r).
Qed.

(** Only the tenant of a step is affected, provided its records are numbered as
    in a history. *)
Lemma step_frame t s s' t' :
  store_step t s s' → numbered (minimumRetainedSequence (state_of s t)) (hot s t) → t' ≠ t →
  same_view s s' t'.
Proof.
  intros Hstep Hn Hne. destruct Hstep as [now event o s' r Hj Ht E|scope v s' f Hs E|
    scope cp ex f s' Hs Hj E|scope h at_ f s' a Hs E|scope rc id f s' Hs Hj E].
  - apply append_ret in E as (t0 & k & c & Ht0 & _ & Hc); [|done]. rewrite Ht in Ht0. injection Ht0 as <-.
    destruct Hc as [(_ & _ & _ & _ & _ & -> & _)|(_ & hash & Hh & -> & ->)]; [done|].
    destruct (new_record_link _ _ _ _ _ _ Ht Hh) as (_ & _ & Hof). by apply appended_frame.
  - apply advance_ret in E as (t0 & Hs0 & _ & _ & _ & ->). rewrite Hs in Hs0. injection Hs0 as <-.
    unfold same_view, state_of, set_chain_state. cbn. by rewrite lookup_insert_ne by done.
  - apply compactRange_ret in E as (t0 & thr & _ & _ & ch & _ & Hs0 & _ & _ & _ & _ & _ & _ & _ & ->); [|done].
    rewrite Hs in Hs0. injection Hs0 as <-. destruct (compact_kept _ _ _ thr Hn) as (_ & _ & Hother).
    unfold same_view, hot, state_of, checkpoints_of, compacted. cbn.
    rewrite !lookup_insert_ne by done. by rewrite Hother.
  - apply prepare_ret in E as (t0 & h0 & Hs0 & _ & _ & Hc). rewrite Hs in Hs0. injection Hs0 as <-.
    destruct Hc as [[-> _]|[-> _]]; [done|]. unfold same_view, attempts_of, with_attempt. cbn.
    by rewrite lookup_insert_ne by done.
  - apply confirm_ret in E as (t0 & Hs0 & Hc); [|done]. rewrite Hs in Hs0. injection Hs0 as <-.
    destruct Hc as [->|(h & a & _ & _ & _ & _ & _ & _ & _ & _ & _ & _ & ->)]; [done|].
    unfold same_view, attempts_of, dispositions_of, with_receipt, with_attempt. cbn.
    by rewrite !lookup_insert_ne by done.
Qed.

(** *** Every reachable store has a history *)

Lemma scope_tenant_nonempty scope t : scope_tenant scope = Ret t → t ≠ "".
Proof. intros [_ Hb]%scope_tenant_ret ->. done. Qed.

Lemma step_nonempty t s s' : store_step t s s' → t ≠ "".
Proof.
  destruct 1; eauto using scope_tenant_nonempty.
  match goal with Hr : requireTenantId _ = _ |- _ => apply requireTenantId_ret in Hr as [_ Hb] end.
  by intros ->.
Qed.

Lemma state_of_appended s t k c hash r :
  state_of (appended s t k c hash r) t =
  ChainState (authoritativeTipSequence (state_of s t) + 1) (Some hash)
    (minimumRetainedSequence (state_of s t)) (latestCheckpointHash (state_of s t))
    (retentionPolicyFence (state_of s t)).
Proof. unfold state_of at 1, appended. cbn. by rewrite lookup_insert_eq. Qed.

Lemma state_of_set s t st : state_of (set_chain_state t st s) t = st.
Proof. unfold state_of, set_chain_state. cbn. by rewrite lookup_insert_eq. Qed.

Lemma compacted_view s t from thr ch cp :
  state_of (compacted s t from thr ch cp) t =
    ChainState (authoritativeTipSequence (state_of s t)) (authoritativeTipHash (state_of s t)) (thr + 1)
      (Some ch) (retentionPolicyFence (state_of s t)) ∧
  checkpoints_of (compacted s t from thr ch cp) t = checkpoints_of s t ++ [cp].
Proof. unfold state_of at 1, checkpoints_of at 1, compacted. cbn. by rewrite !lookup_insert_eq. Qed.

(** A step only extends the history of its tenant. *)
Lemma step_history t s s' hist :
  store_step t s s' → history_of s t hist →
  ∃ hist', history_of s' t hist' ∧ hist `prefix_of` hist'.
Proof.
  intros Hstep Hh. pose proof (kept_numbered _ _ _ _ _ Hh) as Hn.
  destruct Hstep as [now event o s' r Hj Ht E|scope v s' f Hs E|
    scope cp ex f s' Hs Hj E|scope h at_ f s' a Hs E|scope rc id f s' Hs Hj E].
  - apply append_ret in E as (t0 & k & c & Ht0 & _ & Hc); [|done]. rewrite Ht in Ht0. injection Ht0 as <-.
    destruct Hc as [(_ & _ & _ & _ & _ & -> & _)|(_ & hash & Hhash & -> & ->)]; [by exists hist|].
    destruct (new_record_link _ _ _ _ _ _ Ht Hhash) as (L & En & Hof).
    exists (hist ++ [new_record event (state_of s t) now k hash]). split; [|by apply prefix_app_r].
    unfold history_of. rewrite state_of_appended.
    change (checkpoints_of (appended _ _ _ _ _ _) t) with (checkpoints_of s t).
    unfold hot, appended. cbn [records]. rewrite filter_app, filter_cons_True by done.
    by apply history_append.
  - apply advance_ret in E as (t0 & Hs0 & _ & -> & Hr & ->). rewrite Hs in Hs0. injection Hs0 as <-.
    exists hist. split; [|done]. unfold history_of. rewrite state_of_set. apply history_fence; [done|]. lia.
  - apply compactRange_ret in E as
      (t0 & thr & sig & h & ch & prev & Hs0 & Hv & Ht & Hth & Hh' & Hch & Hr & Hcov & ->); [|done].
    rewrite Hs in Hs0. injection Hs0 as <-.
    destruct (compact_kept _ _ _ thr Hn) as (Ecov & Erest & _). rewrite Ecov in Hcov.
    exists hist. split; [|done]. unfold history_of. destruct (compacted_view s t (minimumRetainedSequence (state_of s t)) thr ch cp) as [-> ->].
    unfold hot, compacted. cbn [records]. rewrite Erest.
    by eapply history_compact.
  - apply prepare_ret in E as (t0 & h0 & _ & _ & _ & [[-> _]|[-> _]]); by exists hist.
  - apply confirm_ret in E as (t0 & _ & [->|(h & a & _ & _ & _ & _ & _ & _ & _ & _ & _ & _ & ->)]); [| |done];
      by exists hist.
Qed.

Lemma store_ok_step s s' : store_ok s → some_step s s' → store_ok s'.
Proof.
  intros Hok [t Hstep] t' Hne. destruct (decide (t' = t)) as [->|Hd].
  - destruct (Hok t Hne) as [hist Hh]. destruct (step_history _ _ _ _ Hstep Hh) as (hist' & Hh' & _). eauto.
  - destruct (Hok t (step_nonempty _ _ _ Hstep)) as [hist Hh]. destruct (Hok t' Hne) as [hist' Hh'].
    exists hist'. eapply same_view_history; [|done]. eapply step_frame; [done| |done].
    by eapply kept_numbered.
Qed.

Lemma history_step s s' t hist :
  store_ok s → some_step s s' → history_of s t hist → ∃ hist', history_of s' t hist' ∧ hist `prefix_of` hist'.
Proof.
  intros Hok [t0 Hstep] Hh. destruct (decide (t = t0)) as [->|Hd]; [by eapply step_history|].
  destruct (Hok t0 (step_nonempty _ _ _ Hstep)) as [hist0 Hh0]. exists hist. split; [|done].
  eapply same_view_history; [|done]. eapply step_frame; [done|by eapply kept_numbered|done].
Qed.

Lemma empty_store_ok : store_ok empty_store.
Proof. intros t _. exists []. split; cbn; unfold max_safe_integer; by constructor || lia. Qed.

Lemma reachable_ok s : reachable s → store_ok s.
Proof.
  intros Hr. assert (∀ a b, rtc some_step a b → store_ok a → store_ok b) as Hp.
  { induction 1; eauto using store_ok_step. }
  exact (Hp _ _ Hr empty_store_ok).
Qed.

Lemma records_json_step s s' :
  Forall (λ r, is_json r = true) (records s) → some_step s s' → Forall (λ r, is_json r = true) (records s').
Proof.
  intros Hf [t Hstep]. destruct Hstep as [now event o s' r Hj Ht E|scope v s' f Hs E|
    scope cp ex f s' Hs Hj E|scope h at_ f s' a Hs E|scope rc id f s' Hs Hj E].
  - apply append_ret in E as (t0 & k & c & _ & _ & Hc); [|done].
    destruct Hc as [(_ & _ & _ & _ & _ & -> & _)|(_ & hash & _ & -> & ->)]; [done|].
    apply Forall_app. split; [done|]. apply Forall_singleton. by apply new_record_json.
  - by apply advance_ret in E as (t0 & _ & _ & _ & _ & ->).
  - apply compactRange_ret in E as (t0 & thr & _ & _ & ch & _ & _ & _ & _ & _ & _ & _ & _ & _ & ->); [|done].
    eapply Forall_subset; [|exact Hf]. intros x [_ Hx]%list_elem_of_filter. done.
  - by apply prepare_ret in E as (t0 & h0 & _ & _ & _ & [[-> _]|[-> _]]).
  - by apply confirm_ret in E as (t0 & _ & [->|(h & a & _ & _ & _ & _ & _ & _ & _ & _ & _ & _ & ->)]).
Qed.

Lemma reachable_json s : reachable s → Forall (λ r, is_json r = true) (records s).
Proof.
  intros Hr. assert (∀ a b, rtc some_step a b → Forall (λ r, is_json r = true) (records a) →
    Forall (λ r, is_json r = true) (records b)) as Hp by (induction 1; eauto using records_json_step).
  by apply (Hp _ _ Hr).
Qed.

(** The store's own state check passes in a reachable store. *)
Lemma non_negative_safe_int z : (0 ≤ z ≤ max_safe_integer)%Z → non_negative_safe (VInt z) = Some z.
Proof.
  intros Hz. unfold non_negative_safe, VInt, is_safe_integer. rewrite num_int_of_Z.
  by rewrite (proj2 (Z.leb_le (Z.abs z) _)), (proj2 (Z.leb_le 0 z)) by lia.
Qed.

Definition hash_shaped (o : option string) : Prop :=
  match o with Some h => re_test HASH_PATTERN h = true | None => True end.

Lemma null_or_hash_shaped o : hash_shaped o → null_or_hash (vnull_or_str o) = Ret true.
Proof. destruct o as [h|]; [|done]. intros Hh. unfold null_or_hash, regex_test. cbn. by rewrite Hh. Qed.

Lemma chain_state_accepted st :
  (0 ≤ authoritativeTipSequence st ≤ max_safe_integer)%Z →
  (1 ≤ minimumRetainedSequence st ≤ authoritativeTipSequence st + 1)%Z →
  (minimumRetainedSequence st ≤ max_safe_integer)%Z →
  (0 ≤ retentionPolicyFence st ≤ max_safe_integer)%Z →
  hash_shaped (authoritativeTipHash st) → hash_shaped (latestCheckpointHash st) →
  (authoritativeTipSequence st = 0%Z ↔ authoritativeTipHash st = None) →
  (minimumRetainedSequence st = 1%Z ↔ latestCheckpointHash st = None) →
  assertAuditChainState (chain_state_val st) = Ret tt.
Proof.
  destruct st as [tip th m ch f]; cbn [authoritativeTipSequence authoritativeTipHash
    minimumRetainedSequence latestCheckpointHash retentionPolicyFence].
  intros Htip Hm Hm' Hf Hth Hch Et Em. unfold assertAuditChainState.
  set (v := chain_state_val _).
  change (vget_opt v "authoritativeTipSequence") with (VInt tip).
  change (vget_opt v "minimumRetainedSequence") with (VInt m).
  change (vget_opt v "authoritativeTipHash") with (vnull_or_str th).
  change (vget_opt v "latestCheckpointHash") with (vnull_or_str ch).
  change (vget_opt v "retentionPolicyFence") with (VInt f). cbn [v chain_state_val negb].
  rewrite !non_negative_safe_int by lia.
  rewrite (proj2 (Z.ltb_ge m 1)), (proj2 (Z.ltb_ge (tip + 1) m)) by lia. cbn [orb].
  rewrite !null_or_hash_shaped by done. cbn [mbind exc_mbind negb].
  assert (∀ (z k : Z) o, (z = k ↔ o = None) → Bool.eqb (z =? k)%Z (is_null (vnull_or_str o)) = true) as Hb.
  { intros z k o Ho. apply eqb_true_iff. destruct o as [x|]; cbn.
    - apply Z.eqb_neq. intros E. by apply Ho in E.
    - apply Z.eqb_eq. by apply Ho. }
  rewrite !Hb by done. cbn [andb guard_exc mbind exc_mbind].
  unfold assertRetentionPolicyFence. by rewrite non_negative_safe_int.
Qed.

Lemma chain_tip_shape hist o n :
  chain hist (vnull_or_str o) n → hash_shaped o ∧ (n = 0%Z ↔ o = None) ∧ (0 ≤ n)%Z.
Proof.
  remember (vnull_or_str o) as tip. intros C. destruct C as [|rs tip n r h C L].
  - destruct o; [done|]. by split_and!.
  - destruct o as [x|]; [|done]. injection Heqtip as ->. pose proof (chain_length _ _ _ C).
    destruct (link_digest _ _ _ _ L) as (text & _ & ->). split_and!; [apply sha256Hex_shape| |lia].
    split; [lia|done].
Qed.

Lemma history_chainState s t hist :
  history_of s t hist → (authoritativeTipSequence (state_of s t) < max_safe_integer)%Z →
  chainState s t = Ret (state_of s t).
Proof.
  intros [C _ Hm _ Hf A] Hlt. destruct (chain_tip_shape _ _ _ C) as (Hsh & Ht & Hn).
  unfold chainState. fold (state_of s t). rewrite chain_state_accepted; try done; try lia.
  - destruct (last _) as [cp|]; [|by destruct A as [_ ->]].
    destruct A as [_ (h & hash & sig & Hv & _ & _ & _ & _ & Hh & ->)].
    apply verifyCheckpointAt_ok in Hv as (h' & [_ _ [Hd Hh']] & _). rewrite Hh in Hh'. injection Hh' as <-.
    unfold hashRetentionCheckpoint in Hd. apply bind_ret in Hd as (o & _ & Hd). by eapply sha256HexOpt_shape.
  - destruct (last _) as [cp|]; [|by destruct A as [-> ->]].
    destruct A as [Hlt' (h & hash & sig & _ & _ & _ & _ & _ & _ & ->)]. split; [lia|done].
Qed.

(** *** Listing *)

Lemma mapE_clone l : Forall (λ r, is_json r = true) l → mapE json_clone l = Ret l.
Proof. induction 1 as [|r l Hr Hl IH]; cbn; [done|]. rewrite json_clone_json by done. cbn. by rewrite IH. Qed.

Lemma numbered_after k a l :
  numbered k l → filter (λ r, (a <? record_sequence r)%Z = true) l = drop (Z.to_nat (a - k + 1)) l.
Proof.
  revert k. induction l as [|r l IH]; intros k Hn; [by rewrite drop_nil|].
  apply numbered_cons in Hn as [Hr Hn]. pose proof (IH _ Hn) as E.
  rewrite filter_cons, Hr. destruct (a <? k)%Z eqn:Ea.
  - apply Z.ltb_lt in Ea. rewrite decide_True by done. rewrite E.
    replace (Z.to_nat (a - k + 1)) with O by lia. by replace (Z.to_nat (a - (k + 1) + 1)) with O by lia.
  - apply Z.ltb_ge in Ea. rewrite decide_False by done. rewrite E.
    by replace (Z.to_nat (a - k + 1)) with (S (Z.to_nat (a - (k + 1) + 1))) by lia.
Qed.

(** A page of a tenant's records: those after [after], at most [limit] of them. *)
Definition page (s : store) (t : string) (after : option Z) (n : option Z) : list val :=
  let rs := drop (Z.to_nat (default 0 after - minimumRetainedSequence (state_of s t) + 1)%Z) (hot s t) in
  match n with None => rs | Some n => take (Z.to_nat n) rs end.

Lemma list_records_page s scope t options after n :
  reachable s → scope_tenant scope = Ret t →
  list_option (afterSequence options) "afterSequence must be a non-negative integer" = Ret after →
  list_option (limit options) "limit must be a non-negative integer" = Ret n →
  list_records s scope options = Ret (page s t after n).
Proof.
  intros Hr Hs Ha Hl. unfold list_records, page. rewrite Hs. cbn [mbind exc_mbind].
  rewrite Hl. cbn [mbind exc_mbind]. rewrite Ha. cbn [mbind exc_mbind].
  destruct (reachable_ok _ Hr t (scope_tenant_nonempty _ _ Hs)) as [hist Hh].
  set (a := default 0%Z after).
  assert (drop (Z.to_nat (a - minimumRetainedSequence (state_of s t) + 1)) (hot s t) =
          filter (λ r, (of_tenant t r && (a <? record_sequence r)%Z) = true) (records s)) as ->.
  { rewrite <- (numbered_after (minimumRetainedSequence (state_of s t))) by by eapply kept_numbered.
    unfold hot. rewrite list_filter_filter. apply list_filter_iff. intros r. rewrite andb_true_iff. tauto. }
  set (found := filter _ _). assert (Forall (λ r, is_json r = true) found) as Hf.
  { eapply Forall_subset; [|apply (reachable_json _ Hr)]. intros x [_ Hx]%list_elem_of_filter. done. }
  destruct n as [n|]; apply mapE_clone; [|done]. by apply Forall_take.
Qed.

Lemma chain_verifies t rs tip n :
  Forall (λ r, envelope Audit r t) rs → chain rs tip n → verifyAuditRecords rs = Ret VerifyOk.
Proof. intros He C. apply (one_tenant_verifies Audit t); [done|eauto]. Qed.

(** What a reader of a tenant's records checks them with: the chain verifier, or
    the verifier from the last checkpoint when earlier records were archived. *)
Definition reader_accepts (s : store) (t : string) (rs : list val) : Prop :=
  match last (checkpoints_of s t) with
  | None => verifyAuditRecords rs = Ret VerifyOk
  | Some cp => ∃ sig, verifyAuditRecordsFromCheckpoint cp rs no_options = Ret (RetentionOk sig)
  end.

Lemma hot_accepted s t hist :
  t ≠ "" → history_of s t hist → (authoritativeTipSequence (state_of s t) ≤ max_safe_integer)%Z →
  reader_accepts s t (hot s t).
Proof.
  intros Hne [C He Hm -> _ A] Hle. unfold reader_accepts. pose proof (chain_length _ _ _ C) as Hlen.
  destruct (last _) as [cp|].
  - destruct A as [_ (h & ch & sig & Hv & Ht & Hth & Hh & Cp & _)]. exists sig.
    unfold verifyAuditRecordsFromCheckpoint. rewrite Hv. cbn [mbind exc_mbind].
    destruct (vget_opt cp "throughSequence") as [| | |k| | | | |]; try done. cbn in Hth. rewrite Hth.
    cbn [default]. rewrite Ht, Hh.
    apply (verify_retained_chain _ _ _ _ _ _ _ Hne Cp).
    + rewrite length_drop. unfold max_safe_integer in Hle. lia.
    + split; [by apply Forall_drop|]. rewrite take_drop. eauto.
  - destruct A as [-> _]. cbn. rewrite drop_0. by eapply chain_verifies.
Qed.

(** *** What never goes back *)

Record advances (s s' : store) (t : string) : Prop := {
  adv_min : (minimumRetainedSequence (state_of s t) ≤ minimumRetainedSequence (state_of s' t))%Z;
  adv_fence : (retentionPolicyFence (state_of s t) ≤ retentionPolicyFence (state_of s' t))%Z;
  adv_checkpoints : checkpoints_of s t `prefix_of` checkpoints_of s' t;
  adv_dispositions : dispositions_of s t ⊆ dispositions_of s' t;
}.

#[local] Instance advances_po t : PreOrder (λ s s', advances s s' t).
Proof.
  split.
  - intros s. by split.
  - intros a b c [A1 A2 A3 A4] [B1 B2 B3 B4]. split; [lia|lia|by etrans|by etrans].
Qed.

Lemma same_view_advances s s' t : same_view s s' t → advances s s' t.
Proof. intros (_ & E1 & E2 & _ & E3). split; rewrite ?E1, ?E2, ?E3; done. Qed.

Lemma dispositions_of_insert s t h d :
  dispositions_of (with_receipt s t h d) t = <[h := d]> (dispositions_of s t).
Proof. unfold dispositions_of at 1, with_receipt. cbn. by rewrite lookup_insert_eq. Qed.

Lemma attempts_of_insert s t h a :
  attempts_of (with_attempt s t h a) t = <[h := a]> (attempts_of s t).
Proof. unfold attempts_of at 1, with_attempt. cbn. by rewrite lookup_insert_eq. Qed.

Lemma step_advances t s s' : store_step t s s' → advances s s' t.
Proof.
  intros Hstep. destruct Hstep as [now event o s' r Hj Ht E|scope v s' f Hs E|
    scope cp ex f s' Hs Hj E|scope h at_ f s' a Hs E|scope rc id f s' Hs Hj E].
  - apply append_ret in E as (t0 & k & c & Ht0 & _ & Hc); [|done]. rewrite Ht in Ht0. injection Ht0 as <-.
    destruct Hc as [(_ & _ & _ & _ & _ & -> & _)|(_ & hash & _ & -> & ->)]; [done|].
    split; rewrite ?state_of_appended; done.
  - apply advance_ret in E as (t0 & Hs0 & _ & Hf & _ & ->). rewrite Hs in Hs0. injection Hs0 as <-.
    split; rewrite ?state_of_set; cbn; try done. lia.
  - apply compactRange_ret in E as
      (t0 & thr & sig & h & ch & prev & Hs0 & _ & _ & _ & _ & _ & Hr & _ & ->); [|done].
    rewrite Hs in Hs0. injection Hs0 as <-.
    destruct (compacted_view s t (minimumRetainedSequence (state_of s t)) thr ch cp) as [E1 E2].
    split; rewrite ?E1, ?E2; cbn; try done; [lia|by apply prefix_app_r].
  - apply prepare_ret in E as (t0 & h0 & _ & _ & _ & [[-> _]|[-> _]]); done.
  - apply confirm_ret in E as (t0 & Hs0 & Hc); [|done]. rewrite Hs in Hs0. injection Hs0 as <-.
    destruct Hc as [->|(h & a & _ & _ & _ & _ & _ & _ & _ & _ & Hd & _ & ->)]; [done|].
    split; try done. rewrite dispositions_of_insert. by apply insert_subseteq.
Qed.

Lemma reachable_step s s' : reachable s → some_step s s' → reachable s'.
Proof. intros Hr Hs. eapply rtc_r; [exact Hr|done]. Qed.

(** Along any run of the store. *)
Lemma run_invariant (R : store → store → Prop) `{!PreOrder R} s s' :
  (∀ a b t, reachable a → store_step t a b → R a b) → reachable s → rtc some_step s s' → R s s'.
Proof.
  intros Hstep Hr Hrun. induction Hrun as [|a b c [t Hab] Hbc IH]; [done|].
  etrans; [by eapply Hstep|]. apply IH. eapply reachable_step; [done|by exists t].
Qed.

Lemma step_frame_reachable t s s' t' :
  reachable s → store_step t s s' → t' ≠ t → same_view s s' t'.
Proof.
  intros Hr Hs Hne. destruct (reachable_ok _ Hr t (step_nonempty _ _ _ Hs)) as [hist Hh].
  eapply step_frame; [done|by eapply kept_numbered|done].
Qed.

Lemma run_advances s s' t : reachable s → rtc some_step s s' → advances s s' t.
Proof.
  apply (run_invariant (λ a b, advances a b t)). intros a b t0 Hr Hab.
  destruct (decide (t = t0)) as [->|Hne]; [by apply step_advances|].
  by apply same_view_advances, (step_frame_reachable t0).
Qed.

Lemma run_history s s' t hist :
  reachable s → rtc some_step s s' → history_of s t hist →
  ∃ hist', history_of s' t hist' ∧ hist `prefix_of` hist'.
Proof.
  intros Hr Hrun. revert hist. induction Hrun as [|a b c Hab Hbc IH]; intros hist Hh; [by exists hist|].
  destruct (history_step _ _ _ _ (reachable_ok _ Hr) Hab Hh) as (hist1 & Hh1 & Hp1).
  destruct (IH (reachable_step _ _ Hr Hab) _ Hh1) as (hist2 & Hh2 & Hp2).
  exists hist2. split; [done|by etrans].
Qed.

(** *** Dispositions *)

Definition dispositions_ok (s : store) : Prop := ∀ t h,
  (∀ d, dispositions_of s t !! h = Some d → ∃ cp sig, find_checkpoint s t h = Some cp ∧
      verifyRetentionDisposition d cp no_options = Ret (RetentionOk sig)) ∧
  (is_Some (dispositions_of s t !! h) ↔ ∃ a, attempts_of s t !! h = Some a ∧ status a = Disposed).

Lemma find_checkpoint_prefix s s' t h cp :
  checkpoints_of s t `prefix_of` checkpoints_of s' t →
  find_checkpoint s t h = Some cp → find_checkpoint s' t h = Some cp.
Proof.
  unfold find_checkpoint. intros [l ->] Hf. apply fmap_Some in Hf as ([i c] & Hi & ->).
  by rewrite (list_find_app_l _ _ _ i c).
Qed.

(** Attempts and receipts are only touched at the tenant and the checkpoint hash
    of the call. *)
Lemma attempts_of_other s t h a t' :
  t' ≠ t → attempts_of (with_attempt s t h a) t' = attempts_of s t'.
Proof. intros Hne. unfold attempts_of, with_attempt. cbn. by rewrite lookup_insert_ne by done. Qed.

Lemma dispositions_of_other s t h d t' :
  t' ≠ t → dispositions_of (with_receipt s t h d) t' = dispositions_of s t'.
Proof. intros Hne. unfold dispositions_of, with_receipt. cbn. by rewrite lookup_insert_ne by done. Qed.

Lemma with_attempt_lookup s t h a t' h' :
  attempts_of (with_attempt s t h a) t' !! h' =
  if decide (t' = t ∧ h' = h) then Some a else attempts_of s t' !! h'.
Proof.
  destruct (decide (t' = t)) as [->|Hne].
  - rewrite attempts_of_insert. destruct (decide (h' = h)) as [->|Hh].
    + by rewrite lookup_insert_eq, decide_True.
    + by rewrite lookup_insert_ne, decide_False by naive_solver.
  - by rewrite attempts_of_other, decide_False by naive_solver.
Qed.

Lemma with_receipt_lookup s t h d t' h' :
  dispositions_of (with_receipt s t h d) t' !! h' =
  if decide (t' = t ∧ h' = h) then Some d else dispositions_of s t' !! h'.
Proof.
  destruct (decide (t' = t)) as [->|Hne].
  - rewrite dispositions_of_insert. destruct (decide (h' = h)) as [->|Hh].
    + by rewrite lookup_insert_eq, decide_True.
    + by rewrite lookup_insert_ne, decide_False by naive_solver.
  - by rewrite dispositions_of_other, decide_False by naive_solver.
Qed.

Lemma dispositions_ok_same s s' :
  dispositions_ok s →
  (∀ t, dispositions_of s' t = dispositions_of s t ∧ attempts_of s' t = attempts_of s t ∧
        checkpoints_of s t `prefix_of` checkpoints_of s' t) →
  dispositions_ok s'.
Proof.
  intros Hok Hsame t h. destruct (Hsame t) as (-> & -> & Hp). destruct (Hok t h) as [Hverified Hstatus].
  split; [|done]. intros d Hd. destruct (Hverified d Hd) as (cp & sig & Hf & Hv). exists cp, sig.
  split; [by eapply find_checkpoint_prefix|done].
Qed.

Lemma dispositions_ok_step t s s' :
  reachable s → store_step t s s' → dispositions_ok s → dispositions_ok s'.
Proof.
  intros Hr Hstep Hok.
  assert (∀ t', checkpoints_of s t' `prefix_of` checkpoints_of s' t') as Hcp.
  { intros t'. apply (run_advances s s' t' Hr). apply rtc_once. by exists t. }
  destruct Hstep as [now event o s' r Hj Ht E|scope v s' f Hs E|
    scope cp ex f s' Hs Hj E|scope h at_ f s' a Hs E|scope rc id f s' Hs Hj E].
  - apply append_ret in E as (t0 & k & c & _ & _ & Hc); [|done].
    by destruct Hc as [(_ & _ & _ & _ & _ & -> & _)|(_ & hash & _ & -> & ->)].
  - by apply advance_ret in E as (t0 & _ & _ & _ & _ & ->).
  - apply compactRange_ret in E as (t0 & thr & _ & _ & ch & _ & _ & _ & _ & _ & _ & _ & _ & _ & ->); [|done].
    by eapply dispositions_ok_same.
  - apply prepare_ret in E as (t0 & h0 & _ & _ & Hd & [[-> _]|[-> [Hp _]]]); [done|].
    intros t' h'. destruct (Hok t' h') as [H1' H2']. split; [exact H1'|].
    change (dispositions_of (with_attempt s t0 h0 a) t') with (dispositions_of s t').
    rewrite with_attempt_lookup. case_decide as Hd'; [|done]. destruct Hd' as [-> ->]. rewrite Hd.
    split; [by intros []|]. intros (a' & [= <-] & Ha'). congruence.
  - apply confirm_ret in E as (t0 & _ & Hc); [|done].
    destruct Hc as [->|(h & a & cp & sig & _ & Ha & Hp & _ & _ & Hf & Hd & Hv & ->)]; [done|].
    intros t' h'. destruct (Hok t' h') as [H1' H2'].
    change (find_checkpoint (with_receipt _ _ _ _) t') with (find_checkpoint s t').
    change (attempts_of (with_receipt ?x _ _ _) t') with (attempts_of x t').
    rewrite with_receipt_lookup, with_attempt_lookup.
    change (dispositions_of (with_attempt _ _ _ _) t') with (dispositions_of s t').
    case_decide as Hd'; [|done]. destruct Hd' as [-> ->]. split.
    + intros d [= <-]. by exists cp, sig.
    + split; [|by eexists]. intros _. by eexists.
Qed.

Lemma reachable_dispositions s : reachable s → dispositions_ok s.
Proof.
  intros Hr.
  assert (∀ a b, rtc some_step a b → reachable a → dispositions_ok a → dispositions_ok b) as Hp.
  { induction 1 as [|a b c [t Hab] Hbc IH]; [done|]. intros Ra Ha. apply IH.
    - eapply reachable_step; [done|by exists t].
    - by eapply dispositions_ok_step. }
  apply (Hp _ _ Hr); [apply rtc_refl|]. intros t h. split; [done|]. split; [by intros []|].
  by intros (a & Ha & _).
Qed.

(** *** Idempotency entries *)

(** [e'] is [e], or [e] after its record was archived. *)
Definition entry_kept (e e' : idempotency_entry) : Prop :=
  eventCanonicalHash e' = eventCanonicalHash e ∧ originalSequence e' = originalSequence e ∧
  originalRecordHash e' = originalRecordHash e ∧
  (entry_record e' = entry_record e ∨ entry_record e' = None).

Definition entries_kept (m m' : gmap string idempotency_entry) : Prop :=
  ∀ k e, m !! k = Some e → ∃ e', m' !! k = Some e' ∧ entry_kept e e'.

#[local] Instance entry_kept_po : PreOrder entry_kept.
Proof.
  split; [by intros e; split_and!; try done; left|].
  intros a b c (A1 & A2 & A3 & A4) (B1 & B2 & B3 & B4). split_and!; try congruence.
  destruct B4 as [E|E]; rewrite E; [done|by right].
Qed.

#[local] Instance entries_kept_po : PreOrder entries_kept.
Proof.
  split; [intros m k e Hk; by exists e|]. intros a b c Hab Hbc k e Hk.
  destruct (Hab k e Hk) as (e1 & L1 & K1). destruct (Hbc k e1 L1) as (e2 & L2 & K2).
  exists e2. split; [done|by etrans].
Qed.

Lemma drop_entry_kept m r : entries_kept m (drop_entry m r).
Proof.
  intros k e Hk. unfold drop_entry. destruct (vget_opt r "idempotencyKeyHash") as [| | | |k0| | | |]; try by exists e.
  destruct (m !! k0) as [e0|] eqn:E; [|by exists e].
  destruct (decide (k = k0)) as [->|Hne].
  - rewrite lookup_insert_eq. rewrite Hk in E. injection E as <-. eexists. split; [done|].
    split_and!; try done. by right.
  - rewrite lookup_insert_ne by done. by exists e.
Qed.

Lemma drop_entries_kept rs m : entries_kept m (fold_left drop_entry rs m).
Proof.
  revert m. induction rs as [|r rs IH]; intros m; cbn; [done|]. etrans; [apply drop_entry_kept|apply IH].
Qed.

Lemma step_entries_kept t s s' :
  store_step t s s' → entries_kept (idempotencyRecords s) (idempotencyRecords s').
Proof.
  intros Hstep. destruct Hstep as [now event o s' r Hj Ht E|scope v s' f Hs E|
    scope cp ex f s' Hs Hj E|scope h at_ f s' a Hs E|scope rc id f s' Hs Hj E].
  - apply append_ret in E as (t0 & k & c & _ & _ & Hc); [|done].
    destruct Hc as [(_ & _ & _ & _ & _ & -> & _)|(Hk & hash & _ & -> & ->)]; [done|].
    intros k' e Hk'. unfold appended. cbn. exists e. split; [|done].
    rewrite lookup_insert_ne; [done|]. intros ->. congruence.
  - by apply advance_ret in E as (t0 & _ & _ & _ & _ & ->).
  - apply compactRange_ret in E as (t0 & thr & _ & _ & ch & _ & _ & _ & _ & _ & _ & _ & _ & _ & ->); [|done].
    apply drop_entries_kept.
  - by apply prepare_ret in E as (t0 & h0 & _ & _ & _ & [[-> _]|[-> _]]).
  - by apply confirm_ret in E as (t0 & _ & [->|(h & a & _ & _ & _ & _ & _ & _ & _ & _ & _ & _ & ->)]).
Qed.

Lemma requireTenantId_get event t k : requireTenantId event = Ret t → vget event k = Ret (vget_opt event k).
Proof. unfold requireTenantId. intros (sc & Hsc & _)%bind_ret. by eapply vget_all. Qed.

(** An append under a known key depends on the entry only. *)
Lemma append_known now s event options t k c e :
  is_json event = true → requireTenantId event = Ret t → append_key t event options = Ret k →
  event_digest event = Ret c → idempotencyRecords s !! k = Some e →
  append now s event options =
  if String.eqb (eventCanonicalHash e) c then
    match entry_record e with
    | None => Throw "idempotency_history_disposed"
    | Some record => clone ← json_clone record; Ret (s, clone)
    end
  else Throw "idempotency conflict".
Proof.
  intros Hj Ht Hk Hc He. unfold append. rewrite Ht. cbn [mbind exc_mbind].
  rewrite (requireTenantId_get _ _ "id" Ht). cbn [mbind exc_mbind].
  unfold append_key in Hk. rewrite Hk. cbn [mbind exc_mbind].
  unfold event_digest in Hc. apply bind_ret in Hc as (o & Ho & Hc). rewrite Ho. cbn [mbind exc_mbind].
  rewrite Hc. cbn [mbind exc_mbind]. rewrite json_clone_json by done. cbn [mbind exc_mbind].
  rewrite He. by destruct (String.eqb _ c).
Qed.

(** After an accepted append its key has an entry, whose record is the one
    returned or has been archived. *)
Lemma append_entry now s event options s1 r :
  is_json event = true → append now s event options = Ret (s1, r) →
  ∃ t k c e, requireTenantId event = Ret t ∧ append_key t event options = Ret k ∧
    event_digest event = Ret c ∧ idempotencyRecords s1 !! k = Some e ∧ eventCanonicalHash e = c ∧
    ∃ record, entry_record e = Some record ∧ json_clone record = Ret r.
Proof.
  intros Hj E. apply append_ret in E as (t & k & c & Ht & (Hk & Hc) & Hcase); [|done].
  destruct Hcase as [(e & record & He & Hr & Hec & -> & Hcl)|(_ & hash & _ & -> & ->)].
  - exists t, k, c, e. split_and!; try done. by exists record.
  - exists t, k, c. eexists. split_and!; [done|done|done|apply lookup_insert_eq|done|].
    eexists. split; [done|]. by apply json_clone_json, new_record_json.
Qed.

Lemma run_entries_kept s s' : rtc some_step s s' → entries_kept (idempotencyRecords s) (idempotencyRecords s').
Proof.
  induction 1 as [|a b c [t Hab] _ IH]; [done|]. etrans; [by eapply step_entries_kept|done].
Qed.

(** A fresh append of a JSON event goes through. *)
Lemma canonicalJson_digest v : is_json v = true → ∃ h, event_digest v = Ret h.
Proof. intros Hj. destruct (canonicalJson_json v Hj) as [text Ht]. unfold event_digest. rewrite Ht. eauto. Qed.

Lemma hashAuditRecord_total fs : is_json (VObj fs) = true → ∃ h, hashAuditRecord (VObj fs) = Ret h.
Proof.
  intros Hj. apply is_json_omit with (k := "hash") in Hj. destruct (canonicalJson_json _ Hj) as [text Ht].
  exists (sha256Hex text). apply (hashRecord_text Audit). eauto.
Qed.

Lemma append_fresh now s event options t k hist :
  is_json event = true → requireTenantId event = Ret t → append_key t event options = Ret k →
  idempotencyRecords s !! k = None → history_of s t hist →
  (authoritativeTipSequence (state_of s t) < max_safe_integer)%Z →
  expectedPreviousHash options = VUndef ∨
    expectedPreviousHash options = vnull_or_str (authoritativeTipHash (state_of s t)) →
  ∃ c hash, append now s event options =
    Ret (appended s t k c hash (new_record event (state_of s t) now k hash),
         new_record event (state_of s t) now k hash).
Proof.
  intros Hj Ht Hk He Hh Hlt Hexp. destruct (canonicalJson_digest _ Hj) as [c Hc].
  destruct (hashAuditRecord_total (record_fields event (authoritativeTipSequence (state_of s t) + 1)
    (authoritativeTipHash (state_of s t)) (toISOString now) k)) as [hash Hhash].
  { pose proof (new_record_json event (state_of s t) now k "" Hj) as Hn. apply is_json_omit with (k := "hash") in Hn.
    exact Hn. }
  exists c, hash. unfold append. rewrite Ht. cbn [mbind exc_mbind].
  rewrite (requireTenantId_get _ _ "id" Ht). cbn [mbind exc_mbind].
  unfold append_key in Hk. rewrite Hk. cbn [mbind exc_mbind].
  unfold event_digest in Hc. apply bind_ret in Hc as (o & Ho & Hc). rewrite Ho. cbn [mbind exc_mbind].
  rewrite Hc. cbn [mbind exc_mbind]. rewrite json_clone_json by done. cbn [mbind exc_mbind].
  rewrite He, (history_chainState _ _ _ Hh Hlt). cbn [mbind exc_mbind].
  assert (is_undef (expectedPreviousHash options) || strict_eq (expectedPreviousHash options)
    (vnull_or_str (authoritativeTipHash (state_of s t))) = true) as ->.
  { destruct Hexp as [-> | ->]; [done|]. apply orb_true_iff. right.
    by destruct (authoritativeTipHash _); [apply strict_eq_str|apply strict_eq_null]. }
  cbn [guard_exc mbind exc_mbind]. rewrite Hhash. cbn [mbind exc_mbind].
  change (VObj (_ ++ [("hash", VStr hash)])) with (new_record event (state_of s t) now k hash).
  rewrite json_clone_json by by apply new_record_json. done.
Qed.
End Histories.

(** ** Properties *)

#[local] Instance demo_host : Host :=
  {| host_dates := {| legacy_date_parse := λ _, None |}; date_of_object := λ _, None;
     date_string := λ _, "Invalid Date" |}.
#[local] Instance demo_base64 : Base64 := {| base64_bytes := λ _, Ret [] |}.

Definition demo_event (tenant id : string) : val := VObj
  [("id", VStr id); ("action", VStr "record.sealed"); ("scope", VObj [("tenantId", VStr tenant)])].
Definition demo_scope (tenant : string) : val := VObj [("tenantId", VStr tenant)].
Definition no_append_options : AuditStoreAppendOptions := AppendOptions VUndef VUndef.
Definition all_records : AuditStoreListOptions := ListOptions VUndef VUndef.

Definition demo_append (s : store) (tenant id : string) : store :=
  default s (fst <$> exc_to_option (append 0 s (demo_event tenant id) no_append_options)).

(** Two records of one tenant, one of another; then the first is archived. *)
Definition demo_store1 : store := demo_append empty_store "a" "e1".
Definition demo_store2 : store := demo_append demo_store1 "a" "e2".
Definition demo_store3 : store := demo_append demo_store2 "b" "e3".

Definition demo_archive : val :=
  demo_checkpoint 1 1 1 VNull (vget_opt (default VUndef (records demo_store3 !! 0%nat)) "hash") VNull.
Definition demo_archive_hash : val := vget_opt demo_archive "hash".
Definition demo_store4 : store :=
  default demo_store3 (exc_to_option (compactRange demo_store3 (demo_scope "a") demo_archive
    (chain_state_val (state_of demo_store3 "a")) (VInt 0))).

(** The archived range is then disposed of. *)
Definition demo_attempt : val := VObj
  [("attemptId", VStr "t1"); ("checkpointHash", demo_archive_hash); ("policyFence", VInt 0);
   ("status", VStr "pending")].
Definition demo_store5 : store :=
  default demo_store4 (fst <$> exc_to_option (prepareDisposition demo_store4 (demo_scope "a")
    demo_archive_hash demo_attempt (VInt 0))).
Definition demo_receipt : val :=
  default VUndef (exc_to_option (createRetentionDisposition (VObj
    [("dispositionId", VStr "d1"); ("tenantId", VStr "a"); ("chainKind", VStr "audit");
     ("checkpointHash", demo_archive_hash); ("fromSequence", VInt 1); ("throughSequence", VInt 1);
     ("archiveRootHash", VStr (demo_hash "e")); ("policyReference", VStr "policy-1");
     ("disposedAt", VStr "2026-06-11T00:00:00.000Z")]) VUndef)).
Definition demo_store6 : store :=
  default demo_store5 (exc_to_option (confirmDisposition demo_store5 (demo_scope "a") demo_receipt
    (VStr "t1") (VInt 0))).

Lemma demo_append_step s tenant id :
  is_ret (append 0 s (demo_event tenant id) no_append_options) = true →
  some_step s (demo_append s tenant id).
Proof.
  intros ([s' r] & E)%is_ret_spec. unfold demo_append. rewrite E. cbn. exists tenant.
  pose proof (append_ret 0 s (demo_event tenant id) no_append_options s' r eq_refl E) as (t & _ & _ & Ht & _).
  eapply (step_append tenant s 0 (demo_event tenant id)); [reflexivity| |exact E].
  pose proof (requireTenantId_ret _ _ Ht) as [(sc & [= <-] & [= ->]) _]. exact Ht.
Qed.

Lemma demo_reachable3 : reachable demo_store3.
Proof.
  apply rtc_r with demo_store2; [apply rtc_r with demo_store1; [apply rtc_once|]|];
    apply demo_append_step; vm_compute; reflexivity.
Qed.

Lemma demo_step4 : store_step "a" demo_store3 demo_store4.
Proof.
  apply (step_compact "a" _ (demo_scope "a") demo_archive (chain_state_val (state_of demo_store3 "a"))
    (VInt 0) demo_store4); [reflexivity|vm_compute; reflexivity|].
  vm_cast_no_check (@eq_refl (exc store) (Ret demo_store4)).
Qed.

Lemma demo_step5 : some_step demo_store4 demo_store5.
Proof.
  exists "a". apply (step_prepare "a" _ (demo_scope "a") demo_archive_hash demo_attempt (VInt 0) demo_store5
    (read_pending demo_attempt (default "" (str_of demo_archive_hash)) 0)); [reflexivity|].
  vm_cast_no_check (@eq_refl (exc (store * DispositionAttempt))
    (Ret (demo_store5, read_pending demo_attempt (default "" (str_of demo_archive_hash)) 0))).
Qed.

Lemma demo_step6 : some_step demo_store5 demo_store6.
Proof.
  exists "a". apply (step_confirm "a" _ (demo_scope "a") demo_receipt (VStr "t1") (VInt 0) demo_store6);
    [reflexivity|vm_compute; reflexivity|].
  vm_cast_no_check (@eq_refl (exc store) (Ret demo_store6)).
Qed.

Lemma demo_run : rtc some_step demo_store3 demo_store6.
Proof.
  eapply rtc_l; [exists "a"; exact demo_step4|]. eapply rtc_l; [exact demo_step5|].
  apply rtc_once. exact demo_step6.
Qed.

Lemma demo_reachable6 : reachable demo_store6.
Proof. unfold reachable. etrans; [exact demo_reachable3|exact demo_run]. Qed.

(** C2. Whatever was appended, archived and disposed of before, the records a
    tenant lists verify: as a whole chain, or from the tenant's last checkpoint
    when earlier records were archived; and no retained record is missing. *)
Theorem listed_records_verify `{Hasher} `{Host} `{Base64} s scope t :
  reachable s → scope_tenant scope = Ret t →
  (authoritativeTipSequence (state_of s t) ≤ max_safe_integer)%Z →
  ∃ rs, list_records s scope all_records = Ret rs ∧ reader_accepts s t rs ∧
    Z.of_nat (length rs) =
      (authoritativeTipSequence (state_of s t) - minimumRetainedSequence (state_of s t) + 1)%Z.
Proof.
  intros Hr Hs Hle. pose proof (scope_tenant_nonempty _ _ Hs) as Hne.
  destruct (reachable_ok _ Hr t Hne) as [hist Hh]. exists (hot s t).
  pose proof (hist_min _ _ _ _ _ Hh) as Hm. pose proof (chain_length _ _ _ (hist_chain _ _ _ _ _ Hh)) as Hl.
  split_and!.
  - rewrite (list_records_page _ _ t _ None None) by done. unfold page. cbn [default].
    by replace (Z.to_nat (0 - minimumRetainedSequence (state_of s t) + 1)) with O by lia.
  - by eapply hot_accepted.
  - rewrite (hist_kept _ _ _ _ _ Hh), length_drop. lia.
Qed.

Lemma listed_records_verify_witness :
  ∃ rs, list_records demo_store6 (demo_scope "a") all_records = Ret rs ∧ reader_accepts demo_store6 "a" rs ∧
    Z.of_nat (length rs) = (authoritativeTipSequence (state_of demo_store6 "a") -
                            minimumRetainedSequence (state_of demo_store6 "a") + 1)%Z.
Proof.
  apply (listed_records_verify demo_store6 (demo_scope "a") "a");
    [exact demo_reachable6|reflexivity|by vm_compute].
Defined.

(** C3. The store is append-only: along every run of calls the history of each
    tenant (one valid chain that ends at the authoritative tip) is only extended,
    and the retained minimum, the policy fence, the checkpoints and the
    disposition receipts never go back. *)
Theorem store_append_only `{Hasher} `{Host} `{Base64} s s' t :
  reachable s → rtc some_step s s' → t ≠ "" →
  ∃ hist more, history_of s t hist ∧ history_of s' t (hist ++ more) ∧ advances s s' t.
Proof.
  intros Hr Hrun Hne. destruct (reachable_ok _ Hr t Hne) as [hist Hh].
  destruct (run_history _ _ _ _ Hr Hrun Hh) as (hist' & Hh' & [more ->]).
  exists hist, more. split; [done|]. split; [done|]. by apply run_advances.
Qed.

Lemma store_append_only_witness :
  ∃ hist more, history_of demo_store3 "a" hist ∧ history_of demo_store6 "a" (hist ++ more) ∧
    advances demo_store3 demo_store6 "a".
Proof. apply (store_append_only demo_store3 demo_store6 "a"); [exact demo_reachable3|exact demo_run|done]. Defined.

(** Appends are idempotent: a repetition of an accepted append, at any later
    time, stores nothing and returns the record of the first call, or reports that
    the record was archived; another event under the same key is refused (up to a
    collision of the digest). *)
Theorem append_idempotent `{Hasher} `{Host} `{Base64} now s event options s1 r now' s2 :
  is_json event = true → append now s event options = Ret (s1, r) → rtc some_step s1 s2 →
  (append now' s2 event options = Ret (s2, r) ∨
   append now' s2 event options = Throw "idempotency_history_disposed") ∧
  ∀ t event' options' text text', requireTenantId event = Ret t → requireTenantId event' = Ret t →
    is_json event' = true → append_key t event' options' = append_key t event options →
    canonicalJson event = Ret (Some text) → canonicalJson event' = Ret (Some text') → text ≠ text' →
    append now' s2 event' options' = Throw "idempotency conflict" ∨ Collision [text] [text'].
Proof.
  intros Hj E Hrun. destruct (append_entry _ _ _ _ _ _ Hj E) as (t & k & c & e & Ht & Hk & Hc & He & Hec & rec & Hr & Hcl).
  destruct (run_entries_kept _ _ Hrun k e He) as (e' & He' & Kc & _ & _ & Kr). split.
  - rewrite (append_known _ _ _ _ _ _ _ _ Hj Ht Hk Hc He'), Kc, Hec, String.eqb_refl.
    destruct Kr as [E' | E']; rewrite E'; [left|by right]. rewrite Hr, Hcl. done.
  - intros t0 event' options' text text' Ht0 Ht' Hj' Hk' Hx Hx' Hne.
    rewrite Ht in Ht0. injection Ht0 as <-. rewrite Hk in Hk'.
    unfold event_digest in Hc. rewrite Hx in Hc. injection Hc as Hc.
    assert (event_digest event' = Ret (sha256Hex text')) as Hd by (unfold event_digest; by rewrite Hx').
    rewrite (append_known _ _ _ _ _ _ _ _ Hj' Ht' Hk' Hd He'), Kc, Hec, <- Hc.
    destruct (String.eqb_spec (sha256Hex text) (sha256Hex text')) as [Hcol|]; [right|by left].
    exists text, text'. split_and!; [by left|by left|done|done].
Qed.

Lemma append_idempotent_witness :
  let r := default VUndef (snd <$> exc_to_option (append 0 empty_store (demo_event "a" "e1") no_append_options)) in
  (append 5 demo_store1 (demo_event "a" "e1") no_append_options = Ret (demo_store1, r) ∨
   append 5 demo_store1 (demo_event "a" "e1") no_append_options = Throw "idempotency_history_disposed") ∧
  ∀ t event' options' text text', requireTenantId (demo_event "a" "e1") = Ret t → requireTenantId event' = Ret t →
    is_json event' = true → append_key t event' options' = append_key t (demo_event "a" "e1") no_append_options →
    canonicalJson (demo_event "a" "e1") = Ret (Some text) → canonicalJson event' = Ret (Some text') → text ≠ text' →
    append 5 demo_store1 event' options' = Throw "idempotency conflict" ∨ Collision [text] [text'].
Proof.
  intros r. apply (append_idempotent 0 empty_store (demo_event "a" "e1") no_append_options demo_store1 r).
  - reflexivity.
  - vm_compute. reflexivity.
  - apply rtc_refl.
Defined.

(** A fresh append succeeds: for a JSON event with a tenant, under a key that
    has no entry, without an expected tip or with the current one, the call returns
    a record with the next sequence number whose previous hash is the tip, and that
    record is the tenant's last one. *)
Theorem append_succeeds `{Hasher} `{Host} `{Base64} now s event options t k :
  reachable s → is_json event = true → requireTenantId event = Ret t →
  append_key t event options = Ret k → idempotencyRecords s !! k = None →
  (authoritativeTipSequence (state_of s t) < max_safe_integer)%Z →
  expectedPreviousHash options = VUndef ∨
    expectedPreviousHash options = vnull_or_str (authoritativeTipHash (state_of s t)) →
  ∃ s' r h, append now s event options = Ret (s', r) ∧ hot s' t = hot s t ++ [r] ∧
    vget_opt r "event" = event ∧
    link (vnull_or_str (authoritativeTipHash (state_of s t))) (authoritativeTipSequence (state_of s t)) r h ∧
    authoritativeTipHash (state_of s' t) = Some h.
Proof.
  intros Hr Hj Ht Hk He Hlt Hexp. pose proof (requireTenantId_ret _ _ Ht) as [_ Hb].
  assert (t ≠ "") as Hne by by intros ->. destruct (reachable_ok _ Hr t Hne) as [hist Hh].
  destruct (append_fresh now s event options t k hist Hj Ht Hk He Hh Hlt Hexp) as (c & hash & E).
  destruct (append_ret _ _ _ _ _ _ Hj E) as (t1 & k1 & c1 & Ht1 & [Hk1 _] & Hcase).
  rewrite Ht in Ht1. injection Ht1 as <-. rewrite Hk in Hk1. injection Hk1 as <-.
  destruct Hcase as [(e & _ & He' & _)|(_ & hash1 & Hhash & Er & _)]; [congruence|].
  assert (hash = hash1) as <- by (apply (f_equal (λ v, vget_opt v "hash")) in Er; by injection Er).
  destruct (new_record_link _ _ _ _ _ _ Ht Hhash) as (L & _ & Hof).
  eexists _, _, hash. split_and!; [exact E| |done|exact L|by rewrite state_of_appended].
  unfold hot, appended. cbn [records]. by rewrite filter_app, filter_cons_True.
Qed.

Lemma append_succeeds_witness : ∃ s' r h,
  append 7 demo_store3 (demo_event "a" "e9") no_append_options = Ret (s', r) ∧
  hot s' "a" = hot demo_store3 "a" ++ [r] ∧ vget_opt r "event" = demo_event "a" "e9" ∧
  link (vnull_or_str (authoritativeTipHash (state_of demo_store3 "a")))
    (authoritativeTipSequence (state_of demo_store3 "a")) r h ∧
  authoritativeTipHash (state_of s' "a") = Some h.
Proof.
  apply (append_succeeds 7 demo_store3 (demo_event "a" "e9") no_append_options "a"
    (default "" (exc_to_option (append_key "a" (demo_event "a" "e9") no_append_options)))).
  - exact demo_reachable3.
  - reflexivity.
  - reflexivity.
  - vm_compute. reflexivity.
  - vm_compute. reflexivity.
  - by vm_compute.
  - by left.
Defined.

(** Tenants are isolated: a call made for one tenant leaves the records, the
    chain state, the checkpoints, the attempts and the receipts of every other
    tenant as they were. *)
Theorem tenant_isolation `{Hasher} `{Host} `{Base64} s s' t t' :
  reachable s → store_step t s s' → t' ≠ t → same_view s s' t'.
Proof. apply step_frame_reachable. Qed.

Lemma tenant_isolation_witness : same_view demo_store3 demo_store4 "b".
Proof. apply (tenant_isolation demo_store3 demo_store4 "a" "b"); [exact demo_reachable3|exact demo_step4|done]. Defined.

(** Every stored disposition receipt verifies against the tenant's stored
    checkpoint it is filed under, and an attempt is marked disposed exactly when
    its receipt is stored. *)
Theorem dispositions_verified `{Hasher} `{Host} `{Base64} s t h :
  reachable s →
  (∀ d, dispositions_of s t !! h = Some d → ∃ cp sig, find_checkpoint s t h = Some cp ∧
      verifyRetentionDisposition d cp no_options = Ret (RetentionOk sig)) ∧
  (is_Some (dispositions_of s t !! h) ↔ ∃ a, attempts_of s t !! h = Some a ∧ status a = Disposed).
Proof. intros Hr. apply (reachable_dispositions s Hr). Qed.

Lemma dispositions_verified_witness :
  let h := default "" (str_of demo_archive_hash) in
  (∀ d, dispositions_of demo_store6 "a" !! h = Some d → ∃ cp sig, find_checkpoint demo_store6 "a" h = Some cp ∧
      verifyRetentionDisposition d cp no_options = Ret (RetentionOk sig)) ∧
  (is_Some (dispositions_of demo_store6 "a" !! h) ↔
   ∃ a, attempts_of demo_store6 "a" !! h = Some a ∧ status a = Disposed).
Proof. intros h. apply (dispositions_verified demo_store6 "a" h). exact demo_reachable6. Defined.

(** Expected versions are single-use: once a policy fence was advanced from a
    version, or a range was archived on an expected chain state, no later call that
    expects the same version or state succeeds. *)
Theorem expected_versions_single_use `{Hasher} `{Host} `{Base64} s s1 s2 scope t :
  reachable s → scope_tenant scope = Ret t → rtc some_step s1 s2 →
  (∀ v fence, advanceRetentionPolicyFence s scope v = Ret (s1, fence) →
     is_ret (advanceRetentionPolicyFence s2 scope v) = false) ∧
  (∀ cp expected fence cp' fence', is_json cp = true → is_json cp' = true →
     compactRange s scope cp expected fence = Ret s1 →
     is_ret (compactRange s2 scope cp' expected fence') = false).
Proof.
  intros Hr Hs Hrun. split.
  - intros v fence E. destruct (is_ret _) eqn:E2; [|done]. exfalso.
    apply is_ret_spec in E2 as [[s3 f3] E2].
    assert (advances s1 s2 t) as Hadv.
    { apply run_advances; [|done]. eapply reachable_step; [exact Hr|]. exists t. by eapply step_advance. }
    apply advance_ret in E as (t1 & Hs1 & Hv & Hf & _ & ->). rewrite Hs in Hs1. injection Hs1 as <-.
    apply advance_ret in E2 as (t2 & Hs2 & Hv2 & _). rewrite Hs in Hs2. injection Hs2 as <-.
    pose proof (adv_fence _ _ _ Hadv) as Ha. rewrite state_of_set in Ha. cbn in Ha.
    rewrite Hv in Hv2. injection Hv2 as Hv2. lia.
  - intros cp ex f cp' f' Hj Hj' E. destruct (is_ret _) eqn:E2; [|done]. exfalso.
    apply is_ret_spec in E2 as [s3 E2].
    assert (advances s1 s2 t) as Hadv.
    { apply run_advances; [|done]. eapply reachable_step; [exact Hr|]. exact (ex_intro _ t (step_compact t s scope cp ex f s1 Hs Hj E)). }
    pose proof (compactRange_expected _ _ _ _ _ _ _ Hs E) as X1.
    pose proof (compactRange_expected _ _ _ _ _ _ _ Hs E2) as X2.
    rewrite X1 in X2. apply VInt_inj in X2.
    apply compactRange_ret in E as (t1 & thr & _ & h & ch & prev & Hs1 & _ & _ & _ & _ & _ & Hthr & _ & ->); [|done].
    rewrite Hs in Hs1. injection Hs1 as <-. pose proof (adv_min _ _ _ Hadv) as Ha.
    destruct (compacted_view s t (minimumRetainedSequence (state_of s t)) thr ch cp) as [E1 _].
    rewrite E1 in Ha. cbn in Ha. lia.
Qed.

Lemma expected_versions_single_use_witness :
  let expected := chain_state_val (state_of demo_store3 "a") in
  (∀ v fence, advanceRetentionPolicyFence demo_store3 (demo_scope "a") v = Ret (demo_store4, fence) →
     is_ret (advanceRetentionPolicyFence demo_store6 (demo_scope "a") v) = false) ∧
  (∀ cp expected fence cp' fence', is_json cp = true → is_json cp' = true →
     compactRange demo_store3 (demo_scope "a") cp expected fence = Ret demo_store4 →
     is_ret (compactRange demo_store6 (demo_scope "a") cp' expected fence') = false).
Proof.
  intros expected. apply (expected_versions_single_use demo_store3 demo_store4 demo_store6 (demo_scope "a") "a").
  - exact demo_reachable3.
  - reflexivity.
  - eapply rtc_l; [exact demo_step5|]. apply rtc_once. exact demo_step6.
Defined.

(** Pages compose: in a reachable store, the page of [n] records after [a]
    followed by everything after the sequence number [a + n] is everything after
    [a]. *)
Theorem list_pages `{Hasher} `{Host} `{Base64} s scope t a n :
  reachable s → scope_tenant scope = Ret t →
  (minimumRetainedSequence (state_of s t) - 1 ≤ a)%Z → (0 ≤ n)%Z →
  ∃ first rest, list_records s scope (ListOptions (VInt a) (VInt n)) = Ret first ∧
    list_records s scope (ListOptions (VInt (a + n)) VUndef) = Ret rest ∧
    list_records s scope (ListOptions (VInt a) VUndef) = Ret (first ++ rest).
Proof.
  intros Hr Hs Ha Hn. destruct (reachable_ok _ Hr t (scope_tenant_nonempty _ _ Hs)) as [hist Hh].
  pose proof (hist_min _ _ _ _ _ Hh) as Hm.
  assert (∀ z m, (0 ≤ z)%Z → list_option (VInt z) m = Ret (Some z)) as Hopt.
  { intros z m Hz. unfold list_option, VInt. rewrite num_int_of_Z. by rewrite (proj2 (Z.leb_le _ _)). }
  exists (page s t (Some a) (Some n)), (page s t (Some (a + n)%Z) None). split_and!.
  - apply list_records_page; [done|done|apply Hopt; lia|by apply Hopt].
  - apply list_records_page; [done|done|apply Hopt; lia|done].
  - rewrite (list_records_page _ _ t _ (Some a) None); [|done|done|apply Hopt; lia|done].
    f_equal. unfold page. cbn [default]. set (m := minimumRetainedSequence (state_of s t)) in *.
    rewrite <- (take_drop (Z.to_nat n) (drop (Z.to_nat (a - m + 1)) (hot s t))) at 1. f_equal.
    rewrite drop_drop. f_equal. unfold id. lia.
Qed.

Lemma list_pages_witness : ∃ first rest,
  list_records demo_store3 (demo_scope "a") (ListOptions (VInt 0) (VInt 1)) = Ret first ∧
  list_records demo_store3 (demo_scope "a") (ListOptions (VInt (0 + 1)) VUndef) = Ret rest ∧
  list_records demo_store3 (demo_scope "a") (ListOptions (VInt 0) VUndef) = Ret (first ++ rest).
Proof.
  apply (list_pages demo_store3 (demo_scope "a") "a" 0 1);
    [exact demo_reachable3|reflexivity|by vm_compute|done].
Defined.
