(* ===== verification/FileStore.v ===== *)
(** * The file evidence store (storage/src/file-store.ts)

    Three files of JSON lines in one directory: events, edges and commits. An
    operation reads the files, decides, and appends its lines one by one, so a
    process that dies leaves the files with the lines written so far. The files
    are their text. An operation is a function from the files to the lines it
    appends and its result; the lock file makes operations of several processes
    follow each other, and how often it is found taken is an argument. A missing
    file reads as an empty one. Sequence numbers are exact below 2^53. *)

From S2P Require Import Prelude Regex JsNum JsVal Dates JsonText Hash Canonical Keyed AuditChain ChainModes Redact Event Commit.
From S2P Require Import ExportBundle Store Doubles.

Record files := Files { events_text : string; edges_text : string; commits_text : string }.

Definition no_files : files := Files "" "" "".

Inductive path := EventsPath | EdgesPath | CommitsPath.
#[global] Instance path_eq_dec : EqDecision path.
Proof. solve_decision. Defined.

Definition text_at (fs : files) (p : path) : string :=
  match p with EventsPath => events_text fs | EdgesPath => edges_text fs | CommitsPath => commits_text fs end.

(** A record and the file it is appended to. *)
Definition line : Type := path * val.

(** [`${JSON.stringify(record)}\n`] *)
Definition json_line (record : val) : string := default "undefined" (json_stringify record) +:+ newline.

Definition appendJsonl (fs : files) (l : line) : files :=
  let text := text_at fs l.1 +:+ json_line l.2 in
  match l.1 with
  | EventsPath => Files text (edges_text fs) (commits_text fs)
  | EdgesPath => Files (events_text fs) text (commits_text fs)
  | CommitsPath => Files (events_text fs) (edges_text fs) text
  end.

Definition append_lines (fs : files) (ls : list line) : files := fold_left appendJsonl ls fs.

Definition parse_line (text : string) : exc val :=
  match json_parse text with Some v => Ret v | None => Throw "unexpected token" end.

Definition readJsonl (text : string) : exc (list val) :=
  mapE parse_line (filter (λ l, blank l = false) (split_lines (chars text))).

(** [withLock]: [held n] tells whether attempt [n] to create the lock file finds one. *)
Fixpoint lock_attempts {A} (fuel : nat) (attempt : nat) (held : nat → bool) (operation : exc A) : exc A :=
  if held attempt then
    match fuel with
    | O => Throw "EEXIST"
    | S fuel => lock_attempts fuel (S attempt) held operation
    end
  else operation.

Definition withLock {A} (held : nat → bool) (operation : exc A) : exc A := lock_attempts 500 0 held operation.

Definition requireTenantId (tenantId : val) : exc unit := guard_exc (non_blank_string tenantId) "scope.tenantId is required".

(** [event.scope?.tenantId] *)
Definition scope_tenantId (evidence : val) : val := vget_opt (vget_opt evidence "scope") "tenantId".

(** What one call sees of its environment: a random id, the clock when the
    evidence is created, and the clock when the record is. *)
Record env := Env { env_uuid : string; env_now : Z; env_appendedAt : Z }.

(** [(tip?.sequence ?? 0) + 1] *)
Definition next_sequence `{Host} (tip : val) : exc val := plus_one (nullish_or (vget_opt tip "sequence") (VInt 0)).

Definition next_hash (tip : val) : val := nullish_or (vget_opt tip "hash") VNull.

(** [values.find(value => value[key] === s)]; reading a property of null throws. *)
Fixpoint find_by (key : string) (s : val) (values : list val) : exc (option val) :=
  match values with
  | [] => Ret None
  | value :: values =>
      found ← vget value key; if strict_eq found s then Ret (Some value) else find_by key s values
  end.

Section FileStore.
Context `{Hasher} `{Host}.

(** The fields of a record before it is hashed. *)
Definition unhashed (kind : chainKind) (evidence sequence tip : val) (appendedAt : Z) (keyHash : string) : list (string * val) :=
  [(evidence_key kind, evidence); ("sequence", sequence); ("previousHash", next_hash tip);
   ("hashAlgorithm", VStr HASH_ALGORITHM); ("canonicalization", VStr CANONICALIZATION);
   ("appendedAt", VStr (toISOString appendedAt)); ("idempotencyKeyHash", VStr keyHash)].

(** Appends or replays one record: the records with it, the record, and whether
    it is new. *)
Definition append_record (kind : chainKind) (now : Z) (records : list val) (evidence : val)
    : exc (list val * (val * bool)) :=
  scope ← vget evidence "scope"; tenantId ← vget scope "tenantId"; id ← vget evidence "id";
  keyHash ← hashIdempotencyKey tenantId id;
  existing ← find_by "idempotencyKeyHash" (VStr keyHash) records;
  match existing with
  | Some existing =>
      stored ← canonicalJson (vget_opt existing (evidence_key kind));
      given ← canonicalJson evidence;
      _ ← guard_exc (bool_decide (stored = given)) "idempotency conflict";
      Ret (records, (existing, false))
  | None =>
      let tip := default VUndef (last records) in
      sequence ← next_sequence tip;
      let recordWithoutHash := unhashed kind evidence sequence tip now keyHash in
      hash ← hashRecord kind (VObj recordWithoutHash);
      let record := VObj (recordWithoutHash ++ [("hash", VStr hash)]) in
      Ret (records ++ [record], (record, true))
  end.

Definition appendEventRecord : Z → list val → val → exc (list val * (val * bool)) := append_record Audit.
Definition appendEdgeRecord : Z → list val → val → exc (list val * (val * bool)) := append_record Edge.

(** The lines of the new records among these. *)
Definition new_lines (p : path) (appended : list (val * bool)) : list line :=
  (λ r, (p, r.1)) <$> filter (λ r, r.2 = true) appended.

Definition recordEvent (held : nat → bool) (e : env) (fs : files) (input : AuditEventInput) : exc (list line * val) :=
  event ← createAuditEvent (env_uuid e) (env_now e) input;
  _ ← requireTenantId (scope_tenantId event);
  withLock held (
    records ← readJsonl (events_text fs);
    '(_, appended) ← appendEventRecord (env_appendedAt e) records event;
    Ret (new_lines EventsPath [appended], appended.1)).

Definition recordEdge (held : nat → bool) (e : env) (fs : files) (input : val) : exc (list line * val) :=
  edge ← createEvidenceEdge (env_uuid e) (env_now e) input;
  _ ← requireTenantId (scope_tenantId edge);
  withLock held (
    records ← readJsonl (edges_text fs);
    '(_, appended) ← appendEdgeRecord (env_appendedAt e) records edge;
    Ret (new_lines EdgesPath [appended], appended.1)).

(** One pass over the inputs of a batch: every record sees the ones before it. *)
Fixpoint append_all {I} (create : env → I → exc val) (append : Z → list val → val → exc (list val * (val * bool)))
    (records : list val) (inputs : list (env * I)) : exc (list val * list (val * bool)) :=
  match inputs with
  | [] => Ret (records, [])
  | (e, input) :: inputs =>
      evidence ← create e input;
      _ ← requireTenantId (scope_tenantId evidence);
      '(records, appended) ← append (env_appendedAt e) records evidence;
      '(records, rest) ← append_all create append records inputs;
      Ret (records, appended :: rest)
  end.

Definition append_events : list val → list (env * AuditEventInput) → exc (list val * list (val * bool)) :=
  append_all (λ e input, createAuditEvent (env_uuid e) (env_now e) input) appendEventRecord.
Definition append_edges : list val → list (env * val) → exc (list val * list (val * bool)) :=
  append_all (λ e input, createEvidenceEdge (env_uuid e) (env_now e) input) appendEdgeRecord.

Definition member_type (kind : chainKind) : string :=
  match kind with Audit => "audit.record" | Edge => "evidence.edge.record" end.

Definition batch_member (kind : chainKind) (index : nat) (record : val) : exc val :=
  evidence ← vget record (evidence_key kind); id ← vget evidence "id";
  hash ← vget record "hash"; text ← js_String hash;
  Ret (VObj [("index", VInt (Z.of_nat index)); ("recordType", VStr (member_type kind)); ("recordId", id);
             ("recordHash", VStr ("sha256:" +:+ text))]).

Definition batch_members (kind : chainKind) (first : nat) (records : list val) : exc (list val) :=
  mapE (λ ir, batch_member kind ir.1 ir.2) (imap (λ i r, (first + i, r)%nat) records).

Record FileEvidenceBatchInput := BatchInput {
  commitId : val;
  streamId : val;
  batch_events : list (env * AuditEventInput);
  batch_edges : list (env * val);
  committedAt : val;
}.

Record FileEvidenceBatchResult := BatchResult { events : list val; edges : list val; commit : val }.

(** The commit of a batch after the commits of the file. *)
Definition batch_commit (now : Z) (input : FileEvidenceBatchInput) (commits members : list val) : exc val :=
  streams ← mapE (λ c, vget c "streamId") commits;
  let previous := default VUndef
    (last ((λ cs, cs.1) <$> filter (λ cs, strict_eq cs.2 (streamId input) = true) (zip commits streams))) in
  sequence ← next_sequence previous;
  createEvidenceCommit now (VObj
    ([("commitId", commitId input); ("streamId", streamId input); ("sequence", sequence);
      ("previousCommitHash", next_hash previous); ("members", VArr members)]
     ++ (if is_undef (committedAt input) then [] else [("committedAt", committedAt input)]))).

(** [commits.find(...)] by stream and id. *)
Fixpoint find_commit (input : FileEvidenceBatchInput) (commits : list val) : exc (option val) :=
  match commits with
  | [] => Ret None
  | c :: commits =>
      stream ← vget c "streamId";
      if strict_eq stream (streamId input) && strict_eq (vget_opt c "commitId") (commitId input) then Ret (Some c)
      else find_commit input commits
  end.

Definition recordBatch (held : nat → bool) (now : Z) (fs : files) (input : FileEvidenceBatchInput)
    : exc (list line * FileEvidenceBatchResult) :=
  withLock held (
    eventRecords ← readJsonl (events_text fs);
    edgeRecords ← readJsonl (edges_text fs);
    commits ← readJsonl (commits_text fs);
    '(_, appendedEvents) ← append_events eventRecords (batch_events input);
    '(_, appendedEdges) ← append_edges edgeRecords (batch_edges input);
    _ ← guard_exc (negb (length appendedEvents + length appendedEdges =? 0)%nat)
          "batch must include at least one event or edge";
    event_members ← batch_members Audit 0 (fst <$> appendedEvents);
    edge_members ← batch_members Edge (length appendedEvents) (fst <$> appendedEdges);
    let members := event_members ++ edge_members in
    existingCommit ← find_commit input commits;
    match existingCommit with
    | Some existing =>
        stored ← canonicalJson (vget_opt existing "members");
        given ← canonicalJson (VArr members);
        _ ← guard_exc (bool_decide (stored = given)) "commit id conflict";
        Ret ([], BatchResult (fst <$> appendedEvents) (fst <$> appendedEdges) existing)
    | None =>
        commit ← batch_commit now input commits members;
        Ret (new_lines EventsPath appendedEvents ++ new_lines EdgesPath appendedEdges ++ [(CommitsPath, commit)],
             BatchResult (fst <$> appendedEvents) (fst <$> appendedEdges) commit)
    end).

Definition listEvents (fs : files) : exc (list val) := readJsonl (events_text fs).
Definition listEdges (fs : files) : exc (list val) := readJsonl (edges_text fs).
Definition listCommits (fs : files) : exc (list val) := readJsonl (commits_text fs).

Record FileEvidenceVerification := FileVerification {
  ok : bool;
  audit : VerificationResult reason;
  edge_chain : VerificationResult reason;
  commit_ledger : VerificationResult commit_reason;
}.

Definition is_ok {R} (v : VerificationResult R) : bool := match v with VerifyOk => true | _ => false end.

Definition verify (fs : files) : exc FileEvidenceVerification :=
  event_records ← readJsonl (events_text fs); audit ← verifyAuditRecords event_records;
  edge_records ← readJsonl (edges_text fs); edges ← verifyEvidenceEdgeRecords edge_records;
  commit_records ← readJsonl (commits_text fs); commits ← verifyEvidenceCommits commit_records;
  Ret (FileVerification (is_ok audit && is_ok edges && is_ok commits) audit edges commits).
End FileStore.
