(* ===== verification/FileSafety.v ===== *)
(** * Histories of the file evidence store

    Whatever processes do, and wherever they die: the files are read back, the
    chains verify, and a commit names records that are in the files. *)

From S2P Require Import Prelude Regex JsNum JsVal Dates JsonText Hash Canonical Keyed AuditChain ChainModes Redact Event Commit.
From S2P Require Import ExportBundle BundleVerify Store StoreHistory Demo FileStore Doubles.

(** ** The text of a file *)

Definition jsonl (rs : list val) : string := of_chars (concat ((λ r, chars (json_line r)) <$> rs)).

Lemma jsonl_snoc rs r : jsonl (rs ++ [r]) = jsonl rs +:+ json_line r.
Proof. unfold jsonl. rewrite fmap_app, concat_app, of_chars_app. cbn. by rewrite app_nil_r, of_chars_chars. Qed.

Lemma json_line_text r : is_json r = true → json_line r = text_line r +:+ newline.
Proof. intros Hj. unfold json_line. by rewrite json_stringify_json. Qed.

Lemma text_line_not_blank r : is_json r = true → blank (text_line r) = false.
Proof.
  intros Hj. assert (∃ c l, jtext r = c :: l ∧ js_space c = false) as (c & l & E & Hc).
  { destruct r as [| |[]|n|s|xs|fs|t|o]; try done.
    1,2,3,5: by eexists _, _.
    - cbn in Hj. apply andb_true_iff in Hj as [_ Hj]. destruct (num_head n Hj) as (c & l & Hc & Hd).
      exists c, l. split; [exact Hc|]. destruct Hd as [Hd| ->]; [|done]. unfold digit, in_range in Hd. bool_prop.
      change (code "0") with 48%Z in *. change (code "9") with 57%Z in *. unfold js_space.
      rewrite (proj2 (Z.leb_gt _ 13)), (proj2 (Z.eqb_neq _ 32)), (proj2 (Z.eqb_neq _ 160)) by lia. by rewrite andb_false_r.
    - rewrite jtext_arr by done. by eexists _, _.
    - rewrite jtext_obj by done. by eexists _, _. }
  unfold blank, text_line. by rewrite chars_of_chars, E; cbn [forallb]; rewrite Hc.
Qed.

Lemma parse_line_text r : is_json r = true → parse_line (text_line r) = Ret r.
Proof.
  intros Hj. unfold parse_line, text_line.
  by rewrite (parse_stringify r (of_chars (jtext r)) Hj) by by apply json_stringify_json.
Qed.

Lemma json_lines_texts rs : Forall (λ r, is_json r = true) rs → (λ r, chars (json_line r)) <$> rs = (λ l, chars l ++ [nl]) <$> (text_line <$> rs).
Proof.
  intros Hj. rewrite <- list_fmap_compose. apply list_fmap_ext. intros i r Hr. unfold compose.
  rewrite json_line_text by (rewrite Forall_forall in Hj; eapply Hj, list_elem_of_lookup_2, Hr).
  by rewrite chars_app.
Qed.

Lemma texts_visible rs : Forall (λ r, is_json r = true) rs → Forall (λ l, Forall visible (chars l)) (text_line <$> rs).
Proof.
  intros Hj. rewrite Forall_fmap. eapply Forall_impl; [exact Hj|]. intros r Hr. unfold compose, text_line.
  rewrite chars_of_chars. by apply jtext_visible.
Qed.

Lemma texts_not_blank rs : Forall (λ r, is_json r = true) rs → filter (λ l, blank l = false) (text_line <$> rs) = text_line <$> rs.
Proof.
  induction 1 as [|r l Hr _ IH]; [done|]. rewrite fmap_cons, filter_cons_True by by apply text_line_not_blank.
  by rewrite IH.
Qed.

Lemma parse_texts rs : Forall (λ r, is_json r = true) rs → mapE parse_line (text_line <$> rs) = Ret rs.
Proof.
  induction 1 as [|r l Hr _ IH]; [done|]. cbn [fmap list_fmap mapE]. rewrite parse_line_text by done. cbn [mbind exc_mbind].
  change (mapE parse_line (text_line <$> l) = Ret l) in IH. by rewrite IH.
Qed.

Lemma readJsonl_jsonl rs : Forall (λ r, is_json r = true) rs → readJsonl (jsonl rs) = Ret rs.
Proof.
  intros Hj. unfold readJsonl, jsonl. rewrite chars_of_chars, json_lines_texts by done.
  rewrite split_lines_text by by apply texts_visible. rewrite filter_app. cbn. rewrite app_nil_r.
  by rewrite texts_not_blank, parse_texts.
Qed.

(** ** One chain *)

Section Histories.
Context `{HS : Hasher} `{HO : Host}.
Context (tenant : string).

Record chain_ok (kind : chainKind) (rs : list val) : Prop := {
  ok_json : Forall (λ r, is_json r = true) rs;
  ok_tenant : Forall (λ r, envelope kind r tenant) rs;
  ok_chain : ∃ tip n, chain rs tip n;
  ok_keys : NoDup ((λ r, vget_opt r "idempotencyKeyHash") <$> rs);
}.

Lemma chain_ok_nil kind : chain_ok kind [].
Proof. constructor; [constructor|constructor|by do 2 eexists; constructor|constructor]. Qed.

Lemma chain_ok_prefix kind rs rs' : chain_ok kind (rs ++ rs') → chain_ok kind rs.
Proof.
  intros [Hj Ht (tip & n & Hc) Hk]. apply Forall_app in Hj as [Hj _], Ht as [Ht _].
  rewrite fmap_app in Hk. apply NoDup_app in Hk as [Hk _]. apply chain_app_inv in Hc. by constructor.
Qed.

Lemma next_of_tip rs tip n :
  chain rs tip n → let last := default VUndef (last rs) in next_sequence last = Ret (VInt (n + 1)) ∧ next_hash last = tip.
Proof.
  intros Hc. destruct Hc as [|rs tip n r h Hc Hl]; cbn zeta.
  - split; [exact (plus_one_int 0)|done].
  - rewrite last_snoc. change (default VUndef (Some r)) with r. destruct Hl as [Hs _ Hh _].
    apply vget_obj_opt in Hs, Hh. split.
    + unfold next_sequence. rewrite Hs. apply plus_one_int.
    + unfold next_hash. by rewrite Hh.
Qed.

Lemma find_by_ret key s l o : find_by key s l = Ret o →
  match o with
  | Some v => v ∈ l ∧ strict_eq (vget_opt v key) s = true
  | None => Forall (λ v, strict_eq (vget_opt v key) s = false) l
  end.
Proof.
  induction l as [|v l IH]; cbn [find_by]; intros E; [by injection E as <-; constructor|].
  apply bind_ret in E as (w & Hw & E). apply vget_obj_opt in Hw.
  destruct (strict_eq w s) eqn:Es.
  - injection E as <-. rewrite Hw. split; [left|done].
  - specialize (IH E). destruct o as [u|]; [|constructor; [by rewrite Hw|done]].
    destruct IH as [Hu Hk]. split; [by right|done].
Qed.

(** An evidence value that a record of this tenant may hold. *)
Definition evidence_ok (e : val) : Prop := is_json e = true ∧ scope_tenantId e = VStr tenant ∧ blank tenant = false.

Definition same_text_as (a b : val) : Prop := canonicalJson a = canonicalJson b.

(** What appending one record does. *)
Lemma append_record_ok kind now rs e rs' r b :
  append_record kind now rs e = Ret (rs', (r, b)) → evidence_ok e → chain_ok kind rs →
  chain_ok kind rs' ∧ rs' = rs ++ (if b then [r] else []) ∧ r ∈ rs' ∧ same_text_as (vget_opt r (evidence_key kind)) e.
Proof.
  intros E (Hj & Ht & Hb) Hok. pose proof (ok_chain _ _ Hok) as (tip & n & Hc). unfold append_record in E.
  apply bind_ret in E as (scope & Hscope & E). apply bind_ret in E as (t & Htid & E). apply bind_ret in E as (id & Hid & E).
  apply bind_ret in E as (k & Hk & E). apply bind_ret in E as (o & Ho & E). apply find_by_ret in Ho.
  assert (t = VStr tenant) as ->.
  { unfold scope_tenantId in Ht. apply vget_obj_opt in Hscope, Htid. by rewrite Hscope, Htid in Ht. }
  destruct o as [existing|].
  - apply bind_ret in E as (a & Ha & E). apply bind_ret in E as (c & Hcc & E).
    apply bind_ret in E as ([] & Hg & E). apply guard_ret, bool_decide_eq_true in Hg as ->. injection E as <- <- <-.
    rewrite app_nil_r. unfold same_text_as. rewrite Ha, Hcc. by destruct Ho.
  - destruct (next_of_tip _ _ _ Hc) as [Hs Hp]. cbn zeta in E. rewrite Hs in E. apply bind_ret in E as (q & [= <-] & E).
    apply bind_ret in E as (h & Hh & E). injection E as <- <- <-.
    set (r := VObj _). assert (envelope kind r tenant) as He.
    { constructor; [|by destruct kind|by destruct kind]. exists e, scope. split_and!; [by destruct kind|done|by apply vget_obj_opt in Htid|].
      by intros ->. }
    assert (link tip n r h) as Hl.
    { constructor; [by destruct kind|destruct kind; cbn; by rewrite Hp|by destruct kind|].
      apply hashRecord_text in Hh as (text & Htext & ->). exists text. split; [|done]. rewrite <- Htext. by destruct kind. }
    split; [|split; [done|split; [apply elem_of_app; right; left|by destruct kind]]].
    destruct Hok as [Hjs Hts _ Hks]. constructor.
    + apply Forall_app. split; [done|]. constructor; [|constructor]. apply is_json_obj. split; [by destruct kind|].
      unfold unhashed. rewrite Hp. pose proof (chain_tip _ _ _ Hc) as [->|[? ->]];
        repeat first [apply Forall_nil_2 | apply Forall_cons_2; [first [exact Hj|apply is_json_int|reflexivity]|]].
    + apply Forall_app. split; [done|]. constructor; [done|constructor].
    + do 2 eexists. by econstructor.
    + rewrite fmap_app. apply NoDup_app. split; [done|]. split; [|apply NoDup_singleton].
      intros x Hx ->%list_elem_of_singleton. apply list_elem_of_fmap in Hx as (v & Hv & Hin).
      rewrite Forall_forall in Ho. specialize (Ho v Hin). cbn in Ho. rewrite <- Hv in Ho.
      replace (vget_opt r "idempotencyKeyHash") with (VStr k) in Ho by by destruct kind. by rewrite strict_eq_str_refl in Ho.
Qed.

(** ** Batches *)

(** The inputs of a batch are of this tenant, and are what JSON can carry. *)
Definition fits (v : val) : Prop := is_json v = true ∧ scope_tenantId v = VStr tenant.
Definition inputs_fit {I} (create : env → I → exc val) (inputs : list (env * I)) : Prop :=
  Forall (λ ei, ∀ v, create ei.1 ei.2 = Ret v → fits v) inputs.

Definition added (appended : list (val * bool)) : list val := fst <$> filter (λ r, r.2 = true) appended.

Lemma fits_evidence v : fits v → requireTenantId (scope_tenantId v) = Ret tt → evidence_ok v.
Proof.
  intros [Hj Ht] Hr. split_and!; [done|done|]. apply guard_ret in Hr. rewrite Ht in Hr. cbn in Hr. by bool_prop.
Qed.

Lemma append_all_ok {I} kind (create : env → I → exc val) inputs : ∀ rs rs' appended,
  append_all create (append_record kind) rs inputs = Ret (rs', appended) → inputs_fit create inputs → chain_ok kind rs →
  chain_ok kind rs' ∧ rs' = rs ++ added appended ∧ Forall (λ r, r.1 ∈ rs') appended.
Proof.
  induction inputs as [|[e input] inputs IH]; intros rs rs' appended E Hf Hok; cbn [append_all] in E.
  - injection E as <- <-. unfold added. cbn. by rewrite app_nil_r.
  - apply Forall_cons in Hf as [Hf Hfs]. apply bind_ret in E as (v & Hv & E). apply bind_ret in E as ([] & Ht & E).
    apply bind_ret in E as ([rs1 [r b]] & Ha & E). apply bind_ret in E as ([rs2 rest] & Hrest & E). injection E as <- <-.
    pose proof (fits_evidence v (Hf v Hv) Ht) as Hev.
    destruct (append_record_ok _ _ _ _ _ _ _ Ha Hev Hok) as (Hok1 & -> & Hin & _).
    destruct (IH _ _ _ Hrest Hfs Hok1) as (Hok2 & -> & Hall). split; [done|]. unfold added. rewrite filter_cons. cbn [snd].
    split; [destruct b; cbn; by rewrite <- app_assoc|]. constructor; [|done]. apply elem_of_app. by left.
Qed.

(** The record a commit member names. *)
Definition names (kind : chainKind) (m : member) (r : val) : Prop :=
  recordType m = member_type kind ∧ vget_opt (vget_opt r (evidence_key kind)) "id" = VStr (recordId m) ∧
  ∃ h, vget_opt r "hash" = VStr h ∧ recordHash m = "sha256:" +:+ h.

Definition present (evs eds : list val) (m : member) : Prop :=
  (∃ r, r ∈ evs ∧ names Audit m r) ∨ (∃ r, r ∈ eds ∧ names Edge m r).

Definition covered (evs eds : list val) (c : val) : Prop :=
  ∃ ms, normalizeCommitMembers (vget_opt c "members") = Ret ms ∧ Forall (present evs eds) ms.

Lemma covered_subset evs eds evs' eds' c : evs ⊆ evs' → eds ⊆ eds' → covered evs eds c → covered evs' eds' c.
Proof.
  intros H1 H2 (ms & Hn & Hp). exists ms. split; [done|]. eapply Forall_impl; [exact Hp|].
  intros m [(r & Hr & Hm)|(r & Hr & Hm)]; [left|right]; exists r; split; auto.
Qed.

Definition hashed (r : val) : Prop := ∃ h, vget r "hash" = Ret (VStr h).

Lemma chain_hashed rs tip n : chain rs tip n → Forall hashed rs.
Proof.
  induction 1 as [|rs tip n r h _ IH Hl]; [constructor|]. apply Forall_app. split; [done|].
  constructor; [exists h; apply Hl|constructor].
Qed.

Lemma batch_member_clean kind i r v m :
  hashed r → batch_member kind i r = Ret v → cleanCommitMember v = Ret m → names kind m r.
Proof.
  intros [h Hh] E Hc. unfold batch_member in E. apply bind_ret in E as (ev & Hev & E). apply bind_ret in E as (id & Hid & E).
  rewrite Hh in E. cbn [mbind exc_mbind js_String] in E. injection E as <-.
  apply vget_obj_opt in Hev, Hid, Hh. unfold cleanCommitMember in Hc. cbn [vget obj_get mbind exc_mbind] in Hc.
  cbn in Hc. destruct (match VInt (Z.of_nat i) with VNum n => num_int n | _ => None end) as [z|]; [|done].
  apply bind_ret in Hc as ([] & _ & Hc). apply bind_ret in Hc as ([] & _ & Hc). apply bind_ret in Hc as ([] & Hid' & Hc).
  apply bind_ret in Hc as ([] & _ & [= <-]). apply assertNonEmpty_ret, non_blank_string_str in Hid' as (s & -> & _).
  split; [done|]. split; [by rewrite Hev|]. by exists h.
Qed.

Lemma batch_members_named kind first rs vs v m :
  batch_members kind first rs = Ret vs → Forall hashed rs → v ∈ vs → cleanCommitMember v = Ret m →
  ∃ r, r ∈ rs ∧ names kind m r.
Proof.
  intros E%mapE_Forall2 Hh Hv Hc. apply list_elem_of_lookup_1 in Hv as [i Hi].
  eapply Forall2_lookup_r in E as ([j r] & Hj & Er); [|exact Hi].
  rewrite list_lookup_imap in Hj. destruct (rs !! i) as [r'|] eqn:Hr; [|done]. injection Hj as <- <-.
  exists r'. apply list_elem_of_lookup_2 in Hr. split; [done|].
  rewrite Forall_forall in Hh. exact (batch_member_clean _ _ _ _ _ (Hh r' Hr) Er Hc).
Qed.

(** ** The ledger of commits *)

Record ledger_ok (evs eds cms : list val) : Prop := {
  ledger_json : Forall (λ c, is_json c = true) cms;
  ledger_envelopes : Forall (λ c, ∃ stream, commit_envelope c stream) cms;
  ledger_chains : ∀ stream, ∃ s, commit_chain (stream_commits stream cms) s;
  ledger_covered : Forall (covered evs eds) cms;
}.

Lemma next_of_commits cs s :
  commit_chain cs s → let last := default VUndef (last cs) in
  next_sequence last = Ret (VInt (sequence s + 1)) ∧ next_hash last = previousHash s.
Proof.
  intros Hc. destruct Hc as [|cs s c s' _ [_ Hs _ (h & _ & Hh & ->)]]; cbn zeta; [split; [exact (plus_one_int 0)|done]|].
  rewrite last_snoc. change (default VUndef (Some c)) with c. apply vget_obj_opt in Hs, Hh.
  unfold next_sequence, next_hash. rewrite Hs, Hh. split; [|done].
  apply plus_one_int.
Qed.

Lemma stream_filter stream cms : Forall (λ c, ∃ s, commit_envelope c s) cms →
  ∀ streams, mapE (λ c, vget c "streamId") cms = Ret streams →
  (λ cs, cs.1) <$> filter (λ cs, strict_eq cs.2 (VStr stream) = true) (zip cms streams) = stream_commits stream cms.
Proof.
  induction 1 as [|c cms [s He] _ IH]; intros streams E; cbn [mapE] in E; [by injection E as <-|].
  apply bind_ret in E as (v & Hv & E). apply bind_ret in E as (vs & Hvs & [= <-]).
  destruct (commit_stream _ _ He) as [Hs _]. rewrite Hs in Hv. injection Hv as <-.
  cbn [zip zip_with]. rewrite filter_cons. cbn [snd]. unfold stream_commits. rewrite of_key_cons. unfold has_key.
  rewrite (proj2 (check_commit_envelope_ok c (VStr s)) (ex_intro _ s (conj eq_refl He))).
  specialize (IH _ Hvs). unfold stream_commits in IH. case_decide as Hd.
  - apply strict_eq_str in Hd. injection Hd as ->. rewrite String.eqb_refl, fmap_cons. by rewrite IH.
  - destruct (String.eqb_spec stream s) as [->|]; [by rewrite strict_eq_str_refl in Hd|done].
Qed.

Lemma created_commit_json now input c :
  createEvidenceCommit now input = Ret c → (∃ z, vget input "sequence" = Ret (VInt z)) →
  (∃ v, vget input "previousCommitHash" = Ret v ∧ tip_ok v) → is_json c = true.
Proof.
  intros E [z Hz] (prev & Hp & Ht).
  assert (∀ commitId, vget input "commitId" = Ret commitId → is_json commitId = true) as Hid.
  { intros commitId Hc. unfold createEvidenceCommit in E. rewrite Hc in E. cbn [mbind exc_mbind] in E.
    apply bind_ret in E as ([] & (s & -> & _)%assertNonEmpty_ret%non_blank_string_str & _). done. }
  assert (∃ commitId, vget input "commitId" = Ret commitId ∧ vget_opt c "commitId" = commitId) as (commitId & Hc & Hcc).
  { pose proof E as E'. unfold createEvidenceCommit in E'. apply bind_ret in E' as (i & Hi & E'). exists i. split; [done|].
    steps_of E'. by injection E' as <-. }
  apply createEvidenceCommit_ret in E as (cid & stream & seq & prev' & v & ms & root & date & h & _ & _ & Hs & Hp' & _ & _ & _ & _ & ->).
  rewrite Hz in Hs. injection Hs as <-. rewrite Hp in Hp'. injection Hp' as <-.
  cbn in Hcc. subst cid. apply is_json_obj. split; [reflexivity|].
  assert (is_json (VArr (member_val <$> ms)) = true) as Hms.
  { apply is_json_arr, Forall_fmap, Forall_true. intros m. apply is_json_obj. split; [reflexivity|].
    repeat first [apply Forall_nil_2 | apply Forall_cons_2; [first [apply is_json_int|reflexivity]|]]. }
  unfold commit_fields. destruct Ht as [->|[? ->]];
    repeat first [apply Forall_nil_2 | apply Forall_cons_2; [first [exact Hms|by apply Hid|apply is_json_int|reflexivity]|]].
Qed.

Lemma batch_commit_ok now input evs eds cms members c :
  batch_commit now input cms members = Ret c → ledger_ok evs eds cms →
  (∀ v m, v ∈ members → cleanCommitMember v = Ret m → present evs eds m) → ledger_ok evs eds (cms ++ [c]).
Proof.
  intros E [Hj He Hch Hcov] Hm. unfold batch_commit in E. apply bind_ret in E as (streams & Hst & E).
  cbn zeta in E. apply bind_ret in E as (sq & Hsq & E). pose proof E as E'. apply createEvidenceCommit_ret in E' as (cid & stream & seq & prev & v & ms & root & date & h &
    Hs & Hb & _ & _ & Hv & Hms & _ & _ & Ec).
  cbn in Hs. injection Hs as Hs. rewrite Hs in E, Hsq. rewrite (stream_filter stream cms He streams Hst) in E, Hsq.
  destruct (Hch stream) as [s Hcs]. destruct (next_of_commits _ _ Hcs) as [Hseq Hprev].
  rewrite Hseq in Hsq. injection Hsq as <-. rewrite Hprev in E. set (inp := VObj _) in E.
  assert (tip_ok (previousHash s)) as Ht.
  { destruct Hcs as [|? ? ? ? _ [_ _ _ (? & _ & _ & ->)]]; [by left|right; by eexists]. }
  destruct (created_commit_link now inp c s stream E eq_refl eq_refl eq_refl) as [Hce [s' Hl]]. constructor.
  - apply Forall_app. split; [done|]. constructor; [|constructor].
    eapply created_commit_json; [exact E|by eexists|by exists (previousHash s)].
  - apply Forall_app. split; [done|]. constructor; [by exists stream|constructor].
  - intros stream'. rewrite (stream_commits_snoc stream' cms c stream Hce). destruct (String.eqb_spec stream' stream) as [->|].
    + exists s'. by econstructor.
    + apply Hch.
  - apply Forall_app. split; [done|]. constructor; [|constructor]. exists ms. split.
    + rewrite Ec. cbn. by eapply normalize_members_val.
    + cbn in Hv. injection Hv as <-. apply normalizeCommitMembers_ok in Hms as (vs & cleaned & [= <-] & _ & Hc & -> & _).
      rewrite Forall_forall. intros m Hin%elem_of_sort_by. apply list_elem_of_lookup_1 in Hin as [j Hjm].
      apply mapE_Forall2 in Hc. eapply Forall2_lookup_r in Hc as (w & Hw & Hwm); [|exact Hjm].
      apply list_elem_of_lookup_2 in Hw. by eapply Hm.
Qed.

(** ** The files *)

Record holds (fs : files) (evs eds cms : list val) : Prop := {
  holds_events : events_text fs = jsonl evs;
  holds_edges : edges_text fs = jsonl eds;
  holds_commits : commits_text fs = jsonl cms;
}.

(** The files hold these records, and these are in order. *)
Definition files_hold (fs : files) (evs eds cms : list val) : Prop :=
  holds fs evs eds cms ∧ chain_ok Audit evs ∧ chain_ok Edge eds ∧ ledger_ok evs eds cms.

Definition files_ok (fs : files) : Prop := ∃ evs eds cms, files_hold fs evs eds cms.

(** The files hold these records and more. *)
Definition files_grown (fs : files) (evs eds cms : list val) : Prop :=
  ∃ evs' eds' cms', files_hold fs (evs ++ evs') (eds ++ eds') (cms ++ cms').

Definition lines_at (p : path) (ls : list line) : list val := snd <$> filter (λ l, l.1 = p) ls.

Lemma lines_at_app p l1 l2 : lines_at p (l1 ++ l2) = lines_at p l1 ++ lines_at p l2.
Proof. unfold lines_at. by rewrite filter_app, fmap_app. Qed.

Lemma lines_at_new p p' appended : lines_at p (new_lines p' appended) = if decide (p' = p) then added appended else [].
Proof.
  unfold lines_at, new_lines, added. induction (filter _ appended) as [|r l IH]; [by case_decide|].
  rewrite fmap_cons, filter_cons. cbn [fst]. destruct (decide (p' = p)) as [Hp|Hp].
  - rewrite !fmap_cons. f_equal. exact IH.
  - exact IH.
Qed.

Lemma append_lines_hold ls : ∀ fs evs eds cms, holds fs evs eds cms →
  holds (append_lines fs ls) (evs ++ lines_at EventsPath ls) (eds ++ lines_at EdgesPath ls) (cms ++ lines_at CommitsPath ls).
Proof.
  induction ls as [|[p r] ls IH]; intros fs evs eds cms Hh; [by rewrite !app_nil_r|].
  change (append_lines fs ((p, r) :: ls)) with (append_lines (appendJsonl fs (p, r)) ls).
  change ((p, r) :: ls) with ([(p, r)] ++ ls). rewrite !lines_at_app, !app_assoc. apply IH. destruct Hh as [H1 H2 H3].
  unfold appendJsonl, lines_at. destruct p; cbn; rewrite ?app_nil_r; constructor; cbn;
    rewrite ?decide_True by done; cbn; rewrite ?jsonl_snoc; congruence.
Qed.

Lemma lock_attempts_ret {A} held (op : exc A) a fuel : ∀ n, lock_attempts fuel n held op = Ret a → op = Ret a.
Proof.
  induction fuel as [|fuel IH]; intros n; cbn [lock_attempts]; (destruct (held n); [|done]); [done|apply IH].
Qed.

Lemma withLock_ret {A} held (op : exc A) a : withLock held op = Ret a → op = Ret a.
Proof. apply lock_attempts_ret. Qed.

Lemma read_held fs evs eds cms : holds fs evs eds cms → chain_ok Audit evs → chain_ok Edge eds → ledger_ok evs eds cms →
  readJsonl (events_text fs) = Ret evs ∧ readJsonl (edges_text fs) = Ret eds ∧ readJsonl (commits_text fs) = Ret cms.
Proof. intros [-> -> ->] [] [] []. split_and!; by apply readJsonl_jsonl. Qed.

Lemma ledger_more evs eds cms evs' eds' : evs ⊆ evs' → eds ⊆ eds' → ledger_ok evs eds cms → ledger_ok evs' eds' cms.
Proof.
  intros H1 H2 [Hj He Hc Hcov]. constructor; try done. eapply Forall_impl; [exact Hcov|]. intros c. by apply covered_subset.
Qed.

(** A process that dies after any number of its lines leaves the files in order,
    because the commit is its last line. *)
Lemma crash_ok fs evs eds cms written rest :
  holds fs evs eds cms → ledger_ok evs eds cms →
  chain_ok Audit (evs ++ lines_at EventsPath (written ++ rest)) →
  chain_ok Edge (eds ++ lines_at EdgesPath (written ++ rest)) →
  ledger_ok (evs ++ lines_at EventsPath (written ++ rest)) (eds ++ lines_at EdgesPath (written ++ rest))
    (cms ++ lines_at CommitsPath (written ++ rest)) →
  rest = [] ∨ lines_at CommitsPath written = [] →
  files_grown (append_lines fs written) evs eds cms.
Proof.
  intros Hh Hl He Hd Hc Hlast. exists (lines_at EventsPath written), (lines_at EdgesPath written),
    (lines_at CommitsPath written). split; [by apply append_lines_hold|].
  rewrite lines_at_app, app_assoc in He, Hd. apply chain_ok_prefix in He, Hd. split; [done|]. split; [done|].
  destruct Hlast as [->| ->].
  - by rewrite app_nil_r in Hc.
  - rewrite app_nil_r. eapply ledger_more; [| |exact Hl]; clear; set_solver.
Qed.

(** The calls of all processes, each cut off after any number of its lines. *)
Inductive file_step (fs : files) : files → Prop :=
| file_event held e input lines r written :
    recordEvent held e fs input = Ret (lines, r) →
    inputs_fit (λ e input, createAuditEvent (env_uuid e) (env_now e) input) [(e, input)] →
    written `prefix_of` lines → file_step fs (append_lines fs written)
| file_edge held e input lines r written :
    recordEdge held e fs input = Ret (lines, r) →
    inputs_fit (λ e input, createEvidenceEdge (env_uuid e) (env_now e) input) [(e, input)] →
    written `prefix_of` lines → file_step fs (append_lines fs written)
| file_batch held now input lines r written :
    recordBatch held now fs input = Ret (lines, r) →
    inputs_fit (λ e input, createAuditEvent (env_uuid e) (env_now e) input) (batch_events input) →
    inputs_fit (λ e input, createEvidenceEdge (env_uuid e) (env_now e) input) (batch_edges input) →
    written `prefix_of` lines → file_step fs (append_lines fs written).

Definition files_reachable (fs : files) : Prop := rtc file_step no_files fs.

Lemma lines_prefix p written rest lines : lines = written ++ rest → lines_at p lines = [] → lines_at p written = [].
Proof. intros ->. rewrite lines_at_app. by intros [? _]%app_nil. Qed.

Lemma added_one r b : added [(r, b)] = if b then [r] else [].
Proof. by destruct b. Qed.

Lemma record_step_ok p kind now fs evs eds cms appended written rest e r b :
  p = match kind with Audit => EventsPath | Edge => EdgesPath end →
  holds fs evs eds cms → chain_ok Audit evs → chain_ok Edge eds → ledger_ok evs eds cms →
  append_record kind now (match kind with Audit => evs | Edge => eds end) e = Ret (appended, (r, b)) → evidence_ok e →
  new_lines p [(r, b)] = written ++ rest → files_grown (append_lines fs written) evs eds cms.
Proof.
  intros -> Hh He Hd Hl Ha Hev Hw. apply (crash_ok fs evs eds cms written rest Hh Hl); rewrite <- ?Hw; destruct kind;
    rewrite ?lines_at_new, ?decide_False, ?decide_True, ?added_one, ?app_nil_r by done; try done.
  1: by destruct (append_record_ok _ _ _ _ _ _ _ Ha Hev He) as (Hok & -> & _).
  1: by destruct (append_record_ok _ _ _ _ _ _ _ Ha Hev Hd) as (Hok & -> & _).
  1,2: eapply ledger_more; [| |exact Hl]; clear; set_solver.
  all: right; apply (lines_prefix _ _ _ _ Hw); by rewrite lines_at_new.
Qed.

Lemma prefix_app_ex {A} (l k : list A) : l `prefix_of` k → ∃ m, k = l ++ m.
Proof. by intros [m ->]; exists m. Qed.

(** What a batch that returns adds to the files. *)
Lemma batch_ok held now fs input evs eds cms lines r :
  recordBatch held now fs input = Ret (lines, r) → holds fs evs eds cms →
  chain_ok Audit evs → chain_ok Edge eds → ledger_ok evs eds cms →
  inputs_fit (λ e input, createAuditEvent (env_uuid e) (env_now e) input) (batch_events input) →
  inputs_fit (λ e input, createEvidenceEdge (env_uuid e) (env_now e) input) (batch_edges input) →
  lines = [] ∨ ∃ A B c, lines = new_lines EventsPath A ++ new_lines EdgesPath B ++ [(CommitsPath, c)] ∧
    chain_ok Audit (evs ++ added A) ∧ chain_ok Edge (eds ++ added B) ∧
    ledger_ok (evs ++ added A) (eds ++ added B) (cms ++ [c]).
Proof.
  intros E%withLock_ret Hh He Hd Hl Hfe Hfd. destruct (read_held _ _ _ _ Hh He Hd Hl) as (R1 & R2 & R3).
  rewrite R1, R2, R3 in E. cbn [mbind exc_mbind] in E.
  apply bind_ret in E as ([evs' A] & HA & E). apply bind_ret in E as ([eds' B] & HB & E).
  apply bind_ret in E as (_ & _ & E). apply bind_ret in E as (ma & Hma & E). apply bind_ret in E as (mb & Hmb & E).
  apply bind_ret in E as (o & _ & E). destruct o as [existing|].
  { apply bind_ret in E as (? & _ & E). apply bind_ret in E as (? & _ & E). apply bind_ret in E as (? & _ & E).
    left. by injection E as <- _. }
  apply bind_ret in E as (c & Hc & E). injection E as <- _. right. exists A, B, c. split; [done|].
  destruct (append_all_ok Audit _ _ _ _ _ HA Hfe He) as (HA1 & -> & HA2).
  destruct (append_all_ok Edge _ _ _ _ _ HB Hfd Hd) as (HB1 & -> & HB2).
  split; [done|]. split; [done|]. eapply batch_commit_ok; [exact Hc| |].
  { eapply ledger_more; [| |exact Hl]; clear; set_solver. }
  assert (∀ kind rs (ap : list (val * bool)), chain_ok kind rs → Forall (λ r, r.1 ∈ rs) ap → Forall hashed (fst <$> ap)) as Hhash.
  { intros kind rs ap [_ _ (tip & n & Hch) _] Hin. apply chain_hashed in Hch. rewrite Forall_fmap.
    eapply Forall_impl; [exact Hin|]. intros x Hx. rewrite Forall_forall in Hch. by apply Hch. }
  assert (∀ (ap : list (val * bool)) (rs : list val) (x : val), Forall (λ r : val * bool, r.1 ∈ rs) ap → x ∈ (fst <$> ap) → x ∈ rs) as Hsub.
  { intros ap rs x Hin (y & -> & Hy)%list_elem_of_fmap. rewrite Forall_forall in Hin. by apply Hin. }
  intros v m [Hv|Hv]%elem_of_app Hcl.
  - left. destruct (batch_members_named _ _ _ _ _ _ Hma (Hhash _ _ _ HA1 HA2) Hv Hcl) as (x & Hx & Hn). exists x. eauto.
  - right. destruct (batch_members_named _ _ _ _ _ _ Hmb (Hhash _ _ _ HB1 HB2) Hv Hcl) as (x & Hx & Hn). exists x. eauto.
Qed.

Lemma step_grows fs fs' evs eds cms : files_hold fs evs eds cms → file_step fs fs' → files_grown fs' evs eds cms.
Proof.
  intros (Hh & He & Hd & Hl) Hs. destruct (read_held _ _ _ _ Hh He Hd Hl) as (R1 & R2 & R3).
  destruct Hs as [held e input lines r written E Hf Hw|held e input lines r written E Hf Hw|held now input lines r written E Hfe Hfd Hw];
    apply prefix_app_ex in Hw as [rest Hw].
  - unfold recordEvent in E. apply bind_ret in E as (v & Hv & E). apply bind_ret in E as ([] & Ht & E%withLock_ret).
    rewrite R1 in E. cbn [mbind exc_mbind] in E. apply bind_ret in E as ([rs [x b]] & Ha & [= <- <-]).
    apply Forall_cons in Hf as [Hf _].
    exact (record_step_ok EventsPath Audit _ _ _ _ _ _ _ _ _ _ _ eq_refl Hh He Hd Hl Ha (fits_evidence v (Hf v Hv) Ht) Hw).
  - unfold recordEdge in E. apply bind_ret in E as (v & Hv & E). apply bind_ret in E as ([] & Ht & E%withLock_ret).
    rewrite R2 in E. cbn [mbind exc_mbind] in E. apply bind_ret in E as ([rs [x b]] & Ha & [= <- <-]).
    apply Forall_cons in Hf as [Hf _].
    exact (record_step_ok EdgesPath Edge _ _ _ _ _ _ _ _ _ _ _ eq_refl Hh He Hd Hl Ha (fits_evidence v (Hf v Hv) Ht) Hw).
  - destruct (batch_ok _ _ _ _ _ _ _ _ _ E Hh He Hd Hl Hfe Hfd) as [->|(A & B & c & -> & HA & HB & HC)].
    { symmetry in Hw. apply app_nil in Hw as [-> _]. exists [], [], []. by rewrite !app_nil_r. }
    assert (∀ p, lines_at p (written ++ rest) =
              lines_at p (new_lines EventsPath A ++ new_lines EdgesPath B) ++ lines_at p [(CommitsPath, c)]) as Hat.
    { intros p. by rewrite <- Hw, app_assoc, lines_at_app. }
    apply (crash_ok fs evs eds cms written rest Hh Hl); rewrite ?Hat, ?lines_at_app, ?lines_at_new; cbn; rewrite ?app_nil_r; try done.
    destruct rest as [|l rest _] using rev_ind; [by left|right]. rewrite !app_assoc in Hw. apply app_inj_tail in Hw as [Hw _].
    apply (lines_prefix _ _ _ _ Hw). by rewrite lines_at_app, !lines_at_new.
Qed.

Lemma step_ok fs fs' : files_ok fs → file_step fs fs' → files_ok fs'.
Proof.
  intros (evs & eds & cms & Hh) Hs. destruct (step_grows _ _ _ _ _ Hh Hs) as (evs' & eds' & cms' & Hh').
  by exists (evs ++ evs'), (eds ++ eds'), (cms ++ cms').
Qed.

Lemma no_files_ok : files_ok no_files.
Proof.
  exists [], [], []. split; [done|]. do 2 (split; [apply chain_ok_nil|]). constructor; try constructor.
  intros stream. exists genesis. constructor.
Qed.

Lemma files_reachable_ok fs : files_reachable fs → files_ok fs.
Proof.
  unfold files_reachable. intros Hr. pattern fs. eapply rtc_ind_r; [apply no_files_ok| |exact Hr].
  intros x y _ Hs Hx. by eapply step_ok.
Qed.
End Histories.

(** ** Properties *)

(** C8. The store of a tenant always verifies: whatever processes call it, in
    whatever order, with whatever clocks and random ids, and wherever a process
    dies between two of its lines, the three files are read back, every record
    and commit in them is accepted, and the answer of [verify] is ok. *)
Theorem files_verify `{Hasher} `{Host} tenant fs :
  files_reachable tenant fs → verify fs = Ret (FileVerification true VerifyOk VerifyOk VerifyOk).
Proof.
  intros (evs & eds & cms & Hh & He & Hd & Hl)%files_reachable_ok. unfold verify.
  destruct (read_held _ _ _ _ _ Hh He Hd Hl) as (-> & -> & ->). cbn [mbind exc_mbind].
  assert (∀ kind rs, chain_ok tenant kind rs → verifyRecords kind rs = Ret VerifyOk) as Hv.
  { intros kind rs [_ Ht (tip & n & Hc) _]. apply verify_ok.
    - eapply Forall_impl; [exact Ht|]. intros r. apply envelope_typed.
    - split; [eapply Forall_impl; [exact Ht|]; intros r Hr; by exists tenant|]. intros t. rewrite (of_key_tenant kind tenant t rs Ht).
      case_decide; [eauto|by do 2 eexists; constructor]. }
  unfold verifyAuditRecords, verifyEvidenceEdgeRecords. rewrite (Hv _ _ He). cbn [mbind exc_mbind]. rewrite (Hv _ _ Hd).
  cbn [mbind exc_mbind]. rewrite (proj2 (verify_commits_ok cms)); [done|]. by destruct Hl.
Qed.

(** C9. A commit never precedes its records: in every reachable state of the
    files, also after a crash, each member of each commit names a record that is
    in the events or the edges file, with the hash the record has there; and no
    file has two records of one idempotency key. *)
Theorem commits_follow_records `{Hasher} `{Host} tenant fs :
  files_reachable tenant fs →
  ∃ evs eds cms, listEvents fs = Ret evs ∧ listEdges fs = Ret eds ∧ listCommits fs = Ret cms ∧
    Forall (covered evs eds) cms ∧
    NoDup ((λ r, vget_opt r "idempotencyKeyHash") <$> evs) ∧ NoDup ((λ r, vget_opt r "idempotencyKeyHash") <$> eds).
Proof.
  intros (evs & eds & cms & Hh & He & Hd & Hl)%files_reachable_ok. exists evs, eds, cms.
  destruct (read_held _ _ _ _ _ Hh He Hd Hl) as (R1 & R2 & R3). destruct He, Hd, Hl. by split_and!.
Qed.

(** ** A lost newline *)

Lemma json_parse_two v fs : is_json v = true → is_json (VObj fs) = true → json_parse (text_line v +:+ text_line (VObj fs)) = None.
Proof.
  intros Hv Hw. unfold json_parse, text_line. rewrite chars_app, !chars_of_chars.
  destruct (jtext (VObj fs)) as [|c l] eqn:El; [by rewrite jtext_obj in El|].
  assert (c = "{"%char) as -> by (rewrite jtext_obj in El by done; by injection El).
  rewrite (parses_json v Hv); [done| |done]. pose proof (need_le v Hv). unfold parse_fuel. rewrite length_app. lia.
Qed.

Lemma mapE_snoc {A B} (f : A → exc B) xs ys x : mapE f xs = Ret ys → mapE f (xs ++ [x]) = (y ← f x; Ret (ys ++ [y])).
Proof.
  revert ys. induction xs as [|x0 xs IH]; intros ys E; cbn [mapE app] in *.
  - injection E as <-. by destruct (f x).
  - apply bind_ret in E as (y0 & Hy & E). apply bind_ret in E as (ys0 & Hys & [= <-]). rewrite Hy. cbn [mbind exc_mbind].
    rewrite (IH _ Hys). by destruct (f x).
Qed.

Lemma split_lines_end lines l :
  Forall (λ l, Forall visible (chars l)) lines → Forall visible (chars l) →
  split_lines (concat ((λ l, chars l ++ [nl]) <$> lines) ++ chars l) = lines ++ [l].
Proof.
  intros Hl He. induction Hl as [|l0 lines Hl0 _ IH].
  - cbn [fmap list_fmap concat app]. rewrite <- (of_chars_chars l) at 2. induction He as [|c cs Hc _ IH]; [done|].
    cbn [split_lines]. rewrite IH. destruct (Ascii.eqb_spec c (ascii_of_nat 10)) as [->|]; [by vm_compute in Hc|done].
  - rewrite fmap_cons. cbn [concat]. rewrite <- !app_assoc. cbn [app]. by rewrite split_lines_line, IH, of_chars_chars.
Qed.

(** The records of whole lines, and what follows the last newline. *)
Lemma readJsonl_last rs l :
  Forall (λ r, is_json r = true) rs → Forall visible (chars l) → blank l = false →
  readJsonl (jsonl rs +:+ l) = (v ← parse_line l; Ret (rs ++ [v])).
Proof.
  intros Hj Hl Hb. unfold readJsonl. rewrite chars_app. unfold jsonl. rewrite chars_of_chars, json_lines_texts by done.
  rewrite split_lines_end; [|by apply texts_visible|done]. rewrite filter_app, filter_cons_True by done. cbn [filter list_filter].
  apply mapE_snoc. rewrite texts_not_blank by done. by apply parse_texts.
Qed.

Lemma split_lines_newline cs : split_lines (cs ++ [nl]) = split_lines cs ++ [""].
Proof.
  induction cs as [|c cs IH]; [done|]. cbn [app split_lines]. rewrite IH. destruct (Ascii.eqb c (ascii_of_nat 10)); [done|].
  destruct (split_lines cs) as [|l ls] eqn:E; [|done]. destruct cs as [|c' cs]; [done|]. cbn in E.
  destruct (Ascii.eqb c' _); [done|]. by destruct (split_lines cs).
Qed.

Lemma readJsonl_newline text : readJsonl (text +:+ newline) = readJsonl text.
Proof.
  unfold readJsonl. rewrite chars_app. change (chars newline) with [nl]. rewrite split_lines_newline, filter_app. cbn [filter list_filter].
  by rewrite app_nil_r.
Qed.

Lemma text_line_visible r : is_json r = true → Forall visible (chars (text_line r)).
Proof. intros Hj. unfold text_line. rewrite chars_of_chars. by apply jtext_visible. Qed.

Lemma blank_more l l' : blank l = false → blank (l +:+ l') = false.
Proof. intros Hb. by rewrite blank_app, Hb. Qed.

(** A lost newline makes an acknowledged write unreadable: if the end of the
    events file was cut between the last record and its newline, the file still
    reads, the next new event is recorded and its record returned, and from then
    on the file cannot be read, because the two records are on one line. *)
Theorem torn_newline_breaks_file `{Hasher} `{Host} tenant rs x fs held e input lines r :
  chain_ok tenant Audit (rs ++ [x]) → events_text fs = jsonl rs +:+ text_line x →
  recordEvent held e fs input = Ret (lines, r) → lines ≠ [] →
  inputs_fit tenant (λ e input, createAuditEvent (env_uuid e) (env_now e) input) [(e, input)] →
  listEvents fs = Ret (rs ++ [x]) ∧ listEvents (append_lines fs lines) = Throw "unexpected token".
Proof.
  intros Hok Ht E Hne Hf. pose proof (ok_json _ _ _ Hok) as Hj. apply Forall_app in Hj as [Hj Hx].
  apply Forall_cons in Hx as [Hx _].
  assert (readJsonl (events_text fs) = Ret (rs ++ [x])) as R.
  { rewrite Ht, readJsonl_last; [|done|by apply text_line_visible|by apply text_line_not_blank]. by rewrite parse_line_text. }
  split; [exact R|]. unfold recordEvent in E. apply bind_ret in E as (v & Hv & E). apply bind_ret in E as ([] & Htid & E%withLock_ret).
  rewrite R in E. cbn [mbind exc_mbind] in E. apply bind_ret in E as ([rs' [r' b]] & Ha & [= <- <-]).
  destruct b; [|done]. apply Forall_cons in Hf as [Hf _].
  destruct (append_record_ok _ _ _ _ _ _ _ _ Ha (fits_evidence _ _ (Hf v Hv) Htid) Hok) as (Hok' & -> & Hin & _).
  assert (is_json r' = true) as Hr by (pose proof (ok_json _ _ _ Hok') as Hall; rewrite Forall_forall in Hall; by apply Hall).
  assert (∃ fs, r' = VObj fs) as [rfs ->].
  { unfold append_record in Ha. steps_of Ha. match goal with o : option val |- _ => destruct o end; steps_of Ha;
      injection Ha; intros; subst; try discriminate; by eexists. }
  change (readJsonl (events_text fs +:+ json_line (VObj rfs)) = Throw "unexpected token").
  rewrite json_line_text, Ht by done.
  replace ((jsonl rs +:+ text_line x) +:+ text_line (VObj rfs) +:+ newline)
    with ((jsonl rs +:+ text_line x +:+ text_line (VObj rfs)) +:+ newline) by by rewrite !string_app_assoc.
  rewrite readJsonl_newline, readJsonl_last; [|done| |by apply blank_more, text_line_not_blank].
  - unfold parse_line. by rewrite json_parse_two.
  - rewrite chars_app. apply Forall_app. split; by apply text_line_visible.
Qed.

(** ** Witnesses *)

#[local] Existing Instance toy_hasher.
#[local] Existing Instance toy_host.

Definition demo_env : env := Env "u1" 0 0.

Definition demo_input : AuditEventInput := {|
  in_id := VStr "e1"; in_occurredAt := VUndef; in_actor := VObj [("id", VStr "u"); ("type", VStr "user")];
  in_action := VStr "file.read"; in_target := VObj [("id", VStr "f"); ("type", VStr "file")];
  in_scope := VObj [("tenantId", VStr "t")]; in_requestId := VUndef; in_purpose := VUndef; in_lawfulBasis := VUndef;
  in_dataCategories := None; in_retention := VUndef; in_metadata := VUndef |}.

Definition demo_edge : val := VObj
  [("id", VStr "g1"); ("from", VObj [("type", VStr "actor"); ("id", VStr "u")]); ("relation", VStr "read");
   ("to", VObj [("type", VStr "file"); ("id", VStr "f")]); ("scope", VObj [("tenantId", VStr "t")])].

Definition demo_batch : FileEvidenceBatchInput :=
  BatchInput (VStr "c1") (VStr "s1") [(demo_env, demo_input)] [(demo_env, demo_edge)] VUndef.

Definition demo_lines : list line := default [] (fst <$> exc_to_option (recordBatch (λ _, false) 0 no_files demo_batch)).
Definition demo_files : files := append_lines no_files demo_lines.

Lemma demo_event_fits : inputs_fit "t" (λ e input, createAuditEvent (env_uuid e) (env_now e) input) [(demo_env, demo_input)].
Proof.
  constructor; [|constructor]. intros v E. vm_compute in E. injection E as <-. split; vm_compute; reflexivity.
Qed.

Lemma demo_edge_fits : inputs_fit "t" (λ e input, createEvidenceEdge (env_uuid e) (env_now e) input) [(demo_env, demo_edge)].
Proof.
  constructor; [|constructor]. intros v E. vm_compute in E. injection E as <-. split; vm_compute; reflexivity.
Qed.

Lemma demo_batch_returns : ∃ r, recordBatch (λ _, false) 0 no_files demo_batch = Ret (demo_lines, r).
Proof. eexists. vm_compute. reflexivity. Qed.

(** The process dies before the line of the commit. *)
Lemma demo_crash_reachable n : files_reachable "t" (append_lines no_files (take n demo_lines)).
Proof.
  destruct demo_batch_returns as [r E]. apply rtc_once.
  exact (file_batch "t" no_files _ _ _ _ _ _ E demo_event_fits demo_edge_fits (prefix_take _ n)).
Qed.

Lemma files_verify_witness : ∃ fs, files_reachable "t" fs ∧ fs ≠ no_files ∧
  verify fs = Ret (FileVerification true VerifyOk VerifyOk VerifyOk).
Proof.
  exists (append_lines no_files (take 2 demo_lines)). split; [apply demo_crash_reachable|].
  split; [vm_compute; discriminate|]. apply (files_verify "t"), demo_crash_reachable.
Defined.

Lemma commits_follow_records_witness : ∃ evs eds cms,
  listCommits (append_lines no_files (take 3 demo_lines)) = Ret cms ∧ length cms = 1%nat ∧ Forall (covered evs eds) cms.
Proof.
  destruct (commits_follow_records "t" _ (demo_crash_reachable 3)) as (evs & eds & cms & _ & _ & Hc & Hcov & _).
  exists evs, eds, cms. split; [exact Hc|]. split; [|exact Hcov]. vm_compute in Hc. injection Hc as <-. reflexivity.
Defined.

Definition demo_input2 : AuditEventInput := {|
  in_id := VStr "e2"; in_occurredAt := VUndef; in_actor := VObj [("id", VStr "u"); ("type", VStr "user")];
  in_action := VStr "file.read"; in_target := VObj [("id", VStr "f"); ("type", VStr "file")];
  in_scope := VObj [("tenantId", VStr "t")]; in_requestId := VUndef; in_purpose := VUndef; in_lawfulBasis := VUndef;
  in_dataCategories := None; in_retention := VUndef; in_metadata := VUndef |}.

Definition demo_record : val := default VNull (snd <$> head demo_lines).
Definition torn_files : files := Files (text_line demo_record) "" "".
Definition torn_lines : list line := default [] (fst <$> exc_to_option (recordEvent (λ _, false) demo_env torn_files demo_input2)).

Lemma demo_record_ok : chain_ok "t" Audit [demo_record].
Proof.
  destruct (files_reachable_ok _ _ (demo_crash_reachable 1)) as (evs & eds & cms & Hh & He & Hd & Hl).
  destruct (read_held _ _ _ _ _ Hh He Hd Hl) as (R & _). vm_compute in R. injection R as <-. exact He.
Qed.

Lemma torn_newline_breaks_file_witness :
  listEvents torn_files = Ret [demo_record] ∧ listEvents (append_lines torn_files torn_lines) = Throw "unexpected token".
Proof.
  assert (∃ r, recordEvent (λ _, false) demo_env torn_files demo_input2 = Ret (torn_lines, r)) as [r E]
    by (eexists; vm_compute; reflexivity).
  apply (torn_newline_breaks_file "t" [] demo_record torn_files (λ _, false) demo_env demo_input2 torn_lines r demo_record_ok).
  - reflexivity.
  - exact E.
  - vm_compute. discriminate.
  - constructor; [|constructor]. intros v Ev. vm_compute in Ev. injection Ev as <-. split; vm_compute; reflexivity.
Defined.
