(* ===== verification/SessionReplay.v ===== *)
(** * Replaying a session's records

    A record method that is called again with the same input returns the records of
    the first call and writes nothing. It is proved against what a recorder expects
    of a store ([Remembers]), and the file store keeps that promise, so that the
    sessions of an agent that is restarted, or that retries, are recorded once. *)

From S2P Require GovernedSafety ProvenanceSafety.
From S2P Require Import Prelude Regex JsNum JsVal GovernedChange RiskAssertion Provenance.
From S2P Require Import Dates JsonText Hash Canonical Keyed AuditChain ChainModes Redact Event Commit.
From S2P Require Import ExportBundle BundleVerify Store StoreHistory Demo Doubles FileStore FileSafety.
Import ProvenanceSafety (call, sink_call, edge_calls, recorded, recorded_method, rec_review).
Import GovernedSafety (vget_opt_of).

(** ** What a recorder expects of a store *)

(** Of the host's state the store can see [view]. It goes from one view to the next
    in steps, its own or another process's. A store that cannot be reached throws. *)
Class Remembers {S V} (sinks : ProvenanceSinks S) (view : S → V) := {
  valid : V → Prop;
  step : V → V → Prop;
  replayable : call → Prop;
  stored : call → val → V → Prop;
  step_valid v v' : valid v → step v v' → valid v';
  step_stored c r v v' : step v v' → stored c r v → stored c r v';
  call_stores c s s' r : valid (view s) → replayable c → sink_call sinks c s = (s', Ret r) →
    rtc step (view s) (view s') ∧ stored c r (view s');
  unavailable : string → Prop;
  call_replays c s r : stored c r (view s) →
    ∃ s' o, sink_call sinks c s = (s', o) ∧ view s' = view s ∧ (o = Ret r ∨ ∃ m, o = Throw m ∧ unavailable m);
}.

Section Recorder.
Context {S V : Type} (sinks : ProvenanceSinks S) (view : S → V) `{!Remembers sinks view}.

Lemma steps_valid v v' : valid v → rtc step v v' → valid v'.
Proof. intros Hv Hs. induction Hs; [done|]. eauto using step_valid. Qed.

Lemma steps_stored c r v v' : rtc step v v' → stored c r v → stored c r v'.
Proof. intros Hs Hc. induction Hs; [done|]. eauto using step_stored. Qed.

Lemma persist_stores scope owner occ edges : ∀ s s' rs, valid (view s) →
  Forall (λ e, replayable (inr (edge_input scope owner occ e))) edges →
  persist_edges sinks scope owner occ edges s = (s', Ret rs) →
  rtc step (view s) (view s') ∧ Forall2 (λ e r, stored (inr (edge_input scope owner occ e)) r (view s')) edges rs.
Proof.
  induction edges as [|e edges IH]; intros s s' rs Hv Hall E; cbn [persist_edges] in E.
  - injection E as <- <-. by split.
  - apply Forall_cons in Hall as [He Hall]. change (sink_edge sinks ?i s) with (sink_call sinks (inr i) s) in E.
    destruct (sink_call sinks _ s) as [s1 [r|m]] eqn:E1; [|done].
    destruct (call_stores _ _ _ _ Hv He E1) as [Hs1 Hst].
    destruct (persist_edges sinks scope owner occ edges s1) as [s2 [rs2|m]] eqn:E2; [|done]. injection E as <- <-.
    destruct (IH s1 s2 rs2 (steps_valid _ _ Hv Hs1) Hall E2) as [Hs2 Hr]. split; [by etrans|].
    constructor; [by eapply steps_stored|done].
Qed.

Lemma persist_replays scope owner occ edges rs : ∀ s,
  Forall2 (λ e r, stored (inr (edge_input scope owner occ e)) r (view s)) edges rs →
  ∃ s' o, persist_edges sinks scope owner occ edges s = (s', o) ∧ view s' = view s ∧
    (o = Ret rs ∨ ∃ m, o = Throw m ∧ unavailable m).
Proof.
  revert rs. induction edges as [|e edges IH]; intros rs s Hall.
  - apply Forall2_nil_inv_l in Hall as ->. exists s, (Ret []). split_and!; [done|done|by left].
  - apply Forall2_cons_inv_l in Hall as (r & rs' & Hr & Hrs & ->). destruct (call_replays _ _ _ Hr) as (s1 & o1 & E1 & V1 & H1).
    cbn [persist_edges]. change (sink_edge sinks ?i s) with (sink_call sinks (inr i) s). rewrite E1.
    destruct H1 as [->|(m & -> & Hm)]; [|exists s1, (Throw m); split_and!; [done|done|right; by exists m]].
    rewrite <- V1 in Hrs. destruct (IH rs' s1 Hrs) as (s2 & o2 & E2 & V2 & H2). rewrite E2.
    destruct H2 as [->|(m & -> & Hm)]; do 2 eexists; (split; [done|]); (split; [congruence|]); [by left|right; by exists m].
Qed.

Definition plan_replayable (p : plan) : Prop :=
  replayable (inl (plan_event p)) ∧
  ∀ owner, Forall (λ e, replayable (inr (edge_input (in_scope (plan_event p)) (Some owner) (plan_occurredAt p) e))) (plan_edges p).

Lemma run_replays p s s1 s2 r : valid (view s) → plan_replayable p → run_plan sinks p s = (s1, Ret r) →
  rtc step (view s1) (view s2) →
  ∃ s3 o, run_plan sinks p s2 = (s3, o) ∧ view s3 = view s2 ∧ (o = Ret r ∨ ∃ m, o = Throw m ∧ unavailable m).
Proof.
  intros Hv [He Hall] E Hs. unfold run_plan in *. change (sink_event sinks ?i s) with (sink_call sinks (inl i) s) in E.
  change (sink_event sinks ?i s2) with (sink_call sinks (inl i) s2).
  destruct (sink_call sinks _ s) as [sa [event|m]] eqn:E1; [|done]. destruct (call_stores _ _ _ _ Hv He E1) as [Ha Hst].
  destruct (persist_edges _ _ _ _ _ sa) as [sb [rs|m]] eqn:E2; [|done]. injection E as <- <-.
  destruct (persist_stores _ _ _ _ _ _ _ (steps_valid _ _ Hv Ha) (Hall _) E2) as [Hb Hrs].
  destruct (call_replays _ s2 event (steps_stored _ _ _ _ Hs (steps_stored _ _ _ _ Hb Hst))) as (s3 & o3 & E3 & V3 & H3). rewrite E3.
  destruct H3 as [->|(m & -> & Hm)]; [|exists s3, (Throw m); split_and!; [done|done|right; by exists m]].
  destruct (persist_replays (in_scope (plan_event p)) (Some (ref_text (vget_opt event "event") "id")) (plan_occurredAt p) (plan_edges p) rs s3)
    as (s4 & o4 & -> & V4 & H4).
  { eapply Forall2_impl; [exact Hrs|]. intros e r Hr. rewrite V3. by eapply steps_stored. }
  destruct H4 as [->|(m & -> & Hm)]; do 2 eexists; (split; [done|]); (split; [congruence|]); [by left|right; by exists m].
Qed.
End Recorder.

(** ** The file store keeps the promise *)

(** The sinks of a host on the files: call [n] of the process finds this clock, this
    random id and this lock. *)
Definition file_sinks `{Hasher} `{Host} (world : nat → env * (nat → bool)) : ProvenanceSinks (files * nat) :=
  let written fs n (o : exc (list line * val)) :=
    match o with Ret (lines, r) => ((append_lines fs lines, S n), Ret r) | Throw m => ((fs, S n), Throw m) end in
  {| sink_event := λ i '(fs, n), written fs n (recordEvent (world n).2 (world n).1 fs i);
     sink_edge := λ e '(fs, n), written fs n (recordEdge (world n).2 (world n).1 fs e) |}.

(** The lock comes free while the store still tries. *)
Definition comes_free (held : nat → bool) : Prop := ∃ k, (k <= 500)%nat ∧ held k = false.

Lemma withLock_cases {A} held (op : exc A) :
  comes_free held ∧ withLock held op = op ∨ ¬ comes_free held ∧ withLock held op = Throw "EEXIST".
Proof.
  assert (∀ fuel n, (n + fuel = 500)%nat → (∀ k, (k < n)%nat → held k = true) →
    comes_free held ∧ lock_attempts fuel n held op = op ∨ ¬ comes_free held ∧ lock_attempts fuel n held op = Throw "EEXIST") as Hg; [|by apply Hg; [|lia]].
  induction fuel as [|fuel IH]; intros n Hn Hk; cbn [lock_attempts]; (destruct (held n) eqn:E; [|left; split; [exists n; split; [lia|done]|done]]).
  - right. split; [|done]. intros (k & Hle & Hf). destruct (decide (k = n)) as [->|]; [congruence|]. rewrite Hk in Hf; [done|lia].
  - apply IH; [lia|]. intros k Hlt. destruct (decide (k = n)) as [->|]; [done|apply Hk; lia].
Qed.

Section Files.
Context `{HS : Hasher} `{HO : Host}.
Context (tenant : string) (world : nat → env * (nat → bool)).

Definition kind_path (kind : chainKind) : path := match kind with Audit => EventsPath | Edge => EdgesPath end.
Definition kind_text (kind : chainKind) (fs : files) : string := text_at fs (kind_path kind).
Definition kind_records (kind : chainKind) (evs eds : list val) : list val := match kind with Audit => evs | Edge => eds end.

(** The part of [recordEvent] and [recordEdge] under the lock. *)
Definition locked (kind : chainKind) (now : Z) (fs : files) (evidence : val) : exc (list line * val) :=
  records ← readJsonl (kind_text kind fs);
  '(_, appended) ← append_record kind now records evidence;
  Ret (new_lines (kind_path kind) [appended], appended.1).

(** The record under which an append of this evidence finds it, at any time. *)
Definition kept (kind : chainKind) (evidence r : val) (rs : list val) : Prop :=
  ∀ now, append_record kind now rs evidence = Ret (rs, (r, false)).

Lemma find_by_app key s l l' r : find_by key s l = Ret (Some r) → find_by key s (l ++ l') = Ret (Some r).
Proof.
  induction l as [|v l IH]; [done|]. cbn. intros E. apply bind_ret in E as (w & -> & E). cbn. destruct (strict_eq w s); [done|by apply IH].
Qed.

Lemma find_by_snoc key s l r : find_by key s l = Ret None → vget r key = Ret s → strict_eq s s = true → find_by key s (l ++ [r]) = Ret (Some r).
Proof.
  intros E Hr Hs. induction l as [|v l IH]; cbn in *; [by rewrite Hr; cbn; rewrite Hs|].
  apply bind_ret in E as (w & -> & E). cbn. destruct (strict_eq w s); [done|by apply IH].
Qed.

Lemma kept_more kind e r rs l : kept kind e r rs → kept kind e r (rs ++ l).
Proof.
  intros Hk now. specialize (Hk now). unfold append_record in *. apply bind_ret in Hk as (scope & -> & E).
  apply bind_ret in E as (t & Ht & E). cbn [mbind exc_mbind]. rewrite Ht. apply bind_ret in E as (id & Hid & E). cbn [mbind exc_mbind]. rewrite Hid.
  apply bind_ret in E as (k & Hk & E). cbn [mbind exc_mbind]. rewrite Hk. cbn [mbind exc_mbind].
  apply bind_ret in E as (o & Ho & E). destruct o as [x|].
  - rewrite (find_by_app _ _ _ _ _ Ho). cbn [mbind exc_mbind]. apply bind_ret in E as (a & -> & E). cbn [mbind exc_mbind].
    apply bind_ret in E as (b & -> & E). cbn [mbind exc_mbind]. apply bind_ret in E as ([] & -> & E). cbn [mbind exc_mbind]. by injection E as ->.
  - exfalso. apply bind_ret in E as (q & _ & E). apply bind_ret in E as (h & _ & E). injection E as E _ _. 
    apply (f_equal length) in E. rewrite length_app in E. cbn in E. lia.
Qed.

Lemma append_kept kind now rs e rs' r b : append_record kind now rs e = Ret (rs', (r, b)) → is_json e = true → kept kind e r rs'.
Proof.
  intros E Hj now'. unfold append_record in *. apply bind_ret in E as (scope & -> & E).
  apply bind_ret in E as (t & Ht & E). cbn [mbind exc_mbind]. rewrite Ht. apply bind_ret in E as (id & Hid & E). cbn [mbind exc_mbind]. rewrite Hid.
  apply bind_ret in E as (k & Hk & E). cbn [mbind exc_mbind]. rewrite Hk. cbn [mbind exc_mbind].
  apply bind_ret in E as (o & Ho & E). destruct o as [x|].
  - apply bind_ret in E as (a & Ha & E). apply bind_ret in E as (c & Hc & E). apply bind_ret in E as ([] & Hg & E). injection E as <- <- <-.
    rewrite Ho. cbn [mbind exc_mbind]. rewrite Ha. cbn [mbind exc_mbind]. rewrite Hc. cbn [mbind exc_mbind]. by rewrite Hg.
  - apply bind_ret in E as (q & _ & E). apply bind_ret in E as (h & _ & E). injection E as <- <- <-.
    rewrite (find_by_snoc _ _ _ _ Ho); [|by destruct kind|by apply strict_eq_str]. cbn [mbind exc_mbind].
    replace (vget_opt _ (evidence_key kind)) with e by by destruct kind.
    destruct (canonicalJson_json e Hj) as [text ->]. cbn [mbind exc_mbind]. by rewrite bool_decide_true.
Qed.

(** Appending a record, or finding it, leaves the files in order. *)
Lemma appended_hold kind now fs evs eds cms e rs' r b :
  files_hold tenant fs evs eds cms → append_record kind now (kind_records kind evs eds) e = Ret (rs', (r, b)) → evidence_ok tenant e →
  files_hold tenant (append_lines fs (new_lines (kind_path kind) [(r, b)]))
    (match kind with Audit => rs' | Edge => evs end) (match kind with Audit => eds | Edge => rs' end) cms.
Proof.
  intros (Hh & He & Hd & Hl) Ha Hev. pose proof (append_lines_hold (new_lines (kind_path kind) [(r, b)]) _ _ _ _ Hh) as Hn.
  rewrite !lines_at_new, !added_one in Hn. destruct kind; cbn [kind_path kind_records] in *;
    (destruct (append_record_ok _ _ _ _ _ _ _ _ Ha Hev ltac:(done)) as (Hok & -> & _);
     rewrite ?decide_True, ?decide_False, ?app_nil_r in Hn by done; split_and!; [exact Hn|done|done|]);
    (eapply ledger_more; [| |exact Hl]; clear; set_solver).
Qed.

Lemma read_kind kind fs evs eds cms : files_hold tenant fs evs eds cms → readJsonl (kind_text kind fs) = Ret (kind_records kind evs eds).
Proof. intros (Hh & He & Hd & Hl). destruct (read_held _ _ _ _ _ Hh He Hd Hl) as (R1 & R2 & _). by destruct kind. Qed.

(** What is created from an input at any time, with any random id. *)
Definition created (kind : chainKind) (c : call) (evidence : val) : Prop :=
  ∀ uuid now, match c with
              | inl input => kind = Audit ∧ createAuditEvent uuid now input = Ret evidence
              | inr input => kind = Edge ∧ createEvidenceEdge uuid now input = Ret evidence
              end.

Definition given_val (v : val) : Prop := is_undef v = false ∧ is_null v = false.

(** A call whose record depends on its input only, which is of the tenant and is
    what JSON can carry. *)
Definition settled (c : call) : Prop :=
  match c with
  | inl i => given_val (in_id i) ∧ given_val (in_occurredAt i) ∧
      ∀ e, inputs_fit tenant (λ e input, createAuditEvent (env_uuid e) (env_now e) input) [(e, i)]
  | inr g => given_val (vget_opt g "id") ∧ given_val (vget_opt g "occurredAt") ∧
      ∀ e, inputs_fit tenant (λ e input, createEvidenceEdge (env_uuid e) (env_now e) input) [(e, g)]
  end.

Lemma given_or v d d' : given_val v → nullish_or v d = nullish_or v d'.
Proof. intros [? ?]. by destruct v. Qed.

Lemma event_settled i uuid now uuid' now' : given_val (in_id i) → given_val (in_occurredAt i) →
  createAuditEvent uuid now i = createAuditEvent uuid' now' i.
Proof.
  intros Hi Ho. unfold createAuditEvent. by rewrite (given_or _ (VDate (Some now)) (VDate (Some now')) Ho), (given_or _ (VStr ("evt_" +:+ uuid)) (VStr ("evt_" +:+ uuid')) Hi).
Qed.

Lemma edge_settled g uuid now uuid' now' e : given_val (vget_opt g "id") → given_val (vget_opt g "occurredAt") →
  createEvidenceEdge uuid now g = Ret e → createEvidenceEdge uuid' now' g = Ret e.
Proof.
  intros Hi Ho (vf & vt & from & to & relation & id & occ & t & meta & metadata & vscope & scope &
    H1 & H2 & H3 & H4 & H5 & H6 & H7 & H8 & H9 & H10 & H11 & H12 & H13 & ->)%createEvidenceEdge_ret.
  rewrite (vget_opt_of _ _ _ H7) in Hi. rewrite (vget_opt_of _ _ _ H8) in Ho. apply createEvidenceEdge_ret.
  exists vf, vt, from, to, relation, id, occ, t, meta, metadata, vscope, scope.
  rewrite (given_or _ (VDate (Some now')) (VDate (Some now)) Ho), (given_or _ (VStr ("edge_" +:+ uuid')) (VStr ("edge_" +:+ uuid)) Hi).
  by split_and!.
Qed.

Definition on_file (c : call) (r : val) (fs : files) : Prop := ∃ kind evidence evs eds cms,
  created kind c evidence ∧ requireTenantId (scope_tenantId evidence) = Ret tt ∧ files_hold tenant fs evs eds cms ∧
  kept kind evidence r (kind_records kind evs eds).

Lemma on_file_step c r fs fs' : file_step tenant fs fs' → on_file c r fs → on_file c r fs'.
Proof.
  intros Hs (kind & evidence & evs & eds & cms & Hc & Ht & Hh & Hk).
  destruct (step_grows _ _ _ _ _ _ Hh Hs) as (evs' & eds' & cms' & Hh').
  exists kind, evidence, (evs ++ evs'), (eds ++ eds'), (cms ++ cms'). split_and!; try done. destruct kind; by apply kept_more.
Qed.

(** A call of the store, seen as the creation of its evidence and an append. *)
Lemma call_opened c fs n s' r : settled c → sink_call (file_sinks world) c (fs, n) = (s', Ret r) → ∃ kind evidence lines,
  created kind c evidence ∧ requireTenantId (scope_tenantId evidence) = Ret tt ∧ fits tenant evidence ∧
  locked kind (env_appendedAt (world n).1) fs evidence = Ret (lines, r) ∧ s' = (append_lines fs lines, S n) ∧
  file_step tenant fs (append_lines fs lines).
Proof.
  destruct c as [i|g]; intros (Hi & Ho & Hf) E; cbn [sink_call sink_event sink_edge file_sinks] in E.
  - destruct (recordEvent _ _ fs i) as [[lines r']|m] eqn:Er; [|done]. injection E as <- <-. pose proof Er as Er0. unfold recordEvent in Er.
    apply bind_ret in Er as (v & Hv & Er). apply bind_ret in Er as ([] & Ht & Er%withLock_ret). exists Audit, v, lines.
    pose proof (Hf (world n).1) as Hfit. pose proof Hfit as Hfit0. apply Forall_cons in Hfit0 as [Hfv _].
    split_and!; try done; [|by apply Hfv|by eapply file_event].
    intros uuid now. split; [done|]. by rewrite (event_settled i uuid now (env_uuid (world n).1) (env_now (world n).1)).
  - destruct (recordEdge _ _ fs g) as [[lines r']|m] eqn:Er; [|done]. injection E as <- <-. pose proof Er as Er0. unfold recordEdge in Er.
    apply bind_ret in Er as (v & Hv & Er). apply bind_ret in Er as ([] & Ht & Er%withLock_ret). exists Edge, v, lines.
    pose proof (Hf (world n).1) as Hfit. pose proof Hfit as Hfit0. apply Forall_cons in Hfit0 as [Hfv _].
    split_and!; try done; [|by apply Hfv|by eapply file_edge].
    intros uuid now. split; [done|]. by eapply edge_settled.
Qed.

Lemma call_on_file c s s' r : files_ok tenant s.1 → settled c → sink_call (file_sinks world) c s = (s', Ret r) →
  rtc (file_step tenant) s.1 s'.1 ∧ on_file c r s'.1.
Proof.
  destruct s as [fs n]. intros (evs & eds & cms & Hh) Hc E.
  destruct (call_opened _ _ _ _ _ Hc E) as (kind & evidence & lines & Hcr & Ht & Hfit & Hl & -> & Hstep). cbn [fst]. split; [by apply rtc_once|].
  unfold locked in Hl. rewrite (read_kind _ _ _ _ _ Hh) in Hl. cbn [mbind exc_mbind] in Hl. apply bind_ret in Hl as ([rs' [r' b]] & Ha & [= <- <-]).
  pose proof (appended_hold _ _ _ _ _ _ _ _ _ _ Hh Ha (fits_evidence _ _ Hfit Ht)) as Hn.
  do 5 eexists. split_and!; [exact Hcr|exact Ht|exact Hn|]. destruct Hfit as [Hj _]. pose proof (append_kept _ _ _ _ _ _ _ Ha Hj) as Hk.
  by destruct kind.
Qed.

(** Some call of the process finds the lock held for good. *)
Definition lock_held (m : string) : Prop := m = "EEXIST" ∧ ∃ k, ¬ comes_free (world k).2.

Lemma call_on_file_replays c s r : on_file c r s.1 →
  ∃ s' o, sink_call (file_sinks world) c s = (s', o) ∧ s'.1 = s.1 ∧ (o = Ret r ∨ ∃ m, o = Throw m ∧ lock_held m).
Proof.
  destruct s as [fs n]. intros (kind & evidence & evs & eds & cms & Hc & Ht & Hh & Hk).
  pose proof (Hc (env_uuid (world n).1) (env_now (world n).1)) as Hcr.
  assert (locked kind (env_appendedAt (world n).1) fs evidence = Ret ([], r)) as Hl.
  { unfold locked. rewrite (read_kind _ _ _ _ _ Hh). cbn [mbind exc_mbind]. by rewrite Hk. }
  assert (∃ o, (match c with inl i => recordEvent (world n).2 (world n).1 fs i | inr g => recordEdge (world n).2 (world n).1 fs g end = o) ∧
    (o = Ret ([], r) ∨ ∃ m, o = Throw m ∧ lock_held m)) as (o & Eo & Ho).
  { eexists. split; [reflexivity|]. destruct (withLock_cases (world n).2 (locked kind (env_appendedAt (world n).1) fs evidence)) as [[_ Ew]|[Hf Ew]].
    - left. destruct c as [i|g]; destruct Hcr as [-> Hcr]; [unfold recordEvent|unfold recordEdge];
        rewrite Hcr; cbn [mbind exc_mbind]; rewrite Ht; etrans; [exact Ew|exact Hl|exact Ew|exact Hl].
    - right. exists "EEXIST". split; [|split; [done|by exists n]]. destruct c as [i|g]; destruct Hcr as [-> Hcr]; [unfold recordEvent|unfold recordEdge];
        rewrite Hcr; cbn [mbind exc_mbind]; rewrite Ht; exact Ew. }
  destruct c as [i|g]; cbn [sink_call sink_event sink_edge file_sinks]; rewrite Eo;
    (destruct Ho as [->|(m & -> & Hm)]; do 2 eexists; (split; [reflexivity|]); (split; [done|]); [by left|right; by exists m]).
Qed.

#[local] Instance files_remember : Remembers (file_sinks world) fst := {|
  valid := files_ok tenant; step := file_step tenant; replayable := settled; stored := on_file; unavailable := lock_held;
  step_valid := step_ok tenant; step_stored := on_file_step; call_stores := call_on_file; call_replays := call_on_file_replays |}.

Lemma files_replay p s s1 s2 r : files_ok tenant s.1 → settled (inl (plan_event p)) →
  (∀ owner e, e ∈ plan_edges p → settled (inr (edge_input (in_scope (plan_event p)) (Some owner) (plan_occurredAt p) e))) →
  run_plan (file_sinks world) p s = (s1, Ret r) → rtc (file_step tenant) s1.1 s2.1 →
  ∃ s3 o, run_plan (file_sinks world) p s2 = (s3, o) ∧ s3.1 = s2.1 ∧ (o = Ret r ∨ ∃ m, o = Throw m ∧ lock_held m).
Proof.
  intros Hok He Hed E Hs. apply (@run_replays _ _ (file_sinks world) fst files_remember p s s1 s2 r Hok); [|exact E|exact Hs].
  split; [exact He|]. intros owner. apply Forall_forall. intros e. apply Hed.
Qed.
End Files.

(** ** Sessions on the file store *)

(** C19. A record method called again, at any later time, with other random ids and
    whatever other processes have recorded or died in between, leaves the files as
    they are, and returns the records of its first call: an agent that retries or is
    restarted is recorded once. Only where the lock does not come free for some call
    (a writer that died leaves its lock file, which someone has to remove) it throws
    EEXIST instead. The caller must have given the time of the occurrence: without
    it the store refuses the second event. *)
Theorem session_replays `{Hasher} `{Host} tenant world s c p fs n s1 r fs2 n2 :
  files_reachable tenant fs → recorded s c p → given_val (com_occurredAt c) →
  (∀ e, inputs_fit tenant (λ e input, createAuditEvent (env_uuid e) (env_now e) input) [(e, plan_event p)]) →
  (∀ owner spec e, spec ∈ plan_edges p → inputs_fit tenant (λ e input, createEvidenceEdge (env_uuid e) (env_now e) input)
     [(e, edge_input (ses_scope s) (Some owner) (com_occurredAt c) spec)]) →
  run_plan (file_sinks world) p (fs, n) = (s1, Ret r) → rtc (file_step tenant) s1.1 fs2 →
  ∃ n3 o, run_plan (file_sinks world) p (fs2, n2) = ((fs2, n3), o) ∧
    (o = Ret r ∨ o = Throw "EEXIST" ∧ ∃ k, ¬ comes_free (world k).2).
Proof.
  intros Hr (id & actor & action & target & fields & Hp)%recorded_method Hc Hfe Hfd E Hs.
  unfold method, buildEvent in Hp. apply bind_ret in Hp as (event & Hp & Ep). apply bind_ret in Hp as (md & _ & Ee).
  injection Ep as Ep. injection Ee as Ee. rewrite <- Ep in Hfe, Hfd. rewrite <- Ee in Ep, Hfe. cbn [plan_edges plan_event] in Hfe, Hfd.
  destruct (files_replay tenant world p (fs, n) s1 (fs2, n2) r (files_reachable_ok _ _ Hr)) as ([fs3 n3] & o & E3 & V3 & Ho); [| |exact E|exact Hs|].
  - rewrite <- Ep. cbn [plan_event settled in_id in_occurredAt]. split_and!; [done|done|apply Hfe].
  - intros owner spec Hin. rewrite <- Ep in Hin |- *. cbn [plan_edges plan_event in_scope plan_occurredAt] in *. split_and!.
    + done.
    + unfold edge_input. cbn [vget_opt]. rewrite obj_get_app. cbn. destruct Hc as [Hc1 Hc2]. by destruct (com_occurredAt c).
    + intros e. by apply Hfd.
  - cbn in V3. subst fs3. exists n3, o. split; [done|]. destruct Ho as [->|(m & -> & -> & Hk)]; [by left|by right].
Qed.

#[local] Existing Instance toy_hasher.
#[local] Existing Instance toy_host.

Definition demo_session : ProvenanceSession :=
  Session (VObj [("tenantId", VStr "t")]) "ses_1" (VObj [("id", VStr "a1"); ("type", VStr "ai_agent")])
    (Context_ (VStr DEFAULT_PURPOSE) VUndef None VUndef).
Definition demo_common (occurredAt : val) : common := Common None occurredAt VUndef None.
Definition demo_reviewer : val := VObj [("id", VStr "u1"); ("type", VStr "user")].
Definition demo_no_event : AuditEventInput := {|
  in_id := VUndef; in_occurredAt := VUndef; in_actor := VUndef; in_action := VUndef; in_target := VUndef; in_scope := VUndef;
  in_requestId := VUndef; in_purpose := VUndef; in_lawfulBasis := VUndef; in_dataCategories := None; in_retention := VUndef;
  in_metadata := VUndef |}.
Definition demo_review (occurredAt : val) : plan :=
  default (Plan demo_no_event VUndef []) (exc_to_option
    (recordReview demo_session (demo_common occurredAt) "pr_1" demo_reviewer (Some "prop_1") (VStr "h") VUndef VUndef (VStr "approved"))).
Definition demo_world (k : nat) : env * (nat → bool) := (Env "u" (Z.of_nat k) (Z.of_nat k), λ attempt, Nat.ltb attempt 2).
Definition demo_at : val := VDate (Some 0%Z).
#[local] Notation demo_run occurredAt := (run_plan (file_sinks demo_world) (demo_review occurredAt)).

Lemma demo_review_recorded : recorded demo_session (demo_common demo_at) (demo_review demo_at).
Proof. eapply (rec_review _ _ "pr_1" demo_reviewer (Some "prop_1") (VStr "h") VUndef VUndef (VStr "approved")). vm_compute. reflexivity. Qed.

Lemma demo_review_event_fits e :
  inputs_fit "t" (λ e input, createAuditEvent (env_uuid e) (env_now e) input) [(e, plan_event (demo_review demo_at))].
Proof. constructor; [|constructor]. intros v Ev. vm_compute in Ev. injection Ev as <-. split; vm_compute; reflexivity. Qed.

Lemma demo_review_edges_fit owner spec e : spec ∈ plan_edges (demo_review demo_at) →
  inputs_fit "t" (λ e input, createEvidenceEdge (env_uuid e) (env_now e) input)
    [(e, edge_input (ses_scope demo_session) (Some owner) (com_occurredAt (demo_common demo_at)) spec)].
Proof.
  intros Hin. constructor; [|constructor]. intros v Ev. vm_compute in Hin.
  apply list_elem_of_In in Hin as [<-|[]]. vm_compute in Ev. injection Ev as <-. split; vm_compute; reflexivity.
Qed.

Lemma demo_review_runs : ∃ fs r, demo_run demo_at (no_files, 0) = ((fs, 2), Ret r) ∧ length r.2 = 1%nat.
Proof. do 2 eexists. split; vm_compute; reflexivity. Qed.

Lemma demo_world_free k : comes_free (demo_world k).2.
Proof. exists 2%nat. split; [lia|reflexivity]. Qed.

Lemma session_replays_witness : ∃ fs r n3, length r.2 = 1%nat ∧ demo_run demo_at (fs, 7) = ((fs, n3), Ret r).
Proof.
  destruct demo_review_runs as (fs & r & E & Hr).
  destruct (session_replays "t" demo_world demo_session (demo_common demo_at) (demo_review demo_at) no_files 0 (fs, 2) r fs 7)
    as (n3 & o & E3 & [->|[_ [k Hk]]]).
  - constructor.
  - exact demo_review_recorded.
  - split; reflexivity.
  - exact demo_review_event_fits.
  - exact demo_review_edges_fit.
  - exact E.
  - constructor.
  - exists fs, r, n3. by split.
  - by destruct (Hk (demo_world_free k)).
Defined.

(** Without a time the second call is another event of the same id, which is
    refused; a repeated [link] too, though it is one edge for good. *)
Example unstamped_conflicts :
  match demo_run VUndef (no_files, 0) with
  | (s, Ret _) => (demo_run VUndef s).2 = Throw "idempotency conflict"
  | _ => False
  end.
Proof. vm_compute. reflexivity. Qed.

Example relink_conflicts :
  let relink := Provenance.link (file_sinks demo_world) demo_session (entity "file" "a") "part_of" (entity "repository" "r") VUndef VUndef in
  match relink (no_files, 0) with
  | (s, Ret _) => (relink s).2 = Throw "idempotency conflict"
  | _ => False
  end.
Proof. vm_compute. reflexivity. Qed.

(** The event of a review is keyed by its pull request: once changes were requested,
    the approval that follows is refused, unless the caller names it. *)
Example second_review_conflicts :
  let review occurredAt decision := default (Plan demo_no_event VUndef []) (exc_to_option
    (recordReview demo_session (demo_common (VDate (Some occurredAt))) "pr_1" demo_reviewer None VUndef VUndef VUndef (VStr decision))) in
  match run_plan (file_sinks demo_world) (review 0%Z "changes_requested") (no_files, 0) with
  | (s, Ret _) => (run_plan (file_sinks demo_world) (review 1000%Z "approved") s).2 = Throw "idempotency conflict"
  | _ => False
  end.
Proof. vm_compute. reflexivity. Qed.
