(* ===== verification/Outbox.v ===== *)
(** * The durable outbox (storage/src/outbox-shared.ts, outbox-file.ts)

    Rows of evidence waiting for delivery, leased to one worker at a time. The
    snapshot file is the list of its rows: the adapter replaces it as a whole
    under an exclusive lock, so an operation is a function from the old snapshot
    to its result, and one that throws leaves the snapshot as it was. Payloads
    are JSON data from [createPendingEntry] on, which makes writing and reading
    them back the identity ([cloneEntry]). Clock readings and random ids are
    arguments; [localeCompare] is the host's. *)

From S2P Require Import Prelude Regex JsNum JsVal Dates JsonText Hash Canonical Event Store DeliverySafety.

#[local] Open Scope Z_scope.

Class Locale := { localeCompare : string → string → comparison }.

(** ** Data *)

Inductive OutboxStatus := pending | leased | paused | dispatched | dead.
#[global] Instance OutboxStatus_eq_dec : EqDecision OutboxStatus.
Proof. solve_decision. Defined.

Definition status_text (s : OutboxStatus) : string :=
  match s with
  | pending => "pending" | leased => "leased" | paused => "paused" | dispatched => "dispatched" | dead => "dead"
  end.

Record OutboxEnqueueInput := EnqueueInput {
  input_id : val; input_tenantId : val; input_payload : val; input_availableAt : val;
}.

(** A failure summary; a truncated one ends in an ellipsis. *)
Record summary := Summary { summary_text : string; truncated : bool }.

Record OutboxStoredEntry := Entry {
  entry_id : string;
  tenantId : string;
  payload : val;
  availableAt : string;
  status : OutboxStatus;
  attempts : Z;
  createdAt : string;
  updatedAt : string;
  dispatchedAt : option string;
  lastError : option summary;
  leaseId : option string;
  leaseExpiresAt : option string;
  circuitId : option string;
}.

Record OutboxListOptions := OutboxList { list_tenantId : val; list_limit : val; list_now : val }.

Record OutboxClaimOptions := ClaimOptions {
  claim_list : OutboxListOptions;    (* tenantId, limit, now *)
  claim_leaseId : val;
  leaseMs : val;
  maxPayloadBytes : val;
}.

(** ** Validation *)

Definition assertNonEmpty (value : val) (field : string) : exc string :=
  match value with
  | VStr s => if blank s then Throw (field +:+ " is required") else Ret s
  | _ => Throw (field +:+ " is required")
  end.

Definition OUTBOX_SCHEMA_VERSION : string := "2026-06-23".
Definition MAX_LAST_ERROR_LENGTH : nat := 256.

Definition assertPayloadTenant (tenant : val) (expected : option string) : exc string :=
  actual ← assertNonEmpty tenant "scope.tenantId";
  _ ← guard_exc (match expected with Some e => String.eqb actual e | None => true end) "outbox payload tenant mismatch";
  Ret actual.

(** The loop over the scopes of records or edges. *)
Fixpoint payload_tenants (members : list val) (tenant : option string) : exc (option string) :=
  match members with
  | [] => Ret tenant
  | m :: members =>
      scope ← vget m "scope";
      tenant ← assertPayloadTenant (vget_opt scope "tenantId") tenant;
      payload_tenants members (Some tenant)
  end.

Definition array_of (v : val) : option (list val) := match v with VArr xs => Some xs | _ => None end.

Definition validatePayload (payload : val) (expectedTenantId : option string) : exc unit :=
  _ ← guard_exc (is_plain_object payload) "outbox payload must be an object";
  version ← vget payload "schemaVersion";
  _ ← guard_exc (strict_eq version (VStr OUTBOX_SCHEMA_VERSION)) "outbox payload schemaVersion is unsupported";
  binding ← vget payload "mutationBinding";
  _ ← guard_exc (includes ["same_transaction"; "not_transaction_bound"; "best_effort"] binding)
        "outbox payload mutationBinding is unsupported";
  records ← vget payload "records";
  edges ← vget payload "edges";
  match array_of records, array_of edges with
  | Some rs, Some es =>
      tenant ← payload_tenants rs expectedTenantId;
      _ ← payload_tenants es tenant;
      Ret tt
  | _, _ => Throw "outbox payload records and edges are required"
  end.

(** The UTF-8 length of the request body. *)
Definition outboxPayloadByteLength (payload : val) : exc Z :=
  _ ← validatePayload payload None;
  records ← vget payload "records";
  edges ← vget payload "edges";
  match json_stringify (VObj [("events", records); ("edges", edges)]) with
  | Some text => Ret (Z.of_nat (length (utf8 text)))
  | None => Throw "unexpected token"
  end.

Section Outbox.
Context `{Host} `{Locale}.

(** [new Date(String(value))] for everything but dates. *)
Definition normalizeDate (value : val) : exc string :=
  time ← match value with VDate t => Ret t | _ => text ← js_String value; Ret (date_parse text) end;
  match time with Some t => Ret (toISOString t) | None => Throw "timestamp is invalid" end.

(** Up to 128 letters, digits, [_] and [-]. *)
Definition circuit_char : ascii → bool := cls_or (cls_or upper_az lower_az) (cls_or digit (one_of "_-")).
Definition CIRCUIT_PATTERN : re := rep 1 128 (Cls circuit_char).

Definition sanitizeCircuitId (value : option string) : option string :=
  match value with Some s => if re_test CIRCUIT_PATTERN s then Some s else None | None => None end.

Definition resolveCircuitId (uuid : string) (value : option string) : string :=
  default ("local_" +:+ uuid) (sanitizeCircuitId value).

(** The properties of a stored row that the validator reads. *)
Definition entry_val (e : OutboxStoredEntry) : val :=
  VObj ([("id", VStr (entry_id e)); ("tenantId", VStr (tenantId e)); ("payload", payload e);
         ("availableAt", VStr (availableAt e)); ("status", VStr (status_text (status e)));
         ("attempts", VInt (attempts e)); ("createdAt", VStr (createdAt e)); ("updatedAt", VStr (updatedAt e))]
        ++ opt_field "dispatchedAt" (vstr_opt (dispatchedAt e)) ++ opt_field "leaseId" (vstr_opt (leaseId e))
        ++ opt_field "leaseExpiresAt" (vstr_opt (leaseExpiresAt e)) ++ opt_field "circuitId" (vstr_opt (circuitId e))).

Definition validateStoredEntry (entry : val) : exc unit :=
  _ ← guard_exc (is_plain_object entry) "stored outbox entry is invalid";
  let field := vget_opt entry in
  _ ← assertNonEmpty (field "id") "id";
  tenant ← assertNonEmpty (field "tenantId") "tenantId";
  _ ← validatePayload (field "payload") (Some tenant);
  status ← js_String (field "status");
  _ ← guard_exc (bool_decide (status ∈ ["pending"; "leased"; "paused"; "dispatched"; "dead"]))
        "stored outbox status is invalid";
  _ ← guard_exc (match field "attempts" with
                 | VNum n => match num_int n with Some z => 0 <=? z | None => false end
                 | _ => false end) "stored outbox attempts is invalid";
  _ ← normalizeDate (field "availableAt");
  _ ← normalizeDate (field "createdAt");
  _ ← normalizeDate (field "updatedAt");
  _ ← (if is_undef (field "dispatchedAt") then Ret "" else normalizeDate (field "dispatchedAt"));
  let has s := strict_eq (field "status") (VStr s) in
  _ ← (if has "leased" then _ ← assertNonEmpty (field "leaseId") "leaseId";
                           _ ← normalizeDate (field "leaseExpiresAt"); Ret tt
       else guard_exc (is_undef (field "leaseId") && is_undef (field "leaseExpiresAt"))
              "stored outbox lease metadata is invalid");
  _ ← guard_exc (negb (has "paused") || match field "circuitId" with
                                       | VStr s => bool_decide (is_Some (sanitizeCircuitId (Some s)))
                                       | _ => false end) "stored paused outbox circuit id is invalid";
  guard_exc (has "paused" || is_undef (field "circuitId")) "stored outbox circuit id is invalid".

Definition validateListOptions (o : OutboxListOptions) : exc unit :=
  _ ← (if is_undef (list_tenantId o) then Ret "" else assertNonEmpty (list_tenantId o) "tenantId");
  _ ← guard_exc (match list_limit o with
                 | VUndef => true
                 | VNum n => match num_int n with Some z => 0 <=? z | None => false end
                 | _ => false end) "limit must be a non-negative integer";
  _ ← (if is_undef (list_now o) then Ret "" else normalizeDate (list_now o));
  Ret tt.

Definition validateClaimOptions (o : OutboxClaimOptions) : exc unit :=
  _ ← validateListOptions (claim_list o);
  _ ← assertNonEmpty (claim_leaseId o) "leaseId";
  _ ← requirePositiveInteger (leaseMs o) "leaseMs";
  _ ← requirePositiveInteger (list_limit (claim_list o)) "limit";
  _ ← requirePositiveInteger (maxPayloadBytes o) "maxPayloadBytes";
  Ret tt.

(** ** Rows *)

Definition compareEntries (left right : OutboxStoredEntry) : comparison :=
  match localeCompare (createdAt left) (createdAt right) with
  | Eq => localeCompare (entry_id left) (entry_id right)
  | c => c
  end.
Definition entry_leb (left right : OutboxStoredEntry) : bool :=
  match compareEntries left right with Gt => false | _ => true end.
Definition sort_entries (entries : list OutboxStoredEntry) : list OutboxStoredEntry := sort_by entry_leb entries.

Definition createPendingEntry (now : Z) (input : OutboxEnqueueInput) : exc OutboxStoredEntry :=
  tenantId ← assertNonEmpty (input_tenantId input) "tenantId";
  id ← assertNonEmpty (input_id input) "id";
  _ ← validatePayload (input_payload input) (Some tenantId);
  now ← normalizeDate (VDate (Some now));
  payload ← json_clone (input_payload input);
  availableAt ← normalizeDate (nullish_or (input_availableAt input) (VStr now));
  Ret (Entry id tenantId payload availableAt pending 0 now now None None None None None).

Definition sameEnqueueInput (left right : OutboxStoredEntry) : exc bool :=
  if String.eqb (tenantId left) (tenantId right) then
    l ← canonicalJson (payload left); r ← canonicalJson (payload right); Ret (bool_decide (l = r))
  else Ret false.

(** The string arguments of a filter; [undefined] selects all. *)
Definition in_tenant (tenant : val) (e : OutboxStoredEntry) : bool :=
  is_undef tenant || strict_eq (VStr (tenantId e)) tenant.

Definition filterEntries (entries : list OutboxStoredEntry) (o : OutboxListOptions) : list OutboxStoredEntry :=
  let scoped := sort_entries (List.filter (in_tenant (list_tenantId o)) entries) in
  match list_limit o with
  | VNum n => take (Z.to_nat (default 0 (num_int n))) scoped
  | _ => scoped
  end.

Record settle_options := SettleOptions { settle_leaseId : option string; settle_at : val }.
Record fail_options := FailOptions {
  fail_leaseId : option string; fail_now : val; fail_availableAt : val;
  retryable : option bool; disposition : option DeliveryDisposition; fail_circuitId : option string;
}.

Definition resolveDisposition (o : fail_options) : exc DeliveryDisposition :=
  let legacy := (λ r : bool, if r then retry else reject) <$> retryable o in
  match legacy, disposition o with
  | Some l, Some d => if bool_decide (l = d) then Ret d else Throw "retryable and disposition disagree"
  | _, Some d => Ret d
  | Some l, None => Ret l
  | None, None => Ret retry
  end.

Definition assertLease (entry : OutboxStoredEntry) (lease : option string) : exc unit :=
  match status entry with
  | leased => guard_exc (match lease with Some _ => bool_decide (lease = leaseId entry) | None => false end)
                "outbox lease does not match"
  | _ => guard_exc (match lease with Some _ => false | None => true end) "outbox lease is no longer active"
  end.

(** [message.replace(/\s+/g, " ").trim()] *)
Fixpoint collapse (in_space : bool) (l : list ascii) : list ascii :=
  match l with
  | [] => []
  | c :: l => if js_space c then (if in_space then collapse true l else " "%char :: collapse true l) else c :: collapse false l
  end.
Fixpoint drop_space (l : list ascii) : list ascii :=
  match l with c :: r => if js_space c then drop_space r else l | [] => [] end.
Definition trim (l : list ascii) : list ascii := rev (drop_space (rev (drop_space l))).

(** An [Error] object has a name and a message; anything else is [None]. *)
Definition errorMessage (error : option (string * string)) : summary :=
  match error with
  | None => Summary "outbox dispatch failed" false
  | Some (error_name, text) =>
      let message := trim (collapse false (chars text)) in
      let name := if blank error_name then chars "Error" else chars error_name in
      let l := match message with [] => name | _ => name ++ chars ": " ++ message end in
      if (MAX_LAST_ERROR_LENGTH <? length l)%nat then Summary (of_chars (take (MAX_LAST_ERROR_LENGTH - 1) l)) true
      else Summary (of_chars l) false
  end.
End Outbox.
