(* ===== verification/OutboxFile.v ===== *)
(** * The file outbox adapter (storage/src/outbox-file.ts)

    Each operation is a function from the snapshot to the new snapshot and its
    result; one that throws leaves the snapshot unchanged, because it is written
    last. Rows that the code changes in place are named by their position. The
    host's transaction callback is a program that enqueues and may react to a
    refused enqueue. *)

From S2P Require Import Prelude JsNum JsVal Dates Event DeliverySafety Outbox.

#[local] Open Scope Z_scope.

(** A callback of [transaction]: it returns, throws, or enqueues and goes on with
    the row or the error. [now] is the clock at the enqueue. *)
Inductive tx_program (A : Type) : Type :=
| TxReturn (a : A)
| TxThrow (msg : string)
| TxEnqueue (now : Z) (input : OutboxEnqueueInput) (k : exc OutboxStoredEntry → tx_program A).
Arguments TxReturn {A}.
Arguments TxThrow {A}.
Arguments TxEnqueue {A}.

(** Rows with their positions, and rows put back at their positions. *)
Definition indexed {A} (l : list A) : list (nat * A) := zip (seq 0 (length l)) l.
Definition put_back {A} (changed : list (nat * A)) (l : list A) : list A :=
  fold_left (λ l c, <[c.1 := c.2]> l) changed l.

(** The first row with an id, changed in place. *)
Fixpoint update_first (id : string) (f : OutboxStoredEntry → OutboxStoredEntry) (entries : list OutboxStoredEntry)
    : list OutboxStoredEntry :=
  match entries with
  | [] => []
  | e :: rest => if String.eqb (entry_id e) id then f e :: rest else e :: update_first id f rest
  end.

Definition findEntry (entries : list OutboxStoredEntry) (id : string) : exc OutboxStoredEntry :=
  match find (λ e, String.eqb (entry_id e) id) entries with Some e => Ret e | None => Throw "outbox entry not found" end.

(** The checked number of an option. *)
Definition int_of (v : val) : Z := default 0 (safe_integer v).
Definition text_of (v : val) : string := match v with VStr s => s | _ => "" end.

Section Adapter.
Context `{Host} `{Locale}.

Definition readEntries (file : list OutboxStoredEntry) : exc (list OutboxStoredEntry) :=
  _ ← mapE (λ e, validateStoredEntry (entry_val e)) file; Ret (sort_entries file).

(** The next content of the file. *)
Definition writeEntries (entries : list OutboxStoredEntry) : list OutboxStoredEntry := sort_entries entries.

Definition undelivered (e : OutboxStoredEntry) : bool := negb (bool_decide (status e = dispatched)).

(** [staged.filter(...).reduce(...)] *)
Fixpoint payload_bytes (entries : list OutboxStoredEntry) : exc Z :=
  match entries with
  | [] => Ret 0
  | e :: entries => n ← outboxPayloadByteLength (payload e); total ← payload_bytes entries; Ret (n + total)
  end.

(** The message of the error; a ceiling is a safe integer, whose text is its digits. *)
Definition OutboxQueueFullError (maxQueuedBytes : Z) : string :=
  "outbox backlog reached the " +:+ String.string_of_list_ascii (num_to_chars (num_of_Z maxQueuedBytes))
  +:+ "-byte ceiling; drain or resume delivery before enqueueing".

(** The constructor: the ceiling of the adapter, [undefined] for none. *)
Definition createFileOutboxAdapter (maxQueuedBytes : val) : exc (option Z) :=
  if is_undef maxQueuedBytes then Ret None
  else match safe_integer maxQueuedBytes with
       | Some z => if z <=? 0 then Throw "maxQueuedBytes must be a positive safe integer" else Ret (Some z)
       | None => Throw "maxQueuedBytes must be a positive safe integer"
       end.

Definition enqueue (maxQueuedBytes : option Z) (now : Z) (staged : list OutboxStoredEntry) (input : OutboxEnqueueInput)
    : exc (list OutboxStoredEntry * OutboxStoredEntry) :=
  entry ← createPendingEntry now input;
  match find (λ e, String.eqb (entry_id e) (entry_id entry)) staged with
  | Some existing =>
      same ← sameEnqueueInput existing entry;
      _ ← guard_exc same "outbox idempotency conflict";
      Ret (staged, existing)
  | None =>
      _ ← match maxQueuedBytes with
          | Some ceiling =>
              backlog ← payload_bytes (List.filter undelivered staged);
              bytes ← outboxPayloadByteLength (payload entry);
              guard_exc (backlog + bytes <=? ceiling) (OutboxQueueFullError ceiling)
          | None => Ret tt
          end;
      Ret (sort_entries (staged ++ [entry]), entry)
  end.

Fixpoint run_tx {A} (maxQueuedBytes : option Z) (staged : list OutboxStoredEntry) (run : tx_program A)
    : exc (list OutboxStoredEntry * A) :=
  match run with
  | TxReturn a => Ret (staged, a)
  | TxThrow msg => Throw msg
  | TxEnqueue now input k =>
      match enqueue maxQueuedBytes now staged input with
      | Ret (staged, entry) => run_tx maxQueuedBytes staged (k (Ret entry))
      | Throw msg => run_tx maxQueuedBytes staged (k (Throw msg))
      end
  end.

Definition transaction {A} (maxQueuedBytes : option Z) (run : tx_program A) (file : list OutboxStoredEntry)
    : exc (list OutboxStoredEntry * A) :=
  entries ← readEntries file;
  '(staged, result) ← run_tx maxQueuedBytes entries run;
  Ret (writeEntries staged, result).

Definition list_entries (o : OutboxListOptions) (file : list OutboxStoredEntry) : exc (list OutboxStoredEntry) :=
  _ ← validateListOptions o;
  entries ← readEntries file;
  Ret (filterEntries entries o).

Definition paused_tenants (entries : list OutboxStoredEntry) : list string :=
  tenantId <$> List.filter (λ e, bool_decide (status e = paused)) entries.

Definition due (now : string) (e : OutboxStoredEntry) : bool := String.leb (availableAt e) now.

Definition listDispatchable (now : Z) (o : OutboxListOptions) (file : list OutboxStoredEntry)
    : exc (list OutboxStoredEntry) :=
  _ ← validateListOptions o;
  now ← normalizeDate (nullish_or (list_now o) (VDate (Some now)));
  entries ← readEntries file;
  Ret (filterEntries
         (List.filter (λ e, negb (bool_decide (tenantId e ∈ paused_tenants entries))
                            && bool_decide (status e = pending) && due now e) entries) o).

(** [entry.status === "leased" && entry.availableAt > now] *)
Definition active (now : string) (e : OutboxStoredEntry) : bool :=
  bool_decide (status e = leased) && String.ltb now (availableAt e).

Definition active_tenants (now : string) (entries : list OutboxStoredEntry) : list string :=
  tenantId <$> List.filter (active now) entries.

(** [new Date(new Date(now).getTime() + leaseMs).toISOString()] *)
Definition lease_expiry (now : string) (ms : Z) : exc string :=
  match date_parse now with
  | Some t => if Z.abs (t + ms) <=? 8640000000000000 then Ret (toISOString (t + ms)) else Throw "Invalid time value"
  | None => Throw "Invalid time value"
  end.

Definition lease_entry (now lease expiresAt : string) (e : OutboxStoredEntry) : OutboxStoredEntry :=
  Entry (entry_id e) (tenantId e) (payload e) expiresAt leased (attempts e) (createdAt e) now (dispatchedAt e)
    (lastError e) (Some lease) (Some expiresAt) (circuitId e).

(** The rows leased, in order, with their positions. *)
Fixpoint claim_loop (limit maxBytes : Z) (now lease : string) (ms : Z) (blocked : list string)
    (claims : list (nat * OutboxStoredEntry)) (bytes : Z) (candidates : list (nat * OutboxStoredEntry))
    : exc (list (nat * OutboxStoredEntry)) :=
  match candidates with
  | [] => Ret claims
  | (i, e) :: candidates =>
      if limit <=? Z.of_nat (length claims) then Ret claims
      else if bool_decide (tenantId e ∈ blocked) then claim_loop limit maxBytes now lease ms blocked claims bytes candidates
      else
        entryBytes ← outboxPayloadByteLength (payload e);
        if maxBytes <? bytes + entryBytes then Ret claims
        else
          expiresAt ← lease_expiry now ms;
          claim_loop limit maxBytes now lease ms (tenantId e :: blocked)
            (claims ++ [(i, lease_entry now lease expiresAt e)]) (bytes + entryBytes) candidates
  end.

(** [filterEntries] of rows that keep their positions. *)
Definition in_queue_order (tenant : val) (rows : list (nat * OutboxStoredEntry)) : list (nat * OutboxStoredEntry) :=
  sort_by (λ a b, entry_leb a.2 b.2) (List.filter (λ r, in_tenant tenant r.2) rows).

Definition claimable (now : string) (blocked : list string) (e : OutboxStoredEntry) : bool :=
  negb (bool_decide (tenantId e ∈ blocked))
  && (bool_decide (status e = pending) && due now e || bool_decide (status e = leased) && due now e).

Definition claimDispatchable (now : Z) (o : OutboxClaimOptions) (file : list OutboxStoredEntry)
    : exc (list OutboxStoredEntry * list OutboxStoredEntry) :=
  _ ← validateClaimOptions o;
  entries ← readEntries file;
  now ← normalizeDate (nullish_or (list_now (claim_list o)) (VDate (Some now)));
  let blocked := paused_tenants entries ++ active_tenants now entries in
  let candidates := in_queue_order (list_tenantId (claim_list o))
                      (List.filter (λ r, claimable now blocked r.2) (indexed entries)) in
  claims ← claim_loop (int_of (list_limit (claim_list o))) (int_of (maxPayloadBytes o)) now (text_of (claim_leaseId o))
             (int_of (leaseMs o)) blocked [] 0 candidates;
  Ret (match claims with [] => file | _ => writeEntries (put_back claims entries) end, claims.*2).

Definition settle (at_ : string) (e : OutboxStoredEntry) : OutboxStoredEntry :=
  Entry (entry_id e) (tenantId e) (payload e) (availableAt e) dispatched (attempts e) (createdAt e) at_ (Some at_)
    None None None None.

Definition markDispatched (now : Z) (id : val) (o : settle_options) (file : list OutboxStoredEntry)
    : exc (list OutboxStoredEntry * OutboxStoredEntry) :=
  id ← assertNonEmpty id "id";
  entries ← readEntries file;
  entry ← findEntry entries id;
  _ ← assertLease entry (settle_leaseId o);
  at_ ← normalizeDate (nullish_or (settle_at o) (VDate (Some now)));
  Ret (writeEntries (update_first id (settle at_) entries), settle at_ entry).

(** The row after a failure, for its disposition. *)
Definition failed (now : string) (error : summary) (uuid : string) (d : DeliveryDisposition)
    (available : string) (circuit : option string) (e : OutboxStoredEntry) : OutboxStoredEntry :=
  let row st avail circ :=
    Entry (entry_id e) (tenantId e) (payload e) avail st (attempts e + 1) (createdAt e) now (dispatchedAt e)
      (Some error) None None circ in
  match d with
  | reject => row dead (availableAt e) None
  | pause => row paused (availableAt e) (Some (resolveCircuitId uuid circuit))
  | retry => row pending available None
  end.

Definition markFailed (now : Z) (uuid : string) (id : val) (error : option (string * string)) (o : fail_options)
    (file : list OutboxStoredEntry) : exc (list OutboxStoredEntry * OutboxStoredEntry) :=
  id ← assertNonEmpty id "id";
  entries ← readEntries file;
  entry ← findEntry entries id;
  _ ← assertLease entry (fail_leaseId o);
  now ← normalizeDate (nullish_or (fail_now o) (VDate (Some now)));
  d ← resolveDisposition o;
  available ← (if bool_decide (d = retry) then normalizeDate (nullish_or (fail_availableAt o) (VStr now))
               else Ret (availableAt entry));
  let row := failed now (errorMessage error) uuid d available (fail_circuitId o) in
  Ret (writeEntries (update_first id row entries), row entry).

Definition rearm (now : string) (e : OutboxStoredEntry) : OutboxStoredEntry :=
  Entry (entry_id e) (tenantId e) (payload e) now pending (attempts e) (createdAt e) now (dispatchedAt e)
    (lastError e) (leaseId e) (leaseExpiresAt e) None.

Definition resumePaused (clock : Z) (tenant expectedCircuitId limit now : val) (file : list OutboxStoredEntry)
    : exc (list OutboxStoredEntry * nat) :=
  tenant ← assertNonEmpty tenant "tenantId";
  expected ← assertNonEmpty expectedCircuitId "expectedCircuitId";
  _ ← guard_exc (match safe_integer limit with Some z => 0 <? z | None => false end) "limit must be positive";
  entries ← readEntries file;
  let held := List.filter (λ r, String.eqb (tenantId r.2) tenant && bool_decide (status r.2 = paused)) (indexed entries) in
  _ ← guard_exc (forallb (λ r, bool_decide (circuitId r.2 = Some expected)) held) "outbox circuit does not match";
  now ← normalizeDate (nullish_or now (VDate (Some clock)));
  let selected := take (Z.to_nat (int_of limit)) held in
  Ret (match selected with
       | [] => file
       | _ => writeEntries (put_back ((λ r, (r.1, rearm now r.2)) <$> selected) entries)
       end, length selected).
End Adapter.
