(* ===== verification/OutboxHistory.v ===== *)
(** * Histories of the outbox

    What holds in every snapshot that some sequence of operations of any number
    of workers leads to: rows are read back, evidence is never lost or changed,
    and a tenant has at most one active lease. *)

From S2P Require Import Prelude Regex JsNum JsVal Dates JsonText Event Store StoreHistory DeliverySafety Outbox OutboxFile.

#[local] Open Scope Z_scope.

(** ** Positions *)

Lemma elem_of_indexed {A} (l : list A) i x : (i, x) ∈ indexed l ↔ l !! i = Some x.
Proof.
  unfold indexed. rewrite list_elem_of_lookup. split.
  - intros [j E]. apply lookup_zip_with_Some in E as (n & y & [= <- <-] & Hn & Hy).
    apply lookup_seq in Hn as [-> _]. exact Hy.
  - intros E. exists i. apply lookup_zip_with_Some. exists i, x. split; [done|]. split; [|done].
    apply lookup_seq. split; [done|]. by eapply lookup_lt_Some.
Qed.

(** Rows put back come from the old rows or are the changed ones. *)
Lemma put_back_elem {A} (changed : list (nat * A)) (l : list A) x :
  x ∈ put_back changed l → x ∈ l ∨ x ∈ changed.*2.
Proof.
  unfold put_back. revert l. induction changed as [|[i y] changed IH]; intros l Hx; cbn [fold_left fmap list_fmap] in *; [by left|].
  destruct (IH _ Hx) as [Hin|Hin]; [|right; by right].
  apply list_elem_of_lookup in Hin as [j Hj]. cbn [fst snd] in Hj. destruct (decide (i = j)) as [->|Hne].
  - destruct (decide (j < length l)%nat) as [Hlt|Hge].
    + rewrite list_lookup_insert_eq in Hj by done. injection Hj as <-. right. by left.
    + rewrite list_insert_ge in Hj by lia. left. by eapply list_elem_of_lookup_2.
  - rewrite list_lookup_insert_ne in Hj by done. left. by eapply list_elem_of_lookup_2.
Qed.

(** A relation between each row and what it becomes. *)
Lemma put_back_Forall2 {A} (R : A → A → Prop) (changed : list (nat * A)) (l : list A) :
  (∀ x, R x x) → NoDup changed.*1 → (∀ i y, (i, y) ∈ changed → ∃ x, l !! i = Some x ∧ R x y) → Forall2 R l (put_back changed l).
Proof.
  intros HR Hn Hc. unfold put_back.
  enough (∀ m, Forall2 R l m → (∀ i y, (i, y) ∈ changed → l !! i = m !! i) →
    Forall2 R l (fold_left (λ l c, <[c.1:=c.2]> l) changed m)) as H
    by (apply H; [clear -HR; induction l; constructor; auto|reflexivity]).
  induction changed as [|[i y] changed IH]; intros m Hm Heq; cbn [fold_left]; [done|].
  cbn [fmap list_fmap] in Hn. apply NoDup_cons in Hn as [Hi Hn]. destruct (Hc i y) as (x & Hx & Rxy); [by left|].
  apply IH; [done|intros j z Hj; apply (Hc j z); by right|..].
  - apply Forall2_same_length_lookup. split; [by rewrite length_insert, (Forall2_length _ _ _ Hm)|].
    intros j a b Ha Hb. cbn [fst snd] in Hb. destruct (decide (i = j)) as [->|Hne].
    + rewrite list_lookup_insert_eq in Hb by (rewrite <- (Forall2_length _ _ _ Hm); by eapply lookup_lt_Some). congruence.
    + rewrite list_lookup_insert_ne in Hb by done. by eapply Forall2_lookup_lr.
  - intros j z Hj. cbn [fst snd]. destruct (decide (i = j)) as [->|Hne].
    + exfalso. apply Hi. apply (list_elem_of_fmap_2 fst _ (j, z)) in Hj. exact Hj.
    + rewrite list_lookup_insert_ne by done. apply (Heq j z). by right.
Qed.

Lemma update_first_elem id f l x :
  x ∈ update_first id f l → x ∈ l ∨ ∃ e, e ∈ l ∧ entry_id e = id ∧ x = f e.
Proof.
  induction l as [|e l IH]; cbn [update_first]; [by intros ?%elem_of_nil|]. destruct (String.eqb_spec (entry_id e) id) as [E|E].
  - intros [->|Hx]%elem_of_cons; [right; exists e; split; [by left|done]|left; by right].
  - intros [->|Hx]%elem_of_cons; [left; by left|]. destruct (IH Hx) as [Hin|(e' & Hin & ? & ->)]; [left; by right|].
    right. exists e'. split; [by right|done].
Qed.

Lemma update_first_Forall2 (R : OutboxStoredEntry → OutboxStoredEntry → Prop) id f l :
  (∀ x, R x x) → (∀ x, R x (f x)) → Forall2 R l (update_first id f l).
Proof.
  intros HR Hf. assert (∀ m, Forall2 R m m) as Hm by (intros m; induction m; by constructor).
  induction l as [|e l IH]; cbn [update_first]; [constructor|]. destruct (String.eqb _ _); by constructor.
Qed.

Lemma findEntry_ret l id e : findEntry l id = Ret e → e ∈ l ∧ entry_id e = id.
Proof.
  unfold findEntry. induction l as [|x l IH]; cbn [find]; [discriminate|].
  destruct (String.eqb_spec (entry_id x) id) as [E|E]; [intros [= <-]; split; [by left|done]|].
  intros H. destruct (IH H). split; [by right|done].
Qed.

(** ** What an operation does to rows *)

(** The evidence of a row: everything that delivery must not touch. *)
Definition same_evidence (e e' : OutboxStoredEntry) : Prop :=
  entry_id e = entry_id e' ∧ tenantId e = tenantId e' ∧ payload e = payload e' ∧ createdAt e = createdAt e'.

Lemma same_evidence_refl e : same_evidence e e.
Proof. by repeat split. Qed.

#[export] Instance same_evidence_preorder : PreOrder same_evidence.
Proof.
  split; [exact same_evidence_refl|]. intros a b c (H1 & H2 & H3 & H4) (H1' & H2' & H3' & H4').
  repeat split; etrans; eassumption.
Qed.

(** The snapshot [l'] holds the rows of [l], each with its evidence, and [new] ones. *)
Definition keeps (l l' : list OutboxStoredEntry) (new : list OutboxStoredEntry) : Prop :=
  ∃ m, Forall2 same_evidence l m ∧ l' ≡ₚ m ++ new.

Lemma Forall2_refl_evidence l : Forall2 same_evidence l l.
Proof. induction l; constructor; [reflexivity|done]. Qed.

Lemma keeps_refl l l' : l' ≡ₚ l → keeps l l' [].
Proof. intros Hp. exists l. split; [apply Forall2_refl_evidence|by rewrite app_nil_r]. Qed.

Lemma keeps_perm l k l' new : l ≡ₚ k → keeps k l' new → keeps l l' new.
Proof.
  intros Hp (m & Hm & Hl). destruct (Permutation_Forall2 (Permutation_sym Hp) Hm) as (m' & Hmm & Hm').
  exists m'. split; [done|]. by rewrite Hl, Hmm.
Qed.

Lemma keeps_trans l l' l'' new new' : keeps l l' new → keeps l' l'' new' → ∃ new'', keeps l l'' new''.
Proof.
  intros (m & Hm & Hl) (m' & Hm' & Hl'). destruct (Permutation_Forall2 Hl Hm') as (k & Hk & Fk).
  apply Forall2_app_inv_l in Fk as (k1 & k2 & F1 & F2 & ->). exists (k2 ++ new'), k1.
  split; [by etrans|]. rewrite Hl', Hk. by rewrite app_assoc.
Qed.

Lemma keeps_elem l l' new e : keeps l l' new → e ∈ l → ∃ e', e' ∈ l' ∧ same_evidence e e'.
Proof.
  intros (m & Hm & Hl) He. apply list_elem_of_lookup in He as [i Hi].
  destruct (Forall2_lookup_l _ _ _ _ _ Hm Hi) as (e' & Hi' & Hs). exists e'. split; [|done].
  rewrite Hl. apply elem_of_app. left. by eapply list_elem_of_lookup_2.
Qed.

Lemma keeps_ids l l' new : keeps l l' new → entry_id <$> l' ≡ₚ (entry_id <$> l) ++ (entry_id <$> new).
Proof.
  intros (m & Hm & Hl). rewrite Hl, fmap_app. apply Permutation_app_tail.
  assert (entry_id <$> m = entry_id <$> l) as ->; [|done].
  clear Hl. induction Hm as [|e e' l m [E _] _ IH]; [done|]. by rewrite !fmap_cons, IH, E.
Qed.

(** ** Claims *)

Lemma elem_of_filterb {A} (f : A → bool) l x : x ∈ List.filter f l ↔ x ∈ l ∧ f x = true.
Proof. rewrite !list_elem_of_In. apply filter_In. Qed.

Lemma filterb_sublist {A} (f : A → bool) l : List.filter f l `sublist_of` l.
Proof. induction l as [|x l IH]; cbn; [constructor|]. destruct (f x); by constructor. Qed.

Lemma indexed_NoDup {A} (l : list A) : NoDup (indexed l).*1.
Proof.
  unfold indexed. rewrite fst_zip by by rewrite length_seq. apply NoDup_seq.
Qed.

Section Claims.
Context `{Host} `{Locale}.

(** The rows a claim leases, as they were. *)
Definition expiry (now : string) (ms : Z) : string := catch (lease_expiry now ms) "".
Definition lease_row (now lease : string) (ms : Z) (r : nat * OutboxStoredEntry) : nat * OutboxStoredEntry :=
  (r.1, lease_entry now lease (expiry now ms) r.2).

Record claimed_rows (limit maxBytes : Z) (now : string) (ms : Z) (blocked : list string) (count : nat) (bytes : Z)
    (candidates rows : list (nat * OutboxStoredEntry)) : Prop := {
  rows_sublist : rows `sublist_of` candidates;
  rows_count : rows = [] ∨ Z.of_nat (count + length rows) <= limit;
  rows_bytes : ∃ b, payload_bytes rows.*2 = Ret b ∧ (rows = [] ∨ bytes + b <= maxBytes);
  rows_tenants : NoDup (tenantId <$> rows.*2);
  rows_unblocked : ∀ t, t ∈ tenantId <$> rows.*2 → t ∉ blocked;
  rows_expiry : rows = [] ∨ is_ret (lease_expiry now ms) = true;
}.

Lemma no_rows limit maxBytes now ms blocked count bytes candidates :
  claimed_rows limit maxBytes now ms blocked count bytes candidates [].
Proof.
  split; [apply sublist_nil_l|by left|exists 0; split; [done|by left]|constructor| |by left].
  intros t Ht. by apply elem_of_nil in Ht.
Qed.

Lemma claim_loop_spec limit maxBytes now lease ms candidates : ∀ blocked claims bytes claims',
  claim_loop limit maxBytes now lease ms blocked claims bytes candidates = Ret claims' →
  ∃ rows, claims' = claims ++ (lease_row now lease ms <$> rows) ∧
    claimed_rows limit maxBytes now ms blocked (length claims) bytes candidates rows.
Proof.
  induction candidates as [|[i e] candidates IH]; intros blocked claims bytes claims' E; cbn [claim_loop] in E.
  { injection E as <-. exists []. split; [by rewrite app_nil_r|apply no_rows]. }
  destruct (Z.leb_spec limit (Z.of_nat (length claims))) as [Hl|Hl].
  { injection E as <-. exists []. split; [by rewrite app_nil_r|apply no_rows]. }
  case_bool_decide as Hb.
  { destruct (IH _ _ _ _ E) as (rows & -> & [H1 H2 H3 H4 H5 H6]). exists rows. split; [done|].
    split; [by constructor|done..]. }
  apply bind_ret in E as (n & En & E). destruct (Z.ltb_spec maxBytes (bytes + n)) as [Hm|Hm].
  { injection E as <-. exists []. split; [by rewrite app_nil_r|apply no_rows]. }
  apply bind_ret in E as (s & Es & E). destruct (IH _ _ _ _ E) as (rows & -> & [H1 H2 (b & H3 & H3') H4 H5 H6]).
  exists ((i, e) :: rows). assert (s = expiry now ms) as -> by (unfold expiry; by rewrite Es).
  split; [by rewrite fmap_cons, <- app_assoc|]. rewrite length_app in H2. cbn [length] in *.
  split; cbn [fmap list_fmap fst snd] in *.
  - by constructor.
  - right. cbn [length]. destruct H2 as [->|H2]; cbn [length]; lia.
  - cbn [payload_bytes]. rewrite En. cbn [mbind exc_mbind]. rewrite H3. cbn [mbind exc_mbind]. exists (n + b).
    split; [done|right]. destruct H3' as [->|H3']; [|lia]. cbn in H3. injection H3 as <-. lia.
  - constructor; [|done]. intros Hin. apply (H5 _ Hin). by left.
  - intros t [->|Ht]%elem_of_cons; [done|]. intros Hin. apply (H5 _ Ht). by right.
  - right. by rewrite Es.
Qed.

Lemma in_queue_order_elem t rows r : r ∈ in_queue_order t rows ↔ r ∈ rows ∧ in_tenant t r.2 = true.
Proof. unfold in_queue_order. by rewrite elem_of_sort_by, elem_of_filterb. Qed.

Lemma sublist_elem {A} (l k : list A) x : l `sublist_of` k → x ∈ l → x ∈ k.
Proof. intros Hs Hx. by eapply elem_of_sublist. Qed.

(** What a claim did: the rows it leased, and the snapshot it left. *)
Record claim_result (o : OutboxClaimOptions) (now : string) (file file' claims : list OutboxStoredEntry)
    (rows : list (nat * OutboxStoredEntry)) : Prop := {
  claim_rows : claimed_rows (int_of (list_limit (claim_list o))) (int_of (maxPayloadBytes o)) now (int_of (leaseMs o))
    (paused_tenants (sort_entries file) ++ active_tenants now (sort_entries file)) 0 0
    (in_queue_order (list_tenantId (claim_list o))
       (List.filter (λ r, claimable now (paused_tenants (sort_entries file) ++ active_tenants now (sort_entries file)) r.2)
          (indexed (sort_entries file)))) rows;
  claim_claims : claims = (lease_row now (text_of (claim_leaseId o)) (int_of (leaseMs o)) <$> rows).*2;
  claim_file : rows = [] ∧ file' = file ∨
    file' = writeEntries (put_back (lease_row now (text_of (claim_leaseId o)) (int_of (leaseMs o)) <$> rows) (sort_entries file));
}.

Lemma readEntries_ret file entries : readEntries file = Ret entries → entries = sort_entries file.
Proof. unfold readEntries. intros (? & _ & E)%bind_ret. by injection E. Qed.

Lemma claimDispatchable_ret now o file file' claims :
  claimDispatchable now o file = Ret (file', claims) →
  ∃ s rows, normalizeDate (nullish_or (list_now (claim_list o)) (VDate (Some now))) = Ret s ∧
    validateClaimOptions o = Ret tt ∧ claim_result o s file file' claims rows.
Proof.
  unfold claimDispatchable. intros ([] & Ev & E)%bind_ret. apply bind_ret in E as (entries & ->%readEntries_ret & E).
  apply bind_ret in E as (s & Es & E). cbv zeta in E. apply bind_ret in E as (cl & Ec & E). injection E as Ef Ecl.
  apply claim_loop_spec in Ec as (rows & -> & Hr). cbn [app length] in *. exists s, rows. split; [done|]. split; [done|].
  split; [done|by rewrite <- Ecl|]. rewrite <- Ef. destruct rows; [by left|by right].
Qed.

(** Where a claimed row comes from. *)
Lemma claimed_row_spec o now file file' claims rows i e :
  claim_result o now file file' claims rows → (i, e) ∈ rows →
  sort_entries file !! i = Some e ∧ claimable now (paused_tenants file ++ active_tenants now file) e = true ∧
  in_tenant (list_tenantId (claim_list o)) e = true.
Proof.
  intros [Hr _ _] Hin. pose proof (sublist_elem _ _ _ (rows_sublist _ _ _ _ _ _ _ _ _ Hr) Hin) as Hq.
  apply in_queue_order_elem in Hq as [[Hi Hc]%elem_of_filterb Ht]. apply elem_of_indexed in Hi. split; [done|]. split; [|done].
  rewrite <- Hc. unfold claimable. cbn [snd]. do 2 f_equal. apply bool_decide_ext.
  rewrite !elem_of_app. unfold paused_tenants, active_tenants.
  rewrite !list_elem_of_fmap. setoid_rewrite elem_of_filterb. unfold sort_entries. by setoid_rewrite elem_of_sort_by.
Qed.

Lemma claimed_positions o now file file' claims rows :
  claim_result o now file file' claims rows → NoDup (lease_row now (text_of (claim_leaseId o)) (int_of (leaseMs o)) <$> rows).*1.
Proof.
  intros [Hr _ _]. assert ((lease_row now (text_of (claim_leaseId o)) (int_of (leaseMs o)) <$> rows).*1 = rows.*1) as ->
    by (rewrite <- list_fmap_compose; by apply list_fmap_ext).
  eapply (sublist_NoDup _ (in_queue_order _ _).*1); [|apply fmap_sublist, (rows_sublist _ _ _ _ _ _ _ _ _ Hr)].
  unfold in_queue_order. rewrite sort_by_perm.
  eapply sublist_NoDup; [apply (indexed_NoDup (sort_entries file))|]. apply fmap_sublist.
  etrans; apply filterb_sublist.
Qed.
End Claims.

(** ** Operations as changes of rows *)

(** Every row of [l'] is a row of [l] or comes from one by [P]; none is lost. *)
Definition changes (P : OutboxStoredEntry → OutboxStoredEntry → Prop) (l l' : list OutboxStoredEntry) : Prop :=
  keeps l l' [] ∧ ∀ e', e' ∈ l' → e' ∈ l ∨ ∃ e, e ∈ l ∧ P e e'.

Lemma changes_refl P l : changes P l l.
Proof. split; [by apply keeps_refl|by left]. Qed.

Section Operations.
Context `{Host} `{Locale}.

Lemma sort_entries_perm l : sort_entries l ≡ₚ l.
Proof. apply sort_by_perm. Qed.

Lemma update_changes id f file (P : OutboxStoredEntry → OutboxStoredEntry → Prop) entry :
  (∀ e, same_evidence e (f e)) → findEntry (sort_entries file) id = Ret entry →
  (∀ e, e ∈ file → entry_id e = id → P e (f e)) →
  changes P file (writeEntries (update_first id f (sort_entries file))).
Proof.
  intros Hf _ HP. unfold writeEntries. split.
  - eapply keeps_perm; [symmetry; apply sort_entries_perm|]. exists (update_first id f (sort_entries file)).
    split; [by apply update_first_Forall2|by rewrite app_nil_r, sort_entries_perm].
  - intros e'. rewrite sort_entries_perm. intros [Hin|(e & Hin & Hid & ->)]%update_first_elem; rewrite sort_entries_perm in Hin; [by left|].
    right. exists e. split; [done|]. by apply HP.
Qed.

Lemma put_back_changes (P : OutboxStoredEntry → OutboxStoredEntry → Prop) changed file :
  NoDup changed.*1 →
  (∀ i y, (i, y) ∈ changed → ∃ x, sort_entries file !! i = Some x ∧ same_evidence x y ∧ P x y) →
  changes P file (writeEntries (put_back changed (sort_entries file))).
Proof.
  intros Hn Hc. unfold writeEntries. split.
  - eapply keeps_perm; [symmetry; apply sort_entries_perm|]. exists (put_back changed (sort_entries file)).
    split; [|by rewrite app_nil_r, sort_entries_perm].
    apply put_back_Forall2; [exact same_evidence_refl|done|]. intros i y Hin. destruct (Hc i y Hin) as (x & ? & ? & _). by exists x.
  - intros e'. rewrite sort_entries_perm. intros [Hin|Hin]%put_back_elem; [left; by rewrite sort_entries_perm in Hin|].
    right. apply list_elem_of_fmap in Hin as ([i y] & -> & Hin). destruct (Hc i y Hin) as (x & Hx & _ & HP).
    exists x. split; [|done]. rewrite <- sort_entries_perm. by eapply list_elem_of_lookup_2.
Qed.

Lemma markDispatched_ret now id o file file' r :
  markDispatched now id o file = Ret (file', r) →
  ∃ s at_ entry, id = VStr s ∧ findEntry (sort_entries file) s = Ret entry ∧ assertLease entry (settle_leaseId o) = Ret tt ∧
    normalizeDate (nullish_or (settle_at o) (VDate (Some now))) = Ret at_ ∧ r = settle at_ entry ∧
    file' = writeEntries (update_first s (settle at_) (sort_entries file)).
Proof.
  unfold markDispatched. intros (s & Es & E)%bind_ret. apply bind_ret in E as (entries & ->%readEntries_ret & E).
  apply bind_ret in E as (entry & Ee & E). apply bind_ret in E as ([] & El & E). apply bind_ret in E as (at_ & Ea & E).
  injection E as <- <-. exists s, at_, entry. unfold assertNonEmpty in Es. destruct id; try discriminate.
  destruct (blank _); [discriminate|]. by injection Es as ->.
Qed.

Lemma markFailed_ret now uuid id error o file file' r :
  markFailed now uuid id error o file = Ret (file', r) →
  ∃ s at_ d available entry, id = VStr s ∧ findEntry (sort_entries file) s = Ret entry ∧ assertLease entry (fail_leaseId o) = Ret tt ∧
    normalizeDate (nullish_or (fail_now o) (VDate (Some now))) = Ret at_ ∧ resolveDisposition o = Ret d ∧
    (d = retry → ∃ v, normalizeDate v = Ret available) ∧
    r = failed at_ (errorMessage error) uuid d available (fail_circuitId o) entry ∧
    file' = writeEntries (update_first s (failed at_ (errorMessage error) uuid d available (fail_circuitId o)) (sort_entries file)).
Proof.
  unfold markFailed. intros (s & Es & E)%bind_ret. apply bind_ret in E as (entries & ->%readEntries_ret & E).
  apply bind_ret in E as (entry & Ee & E). apply bind_ret in E as ([] & El & E). apply bind_ret in E as (at_ & Ea & E).
  apply bind_ret in E as (d & Ed & E). apply bind_ret in E as (available & Ev & E). cbv zeta in E. injection E as <- <-.
  exists s, at_, d, available, entry. unfold assertNonEmpty in Es. destruct id; try discriminate.
  destruct (blank _); [discriminate|]. injection Es as ->. split_and!; try done.
  intros ->. rewrite bool_decide_true in Ev by done. by eexists.
Qed.

Lemma resumePaused_ret clock tenant circuit limit now file file' n :
  resumePaused clock tenant circuit limit now file = Ret (file', n) →
  ∃ at_ expected, circuit = VStr expected ∧ normalizeDate (nullish_or now (VDate (Some clock))) = Ret at_ ∧
    (∀ e, e ∈ file → tenant = VStr (tenantId e) → status e = paused → circuitId e = Some expected) ∧
    changes (λ e e', status e = paused ∧ tenant = VStr (tenantId e) ∧ e' = rearm at_ e) file file'.
Proof.
  unfold resumePaused. intros (t & Et & E)%bind_ret. apply bind_ret in E as (expected & Ec & E).
  apply bind_ret in E as ([] & _ & E). apply bind_ret in E as (entries & ->%readEntries_ret & E). cbv zeta in E.
  apply bind_ret in E as ([] & Hc%guard_ret & E). apply bind_ret in E as (at_ & Ea & E). injection E as <- _.
  assert (tenant = VStr t) as -> by (unfold assertNonEmpty in Et; destruct tenant; try discriminate; destruct (blank _); congruence).
  assert (circuit = VStr expected) as -> by (unfold assertNonEmpty in Ec; destruct circuit; try discriminate; destruct (blank _); congruence).
  exists at_, expected. split; [done|]. split; [done|].
  set (held := List.filter _ (indexed (sort_entries file))) in *.
  assert (∀ i e, (i, e) ∈ held → sort_entries file !! i = Some e ∧ tenantId e = t ∧ status e = paused) as Hheld.
  { intros i e [Hi [Ht%String.eqb_eq Hs%bool_decide_eq_true]%andb_true_iff]%elem_of_filterb. by apply elem_of_indexed in Hi. }
  split.
  - intros e He [= ->] Hs. rewrite <- sort_entries_perm in He. apply list_elem_of_lookup in He as [i Hi].
    rewrite forallb_forall in Hc. specialize (Hc (i, e)). cbn [snd] in Hc. apply bool_decide_eq_true in Hc; [done|].
    apply list_elem_of_In, elem_of_filterb. split; [by apply elem_of_indexed|]. cbn [snd]. by rewrite String.eqb_refl, bool_decide_true.
  - destruct (take _ held) as [|r rs] eqn:Er; [apply changes_refl|]. rewrite <- Er. apply put_back_changes.
    + rewrite <- list_fmap_compose. unfold compose. cbn [fst].
      eapply sublist_NoDup; [apply (indexed_NoDup (sort_entries file))|].
      apply fmap_sublist. etrans; [apply sublist_take|apply filterb_sublist].
    + intros i y ([j e] & [= -> ->] & Hin)%list_elem_of_fmap. apply (elem_of_sublist _ held) in Hin; [|apply sublist_take].
      destruct (Hheld _ _ Hin) as (Hi & <- & Hs). exists e. split; [done|]. split; [by repeat split|done].
Qed.

Lemma claim_changes o now file file' claims rows :
  claim_result o now file file' claims rows →
  changes (λ e e', claimable now (paused_tenants file ++ active_tenants now file) e = true ∧ is_ret (lease_expiry now (int_of (leaseMs o))) = true ∧
                   e' = lease_entry now (text_of (claim_leaseId o)) (expiry now (int_of (leaseMs o))) e) file file'.
Proof.
  intros Hr. pose proof Hr as [Hrows _ [[_ ->]| ->]]; [apply changes_refl|].
  apply put_back_changes; [by eapply claimed_positions|].
  intros i y ([j e] & [= -> ->] & Hin)%list_elem_of_fmap. destruct (claimed_row_spec _ _ _ _ _ _ _ _ Hr Hin) as (Hi & Hc & _).
  exists e. split; [done|]. split; [by repeat split|]. split; [done|]. split; [|done].
  destruct (rows_expiry _ _ _ _ _ _ _ _ _ Hrows) as [->|]; [by apply elem_of_nil in Hin|done].
Qed.
(** The rows put back are in the result. *)
Lemma put_back_stored {A} (changed : list (nat * A)) : ∀ l : list A,
  NoDup changed.*1 → (∀ i y, (i, y) ∈ changed → (i < length l)%nat) → changed.*2 ⊆ put_back changed l.
Proof.
  assert (∀ (c : list (nat * A)) l i, i ∉ c.*1 → put_back c l !! i = l !! i) as Hother.
  { unfold put_back. induction c as [|[j z] c IH]; intros l i Hi; cbn [fold_left]; [done|].
    cbn [fmap list_fmap fst snd] in Hi. apply not_elem_of_cons in Hi as [Hne Hi].
    rewrite IH by done. cbn [fst snd]. by rewrite list_lookup_insert_ne by done. }
  induction changed as [|[i y] changed IH]; intros l Hn Hl; [by intros x ?%elem_of_nil|].
  cbn [fmap list_fmap fst snd] in *. apply NoDup_cons in Hn as [Hi Hn].
  intros x [->|Hx]%elem_of_cons; unfold put_back in *; cbn [fold_left fst snd].
  - apply list_elem_of_lookup. exists i. rewrite (Hother changed _ i Hi). apply list_lookup_insert_eq. apply (Hl i y). by left.
  - apply IH; [done| |done]. intros j z Hz. rewrite length_insert. apply (Hl j z). by right.
Qed.

(** A claim stores what it returns. *)
Lemma claims_stored o now file file' claims rows : claim_result o now file file' claims rows → claims ⊆ file'.
Proof.
  intros Hr. pose proof Hr as [_ -> Hf]. destruct Hf as [[-> ->]| ->]; [by intros x ?%elem_of_nil|].
  unfold writeEntries. intros x Hx. rewrite sort_entries_perm. revert x Hx. apply put_back_stored; [by eapply claimed_positions|].
  intros i y ([j e] & [= -> ->] & Hin)%list_elem_of_fmap. destruct (claimed_row_spec _ _ _ _ _ _ _ _ Hr Hin) as (Hi & _).
  by eapply lookup_lt_Some.
Qed.
End Operations.

(** ** Transactions *)

(** A callback whose payloads are JSON data. *)
Fixpoint json_program {A} (run : tx_program A) : Prop :=
  match run with
  | TxReturn _ | TxThrow _ => True
  | TxEnqueue _ input k => is_json (input_payload input) = true ∧ (∀ r, json_program (k r))
  end.

Section Transactions.
Context `{Host} `{Locale}.

Definition enqueued (e : OutboxStoredEntry) : Prop :=
  ∃ now input, createPendingEntry now input = Ret e ∧ is_json (input_payload input) = true.

Lemma enqueue_ret max now staged input staged' e :
  enqueue max now staged input = Ret (staged', e) →
  staged' = staged ∨
  staged' = sort_entries (staged ++ [e]) ∧ (entry_id e ∉ entry_id <$> staged) ∧ createPendingEntry now input = Ret e ∧
  (∀ ceiling, max = Some ceiling → ∃ backlog bytes, payload_bytes (List.filter undelivered staged) = Ret backlog ∧
     outboxPayloadByteLength (payload e) = Ret bytes ∧ backlog + bytes <= ceiling).
Proof.
  unfold enqueue. intros (entry & Ee & E)%bind_ret. destruct (find _ staged) as [existing|] eqn:Ef.
  - apply bind_ret in E as (same & _ & E). apply bind_ret in E as ([] & _ & E). injection E as <- _. by left.
  - apply bind_ret in E as ([] & Em & E). injection E as <- <-. right. split; [done|]. split; [|split; [done|]].
    + intros (x & Hid & Hx)%list_elem_of_fmap. apply list_elem_of_In in Hx.
      pose proof (find_none _ _ Ef _ Hx) as Hn. cbn in Hn. rewrite <- Hid, String.eqb_refl in Hn. done.
    + intros ceiling ->. apply bind_ret in Em as (backlog & Eb & Em). apply bind_ret in Em as (bytes & Ey & Em).
      apply guard_ret, Z.leb_le in Em. by exists backlog, bytes.
Qed.

Lemma run_tx_perm {A} max (run : tx_program A) : ∀ staged staged' a,
  json_program run → run_tx max staged run = Ret (staged', a) →
  ∃ new, staged' ≡ₚ staged ++ new ∧ Forall enqueued new ∧ (NoDup (entry_id <$> staged) → NoDup (entry_id <$> staged')).
Proof.
  induction run as [a|msg|now input k IH]; intros staged staged' r Hj E; cbn [run_tx json_program] in *; [|discriminate|].
  - injection E as <- _. exists []. by rewrite app_nil_r.
  - destruct Hj as [Hi Hj]. destruct (enqueue max now staged input) as [[s1 e]|msg] eqn:Ee; [|by apply (IH _ _ _ _ (Hj _) E)].
    destruct (IH _ _ _ _ (Hj _) E) as (new & Hk & Hf & Hn).
    destruct (enqueue_ret _ _ _ _ _ _ Ee) as [->|(-> & Hid & Ec & _)]; [by exists new|].
    exists (e :: new). split; [|split].
    + rewrite Hk, sort_entries_perm. by rewrite <- app_assoc.
    + constructor; [by exists now, input|done].
    + intros Hs. apply Hn. rewrite sort_entries_perm, fmap_app, NoDup_app. split; [done|]. split; [|by apply NoDup_singleton].
      intros x Hx ->%list_elem_of_singleton. done.
Qed.

Lemma transaction_ret {A} max (run : tx_program A) file file' a :
  json_program run → transaction max run file = Ret (file', a) →
  ∃ new, file' ≡ₚ file ++ new ∧ Forall enqueued new ∧ (NoDup (entry_id <$> file) → NoDup (entry_id <$> file')).
Proof.
  intros Hj. unfold transaction. intros (entries & ->%readEntries_ret & E)%bind_ret.
  apply bind_ret in E as ([staged r] & Er & E). injection E as <- _.
  destruct (run_tx_perm _ _ _ _ _ Hj Er) as (new & Hp & Hf & Hn). exists new. unfold writeEntries.
  rewrite !sort_entries_perm. split; [by rewrite Hp, sort_entries_perm|]. split; [done|].
  intros Hd. apply Hn. by rewrite sort_entries_perm.
Qed.
End Transactions.

(** ** Histories *)

(** The snapshot, and the latest time any claim has been made with. *)
Record outbox := Outbox { file : list OutboxStoredEntry; clock : string }.

Definition empty_outbox : outbox := Outbox [] "".

Definition latest (a b : string) : string := if String.leb a b then b else a.

Section Histories.
Context `{Host} `{Locale}.

(** One operation of some worker. The clocks of workers need not agree: a claim may
    be made with an earlier time than the one before it. *)
Inductive outbox_step (max : option Z) : outbox → outbox → Prop :=
| step_transaction A (run : tx_program A) w file' a :
    json_program run → transaction max run (file w) = Ret (file', a) → outbox_step max w (Outbox file' (clock w))
| step_claim now o w file' claims s :
    claimDispatchable now o (file w) = Ret (file', claims) →
    normalizeDate (nullish_or (list_now (claim_list o)) (VDate (Some now))) = Ret s →
    outbox_step max w (Outbox file' (latest (clock w) s))
| step_dispatched now id o w file' r :
    markDispatched now id o (file w) = Ret (file', r) → outbox_step max w (Outbox file' (clock w))
| step_failed now uuid id error o w file' r :
    re_test CIRCUIT_PATTERN ("local_" +:+ uuid) = true → markFailed now uuid id error o (file w) = Ret (file', r) → outbox_step max w (Outbox file' (clock w))
| step_resume now tenant circuit limit at_ w file' n :
    resumePaused now tenant circuit limit at_ (file w) = Ret (file', n) → outbox_step max w (Outbox file' (clock w)).

Definition reachable (max : option Z) : outbox → Prop := rtc (outbox_step max) empty_outbox.

Lemma step_keeps max w w' : outbox_step max w w' → ∃ new, keeps (file w) (file w') new.
Proof.
  destruct 1 as [A run w file' a Hj E|now o w file' claims s E Es|now id o w file' r E|now uuid id error o w file' r Hu E|
                 now tenant circuit limit at_ w file' n E]; cbn [file].
  - destruct (transaction_ret _ _ _ _ _ Hj E) as (new & Hp & _). exists new, (file w). split; [apply Forall2_refl_evidence|done].
  - apply claimDispatchable_ret in E as (s' & rows & _ & _ & Hr). exists []. apply (claim_changes _ _ _ _ _ _ Hr).
  - apply markDispatched_ret in E as (i & at_ & entry & _ & Ef & _ & _ & _ & ->). exists [].
    eapply (update_changes i (settle at_) (file w) (λ _ _, True)); [by repeat split|exact Ef|done].
  - apply markFailed_ret in E as (i & at_ & d & av & entry & _ & Ef & _ & _ & _ & _ & _ & ->). exists [].
    eapply (update_changes i _ (file w) (λ _ _, True)); [by intros e; destruct d; repeat split|exact Ef|done].
  - apply resumePaused_ret in E as (s & expected & _ & _ & _ & Hc). exists []. apply Hc.
Qed.

(** Evidence survives any further history. *)
Lemma history_keeps max w w' e :
  rtc (outbox_step max) w w' → e ∈ file w → ∃ e', e' ∈ file w' ∧ same_evidence e e'.
Proof.
  intros Hs. revert e. induction Hs as [w|w w1 w' Hstep Hs IH]; intros e He; [exists e; split; [done|reflexivity]|].
  destruct (step_keeps _ _ _ Hstep) as [new Hk]. destruct (keeps_elem _ _ _ _ Hk He) as (e1 & He1 & S1).
  destruct (IH _ He1) as (e' & He' & S'). exists e'. split; [done|by etrans].
Qed.

(** ** One lease per tenant *)

Lemma string_ltb_leb a b : String.ltb a b = negb (String.leb b a).
Proof. unfold String.ltb, String.leb. rewrite (String.compare_antisym b a). by destruct (String.compare a b). Qed.

Lemma active_earlier s s' e : String.leb s s' = true → active s' e = true → active s e = true.
Proof.
  unfold active. rewrite !string_ltb_leb. intros Hs [-> Ha%negb_true_iff]%andb_true_iff. cbn [andb]. apply negb_true_iff.
  destruct (String.leb (availableAt e) s) eqn:E; [|done]. by rewrite (string_compare_trans_le _ _ _ E Hs) in Ha.
Qed.

(** At most one row of a tenant is under an active lease. *)
Definition exclusive (now : string) (l : list OutboxStoredEntry) : Prop :=
  ∀ e e', e ∈ l → e' ∈ l → active now e = true → active now e' = true → tenantId e = tenantId e' → entry_id e = entry_id e'.

Lemma active_leased now e : active now e = true → status e = leased.
Proof. unfold active. by intros [?%bool_decide_eq_true _]%andb_true_iff. Qed.

Lemma exclusive_subset now l l' :
  (∀ e, e ∈ l' → status e = leased → e ∈ l) → exclusive now l → exclusive now l'.
Proof.
  intros Hsub Hex e e' He He' Ha Ha'. apply Hex; [by apply Hsub; [|by eapply active_leased]..|done|done].
Qed.

Lemma exclusive_changes P now l l' :
  changes P l l' → (∀ e e', P e e' → status e' ≠ leased) → exclusive now l → exclusive now l'.
Proof.
  intros [_ Hc] HP. apply exclusive_subset. intros e' He' Hs. destruct (Hc _ He') as [|(e & _ & Hp)]; [done|].
  by destruct (HP _ _ Hp).
Qed.

Lemma latest_ge a b : String.leb a (latest a b) = true ∧ String.leb b (latest a b) = true.
Proof.
  assert (∀ x, String.leb x x = true) as Hrefl.
  { intros x. destruct (String.leb x x) eqn:E; [done|]. pose proof (string_leb_total _ _ E). congruence. }
  unfold latest. destruct (String.leb a b) eqn:E; split; try done. by apply string_leb_total.
Qed.

Lemma exclusive_claim o c s now file file' claims rows :
  claim_result o s file file' claims rows → String.leb c now = true → String.leb s now = true →
  exclusive c file → exclusive now file'.
Proof.
  intros Hr Hcn Hs Hex. assert (exclusive now file) as Hexs.
  { intros e e' He He' Ha Ha'. apply Hex; [done|done|by eapply active_earlier..]. }
  pose proof Hr as [Hrows _ [[_ ->]| ->]]; [done|].
  set (row := lease_row s (text_of (claim_leaseId o)) (int_of (leaseMs o))) in *.
  assert (∀ e, e ∈ writeEntries (put_back (row <$> rows) (sort_entries file)) → e ∈ file ∨ ∃ r, r ∈ rows ∧ e = (row r).2) as Hel.
  { intros e. unfold writeEntries. rewrite sort_entries_perm. intros [He|He]%put_back_elem; [left; by rewrite sort_entries_perm in He|].
    right. rewrite <- list_fmap_compose in He. apply list_elem_of_fmap in He as (r & -> & Hin). by exists r. }
  assert (∀ e, e ∈ file → active s e = true → ∀ r, r ∈ rows → tenantId e ≠ tenantId r.2) as Hblock.
  { intros e He Ha [i x] Hin Et. destruct (claimed_row_spec _ _ _ _ _ _ _ _ Hr Hin) as (_ & Hc & _).
    unfold claimable in Hc. apply andb_true_iff in Hc as [Hc%negb_true_iff%bool_decide_eq_false _]. apply Hc.
    apply elem_of_app. right. cbn [snd] in Et. rewrite <- Et. apply list_elem_of_fmap. exists e. split; [done|]. by apply elem_of_filterb. }
  intros e e' He He' Ha Ha' Et. destruct (Hel _ He) as [Hf|(r & Hin & ->)], (Hel _ He') as [Hf'|(r' & Hin' & ->)].
  - by apply Hexs.
  - by destruct (Hblock _ Hf (active_earlier _ _ _ Hs Ha) _ Hin').
  - by destruct (Hblock _ Hf' (active_earlier _ _ _ Hs Ha') _ Hin).
  - cbn in Et. apply list_elem_of_lookup in Hin as [j Hj], Hin' as [j' Hj'].
    assert (j = j') as <-; [|by simplify_eq].
    eapply (NoDup_lookup (tenantId <$> rows.*2)); [apply (rows_tenants _ _ _ _ _ _ _ _ _ Hrows)|..];
      rewrite !list_lookup_fmap; [by rewrite Hj|rewrite Hj'; cbn; by rewrite Et].
Qed.

Lemma enqueued_pending e : enqueued e → status e = pending.
Proof.
  intros (now & input & E & _). unfold createPendingEntry in E.
  repeat (let x := fresh in apply bind_ret in E as (x & _ & E)). by injection E as <-.
Qed.

Lemma exclusive_step max w w' :
  outbox_step max w w' → exclusive (clock w) (file w) → exclusive (clock w') (file w').
Proof.
  destruct 1 as [A run w file' a Hj E|now o w file' claims s E Es|now id o w file' r E|now uuid id error o w file' r Hu E|
                 now tenant circuit limit at_ w file' n E]; cbn [file clock].
  - destruct (transaction_ret _ _ _ _ _ Hj E) as (new & Hp & Hf & _). apply exclusive_subset. intros e He Hs.
    rewrite Hp in He. apply elem_of_app in He as [He|He]; [done|]. rewrite Forall_forall in Hf.
    by rewrite (enqueued_pending e (Hf _ He)) in Hs.
  - apply claimDispatchable_ret in E as (s' & rows & Es' & _ & Hr). assert (s' = s) as -> by congruence.
    destruct (latest_ge (clock w) s) as [H1 H2]. by eapply exclusive_claim.
  - apply markDispatched_ret in E as (i & at_ & entry & _ & Ef & _ & _ & _ & ->).
    eapply (exclusive_changes (λ e e', e' = settle at_ e)); [|by intros e e' ->].
    by eapply (update_changes i (settle at_)); [by repeat split|..].
  - apply markFailed_ret in E as (i & at_ & d & av & entry & _ & Ef & _ & _ & _ & _ & _ & ->).
    eapply (exclusive_changes (λ e e', e' = failed at_ (errorMessage error) uuid d av (fail_circuitId o) e));
      [|intros e e' ->; by destruct d].
    by eapply update_changes; [intros e; destruct d; repeat split|..].
  - apply resumePaused_ret in E as (s & expected & _ & _ & _ & Hch). eapply exclusive_changes; [exact Hch|].
    by intros e e' (_ & _ & ->).
Qed.

Lemma reachable_exclusive max w : reachable max w → exclusive (clock w) (file w).
Proof.
  unfold reachable. intros Hr. remember empty_outbox as w0 eqn:E0.
  assert (exclusive (clock w0) (file w0)) as Hex0 by (subst; intros e e' He; by apply elem_of_nil in He).
  clear E0. induction Hr as [w|w w1 w' Hs _ IH]; [done|]. apply IH. by eapply exclusive_step.
Qed.
End Histories.
