(* ===== verification/OutboxSafety.v ===== *)
(** * Safety of the outbox

    Whatever the adapter writes it reads back; the theorems about histories,
    claims, settlement and the backlog ceiling. *)

From S2P Require Import Prelude Regex JsNum JsVal Dates JsonText Event Store StoreHistory DeliverySafety Outbox OutboxFile.
From S2P Require Import OutboxHistory.

#[local] Open Scope Z_scope.

Section Rows.
Context `{Host} `{Locale}.

Definition date_ok (s : string) : Prop := is_Some (date_parse s).

Definition opt_list {A} (o : option A) : list A := match o with Some a => [a] | None => [] end.

(** A row that the validator accepts. *)
Record good_row (e : OutboxStoredEntry) : Prop := {
  good_id : blank (entry_id e) = false;
  good_tenant : blank (tenantId e) = false;
  good_payload : validatePayload (payload e) (Some (tenantId e)) = Ret tt;
  good_attempts : 0 <= attempts e;
  good_dates : Forall date_ok ([availableAt e; createdAt e; updatedAt e] ++ opt_list (dispatchedAt e) ++ opt_list (leaseExpiresAt e));
  good_lease : match status e with
               | leased => ∃ l x, leaseId e = Some l ∧ blank l = false ∧ leaseExpiresAt e = Some x
               | _ => leaseId e = None ∧ leaseExpiresAt e = None
               end;
  good_circuit : match status e with
                 | paused => ∃ c, circuitId e = Some c ∧ re_test CIRCUIT_PATTERN c = true
                 | _ => circuitId e = None
                 end;
}.

Lemma normalizeDate_text s : date_ok s → ∃ t, normalizeDate (VStr s) = Ret t.
Proof. intros [t E]. unfold normalizeDate. cbn [js_String mbind exc_mbind]. rewrite E. by eexists. Qed.

Lemma assertNonEmpty_text s f : blank s = false → assertNonEmpty (VStr s) f = Ret s.
Proof. unfold assertNonEmpty. by intros ->. Qed.

#[local] Arguments normalizeDate : simpl never.
#[local] Arguments assertNonEmpty : simpl never.
#[local] Arguments validatePayload : simpl never.
#[local] Arguments re_test : simpl never.
#[local] Arguments CIRCUIT_PATTERN : simpl never.

(** One validation step that succeeds. *)
Ltac accepted :=
  repeat first
    [ rewrite assertNonEmpty_text by assumption; cbn [mbind exc_mbind]
    | match goal with
      | H : date_ok ?s |- context [normalizeDate (VStr ?s)] =>
          let t := fresh in destruct (normalizeDate_text s H) as [t ->]; cbn [mbind exc_mbind]
      end ].

Lemma good_row_valid e : good_row e → validateStoredEntry (entry_val e) = Ret tt.
Proof.
  destruct e as [i t p av st n ca ua da le li lx ci]. intros [Hi Ht Hp Hn Hd Hl Hc].
  cbn [entry_id tenantId payload availableAt status attempts createdAt updatedAt dispatchedAt leaseId leaseExpiresAt circuitId] in *.
  apply Forall_app in Hd as [Hd Hd']. apply Forall_app in Hd' as [Hda Hlx].
  apply Forall_cons in Hd as [H1 Hd]. apply Forall_cons in Hd as [H2 Hd]. apply Forall_cons in Hd as [H3 _].
  assert (∀ z, 0 <= z → (match VInt z with VNum n => match num_int n with Some z => 0 <=? z | None => false end | _ => false end) = true) as Hint
    by (intros z Hz; unfold VInt; rewrite num_int_of_Z; by apply Z.leb_le).
  destruct st; cbn [status_text] in *.
  all: repeat match goal with H : ∃ _, _ |- _ => destruct H | H : _ ∧ _ |- _ => destruct H end; subst.
  all: destruct da as [da|]; cbn [opt_list] in *; try (apply Forall_cons in Hda as [Hda _]);
       try (apply Forall_cons in Hlx as [Hlx _]).
  all: unfold validateStoredEntry, entry_val; cbn -[VInt num_int bool_decide]; rewrite ?(Hint n Hn); cbn -[VInt num_int bool_decide].
  all: accepted; rewrite Hp; cbn [mbind exc_mbind]; unfold guard_exc; 
       match goal with |- context [bool_decide (?x ∈ ?l)] => change (bool_decide (x ∈ l)) with true end;
       cbn -[re_test CIRCUIT_PATTERN bool_decide assertNonEmpty normalizeDate].
  all: accepted; unfold sanitizeCircuitId; try match goal with H : re_test _ _ = true |- _ => rewrite H end;
       rewrite ?bool_decide_true by eauto; reflexivity.
Qed.

(** The host parses the texts that [toISOString] prints. *)
Definition prints_parsable : Prop := ∀ t, is_Some (date_parse (toISOString t)).

Lemma normalized_ok v s : prints_parsable → normalizeDate v = Ret s → date_ok s.
Proof.
  unfold normalizeDate. intros Hp (t & _ & E)%bind_ret. destruct t as [t|]; [|discriminate]. injection E as <-. apply Hp.
Qed.

Lemma expiry_ok now ms : prints_parsable → is_ret (lease_expiry now ms) = true → date_ok (expiry now ms).
Proof.
  intros Hp. unfold expiry, lease_expiry. destruct (date_parse now) as [t|]; [|done]. destruct (_ <=? _); [|done].
  intros _. apply Hp.
Qed.

Lemma nonEmpty_text v f s : assertNonEmpty v f = Ret s → v = VStr s ∧ blank s = false.
Proof. unfold assertNonEmpty. destruct v; try discriminate. destruct (blank _) eqn:E; [discriminate|]. by intros [= ->]. Qed.

Lemma enqueued_good e : prints_parsable → enqueued e → good_row e.
Proof.
  intros Hpr (now & input & E & Hj). unfold createPendingEntry in E.
  apply bind_ret in E as (tid & [_ Et]%nonEmpty_text & E). apply bind_ret in E as (id & [_ Ei]%nonEmpty_text & E).
  apply bind_ret in E as ([] & Ep & E). apply bind_ret in E as (s & Es & E). apply bind_ret in E as (pl & El & E).
  apply bind_ret in E as (av & Ea & E). injection E as <-. rewrite json_clone_json in El by done. injection El as <-.
  pose proof (normalized_ok _ _ Hpr Es). pose proof (normalized_ok _ _ Hpr Ea).
  split; cbn; [done..|by rewrite !Forall_cons, Forall_nil|done|done].
Qed.

Lemma settled_good at_ e : date_ok at_ → good_row e → good_row (settle at_ e).
Proof.
  intros Ha [Hi Ht Hp Hn Hd _ _]. split; cbn; [done..| |done|done].
  cbn [app] in Hd. repeat rewrite Forall_cons in Hd. rewrite !Forall_cons, Forall_nil. tauto.
Qed.

Lemma failed_good at_ err uuid d av circuit e :
  date_ok at_ → (d = retry → date_ok av) → re_test CIRCUIT_PATTERN ("local_" +:+ uuid) = true → good_row e →
  good_row (failed at_ err uuid d av circuit e).
Proof.
  intros Ha Hav Hu [Hi Ht Hp Hn Hd _ _]. apply Forall_app in Hd as [Hd Hd']. apply Forall_app in Hd' as [Hda _].
  repeat rewrite Forall_cons in Hd. destruct Hd as (H1 & H2 & H3 & _).
  assert (∀ a, date_ok a → Forall date_ok ([a; createdAt e; at_] ++ opt_list (dispatchedAt e) ++ [])) as HF.
  { intros a Hok. rewrite !Forall_app, !Forall_cons, Forall_nil. tauto. }
  destruct d; split; cbn -[app]; try done; try lia; try (by apply HF; auto).
  unfold resolveCircuitId, sanitizeCircuitId. eexists. split; [reflexivity|].
  destruct circuit as [c|]; cbn [default from_option id]; [|done]. by destruct (re_test CIRCUIT_PATTERN c) eqn:Ec.
Qed.

Lemma rearmed_good at_ e : date_ok at_ → status e = paused → good_row e → good_row (rearm at_ e).
Proof.
  intros Ha Hs [Hi Ht Hp Hn Hd Hl _]. rewrite Hs in Hl. destruct Hl as [El Ex]. rewrite Ex in Hd. split; cbn; [done..| |done|done].
  rewrite Ex. cbn [app opt_list] in *. repeat rewrite Forall_cons in Hd. rewrite !Forall_cons. tauto.
Qed.

Lemma leased_good now lease x blocked e :
  date_ok now → date_ok x → blank lease = false → claimable now blocked e = true → good_row e → good_row (lease_entry now lease x e).
Proof.
  intros Hnow Hx Hb Hc [Hi Ht Hp Hn Hd Hl Hci]. apply Forall_app in Hd as [Hd Hd']. apply Forall_app in Hd' as [Hda _].
  repeat rewrite Forall_cons in Hd. destruct Hd as (H1 & H2 & H3 & _). split; cbn -[app]; [done..| | |].
  - rewrite !Forall_app, !Forall_cons, Forall_nil. tauto.
  - by exists lease, x.
  - unfold claimable in Hc. apply andb_true_iff in Hc as [_ [[Hs%bool_decide_eq_true _]%andb_true_iff|[Hs%bool_decide_eq_true _]%andb_true_iff]%orb_true_iff];
      by rewrite Hs in Hci.
Qed.

Lemma changes_good P l l' :
  changes P l l' → (∀ e e', P e e' → good_row e → good_row e') → Forall good_row l → Forall good_row l'.
Proof.
  intros [_ Hc] HP Hl. rewrite Forall_forall in *. intros e' He'. destruct (Hc _ He') as [|(e & He & Hp)]; [by apply Hl|].
  eapply HP; [exact Hp|by apply Hl].
Qed.

Lemma step_good max w w' : prints_parsable → outbox_step max w w' → Forall good_row (file w) → Forall good_row (file w').
Proof.
  intros Hpr. destruct 1 as [A run w file' a Hj E|now o w file' claims s E Es|now id o w file' r E|now uuid id error o w file' r Hu E|
                 now tenant circuit limit at_ w file' n E]; cbn [file clock].
  - destruct (transaction_ret _ _ _ _ _ Hj E) as (new & Hp & Hf & _). intros Hg. rewrite Hp. apply Forall_app. split; [done|].
    eapply Forall_impl; [exact Hf|]. intros e. by apply enqueued_good.
  - apply claimDispatchable_ret in E as (s' & rows & Es' & Ev & Hr). eapply changes_good; [by eapply claim_changes|].
    intros e e' (Hcl & Hx & ->). eapply leased_good; [exact (normalized_ok _ _ Hpr Es')|exact (expiry_ok _ _ Hpr Hx)| |exact Hcl].
    unfold validateClaimOptions in Ev. apply bind_ret in Ev as ([] & _ & Ev). apply bind_ret in Ev as (l & [El Hb]%nonEmpty_text & _).
    by rewrite El.
  - apply markDispatched_ret in E as (i & at_ & entry & _ & Ef & _ & Ea & _ & ->).
    eapply (changes_good (λ e e', e' = settle at_ e)); [by eapply (update_changes i (settle at_)); [by repeat split|..]|].
    intros e e' ->. apply settled_good. by eapply normalized_ok.
  - apply markFailed_ret in E as (i & at_ & d & av & entry & _ & Ef & _ & Ea & _ & Hav & _ & ->).
    eapply (changes_good (λ e e', e' = failed at_ (errorMessage error) uuid d av (fail_circuitId o) e)).
    { by eapply update_changes; [intros e; destruct d; repeat split|..]. }
    intros e e' ->. apply failed_good; [by eapply normalized_ok| |done]. intros Hd. destruct (Hav Hd) as [v Ev]. by eapply normalized_ok.
  - apply resumePaused_ret in E as (s & expected & _ & Ea & _ & Hch). eapply changes_good; [exact Hch|].
    intros e e' (Hs & _ & ->). apply rearmed_good; [by eapply normalized_ok|done].
Qed.

Lemma reachable_good max w : prints_parsable → reachable max w → Forall good_row (file w).
Proof.
  intros Hpr. unfold reachable. intros Hr. remember empty_outbox as w0 eqn:E0.
  assert (Forall good_row (file w0)) as Hg by (subst; constructor). clear E0.
  induction Hr as [w|w w1 w' Hs _ IH]; [done|]. apply IH. by eapply step_good.
Qed.

Lemma readable l : Forall good_row l → readEntries l = Ret (sort_entries l).
Proof.
  intros Hl. unfold readEntries. assert (is_ret (mapE (λ e, validateStoredEntry (entry_val e)) l) = true) as Hm.
  { induction Hl as [|e l He _ IH]; [done|]. cbn [mapE]. rewrite (good_row_valid _ He). cbn [mbind exc_mbind].
    by destruct (mapE _ l). }
  by destruct (mapE _ l).
Qed.

Lemma changes_ids P l l' : changes P l l' → NoDup (entry_id <$> l) → NoDup (entry_id <$> l').
Proof. intros [Hk _]. rewrite (keeps_ids _ _ _ Hk). by rewrite app_nil_r. Qed.

Lemma ids_step max w w' : outbox_step max w w' → NoDup (entry_id <$> file w) → NoDup (entry_id <$> file w').
Proof.
  destruct 1 as [A run w file' a Hj E|now o w file' claims s E Es|now id o w file' r E|now uuid id error o w file' r Hu E|
                 now tenant circuit limit at_ w file' n E]; cbn [file clock].
  - by destruct (transaction_ret _ _ _ _ _ Hj E) as (new & _ & _ & Hn).
  - apply claimDispatchable_ret in E as (s' & rows & _ & _ & Hr). eapply changes_ids. by eapply claim_changes.
  - apply markDispatched_ret in E as (i & at_ & entry & _ & Ef & _ & _ & _ & ->).
    eapply (changes_ids (λ _ _, True)). by eapply (update_changes i (settle at_)); [by repeat split|..].
  - apply markFailed_ret in E as (i & at_ & d & av & entry & _ & Ef & _ & _ & _ & _ & _ & ->).
    eapply (changes_ids (λ _ _, True)). by eapply update_changes; [intros e; destruct d; repeat split|..].
  - apply resumePaused_ret in E as (s & expected & _ & _ & _ & Hch). by eapply changes_ids.
Qed.

Lemma reachable_ids max w : reachable max w → NoDup (entry_id <$> file w).
Proof.
  unfold reachable. intros Hr. remember empty_outbox as w0 eqn:E0.
  assert (NoDup (entry_id <$> file w0)) as Hn by (subst; constructor). clear E0.
  induction Hr as [w|w w1 w' Hs _ IH]; [done|]. apply IH. by eapply ids_step.
Qed.

(** ** Queue order *)

(** [localeCompare] orders texts. *)
Record locale_order : Prop := {
  locale_opp : ∀ a b, localeCompare b a = CompOpp (localeCompare a b);
  locale_trans : ∀ a b c, localeCompare a b ≠ Gt → localeCompare b c ≠ Gt → localeCompare a c ≠ Gt;
}.

Lemma entry_leb_total x y : locale_order → entry_leb x y = false → entry_leb y x = true.
Proof.
  intros L. unfold entry_leb, compareEntries. rewrite (locale_opp L (createdAt x)), (locale_opp L (entry_id x)).
  by destruct (localeCompare (createdAt x) _), (localeCompare (entry_id x) _).
Qed.

Lemma lexicographic_trans {A} (c d : A → A → comparison) a b e :
  (∀ x y, c y x = CompOpp (c x y)) → (∀ x y z, c x y ≠ Gt → c y z ≠ Gt → c x z ≠ Gt) →
  (∀ x y z, d x y ≠ Gt → d y z ≠ Gt → d x z ≠ Gt) →
  match c a b with Eq => d a b | r => r end ≠ Gt → match c b e with Eq => d b e | r => r end ≠ Gt →
  match c a e with Eq => d a e | r => r end ≠ Gt.
Proof.
  intros Ho Hc Hd H1 H2. assert (c a b ≠ Gt) as C1 by (by destruct (c a b)). assert (c b e ≠ Gt) as C2 by (by destruct (c b e)).
  pose proof (Hc _ _ _ C1 C2) as C3. destruct (c a e) eqn:E3; [|done|done].
  assert (c e a ≠ Gt) as C3' by (by rewrite Ho, E3).
  pose proof (Hc _ _ _ C2 C3') as C4. rewrite Ho in C4. pose proof (Hc _ _ _ C3' C1) as C5. rewrite Ho in C5.
  destruct (c a b), (c b e); cbn in *; try done. by eapply Hd.
Qed.

Lemma entry_leb_trans x y z : locale_order → entry_leb x y = true → entry_leb y z = true → entry_leb x z = true.
Proof.
  intros L. assert (∀ a b, entry_leb a b = true ↔ compareEntries a b ≠ Gt) as Hle
    by (intros a b; unfold entry_leb; destruct (compareEntries a b); split; done).
  rewrite !Hle. unfold compareEntries.
  apply (lexicographic_trans (λ a b, localeCompare (createdAt a) (createdAt b)) (λ a b, localeCompare (entry_id a) (entry_id b)));
    intros; [apply (locale_opp L)|by eapply (locale_trans L)..].
Qed.

(** A claim of nothing stopped at the first claimable row of the queue. *)
Lemma claim_loop_none limit maxBytes now lease ms blocked candidates :
  1 <= limit → (∀ i e, (i, e) ∈ candidates → tenantId e ∉ blocked) →
  claim_loop limit maxBytes now lease ms blocked [] 0 candidates = Ret [] →
  candidates = [] ∨ ∃ i e rest n, candidates = (i, e) :: rest ∧ outboxPayloadByteLength (payload e) = Ret n ∧ maxBytes < n.
Proof.
  intros Hl Hb E. destruct candidates as [|[i e] rest]; [by left|right]. cbn [claim_loop length] in E.
  rewrite (proj2 (Z.leb_gt _ _)) in E by (cbn; lia). rewrite bool_decide_false in E by (eapply Hb; by left).
  apply bind_ret in E as (n & En & E). destruct (Z.ltb_spec maxBytes (0 + n)) as [Hm|Hm].
  { exists i, e, rest, n. split_and!; [done..|lia]. }
  apply bind_ret in E as (s & _ & E). apply claim_loop_spec in E as (rows & E & _). by destruct rows.
Qed.

Lemma blocked_sorted now file t :
  t ∈ paused_tenants (sort_entries file) ++ active_tenants now (sort_entries file) ↔ t ∈ paused_tenants file ++ active_tenants now file.
Proof.
  rewrite !elem_of_app. unfold paused_tenants, active_tenants. rewrite !list_elem_of_fmap. setoid_rewrite elem_of_filterb.
  unfold sort_entries. by setoid_rewrite elem_of_sort_by.
Qed.

Lemma claimable_sorted now file e :
  claimable now (paused_tenants (sort_entries file) ++ active_tenants now (sort_entries file)) e
  = claimable now (paused_tenants file ++ active_tenants now file) e.
Proof. unfold claimable. do 2 f_equal. apply bool_decide_ext, blocked_sorted. Qed.

Lemma claim_nothing now o file file' s e :
  locale_order → claimDispatchable now o file = Ret (file', []) →
  normalizeDate (nullish_or (list_now (claim_list o)) (VDate (Some now))) = Ret s →
  e ∈ file → claimable s (paused_tenants file ++ active_tenants s file) e = true →
  in_tenant (list_tenantId (claim_list o)) e = true →
  ∃ first n, first ∈ file ∧ entry_leb first e = true ∧ outboxPayloadByteLength (payload first) = Ret n ∧
    int_of (maxPayloadBytes o) < n.
Proof.
  intros L E Es He Hc Ht. unfold claimDispatchable in E. apply bind_ret in E as ([] & Ev & E).
  apply bind_ret in E as (entries & ->%readEntries_ret & E). rewrite Es in E. cbn [mbind exc_mbind] in E. cbv zeta in E.
  set (cands := in_queue_order _ _) in E. apply bind_ret in E as (cl & Ecl & E). injection E as _ E. destruct cl; [|discriminate].
  assert (1 <= int_of (list_limit (claim_list o))) as Hl.
  { unfold validateClaimOptions in Ev. apply bind_ret in Ev as ([] & _ & Ev). apply bind_ret in Ev as (l & _ & Ev).
    apply bind_ret in Ev as (m & _ & Ev). apply bind_ret in Ev as (k & Ek & _). unfold int_of.
    unfold requirePositiveInteger in Ek. destruct (safe_integer _); [|discriminate]. destruct (Z.leb_spec z 0); [discriminate|]. cbn. lia. }
  assert (∀ i x, (i, x) ∈ cands → x ∈ file ∧ claimable s (paused_tenants file ++ active_tenants s file) x = true) as Hcands.
  { intros i x [[Hi Hx]%elem_of_filterb _]%in_queue_order_elem. apply elem_of_indexed in Hi. cbn [snd] in Hx.
    rewrite claimable_sorted in Hx. split; [|done]. rewrite <- (sort_entries_perm file). by eapply list_elem_of_lookup_2. }
  assert (∀ i x, (i, x) ∈ cands → tenantId x ∉ paused_tenants (sort_entries file) ++ active_tenants s (sort_entries file)) as Hnb.
  { intros i x Hin. destruct (Hcands _ _ Hin) as [_ Hx]. rewrite blocked_sorted.
    by apply andb_true_iff in Hx as [?%negb_true_iff%bool_decide_eq_false _]. }
  assert (∃ i, (i, e) ∈ cands) as [i Hie].
  { rewrite <- sort_entries_perm in He. apply list_elem_of_lookup in He as [i Hi]. exists i. apply in_queue_order_elem.
    split; [|done]. apply elem_of_filterb. split; [by apply elem_of_indexed|]. cbn [snd]. by rewrite claimable_sorted. }
  destruct (claim_loop_none _ _ _ _ _ _ _ Hl Hnb Ecl) as [E0|(j & first & rest & n & E0 & En & Hn)];
    [rewrite E0 in Hie; by apply elem_of_nil in Hie|].
  exists first, n. split; [apply (Hcands j first); rewrite E0; by left|]. split; [|done].
  assert (sortedb (λ a b, entry_leb a.2 b.2) cands) as Hs.
  { apply sort_by_sorted; [intros x y; by apply entry_leb_total|intros x y z; by apply entry_leb_trans]. }
  rewrite E0 in Hs, Hie. apply elem_of_cons in Hie as [[= -> ->]|Hin].
  - unfold entry_leb, compareEntries.
    assert (∀ a, localeCompare a a = Eq) as Hrefl by (intros a; pose proof (locale_opp L a a); by destruct (localeCompare a a)).
    by rewrite !Hrefl.
  - inversion_clear Hs as [|? ? _ Hf]. rewrite Forall_forall in Hf. exact (Hf _ Hin).
Qed.

(** ** The backlog ceiling *)

Lemma payload_bytes_perm l l' n : l ≡ₚ l' → payload_bytes l = Ret n → payload_bytes l' = Ret n.
Proof.
  intros Hp. revert n. induction Hp as [|x l l' _ IH|x y l|l l' l'' _ IH1 _ IH2]; intros n E; [done|..]; cbn [payload_bytes] in *.
  - apply bind_ret in E as (a & -> & E). apply bind_ret in E as (b & Eb & E). cbn [mbind exc_mbind]. by rewrite (IH _ Eb).
  - apply bind_ret in E as (a & Ea & E). apply bind_ret in E as (b & Eb & E). apply bind_ret in Eb as (c & Ec & Eb).
    apply bind_ret in Eb as (d & Ed & Eb). injection Eb as <-. injection E as <-.
    rewrite Ec. cbn [mbind exc_mbind]. rewrite Ea. cbn [mbind exc_mbind]. rewrite Ed. cbn [mbind exc_mbind]. f_equal. lia.
  - by apply IH2, IH1.
Qed.

Lemma payload_bytes_snoc l e a b :
  payload_bytes l = Ret a → outboxPayloadByteLength (payload e) = Ret b → payload_bytes (l ++ [e]) = Ret (a + b).
Proof.
  revert a. induction l as [|x l IH]; intros a Ha Hb; cbn [app payload_bytes] in *.
  - injection Ha as <-. rewrite Hb. cbn [mbind exc_mbind]. f_equal. lia.
  - apply bind_ret in Ha as (c & -> & Ha). apply bind_ret in Ha as (d & Hd & Ha). injection Ha as <-.
    cbn [mbind exc_mbind]. rewrite (IH _ Hd Hb). cbn [mbind exc_mbind]. f_equal. lia.
Qed.

Lemma filterb_perm {A} (f : A → bool) l l' : l ≡ₚ l' → List.filter f l ≡ₚ List.filter f l'.
Proof.
  induction 1; cbn; [done| | |by etrans]; repeat (destruct (f _)); try done; [by constructor|apply Permutation_swap].
Qed.

(** The undelivered bytes of [l] are within the ceiling. *)
Definition within (ceiling : Z) (l : list OutboxStoredEntry) : Prop :=
  ∃ n, payload_bytes (List.filter undelivered l) = Ret n ∧ n <= ceiling.

Lemma within_perm ceiling l l' : l ≡ₚ l' → within ceiling l → within ceiling l'.
Proof. intros Hp (n & E & Hn). exists n. split; [|done]. by eapply payload_bytes_perm; [apply filterb_perm|]. Qed.

Lemma run_tx_within {A} ceiling (run : tx_program A) : ∀ staged staged' a,
  run_tx (Some ceiling) staged run = Ret (staged', a) → staged' ≡ₚ staged ∨ within ceiling staged'.
Proof.
  induction run as [a|msg|now input k IH]; intros staged staged' r E; cbn [run_tx] in E; [|discriminate|].
  - injection E as <- _. by left.
  - destruct (enqueue (Some ceiling) now staged input) as [[s1 e]|msg] eqn:Ee; [|by eapply IH].
    apply enqueue_ret in Ee as [->|(-> & _ & Ec & Hb)]; [by eapply IH|]. right.
    destruct (Hb ceiling eq_refl) as (backlog & bytes & Eb & Ey & Hle).
    assert (within ceiling (sort_entries (staged ++ [e]))) as Hw.
    { eapply within_perm; [symmetry; apply sort_entries_perm|]. exists (backlog + bytes). split; [|done].
      rewrite List.filter_app. cbn [List.filter]. unfold undelivered at 2.
      assert (status e = pending) as -> by (unfold createPendingEntry in Ec;
        repeat (let x := fresh in apply bind_ret in Ec as (x & _ & Ec)); by injection Ec as <-).
      rewrite bool_decide_false by done. cbn [negb]. by apply payload_bytes_snoc. }
    destruct (IH _ _ _ _ E) as [Hp|]; [|done]. eapply within_perm; [symmetry; exact Hp|done].
Qed.

Lemma transaction_within {A} ceiling (run : tx_program A) file file' a :
  transaction (Some ceiling) run file = Ret (file', a) → file' ≡ₚ file ∨ within ceiling file'.
Proof.
  unfold transaction. intros (entries & ->%readEntries_ret & E)%bind_ret.
  apply bind_ret in E as ([staged r] & Er & E). injection E as <- _. unfold writeEntries.
  destruct (run_tx_within _ _ _ _ _ Er) as [Hp|Hw]; [left; by rewrite sort_entries_perm, Hp, sort_entries_perm|right].
  eapply within_perm; [symmetry; apply sort_entries_perm|done].
Qed.

(** ** Settlement *)

Lemma lease_settles entry l : assertLease entry (Some l) = Ret tt → status entry = leased ∧ leaseId entry = Some l.
Proof.
  unfold assertLease. destruct (status entry); intros E%guard_ret; try discriminate. by apply bool_decide_eq_true in E.
Qed.
End Rows.

(** ** Properties *)

(** C30. At most one active lease per tenant: in every snapshot reached by any
    interleaving of transactions, claims, settlements and resumes of any number
    of workers, whose clocks need not agree, two rows of a tenant that are leased
    and not yet due, at a time no claim so far was later than, are the same row. *)
Theorem one_active_lease `{Host} `{Locale} max w now e e' :
  reachable max w → String.leb (clock w) now = true → e ∈ file w → e' ∈ file w →
  active now e = true → active now e' = true → tenantId e = tenantId e' → e = e'.
Proof.
  intros Hr Hn He He' Ha Ha' Et.
  pose proof (reachable_exclusive _ _ Hr e e' He He' (active_earlier _ _ _ Hn Ha) (active_earlier _ _ _ Hn Ha') Et) as Ei.
  pose proof (reachable_ids _ _ Hr) as Hd. apply list_elem_of_lookup in He as [i Hi], He' as [j Hj].
  assert (i = j) as ->; [|congruence].
  eapply (NoDup_lookup (entry_id <$> file w)); [done|by rewrite list_lookup_fmap, Hi|by rewrite list_lookup_fmap, Hj, Ei].
Qed.

(** Delivery never loses or changes evidence: whatever happens to a row later
    (leases, failures, rejection, pauses, delivery), a row with its id, tenant,
    payload and creation time stays in the outbox. *)
Theorem outbox_keeps_evidence `{Host} `{Locale} max w w' e :
  rtc (outbox_step max) w w' → e ∈ file w → ∃ e', e' ∈ file w' ∧ same_evidence e e'.
Proof. exact (history_keeps max w w' e). Qed.

(** The adapter reads back everything it writes: every row of every reachable
    snapshot passes the validation of stored rows, and no two have one id. *)
Theorem reachable_outbox_readable `{Host} `{Locale} max w :
  prints_parsable → reachable max w →
  readEntries (file w) = Ret (sort_entries (file w)) ∧ NoDup (entry_id <$> file w).
Proof. intros Hp Hr. split; [apply readable, (reachable_good max w Hp Hr)|by eapply reachable_ids]. Qed.

(** A claim leases rows of distinct tenants that are due, pending or under an
    expired lease, of tenants without a paused row and without an active lease;
    it leases at most [limit] rows with at most [maxPayloadBytes] bytes in all,
    and every leased row is in the new snapshot. It leases nothing only when
    every claimable row waits behind a row of the queue that is over the byte
    budget by itself. *)
Theorem claimDispatchable_spec `{Host} `{Locale} now o file file' claims s :
  locale_order → claimDispatchable now o file = Ret (file', claims) →
  normalizeDate (nullish_or (list_now (claim_list o)) (VDate (Some now))) = Ret s →
  (∃ rows b, rows ⊆ file ∧ claims ⊆ file' ∧ NoDup (tenantId <$> rows) ∧
     Forall (λ e, (status e = pending ∨ status e = leased) ∧ due s e = true ∧ (tenantId e ∉ paused_tenants file) ∧
                  tenantId e ∉ active_tenants s file) rows ∧
     claims = lease_entry s (text_of (claim_leaseId o)) (expiry s (int_of (leaseMs o))) <$> rows ∧
     Z.of_nat (length rows) <= Z.max 0 (int_of (list_limit (claim_list o))) ∧
     payload_bytes rows = Ret b ∧ (rows = [] ∨ b <= int_of (maxPayloadBytes o))) ∧
  (claims = [] → ∀ e, e ∈ file → claimable s (paused_tenants file ++ active_tenants s file) e = true →
     in_tenant (list_tenantId (claim_list o)) e = true →
     ∃ first n, first ∈ file ∧ entry_leb first e = true ∧ outboxPayloadByteLength (payload first) = Ret n ∧
       int_of (maxPayloadBytes o) < n).
Proof.
  intros L E Es. split; [|intros -> e He Hc Ht; by eapply claim_nothing].
  apply claimDispatchable_ret in E as (s' & rows & Es' & _ & Hr). assert (s' = s) as -> by congruence.
  pose proof (claims_stored _ _ _ _ _ _ Hr) as Hst. pose proof Hr as [[_ Hcount (b & Hb & Hmax) Hnd _ _] Hcl _]. exists rows.*2, b.
  assert (∀ e, e ∈ rows.*2 → e ∈ file ∧ claimable s (paused_tenants file ++ active_tenants s file) e = true) as Hrow.
  { intros e ([i x] & -> & Hin)%list_elem_of_fmap. destruct (claimed_row_spec _ _ _ _ _ _ _ _ Hr Hin) as (Hi & Hc & _).
    split; [|done]. rewrite <- (sort_entries_perm file). by eapply list_elem_of_lookup_2. }
  split; [intros e He; by apply Hrow|]. split; [exact Hst|]. split; [done|]. split; [|split; [|split; [|split]]].
  - apply Forall_forall. intros e He. destruct (Hrow _ He) as [_ Hc]. unfold claimable in Hc.
    apply andb_true_iff in Hc as [Hb1%negb_true_iff%bool_decide_eq_false Hb2]. rewrite elem_of_app in Hb1.
    apply orb_true_iff in Hb2 as [[Hs%bool_decide_eq_true Hd]%andb_true_iff|[Hs%bool_decide_eq_true Hd]%andb_true_iff]; tauto.
  - rewrite Hcl, <- !list_fmap_compose. reflexivity.
  - rewrite length_fmap. destruct Hcount as [->|Hcount]; cbn [length]; lia.
  - done.
  - destruct Hmax as [->|Hmax]; [by left|right; lia].
Qed.

(** A worker whose lease was taken over cannot settle: a settlement that names
    a lease succeeds only when the row is under that very lease. *)
Theorem settlement_needs_lease `{Host} `{Locale} now id l at_ file file' r :
  markDispatched now id (SettleOptions (Some l) at_) file = Ret (file', r) →
  ∃ e, e ∈ file ∧ id = VStr (entry_id e) ∧ status e = leased ∧ leaseId e = Some l ∧
    same_evidence e r ∧ status r = dispatched ∧ leaseId r = None.
Proof.
  intros (s & t & entry & -> & [Hin <-]%findEntry_ret & [Hs Hl]%lease_settles & _ & -> & _)%markDispatched_ret.
  exists entry. rewrite sort_entries_perm in Hin. by repeat split.
Qed.

(** A committed transaction that added rows leaves at most the ceiling of
    undelivered payload bytes, whatever the callback did with refused rows. *)
Theorem backlog_within_ceiling `{Host} `{Locale} A ceiling (run : tx_program A) file file' a :
  transaction (Some ceiling) run file = Ret (file', a) →
  file' ≡ₚ file ∨ ∃ n, payload_bytes (List.filter undelivered file') = Ret n ∧ n <= ceiling.
Proof. exact (transaction_within ceiling run file file' a). Qed.

(** ** Witnesses *)

#[local] Instance demo_dates : DateHost := {| legacy_date_parse := λ _, Some 0 |}.
#[local] Instance demo_host : Host := {| host_dates := demo_dates; date_of_object := λ _, None; date_string := λ _, "" |}.
#[local] Instance demo_locale : Locale := {| localeCompare := String.compare |}.

Definition demo_payload : val :=
  VObj [("schemaVersion", VStr "2026-06-23"); ("mutationBinding", VStr "best_effort"); ("records", VArr []); ("edges", VArr [])].
Definition demo_enqueue : tx_program unit :=
  TxEnqueue 0 (EnqueueInput (VStr "e1") (VStr "t") demo_payload VUndef) (λ _, TxReturn tt).
Definition demo_claim : OutboxClaimOptions :=
  ClaimOptions (OutboxList (VStr "t") (VInt 1) VUndef) (VStr "w") (VInt 1000) (VInt 100).

Definition demo_row : OutboxStoredEntry :=
  Entry "e1" "t" demo_payload "1970-01-01T00:00:00.000Z" pending 0 "1970-01-01T00:00:00.000Z" "1970-01-01T00:00:00.000Z"
    None None None None None.
Definition demo_leased : OutboxStoredEntry :=
  lease_entry "1970-01-01T00:00:00.000Z" "w" "1970-01-01T00:00:01.000Z" demo_row.
Definition demo_world : outbox := Outbox [demo_leased] "1970-01-01T00:00:00.000Z".

Lemma demo_claimed : claimDispatchable 0 demo_claim [demo_row] = Ret ([demo_leased], [demo_leased]).
Proof. vm_compute. reflexivity. Qed.

Lemma demo_committed : transaction (Some 100) demo_enqueue [] = Ret ([demo_row], tt).
Proof. vm_compute. reflexivity. Qed.

Lemma demo_reachable : reachable (Some 100) demo_world.
Proof.
  eapply rtc_l; [|apply rtc_once].
  - eapply (step_transaction (Some 100) unit demo_enqueue empty_outbox); [split; [vm_compute; reflexivity|done]|exact demo_committed].
  - apply (step_claim (Some 100) 0 demo_claim (Outbox [demo_row] "") _ _ "1970-01-01T00:00:00.000Z" demo_claimed). vm_compute. reflexivity.
Qed.

(** Two rows of one tenant, a claim, and a claim of a worker whose clock is behind. *)
Definition demo_enqueues : tx_program unit :=
  TxEnqueue 0 (EnqueueInput (VStr "e1") (VStr "t") demo_payload VUndef)
    (λ _, TxEnqueue 1 (EnqueueInput (VStr "e2") (VStr "t") demo_payload VUndef) (λ _, TxReturn tt)).
Definition demo_claim_all (now : Z) : OutboxClaimOptions :=
  ClaimOptions (OutboxList (VStr "t") (VInt 2) (VDate (Some now))) (VStr "w") (VInt 1000) (VInt 100).

Definition claimed_file (now : Z) (file : list OutboxStoredEntry) : list OutboxStoredEntry :=
  default [] (fst <$> exc_to_option (claimDispatchable 0 (demo_claim_all now) file)).
Definition demo_pair : list OutboxStoredEntry := default [] (fst <$> exc_to_option (transaction (Some 200) demo_enqueues [])).
Definition demo_held : outbox := Outbox (claimed_file 100 (claimed_file 500 demo_pair)) "1970-01-01T00:00:00.500Z".

Lemma demo_claims now file : is_ret (claimDispatchable 0 (demo_claim_all now) file) = true →
  ∃ claims, claimDispatchable 0 (demo_claim_all now) file = Ret (claimed_file now file, claims).
Proof. unfold claimed_file. destruct (claimDispatchable _ _ file) as [[file' claims]|]; [by exists claims|done]. Qed.

Lemma demo_held_reachable : reachable (Some 200) demo_held.
Proof.
  destruct (demo_claims 500 demo_pair) as [c1 E1]; [by vm_compute|].
  destruct (demo_claims 100 (claimed_file 500 demo_pair)) as [c2 E2]; [by vm_compute|].
  assert (transaction (Some 200) demo_enqueues [] = Ret (demo_pair, tt)) as E0 by by vm_compute.
  assert (json_program demo_enqueues) as Hj by (split; [reflexivity|intros _; split; [reflexivity|done]]).
  assert (normalizeDate (VDate (Some 500)) = Ret "1970-01-01T00:00:00.500Z") as N1 by by vm_compute.
  assert (normalizeDate (VDate (Some 100)) = Ret "1970-01-01T00:00:00.100Z") as N2 by by vm_compute.
  pose proof (step_transaction (Some 200) unit demo_enqueues empty_outbox demo_pair tt Hj E0) as S0.
  pose proof (step_claim (Some 200) 0 (demo_claim_all 500) (Outbox demo_pair "") _ _ _ E1 N1) as S1.
  pose proof (step_claim (Some 200) 0 (demo_claim_all 100) (Outbox (claimed_file 500 demo_pair) "1970-01-01T00:00:00.500Z") _ _ _ E2 N2) as S2.
  unfold demo_held. generalize dependent (claimed_file 100 (claimed_file 500 demo_pair)). generalize dependent (claimed_file 500 demo_pair).
  generalize dependent demo_pair. intros l0 E0 S0 l1 E1 S1 l2 E2 S2. exact (rtc_l _ _ _ _ S0 (rtc_l _ _ _ _ S1 (rtc_once _ _ S2))).
Qed.

(** Both rows are due, and one of them is leased. *)
Lemma one_active_lease_witness :
  length (file demo_held) = 2%nat ∧
  Forall (λ e, active "1970-01-01T00:00:01.000Z" e = true → entry_id e = "e1") (file demo_held).
Proof.
  split; [by vm_compute|]. apply Forall_forall. intros e He Ha.
  destruct (file demo_held) as [|e1 rest] eqn:E; [by vm_compute in E|].
  assert (e = e1) as ->; [|by (vm_compute in E; injection E as <- _)]. rewrite <- E in He.
  apply (one_active_lease (Some 200) demo_held "1970-01-01T00:00:01.000Z" e e1 demo_held_reachable); [reflexivity|done|rewrite E; by left|done| |].
  - by (vm_compute in E; injection E as <- _).
  - assert (Forall (λ e, tenantId e = "t") (file demo_held)) as Ht by (apply (bool_decide_unpack _); by vm_compute).
    rewrite Forall_forall in Ht. rewrite (Ht e He), (Ht e1); [done|]. rewrite E. by left.
Defined.

Lemma outbox_keeps_evidence_witness : ∃ e', e' ∈ file demo_world ∧ same_evidence demo_row e'.
Proof.
  apply (outbox_keeps_evidence (Some 100) (Outbox [demo_row] "") demo_world demo_row); [|by left].
  apply rtc_once. apply (step_claim (Some 100) 0 demo_claim (Outbox [demo_row] "") _ _ "1970-01-01T00:00:00.000Z" demo_claimed). vm_compute. reflexivity.
Defined.

Lemma reachable_outbox_readable_witness :
  readEntries (file demo_world) = Ret (sort_entries (file demo_world)) ∧ NoDup (entry_id <$> file demo_world).
Proof.
  apply (reachable_outbox_readable (Some 100) demo_world); [|exact demo_reachable].
  intros t. unfold date_parse. destruct (parse_iso _); by eexists.
Defined.

Lemma demo_locale_order : locale_order.
Proof.
  assert (∀ a b, String.compare a b ≠ Gt ↔ String.leb a b = true) as Hle
    by (intros a b; unfold String.leb; destruct (String.compare a b); split; done).
  split; cbn [localeCompare demo_locale]; [intros a b; apply String.compare_antisym|].
  intros a b c. rewrite !Hle. apply string_compare_trans_le.
Qed.

Lemma claimDispatchable_spec_witness :
  ∃ rows b, rows ⊆ [demo_row] ∧ [demo_leased] ⊆ [demo_leased] ∧ NoDup (tenantId <$> rows) ∧
     Forall (λ e, (status e = pending ∨ status e = leased) ∧ due "1970-01-01T00:00:00.000Z" e = true ∧
                  (tenantId e ∉ paused_tenants [demo_row]) ∧ (tenantId e ∉ active_tenants "1970-01-01T00:00:00.000Z" [demo_row])) rows ∧
     [demo_leased] = lease_entry "1970-01-01T00:00:00.000Z" "w" (expiry "1970-01-01T00:00:00.000Z" 1000) <$> rows ∧
     Z.of_nat (length rows) <= Z.max 0 1 ∧ payload_bytes rows = Ret b ∧ (rows = [] ∨ b <= 100).
Proof.
  exact (proj1 (claimDispatchable_spec 0 demo_claim [demo_row] [demo_leased] [demo_leased] "1970-01-01T00:00:00.000Z"
    demo_locale_order demo_claimed ltac:(vm_compute; reflexivity))).
Defined.

Lemma settlement_needs_lease_witness :
  ∃ e, e ∈ [demo_leased] ∧ VStr "e1" = VStr (entry_id e) ∧ status e = leased ∧ leaseId e = Some "w" ∧
    same_evidence e (settle "1970-01-01T00:00:00.000Z" demo_leased) ∧
    status (settle "1970-01-01T00:00:00.000Z" demo_leased) = dispatched ∧
    leaseId (settle "1970-01-01T00:00:00.000Z" demo_leased) = None.
Proof.
  apply (settlement_needs_lease 0 (VStr "e1") "w" VUndef [demo_leased] [settle "1970-01-01T00:00:00.000Z" demo_leased]).
  vm_compute. reflexivity.
Defined.

Lemma backlog_within_ceiling_witness :
  [demo_row] ≡ₚ [] ∨ ∃ n, payload_bytes (List.filter undelivered [demo_row]) = Ret n ∧ n <= 100.
Proof. exact (backlog_within_ceiling unit 100 demo_enqueue [] [demo_row] tt demo_committed). Defined.
