(* ===== verification/Dispatcher.v ===== *)
(** * The outbox dispatcher (storage/src/outbox-dispatcher.ts)

    One pass claims rows one by one and delivers them to a target, within a
    finite permit and within the rolling window that all passes of a dispatcher
    share. The adapter and the target act on a world of their own; the clock and
    the random ids are streams. The ledger keeps, besides the attempts the code
    keeps, all attempts ever made ([sent]), which only theorems read. *)

From S2P Require Import Prelude JsNum JsVal Dates Event DeliverySafety Outbox OutboxFile.

#[local] Open Scope Z_scope.

(** A thrown value: the name and message of an [Error], or something else. *)
Definition js_error : Type := option (string * string).

(** What the dispatcher needs of an outbox adapter. [Z] is the adapter's clock. *)
Class OutboxAdapter (W : Type) := {
  adapter_claim : Z → OutboxClaimOptions → W → W * exc (list OutboxStoredEntry);
  adapter_dispatched : Z → string → settle_options → W → W * exc unit;
  adapter_failed : Z → string → string → js_error → fail_options → W → W * exc unit;
}.

Class OutboxEvidenceTarget (W : Type) := {
  target_event : val → W → W * (unit + js_error);
  target_edge : val → W → W * (unit + js_error);
}.

(** The clock and the random ids, by the number of earlier readings. *)
Record environment := Environment { clock_at : nat → Z; uuid_at : nat → string }.

Record send := Send { sent_at : Z; sent_bytes : Z }.

(** ** The rolling window *)

Record ledger := Ledger { sends : list send; sent : list send }.

Definition createRollingWindowLedger : ledger := Ledger [] [].

Definition prune (policy : DeliverySafetyPolicy) (now : Z) (l : ledger) : ledger :=
  Ledger (List.filter (λ s, now - sent_at s <? windowMs (hard policy)) (sends l)) (sent l).

Definition total_bytes (l : list send) : Z := fold_left (λ total s, total + sent_bytes s) l 0.

(** Asking for the rest of the window drops the attempts that left it. *)
Definition remainingRequests (policy : DeliverySafetyPolicy) (now : Z) (l : ledger) : ledger * Z :=
  let l := prune policy now l in (l, rollingRequests (hard policy) - Z.of_nat (length (sends l))).

Definition remainingBytes (policy : DeliverySafetyPolicy) (now : Z) (l : ledger) : ledger * Z :=
  let l := prune policy now l in (l, rollingSendBytes (hard policy) - total_bytes (sends l)).

Definition record (policy : DeliverySafetyPolicy) (now bytes : Z) (l : ledger) : ledger :=
  let l := prune policy now l in Ledger (sends l ++ [Send now bytes]) (sent l ++ [Send now bytes]).

(** ** One pass *)

Record OutboxDispatchResult := DispatchResult {
  count_dispatched : Z; count_retried : Z; count_paused : Z; count_rejected : Z; count_bytes : Z;
}.

Definition emptyDispatchResult : OutboxDispatchResult := DispatchResult 0 0 0 0 0.

Definition permit_int (permit : val) (field : string) : Z := int_of (vget_opt permit field).

Definition validateDispatchOptions `{Host} (options : val) (policy : DeliverySafetyPolicy) : exc unit :=
  _ ← guard_exc (is_plain_object options && is_plain_object (vget_opt options "permit"))
        "a finite dispatch permit is required";
  _ ← assertNonEmpty (vget_opt options "tenantId") "tenantId";
  let permit := vget_opt options "permit" in
  let field := vget_opt permit in
  let size := permit_int permit in
  let kind s := strict_eq (field "kind") (VStr s) in
  _ ← guard_exc (kind "automatic" || kind "canary" || kind "operator") "permit.kind is invalid";
  _ ← requirePositiveInteger (field "maxEntries") "permit.maxEntries";
  _ ← requirePositiveInteger (field "maxBytes") "permit.maxBytes";
  _ ← requirePositiveInteger (field "maxElapsedMs") "permit.maxElapsedMs";
  _ ← requirePositiveInteger (field "leaseMs") "permit.leaseMs";
  _ ← guard_exc (size "maxElapsedMs" <? size "leaseMs") "permit.leaseMs must exceed permit.maxElapsedMs";
  _ ← (if kind "operator" then assertNonEmpty (field "approvalId") "permit.approvalId" else Ret "");
  _ ← guard_exc (size "maxBytes" <=? rollingSendBytes (hard policy)) "permit.maxBytes exceeds the hard rolling send limit";
  _ ← guard_exc (size "maxEntries" <=? rollingRequests (hard policy)) "permit.maxEntries exceeds the hard rolling request limit";
  _ ← guard_exc (size "maxElapsedMs" <=? windowMs (hard policy)) "permit.maxElapsedMs exceeds the hard rolling window";
  _ ← guard_exc (negb (kind "automatic" && (automaticReplayBatches (hard policy) <? size "maxEntries")))
        "automatic permit exceeds the hard replay canary limit";
  validateListOptions (OutboxList (vget_opt options "tenantId") (vget_opt options "limit") (vget_opt options "now")).

Definition dispatchLeaseId `{Host} (uuid : string) (permit : val) (index : nat) : exc string :=
  prefix ← js_String (nullish_or (vget_opt permit "approvalId") (vget_opt permit "kind"));
  number ← js_String (VInt (Z.of_nat index));
  Ret (prefix +:+ ":" +:+ number +:+ ":" +:+ uuid).

Section Dispatcher.
Context `{Host} {W : Type} `{OutboxAdapter W} `{OutboxEvidenceTarget W}.
Context (env : environment) (policy : DeliverySafetyPolicy).

(** The state of a dispatcher: its ledger, the number of readings, the world. *)
Record dispatcher := Dispatcher { ledger_of : ledger; readings : nat; world : W }.

Definition read_clock (d : dispatcher) : dispatcher * Z :=
  (Dispatcher (ledger_of d) (S (readings d)) (world d), clock_at env (readings d)).

(** Records in order, until one throws. *)
Fixpoint deliver (send_one : val → W → W * (unit + js_error)) (members : list val) (w : W) : W * (unit + js_error) :=
  match members with
  | [] => (w, inl tt)
  | m :: members =>
      match send_one m w with
      | (w, inl _) => deliver send_one members w
      | (w, inr e) => (w, inr e)
      end
  end.

Definition members_of (payload : val) (key : string) : list val := default [] (array_of (vget_opt payload key)).

Definition dispatchOutboxEntry (payload : val) (w : W) : W * (unit + js_error) :=
  match validatePayload payload None with
  | Throw msg => (w, inr (Some ("TypeError", msg)))
  | Ret _ =>
      match deliver target_event (members_of payload "records") w with
      | (w, inl _) => deliver target_edge (members_of payload "edges") w
      | (w, inr e) => (w, inr e)
      end
  end.

(** Delivery and settlement of a claimed row: [inr] is what the [catch] receives. *)
Definition attempt (now : Z) (settled_at : val) (entry : OutboxStoredEntry) (w : W) : W * (unit + js_error) :=
  match dispatchOutboxEntry (payload entry) w with
  | (w, inl _) =>
      match adapter_dispatched now (entry_id entry) (SettleOptions (leaseId entry) settled_at) w with
      | (w, Ret _) => (w, inl tt)
      | (w, Throw msg) => (w, inr (Some ("TypeError", msg)))
      end
  | (w, inr e) => (w, inr e)
  end.

(** The guards before a claim: the bytes that may still be sent, or [break]. *)
Definition remaining_budget (permit : val) (startedAt : Z) (result : OutboxDispatchResult) (d : dispatcher)
    : dispatcher * option Z :=
  let '(d, t) := read_clock d in
  if permit_int permit "maxElapsedMs" <=? t - startedAt then (d, None) else
  let '(d, t) := read_clock d in
  let '(l, requests) := remainingRequests policy t (ledger_of d) in
  let d := Dispatcher l (readings d) (world d) in
  if requests <=? 0 then (d, None) else
  let '(d, t) := read_clock d in
  let '(l, window) := remainingBytes policy t (ledger_of d) in
  let d := Dispatcher l (readings d) (world d) in
  let remaining := Z.min (permit_int permit "maxBytes" - count_bytes result) window in
  (d, if remaining <=? 0 then None else Some remaining).

(** [claimDispatchable] for one row: the first of what it returned. *)
Definition claim_one (options : val) (index : nat) (remaining : Z) (d : dispatcher)
    : dispatcher * exc (option OutboxStoredEntry) :=
  let permit := vget_opt options "permit" in
  match dispatchLeaseId (uuid_at env (readings d)) permit index with
  | Throw msg => (d, Throw msg)
  | Ret lease =>
      let '(d, t) := read_clock d in
      let claim := ClaimOptions (OutboxList (vget_opt options "tenantId") (VInt 1) (vget_opt options "now")) (VStr lease)
                     (vget_opt permit "leaseMs") (VInt (Z.min remaining (batchBytes (hard policy)))) in
      let '(w, claimed) := adapter_claim t claim (world d) in
      (Dispatcher (ledger_of d) (readings d) w, claimed ≫= λ rows, Ret (head rows))
  end.

Definition count_sent (bytes : Z) (r : OutboxDispatchResult) : OutboxDispatchResult :=
  DispatchResult (count_dispatched r) (count_retried r) (count_paused r) (count_rejected r) (count_bytes r + bytes).
Definition count_success (r : OutboxDispatchResult) : OutboxDispatchResult :=
  DispatchResult (count_dispatched r + 1) (count_retried r) (count_paused r) (count_rejected r) (count_bytes r).
Definition count_failure (r : OutboxDispatchResult) : OutboxDispatchResult :=
  DispatchResult (count_dispatched r) (count_retried r + 1) (count_paused r) (count_rejected r) (count_bytes r).

(** The attempt for a claimed row. [inl] goes on with the loop, [inr] ends the pass. *)
Definition deliver_claimed (now : val) (entry : OutboxStoredEntry) (entryBytes : Z) (result : OutboxDispatchResult)
    (d : dispatcher) : dispatcher * (OutboxDispatchResult + exc OutboxDispatchResult) :=
  let '(d, t) := read_clock d in
  let d := Dispatcher (record policy t entryBytes (ledger_of d)) (readings d) (world d) in
  let result := count_sent entryBytes result in
  let '(d, t) := read_clock d in
  let '(w, outcome) := attempt t now entry (world d) in
  let d := Dispatcher (ledger_of d) (readings d) w in
  match outcome with
  | inl _ => (d, inl (count_success result))
  | inr error =>
      let '(d, t) := read_clock d in
      let '(w, failed) := adapter_failed t (uuid_at env (readings d)) (entry_id entry) error
                            (FailOptions (leaseId entry) now VUndef None (Some retry) None) (world d) in
      (Dispatcher (ledger_of d) (readings d) w, inr (failed ≫= λ _, Ret (count_failure result)))
  end.

Fixpoint dispatch_loop (options : val) (startedAt : Z) (entries : nat) (index : nat) (result : OutboxDispatchResult)
    (d : dispatcher) : dispatcher * exc OutboxDispatchResult :=
  match entries with
  | O => (d, Ret result)
  | S entries =>
      match remaining_budget (vget_opt options "permit") startedAt result d with
      | (d, None) => (d, Ret result)
      | (d, Some remaining) =>
          match claim_one options index remaining d with
          | (d, Throw msg) => (d, Throw msg)
          | (d, Ret None) => (d, Ret result)
          | (d, Ret (Some entry)) =>
              match outboxPayloadByteLength (payload entry) with
              | Throw msg => (d, Throw msg)
              | Ret entryBytes =>
                  match deliver_claimed (vget_opt options "now") entry entryBytes result d with
                  | (d, inl result) => dispatch_loop options startedAt entries (S index) result d
                  | (d, inr ended) => (d, ended)
                  end
              end
          end
      end
  end.

Definition dispatchBatch (options : val) (d : dispatcher) : dispatcher * exc OutboxDispatchResult :=
  match validateDispatchOptions options policy with
  | Throw msg => (d, Throw msg)
  | Ret _ =>
      let '(d, startedAt) := read_clock d in
      dispatch_loop options startedAt (Z.to_nat (permit_int (vget_opt options "permit") "maxEntries")) 0
        emptyDispatchResult d
  end.

(** A run of passes; a pass that throws ends there, and the host goes on. *)
Definition passes (batches : list val) (d : dispatcher) : dispatcher :=
  fold_left (λ d options, (dispatchBatch options d).1) batches d.
End Dispatcher.
Arguments dispatcher : clear implicits.
Arguments Dispatcher {W}.
