(* ===== verification/DispatchBounds.v ===== *)
(** * Bounds of delivery

    However many passes a dispatcher makes, with whatever permits, targets and
    failures, no window of the policy's length has more attempts or bytes than
    the policy allows; and a pass stays within its permit. *)

From S2P Require Import Prelude JsNum JsVal Dates Event DeliverySafety Outbox OutboxFile OutboxHistory Dispatcher.

#[local] Open Scope Z_scope.

(** ** Attempts in a window *)

Lemma total_bytes_from l : ∀ n, fold_left (λ total s, total + sent_bytes s) l n = n + total_bytes l.
Proof.
  unfold total_bytes. induction l as [|s l IH]; intros n; cbn [fold_left]; [lia|]. rewrite IH, (IH (0 + sent_bytes s)). lia.
Qed.

Lemma total_bytes_cons s l : total_bytes (s :: l) = sent_bytes s + total_bytes l.
Proof. unfold total_bytes at 1. cbn [fold_left]. rewrite total_bytes_from. lia. Qed.

Lemma total_bytes_app l k : total_bytes (l ++ k) = total_bytes l + total_bytes k.
Proof. unfold total_bytes at 1. rewrite fold_left_app, total_bytes_from. reflexivity. Qed.

(** A narrower selection of attempts has no greater load. *)
Lemma narrower (f g : send → bool) l :
  Forall (λ s, 0 <= sent_bytes s) l → Forall (λ s, f s = true → g s = true) l →
  (length (List.filter f l) <= length (List.filter g l))%nat ∧ total_bytes (List.filter f l) <= total_bytes (List.filter g l).
Proof.
  intros Hb Hfg. induction l as [|s l IH]; [split; reflexivity|]. apply Forall_cons in Hb as [Hs Hb], Hfg as [Hi Hfg].
  destruct (IH Hb Hfg) as [H1 H2]. cbn [List.filter]. destruct (f s) eqn:Ef.
  - rewrite (Hi eq_refl). cbn [length]. rewrite !total_bytes_cons. lia.
  - destruct (g s); cbn [length]; rewrite ?total_bytes_cons; lia.
Qed.

Section Window.
Context (policy : DeliverySafetyPolicy).

Definition in_window (t : Z) (s : send) : bool := (t <=? sent_at s) && (sent_at s <? t + windowMs (hard policy)).

(** The load of the window that starts at [t]. *)
Definition attempts_in (t : Z) (l : list send) : Z := Z.of_nat (length (List.filter (in_window t) l)).
Definition bytes_in (t : Z) (l : list send) : Z := total_bytes (List.filter (in_window t) l).

Definition recent (now : Z) (s : send) : bool := now - sent_at s <? windowMs (hard policy).

(** The state of the ledger at [now]. *)
Record ledger_ok (now : Z) (l : ledger) : Prop := {
  past : Forall (λ s, sent_at s <= now) (sent l);
  sizes : Forall (λ s, 0 <= sent_bytes s) (sent l);
  remembered : ∃ pruned, pruned <= now ∧ sends l = List.filter (recent pruned) (sent l);
  attempts_bound t : attempts_in t (sent l) <= rollingRequests (hard policy);
  bytes_bound t : bytes_in t (sent l) <= rollingSendBytes (hard policy);
}.

Lemma ledger_start now : 0 <= rollingRequests (hard policy) → 0 <= rollingSendBytes (hard policy) → ledger_ok now createRollingWindowLedger.
Proof.
  intros HR HB. split; cbn [sent sends createRollingWindowLedger]; [constructor|constructor|exists now; split; [lia|done]|intros t; exact HR|intros t; exact HB].
Qed.

Lemma ledger_later now now' l : now <= now' → ledger_ok now l → ledger_ok now' l.
Proof.
  intros Hn [H1 H2 (p & Hp & E) H4 H5]. split; [|done|exists p; split; [lia|done]|done|done].
  eapply Forall_impl; [exact H1|]. cbn. lia.
Qed.

Lemma filter_filter {A} (f g : A → bool) l : (∀ x, f x = true → g x = true) → List.filter f (List.filter g l) = List.filter f l.
Proof.
  intros Hfg. induction l as [|x l IH]; [done|]. cbn [List.filter]. destruct (g x) eqn:Eg; cbn [List.filter]; rewrite IH; [done|].
  destruct (f x) eqn:Ef; [|done]. by rewrite (Hfg _ Ef) in Eg.
Qed.

Lemma pruned_sends now l : ledger_ok now l → sends (prune policy now l) = List.filter (recent now) (sent l).
Proof.
  intros [_ _ (p & Hp & E) _ _]. unfold prune. cbn [sends]. rewrite E. apply filter_filter.
  intros s. unfold recent. rewrite !Z.ltb_lt. lia.
Qed.

Lemma ledger_prune now l : ledger_ok now l → ledger_ok now (prune policy now l).
Proof.
  intros Hl. pose proof (pruned_sends _ _ Hl) as E. destruct Hl as [H1 H2 H3 H4 H5].
  split; [done|done|exists now; split; [lia|exact E]|done|done].
Qed.

(** An attempt that the window has room for. *)
Lemma ledger_record now l bytes :
  0 < windowMs (hard policy) → ledger_ok now l → 0 <= bytes →
  Z.of_nat (length (sends (prune policy now l))) < rollingRequests (hard policy) →
  total_bytes (sends (prune policy now l)) + bytes <= rollingSendBytes (hard policy) →
  ledger_ok now (record policy now bytes l).
Proof.
  intros Hw0 Hl Hb Hr Ht. pose proof (pruned_sends _ _ Hl) as E. rewrite E in Hr, Ht. pose proof Hl as [H1 H2 _ H4 H5].
  assert (∀ t, in_window t (Send now bytes) = true → Forall (λ s, in_window t s = true → recent now s = true) (sent l)) as Hn.
  { intros t Hw. eapply Forall_impl; [exact H1|]. intros s Hs. unfold in_window, recent in *. cbn [sent_at] in *.
    rewrite !andb_true_iff, !Z.leb_le, !Z.ltb_lt in *. lia. }
  assert (∀ t, attempts_in t (sent l ++ [Send now bytes]) <= rollingRequests (hard policy) ∧
               bytes_in t (sent l ++ [Send now bytes]) <= rollingSendBytes (hard policy)) as Hbound.
  { intros t. specialize (H4 t). specialize (H5 t). unfold attempts_in, bytes_in in *. rewrite List.filter_app, length_app, total_bytes_app.
    cbn [List.filter]. destruct (in_window t (Send now bytes)) eqn:Ew.
    - destruct (narrower _ _ _ H2 (Hn t Ew)) as [N1 N2]. rewrite total_bytes_cons. cbn [length sent_bytes]. unfold total_bytes at 2. cbn [fold_left]. lia.
    - unfold total_bytes at 2. cbn [length fold_left]. lia. }
  unfold record. split; cbn [sent sends].
  - apply Forall_app. split; [done|]. constructor; [cbn; lia|constructor].
  - apply Forall_app. split; [done|]. constructor; [done|constructor].
  - assert (recent now (Send now bytes) = true) as Er by (unfold recent; cbn [sent_at]; apply Z.ltb_lt; lia).
    exists now. split; [lia|]. rewrite List.filter_app, E. cbn [List.filter]. by rewrite Er.
  - intros t. apply Hbound.
  - intros t. apply Hbound.
Qed.
End Window.

(** ** The interface of adapters *)

(** An adapter claims only rows that fit the byte budget. *)
Class OutboxAdapterLaws (W : Type) `{OutboxAdapter W} := {
  claim_fits now o w w' rows e n :
    adapter_claim now o w = (w', Ret rows) → e ∈ rows → outboxPayloadByteLength (payload e) = Ret n →
    n <= int_of (maxPayloadBytes o);
}.

Lemma byte_length_nonneg p n : outboxPayloadByteLength p = Ret n → 0 <= n.
Proof.
  unfold outboxPayloadByteLength. intros E. repeat (let x := fresh in apply bind_ret in E as (x & _ & E)).
  destruct (JsonText.json_stringify _); [|discriminate]. injection E as <-. lia.
Qed.

Lemma checked_int_VInt z : Z.abs z <= 9007199254740991 → int_of (VInt z) = z.
Proof. intros Hz. unfold int_of, safe_integer, VInt. rewrite num_int_of_Z. by rewrite (proj2 (Z.leb_le _ _)). Qed.

Lemma positive_integer_int v f z : requirePositiveInteger v f = Ret z → 0 < int_of v.
Proof.
  unfold requirePositiveInteger, int_of. destruct (safe_integer v) as [y|]; [|discriminate].
  destruct (Z.leb_spec y 0); [discriminate|]. intros _. cbn. lia.
Qed.

Lemma validated_permit `{Host} options policy u :
  validateDispatchOptions options policy = Ret u →
  0 < permit_int (vget_opt options "permit") "maxEntries" ∧ 0 < permit_int (vget_opt options "permit") "maxBytes".
Proof.
  unfold validateDispatchOptions. intros Ev. cbv zeta in Ev.
  do 3 (apply bind_ret in Ev as (? & _ & Ev)).
  apply bind_ret in Ev as (? & E1 & Ev). apply bind_ret in Ev as (? & E2 & _).
  unfold permit_int. split; by eapply positive_integer_int.
Qed.

Section Passes.
Context `{Host} {W : Type} {AW : OutboxAdapter W} {AL : OutboxAdapterLaws W} {TW : OutboxEvidenceTarget W}.
Context (env : environment) (policy : DeliverySafetyPolicy).
Hypothesis clock_forward : ∀ i, clock_at env i <= clock_at env (S i).
Hypothesis policy_safe : safe_policy policy.

Lemma window_positive : 0 < windowMs (hard policy).
Proof using policy_safe.
  pose proof (safe_ceilings _ policy_safe) as Hc. repeat rewrite Forall_cons in Hc. unfold ceiling in Hc. tauto.
Qed.

Lemma batch_ceiling : 0 < batchBytes (hard policy) <= 9007199254740991.
Proof using policy_safe.
  pose proof (safe_ceilings _ policy_safe) as Hc. repeat rewrite Forall_cons in Hc. unfold ceiling in Hc. tauto.
Qed.

(** The ledger is in order and the clock has not passed the dispatcher. *)
Definition in_order (d : dispatcher W) : Prop :=
  ∃ now, now <= clock_at env (readings d) ∧ ledger_ok policy now (ledger_of d).

Lemma in_order_read d :
  in_order d → ledger_ok policy (clock_at env (readings d)) (ledger_of d).
Proof using. intros (now & Hn & Hl). by eapply ledger_later. Qed.

(** Any later reading, with a ledger that is in order at an earlier one. *)
Lemma in_order_at now (l : ledger) n w : now <= clock_at env n → ledger_ok policy now l → in_order (Dispatcher l n w).
Proof using. intros Hn Hl. by exists now. Qed.

(** What a pass did from [d] to [d'], and the result it gave. *)
Record pass_ok (maxBytes : Z) (entries : nat) (result : OutboxDispatchResult) (d d' : dispatcher W)
    (r : exc OutboxDispatchResult) : Prop := {
  pass_order : in_order d';
  pass_sent : ∃ new, sent (ledger_of d') = sent (ledger_of d) ++ new ∧ (length new <= entries)%nat ∧
    count_bytes result + total_bytes new <= maxBytes ∧
    ∀ res, r = Ret res → count_bytes res = count_bytes result + total_bytes new ∧
      count_dispatched res + count_retried res = count_dispatched result + count_retried result + Z.of_nat (length new) ∧
      count_retried result <= count_retried res <= count_retried result + 1;
}.

(** A pass that stops before another attempt. *)
Lemma pass_stop maxBytes entries result d d' r :
  in_order d' → sent (ledger_of d') = sent (ledger_of d) → count_bytes result <= maxBytes →
  (∀ res, r = Ret res → res = result) → pass_ok maxBytes entries result d d' r.
Proof using.
  intros Ho Hs Hb Hr. split; [done|]. exists []. rewrite app_nil_r. split; [done|]. split; [cbn; lia|].
  split; [unfold total_bytes; cbn [fold_left]; lia|]. intros res ->%Hr. unfold total_bytes. cbn [fold_left length]. lia.
Qed.

Lemma prune_shrinks now t l :
  now <= t → ledger_ok policy now l →
  ledger_ok policy t (prune policy t l) ∧ (length (sends (prune policy t l)) <= length (sends l))%nat ∧
  total_bytes (sends (prune policy t l)) <= total_bytes (sends l) ∧ sent (prune policy t l) = sent l.
Proof using.
  intros Hn Hl. pose proof (ledger_later _ _ _ _ Hn Hl) as Hl'. split; [by apply ledger_prune|].
  rewrite (pruned_sends _ _ _ Hl'). pose proof Hl as [_ H2 (p & Hp & ->) _ _].
  destruct (narrower (recent policy t) (recent policy p) (sent l) H2) as [N1 N2].
  { apply Forall_forall. intros s _. unfold recent. rewrite !Z.ltb_lt. lia. }
  split; [exact N1|]. split; [exact N2|reflexivity].
Qed.

(** One more attempt, and then what the rest of the pass did. *)
Lemma pass_more maxBytes entries result result' d d1 d' r t bytes :
  sent (ledger_of d1) = sent (ledger_of d) ++ [Send t bytes] → count_bytes result' = count_bytes result + bytes →
  count_dispatched result' + count_retried result' = count_dispatched result + count_retried result + 1 →
  count_retried result' = count_retried result →
  pass_ok maxBytes entries result' d1 d' r → pass_ok maxBytes (S entries) result d d' r.
Proof using.
  intros Hs Hb Hc Hr [Ho (new & Hn & Hlen & Hmax & Hres)]. split; [done|]. exists (Send t bytes :: new).
  rewrite Hn, Hs, <- app_assoc. split; [done|]. cbn [length]. split; [lia|]. rewrite total_bytes_cons. cbn [sent_bytes].
  split; [lia|]. intros res E. destruct (Hres res E) as (H1' & H2' & H3'). lia.
Qed.

(** What the guards of a pass leave room for. *)
Record room (maxBytes remaining t : Z) (result : OutboxDispatchResult) (d : dispatcher W) : Prop := {
  room_ledger : ledger_ok policy t (ledger_of d);
  room_clock : t <= clock_at env (readings d);
  room_requests : Z.of_nat (length (sends (ledger_of d))) < rollingRequests (hard policy);
  room_window : total_bytes (sends (ledger_of d)) + remaining <= rollingSendBytes (hard policy);
  room_permit : 0 < remaining <= maxBytes - count_bytes result;
}.

Lemma remaining_budget_ok permit startedAt result d :
  in_order d →
  let '(d', r) := remaining_budget env policy permit startedAt result d in
  in_order d' ∧ sent (ledger_of d') = sent (ledger_of d) ∧
  ∀ remaining, r = Some remaining → ∃ t, room (permit_int permit "maxBytes") remaining t result d'.
Proof using clock_forward.
  destruct d as [l n w]. intros Hd. pose proof (in_order_read _ Hd) as L0. cbn [readings ledger_of] in L0.
  unfold remaining_budget, read_clock, remainingRequests, remainingBytes. cbn [ledger_of readings world].
  pose proof (clock_forward n) as C0. pose proof (clock_forward (S n)) as C1. pose proof (clock_forward (S (S n))) as C2.
  destruct (_ <=? clock_at env n - startedAt).
  { split; [eapply in_order_at; [exact C0|exact L0]|done]. }
  destruct (prune_shrinks _ _ _ C0 L0) as (L1 & N1 & T1 & S1). set (l1 := prune policy (clock_at env (S n)) l) in *. clearbody l1.
  destruct (Z.leb_spec (rollingRequests (hard policy) - Z.of_nat (length (sends l1))) 0) as [Hq|Hq].
  { split; [eapply in_order_at; [exact C1|exact L1]|done]. }
  destruct (prune_shrinks _ _ _ C1 L1) as (L2 & N2 & T2 & S2). set (l2 := prune policy (clock_at env (S (S n))) l1) in *. clearbody l2.
  split; [eapply in_order_at; [exact C2|exact L2]|]. split; [cbn; congruence|]. intros remaining E.
  destruct (Z.leb_spec (Z.min (permit_int permit "maxBytes" - count_bytes result) (rollingSendBytes (hard policy) - total_bytes (sends l2))) 0)
    as [Hm|Hm]; [discriminate|]. injection E as <-. exists (clock_at env (S (S n))).
  split; cbn [ledger_of readings]; [exact L2|exact C2|lia|lia|lia].
Qed.

Lemma claim_one_ok options index remaining d :
  in_order d →
  let '(d', r) := claim_one env policy options index remaining d in
  ledger_of d' = ledger_of d ∧ clock_at env (readings d) <= clock_at env (readings d') ∧
  ∀ e n, r = Ret (Some e) → 0 < remaining → outboxPayloadByteLength (payload e) = Ret n → n <= remaining.
Proof using clock_forward policy_safe AL.
  destruct d as [l k w]. intros Hd. unfold claim_one, read_clock. cbn [ledger_of readings world].
  destruct (dispatchLeaseId _ _ _) as [lease|msg]; [|split; [done|]; split; [cbn; lia|done]].
  destruct (adapter_claim _ _ w) as [w' claimed] eqn:Ec. split; [done|]. split; [exact (clock_forward k)|].
  intros e n E Hr Hn. destruct claimed as [[|e' rows]|]; cbn in E; [discriminate| |discriminate]. injection E as ->.
  eapply (claim_fits _ _ _ _ _ e n) in Ec; [|by left|exact Hn]. cbn [maxPayloadBytes] in Ec. pose proof batch_ceiling.
  rewrite checked_int_VInt in Ec by lia. lia.
Qed.

(** What an attempt does: one more send, and one more success or failure. *)
Lemma deliver_claimed_ok now entry bytes maxBytes remaining t result d :
  room maxBytes remaining t result d → 0 <= bytes <= remaining →
  let '(d', r) := deliver_claimed env policy now entry bytes result d in
  in_order d' ∧ sent (ledger_of d') = sent (ledger_of d) ++ [Send (clock_at env (readings d)) bytes] ∧
  (r = inl (count_success (count_sent bytes result)) ∨
   ∃ e, r = inr e ∧ ∀ res, e = Ret res → res = count_failure (count_sent bytes result)).
Proof using clock_forward policy_safe.
  destruct d as [l n w]. intros [L C Hq Hw Hp] Hb. cbn [ledger_of readings] in *.
  unfold deliver_claimed, read_clock. cbn [ledger_of readings world].
  pose proof (clock_forward n) as C0. pose proof (clock_forward (S n)) as C1. pose proof (clock_forward (S (S n))) as C2.
  assert (ledger_ok policy (clock_at env n) (record policy (clock_at env n) bytes l)) as L'.
  { destruct (prune_shrinks _ _ _ C L) as (_ & N & T & _).
    apply ledger_record; [exact window_positive|by eapply ledger_later|lia|lia|lia]. }
  destruct (attempt _ _ _ _) as [w1 [[]|error]].
  - split; [eapply in_order_at; [|exact L']; lia|]. split; [done|by left].
  - destruct (adapter_failed _ _ _ _ _ _) as [w2 failed]. split; [eapply in_order_at; [|exact L']; lia|]. split; [done|right].
    eexists. split; [done|]. by destruct failed; intros res [= <-].
Qed.

Lemma dispatch_loop_ok options startedAt entries : ∀ index result d,
  in_order d → count_bytes result <= permit_int (vget_opt options "permit") "maxBytes" →
  pass_ok (permit_int (vget_opt options "permit") "maxBytes") entries result d
    (dispatch_loop env policy options startedAt entries index result d).1
    (dispatch_loop env policy options startedAt entries index result d).2.
Proof using clock_forward policy_safe AL.
  induction entries as [|entries IH]; intros index result d Hd Hb; cbn [dispatch_loop].
  { apply pass_stop; [exact Hd|reflexivity|exact Hb|by intros res [= <-]]. }
  pose proof (remaining_budget_ok (vget_opt options "permit") startedAt result d Hd) as HB.
  destruct (remaining_budget _ _ _ _ _ d) as [d1 [remaining|]]; destruct HB as (H1 & S1 & HR);
    [|apply pass_stop; [exact H1|exact S1|exact Hb|by intros res [= <-]]].
  destruct (HR remaining eq_refl) as [t R1]. pose proof (claim_one_ok options index remaining d1 H1) as HC.
  destruct (claim_one _ _ _ _ _ d1) as [d2 claimed]. destruct HC as (E2 & C2 & HF).
  assert (room (permit_int (vget_opt options "permit") "maxBytes") remaining t result d2) as R2
    by (destruct R1; split; rewrite ?E2; solve [done|lia]).
  assert (in_order d2) as H2 by (exists t; split; [apply R2|apply R2]).
  assert (sent (ledger_of d2) = sent (ledger_of d)) as S2 by (by rewrite E2).
  destruct claimed as [[entry|]|msg]; [|apply pass_stop; [exact H2|exact S2|exact Hb|by intros res [= <-]]|by apply pass_stop].
  destruct (outboxPayloadByteLength (payload entry)) as [bytes|msg] eqn:Eb; [|by apply pass_stop].
  assert (0 <= bytes <= remaining) as Hfit by (split; [by eapply byte_length_nonneg|by eapply HF; [done|apply R2|]]).
  pose proof (room_permit _ _ _ _ _ R2) as Hp.
  pose proof (deliver_claimed_ok (vget_opt options "now") entry bytes _ _ _ _ _ R2 Hfit) as HD.
  destruct (deliver_claimed _ _ _ _ _ _ d2) as [d3 r]. destruct HD as (H3 & S3 & [->|(e & -> & He)]).
  - eapply pass_more; [by rewrite S3, S2|..|apply IH; [exact H3|]]; cbn; lia.
  - split; [exact H3|]. eexists. cbn [fst snd]. rewrite S3, S2. split; [done|]. cbn [length]. split; [lia|].
    rewrite total_bytes_cons. unfold total_bytes. cbn [fold_left sent_bytes]. split; [lia|]. intros res ->%He. cbn. lia.
Qed.

Lemma dispatchBatch_ok options d :
  in_order d →
  let permit := permit_int (vget_opt options "permit") in
  (∃ msg, dispatchBatch env policy options d = (d, Throw msg)) ∨
  pass_ok (permit "maxBytes") (Z.to_nat (permit "maxEntries")) emptyDispatchResult d
    (dispatchBatch env policy options d).1 (dispatchBatch env policy options d).2.
Proof using clock_forward policy_safe AL.
  intros Hd. cbv zeta. unfold dispatchBatch. destruct (validateDispatchOptions options policy) as [[]|msg] eqn:Ev; [right|left; by exists msg].
  unfold read_clock. pose proof (in_order_read _ Hd) as L0. pose proof (clock_forward (readings d)) as C0.
  destruct (validated_permit _ _ _ Ev) as [_ Hm].
  pose proof (dispatch_loop_ok options (clock_at env (readings d)) (Z.to_nat (permit_int (vget_opt options "permit") "maxEntries")) 0
    emptyDispatchResult (Dispatcher (ledger_of d) (S (readings d)) (world d)) (in_order_at _ _ _ _ C0 L0) ltac:(cbn; lia)) as [Ho Hs].
  by split.
Qed.

Lemma passes_in_order batches : ∀ d, in_order d → in_order (passes env policy batches d).
Proof using clock_forward policy_safe AL.
  unfold passes. induction batches as [|options batches IH]; intros d Hd; cbn [fold_left]; [done|]. apply IH.
  destruct (dispatchBatch_ok options d Hd) as [[msg ->]|[Ho _]]; done.
Qed.
End Passes.
