(* ===== verification/Delivery.v ===== *)
(** * Delivery from the file outbox

    The dispatcher over the file adapter: the adapter keeps its promise to the
    dispatcher, a row is settled only after the target has all of it, and the
    theorems on the load of a dispatcher. *)

From S2P Require Import Prelude Regex JsNum JsVal Dates JsonText Event DeliverySafety Outbox OutboxFile.
From S2P Require Import OutboxHistory OutboxSafety Dispatcher DispatchBounds.

#[local] Open Scope Z_scope.

(** ** The file adapter as the dispatcher sees it *)

(** The snapshot of the outbox and the state of the target. *)
Record file_world (T : Type) := FileWorld { outbox_file : list OutboxStoredEntry; target_state : T }.
Arguments FileWorld {T}.
Arguments outbox_file {T}.
Arguments target_state {T}.

(** An operation on the snapshot: one that throws leaves it. *)
Definition on_file {T A B} (op : list OutboxStoredEntry → exc (list OutboxStoredEntry * A)) (result : A → B)
    (w : file_world T) : file_world T * exc B :=
  match op (outbox_file w) with
  | Ret (f, a) => (FileWorld f (target_state w), Ret (result a))
  | Throw msg => (w, Throw msg)
  end.

Definition on_target {T} (send_one : val → T → T * (unit + js_error)) (m : val) (w : file_world T)
    : file_world T * (unit + js_error) :=
  let '(t, r) := send_one m (target_state w) in (FileWorld (outbox_file w) t, r).

#[export] Instance file_adapter `{Host} `{Locale} {T} : OutboxAdapter (file_world T) := {|
  adapter_claim now o := on_file (claimDispatchable now o) id;
  adapter_dispatched now id o := on_file (markDispatched now (VStr id) o) (λ _, tt);
  adapter_failed now uuid id error o := on_file (markFailed now uuid (VStr id) error o) (λ _, tt);
|}.

#[export] Instance file_target {T} `{OutboxEvidenceTarget T} : OutboxEvidenceTarget (file_world T) := {|
  target_event := on_target target_event;
  target_edge := on_target target_edge;
|}.

Lemma on_file_ret {T A B} op (result : A → B) (w w' : file_world T) r :
  on_file op result w = (w', r) →
  (∃ a, op (outbox_file w) = Ret (outbox_file w', a) ∧ target_state w' = target_state w ∧ r = Ret (result a)) ∨
  w' = w ∧ is_ret r = false.
Proof. unfold on_file. destruct (op _) as [[f a]|msg]; intros [= <- <-]; [left; by exists a|by right]. Qed.

(** The bytes of a row are part of the bytes of its rows. *)
Lemma payload_bytes_elem l b e n :
  payload_bytes l = Ret b → e ∈ l → outboxPayloadByteLength (payload e) = Ret n → 0 <= n <= b.
Proof.
  revert b. induction l as [|x l IH]; intros b Eb He En; [by apply elem_of_nil in He|]. cbn [payload_bytes] in Eb.
  apply bind_ret in Eb as (c & Ec & Eb). apply bind_ret in Eb as (d & Ed & Eb). injection Eb as <-.
  pose proof (byte_length_nonneg _ _ Ec). assert (0 <= d).
  { clear -Ed. revert d Ed. induction l as [|y l IH]; intros d; cbn [payload_bytes]; [intros [= <-]; lia|].
    intros (u & Eu & E)%bind_ret. apply bind_ret in E as (v & Ev & E). injection E as <-.
    pose proof (byte_length_nonneg _ _ Eu). specialize (IH _ Ev). lia. }
  pose proof (byte_length_nonneg _ _ En). apply elem_of_cons in He as [->|He]; [|specialize (IH _ Ed He En); lia].
  assert (c = n) as -> by congruence. lia.
Qed.

#[export] Instance file_adapter_laws `{Host} `{Locale} {T} : OutboxAdapterLaws (file_world T).
Proof.
  split. intros now o w w' rows e n E He En.
  apply on_file_ret in E as [(claims & Ec & _ & [= ->])|[_ Er]]; [|done].
  apply claimDispatchable_ret in Ec as (s & leased & _ & _ & Hr). pose proof Hr as [[_ _ (b & Eb & Hb) _ _ _] Hcl _].
  rewrite Hcl in He. apply list_elem_of_fmap in He as ([j y] & -> & Hin).
  apply list_elem_of_fmap in Hin as ([k x] & [= -> ->] & Hin). cbn [payload lease_entry] in En.
  destruct Hb as [->|Hb]; [by apply elem_of_nil in Hin|].
  assert (x ∈ leased.*2) as Hx by (apply list_elem_of_fmap; by exists (k, x)).
  pose proof (payload_bytes_elem _ _ _ _ Eb Hx En). lia.
Qed.

(** ** Settlement follows delivery *)

(** A row is settled once the target has its payload, in the sense of [has], which
    no call of the target takes back. *)
Section Settled.
Context `{HH : Host} `{LL : Locale} {T : Type} (has : T → val → Prop).

Definition later (t t' : T) : Prop := ∀ p, has t p → has t' p.

(** Rows have distinct ids, and the target has the payloads of settled rows. *)
Record settled (w : file_world T) : Prop := {
  ids_distinct : NoDup (entry_id <$> outbox_file w);
  settled_has e : e ∈ outbox_file w → status e = dispatched → has (target_state w) (payload e);
}.

(** Changes that settle nothing, or only what the target has. *)
Lemma changes_settled P f f' t t' :
  settled (FileWorld f t) → later t t' → changes P f f' →
  (∀ e e', e ∈ f → P e e' → status e' = dispatched → has t' (payload e')) →
  settled (FileWorld f' t').
Proof.
  intros [Hn Hs] Ht Hc HP. cbn [outbox_file target_state] in *. split; cbn [outbox_file target_state].
  - by eapply changes_ids.
  - destruct Hc as [_ Hc]. intros e' He' Hd. destruct (Hc _ He') as [He|(e & He & Hp)]; [|by eapply HP].
    by apply Ht, Hs.
Qed.

(** A target that goes on settles nothing. *)
Lemma target_settled w w' : settled w → outbox_file w' = outbox_file w → later (target_state w) (target_state w') → settled w'.
Proof.
  destruct w as [f t], w' as [f' t']. cbn [outbox_file target_state]. intros Hw -> Ht.
  eapply changes_settled; [exact Hw|exact Ht|apply (changes_refl (λ _ _, False))|done].
Qed.

Lemma same_id_same_row (f : list OutboxStoredEntry) e e' :
  NoDup (entry_id <$> f) → e ∈ f → e' ∈ f → entry_id e = entry_id e' → e = e'.
Proof.
  intros Hn He He' E. apply list_elem_of_lookup in He as [i Hi], He' as [j Hj].
  assert (i = j) as ->; [|congruence].
  eapply (NoDup_lookup (entry_id <$> f)); [done|by rewrite list_lookup_fmap, Hi|by rewrite list_lookup_fmap, Hj, E].
Qed.

Lemma claim_settled now o w w' r :
  adapter_claim now o w = (w', r) → settled w →
  settled w' ∧ ∀ rows, r = Ret rows → rows ⊆ outbox_file w'.
Proof.
  intros E Hw. apply on_file_ret in E as [(claims & Ec & Et & ->)|[-> Er]]; [|split; [done|by intros rows ->]].
  apply claimDispatchable_ret in Ec as (s & leased & _ & _ & Hr). split.
  - destruct w as [f t], w' as [f' t']. cbn [outbox_file target_state] in *. subst t'.
    eapply changes_settled; [exact Hw|by intros p|by eapply claim_changes|]. intros e e' _ (_ & _ & ->). done.
  - intros rows [= <-]. by eapply claims_stored.
Qed.

(** A row may be marked once the target has it. *)
Lemma mark_settled now at_ entry lease w w' r :
  adapter_dispatched now (entry_id entry) (SettleOptions lease at_) w = (w', r) → settled w → entry ∈ outbox_file w →
  has (target_state w) (payload entry) → settled w'.
Proof.
  intros E Hw He Hh. apply on_file_ret in E as [(row & Ed & Et & _)|[-> _]]; [|done].
  apply markDispatched_ret in Ed as (i & s & found & [= <-] & Ef & _ & _ & _ & Ew).
  destruct w as [f t], w' as [f' t']. cbn [outbox_file target_state] in *. subst f' t'.
  eapply (changes_settled (λ e e', e' = settle s e ∧ entry_id e = entry_id entry));
    [exact Hw|by intros p|by eapply update_changes; [by repeat split|exact Ef|done]|].
  intros e e' Hin [-> Eid] _. cbn [settle payload].
  by rewrite (same_id_same_row _ e entry (ids_distinct _ Hw) Hin He Eid).
Qed.

Lemma failed_settled now uuid id error o w w' r :
  adapter_failed now uuid id error o w = (w', r) → settled w → settled w'.
Proof.
  intros E Hw. apply on_file_ret in E as [(row & Ef & Et & _)|[-> _]]; [|done].
  apply markFailed_ret in Ef as (i & s & d & av & found & _ & Ef & _ & _ & _ & _ & _ & Ew).
  destruct w as [f t], w' as [f' t']. cbn [outbox_file target_state] in *. subst f' t'.
  eapply (changes_settled (λ e e', e' = failed s (errorMessage error) uuid d av (fail_circuitId o) e));
    [exact Hw|by intros p|eapply update_changes; [by intros e; destruct d; repeat split|exact Ef|done]|].
  intros e e' _ ->. by destruct d.
Qed.
End Settled.
Arguments settled {T} has w.

(** Everything a payload asks the target to record. *)
Definition evidence_of (p : val) : list val := members_of p "records" ++ members_of p "edges".

(** A target with a record of what it accepted, which it does not forget. *)
Class EvidenceTargetLaws (T : Type) `{OutboxEvidenceTarget T} (received : T → list val) := {
  event_recorded m t t' r : target_event m t = (t', r) → received t ⊆ received t' ∧ (r = inl tt → m ∈ received t');
  edge_recorded m t t' r : target_edge m t = (t', r) → received t ⊆ received t' ∧ (r = inl tt → m ∈ received t');
}.

Section Settlement.
Context `{HH : Host} `{LL : Locale} {T : Type} {TT : OutboxEvidenceTarget T} {received : T → list val}
  {TL : EvidenceTargetLaws T received}.
Context (env : environment) (policy : DeliverySafetyPolicy).

Definition has_evidence (t : T) (p : val) : Prop := evidence_of p ⊆ received t.

Lemma deliver_received (send_one : val → T → T * (unit + js_error)) members :
  (∀ m t t' r, send_one m t = (t', r) → received t ⊆ received t' ∧ (r = inl tt → m ∈ received t')) →
  ∀ w w' r, deliver (on_target send_one) members w = (w', r) →
  outbox_file w' = outbox_file w ∧ received (target_state w) ⊆ received (target_state w') ∧
  (r = inl tt → members ⊆ received (target_state w')).
Proof.
  intros Hs. induction members as [|m members IH]; intros w w' r E; cbn [deliver] in E.
  { injection E as <- <-. split; [done|]. split; [done|]. by intros _ x ?%elem_of_nil. }
  unfold on_target in E at 1. destruct (send_one m (target_state w)) as [t r1] eqn:E1.
  destruct (Hs _ _ _ _ E1) as [S1 M1]. destruct r1 as [[]|e].
  - destruct (IH _ _ _ E) as (F & S2 & M2). cbn [outbox_file target_state] in *. split; [done|]. split; [by etrans|].
    intros Hr x [->|Hx]%elem_of_cons; [by apply S2, M1|by apply M2].
  - injection E as <- <-. done.
Qed.

Lemma dispatchOutboxEntry_received p w w' r :
  dispatchOutboxEntry p w = (w', r) →
  outbox_file w' = outbox_file w ∧ received (target_state w) ⊆ received (target_state w') ∧
  (r = inl tt → evidence_of p ⊆ received (target_state w')).
Proof using TL.
  unfold dispatchOutboxEntry. destruct (validatePayload p None) as [[]|msg]; [|intros [= <- <-]; done].
  destruct (deliver target_event _ w) as [w1 r1] eqn:E1.
  apply (deliver_received _ _ event_recorded) in E1 as (F1 & S1 & M1). destruct r1 as [[]|e]; [|intros [= <- <-]; done].
  intros E2. apply (deliver_received _ _ edge_recorded) in E2 as (F2 & S2 & M2).
  split; [congruence|]. split; [by etrans|]. intros Hr x [Hx|Hx]%elem_of_app; [by apply S2, M1|by apply M2].
Qed.

Lemma attempt_settled now at_ entry w w' r :
  attempt now at_ entry w = (w', r) → settled has_evidence w → entry ∈ outbox_file w → settled has_evidence w'.
Proof using TL.
  unfold attempt. intros E Hw He. destruct (dispatchOutboxEntry (payload entry) w) as [w1 r1] eqn:E1.
  apply dispatchOutboxEntry_received in E1 as (F1 & S1 & M1).
  assert (settled has_evidence w1) as H1 by (apply (target_settled _ w); [done|done|intros p Hp x Hx; by apply S1, Hp]).
  destruct r1 as [[]|e]; [|by injection E as <- _].
  destruct (adapter_dispatched now (entry_id entry) _ w1) as [w2 r2] eqn:E2.
  assert (settled has_evidence w2) as H2; [|by destruct r2; injection E as <- _].
  eapply mark_settled; [exact E2|exact H1|by rewrite F1|by apply M1].
Qed.

Lemma remaining_budget_world permit startedAt result (d : dispatcher (file_world T)) :
  world (remaining_budget env policy permit startedAt result d).1 = world d.
Proof.
  unfold remaining_budget, read_clock, remainingRequests, remainingBytes. cbv zeta.
  repeat (destruct (_ <=? _); [done|]). done.
Qed.

Lemma deliver_claimed_settled now entry bytes result (d : dispatcher (file_world T)) :
  settled has_evidence (world d) → entry ∈ outbox_file (world d) →
  settled has_evidence (world (deliver_claimed env policy now entry bytes result d).1).
Proof using TL.
  intros Hw He. unfold deliver_claimed, read_clock. cbn [ledger_of readings world].
  destruct (attempt _ _ entry _) as [w1 r1] eqn:E1. apply attempt_settled in E1; [|done|done].
  destruct r1 as [[]|e]; [done|]. destruct (adapter_failed _ _ _ _ _ w1) as [w2 r2] eqn:E2.
  apply (failed_settled has_evidence) in E2; [|done]. done.
Qed.

Lemma dispatch_loop_settled options startedAt entries : ∀ index result (d : dispatcher (file_world T)),
  settled has_evidence (world d) → settled has_evidence (world (dispatch_loop env policy options startedAt entries index result d).1).
Proof using TL.
  induction entries as [|entries IH]; intros index result d Hw; cbn [dispatch_loop]; [done|].
  pose proof (remaining_budget_world (vget_opt options "permit") startedAt result d) as E1.
  destruct (remaining_budget _ _ _ _ _ d) as [d1 [remaining|]]; cbn [fst] in E1; [|by rewrite <- E1 in Hw].
  rewrite <- E1 in Hw. clear E1. unfold claim_one, read_clock. cbn [ledger_of readings world].
  destruct (dispatchLeaseId _ _ _) as [lease|msg]; [|done].
  destruct (adapter_claim _ _ (world d1)) as [w2 r2] eqn:E2. apply (claim_settled has_evidence) in E2 as [H2 Hst]; [|done].
  destruct r2 as [[|entry rows]|msg]; cbn [mbind exc_mbind head]; [done| |done].
  destruct (outboxPayloadByteLength _) as [bytes|msg]; [|done].
  match goal with |- context [deliver_claimed _ _ ?n _ _ _ ?d0] =>
    pose proof (deliver_claimed_settled n entry bytes result d0 H2 (Hst _ eq_refl entry ltac:(by left))) as H3;
    destruct (deliver_claimed _ _ n entry bytes result d0) as [d3 [res|res]] end; [by apply IH|done].
Qed.

Lemma passes_settled batches : ∀ d : dispatcher (file_world T),
  settled has_evidence (world d) → settled has_evidence (world (passes env policy batches d)).
Proof using TL.
  unfold passes. induction batches as [|options batches IH]; intros d Hd; cbn [fold_left]; [done|]. apply IH.
  unfold dispatchBatch. destruct (validateDispatchOptions options policy); [|done].
  unfold read_clock. by apply dispatch_loop_settled.
Qed.
End Settlement.

(** ** Properties *)

Lemma start_in_order {W} env policy (w : W) : safe_policy policy → in_order env policy (Dispatcher createRollingWindowLedger 0 w).
Proof.
  intros Hs. exists (clock_at env 0). split; [reflexivity|]. pose proof (safe_ceilings _ Hs) as Hf.
  repeat rewrite Forall_cons in Hf. unfold ceiling in Hf. apply ledger_start; lia.
Qed.

(** No loop of passes can outrun the policy: whatever permits the passes of a
    dispatcher have and whatever adapters and targets do, in every window of the
    policy's length (the clock not going back) it makes at most
    [rollingRequests] attempts with at most [rollingSendBytes] bytes. *)
Theorem window_never_exceeded `{Host} {W} {AW : OutboxAdapter W} {AL : OutboxAdapterLaws W} {TW : OutboxEvidenceTarget W}
    env v policy batches (w : W) t :
  (∀ i, clock_at env i <= clock_at env (S i)) → parseDeliverySafetyPolicy v = Ret policy →
  let made := sent (ledger_of (passes env policy batches (Dispatcher createRollingWindowLedger 0 w))) in
  attempts_in policy t made <= rollingRequests (hard policy) ∧ bytes_in policy t made <= rollingSendBytes (hard policy).
Proof.
  intros Hc Hp made. pose proof (parsed_policy_safe _ _ Hp) as Hs.
  pose proof (start_in_order env policy w Hs) as H0.
  destruct (passes_in_order env policy Hc Hs batches _ H0) as (now & _ & [_ _ _ Ha Hb]). by split.
Qed.

(** A pass stays within its permit and reports what it did: it makes at most
    [maxEntries] attempts with at most [maxBytes] bytes; every attempt is counted
    as delivered or retried, the bytes are those of its attempts, and it ends
    after its first failure. *)
Theorem pass_within_permit `{Host} {W} {AW : OutboxAdapter W} {AL : OutboxAdapterLaws W} {TW : OutboxEvidenceTarget W}
    env v policy batches (w : W) options d d' res :
  (∀ i, clock_at env i <= clock_at env (S i)) → parseDeliverySafetyPolicy v = Ret policy →
  d = passes env policy batches (Dispatcher createRollingWindowLedger 0 w) →
  dispatchBatch env policy options d = (d', Ret res) →
  ∃ new, sent (ledger_of d') = sent (ledger_of d) ++ new ∧
    Z.of_nat (length new) <= permit_int (vget_opt options "permit") "maxEntries" ∧
    count_bytes res = total_bytes new ∧ total_bytes new <= permit_int (vget_opt options "permit") "maxBytes" ∧
    count_dispatched res + count_retried res = Z.of_nat (length new) ∧ 0 <= count_retried res <= 1.
Proof.
  intros Hc Hp -> E. pose proof (parsed_policy_safe _ _ Hp) as Hs.
  pose proof (start_in_order env policy w Hs) as H0.
  destruct (dispatchBatch_ok env policy Hc Hs options _ (passes_in_order env policy Hc Hs batches _ H0)) as [[msg E']|Hok];
    [by rewrite E in E'|].
  rewrite E in Hok. destruct Hok as [_ (new & Hn & Hlen & Hb & Hres)]. exists new. cbn [fst snd] in *. split; [done|].
  destruct (Hres res eq_refl) as (B & C & D). cbn in Hb, B, C, D.
  assert (0 < permit_int (vget_opt options "permit") "maxEntries") as Hm.
  { unfold dispatchBatch in E. destruct (validateDispatchOptions options policy) eqn:Ev; [|discriminate].
    exact (proj1 (validated_permit _ _ _ Ev)). }
  split_and!; lia.
Qed.

(** C32. Nothing is settled before it is delivered: over the file outbox, whatever
    passes run, every row that is marked as dispatched has all its records and
    edges recorded by the target, in spite of targets that fail halfway. *)
Theorem settled_after_delivery `{Host} `{Locale} {T} {TT : OutboxEvidenceTarget T} received
    {TL : EvidenceTargetLaws T received} env policy batches (d : dispatcher (file_world T)) e :
  NoDup (entry_id <$> outbox_file (world d)) →
  (∀ e, e ∈ outbox_file (world d) → status e = dispatched → evidence_of (payload e) ⊆ received (target_state (world d))) →
  let w' := world (passes env policy batches d) in
  e ∈ outbox_file w' → status e = dispatched → evidence_of (payload e) ⊆ received (target_state w').
Proof.
  intros Hn Hs w'. apply (settled_has (has_evidence (received := received))), passes_settled. by split.
Qed.

(** ** Witnesses *)

#[local] Existing Instance demo_dates.
#[local] Existing Instance demo_host.
#[local] Existing Instance demo_locale.

(** A target that records everything. *)
#[local] Instance demo_target : OutboxEvidenceTarget (list val) := {|
  target_event m t := (m :: t, inl tt);
  target_edge m t := (m :: t, inl tt);
|}.

#[local] Instance demo_target_laws : EvidenceTargetLaws (list val) id.
Proof. split; intros m t t' r [= <- <-]; (split; [intros x Hx; by right|intros _; by left]). Qed.

Definition demo_environment : environment := Environment (λ i, Z.of_nat i) (λ _, "00000000-0000-4000-8000-000000000000").

Definition demo_record : val := VObj [("scope", VObj [("tenantId", VStr "t")])].
Definition demo_evidence_row : OutboxStoredEntry :=
  Entry "e1" "t" (VObj [("schemaVersion", VStr "2026-06-23"); ("mutationBinding", VStr "best_effort");
                        ("records", VArr [demo_record]); ("edges", VArr [])])
    "1970-01-01T00:00:00.000Z" pending 0 "1970-01-01T00:00:00.000Z" "1970-01-01T00:00:00.000Z" None None None None None.

Definition demo_options : val :=
  VObj [("tenantId", VStr "t");
        ("permit", VObj [("kind", VStr "automatic"); ("maxEntries", VInt 1); ("maxBytes", VInt 1000);
                         ("maxElapsedMs", VInt 100); ("leaseMs", VInt 1000)])].

Definition demo_start : dispatcher (file_world (list val)) :=
  Dispatcher createRollingWindowLedger 0 (FileWorld [demo_evidence_row] []).

Definition demo_pass := dispatchBatch demo_environment DEFAULT_DELIVERY_SAFETY_POLICY demo_options demo_start.

Lemma demo_pass_result : demo_pass.2 = Ret (DispatchResult 1 0 0 0 50).
Proof. vm_compute. reflexivity. Qed.

Lemma window_never_exceeded_witness :
  let made := sent (ledger_of (passes demo_environment DEFAULT_DELIVERY_SAFETY_POLICY [demo_options; demo_options]
                                 (Dispatcher createRollingWindowLedger 0 (FileWorld [demo_evidence_row] [])))) in
  attempts_in DEFAULT_DELIVERY_SAFETY_POLICY 0 made <= 30 ∧ bytes_in DEFAULT_DELIVERY_SAFETY_POLICY 0 made <= 2 * 1024 * 1024.
Proof.
  apply (window_never_exceeded demo_environment VUndef DEFAULT_DELIVERY_SAFETY_POLICY [demo_options; demo_options]
    (FileWorld [demo_evidence_row] ([] : list val)) 0); [intros i; cbn [clock_at demo_environment]; lia|reflexivity].
Defined.

Lemma pass_within_permit_witness :
  ∃ new, sent (ledger_of demo_pass.1) = sent (ledger_of demo_start) ++ new ∧
    Z.of_nat (length new) <= permit_int (vget_opt demo_options "permit") "maxEntries" ∧
    50 = total_bytes new ∧ total_bytes new <= permit_int (vget_opt demo_options "permit") "maxBytes" ∧
    1 + 0 = Z.of_nat (length new) ∧ 0 <= 0 <= 1.
Proof.
  apply (pass_within_permit demo_environment VUndef DEFAULT_DELIVERY_SAFETY_POLICY [] (FileWorld [demo_evidence_row] ([] : list val))
    demo_options demo_start demo_pass.1 (DispatchResult 1 0 0 0 50));
    [intros i; cbn [clock_at demo_environment]; lia|reflexivity|reflexivity|].
  rewrite <- demo_pass_result. unfold demo_pass. by destruct (dispatchBatch _ _ _ _).
Defined.

Lemma settled_after_delivery_witness :
  evidence_of (payload demo_evidence_row) ⊆
    target_state (world (passes demo_environment DEFAULT_DELIVERY_SAFETY_POLICY [demo_options] demo_start)).
Proof.
  apply (settled_after_delivery (λ t : list val, t) demo_environment DEFAULT_DELIVERY_SAFETY_POLICY [demo_options] demo_start
    (settle "1970-01-01T00:00:00.006Z" (lease_entry "1970-01-01T00:00:00.004Z" "" "1970-01-01T00:00:01.004Z" demo_evidence_row)) (TL := demo_target_laws)).
  - cbn. apply NoDup_singleton.
  - intros e [->|He]%elem_of_cons; [discriminate|by apply elem_of_nil in He].
  - vm_compute. left.
  - reflexivity.
Defined.
