(* ===== verification/HostCalls.v ===== *)
(** * Programs that call their host

    The retention coordinator is code between calls: to the object store, the
    audit store, the lease and fences of the host, its signing callbacks and its
    clock. A program is the tree of its calls and of what it does with each
    answer, so a theorem about all answers is a theorem about every host, every
    failure and every moment of a crash. *)

From S2P Require Import Prelude JsVal.

(** What a call can throw: whether it is a [TypeError] matters to [verifyEpoch]. *)
Inductive thrown := TypeError (msg : string) | OtherError (msg : string).

(** A call returns or throws. *)
Definition outcome (A : Type) : Type := A + thrown.

Inductive call :=
| GetObject (key : string)
| PutObject (key : string) (body : list Z)
| ListObjects (prefix : string)
| DeleteObject (key : string)
| ListCheckpoints (tenantId : val)
| ListDispositions (tenantId : val)
| GetChainState (tenantId : val)
| CompactRange (tenantId checkpoint expected fence : val)
| PrepareDisposition (tenantId checkpointHash attempt fence : val)
| ConfirmDisposition (tenantId receipt attemptId fence : val)
| CreateCheckpoint (input : val)
| CreateDisposition (input : val)
| ResolveDisposedAt (context : val)
| EnterLease | LeaveLease
| EnterFence (version : val) | LeaveFence (version : val).

Definition reply (c : call) : Type :=
  match c with
  | GetObject _ => option (list Z)
  | ListObjects _ => list string
  | ListCheckpoints _ | ListDispositions _ => list val
  | GetChainState _ | PrepareDisposition _ _ _ _ => val
  | CreateCheckpoint _ | CreateDisposition _ | ResolveDisposedAt _ => val
  | PutObject _ _ | DeleteObject _ | CompactRange _ _ _ _ | ConfirmDisposition _ _ _ _ => unit
  | EnterLease | LeaveLease | EnterFence _ | LeaveFence _ => unit
  end.

Inductive prog (A : Type) : Type :=
| Done (r : outcome A)
| Call (c : call) (k : outcome (reply c) → prog A).
Arguments Done {A}.
Arguments Call {A}.

#[export] Instance prog_ret : MRet prog := λ A a, Done (inl a).
#[export] Instance prog_bind : MBind prog := λ A B f,
  fix bind p := match p with
                | Done (inl a) => f a
                | Done (inr e) => Done (inr e)
                | Call c k => Call c (λ r, bind (k r))
                end.

(** One call, whose exception is the program's. *)
Definition ask (c : call) : prog (reply c) := Call c Done.

(** Code of the program itself throws [TypeError]s. *)
Definition run {A} (m : exc A) : prog A :=
  match m with Ret a => Done (inl a) | Throw msg => Done (inr (TypeError msg)) end.

Definition require (b : bool) (msg : string) : prog unit := run (guard_exc b msg).

(** [try { ... } catch (error) { ... }] *)
Fixpoint try_catch {A} (handler : thrown → prog A) (p : prog A) : prog A :=
  match p with
  | Done (inl a) => Done (inl a)
  | Done (inr e) => handler e
  | Call c k => Call c (λ r, try_catch handler (k r))
  end.

(** A host runner: it enters, or refuses by throwing; runs the operation once; and
    leaves when the operation has returned or thrown. *)
Definition bracket {A} (enter leave : call) (p : prog A) : prog A :=
  Call enter (λ r, match r with
                   | inl _ => (a ← try_catch (λ e, Call leave (λ _, Done (inr e))) p; _ ← ask leave; mret a)
                   | inr e => Done (inr e)
                   end).

(** ** Runs *)

Inductive event := Event (c : call) (r : outcome (reply c)).

Definition call_of (e : event) : call := match e with Event c _ => c end.

(** The first calls of a run of [p] are [t]; the run may stop at any moment. *)
Fixpoint performs {A} (p : prog A) (t : list event) : Prop :=
  match t, p with
  | [], _ => True
  | e :: t, Call c k => ∃ r, e = Event c r ∧ performs (k r) t
  | _ :: _, Done _ => False
  end.

(** The whole run of [p] has the calls [t] and the outcome [o]. *)
Fixpoint completes {A} (p : prog A) (t : list event) (o : outcome A) : Prop :=
  match t, p with
  | [], Done r => r = o
  | e :: t, Call c k => ∃ r, e = Event c r ∧ completes (k r) t o
  | _, _ => False
  end.

(** The runs of programs one after another, and under a handler. *)
Lemma completes_bind {A B} (p : prog A) (f : A → prog B) : ∀ t o, completes (p ≫= f) t o →
  (∃ t1 t2 a, t = t1 ++ t2 ∧ completes p t1 (inl a) ∧ completes (f a) t2 o) ∨ ∃ e, completes p t (inr e) ∧ o = inr e.
Proof.
  induction p as [[a|e]|c k IH]; intros t o Ht.
  - left. by exists [], t, a.
  - right. exists e. destruct t; [|done]. cbn in Ht. by subst o.
  - destruct t as [|ev t]; [done|]. destruct Ht as (r & -> & Ht). destruct (IH r t o Ht) as [(t1 & t2 & a & -> & H1 & H2)|(e & H1 & ->)].
    + left. exists (Event c r :: t1), t2, a. split; [done|]. split; [by exists r|done].
    + right. exists e. split; [by exists r|done].
Qed.

Lemma completes_try {A} handler (p : prog A) : ∀ t o, completes (try_catch handler p) t o →
  (∃ a, completes p t (inl a) ∧ o = inl a) ∨ ∃ t1 t2 e, t = t1 ++ t2 ∧ completes p t1 (inr e) ∧ completes (handler e) t2 o.
Proof.
  induction p as [[a|e]|c k IH]; intros t o Ht.
  - left. exists a. destruct t; [|done]. cbn in Ht. by subst o.
  - right. by exists [], t, e.
  - destruct t as [|ev t]; [done|]. destruct Ht as (r & -> & Ht). destruct (IH r t o Ht) as [(a & H1 & ->)|(t1 & t2 & e & -> & H1 & H2)].
    + left. exists a. split; [by exists r|done].
    + right. exists (Event c r :: t1), t2, e. split; [done|]. split; [by exists r|done].
Qed.

Lemma completes_run {A} (m : exc A) t a : completes (run m) t (inl a) → t = [] ∧ m = Ret a.
Proof. destruct t, m; try done. by intros [= ->]. Qed.

Lemma completes_bind_ret {A B} (p : prog A) (f : A → prog B) t b : completes (p ≫= f) t (inl b) →
  ∃ t1 t2 a, t = t1 ++ t2 ∧ completes p t1 (inl a) ∧ completes (f a) t2 (inl b).
Proof. by intros [?|(e & _ & [=])]%completes_bind. Qed.

Lemma completes_ask c t o : completes (ask c) t o → t = [Event c o].
Proof. destruct t as [|ev [|? ?]]; [done|by intros (r & -> & [= ->])|by intros (r & _ & ?)]. Qed.

(** ** A program logic over what has happened *)

Section Logic.
Context (P : list event → call → Prop).

(** After [t], [p] makes only calls that [P] allows, and ends in [Q]. *)
Fixpoint wp {A} (t : list event) (p : prog A) (Q : list event → outcome A → Prop) : Prop :=
  match p with
  | Done r => Q t r
  | Call c k => P t c ∧ ∀ r, wp (t ++ [Event c r]) (k r) Q
  end.

Lemma wp_mono {A} (p : prog A) : ∀ t (Q Q' : list event → outcome A → Prop),
  (∀ t' r, Q t' r → Q' t' r) → wp t p Q → wp t p Q'.
Proof.
  induction p as [r|c k IH]; intros t Q Q' HQ Hp; cbn [wp] in *; [by apply HQ|].
  destruct Hp as [Hc Hk]. split; [done|]. intros r. by eapply IH.
Qed.

Lemma wp_bind {A B} (p : prog A) (f : A → prog B) : ∀ t Q,
  wp t p (λ t' r, match r with inl a => wp t' (f a) Q | inr e => Q t' (inr e) end) → wp t (p ≫= f) Q.
Proof.
  induction p as [[a|e]|c k IH]; intros t Q Hp; cbn [wp] in *; [exact Hp|exact Hp|].
  destruct Hp as [Hc Hk]. split; [done|]. intros r. apply IH, Hk.
Qed.

Lemma wp_try {A} handler (p : prog A) : ∀ t Q,
  wp t p (λ t' r, match r with inl a => Q t' (inl a) | inr e => wp t' (handler e) Q end) → wp t (try_catch handler p) Q.
Proof.
  induction p as [[a|e]|c k IH]; intros t Q Hp; cbn [wp try_catch] in *; [exact Hp|exact Hp|].
  destruct Hp as [Hc Hk]. split; [done|]. intros r. apply IH, Hk.
Qed.

Lemma wp_run {A} (m : exc A) t (Q : list event → outcome A → Prop) :
  (∀ a, m = Ret a → Q t (inl a)) → (∀ e, Q t (inr e)) → wp t (run m) Q.
Proof. intros H1 H2. destruct m as [a|msg]; cbn [run wp]; [by apply H1|apply H2]. Qed.

Lemma wp_ask c t (Q : list event → outcome (reply c) → Prop) :
  P t c → (∀ r, Q (t ++ [Event c r]) r) → wp t (ask c) Q.
Proof. intros H1 H2. split; [done|]. intros r. apply H2. Qed.

(** A run of a program makes only allowed calls. *)
Lemma wp_performs {A} t' : ∀ (p : prog A) Q t c r t'',
  wp t p Q → performs p (t' ++ Event c r :: t'') → P (t ++ t') c.
Proof.
  induction t' as [|e t' IH]; intros [o|c' k] Q t c r t'' Hp Hr; cbn [app performs wp] in *; try done.
  - destruct Hr as (r' & E & _), Hp as [Hc _]. apply (f_equal call_of) in E. cbn [call_of] in E. subst c'.
    by rewrite app_nil_r.
  - destruct Hr as (r' & -> & Hr), Hp as [_ Hk]. specialize (IH _ _ _ _ _ _ (Hk r') Hr). by rewrite <- app_assoc in IH.
Qed.

(** A complete run ends in the postcondition. *)
Lemma wp_completes {A} t' : ∀ (p : prog A) (Q : list event → outcome A → Prop) t o,
  wp t p Q → completes p t' o → Q (t ++ t') o.
Proof.
  induction t' as [|e t' IH]; intros [r|c k] Q t o Hp Hr; cbn [completes wp] in *; try done.
  - subst r. by rewrite app_nil_r.
  - destruct Hr as (r' & -> & Hr), Hp as [_ Hk]. specialize (IH _ _ _ _ (Hk r') Hr). by rewrite <- app_assoc in IH.
Qed.
End Logic.

(** ** Hosts *)

(** A host with a state: the run of a program on it. *)
Section Host.
Context {S : Type} (answer : ∀ c : call, S → S * outcome (reply c)).

Fixpoint interp {A} (p : prog A) (s : S) : S * list event * outcome A :=
  match p with
  | Done r => (s, [], r)
  | Call c k =>
      let '(s, r) := answer c s in
      let '(s, t, o) := interp (k r) s in
      (s, Event c r :: t, o)
  end.

Definition final {A} (p : prog A) (s : S) : S := (interp p s).1.1.
Definition trace {A} (p : prog A) (s : S) : list event := (interp p s).1.2.
Definition result {A} (p : prog A) (s : S) : outcome A := (interp p s).2.

Lemma interp_completes {A} (p : prog A) : ∀ s, completes p (trace p s) (result p s).
Proof.
  induction p as [r|c k IH]; intros s; [done|]. unfold trace, result in *. cbn [interp].
  destruct (answer c s) as [s' r]. specialize (IH r s'). destruct (interp (k r) s') as [[s'' t] o]. by exists r.
Qed.

Lemma interp_performs {A} (p : prog A) : ∀ s, performs p (trace p s).
Proof.
  induction p as [r|c k IH]; intros s; [done|]. unfold trace in *. cbn [interp].
  destruct (answer c s) as [s' r]. specialize (IH r s'). destruct (interp (k r) s') as [[s'' t] o]. by exists r.
Qed.

(** Running one program after another. *)
Lemma final_bind {A B} (p : prog A) (f : A → prog B) : ∀ s,
  final (p ≫= f) s = match result p s with inl a => final (f a) (final p s) | inr _ => final p s end.
Proof.
  induction p as [[a|e]|c k IH]; intros s; [done|done|]. unfold final, result in *.
  change (Call c k ≫= f) with (Call c (λ r, k r ≫= f)). cbn [interp]. destruct (answer c s) as [s' r]. specialize (IH r s').
  destruct (interp (k r ≫= f) s') as [[s1 t1] o1], (interp (k r) s') as [[s2 t2] o2]. exact IH.
Qed.

Lemma result_bind {A B} (p : prog A) (f : A → prog B) : ∀ s,
  result (p ≫= f) s = match result p s with inl a => result (f a) (final p s) | inr e => inr e end.
Proof.
  induction p as [[a|e]|c k IH]; intros s; [done|done|]. unfold final, result in *.
  change (Call c k ≫= f) with (Call c (λ r, k r ≫= f)). cbn [interp]. destruct (answer c s) as [s' r]. specialize (IH r s').
  destruct (interp (k r ≫= f) s') as [[s1 t1] o1], (interp (k r) s') as [[s2 t2] o2]. exact IH.
Qed.

Lemma final_call {A} c (k : outcome (reply c) → prog A) s : final (Call c k) s = final (k (answer c s).2) (answer c s).1.
Proof.
  unfold final. cbn [interp]. destruct (answer c s) as [s' r]. cbn [fst snd]. by destruct (interp (k r) s') as [[? ?] ?].
Qed.

Lemma result_call {A} c (k : outcome (reply c) → prog A) s : result (Call c k) s = result (k (answer c s).2) (answer c s).1.
Proof.
  unfold result. cbn [interp]. destruct (answer c s) as [s' r]. cbn [fst snd]. by destruct (interp (k r) s') as [[? ?] ?].
Qed.

(** The state after the first [n] calls of a program: where a crash leaves it. *)
Fixpoint upto {A} (n : nat) (p : prog A) (s : S) : S :=
  match n, p with
  | Datatypes.S n, Call c k => let '(s, r) := answer c s in upto n (k r) s
  | _, _ => s
  end.

Definition visits {A} (p : prog A) (s s' : S) : Prop := ∃ n, upto n p s = s'.

Lemma visits_done {A} r s s' : visits (Done r : prog A) s s' → s' = s.
Proof. by intros [[|n] <-]. Qed.

Lemma visits_call {A} c (k : outcome (reply c) → prog A) s s' :
  visits (Call c k) s s' → s' = s ∨ visits (k (answer c s).2) (answer c s).1 s'.
Proof. intros [[|n] <-]; [by left|]. right. exists n. cbn [upto]. by destruct (answer c s). Qed.

Lemma visits_bind {A B} (p : prog A) (f : A → prog B) : ∀ s s',
  visits (p ≫= f) s s' → visits p s s' ∨ ∃ a, result p s = inl a ∧ visits (f a) (final p s) s'.
Proof.
  induction p as [[a|e]|c k IH]; intros s s' Hv.
  - right. by exists a.
  - left. destruct Hv as [n <-]. exists n. by destruct n.
  - change (Call c k ≫= f) with (Call c (λ r, k r ≫= f)) in Hv. rewrite result_call, final_call.
    apply visits_call in Hv as [->|Hv]; [left; by exists 0%nat|]. apply IH in Hv as [[n Hn]|Hv]; [|by right].
    left. exists (Datatypes.S n). cbn [upto]. by destruct (answer c s).
Qed.

Lemma visits_final {A} (p : prog A) : ∀ s, visits p s (final p s).
Proof.
  induction p as [r|c k IH]; intros s; [by exists 0%nat|]. rewrite final_call.
  destruct (IH (answer c s).2 (answer c s).1) as [n Hn]. exists (Datatypes.S n). cbn [upto]. by destruct (answer c s).
Qed.
End Host.
