(* ===== verification/StagingArchive.v ===== *)
(** * The retention staging archive (storage/src/retention-staging-archive.ts)

    One epoch of audit records is sealed in an object store as canonical NDJSON
    segments and a manifest that lists them, read back and verified before the
    audit store may drop the records, and deleted afterwards. The object store is
    the host's: every access is a call of the program. Manifests are JSON data,
    because they are read from the store as well as derived. Base64 and the text
    decoder of the host are parameters. *)

From S2P Require Import Prelude Regex JsNum JsVal Dates JsonText Hash Canonical AuditChain Redact Event Retention ExportBundle HostCalls.

#[local] Open Scope Z_scope.

Definition DEFAULT_PREFIX : string := "veritio-retention-staging".
Definition prefix_char (c : ascii) : bool := id_char c || one_of "/=" c.
Definition PREFIX_PATTERN : re := rep 1 512 (Cls prefix_char).
Definition SEQUENCE_PAD : nat := 16.

Definition MANIFEST_KEYS : list string :=
  ["recordType"; "schemaVersion"; "tenantId"; "epoch"; "fromSequence"; "fromPreviousHash"; "throughSequence";
   "throughHash"; "recordCount"; "previousCheckpointHash"; "archiveRootHash"; "segments"; "manifestKey"].
Definition SEGMENT_KEYS : list string :=
  ["fromSequence"; "toSequence"; "recordCount"; "firstPreviousHash"; "lastHash"; "contentSha256"; "objectKey"].
Definition DESCRIPTOR_KEYS : list string :=
  ["fromSequence"; "toSequence"; "recordCount"; "firstPreviousHash"; "lastHash"; "contentSha256"].

Record SealRetentionEpochInput := SealInput {
  seal_tenantId : val;
  seal_epoch : val;
  seal_previousCheckpoint : val;       (* [null] or a checkpoint *)
  seal_records : list val;
  segmentRecordCount : val;
}.

Inductive RetentionStagingVerification :=
| StagingOk (archiveRootHash : val) (segmentCount recordCount : Z)
| StagingFailed (reason : string).

(** ** Keys *)

Definition uri_unreserved (c : ascii) : bool := word_char c || one_of "-_.!~*'()" c.
Definition hex_upper (n : Z) : ascii := ascii_of_N (Z.to_N (if n <? 10 then 48 + n else 55 + n)).

Definition encodeURIComponent (s : string) : string :=
  of_chars (concat ((λ c, if uri_unreserved c then [c]
                          else concat ((λ b, ["%"%char; hex_upper (b / 16); hex_upper (b mod 16)]) <$> utf8_char c))
                    <$> chars s)).

Definition padSequence (value : Z) : string :=
  let digits := num_to_chars (num_of_Z value) in
  of_chars (replicate (SEQUENCE_PAD - length digits) "0"%char ++ digits).

Definition epochKeyPrefix (prefix tenantId : string) (epoch : Z) : string :=
  prefix +:+ "/" +:+ encodeURIComponent tenantId +:+ "/audit/epoch-" +:+ padSequence epoch.

Definition manifest_key (epochPrefix : string) : string := epochPrefix +:+ "/manifest.json".
Definition segment_key (epochPrefix : string) (from to_ : Z) : string :=
  epochPrefix +:+ "/" +:+ padSequence from +:+ "-" +:+ padSequence to_ +:+ ".ndjson".

(** [value.split("/")] *)
Fixpoint split_slash (cs : list ascii) : list string :=
  match cs with
  | [] => [""]
  | c :: cs =>
      let parts := split_slash cs in
      if Ascii.eqb c "/" then "" :: parts
      else match parts with part :: parts => String c part :: parts | [] => [String c ""] end
  end.

Definition starts_slash (s : string) : bool := match s with String c _ => Ascii.eqb c "/" | "" => false end.
Fixpoint double_slash (cs : list ascii) : bool :=
  match cs with
  | a :: (b :: _) as cs' => (Ascii.eqb a "/" && Ascii.eqb b "/") || double_slash cs'
  | _ => false
  end.

Definition validatePrefix (value : string) : exc string :=
  if re_test PREFIX_PATTERN value && negb (starts_slash value)
     && negb (bool_decide (last (chars value) = Some "/"%char)) && negb (double_slash (chars value))
     && negb (bool_decide (".." ∈ split_slash (chars value)))
  then Ret value else Throw "retention staging prefix is invalid".

(** ** Deriving an epoch *)

Definition has_only_keys (value : val) (allowed : list string) : bool :=
  (length (own_keys value) =? length allowed)%nat && forallb (λ k, bool_decide (k ∈ allowed)) (own_keys value).

(** The checked number of a field. *)
Definition int_at (v : val) (k : string) : Z := default 0 (int_of (vget_opt v k)).
Definition string_at (v : val) (k : string) : string := default "" (str_of (vget_opt v k)).

Definition segments_of (manifest : val) : list val :=
  match vget_opt manifest "segments" with VArr l => l | _ => [] end.

(** A canonical text; those of objects and arrays always exist. *)
Definition canonical_text (v : val) : exc string := text ← canonicalJson v; Ret (default "" text).

(** [canonicalJson(a) === canonicalJson(b)] *)
Definition same_text (a b : val) : exc bool :=
  ta ← canonicalJson a; tb ← canonicalJson b; Ret (bool_decide (ta = tb)).

Fixpoint chunks (fuel size : nat) (l : list val) : list (list val) :=
  match fuel, l with
  | S fuel, _ :: _ => take size l :: chunks fuel size (drop size l)
  | _, _ => []
  end.

Definition providerNeutralDescriptor (segment : val) : val :=
  VObj ((λ k, (k, vget_opt segment k)) <$> DESCRIPTOR_KEYS).

Section Archive.
Context `{Hasher} `{Host} `{Base64} `{TextDecoder}.

Definition archive_root (segments : list val) : exc string :=
  text ← canonicalJson (VArr (providerNeutralDescriptor <$> segments)); sha256HexOpt text.

(** The loop over the records of an epoch. *)
Fixpoint check_epoch_records (tenantId : val) (previousSequence : Z) (previousHash : val) (records : list val)
    : exc unit :=
  match records with
  | [] => Ret tt
  | record :: records =>
      event ← vget record "event";
      scope ← vget event "scope";
      _ ← guard_exc (strict_eq (vget_opt scope "tenantId") tenantId) "record tenant mismatch";
      hash ← hashAuditRecord record;
      _ ← guard_exc (strict_eq (VStr hash) (vget_opt record "hash")) "record integrity check failed";
      _ ← guard_exc (strict_eq (vget_opt record "sequence") (VInt (js_succ previousSequence))
                     && strict_eq (vget_opt record "previousHash") previousHash)
            "records do not begin at the epoch anchor";
      check_epoch_records tenantId (js_succ previousSequence) (vget_opt record "hash") records
  end.

Definition accepted (v : RetentionVerificationResult) : bool :=
  match v with RetentionOk _ => true | RetentionFail _ _ _ => false end.

(** Returns the hash before the epoch and the prior checkpoint's hash. *)
Definition validateSealInput (input : SealRetentionEpochInput) : exc (val * val) :=
  _ ← assertId (seal_tenantId input) "tenantId";
  epoch ← assertSafeInteger (seal_epoch input) "epoch";
  let previous := seal_previousCheckpoint input in
  match seal_records input with
  | [] => Throw "retention epoch requires at least one record"
  | first :: _ =>
      '(previousSequence, previousHash, checkpointHash) ←
        (if is_null previous then
           _ ← guard_exc (epoch =? 1) "epoch one requires the genesis anchor";
           Ret (0, VNull, VNull)
         else
           verification ← verifyRetentionCheckpoint previous no_options;
           _ ← guard_exc (accepted verification) "previous checkpoint is invalid";
           _ ← guard_exc (strict_eq (vget_opt previous "tenantId") (seal_tenantId input)) "previous checkpoint tenant mismatch";
           _ ← guard_exc (epoch =? int_at previous "epoch" + 1) "epoch does not extend the prior checkpoint";
           Ret (int_at previous "throughSequence", vget_opt previous "throughHash", vget_opt previous "hash"));
      _ ← check_epoch_records (seal_tenantId input) previousSequence previousHash (seal_records input);
      Ret (vget_opt first "previousHash", checkpointHash)
  end.

(** Canonical lines, each ended by a newline. *)
Definition encodeNdjson (records : list val) : exc (list Z) :=
  texts ← mapE canonical_text records;
  Ret (utf8 (join newline texts +:+ newline)).

Definition derive_segment (epochPrefix : string) (batch : list val) : exc val :=
  body ← encodeNdjson batch;
  let first := default VUndef (head batch) in
  let last := default VUndef (last batch) in
  Ret (VObj [("fromSequence", vget_opt first "sequence"); ("toSequence", vget_opt last "sequence");
             ("recordCount", VInt (Z.of_nat (length batch))); ("firstPreviousHash", vget_opt first "previousHash");
             ("lastHash", vget_opt last "hash"); ("contentSha256", VStr (sha256Bytes body));
             ("objectKey", VStr (segment_key epochPrefix (int_at first "sequence") (int_at last "sequence")))]).

(** The loop over segment descriptors: the next sequence, last hash and count. *)
Fixpoint check_segments (epochPrefix : string) (sequence : Z) (previousHash : val) (count : Z) (segments : list val)
    : exc (Z * val * Z) :=
  match segments with
  | [] => Ret (sequence, previousHash, count)
  | segment :: segments =>
      let field := vget_opt segment in
      _ ← guard_exc (is_plain_object segment && has_only_keys segment SEGMENT_KEYS)
            "staged epoch segment descriptor is invalid";
      from ← assertSafeInteger (field "fromSequence") "segment.fromSequence";
      to_ ← assertSafeInteger (field "toSequence") "segment.toSequence";
      records ← assertSafeInteger (field "recordCount") "segment.recordCount";
      _ ← assertNullableHash (field "firstPreviousHash") "segment.firstPreviousHash";
      _ ← assertHash (field "lastHash") "segment.lastHash";
      _ ← assertHash (field "contentSha256") "segment.contentSha256";
      _ ← guard_exc ((from =? sequence) && strict_eq (field "firstPreviousHash") previousHash && (from <=? to_)
                     && (records =? to_ - from + 1)) "staged epoch segment descriptors are not contiguous";
      _ ← guard_exc (strict_eq (field "objectKey") (VStr (segment_key epochPrefix from to_)))
            "staged epoch segment key is invalid";
      check_segments epochPrefix (to_ + 1) (field "lastHash") (count + records) segments
  end.

Definition validateManifest (prefix : string) (manifest : val) : exc unit :=
  let field := vget_opt manifest in
  _ ← guard_exc (is_plain_object manifest && has_only_keys manifest MANIFEST_KEYS) "staged epoch manifest is invalid";
  _ ← assertId (field "tenantId") "tenantId";
  epoch ← assertSafeInteger (field "epoch") "epoch";
  from ← assertSafeInteger (field "fromSequence") "fromSequence";
  through ← assertSafeInteger (field "throughSequence") "throughSequence";
  recordCount ← assertSafeInteger (field "recordCount") "recordCount";
  _ ← assertNullableHash (field "fromPreviousHash") "fromPreviousHash";
  _ ← assertHash (field "throughHash") "throughHash";
  _ ← assertNullableHash (field "previousCheckpointHash") "previousCheckpointHash";
  _ ← assertHash (field "archiveRootHash") "archiveRootHash";
  _ ← guard_exc (strict_eq (field "recordType") (VStr "retention.staging.manifest")
                 && strict_eq (field "schemaVersion") (VStr "1.0")) "staged epoch manifest protocol is unsupported";
  _ ← guard_exc (match field "segments" with VArr (_ :: _) => from <=? through | _ => false end)
        "staged epoch manifest range is invalid";
  let epochPrefix := epochKeyPrefix prefix (string_at manifest "tenantId") epoch in
  _ ← guard_exc (strict_eq (field "manifestKey") (VStr (manifest_key epochPrefix))) "staged epoch manifest key is invalid";
  '(sequence, previousHash, count) ← check_segments epochPrefix from (field "fromPreviousHash") 0 (segments_of manifest);
  _ ← guard_exc ((sequence - 1 =? through) && strict_eq previousHash (field "throughHash") && (count =? recordCount)
                 && (count =? through - from + 1)) "staged epoch manifest boundary mismatch";
  root ← archive_root (segments_of manifest);
  guard_exc (strict_eq (VStr root) (field "archiveRootHash")) "staged epoch archive root mismatch".

Definition deriveEpoch (prefix : string) (input : SealRetentionEpochInput) : exc val :=
  size ← assertSafeInteger (nullish_or (segmentRecordCount input) (VInt 1000)) "segmentRecordCount";
  '(previousHash, checkpointHash) ← validateSealInput input;
  let epoch := default 0 (int_of (seal_epoch input)) in
  let epochPrefix := epochKeyPrefix prefix (default "" (str_of (seal_tenantId input))) epoch in
  let records := seal_records input in
  let first := default VUndef (head records) in
  let last := default VUndef (last records) in
  segments ← mapE (derive_segment epochPrefix) (chunks (length records) (Z.to_nat size) records);
  root ← archive_root segments;
  let manifest := VObj
    [("recordType", VStr "retention.staging.manifest"); ("schemaVersion", VStr "1.0");
     ("tenantId", seal_tenantId input); ("epoch", seal_epoch input);
     ("fromSequence", vget_opt first "sequence"); ("fromPreviousHash", previousHash);
     ("throughSequence", vget_opt last "sequence"); ("throughHash", vget_opt last "hash");
     ("recordCount", VInt (Z.of_nat (length records))); ("previousCheckpointHash", checkpointHash);
     ("archiveRootHash", VStr root); ("segments", VArr segments); ("manifestKey", VStr (manifest_key epochPrefix))] in
  _ ← validateManifest prefix manifest;
  Ret manifest.

(** ** Reading an epoch back *)

Definition parseManifest (prefix : string) (text : string) : exc val :=
  match json_parse text with
  | None => Throw "staged epoch manifest integrity check failed"
  | Some parsed =>
      canonical ← canonicalJson parsed;
      _ ← guard_exc (bool_decide (canonical = Some text)) "staged epoch manifest integrity check failed";
      _ ← validateManifest prefix parsed;
      Ret parsed
  end.

Definition parse_exact_line (tenantId : val) (line : string) : exc val :=
  match json_parse line with
  | None => Throw "staged epoch record integrity check failed"
  | Some record =>
      event ← vget record "event";
      scope ← vget event "scope";
      let failed := Throw "staged epoch record integrity check failed" in
      if negb (strict_eq (vget_opt scope "tenantId") tenantId) then failed else
      canonical ← canonicalJson record;
      if negb (bool_decide (canonical = Some line)) then failed else
      hash ← hashAuditRecord record;
      if negb (strict_eq (VStr hash) (vget_opt record "hash")) then failed else
      Ret record
  end.

Definition parseExactNdjson (body : list Z) (tenantId : val) : exc (list val) :=
  let cs := chars (decode_utf8 body) in
  _ ← guard_exc (bool_decide (last cs = Some (ascii_of_nat 10))) "staged epoch segment integrity check failed";
  let lines := split_lines (take (length cs - 1) cs) in
  _ ← guard_exc (negb (bool_decide ("" ∈ lines))) "staged epoch segment integrity check failed";
  mapE (parse_exact_line tenantId) lines.

(** The loop over the records of one segment. *)
Fixpoint check_links (previousSequence : Z) (previousHash : val) (recordCount : Z) (records : list val)
    : exc (Z * val * Z) :=
  match records with
  | [] => Ret (previousSequence, previousHash, recordCount)
  | record :: records =>
      _ ← guard_exc (strict_eq (vget_opt record "sequence") (VInt (js_succ previousSequence))
                     && strict_eq (vget_opt record "previousHash") previousHash)
            "staged epoch records are not contiguous and hash-linked";
      check_links (js_succ previousSequence) (vget_opt record "hash") (recordCount + 1) records
  end.

Definition check_descriptor (segment : val) (records : list val) : exc unit :=
  let first := default VUndef (head records) in
  let last := default VUndef (last records) in
  guard_exc
    (strict_eq (VInt (Z.of_nat (length records))) (vget_opt segment "recordCount")
     && strict_eq (vget_opt first "sequence") (vget_opt segment "fromSequence")
     && strict_eq (vget_opt last "sequence") (vget_opt segment "toSequence")
     && strict_eq (vget_opt first "previousHash") (vget_opt segment "firstPreviousHash")
     && strict_eq (vget_opt last "hash") (vget_opt segment "lastHash")) "staged epoch segment descriptor mismatch".

(** ** Programs over the object store *)

Definition putExact (key : string) (body : list Z) : prog unit :=
  existing ← ask (GetObject key);
  match existing with
  | Some bytes => require (bool_decide (bytes = body)) "staged epoch object conflict"
  | None => ask (PutObject key body)
  end.

Fixpoint seal_segments (segments records : list val) : prog unit :=
  match segments with
  | [] => mret tt
  | segment :: segments =>
      let count := Z.to_nat (int_at segment "recordCount") in
      body ← run (encodeNdjson (take count records));
      _ ← putExact (string_at segment "objectKey") body;
      seal_segments segments (drop count records)
  end.

Definition sealEpoch (prefix : string) (input : SealRetentionEpochInput) : prog val :=
  manifest ← run (deriveEpoch prefix input);
  _ ← seal_segments (segments_of manifest) (seal_records input);
  text ← run (canonical_text manifest);
  _ ← putExact (string_at manifest "manifestKey") (utf8 text);
  mret manifest.

Definition assertRecoverableCheckpoint (checkpoint : val) : exc unit :=
  verification ← verifyRetentionCheckpoint checkpoint no_options;
  guard_exc (accepted verification) "invalid retention checkpoint".

(** The prefix of a verified checkpoint's epoch. *)
Definition checkpoint_prefix (prefix : string) (checkpoint : val) : string :=
  epochKeyPrefix prefix (string_at checkpoint "tenantId") (int_at checkpoint "epoch").

Definition assertManifestCheckpointBinding (manifest checkpoint : val) : exc unit :=
  guard_exc (forallb (λ k, strict_eq (vget_opt manifest k) (vget_opt checkpoint k))
               ["tenantId"; "epoch"; "fromSequence"; "fromPreviousHash"; "throughSequence"; "throughHash"; "recordCount";
                "previousCheckpointHash"; "archiveRootHash"]) "staged epoch manifest checkpoint mismatch".

Definition recoverEpoch (prefix : string) (checkpoint : val) : prog (option val) :=
  _ ← run (assertRecoverableCheckpoint checkpoint);
  bytes ← ask (GetObject (manifest_key (checkpoint_prefix prefix checkpoint)));
  match bytes with
  | None => mret None
  | Some bytes =>
      manifest ← run (parseManifest prefix (decode_utf8 bytes));
      _ ← run (assertManifestCheckpointBinding manifest checkpoint);
      mret (Some manifest)
  end.

Definition manifest_keys (manifest : val) : list string :=
  ((λ s, string_at s "objectKey") <$> segments_of manifest) ++ [string_at manifest "manifestKey"].

Definition manifest_prefix (prefix : string) (manifest : val) : string :=
  epochKeyPrefix prefix (string_at manifest "tenantId") (int_at manifest "epoch").

Fixpoint verify_segments (tenantId : val) (previousSequence : Z) (previousHash : val) (recordCount : Z)
    (segments : list val) : prog (Z * val * Z) :=
  match segments with
  | [] => mret (previousSequence, previousHash, recordCount)
  | segment :: segments =>
      body ← ask (GetObject (string_at segment "objectKey"));
      match body with
      | None => Done (inr (TypeError "staged epoch segment is missing"))
      | Some body =>
          _ ← require (strict_eq (VStr (sha256Bytes body)) (vget_opt segment "contentSha256"))
                "staged epoch segment integrity check failed";
          records ← run (parseExactNdjson body tenantId);
          _ ← run (check_descriptor segment records);
          '(previousSequence, previousHash, recordCount) ←
            run (check_links previousSequence previousHash recordCount records);
          verify_segments tenantId previousSequence previousHash recordCount segments
      end
  end.

Definition verify_staged (prefix : string) (manifest : val) : prog RetentionStagingVerification :=
  let field := vget_opt manifest in
  _ ← run (validateManifest prefix manifest);
  listed ← ask (ListObjects (manifest_prefix prefix manifest +:+ "/"));
  same ← run (same_text (VArr (VStr <$> sort_by String.leb listed)) (VArr (VStr <$> sort_by String.leb (manifest_keys manifest))));
  _ ← require same "staged epoch objects are not exactly present in listing";
  bytes ← ask (GetObject (string_at manifest "manifestKey"));
  text ← run (canonical_text manifest);
  match bytes with
  | None => Done (inr (TypeError "staged epoch manifest integrity check failed"))
  | Some bytes =>
      _ ← require (bool_decide (bytes = utf8 text)) "staged epoch manifest integrity check failed";
      parsed ← run (parseManifest prefix (decode_utf8 bytes));
      same ← run (same_text parsed manifest);
      _ ← require same "staged epoch manifest integrity check failed";
      '(sequence, hash, count) ←
        verify_segments (field "tenantId") (int_at manifest "fromSequence" - 1) (field "fromPreviousHash") 0
          (segments_of manifest);
      _ ← require (strict_eq (VInt sequence) (field "throughSequence") && strict_eq hash (field "throughHash")
                   && strict_eq (VInt count) (field "recordCount")) "staged epoch tip mismatch";
      mret (StagingOk (field "archiveRootHash") (Z.of_nat (length (segments_of manifest))) count)
  end.

Definition verifyEpoch (prefix : string) (manifest : val) : prog RetentionStagingVerification :=
  try_catch (λ e, match e with TypeError msg => mret (StagingFailed msg) | OtherError _ => Done (inr e) end)
    (verify_staged prefix manifest).

Fixpoint delete_all (keys : list string) : prog unit :=
  match keys with [] => mret tt | key :: keys => _ ← ask (DeleteObject key); delete_all keys end.

Definition deleteEpoch (prefix : string) (manifest : val) : prog unit :=
  _ ← run (validateManifest prefix manifest);
  delete_all (manifest_keys manifest).

Fixpoint all_absent (keys : list string) : prog bool :=
  match keys with
  | [] => mret true
  | key :: keys =>
      found ← ask (GetObject key);
      rest ← all_absent keys;
      mret (match found with None => rest | Some _ => false end)
  end.

Definition confirmEpochAbsent (prefix : string) (manifest : val) : prog bool :=
  _ ← run (validateManifest prefix manifest);
  directReadsAbsent ← all_absent (manifest_keys manifest);
  listed ← ask (ListObjects (manifest_prefix prefix manifest +:+ "/"));
  mret (directReadsAbsent && (length listed =? 0)%nat).

Definition confirmCheckpointEpochAbsent (prefix : string) (checkpoint : val) : prog bool :=
  _ ← run (assertRecoverableCheckpoint checkpoint);
  let epochPrefix := checkpoint_prefix prefix checkpoint in
  bytes ← ask (GetObject (manifest_key epochPrefix));
  listed ← ask (ListObjects (epochPrefix +:+ "/"));
  mret (match bytes with None => (length listed =? 0)%nat | Some _ => false end).
End Archive.

(** ** The archive as its clients see it *)

Record RetentionStagingArchive := StagingArchive {
  archive_derive : SealRetentionEpochInput → exc val;
  archive_seal : SealRetentionEpochInput → prog val;
  archive_recover : val → prog (option val);
  archive_verify : val → prog RetentionStagingVerification;
  archive_delete : val → prog unit;
  archive_epoch_absent : val → prog bool;
  archive_checkpoint_absent : val → prog bool;
}.

Definition staging_archive `{Hasher} `{Host} `{Base64} `{TextDecoder} (prefix : string) : RetentionStagingArchive := {|
  archive_derive := deriveEpoch prefix;
  archive_seal := sealEpoch prefix;
  archive_recover := recoverEpoch prefix;
  archive_verify := verifyEpoch prefix;
  archive_delete := deleteEpoch prefix;
  archive_epoch_absent := confirmEpochAbsent prefix;
  archive_checkpoint_absent := confirmCheckpointEpochAbsent prefix;
|}.

Definition createRetentionStagingArchive `{Hasher} `{Host} `{Base64} `{TextDecoder} (prefix : option string)
    : exc RetentionStagingArchive :=
  prefix ← validatePrefix (default DEFAULT_PREFIX prefix); Ret (staging_archive prefix).
