(* ===== verification/ObjectArchive.v ===== *)
(** * The object archive (storage/src/object-archive-chain.ts, object-archive.ts)

    The cold tier of a tenant's chains. Records that an authoritative store has
    sequenced are sealed as segments of canonical NDJSON in an object store, each
    with a manifest that is written after it and commits it; the archive is read
    back from the manifests alone. The object store is the client's: programs call
    it ([HostCalls]), and the clock and the store drained are arguments. *)

From S2P Require Import Prelude Regex JsNum JsVal Dates JsonText Hash Canonical Keyed AuditChain Redact Event Retention.
From S2P Require Import ExportBundle Store HostCalls StagingArchive Doubles.

#[local] Open Scope Z_scope.

Definition MANIFEST_SUFFIX : string := ".manifest.json".
Definition DEFAULT_ARCHIVE_PREFIX : string := "veritio-archive".

Definition ends_with (suffix s : string) : bool :=
  bool_decide (drop (length (chars s) - length (chars suffix)) (chars s) = chars suffix).

(** The outcome of a replay; [chain_reason] is [null] when not every segment was
    readable. *)
Record ObjectArchiveChainVerification := ChainVerification {
  chain_ok : bool; segmentCount : nat; recordCount : nat; verification : option (VerificationResult reason);
  failure_reason : option string;
}.

(** ** The codecs of the two chains *)

Definition chainSegment (kind : chainKind) : string := match kind with Audit => "events" | Edge => "edges" end.

(** [record.event.scope?.tenantId] *)
Definition tenantOf (kind : chainKind) (record : val) : exc val :=
  evidence ← vget record (evidence_key kind); scope ← vget evidence "scope"; Ret (vget_opt scope "tenantId").

(** ** Keys *)

Definition tenantPrefix (prefix : string) (kind : chainKind) (tenantId : string) : string :=
  prefix +:+ "/" +:+ encodeURIComponent tenantId +:+ "/" +:+ chainSegment kind +:+ "/".

Definition segment_name (prefix : string) (kind : chainKind) (tenantId : string) (from to_ : Z) : string :=
  tenantPrefix prefix kind tenantId +:+ padSequence from +:+ "-" +:+ padSequence to_ +:+ ".ndjson".

Definition requireNonEmpty (value name : string) : exc unit :=
  guard_exc (negb (blank value)) (name +:+ " is required").

Section Archive.
Context `{Hasher} `{Host} `{TextDecoder}.
Context (prefix : string) (kind : chainKind).

(** ** Manifests *)

Definition invalid_manifest {A : Type} : exc A := Throw "archived segment manifest integrity check failed".

Definition manifest_valid (parsed : val) : exc bool :=
  let field := vget_opt parsed in
  tenantId ← vget parsed "tenantId";
  match tenantId, int_of (field "fromSequence"), int_of (field "toSequence"), int_of (field "recordCount") with
  | VStr tenantId, Some from, Some to_, Some _ =>
      if blank tenantId || (from <? 1) || (to_ <? from) || negb (strict_eq (field "recordCount") (span from to_))
      then Ret false else
      first ← (if is_null (field "firstPreviousHash") then Ret true
               else regex_test HASH_PATTERN (nullish_or (field "firstPreviousHash") (VStr "")));
      if negb first then Ret false else
      last ← regex_test HASH_PATTERN (nullish_or (field "lastHash") (VStr ""));
      if negb last then Ret false else
      content ← regex_test HASH_PATTERN (nullish_or (field "contentSha256") (VStr ""));
      Ret (content && is_string (field "segmentKey") && is_string (field "sealedAt"))
  | _, _, _, _ => Ret false
  end.

Definition parseManifest (text : string) : exc val :=
  match json_parse text with
  | None => invalid_manifest
  | Some parsed => valid ← manifest_valid parsed; if (valid : bool) then Ret parsed else invalid_manifest
  end.

Fixpoint read_manifests (keys : list string) : prog (list val) :=
  match keys with
  | [] => mret []
  | key :: keys =>
      body ← ask (GetObject key);
      match body with
      | None => Done (inr (TypeError "archived segment manifest is missing"))
      | Some body =>
          manifest ← run (parseManifest (decode_utf8 body));
          manifests ← read_manifests keys;
          mret (manifest :: manifests)
      end
  end.

Definition by_range (a b : val) : bool := int_at a "fromSequence" <=? int_at b "fromSequence".

Definition listManifests (tenantId : string) : prog (list val) :=
  keys ← ask (ListObjects (tenantPrefix prefix kind tenantId));
  manifests ← read_manifests (sort_by String.leb (List.filter (ends_with MANIFEST_SUFFIX) keys));
  mret (sort_by by_range manifests).

(** ** Reading *)

Definition broken_record {A : Type} : exc A := Throw "archived record integrity check failed".

Definition parseArchivedRecord (tenantId : val) (line : string) : exc val :=
  match json_parse line with
  | None => broken_record
  | Some record =>
      tenant ← tenantOf kind record;
      if negb (strict_eq tenant tenantId) then broken_record else
      canonical ← canonicalJson record;
      if negb (bool_decide (canonical = Some line)) then broken_record else
      hash ← hashRecord kind record;
      stored ← vget record "hash";
      if negb (strict_eq (VStr hash) stored) then broken_record else Ret record
  end.

Definition broken_segment {A : Type} : exc A := Throw "archived segment integrity check failed".

(** What is done with the bytes of a segment. *)
Definition read_segment (manifest : val) (body : list Z) : exc (list val) :=
  let field := vget_opt manifest in
  if negb (strict_eq (VStr (sha256Bytes body)) (field "contentSha256")) then broken_segment else
  let lines := filter (λ l, l ≠ "") (split_lines (chars (decode_utf8 body))) in
  if negb (strict_eq (VInt (Z.of_nat (length lines))) (field "recordCount")) then broken_segment else
  records ← mapE (parseArchivedRecord (field "tenantId")) lines;
  from ← vget (default VUndef (head records)) "sequence";
  if negb (strict_eq from (field "fromSequence")) then broken_segment else
  to_ ← vget (default VUndef (last records)) "sequence";
  if negb (strict_eq to_ (field "toSequence")) then broken_segment else
  if negb (strict_eq (vget_opt (default VUndef (head records)) "previousHash") (field "firstPreviousHash")
           && strict_eq (vget_opt (default VUndef (last records)) "hash") (field "lastHash")) then broken_segment else
  Ret records.

Definition read (manifest : val) : prog (list val) :=
  body ← ask (GetObject (string_at manifest "segmentKey"));
  match body with
  | None => Done (inr (TypeError "archived segment is missing"))
  | Some body => run (read_segment manifest body)
  end.

(** ** Sealing *)

Fixpoint check_records (tenantId : val) (previous : option val) (records : list val) : exc unit :=
  match records with
  | [] => Ret tt
  | record :: records =>
      tenant ← tenantOf kind record;
      _ ← guard_exc (strict_eq tenant tenantId) "segment must contain a single tenant chain";
      hash ← hashRecord kind record;
      _ ← guard_exc (strict_eq (VStr hash) (vget_opt record "hash")) "record integrity check failed";
      _ ← match previous with
          | None => Ret tt
          | Some previous =>
              next ← plus_one (vget_opt previous "sequence");
              guard_exc (strict_eq (vget_opt record "sequence") next
                         && strict_eq (vget_opt record "previousHash") (vget_opt previous "hash"))
                "segment records must be contiguous and hash-linked"
          end;
      check_records tenantId (Some record) records
  end.

Definition validateSegmentRecords (records : list val) : exc string :=
  tenantId ← tenantOf kind (default VUndef (head records));
  match tenantId with
  | VStr s => if blank s then Throw "scope.tenantId is required" else _ ← check_records tenantId None records; Ret s
  | _ => Throw "scope.tenantId is required"
  end.

(** The manifest of a segment. *)
Definition new_manifest (tenantId : string) (records : list val) (contentSha256 : string) (now : Z) : val :=
  let first := default VUndef (head records) in
  let last := default VUndef (last records) in
  VObj [("tenantId", VStr tenantId); ("fromSequence", vget_opt first "sequence"); ("toSequence", vget_opt last "sequence");
        ("recordCount", VInt (Z.of_nat (length records))); ("firstPreviousHash", vget_opt first "previousHash");
        ("lastHash", vget_opt last "hash");
        ("segmentKey", VStr (segment_name prefix kind tenantId (int_at first "sequence") (int_at last "sequence")));
        ("contentSha256", VStr contentSha256); ("sealedAt", VStr (toISOString now))].

(** The segment first, the manifest last. *)
Definition write_segment (manifest : val) (body : list Z) : prog val :=
  text ← run (canonical_text manifest);
  _ ← ask (PutObject (string_at manifest "segmentKey") body);
  _ ← ask (PutObject (string_at manifest "segmentKey" +:+ MANIFEST_SUFFIX) (utf8 text));
  mret manifest.

Definition same_range (first last manifest : val) : bool :=
  strict_eq (vget_opt manifest "fromSequence") (vget_opt first "sequence")
  && strict_eq (vget_opt manifest "toSequence") (vget_opt last "sequence").

Definition seal (now : Z) (records : list val) : prog val :=
  _ ← require (negb (length records =? 0)%nat) "segment requires at least one record";
  tenantId ← run (validateSegmentRecords records);
  let first := default VUndef (head records) in
  let final := default VUndef (last records) in
  body ← run (encodeNdjson records);
  let contentSha256 := sha256Bytes body in
  manifests ← listManifests tenantId;
  let manifest := new_manifest tenantId records contentSha256 now in
  match last manifests with
  | Some tip =>
      if js_leb (vget_opt first "sequence") (vget_opt tip "toSequence") then
        match List.find (same_range first final) manifests with
        | Some existing =>
            if strict_eq (vget_opt existing "contentSha256") (VStr contentSha256) then mret existing
            else Done (inr (TypeError "segment conflict"))
        | None => Done (inr (TypeError "segment conflict"))
        end
      else if negb (strict_eq (vget_opt first "sequence") (VInt (js_succ (int_at tip "toSequence")))
                    && strict_eq (vget_opt first "previousHash") (vget_opt tip "lastHash"))
      then Done (inr (TypeError "segment does not extend the archived tenant chain"))
      else write_segment manifest body
  | None =>
      if negb (strict_eq (vget_opt first "sequence") (VInt 1) && is_null (vget_opt first "previousHash"))
      then Done (inr (TypeError "archive must start at the tenant chain origin"))
      else write_segment manifest body
  end.

(** ** Replaying *)

Definition listSegments (tenantId : string) : prog (list val) :=
  _ ← run (requireNonEmpty tenantId "tenantId"); listManifests tenantId.

Definition contiguous (previous : option val) (manifest : val) : bool :=
  match previous with
  | None => true
  | Some previous =>
      strict_eq (vget_opt manifest "fromSequence") (VInt (js_succ (int_at previous "toSequence")))
      && strict_eq (vget_opt manifest "firstPreviousHash") (vget_opt previous "lastHash")
  end.

(** The loop of [verify]: the records of all segments, or the failure and the
    number of records before it. *)
Fixpoint replay (previous : option val) (records : list val) (manifests : list val) : prog (nat * string + list val) :=
  match manifests with
  | [] => mret (inr records)
  | manifest :: manifests =>
      if negb (contiguous previous manifest) then mret (inl (length records, "archived segments are not contiguous")) else
      segment ← try_catch (λ e, match e with
                                | TypeError msg => mret (inl msg)
                                | OtherError _ => Done (inr e)
                                end) (records ← read manifest; mret (inr records));
      match segment with
      | inl msg => mret (inl (length records, msg))
      | inr segment => replay (Some manifest) (records ++ segment) manifests
      end
  end.

Definition verify (tenantId : string) : prog ObjectArchiveChainVerification :=
  _ ← run (requireNonEmpty tenantId "tenantId");
  manifests ← listManifests tenantId;
  let failure count reason := mret (ChainVerification false (length manifests) count None (Some reason)) in
  match manifests with
  | [] => mret (ChainVerification true 0 0 None None)
  | first :: _ =>
      if negb (strict_eq (vget_opt first "fromSequence") (VInt 1))
      then failure 0%nat "archive does not start at the tenant chain origin" else
      replayed ← replay None [] manifests;
      match replayed with
      | inl (count, reason) => failure count reason
      | inr records =>
          result ← run (verifyRecords kind records);
          let ok := match result with VerifyOk => true | _ => false end in
          mret (ChainVerification ok (length manifests) (length records) (Some result)
                  (if ok then None else Some "archived chain verification failed"))
      end
  end.
End Archive.

(** ** The archive of both chains *)

Record ObjectArchiveVerification := ArchiveVerification {
  archive_ok : bool; archive_audit : ObjectArchiveChainVerification; archive_edges : ObjectArchiveChainVerification;
}.

Definition verifyTenant `{Hasher} `{Host} `{TextDecoder} (prefix tenantId : string) : prog ObjectArchiveVerification :=
  audit ← verify prefix Audit tenantId;
  edges ← verify prefix Edge tenantId;
  mret (ArchiveVerification (chain_ok audit && chain_ok edges) audit edges).

Section Drain.
Context `{Hasher} `{Host} `{TextDecoder}.
Context (prefix : string).
(** What the [i]-th call of [store.list] gives after a sequence, and the clock
    when the [i]-th segment is sealed. *)
Context (store_list : nat → Z → exc (list val)) (clock : nat → Z).

(** The loop; [None] when it has not ended after [fuel] turns. *)
Fixpoint drain (fuel i : nat) (segmentRecordCount afterSequence : Z) (sealed : list val) : prog (option (list val)) :=
  match fuel with
  | O => mret None
  | S fuel =>
      batch ← run (store_list i afterSequence);
      if (length batch =? 0)%nat then mret (Some sealed) else
      manifest ← seal prefix Audit (clock i) batch;
      let afterSequence := int_at (default VUndef (last batch)) "sequence" in
      if Z.of_nat (length batch) <? segmentRecordCount then mret (Some (sealed ++ [manifest]))
      else drain fuel (S i) segmentRecordCount afterSequence (sealed ++ [manifest])
  end.

Definition archiveAuditStoreTenant (fuel : nat) (tenantId : string) (segmentRecordCount : val) : prog (option (list val)) :=
  let count := nullish_or segmentRecordCount (VInt 1000) in
  match int_of count with
  | Some size =>
      _ ← require (1 <=? size) "segmentRecordCount must be a positive integer";
      _ ← run (requireNonEmpty tenantId "tenantId");
      manifests ← listSegments prefix Audit tenantId;
      drain fuel 0 size (match last manifests with Some m => int_at m "toSequence" | None => 0 end) []
  | None => Done (inr (TypeError "segmentRecordCount must be a positive integer"))
  end.
End Drain.
