(* ===== verification/SealedSegments.v ===== *)
(** * Segments of the object archive

    What a sealed segment is: a run of a tenant's chain as canonical values, its
    bytes, and a manifest that describes it. Sealing writes such a segment, and
    reading one gives its records back. *)

From S2P Require Import Prelude Regex JsNum JsVal Dates JsonText Hash Sha256 Canonical Keyed AuditChain ChainModes SameData Redact Event Retention.
From S2P Require Import ExportBundle BundleVerify Store HostCalls StagingArchive Doubles ObjectArchive.

#[local] Open Scope Z_scope.
#[local] Arguments num_of_Z : simpl never.
#[local] Arguments text_line : simpl never.

(** ** Runs of a chain *)

Inductive links `{Hasher} : val → Z → list val → val → Z → Prop :=
| links_nil tip n : links tip n [] tip n
| links_cons tip n r h rs tip' n' :
    link tip n r h → links (VStr h) (n + 1) rs tip' n' → links tip n (r :: rs) tip' n'.

Section Links.
Context `{HS : Hasher}.

Lemma chain_links rs tip n rs' tip' n' : chain rs tip n → links tip n rs' tip' n' → chain (rs ++ rs') tip' n'.
Proof.
  intros Hc Hl. revert rs Hc. induction Hl as [tip n|tip n r h rs' tip' n' Hl _ IH]; intros rs Hc.
  - by rewrite app_nil_r.
  - change (r :: rs') with ([r] ++ rs'). rewrite app_assoc. apply IH. by econstructor.
Qed.

Lemma links_snoc tip n rs tip' n' r h :
  links tip n rs tip' n' → link tip' n' r h → links tip n (rs ++ [r]) (VStr h) (n' + 1).
Proof. induction 1; intros L; econstructor; eauto. constructor. Qed.

Lemma chain_split rs tip n rs' tip' n' : chain rs tip n → chain (rs ++ rs') tip' n' → links tip n rs' tip' n'.
Proof.
  intros Hc. revert tip' n'. induction rs' as [|r rs' IH] using rev_ind; intros tip' n' C.
  - rewrite app_nil_r in C. destruct (chain_unique _ _ _ _ _ Hc C) as [-> ->]. constructor.
  - rewrite app_assoc in C. destruct (chain_app_inv _ _ _ _ C) as (tip1 & n1 & C1).
    destruct (chain_snoc_inv _ _ _ _ _ _ C1 C) as (h & L & -> & ->). eapply links_snoc; eauto.
Qed.

Lemma links_unique tip n rs tip1 n1 tip2 n2 : links tip n rs tip1 n1 → links tip n rs tip2 n2 → tip1 = tip2 ∧ n1 = n2.
Proof.
  induction 1 as [|tip n r h rs tip1 n1 [_ _ Hh _] _ IH]; intros Hl; inversion Hl as [|? ? ? h' ? ? ? [_ _ Hh' _] Hl']; subst; [done|].
  rewrite Hh in Hh'. injection Hh' as <-. by apply IH.
Qed.

Lemma links_length tip n rs tip' n' : links tip n rs tip' n' → n' = n + Z.of_nat (length rs).
Proof. induction 1 as [|? ? ? ? ? ? ? _ _ IH]; cbn [length]; lia. Qed.

Lemma links_tip tip n rs tip' n' : links tip n rs tip' n' → tip_ok tip → tip_ok tip'.
Proof. induction 1; intros Ht; [done|]. apply IHlinks. right. eauto. Qed.

(** The record at one end of a non-empty run, as JavaScript reads it. *)
Lemma links_first tip n rs tip' n' : links tip n rs tip' n' → rs ≠ [] →
  let first := default VUndef (head rs) in
  vget first "sequence" = Ret (VInt (n + 1)) ∧ vget_opt first "sequence" = VInt (n + 1) ∧ vget_opt first "previousHash" = tip.
Proof.
  destruct 1 as [|tip n r h rs tip' n' [Hs Hp _ _] _]; [done|]. intros _. cbn.
  split; [done|]. by split; apply vget_obj_opt.
Qed.

Lemma links_last tip n rs tip' n' : links tip n rs tip' n' → rs ≠ [] →
  let final := default VUndef (last rs) in
  vget final "sequence" = Ret (VInt n') ∧ vget_opt final "sequence" = VInt n' ∧ vget_opt final "hash" = tip'.
Proof.
  induction 1 as [|tip n r h rs tip' n' [Hs _ Hh _] Hl IH]; [done|]. intros _. destruct rs as [|r' rs].
  - inversion Hl; subst. cbn. split; [done|]. by split; apply vget_obj_opt.
  - specialize (IH ltac:(done)). by rewrite last_cons_cons.
Qed.

(** Records that are the same data are linked in the same way. *)
Lemma link_same (kind : chainKind) tip n r w h : tip_ok tip → same_data r w → link tip n r h → link tip n w h.
Proof.
  intros Ht Hs Hl. set (st := Some (LinkState tip n)).
  assert (check_link kind st r = Ret (inr (LinkState (VStr h) (n + 1)))) as E by (apply check_link_ok; [done|]; eauto).
  rewrite (check_link_same kind st r w Ht Hs) in E. apply check_link_ok in E as (h' & L & [= ->]); done.
Qed.

Lemma links_same (kind : chainKind) rs ws : Forall2 same_data rs ws → ∀ tip n tip' n',
  tip_ok tip → links tip n rs tip' n' → links tip n ws tip' n'.
Proof.
  induction 1 as [|r w rs ws Hs _ IH]; intros tip n tip' n' Ht Hl; inversion Hl; subst; [constructor|].
  econstructor; [by eapply link_same|]. apply IH; [right; eauto|done].
Qed.

End Links.

(** ** Owners *)

(** The record names [t] as its tenant. *)
Definition owned (kind : chainKind) (t : string) (r : val) : Prop := tenantOf kind r = Ret (VStr t).

Lemma tenantOf_scope kind r v : tenantOf kind r = Ret v ↔
  ∃ evidence scope, vget r (evidence_key kind) = Ret evidence ∧ vget evidence "scope" = Ret scope ∧ v = vget_opt scope "tenantId".
Proof.
  unfold tenantOf. split.
  - intros (ev & Hev & E)%bind_ret. apply bind_ret in E as (sc & Hsc & [= <-]). by exists ev, sc.
  - intros (ev & sc & -> & Hsc & ->). cbn [mbind exc_mbind]. by rewrite Hsc.
Qed.

Lemma owned_same kind t r w : same_data r w → owned kind t r → owned kind t w.
Proof.
  intros Hs (ev & sc & Hev & Hsc & Ht)%tenantOf_scope. apply tenantOf_scope.
  assert (∀ v w k x, same_data v w → vget v k = Ret x → ∃ y, vget w k = Ret y ∧ same_data x y) as Hget.
  { intros v w' k x Hvw Hv. exists (vget_opt w' k). rewrite <- (vget_obj_opt _ _ _ Hv). split; [|by apply vget_opt_same].
    clear Hs. destruct (same_data_shape _ _ Hvw) as [v' _|xs ys _|fs gs _]; [|done..]. by rewrite (vget_obj_opt _ _ _ Hv). }
  destruct (Hget _ _ _ _ Hs Hev) as (ev' & Hev' & Se). destruct (Hget _ _ _ _ Se Hsc) as (sc' & Hsc' & Ss).
  exists ev', sc'. split; [done|]. split; [done|]. symmetry. by apply (string_same _ _ t (vget_opt_same _ _ "tenantId" Ss)).
Qed.

(** A record with an owner is an object. *)
Lemma owned_get kind t r k : owned kind t r → vget r k = Ret (vget_opt r k).
Proof. intros (ev & sc & Hev & Hsc & Ht)%tenantOf_scope. destruct r; try done; cbn in Hev; by (injection Hev as <-). Qed.

Lemma envelope_owned kind r t : envelope kind r t → owned kind t r.
Proof. intros [(ev & sc & Hev & Hsc & Ht & _) _ _]. apply tenantOf_scope. by exists ev, sc. Qed.

Lemma owned_typed kind t r : owned kind t r → tenant_typed kind r.
Proof.
  intros (ev & sc & Hev & Hsc & Ht)%tenantOf_scope tenant Hk. unfold check_envelope in Hk. rewrite Hev in Hk.
  cbn [mbind exc_mbind] in Hk. rewrite Hsc in Hk. cbn [mbind exc_mbind] in Hk. rewrite <- Ht in Hk.
  destruct (negb _); [done|]. apply bind_ret in Hk as (a & _ & Hk). destruct (negb _) in Hk; [done|].
  apply bind_ret in Hk as (c & _ & Hk). destruct (negb _) in Hk; [done|]. by injection Hk as <-.
Qed.

(** The record names the algorithms of this protocol, which a replay asks for and
    sealing does not. *)
Definition supported (r : val) : Prop :=
  vget_opt r "hashAlgorithm" = VStr HASH_ALGORITHM ∧ vget_opt r "canonicalization" = VStr CANONICALIZATION.

Lemma supported_envelope kind t r : blank t = false → owned kind t r → supported r ↔ ∃ u, envelope kind r u.
Proof.
  intros Hb Ho. pose proof (owned_get kind t r) as Hget. split.
  - intros [Ha Hc]. exists t. pose proof Ho as (ev & sc & Hev & Hsc & Ht)%tenantOf_scope. constructor.
    + exists ev, sc. split_and!; [done..|]. by intros ->.
    + by rewrite (Hget _ Ho), Ha.
    + by rewrite (Hget _ Ho), Hc.
  - intros (u & [_ Ha Hc]). rewrite (Hget _ Ho) in Ha. rewrite (Hget _ Ho) in Hc. injection Ha as Ha. injection Hc as Hc. by split.
Qed.

(** *** The verdict on a chain of one owner *)

Lemma chain_record `{Hasher} rs tip n r : chain rs tip n → r ∈ rs → ∃ tip n h, link tip n r h.
Proof.
  induction 1 as [|rs tip n r' h _ IH Hl]; intros Hr; [by apply not_elem_of_nil in Hr|].
  apply elem_of_app in Hr as [Hr| ->%list_elem_of_singleton]; [by apply IH|by exists tip, n, h].
Qed.

Lemma checks_return `{Hasher} kind t tip n r h : owned kind t r → link tip n r h →
  is_ret (check_envelope kind r) = true ∧ ∀ st, is_ret (check_link kind st r) = true.
Proof.
  intros Ho [_ _ _ Hd]. pose proof (λ k, owned_get _ _ _ k Ho) as Hget. apply (hashRecord_text kind r h) in Hd. split.
  - apply tenantOf_scope in Ho as (ev & sc & Hev & Hsc & Ht). unfold check_envelope. rewrite Hev, !Hget. cbn [mbind exc_mbind].
    rewrite Hsc. cbn [mbind exc_mbind]. by repeat case_match.
  - intros st. unfold check_link. rewrite !Hget. cbn [mbind exc_mbind]. rewrite Hd. repeat (cbn [mbind exc_mbind]; case_match); done.
Qed.

(** A verdict is reached, and it is ok for supported records only. *)
Lemma owned_verdict `{Hasher} kind t rs tip n : blank t = false → Forall (owned kind t) rs → chain rs tip n →
  ∃ verdict, verifyRecords kind rs = Ret verdict ∧ (verdict = VerifyOk ↔ Forall supported rs).
Proof.
  intros Hb Ho Hc. rewrite Forall_forall in Ho. assert (is_ret (verifyRecords kind rs) = true) as [v Hv]%is_ret_spec.
  { apply walk_total, Forall_forall. intros r Hr. destruct (chain_record _ _ _ _ Hc Hr) as (tip' & n' & h & Hl). by eapply checks_return; [apply Ho|]. }
  exists v. split; [done|]. rewrite Forall_forall. split.
  - intros ->. apply verify_ok in Hv as [He _]; [|apply Forall_forall; intros r Hr; by eapply owned_typed, Ho].
    rewrite Forall_forall in He. intros r Hr. apply (supported_envelope kind t); [done|by apply Ho|by apply He].
  - intros Hs. assert (verifyRecords kind rs = Ret VerifyOk) as E; [|congruence].
    apply (one_tenant_verifies kind t); [|by exists tip, n]. apply Forall_forall. intros r Hr.
    destruct (proj1 (supported_envelope kind t r Hb (Ho r Hr)) (Hs r Hr)) as [u He]. pose proof (envelope_owned _ _ _ He) as Hu.
    pose proof (Ho r Hr) as Ht. unfold owned in *. assert (u = t) as <- by congruence. done.
Qed.

(** ** Bytes *)

Definition lines_text (ws : list val) : string := of_chars (concat ((λ l, chars l ++ [nl]) <$> (text_line <$> ws))).
Definition body_of (ws : list val) : list Z := utf8 (lines_text ws).

(** [ws] are the canonical values of [rs]. *)
Definition canonical_of (r w : val) : Prop := normalizeForJson r = Ret w ∧ canonical w.

Lemma join_lines (ls : list string) :
  ls ≠ [] → join newline ls +:+ newline = of_chars (concat ((λ l, chars l ++ [nl]) <$> ls)).
Proof.
  induction ls as [|l ls IH]; [done|]. intros _. destruct ls as [|l' ls].
  - change (l +:+ newline = of_chars (concat [chars l ++ [nl]])). cbn [concat]. rewrite app_nil_r, of_chars_app, of_chars_chars. done.
  - change ((l +:+ newline +:+ join newline (l' :: ls)) +:+ newline = of_chars (concat ((λ l, chars l ++ [nl]) <$> l :: l' :: ls))).
    rewrite fmap_cons. cbn [concat]. rewrite of_chars_app, of_chars_app, of_chars_chars, <- IH by done.
    change (of_chars [nl]) with newline. by rewrite <- !string_app_assoc.
Qed.

Lemma canonical_values rs : Forall (λ r, is_json r = true) rs →
  ∃ ws, Forall2 canonical_of rs ws ∧ mapE canonical_text rs = Ret (text_line <$> ws).
Proof.
  induction 1 as [|r rs Hr _ (ws & Hw & IH)]; [by exists []|].
  destruct (normalize_json_total r Hr) as (w & Hn & Hc). exists (w :: ws). split; [by constructor|].
  assert (canonical_text r = Ret (text_line w)) as E.
  { unfold canonical_text, canonicalJson. rewrite Hn. cbn [mbind exc_mbind].
    by rewrite json_stringify_json by by apply canonical_json. }
  cbn [mapE]. by rewrite E, IH.
Qed.

Lemma encodeNdjson_ok rs ws : rs ≠ [] → Forall2 canonical_of rs ws → mapE canonical_text rs = Ret (text_line <$> ws) →
  encodeNdjson rs = Ret (body_of ws).
Proof.
  intros Hne Hw E. unfold encodeNdjson. rewrite E. cbn [mbind exc_mbind]. unfold body_of, lines_text.
  rewrite join_lines; [done|]. destruct Hw; done.
Qed.

Lemma int_of_int z : int_of (VInt z) = Some z.
Proof. apply num_int_of_Z. Qed.

Lemma int_at_int v k z : vget_opt v k = VInt z → int_at v k = z.
Proof. intros E. unfold int_at. by rewrite E, int_of_int. Qed.

Section Segments.
Context `{HS : Hasher} `{HO : Host} `{TD : TextDecoder}.
Context (prefix : string) (kind : chainKind) (t : string).

(** A tip as the manifests name it. *)
Definition tip_shaped (v : val) : Prop := v = VNull ∨ ∃ h, v = VStr h ∧ re_test HASH_PATTERN h = true.

Lemma tip_shaped_ok v : tip_shaped v → tip_ok v.
Proof. intros [->|(h & -> & _)]; [by left|right; eauto]. Qed.

Lemma hash_shaped text : re_test HASH_PATTERN (sha256Hex text) = true.
Proof. apply digest_hex_shape. Qed.

Lemma link_shaped tip n r h : link tip n r h → tip_shaped (VStr h).
Proof. intros [_ _ _ (text & _ & ->)]. right. eexists. split; [done|apply hash_shaped]. Qed.

Lemma links_shaped tip n rs tip' n' : links tip n rs tip' n' → tip_shaped tip → tip_shaped tip'.
Proof. induction 1 as [|? ? ? ? ? ? ? Hl _ IH]; intros Ht; [done|]. eapply IH, link_shaped, Hl. Qed.

(** A segment: canonical records of the tenant that extend a chain. *)
Record segment_ok (tip : val) (n : Z) (ws : list val) (tip' : val) (n' : Z) : Prop := {
  segment_not_blank : blank t = false;
  segment_nonempty : ws ≠ [];
  segment_canonical : Forall canonical ws;
  segment_tenant : Forall (owned kind t) ws;
  segment_links : links tip n ws tip' n';
  segment_tip : tip_shaped tip;
  segment_origin : 0 ≤ n;
  segment_safe : n' < 2 ^ 53;
}.

(** What a manifest says of its segment. *)
Record describes (ws : list val) (tip : val) (n : Z) (tip' : val) (n' : Z) (m : val) : Prop := {
  says_tenant : vget_opt m "tenantId" = VStr t;
  says_from : vget_opt m "fromSequence" = VInt (n + 1);
  says_to : vget_opt m "toSequence" = VInt n';
  says_count : vget_opt m "recordCount" = VInt (Z.of_nat (length ws));
  says_previous : vget_opt m "firstPreviousHash" = tip;
  says_last : vget_opt m "lastHash" = tip';
  says_key : vget_opt m "segmentKey" = VStr (segment_name prefix kind t (n + 1) n');
  says_content : vget_opt m "contentSha256" = VStr (sha256Bytes (body_of ws));
}.

Lemma new_manifest_describes tip n ws rs tip' n' now : Forall2 same_data rs ws →
  links tip n rs tip' n' → tip_ok tip → ws ≠ [] →
  describes ws tip n tip' n' (new_manifest prefix kind t rs (sha256Bytes (body_of ws)) now).
Proof.
  intros Hs Hl Ht Hne. assert (rs ≠ []) as Hr by (by intros ->; inversion Hs).
  destruct (links_first _ _ _ _ _ Hl Hr) as (_ & Hf & Hp), (links_last _ _ _ _ _ Hl Hr) as (_ & Ht' & Hh).
  unfold new_manifest. rewrite (int_at_int _ _ _ Hf), (int_at_int _ _ _ Ht'), Hf, Ht', Hp, Hh. pose proof (Forall2_length _ _ _ Hs) as ->. by constructor.
Qed.

Lemma leaf_same m pm k v : same_data m pm → vget_opt m k = v → (match v with VArr _ | VObj _ => False | _ => True end) →
  vget_opt pm k = v.
Proof.
  intros Hs E Hv. pose proof (vget_opt_same m pm k Hs) as Hk. rewrite E in Hk.
  by destruct (same_data_shape _ _ Hk) as [v' _|xs ys _|fs gs _].
Qed.

Lemma describes_same ws tip n tip' n' m pm : tip_ok tip → tip_ok tip' → same_data m pm →
  describes ws tip n tip' n' m → describes ws tip n tip' n' pm.
Proof.
  intros Ht Ht' Hs [H1 H2 H3 H4 H5 H6 H7 H8]. constructor; (eapply leaf_same; [exact Hs|eassumption|try done]).
  - by destruct Ht as [->|[? ->]].
  - by destruct Ht' as [->|[? ->]].
Qed.

Lemma links_last_hash tip n rs tip' n' : links tip n rs tip' n' → rs ≠ [] →
  ∃ h, tip' = VStr h ∧ re_test HASH_PATTERN h = true.
Proof.
  induction 1 as [|tip n r h rs tip' n' L Hl IH]; [done|]. intros _. destruct rs as [|r' rs]; [|by apply IH].
  inversion Hl; subst. by destruct (link_shaped _ _ _ _ L).
Qed.

Lemma hash_accepted h : re_test HASH_PATTERN h = true → regex_test HASH_PATTERN (nullish_or (VStr h) (VStr "")) = Ret true.
Proof. intros Hh. unfold regex_test. cbn [nullish_or js_String mbind exc_mbind]. by rewrite Hh. Qed.

Lemma described_valid tip n ws tip' n' pm : segment_ok tip n ws tip' n' → describes ws tip n tip' n' pm →
  is_plain_object pm = true → is_string (vget_opt pm "sealedAt") = true → manifest_valid pm = Ret true.
Proof.
  intros [Hb Hne _ He Hl Ht Hn Hsafe] [H1 H2 H3 H4 H5 H6 H7 H8] Hp Hd. unfold manifest_valid.
  pose proof (links_length _ _ _ _ _ Hl) as Hlen. destruct (links_last_hash _ _ _ _ _ Hl Hne) as (h' & -> & Hh').
  destruct ws as [|w ws]; [done|]. cbn [length] in Hlen.
  assert (vget pm "tenantId" = Ret (VStr t)) as -> by (by destruct pm; rewrite <- H1). cbn [mbind exc_mbind].
  rewrite H2, H3, H4, H5, H6, H7, H8, Hd. rewrite !int_of_int. rewrite Hb.
  rewrite (proj2 (Z.ltb_ge _ _)), (proj2 (Z.ltb_ge n' _)) by lia. cbn [orb].
  rewrite span_int by lia. replace (n' - (n + 1) + 1) with (Z.of_nat (length (w :: ws))) by (cbn [length]; lia).
  rewrite strict_eq_int_refl. cbn [negb].
  rewrite (hash_accepted h') by done. rewrite (hash_accepted (sha256Bytes _)) by apply digest_hex_shape.
  destruct Ht as [->|(h & -> & Hh)]; [done|]. rewrite (hash_accepted h) by done. done.
Qed.

(** The manifest of a segment as it is stored and read back. *)
Lemma manifest_read_back tip n ws rs tip' n' now : segment_ok tip n ws tip' n' →
  Forall2 same_data rs ws → links tip n rs tip' n' →
  let m := new_manifest prefix kind t rs (sha256Bytes (body_of ws)) now in
  ∃ text pm, canonical_text m = Ret text ∧ parseManifest text = Ret pm ∧ describes ws tip n tip' n' pm.
Proof.
  intros Hok Hs Hlr m. pose proof Hok as [Hb Hne _ He Hl Ht Hn Hsafe].
  pose proof (new_manifest_describes tip n ws rs tip' n' now Hs Hlr (tip_shaped_ok _ Ht) Hne) as Hm. fold m in Hm.
  destruct (links_last_hash _ _ _ _ _ Hl Hne) as (h' & -> & Hh').
  assert (is_json m = true ∧ no_proto m = true) as [Hj Hp].
  { assert (rs ≠ []) as Hr by (by intros ->; inversion Hs).
    destruct (links_first _ _ _ _ _ Hlr Hr) as (_ & Hf & Hp), (links_last _ _ _ _ _ Hlr Hr) as (_ & Hto & Hh).
    unfold m, new_manifest. rewrite Hf, Hp, Hto, Hh. split.
    - apply is_json_obj. split; [reflexivity|].
      repeat first [apply Forall_nil_2 | apply Forall_cons_2; [first [apply is_json_int | by destruct Ht as [->|(? & -> & _)]]|]].
    - by destruct Ht as [->|(? & -> & _)]. }
  destruct (canonicalJson_json m Hj) as (text & Htext).
  destruct (canonicalJson_parse m text (is_json_nums m Hj) Htext) as (pm & Hnm & Hcm & Hpm).
  pose proof (normalize_same m pm Hj Hp Hnm) as Hsm. exists text, pm.
  assert (describes ws tip n (VStr h') n' pm) as Hd.
  { eapply describes_same; [by apply tip_shaped_ok|right; eauto|exact Hsm|exact Hm]. }
  split; [unfold canonical_text; by rewrite Htext|]. split; [|done]. unfold parseManifest. rewrite Hpm.
  erewrite described_valid; [done|exact Hok|exact Hd| |].
  - by rewrite <- (is_plain_object_same _ _ Hsm).
  - by erewrite leaf_same; [|exact Hsm|reflexivity|done].
Qed.

(** ** Reading a segment *)

Lemma parsed_line tip n w h : canonical w → owned kind t w → link tip n w h →
  parseArchivedRecord kind (VStr t) (text_line w) = Ret w.
Proof.
  intros Hc Ho [_ _ Hh Hd]. destruct (canonical_text_line w Hc) as [Htext Hparse]. unfold parseArchivedRecord.
  rewrite Hparse, Ho. cbn [mbind exc_mbind]. rewrite strict_eq_str_refl. cbn [negb].
  rewrite Htext. cbn [mbind exc_mbind]. rewrite bool_decide_true by done. cbn [negb].
  rewrite (proj2 (hashRecord_text kind w h) Hd), Hh. cbn [mbind exc_mbind]. by rewrite strict_eq_str_refl.
Qed.

Lemma parsed_lines tip n ws tip' n' : Forall canonical ws → Forall (owned kind t) ws → links tip n ws tip' n' →
  mapE (parseArchivedRecord kind (VStr t)) (text_line <$> ws) = Ret ws.
Proof.
  intros Hc He Hl. induction Hl as [|tip n w h ws tip' n' L _ IH]; [done|].
  inversion Hc; inversion He; subst. rewrite fmap_cons. cbn [mapE].
  rewrite (parsed_line tip n w h) by done. cbn [mbind exc_mbind]. by rewrite IH.
Qed.

Lemma text_line_nonempty w : is_json w = true → text_line w ≠ "".
Proof.
  intros Hj E. assert (chars (text_line w) = []) as E' by by rewrite E. unfold text_line in E'. rewrite chars_of_chars in E'.
  pose proof (parse_stringify w (of_chars (jtext w)) Hj (json_stringify_json w Hj)) as Hp. rewrite E' in Hp. by vm_compute in Hp.
Qed.

Lemma segment_lines ws : Forall (λ w, is_json w = true) ws →
  filter (λ l, l ≠ "") (split_lines (chars (decode_utf8 (body_of ws)))) = text_line <$> ws.
Proof.
  intros Hj. unfold body_of. rewrite decode_utf8_spec. unfold lines_text. rewrite chars_of_chars, split_lines_text.
  - rewrite filter_app. cbn. rewrite app_nil_r. clear -Hj. induction Hj as [|w ws Hw _ IH]; [done|].
    rewrite fmap_cons, filter_cons_True by by apply text_line_nonempty. by rewrite IH.
  - rewrite Forall_fmap. eapply Forall_impl; [exact Hj|]. intros w Hw. unfold compose, text_line. rewrite chars_of_chars.
    by apply jtext_visible.
Qed.

Lemma strict_eq_tip_refl v : tip_ok v → strict_eq v v = true.
Proof. intros Hv. by apply strict_eq_tip. Qed.

Lemma read_segment_ok tip n ws tip' n' m : segment_ok tip n ws tip' n' → describes ws tip n tip' n' m →
  read_segment kind m (body_of ws) = Ret ws.
Proof.
  intros [Hb Hne Hc He Hl Ht Hn Hsafe] [H1 H2 H3 H4 H5 H6 H7 H8]. unfold read_segment.
  assert (Forall (λ w, is_json w = true) ws) as Hj by (eapply Forall_impl; [exact Hc|]; apply canonical_json).
  rewrite H1, H2, H3, H4, H5, H6, H8, strict_eq_str_refl, segment_lines by done. cbn [negb].
  rewrite length_fmap, strict_eq_int_refl. cbn [negb]. rewrite (parsed_lines tip n ws tip' n') by done. cbn [mbind exc_mbind].
  destruct (links_first _ _ _ _ _ Hl Hne) as (Hf & _ & Hp), (links_last _ _ _ _ _ Hl Hne) as (Hto & _ & Hh).
  rewrite Hf, Hto. cbn [mbind exc_mbind]. rewrite !strict_eq_int_refl. cbn [negb mbind exc_mbind].
  rewrite Hp, Hh, !strict_eq_tip_refl; [done|by eapply tip_shaped_ok, links_shaped|by apply tip_shaped_ok].
Qed.
End Segments.
