(* ===== verification/ObjectKeys.v ===== *)
(** * The keys of the staging archive

    No object key lies in the epochs of two tenants, or in two epochs: the
    tenant is percent-encoded, so it has no slash and is recovered from the key,
    and a padded number is recovered from its digits. *)

From S2P Require Import Prelude Regex JsNum JsVal Dates JsonText Hash Canonical AuditChain Redact Event Retention.
From S2P Require Import HostCalls StagingArchive.

#[local] Open Scope Z_scope.

Definition free (c : ascii) (l : list ascii) : Prop := Forall (λ x, x ≠ c) l.
Definition slash_free (l : list ascii) : Prop := free "/" l.

Lemma free_app c l1 l2 : free c (l1 ++ l2) ↔ free c l1 ∧ free c l2.
Proof. apply Forall_app. Qed.

(** A text without a character ends at the first of these. *)
Lemma free_split c l1 : ∀ l2 r1 r2, free c l1 → free c l2 → l1 ++ c :: r1 = l2 ++ c :: r2 → l1 = l2 ∧ r1 = r2.
Proof.
  unfold free. induction l1 as [|a l1 IH]; intros [|b l2] r1 r2 H1 H2 E; cbn in E; simplify_eq.
  - done.
  - by inversion H2.
  - by inversion H1.
  - inversion H1; inversion H2; subst. destruct (IH l2 r1 r2) as [-> ->]; done.
Qed.

(** ** Percent encoding *)

Definition encode_char (c : ascii) : list ascii :=
  if uri_unreserved c then [c] else concat ((λ b, ["%"%char; hex_upper (b / 16); hex_upper (b mod 16)]) <$> utf8_char c).

Lemma encodeURIComponent_chars s : chars (encodeURIComponent s) = concat (encode_char <$> chars s).
Proof. unfold encodeURIComponent. by rewrite chars_of_chars. Qed.

Lemma encode_char_slash_free c : slash_free (encode_char c).
Proof. destruct c as [[] [] [] [] [] [] [] []]; vm_compute; repeat constructor; discriminate. Qed.

Lemma encodeURIComponent_slash_free s : slash_free (chars (encodeURIComponent s)).
Proof.
  rewrite encodeURIComponent_chars. induction (chars s) as [|c l IH]; [constructor|]. cbn.
  apply free_app. split; [apply encode_char_slash_free|exact IH].
Qed.

(** Reads the first encoded character. *)
Definition decode_char (l : list ascii) : option (ascii * list ascii) :=
  let hex c := if digit c then code c - 48 else code c - 55 in
  match l with
  | [] => None
  | p :: l' =>
      if Ascii.eqb p "%" then
        match l' with
        | h1 :: h2 :: l =>
            let b := hex h1 * 16 + hex h2 in
            if b <? 128 then Some (ascii_of_N (Z.to_N b), l)
            else match l with
                 | _ :: h3 :: h4 :: l => Some (ascii_of_N (Z.to_N ((b - 192) * 64 + (hex h3 * 16 + hex h4 - 128))), l)
                 | _ => None
                 end
        | _ => None
        end
      else Some (p, l')
  end.

Lemma decode_encode_char c l : decode_char (encode_char c ++ l) = Some (c, l).
Proof. destruct c as [[] [] [] [] [] [] [] []]; reflexivity. Qed.

Lemma encodeURIComponent_inj s1 s2 : encodeURIComponent s1 = encodeURIComponent s2 → s1 = s2.
Proof.
  intros E%(f_equal chars). rewrite !encodeURIComponent_chars in E.
  rewrite <- (of_chars_chars s1), <- (of_chars_chars s2). f_equal. revert E. generalize (chars s1), (chars s2).
  assert (∀ l, concat (encode_char <$> l) = [] → l = []) as Hnil.
  { intros [|c l] E; [done|]. cbn in E. pose proof (decode_encode_char c (concat (encode_char <$> l))) as D.
    by rewrite E in D. }
  intros l. induction l as [|c l IH]; intros l' E; [symmetry in E; symmetry; by apply Hnil|].
  destruct l' as [|c' l']; [by apply Hnil in E|]. cbn in E.
  apply (f_equal decode_char) in E. rewrite !decode_encode_char in E. injection E as -> E. f_equal. by apply IH.
Qed.

(** ** Padded numbers *)

Fixpoint drop_zeros (l : list ascii) : list ascii :=
  match l with c :: l' => if Ascii.eqb c "0" then drop_zeros l' else l | [] => [] end.

Lemma drop_zeros_replicate n l : drop_zeros (replicate n "0"%char ++ l) = drop_zeros l.
Proof. induction n as [|n IH]; [done|exact IH]. Qed.

Lemma num_of_Z_cases z :
  (z = 0 ∧ num_of_Z z = NFin 0 0) ∨ ∃ m e, num_of_Z z = NFin m e ∧ 0 <= e ∧ 0 < m * z.
Proof.
  pose proof (num_int_of_Z z) as Hi. destruct (num_of_Z z) as [| |m e] eqn:En; try discriminate Hi. cbn in Hi.
  destruct (Z.leb_spec 0 e) as [He|]; [|discriminate]. injection Hi as Hz.
  destruct (Z.eq_dec z 0) as [->|Hz0]; [left; split; [done|]; by rewrite <- En|]. right. exists m, e.
  split; [done|]. split; [done|]. pose proof (Z.pow_pos_nonneg 10 e ltac:(lia) He). nia.
Qed.

(** The characters of the numbers that are not negative. *)
Definition number_char (c : ascii) : bool := digit c || one_of ".e+" c.

Lemma number_chars_free c l : number_char c = false → Forall (λ x, number_char x = true) l → free c l.
Proof. intros Hc Hl. eapply Forall_impl; [exact Hl|]. intros x Hx ->. congruence. Qed.

(** An integer starts with a digit that is not zero. *)
Lemma pos_num_integer m e : 0 < m → 0 <= e →
  ∃ c l, pos_num_to_chars m e = c :: l ∧ c ≠ "0"%char ∧ Forall (λ x, number_char x = true) (c :: l).
Proof.
  assert (∀ l, Forall (λ c, digit c = true) l → Forall (λ x, number_char x = true) l) as Hnum.
  { intros l Hl. eapply Forall_impl; [exact Hl|]. intros c Hc. unfold number_char. by rewrite Hc. }
  intros Hm He. destruct (pos_digits m Hm) as (c & l & Hl & Hc & Hd & Hds & _).
  assert (c ≠ "0"%char) as Hc0 by (intros ->; by apply Hc).
  assert (Forall (λ x, number_char x = true) (c :: l)) as Hcl by (apply Hnum; by constructor).
  unfold pos_num_to_chars. rewrite Hl. pose proof (Zle_0_nat (length (c :: l))) as Hk.
  destruct ((_ <=? _) && (_ <=? 21)) eqn:E1.
  { exists c, (l ++ zeros (Z.of_nat (length (c :: l)) + e - Z.of_nat (length (c :: l)))). repeat split; [done|].
    rewrite app_comm_cons. apply Forall_app. split; [done|]. apply Hnum, zeros_digits. }
  assert (21 < Z.of_nat (length (c :: l)) + e) as Hn by (bool_prop; lia).
  rewrite (proj2 (Z.leb_gt _ 21) Hn), (andb_false_r (0 <? _)). rewrite (proj2 (Z.leb_gt _ 0)) by lia. rewrite andb_false_r.
  assert (Forall (λ x, number_char x = true) (exp_chars (Z.of_nat (length (c :: l)) + e - 1))) as Hexp.
  { unfold exp_chars. rewrite (proj2 (Z.ltb_ge _ 0)) by lia. constructor; [done|]. apply Hnum. apply digits_spec. lia. }
  apply Forall_cons in Hcl as [Hcs Hls].
  destruct l as [|c' l]; (eexists _, _; split; [done|split; [done|]]); constructor; try done; constructor; try done.
  apply Forall_app. split; [done|]. by constructor.
Qed.

Lemma int_chars z :
  slash_free (num_to_chars (num_of_Z z)) ∧ (0 <= z → free "-" (num_to_chars (num_of_Z z))) ∧
  drop_zeros (num_to_chars (num_of_Z z)) = if z =? 0 then [] else num_to_chars (num_of_Z z).
Proof.
  destruct (num_of_Z_cases z) as [[-> ->]|(m & e & -> & He & Hm)]; [by split_and!; [repeat constructor|intros _; repeat constructor|]|].
  rewrite (proj2 (Z.eqb_neq z 0)) by nia. cbn [num_to_chars]. rewrite (proj2 (Z.eqb_neq m 0)) by nia.
  assert (m ≠ 0) by (intros ->; lia). destruct (Z.ltb_spec m 0) as [Hn|Hp].
  - destruct (pos_num_integer (- m) e ltac:(lia) He) as (c & l & -> & Hc & Hf).
    split; [constructor; [done|by apply number_chars_free]|]. split; [nia|done].
  - destruct (pos_num_integer m e ltac:(lia) He) as (c & l & -> & Hc & Hf).
    split; [by apply number_chars_free|]. split; [intros _; by apply number_chars_free|]. cbn.
    destruct (Ascii.eqb_spec c "0"); congruence.
Qed.

Lemma padSequence_slash_free z : slash_free (chars (padSequence z)).
Proof.
  unfold padSequence. rewrite chars_of_chars. apply free_app. split; [by apply Forall_replicate|apply int_chars].
Qed.

Lemma padSequence_dash_free z : 0 <= z → free "-" (chars (padSequence z)).
Proof.
  intros Hz. unfold padSequence. rewrite chars_of_chars. apply free_app. split; [by apply Forall_replicate|by apply int_chars].
Qed.

Lemma padSequence_inj z1 z2 : padSequence z1 = padSequence z2 → z1 = z2.
Proof.
  intros E%(f_equal chars)%(f_equal drop_zeros). unfold padSequence in E. rewrite !chars_of_chars, !drop_zeros_replicate in E.
  rewrite !(proj2 (proj2 (int_chars _))) in E.
  assert (∀ z, num_to_chars (num_of_Z z) ≠ []) as Hne.
  { intros z Hz. pose proof (parse_num_to_chars (num_of_Z z) [] (num_of_Z_wf z) (num_of_Z_finite z)) as Hp.
    rewrite Hz in Hp. cbn in Hp. by specialize (Hp I). }
  destruct (Z.eqb_spec z1 0), (Z.eqb_spec z2 0); subst; [done|by destruct (Hne _ (eq_sym E))|by destruct (Hne _ E)|].
  pose proof (parse_num_to_chars (num_of_Z z1) [] (num_of_Z_wf z1) (num_of_Z_finite z1) I) as H1.
  rewrite E, (parse_num_to_chars (num_of_Z z2) [] (num_of_Z_wf z2) (num_of_Z_finite z2) I) in H1.
  injection H1 as H1. by apply num_of_Z_inj.
Qed.

(** ** The prefix of an epoch *)

Lemma epoch_keys_disjoint prefix tenant1 epoch1 name1 tenant2 epoch2 name2 :
  epochKeyPrefix prefix tenant1 epoch1 +:+ "/" +:+ name1 = epochKeyPrefix prefix tenant2 epoch2 +:+ "/" +:+ name2 →
  tenant1 = tenant2 ∧ epoch1 = epoch2.
Proof.
  unfold epochKeyPrefix. rewrite <- !string_app_assoc. intros E%string_app_inj_l%string_app_inj_l%(f_equal chars).
  rewrite !chars_app in E. apply free_split in E as [Et E]; [|apply encodeURIComponent_slash_free..].
  apply (f_equal (drop 12)) in E. cbn [app drop chars] in E.
  apply free_split in E as [Ee _]; [|apply padSequence_slash_free..].
  apply (f_equal of_chars) in Et, Ee. rewrite !of_chars_chars in Et, Ee.
  split; [by apply encodeURIComponent_inj|by apply padSequence_inj].
Qed.
