(* ===== verification/Coordinator.v ===== *)
(** * The retention coordinator (storage/src/retention-coordinator.ts)

    One epoch: seal and verify the records in the archive, drop them from the
    audit store, prepare their disposal, delete them from the archive, confirm
    that they are gone, and confirm the signed receipt. The stores, the archive's
    provider, the lease, the fences, the signing callbacks and the clock are calls
    of the program; values are copied by the code where the model shares them,
    which only matters to hosts that change what they are given. *)

From S2P Require Import Prelude Regex JsNum JsVal Dates JsonText Hash Canonical AuditChain Redact Event Retention.
From S2P Require Import Store HostCalls StagingArchive.

#[local] Open Scope Z_scope.

(** [previousCheckpoint] is [null] or a checkpoint; the fields of [eligibility],
    [checkpoint] and [disposition] have names of their own. *)
Record RunRetentionEpochOptions := EpochOptions {
  archive : RetentionStagingArchive;
  opt_tenantId : val;
  opt_records : list val;
  opt_previousCheckpoint : val;
  opt_expectedState : val;
  opt_eligible : val;
  opt_policyReference : val;
  opt_version : val;
  opt_checkpointId : val;
  opt_createdAt : val;
  opt_attemptId : val;
  opt_dispositionId : val;
  has_resolveDisposedAt : bool;
  opt_segmentRecordCount : val;
  opt_verification : RetentionVerificationOptions;
  has_withEpochLease : bool;
}.

Record RunRetentionEpochResult := EpochResult {
  result_manifest : option val;
  result_checkpoint : val;
  result_disposition : val;
}.

(** [withPolicyFence(version, operation)] *)
Definition withPolicyFence {A} (version : val) (operation : prog A) : prog A :=
  bracket (EnterFence version) (LeaveFence version) operation.

Definition withEpochLease {A} (operation : prog A) : prog A := bracket EnterLease LeaveLease operation.

Section Coordinator.
Context `{Hasher} `{Host} `{Base64}.

Definition assertPolicyReference (value : val) : exc unit :=
  guard_exc (match value with VStr s => re_test POLICY_REFERENCE_PATTERN s | _ => false end) "policyReference is invalid".

Definition assertFence (value : val) : exc unit :=
  match non_negative_safe value with Some _ => Ret tt | None => Throw "retention policy fence is invalid" end.

Definition assertExactUtcMillisecond (value : val) (field : string) : exc unit := assertTimestamp value field.

Definition validateCoordinatorInputs (options : RunRetentionEpochOptions) : exc unit :=
  _ ← assertId (opt_tenantId options) "tenantId";
  _ ← guard_exc (strict_eq (opt_eligible options) (VBool true)) "retention epoch is not eligible";
  _ ← assertPolicyReference (opt_policyReference options);
  _ ← assertFence (opt_version options);
  _ ← assertId (opt_checkpointId options) "checkpointId";
  _ ← assertId (opt_attemptId options) "attemptId";
  _ ← assertId (opt_dispositionId options) "dispositionId";
  _ ← guard_exc (has_resolveDisposedAt options) "resolveDisposedAt is required";
  guard_exc (is_null (opt_previousCheckpoint options)
             || strict_eq (vget_opt (opt_previousCheckpoint options) "tenantId") (opt_tenantId options))
    "previous checkpoint tenant mismatch".

(** [(previousCheckpoint?.epoch ?? 0) + 1]; a value that is no integer gives no epoch. *)
Definition next_epoch (previous : val) : val :=
  match nullish_or (vget_opt previous "epoch") (VInt 0) with
  | VNum n => match num_int n with Some z => VInt (js_succ z) | None => VUndef end
  | _ => VUndef
  end.

Definition same_fields (keys : list string) (a b : val) : bool :=
  forallb (λ k, strict_eq (vget_opt a k) (vget_opt b k)) keys.

Definition checkpoint_binding_keys : list string :=
  ["checkpointId"; "tenantId"; "chainKind"; "epoch"; "fromSequence"; "fromPreviousHash"; "throughSequence"; "throughHash";
   "recordCount"; "archiveRootHash"; "previousCheckpointHash"; "createdAt"].

Definition assertCheckpointFactoryBinding (checkpoint input : val) : exc unit :=
  guard_exc (same_fields checkpoint_binding_keys checkpoint input) "checkpoint factory changed coordinator-owned fields".

Definition disposition_binding_keys : list string :=
  ["dispositionId"; "tenantId"; "chainKind"; "checkpointHash"; "fromSequence"; "throughSequence"; "archiveRootHash";
   "policyReference"; "disposedAt"].

Definition by_provider (receipt : val) : bool := strict_eq (vget_opt receipt "method") (VStr "provider-delete").

Definition assertDispositionFactoryBinding (receipt input : val) : exc unit :=
  guard_exc (same_fields disposition_binding_keys receipt input && by_provider receipt)
    "disposition factory changed coordinator-owned fields".

Definition assertVerifiedCheckpoint (checkpoint : val) (options : RetentionVerificationOptions) : exc unit :=
  verification ← verifyRetentionCheckpoint checkpoint options;
  guard_exc (accepted verification) "invalid retention checkpoint".

Definition assertVerifiedDisposition (receipt checkpoint : val) (options : RetentionVerificationOptions) : exc unit :=
  verification ← verifyRetentionDisposition receipt checkpoint options;
  guard_exc (accepted verification) "invalid retention disposition".

Definition checkpointInputFromStored (options : RunRetentionEpochOptions) (stored : val) : val :=
  let field k := (k, vget_opt stored k) in
  VObj [("checkpointId", opt_checkpointId options); field "tenantId"; field "chainKind"; field "epoch";
        field "fromSequence"; field "fromPreviousHash"; field "throughSequence"; field "throughHash"; field "recordCount";
        field "archiveRootHash"; field "previousCheckpointHash"; ("createdAt", opt_createdAt options)].

Definition assertStoredCheckpointAnchor (checkpoint previous expectedEpoch tenantId : val) : exc unit :=
  let field := vget_opt checkpoint in
  _ ← guard_exc (strict_eq (field "tenantId") tenantId && strict_eq (field "chainKind") (VStr "audit")
                 && strict_eq (field "epoch") expectedEpoch) "stored retention checkpoint scope or epoch mismatch";
  if is_null previous then
    guard_exc (strict_eq (field "epoch") (VInt 1) && is_null (field "previousCheckpointHash")
               && strict_eq (field "fromSequence") (VInt 1) && is_null (field "fromPreviousHash"))
      "stored retention checkpoint does not extend genesis"
  else
    verification ← verifyRetentionCheckpoint previous no_options;
    _ ← guard_exc (accepted verification) "invalid previous checkpoint";
    guard_exc (strict_eq (vget_opt previous "tenantId") tenantId
               && strict_eq (field "epoch") (VInt (int_at previous "epoch" + 1))
               && strict_eq (field "previousCheckpointHash") (vget_opt previous "hash")
               && strict_eq (field "fromSequence") (VInt (int_at previous "throughSequence" + 1))
               && strict_eq (field "fromPreviousHash") (vget_opt previous "throughHash"))
      "stored retention checkpoint does not extend prior checkpoint".

Definition assertAcceptedDispositionBinding (options : RunRetentionEpochOptions) (checkpoint receipt : val) : exc unit :=
  _ ← assertVerifiedDisposition receipt checkpoint (opt_verification options);
  let field := vget_opt receipt in
  guard_exc (strict_eq (field "dispositionId") (opt_dispositionId options)
             && strict_eq (field "tenantId") (opt_tenantId options)
             && strict_eq (field "chainKind") (VStr "audit")
             && strict_eq (field "checkpointHash") (vget_opt checkpoint "hash")
             && same_fields ["fromSequence"; "throughSequence"; "archiveRootHash"] receipt checkpoint
             && strict_eq (field "policyReference") (opt_policyReference options)
             && by_provider receipt) "retention disposition replay conflict".

(** ** The stages of an epoch *)

Definition seal_input (options : RunRetentionEpochOptions) (epoch : val) : SealRetentionEpochInput :=
  SealInput (opt_tenantId options) epoch (opt_previousCheckpoint options) (opt_records options) (opt_segmentRecordCount options).

(** The host's factory, and the checks of what it made. *)
Definition make_checkpoint (options : RunRetentionEpochOptions) (input : val) : prog val :=
  checkpoint ← ask (CreateCheckpoint input);
  _ ← run (assertCheckpointFactoryBinding checkpoint input);
  _ ← run (assertVerifiedCheckpoint checkpoint (opt_verification options));
  mret checkpoint.

(** The epoch is stored: its checkpoint must replay exactly. *)
Definition recover_stage (options : RunRetentionEpochOptions) (epoch stored : val) : prog (option val * val) :=
  _ ← run (assertVerifiedCheckpoint stored (opt_verification options));
  _ ← run (assertStoredCheckpointAnchor stored (opt_previousCheckpoint options) epoch (opt_tenantId options));
  replayed ← make_checkpoint options (checkpointInputFromStored options stored);
  same ← run (same_text stored replayed);
  _ ← require same "retention checkpoint replay conflict";
  manifest ← archive_recover (archive options) stored;
  mret (manifest, stored).

(** The input of the checkpoint factory for a derived epoch. *)
Definition derived_checkpoint_input (options : RunRetentionEpochOptions) (epoch manifest : val) : val :=
  let field k := (k, vget_opt manifest k) in
  VObj [("checkpointId", opt_checkpointId options); ("tenantId", opt_tenantId options); ("chainKind", VStr "audit");
        ("epoch", epoch); field "fromSequence"; field "fromPreviousHash"; field "throughSequence"; field "throughHash";
        field "recordCount"; field "archiveRootHash";
        ("previousCheckpointHash", nullish_or (vget_opt (opt_previousCheckpoint options) "hash") VNull);
        ("createdAt", opt_createdAt options)].

Definition derive_stage (options : RunRetentionEpochOptions) (epoch : val) : prog (option val * val) :=
  _ ← require (negb (length (opt_records options) =? 0)%nat) "retention epoch requires at least one record";
  manifest ← run (archive_derive (archive options) (seal_input options epoch));
  checkpoint ← make_checkpoint options (derived_checkpoint_input options epoch manifest);
  mret (Some manifest, checkpoint).

(** The records are in the archive, and it has been read back. *)
Definition seal_stage (options : RunRetentionEpochOptions) (epoch manifest : val) : prog unit :=
  sealed ← archive_seal (archive options) (seal_input options epoch);
  same ← run (same_text sealed manifest);
  _ ← require same "staged retention manifest derivation mismatch";
  verification ← archive_verify (archive options) manifest;
  match verification with
  | StagingFailed _ => Done (inr (TypeError "staged retention epoch verification failed"))
  | StagingOk root _ _ =>
      require (strict_eq root (vget_opt manifest "archiveRootHash")) "staged retention archive root mismatch"
  end.

(** The operation under the first fence. *)
Definition crop_stage (options : RunRetentionEpochOptions) (checkpoint : val) : prog unit :=
  _ ← run (assertVerifiedCheckpoint checkpoint (opt_verification options));
  checkpoints ← ask (ListCheckpoints (opt_tenantId options));
  match find (λ c, strict_eq (vget_opt c "epoch") (vget_opt checkpoint "epoch")) checkpoints with
  | Some stored =>
      same ← run (same_text stored checkpoint);
      require same "retention checkpoint replay conflict"
  | None =>
      _ ← require (strict_eq (vget_opt (opt_expectedState options) "retentionPolicyFence") (opt_version options))
            "retention policy fence mismatch";
      ask (CompactRange (opt_tenantId options) checkpoint (opt_expectedState options) (opt_version options))
  end.

Definition createAndVerifyDisposition (options : RunRetentionEpochOptions) (checkpoint disposedAt : val) : prog val :=
  let field k := (k, vget_opt checkpoint k) in
  let input := VObj
    [("dispositionId", opt_dispositionId options); ("tenantId", opt_tenantId options); ("chainKind", VStr "audit");
     ("checkpointHash", vget_opt checkpoint "hash"); field "fromSequence"; field "throughSequence"; field "archiveRootHash";
     ("policyReference", opt_policyReference options); ("disposedAt", disposedAt)] in
  receipt ← ask (CreateDisposition input);
  _ ← run (assertDispositionFactoryBinding receipt input);
  _ ← run (assertVerifiedDisposition receipt checkpoint (opt_verification options));
  mret receipt.

Definition pending_attempt (options : RunRetentionEpochOptions) (checkpoint : val) : val :=
  VObj [("attemptId", opt_attemptId options); ("checkpointHash", vget_opt checkpoint "hash");
        ("policyFence", opt_version options); ("status", VStr "pending")].

Definition absent_stage (options : RunRetentionEpochOptions) (checkpoint : val) : prog unit :=
  absent ← archive_checkpoint_absent (archive options) checkpoint;
  require absent "staged retention epoch is present after confirmed disposition".

Definition disposed_context (options : RunRetentionEpochOptions) (checkpoint : val) : val :=
  VObj [("tenantId", opt_tenantId options); ("checkpoint", checkpoint); ("attemptId", opt_attemptId options);
        ("dispositionId", opt_dispositionId options); ("policyFence", opt_version options)].

(** Deletion and the receipt, once the attempt is prepared. *)
Definition disposal (options : RunRetentionEpochOptions) (checkpoint : val) (manifest : option val) (attempt : val) : prog val :=
  _ ← require (same_fields ["attemptId"; "checkpointHash"; "policyFence"; "status"] attempt (pending_attempt options checkpoint))
        "prepared disposition attempt binding mismatch";
  _ ← match manifest with Some m => archive_delete (archive options) m | None => mret tt end;
  deleted ← match manifest with
            | Some m => archive_epoch_absent (archive options) m
            | None => archive_checkpoint_absent (archive options) checkpoint
            end;
  _ ← require deleted "staged retention epoch deletion is unconfirmed";
  disposedAt ← ask (ResolveDisposedAt (disposed_context options checkpoint));
  _ ← run (assertExactUtcMillisecond disposedAt "disposedAt");
  receipt ← createAndVerifyDisposition options checkpoint disposedAt;
  _ ← ask (ConfirmDisposition (opt_tenantId options) receipt (vget_opt attempt "attemptId") (opt_version options));
  mret receipt.

(** The operation under the second fence. *)
Definition dispose_stage (options : RunRetentionEpochOptions) (checkpoint : val) (manifest : option val) : prog val :=
  state ← ask (GetChainState (opt_tenantId options));
  _ ← require (strict_eq (vget_opt state "retentionPolicyFence") (opt_version options)) "retention policy fence mismatch";
  checkpoints ← ask (ListCheckpoints (opt_tenantId options));
  same ← match find (λ c, strict_eq (vget_opt c "hash") (vget_opt checkpoint "hash")) checkpoints with
         | Some stored => run (same_text stored checkpoint)
         | None => mret false
         end;
  _ ← require same "retention checkpoint was not durably compacted";
  dispositions ← ask (ListDispositions (opt_tenantId options));
  match find (λ d, strict_eq (vget_opt d "checkpointHash") (vget_opt checkpoint "hash")) dispositions with
  | Some accepted =>
      _ ← run (assertAcceptedDispositionBinding options checkpoint accepted);
      _ ← absent_stage options checkpoint;
      mret accepted
  | None =>
      attempt ← ask (PrepareDisposition (opt_tenantId options) (vget_opt checkpoint "hash")
                       (pending_attempt options checkpoint) (opt_version options));
      disposal options checkpoint manifest attempt
  end.

Definition runRetentionEpochUnderLease (options : RunRetentionEpochOptions) : prog RunRetentionEpochResult :=
  _ ← run (validateCoordinatorInputs options);
  let epoch := next_epoch (opt_previousCheckpoint options) in
  preflightCheckpoints ← ask (ListCheckpoints (opt_tenantId options));
  preflightDispositions ← ask (ListDispositions (opt_tenantId options));
  let preflight := find (λ c, strict_eq (vget_opt c "epoch") epoch) preflightCheckpoints in
  '(manifest, checkpoint) ← match preflight with
                            | Some stored => recover_stage options epoch stored
                            | None => derive_stage options epoch
                            end;
  match find (λ d, strict_eq (vget_opt d "checkpointHash") (vget_opt checkpoint "hash")) preflightDispositions with
  | Some confirmed =>
      _ ← require (match preflight with Some _ => true | None => false end) "retention disposition checkpoint is missing";
      _ ← run (assertAcceptedDispositionBinding options checkpoint confirmed);
      _ ← absent_stage options checkpoint;
      mret (EpochResult manifest checkpoint confirmed)
  | None =>
      _ ← match preflight, manifest with
          | None, Some m => seal_stage options epoch m
          | None, None => Done (inr (TypeError "retention epoch derivation is unavailable"))
          | Some _, _ => mret tt
          end;
      _ ← withPolicyFence (opt_version options) (crop_stage options checkpoint);
      disposition ← withPolicyFence (opt_version options) (dispose_stage options checkpoint manifest);
      mret (EpochResult manifest checkpoint disposition)
  end.

Definition runRetentionEpoch (options : RunRetentionEpochOptions) : prog RunRetentionEpochResult :=
  if has_withEpochLease options then withEpochLease (runRetentionEpochUnderLease options)
  else Done (inr (TypeError "withEpochLease is required")).
End Coordinator.
