(* ===== verification/RetentionHost.v ===== *)
(** * A host for the retention coordinator

    The in-memory audit store, an object store that keeps what is put and lists
    what it has, factories that create unsigned records, a lease and fences that
    are granted, and a clock: the conforming host of the theorems and examples. *)

From S2P Require Import Prelude Regex JsNum JsVal Dates JsonText Hash Canonical AuditChain Redact Event Retention.
From S2P Require Import Store HostCalls StagingArchive Coordinator.

#[local] Open Scope Z_scope.

Record host := MkHost {
  audit : store;
  objects : gmap string (list Z);
  disposal_time : string;
}.

Definition tenant_scope (tenantId : val) : val := VObj [("tenantId", tenantId)].

(** Answers of operations that return or throw. *)
Definition answered {A} (h : host) (m : exc A) : host * outcome A :=
  (h, match m with Ret a => inl a | Throw msg => inr (TypeError msg) end).

Definition stored {A} (h : host) (m : exc (store * A)) : host * outcome A :=
  match m with
  | Ret (s, a) => (MkHost s (objects h) (disposal_time h), inl a)
  | Throw msg => (h, inr (TypeError msg))
  end.

Definition with_objects (h : host) (o : gmap string (list Z)) : host := MkHost (audit h) o (disposal_time h).

Definition listed_keys (o : gmap string (list Z)) (prefix : string) : list string :=
  List.filter (String.prefix prefix) (map_to_list o).*1.

Definition host_answer `{Hasher} `{Host} `{Base64} (c : call) (h : host) : host * outcome (reply c) :=
  match c return host * outcome (reply c) with
  | GetObject key => (h, inl (objects h !! key))
  | PutObject key body => (with_objects h (<[key := body]> (objects h)), inl tt)
  | ListObjects prefix => (h, inl (listed_keys (objects h) prefix))
  | DeleteObject key => (with_objects h (delete key (objects h)), inl tt)
  | ListCheckpoints tenantId => answered h (listCheckpoints (audit h) (tenant_scope tenantId))
  | ListDispositions tenantId => answered h (listDispositions (audit h) (tenant_scope tenantId))
  | GetChainState tenantId =>
      answered h (state ← getChainState (audit h) (tenant_scope tenantId); Ret (chain_state_val state))
  | CompactRange tenantId checkpoint expected fence =>
      stored h (s ← compactRange (audit h) (tenant_scope tenantId) checkpoint expected fence; Ret (s, tt))
  | PrepareDisposition tenantId hash attempt fence =>
      stored h ('(s, a) ← prepareDisposition (audit h) (tenant_scope tenantId) hash attempt fence; Ret (s, attempt_val a))
  | ConfirmDisposition tenantId receipt attemptId fence =>
      stored h (s ← confirmDisposition (audit h) (tenant_scope tenantId) receipt attemptId fence; Ret (s, tt))
  | CreateCheckpoint input => answered h (createRetentionCheckpoint input VUndef)
  | CreateDisposition input => answered h (createRetentionDisposition input VUndef)
  | ResolveDisposedAt _ => (h, inl (VStr (disposal_time h)))
  | EnterLease | LeaveLease | EnterFence _ | LeaveFence _ => (h, inl tt)
  end.
