(* ===== verification/ArchiveHistory.v ===== *)
(** * Histories of the object archive

    The archive in an object store that keeps what is put: whatever is sealed, in
    whatever order, and wherever a sealing stops, the manifests list contiguous
    segments from the origin of the chain, their bytes are there, and the replay
    accepts them. *)

From S2P Require Import Prelude Regex JsNum JsVal Dates JsonText Hash Sha256 Canonical Keyed AuditChain ChainModes SameData Redact Event Retention.
From S2P Require Import ExportBundle BundleVerify Store HostCalls StagingArchive ObjectKeys Doubles ObjectArchive SealedSegments.
From S2P Require Import Coordinator RetentionHost.

#[local] Open Scope Z_scope.
#[local] Arguments num_of_Z : simpl never.

(** ** An object store *)

Abbreviation bucket := (gmap string (list Z)).

Definition bucket_answer (c : call) (b : bucket) : bucket * outcome (reply c) :=
  match c return bucket * outcome (reply c) with
  | GetObject key => (b, inl (b !! key))
  | PutObject key body => (<[key := body]> b, inl tt)
  | ListObjects prefix => (b, inl (listed_keys b prefix))
  | _ => (b, inr (OtherError "not an object store"))
  end.

(** A program that changes nothing and returns [a]. *)
Record reads {A} (p : prog A) (b : bucket) (a : A) : Prop := {
  reads_visits : ∀ b', visits bucket_answer p b b' → b' = b;
  reads_final : final bucket_answer p b = b;
  reads_result : result bucket_answer p b = inl a;
}.

Lemma reads_ret {A} (a : A) b : reads (mret a) b a.
Proof. constructor; [by intros b' ?%visits_done|done|done]. Qed.

Lemma reads_run {A} (m : exc A) a b : m = Ret a → reads (run m) b a.
Proof. intros ->. apply (reads_ret a b). Qed.

Lemma reads_bind {A B} (p : prog A) (f : A → prog B) b a c : reads p b a → reads (f a) b c → reads (p ≫= f) b c.
Proof.
  intros [V1 F1 R1] [V2 F2 R2]. constructor.
  - intros b' [Hv|(a' & E & Hv)]%visits_bind; [by apply V1|]. rewrite R1 in E. injection E as <-. rewrite F1 in Hv. by apply V2.
  - by rewrite final_bind, R1, F1.
  - by rewrite result_bind, R1, F1.
Qed.

Lemma reads_get key b : reads (ask (GetObject key)) b (b !! key).
Proof. constructor; [|done|done]. intros b' [->|Hv%visits_done]%visits_call; done. Qed.

Lemma reads_list pre b : reads (ask (ListObjects pre)) b (listed_keys b pre).
Proof. constructor; [|done|done]. intros b' [->|Hv%visits_done]%visits_call; done. Qed.

Lemma reads_then {A B} (p : prog A) (f : A → prog B) b a b' :
  reads p b a → visits bucket_answer (p ≫= f) b b' → b' = b ∨ visits bucket_answer (f a) b b'.
Proof.
  intros [V1 F1 R1] [Hv|(a' & E & Hv)]%visits_bind; [left; by apply V1|]. rewrite R1 in E. injection E as <-.
  rewrite F1 in Hv. by right.
Qed.

Lemma reads_continue {A B} (p : prog A) (f : A → prog B) b a : reads p b a →
  final bucket_answer (p ≫= f) b = final bucket_answer (f a) b ∧
  result bucket_answer (p ≫= f) b = result bucket_answer (f a) b.
Proof. intros [_ F R]. by rewrite final_bind, result_bind, R, F. Qed.

Lemma reads_try {A} handler (p : prog A) b a : reads p b a → reads (try_catch handler p) b a.
Proof.
  intros [V F R].
  assert (result bucket_answer (try_catch handler p) b = inl a ∧
    final bucket_answer (try_catch handler p) b = final bucket_answer p b ∧
    ∀ b', visits bucket_answer (try_catch handler p) b b' → visits bucket_answer p b b') as (R' & F' & V').
  { clear V F. revert b R. induction p as [[x|e]|c k IH]; intros b R; [done|done|].
    rewrite result_call in R. destruct (IH _ _ R) as (R' & F' & V'). cbn [try_catch]. rewrite result_call, !final_call.
    split; [done|]. split; [done|]. intros b' [->|Hv]%visits_call; [by exists 0%nat|]. destruct (V' b' Hv) as [n Hn].
    exists (S n). cbn [upto]. by destruct (bucket_answer c b). }
  constructor; [by auto|congruence|done].
Qed.

(** ** Keys *)

Lemma string_prefix_app p s : String.prefix p s = true ↔ ∃ x, s = p +:+ x.
Proof.
  revert s. induction p as [|c p IH]; intros s; [split; [by exists s|by destruct s]|]. destruct s as [|c' s].
  - split; [done|]. by intros (x & E).
  - cbn [String.prefix]. destruct (ascii_dec c c') as [<-|Hne].
    + rewrite IH. split; intros (x & E); exists x; [by rewrite E|]. rewrite string_app_cons in E. by injection E.
    + split; [done|]. intros (x & E). rewrite string_app_cons in E. by injection E as ->.
Qed.

Lemma ends_with_app suffix s : ends_with suffix s = true ↔ ∃ x, s = x +:+ suffix.
Proof.
  unfold ends_with. rewrite bool_decide_eq_true. split.
  - intros E. exists (of_chars (take (length (chars s) - length (chars suffix)) (chars s))).
    rewrite <- (of_chars_chars suffix) at 2. rewrite <- E at 2. by rewrite <- of_chars_app, take_drop, of_chars_chars.
  - intros (x & ->). rewrite chars_app, length_app. replace (_ + _ - _)%nat with (length (chars x)) by lia.
    by rewrite drop_app_length.
Qed.

Lemma segment_no_manifest x : ends_with MANIFEST_SUFFIX (x +:+ ".ndjson") = false.
Proof.
  destruct (ends_with _ _) eqn:E; [|done]. apply ends_with_app in E as (y & E). apply (f_equal (λ s, rev (chars s))) in E.
  rewrite !chars_app, !rev_app_distr in E. discriminate E.
Qed.

Section Keys.
Context (prefix : string).

Lemma tenantPrefix_disjoint kind t kind' t' x x' :
  tenantPrefix prefix kind t +:+ x = tenantPrefix prefix kind' t' +:+ x' → kind = kind' ∧ t = t'.
Proof.
  unfold tenantPrefix. rewrite <- !string_app_assoc. intros E%string_app_inj_l%string_app_inj_l%(f_equal chars).
  rewrite !chars_app in E. apply free_split in E as [Et E]; [|apply encodeURIComponent_slash_free..].
  apply (f_equal of_chars) in Et. rewrite !of_chars_chars in Et. split; [|by apply encodeURIComponent_inj].
  by destruct kind, kind'.
Qed.

Lemma segment_name_from kind t f to_ f' to' : 0 <= f → 0 <= f' →
  segment_name prefix kind t f to_ = segment_name prefix kind t f' to' → f = f'.
Proof.
  intros Hf Hf'. unfold segment_name. intros E%string_app_inj_l%(f_equal chars). rewrite !chars_app in E.
  apply free_split in E as [E _]; [|by apply padSequence_dash_free..].
  apply (f_equal of_chars) in E. rewrite !of_chars_chars in E. by apply padSequence_inj.
Qed.

Lemma segment_name_shape kind t f to_ : ∃ x, segment_name prefix kind t f to_ = tenantPrefix prefix kind t +:+ x +:+ ".ndjson".
Proof. eexists (padSequence f +:+ "-" +:+ padSequence to_). unfold segment_name. by rewrite <- !string_app_assoc. Qed.
End Keys.

(** ** What an archive holds *)

(** A committed segment, with the text of its manifest and the manifest read back. *)
Record entry := Entry {
  e_tip : val; e_n : Z; e_ws : list val; e_tip' : val; e_n' : Z; e_text : string; e_manifest : val;
}.

Section Holds.
Context `{HS : Hasher} `{HO : Host} `{TD : TextDecoder}.
Context (prefix : string) (kind : chainKind) (t : string).

Record entry_ok (e : entry) : Prop := {
  entry_segment : segment_ok kind t (e_tip e) (e_n e) (e_ws e) (e_tip' e) (e_n' e);
  entry_parsed : parseManifest (e_text e) = Ret (e_manifest e);
  entry_described : describes prefix kind t (e_ws e) (e_tip e) (e_n e) (e_tip' e) (e_n' e) (e_manifest e);
}.

Definition skey (e : entry) : string := segment_name prefix kind t (e_n e + 1) (e_n' e).
Definition mkey (e : entry) : string := skey e +:+ MANIFEST_SUFFIX.

(** Entries that follow each other. *)
Inductive entries : val → Z → list entry → val → Z → Prop :=
| entries_nil tip n : entries tip n [] tip n
| entries_cons tip n e es tip' n' :
    entry_ok e → e_tip e = tip → e_n e = n → entries (e_tip' e) (e_n' e) es tip' n' → entries tip n (e :: es) tip' n'.

Definition records_of (es : list entry) : list val := concat (e_ws <$> es).

Definition is_manifest_key (key : string) : Prop :=
  String.prefix (tenantPrefix prefix kind t) key = true ∧ ends_with MANIFEST_SUFFIX key = true.

Record holds (b : bucket) (es : list entry) : Prop := {
  holds_manifests : ∀ key, is_Some (b !! key) → is_manifest_key key → ∃ e, e ∈ es ∧ key = mkey e;
  holds_entries : Forall (λ e, b !! mkey e = Some (utf8 (e_text e)) ∧ b !! skey e = Some (body_of (e_ws e))) es;
}.

Lemma entries_ok tip n es tip' n' : entries tip n es tip' n' → Forall entry_ok es.
Proof. induction 1; by constructor. Qed.

Lemma entry_grows e : entry_ok e → 0 <= e_n e ∧ e_n e < e_n' e.
Proof.
  intros [[_ Hne _ _ Hl _ Hn _] _ _]. pose proof (links_length _ _ _ _ _ Hl). destruct (e_ws e); [done|]. cbn [length] in *. lia.
Qed.

Lemma entries_le tip n es tip' n' : entries tip n es tip' n' → n <= n' ∧ Forall (λ e, n <= e_n e ∧ e_n' e <= n') es.
Proof.
  induction 1 as [|tip n e es tip' n' Hok _ <- _ [IH1 IH2]]; [done|]. pose proof (entry_grows e Hok).
  split; [lia|]. constructor; [lia|]. eapply Forall_impl; [exact IH2|]. cbn. intros e' ?. lia.
Qed.

Lemma entries_sorted tip n es tip' n' : entries tip n es tip' n' → StronglySorted (λ e e', e_n e < e_n e') es.
Proof.
  induction 1 as [|tip n e es tip' n' Hok _ <- Hes IH]; constructor; [done|]. pose proof (entry_grows e Hok).
  eapply Forall_impl; [exact (proj2 (entries_le _ _ _ _ _ Hes))|]. cbn. intros e' ?. lia.
Qed.

Lemma entries_inj tip n es tip' n' e e' : entries tip n es tip' n' → e ∈ es → e' ∈ es → e_n e = e_n e' → e = e'.
Proof.
  intros Hes%entries_sorted. induction Hes as [|x es _ IH Hx]; intros He He' E; [by apply not_elem_of_nil in He|].
  rewrite Forall_forall in Hx. apply elem_of_cons in He, He'. destruct He as [->|He], He' as [->|He'].
  - done.
  - specialize (Hx _ He'). lia.
  - specialize (Hx _ He). lia.
  - by apply IH.
Qed.

Lemma entries_NoDup tip n es tip' n' : entries tip n es tip' n' → NoDup es.
Proof.
  intros Hes%entries_sorted. induction Hes as [|x es _ IH Hx]; constructor; [|done]. intros Hin.
  rewrite Forall_forall in Hx. specialize (Hx _ Hin). lia.
Qed.

Lemma entries_snoc tip n es tip' n' e :
  entries tip n es tip' n' → entry_ok e → e_tip e = tip' → e_n e = n' → entries tip n (es ++ [e]) (e_tip' e) (e_n' e).
Proof.
  induction 1; intros Hok Ht Hn; cbn [app]; econstructor; eauto. constructor.
Qed.

(** The records of the entries are a run of the chain. *)
Lemma entries_links tip n es tip' n' rs : entries tip n es tip' n' → chain rs tip n → chain (rs ++ records_of es) tip' n'.
Proof.
  intros Hes. revert rs. induction Hes as [|tip n e es tip' n' Hok <- <- _ IH]; intros rs Hc; [by rewrite app_nil_r|].
  unfold records_of in *. rewrite fmap_cons. cbn [concat]. rewrite app_assoc. apply IH.
  eapply chain_links; [exact Hc|]. apply (entry_segment e Hok).
Qed.

Lemma skey_inj tip n es tip' n' e e' : entries tip n es tip' n' → e ∈ es → e' ∈ es → skey e = skey e' → e = e'.
Proof.
  intros Hes He He' E. pose proof (entries_ok _ _ _ _ _ Hes) as Hok. rewrite Forall_forall in Hok.
  pose proof (entry_grows e (Hok _ He)). pose proof (entry_grows e' (Hok _ He')).
  apply segment_name_from in E; [|lia..]. eapply entries_inj; [exact Hes|done|done|lia].
Qed.

Lemma mkey_manifest_key e : is_manifest_key (mkey e).
Proof.
  split; [|apply ends_with_app; by exists (skey e)]. unfold mkey, skey.
  destruct (segment_name_shape prefix kind t (e_n e + 1) (e_n' e)) as (x & ->). apply string_prefix_app. rewrite <- !string_app_assoc. by eexists.
Qed.

Lemma skey_no_manifest_key e : ¬ is_manifest_key (skey e).
Proof.
  intros [_ E]. unfold skey in E. destruct (segment_name_shape prefix kind t (e_n e + 1) (e_n' e)) as (x & Ex). rewrite Ex in E.
  by rewrite string_app_assoc, segment_no_manifest in E.
Qed.

Lemma suffix_inj s s' : s +:+ MANIFEST_SUFFIX = s' +:+ MANIFEST_SUFFIX → s = s'.
Proof.
  intros E%(f_equal chars). rewrite !chars_app in E. apply app_inv_tail in E. apply (f_equal of_chars) in E.
  by rewrite !of_chars_chars in E.
Qed.

(** ** Listing and reading *)

Lemma read_manifests_reads b es :
  Forall (λ e, b !! mkey e = Some (utf8 (e_text e)) ∧ parseManifest (e_text e) = Ret (e_manifest e)) es →
  reads (read_manifests (mkey <$> es)) b (e_manifest <$> es).
Proof.
  induction 1 as [|e es [Hb Hp] _ IH]; [apply reads_ret|]. rewrite !fmap_cons. cbn [read_manifests].
  eapply reads_bind; [apply reads_get|]. rewrite Hb.
  eapply reads_bind; [apply reads_run; by rewrite decode_utf8_spec|]. eapply reads_bind; [exact IH|]. apply reads_ret.
Qed.

Lemma listed_keys_elem b pre key : key ∈ listed_keys b pre ↔ is_Some (b !! key) ∧ String.prefix pre key = true.
Proof.
  unfold listed_keys. rewrite list_elem_of_In, filter_In, <- list_elem_of_In, list_elem_of_fmap. split.
  - intros [([k v] & -> & Hin%elem_of_map_to_list) Hp]. split; [by exists v|done].
  - intros [[v Hv] Hp]. split; [|done]. exists (key, v). split; [done|by apply elem_of_map_to_list].
Qed.

Lemma listed_manifest_keys b es tip n : entries VNull 0 es tip n → holds b es →
  List.filter (ends_with MANIFEST_SUFFIX) (listed_keys b (tenantPrefix prefix kind t)) ≡ₚ mkey <$> es.
Proof.
  intros Hes [Hm He]. apply NoDup_Permutation.
  - apply NoDup_ListNoDup, List.NoDup_filter, List.NoDup_filter. apply NoDup_ListNoDup, NoDup_fst_map_to_list.
  - apply NoDup_fmap_2_strong; [|by eapply entries_NoDup]. intros e e' Hin Hin' E%suffix_inj. by eapply skey_inj.
  - intros key. rewrite list_elem_of_In, filter_In, <- list_elem_of_In, listed_keys_elem, list_elem_of_fmap. split.
    + intros [[Hs Hp] Hw]. destruct (Hm key Hs) as (e & Hin & ->); [by split|]. by exists e.
    + intros (e & -> & Hin). rewrite Forall_forall in He. destruct (He e Hin) as [Hb _].
      destruct (mkey_manifest_key e) as [Hp Hw]. split; [split; [by eexists|done]|done].
Qed.

Lemma by_range_entries e e' : entry_ok e → entry_ok e' → by_range (e_manifest e) (e_manifest e') = (e_n e <=? e_n e').
Proof.
  intros [_ _ [_ H _ _ _ _ _ _]] [_ _ [_ H' _ _ _ _ _ _]]. unfold by_range.
  rewrite (int_at_int _ _ _ H), (int_at_int _ _ _ H'). destruct (Z.leb_spec (e_n e) (e_n e')); [apply Z.leb_le|apply Z.leb_gt]; lia.
Qed.

Lemma listManifests_reads b es tip n : entries VNull 0 es tip n → holds b es →
  reads (listManifests prefix kind t) b (e_manifest <$> es).
Proof.
  intros Hes Hb. pose proof (listed_manifest_keys b es tip n Hes Hb) as Hp. pose proof (entries_ok _ _ _ _ _ Hes) as Hok.
  unfold listManifests. eapply reads_bind; [apply reads_list|].
  rewrite <- (sort_by_perm String.leb) in Hp. apply Permutation_map_inv in Hp as (es' & Hk & Hp).
  change (sort_by String.leb (List.filter (ends_with MANIFEST_SUFFIX) (listed_keys b (tenantPrefix prefix kind t)))
          = mkey <$> es') in Hk. rewrite Hk.
  assert (Forall entry_ok es') as Hok' by (by rewrite <- Hp).
  eapply reads_bind.
  { apply read_manifests_reads. rewrite Forall_forall in *. intros e He. split; [|by apply entry_parsed, Hok'].
    destruct Hb as [_ Hb]. rewrite Forall_forall in Hb. apply Hb. by rewrite Hp. }
  assert (sort_by by_range (e_manifest <$> es') = e_manifest <$> es) as ->; [|apply reads_ret].
  apply (sorted_perm_eq by_range).
  - intros x y Hx Hy E1 E2. rewrite sort_by_perm in Hx, Hy.
    apply list_elem_of_fmap in Hx as (e & -> & He), Hy as (e' & -> & He'). rewrite Forall_forall in Hok'.
    rewrite by_range_entries in E1, E2 by auto. f_equal. rewrite <- Hp in He, He'. eapply entries_inj; [exact Hes|done..|lia].
  - apply sort_by_sorted; unfold by_range; intros *; rewrite ?Z.leb_gt, ?Z.leb_le; lia.
  - clear -Hes Hok. pose proof (entries_sorted _ _ _ _ _ Hes) as Hs. clear Hes. induction Hs as [|e es Hs IH He]; [constructor|].
    inversion Hok as [|? ? H1 H2]; subst. rewrite fmap_cons. constructor; [by apply IH|]. rewrite Forall_fmap.
    rewrite Forall_forall in *. intros e' He'. unfold compose. rewrite by_range_entries by auto. apply Z.leb_le. specialize (He e' He'). lia.
  - rewrite sort_by_perm. by rewrite Hp.
Qed.

Lemma read_reads b e : entry_ok e → b !! skey e = Some (body_of (e_ws e)) → reads (read kind (e_manifest e)) b (e_ws e).
Proof.
  intros [Hs _ Hd] Hb. unfold read, string_at. rewrite (says_key _ _ _ _ _ _ _ _ _ Hd). cbn [str_of default from_option id].
  eapply reads_bind; [apply reads_get|]. change (segment_name prefix kind t (e_n e + 1) (e_n' e)) with (skey e). rewrite Hb.
  apply reads_run. by eapply read_segment_ok.
Qed.

(** ** Writing *)

Lemma holds_insert b es key v : ¬ is_manifest_key key → Forall (λ e, key ≠ skey e) es → holds b es → holds (<[key := v]> b) es.
Proof.
  intros Hk Hs [Hm He]. constructor.
  - intros key' Hin Hk'. apply Hm; [|done]. rewrite lookup_insert_ne in Hin; [done|]. by intros <-.
  - rewrite Forall_forall in *. intros e Hin. destruct (He e Hin) as [H1 H2].
    rewrite !lookup_insert_ne; [done|by apply Hs|]. intros ->. apply Hk, mkey_manifest_key.
Qed.

Lemma holds_foreign b es key v : String.prefix (tenantPrefix prefix kind t) key = false → holds b es → holds (<[key := v]> b) es.
Proof.
  intros Hk. apply holds_insert; [by intros [E _]; rewrite E in Hk|]. apply Forall_forall. intros e _ ->.
  unfold skey in Hk. destruct (segment_name_shape prefix kind t (e_n e + 1) (e_n' e)) as (x & Ex). rewrite Ex in Hk.
  by rewrite (proj2 (string_prefix_app _ _)) in Hk by by eexists.
Qed.

Lemma skey_fresh tip n es tip' n' e : entries tip n es tip' n' → entry_ok e → e_n e = n' → Forall (λ e', skey e ≠ skey e') es.
Proof.
  intros Hes Hok Hn. pose proof (entries_ok _ _ _ _ _ Hes) as Hall. pose proof (proj2 (entries_le _ _ _ _ _ Hes)) as Hle.
  pose proof (entry_grows e Hok). rewrite Forall_forall in *. intros e' He' E. specialize (Hall e' He'). specialize (Hle e' He').
  pose proof (entry_grows e' Hall). apply segment_name_from in E; lia.
Qed.

Definition with_segment (b : bucket) (e : entry) : bucket := <[skey e := body_of (e_ws e)]> b.
Definition with_entry (b : bucket) (e : entry) : bucket := <[mkey e := utf8 (e_text e)]> (with_segment b e).

Lemma holds_segment b es tip n e : entries VNull 0 es tip n → holds b es → entry_ok e → e_n e = n → holds (with_segment b e) es.
Proof. intros Hes Hb Hok Hn. apply holds_insert; [apply skey_no_manifest_key|by eapply skey_fresh|done]. Qed.

Lemma holds_entry b es tip n e : entries VNull 0 es tip n → holds b es → entry_ok e → e_n e = n → holds (with_entry b e) (es ++ [e]).
Proof.
  intros Hes Hb Hok Hn. destruct (holds_segment b es tip n e Hes Hb Hok Hn) as [Hm He].
  pose proof (skey_fresh _ _ _ _ _ e Hes Hok Hn) as Hf. constructor.
  - intros key Hin Hk. destruct (decide (key = mkey e)) as [->|Hne].
    + exists e. split; [|done]. apply elem_of_app. right. by apply list_elem_of_singleton.
    + unfold with_entry in Hin. rewrite lookup_insert_ne in Hin by done. destruct (Hm key Hin Hk) as (e' & He' & ->).
      exists e'. split; [|done]. apply elem_of_app. by left.
  - apply Forall_app. split.
    + rewrite Forall_forall in *. intros e' He'. destruct (He e' He') as [H1 H2]. unfold with_entry.
      rewrite !lookup_insert_ne; [done| |].
      * intros E. apply (skey_no_manifest_key e'). rewrite <- E. apply mkey_manifest_key.
      * intros E%suffix_inj. by apply (Hf e').
    + constructor; [|constructor]. unfold with_entry. rewrite lookup_insert. split; [by rewrite decide_True|].
      rewrite lookup_insert_ne; [unfold with_segment; by rewrite lookup_insert, decide_True|].
      intros E. apply (skey_no_manifest_key e). rewrite <- E. apply mkey_manifest_key.
Qed.
End Holds.

Lemma foreign_key prefix kind t kind' t' e : kind ≠ kind' ∨ t ≠ t' →
  String.prefix (tenantPrefix prefix kind t) (skey prefix kind' t' e) = false ∧
  String.prefix (tenantPrefix prefix kind t) (mkey prefix kind' t' e) = false.
Proof.
  intros Hne. unfold mkey, skey. destruct (segment_name_shape prefix kind' t' (e_n e + 1) (e_n' e)) as (x & ->).
  assert (∀ y, String.prefix (tenantPrefix prefix kind t) (tenantPrefix prefix kind' t' +:+ y) = false) as Hy.
  { intros y. destruct (String.prefix _ _) eqn:E; [|done]. apply string_prefix_app in E as (z & E).
    symmetry in E. apply tenantPrefix_disjoint in E as [-> ->]. by destruct Hne. }
  split; [apply Hy|]. rewrite <- !string_app_assoc. apply Hy.
Qed.

(** ** Sealing *)

(** A record of JSON data whose sequence is an exact integer. *)
Record sealable (r : val) : Prop := {
  sealable_plain : plain_json r;
  sealable_safe : ∀ z, vget_opt r "sequence" = VInt z → z < 2 ^ 53;
}.

Section Seal.
Context `{HS : Hasher} `{HO : Host} `{TD : TextDecoder}.

Lemma check_records_owner kind t rs : ∀ p, check_records kind (VStr t) p rs = Ret tt → Forall (owned kind t) rs.
Proof.
  induction rs as [|r rs IH]; intros p E; [constructor|]. cbn [check_records] in E. apply bind_ret in E as (owner & Ho & E).
  apply bind_ret in E as ([] & Ht & E). apply guard_ret, strict_eq_str in Ht as ->.
  apply bind_ret in E as (hash & _ & E). apply bind_ret in E as ([] & _ & E). apply bind_ret in E as ([] & _ & E).
  constructor; [done|]. by eapply IH.
Qed.

(** One accepted record, with what the previous one asks of it. *)
Lemma checked_record kind t p r rs : check_records kind (VStr t) p (r :: rs) = Ret tt →
  ∃ hash, vget_opt r "hash" = VStr hash ∧ (∃ text, hash_text r = Ret (Some text) ∧ hash = sha256Hex text) ∧
    check_records kind (VStr t) (Some r) rs = Ret tt ∧
    (∀ q n h, p = Some q → vget_opt q "sequence" = VInt n → vget_opt q "hash" = VStr h →
       vget_opt r "sequence" = VInt (n + 1) ∧ vget_opt r "previousHash" = VStr h).
Proof.
  intros E. cbn [check_records] in E. apply bind_ret in E as (owner & _ & E). apply bind_ret in E as ([] & _ & E).
  apply bind_ret in E as (hash & Hhash & E). apply bind_ret in E as ([] & Hst & E). apply guard_ret, strict_eq_true in Hst. symmetry in Hst.
  apply bind_ret in E as ([] & Hlink & E). exists hash. split; [done|]. split; [by apply hashRecord_text in Hhash|]. split; [done|].
  intros q n h -> Hq Hh. apply bind_ret in Hlink as (next & Hnext & Hlink). rewrite Hq, plus_one_int in Hnext. injection Hnext as <-.
  apply guard_ret, andb_true_iff in Hlink as [Hs%strict_eq_int Hpr]. rewrite Hh in Hpr. by apply strict_eq_str in Hpr.
Qed.

Lemma checked_links kind t rs : ∀ p n tip,
  check_records kind (VStr t) p rs = Ret tt →
  (∀ r, head rs = Some r → vget_opt r "sequence" = VInt (n + 1) ∧ vget_opt r "previousHash" = tip) →
  ∃ tip' n', links tip n rs tip' n'.
Proof.
  induction rs as [|r rs IH]; intros p n tip E Hh; [do 2 eexists; constructor|].
  pose proof (check_records_owner _ _ _ _ E) as Ho. apply Forall_cons in Ho as [Ho _].
  destruct (checked_record _ _ _ _ _ E) as (hash & Hst & Hd & E' & _). destruct (Hh r eq_refl) as [Hs Hp].
  destruct (IH (Some r) (n + 1) (VStr hash) E') as (tip' & n' & L).
  - intros r' Hr'. destruct rs as [|r1 rs]; [done|]. injection Hr' as ->.
    destruct (checked_record _ _ _ _ _ E') as (_ & _ & _ & _ & Hn). by apply (Hn r).
  - exists tip', n'. econstructor; [|exact L].
    pose proof (λ k, owned_get _ _ _ k Ho) as Hget. constructor; [by rewrite Hget, Hs|by rewrite Hget, Hp|by rewrite Hget, Hst|done].
Qed.

Lemma validated kind t rs : validateSegmentRecords kind rs = Ret t →
  blank t = false ∧ rs ≠ [] ∧ Forall (owned kind t) rs ∧
  ∀ tip n, vget_opt (default VUndef (head rs)) "sequence" = VInt (n + 1) →
    vget_opt (default VUndef (head rs)) "previousHash" = tip → ∃ tip' n', links tip n rs tip' n'.
Proof.
  intros E. unfold validateSegmentRecords in E. apply bind_ret in E as (tv & Htv & E). destruct tv as [| | | |s| | | |]; try done.
  destruct (blank s) eqn:Hb; [done|]. apply bind_ret in E as ([] & E & [= ->]). split; [done|].
  split; [by intros ->|]. split; [by eapply check_records_owner|]. intros tip n Hs Hp. eapply checked_links; [exact E|].
  intros r Hr. rewrite Hr in Hs, Hp. done.
Qed.

(** [p] reads, and goes on as [q]. *)
Record leads {A} (p q : prog A) (b : bucket) : Prop := {
  leads_visits : ∀ b', visits bucket_answer p b b' → b' = b ∨ visits bucket_answer q b b';
  leads_final : final bucket_answer p b = final bucket_answer q b;
  leads_result : result bucket_answer p b = result bucket_answer q b;
}.

Lemma leads_refl {A} (p : prog A) b : leads p p b.
Proof. constructor; auto. Qed.

Lemma leads_bind {A B} (p : prog A) (f : A → prog B) q b a : reads p b a → leads (f a) q b → leads (p ≫= f) q b.
Proof.
  intros Hp [V F R]. destruct (reads_continue p f b a Hp) as [F' R']. constructor; [|congruence|congruence].
  intros b' Hv. destruct (reads_then p f b a b' Hp Hv) as [->|Hv']; [by left|by apply V].
Qed.

Context (prefix : string).

(** What [seal] does with the manifests it has listed. *)
Definition commit (kind : chainKind) (t : string) (rs : list val) (body : list Z) (now : Z) (manifests : list val) : prog val :=
  let first := default VUndef (head rs) in
  let final := default VUndef (last rs) in
  let contentSha256 := sha256Bytes body in
  let manifest := new_manifest prefix kind t rs contentSha256 now in
  match last manifests with
  | Some tip =>
      if js_leb (vget_opt first "sequence") (vget_opt tip "toSequence") then
        match List.find (same_range first final) manifests with
        | Some existing =>
            if strict_eq (vget_opt existing "contentSha256") (VStr contentSha256) then mret existing
            else Done (inr (TypeError "segment conflict"))
        | None => Done (inr (TypeError "segment conflict"))
        end
      else if negb (strict_eq (vget_opt first "sequence") (VInt (js_succ (int_at tip "toSequence")))
                    && strict_eq (vget_opt first "previousHash") (vget_opt tip "lastHash"))
      then Done (inr (TypeError "segment does not extend the archived tenant chain"))
      else write_segment manifest body
  | None =>
      if negb (strict_eq (vget_opt first "sequence") (VInt 1) && is_null (vget_opt first "previousHash"))
      then Done (inr (TypeError "archive must start at the tenant chain origin"))
      else write_segment manifest body
  end.

Lemma seal_leads kind t rs ws now b es tip n : rs ≠ [] → validateSegmentRecords kind rs = Ret t →
  encodeNdjson rs = Ret (body_of ws) → entries prefix kind t VNull 0 es tip n → holds prefix kind t b es →
  leads (seal prefix kind now rs) (commit kind t rs (body_of ws) now (e_manifest <$> es)) b.
Proof.
  intros Hne Hv He Hes Hb. unfold seal, require.
  eapply leads_bind; [apply reads_run; by destruct rs|]. eapply leads_bind; [by apply reads_run|].
  eapply leads_bind; [by apply reads_run|]. eapply leads_bind; [by eapply listManifests_reads|]. apply leads_refl.
Qed.

(** Canonical values are determined, and are the same data. *)
Lemma canonical_same rs ws : Forall sealable rs → Forall2 canonical_of rs ws → Forall2 same_data rs ws.
Proof.
  intros Hall Hw. induction Hw as [|r w rs ws [Hr _] _ IH]; [constructor|]. inversion Hall as [|? ? [[Hj Hp] _] Hall']; subst.
  constructor; [by apply normalize_same|by apply IH].
Qed.

Lemma canonical_of_unique rs ws ws' : Forall2 canonical_of rs ws → Forall2 canonical_of rs ws' → ws = ws'.
Proof.
  intros Hw. revert ws'. induction Hw as [|r w rs ws [E _] _ IH]; intros ws' Hw'; inversion Hw' as [|? w' ? ws1 [E' _] Hw1]; subst; [done|].
  f_equal; [congruence|by apply IH].
Qed.

(** A segment that may be committed next. *)
Lemma new_entry kind t rs tip n tip' n' now : Forall sealable rs → rs ≠ [] → blank t = false →
  Forall (owned kind t) rs → links tip n rs tip' n' → tip_shaped tip → 0 <= n →
  ∃ ws text pm, Forall2 canonical_of rs ws ∧ encodeNdjson rs = Ret (body_of ws) ∧
    entry_ok prefix kind t (Entry tip n ws tip' n' text pm) ∧
    canonical_text (new_manifest prefix kind t rs (sha256Bytes (body_of ws)) now) = Ret text ∧
    string_at (new_manifest prefix kind t rs (sha256Bytes (body_of ws)) now) "segmentKey" = segment_name prefix kind t (n + 1) n'.
Proof.
  intros Hall Hne Hb He Hl Ht Hn. assert (Forall (λ r, is_json r = true) rs) as Hj.
  { eapply Forall_impl; [exact Hall|]. by intros r [[Hj _] _]. }
  destruct (canonical_values rs Hj) as (ws & Hw & Htexts). pose proof (encodeNdjson_ok rs ws Hne Hw Htexts) as Henc.
  pose proof (canonical_same rs ws Hall Hw) as Hs.
  pose proof (tip_shaped_ok _ Ht) as Hto.
  assert (segment_ok kind t tip n ws tip' n') as Hok.
  { constructor; [done| | | |by eapply links_same|done|done|].
    - by destruct Hw.
    - clear -Hw. induction Hw as [|r w rs ws [_ Hc] _ IH]; by constructor.
    - clear -He Hs. induction Hs as [|r w rs ws Hs _ IH]; [constructor|]. inversion He; subst. constructor; [by eapply owned_same|by apply IH].
    - destruct (links_last _ _ _ _ _ Hl Hne) as (_ & Hlast & _). destruct (last rs) as [r|] eqn:El; [|by apply last_None in El].
      rewrite Forall_forall in Hall. apply (sealable_safe r); [|done]. apply Hall. by apply last_Some_elem_of. }
  destruct (manifest_read_back prefix kind t tip n ws rs tip' n' now Hok Hs Hl) as (text & pm & Htext & Hpm & Hd).
  exists ws, text, pm. split; [done|]. split; [done|]. split; [by constructor|]. split; [done|].
  unfold string_at. by rewrite (says_key _ _ _ _ _ _ _ _ _ (new_manifest_describes prefix kind t tip n ws rs tip' n' now Hs Hl Hto ltac:(by destruct Hw))).
Qed.

(** A sealing that changes nothing, and one that commits [e]. *)
Definition unchanged (p : prog val) (b : bucket) : Prop :=
  (∀ b', visits bucket_answer p b b' → b' = b) ∧ final bucket_answer p b = b.

Record commits (kind : chainKind) (t : string) (e : entry) (p : prog val) (b : bucket) : Prop := {
  commits_visits : ∀ b', visits bucket_answer p b b' →
    b' = b ∨ b' = with_segment prefix kind t b e ∨ b' = with_entry prefix kind t b e;
  commits_final : final bucket_answer p b = with_entry prefix kind t b e;
  commits_result : ∃ m, result bucket_answer p b = inl m;
}.

Lemma unchanged_done r b : unchanged (Done r) b.
Proof. split; [by intros b' ?%visits_done|done]. Qed.

Lemma unchanged_leads p q b : leads p q b → unchanged q b → unchanged p b.
Proof. intros [V F _] [Vq Fq]. split; [|congruence]. intros b' [->|Hv]%V; [done|by apply Vq]. Qed.

Lemma commits_leads kind t e p q b : leads p q b → commits kind t e q b → commits kind t e p b.
Proof.
  intros [V F R] [Vq Fq (m & Rq)]. constructor; [|congruence|exists m; congruence]. intros b' [->|Hv]%V; [by left|by apply Vq].
Qed.

Lemma write_commits kind t e m b : canonical_text m = Ret (e_text e) → string_at m "segmentKey" = skey prefix kind t e →
  commits kind t e (write_segment m (body_of (e_ws e))) b.
Proof.
  intros Ht Hk. unfold write_segment. rewrite Ht, Hk. cbn [run]. constructor; [|done|by exists m].
  intros b' Hv. cbn in Hv. apply visits_call in Hv as [->|Hv]; [by left|]. right.
  apply visits_call in Hv as [->|Hv]; [by left|]. right. by apply visits_done in Hv.
Qed.

Lemma entries_tip kind t tip n es tip' n' : entries prefix kind t tip n es tip' n' → tip_shaped tip → tip_shaped tip'.
Proof.
  induction 1 as [|tip n e es tip' n' Hok <- <- _ IH]; intros Ht; [done|]. apply IH.
  destruct Hok as [[_ _ _ _ Hl _ _ _] _ _]. by eapply links_shaped.
Qed.

Lemma entries_last kind t tip n es e tip' n' : entries prefix kind t tip n (es ++ [e]) tip' n' →
  tip' = e_tip' e ∧ n' = e_n' e ∧ entry_ok prefix kind t e.
Proof.
  revert tip n. induction es as [|e0 es IH]; intros tip n Hes; inversion Hes as [|? ? ? ? ? ? Hok _ _ Hes']; subst; [|by eapply IH].
  by inversion Hes'; subst.
Qed.

Lemma refused_unchanged p e b (P : val → Prop) : leads p (Done (inr e)) b →
  unchanged p b ∧ ∀ m, result bucket_answer p b = inl m → P m.
Proof.
  intros Hl. split; [eapply unchanged_leads; [exact Hl|apply unchanged_done]|]. intros m Hm.
  by rewrite (leads_result _ _ _ Hl) in Hm.
Qed.

(** Writing a run that extends the archived chain commits an entry of it. *)
Lemma extending_commits kind t rs ws tip n tip' n' now p b : Forall sealable rs → rs ≠ [] → blank t = false →
  Forall (owned kind t) rs → links tip n rs tip' n' → tip_shaped tip → 0 <= n → Forall2 canonical_of rs ws →
  leads p (write_segment (new_manifest prefix kind t rs (sha256Bytes (body_of ws)) now) (body_of ws)) b →
  ∃ e, entry_ok prefix kind t e ∧ e_tip e = tip ∧ e_n e = n ∧ Forall2 canonical_of rs (e_ws e) ∧ commits kind t e p b.
Proof.
  intros Hall Hne Hb He Hl Ht Hn Hw Hlead.
  destruct (new_entry kind t rs tip n tip' n' now Hall Hne Hb He Hl Ht Hn) as (ws' & text & pm & Hcan & _ & Hok & Htext & Hkey).
  rewrite (canonical_of_unique _ _ _ Hcan Hw) in *. eexists. split; [exact Hok|]. repeat (split; [done|]).
  eapply commits_leads; [exact Hlead|]. by apply write_commits.
Qed.

(** The whole of a sealing into an archive that holds [es]. *)
Lemma seal_spec kind t rs now b es tip n : Forall sealable rs → validateSegmentRecords kind rs = Ret t →
  entries prefix kind t VNull 0 es tip n → holds prefix kind t b es →
  let p := seal prefix kind now rs in
  (unchanged p b ∧ ∀ m, result bucket_answer p b = inl m →
     ∃ e ws, e ∈ es ∧ m = e_manifest e ∧ Forall2 canonical_of rs ws ∧ sha256Bytes (body_of ws) = sha256Bytes (body_of (e_ws e)))
  ∨ ∃ e, entry_ok prefix kind t e ∧ e_tip e = tip ∧ e_n e = n ∧ Forall2 canonical_of rs (e_ws e) ∧ commits kind t e p b.
Proof.
  intros Hall Hv Hes Hb p. destruct (validated kind t rs Hv) as (Hbl & Hne & Henv & Hrun).
  assert (Forall (λ r, is_json r = true) rs) as Hj by (eapply Forall_impl; [exact Hall|]; by intros r [[Hj _] _]).
  destruct (canonical_values rs Hj) as (ws & Hw & Htexts). pose proof (encodeNdjson_ok rs ws Hne Hw Htexts) as Henc.
  pose proof (seal_leads kind t rs ws now b es tip n Hne Hv Henc Hes Hb) as Hlead. fold p in Hlead.
  pose proof (entries_tip _ _ _ _ _ _ _ Hes (or_introl eq_refl)) as Htip. pose proof (proj1 (entries_le _ _ _ _ _ _ _ _ Hes)) as Hn.
  assert (vget_opt (default VUndef (head rs)) "sequence" = VInt (n + 1) → vget_opt (default VUndef (head rs)) "previousHash" = tip →
    leads p (write_segment (new_manifest prefix kind t rs (sha256Bytes (body_of ws)) now) (body_of ws)) b →
    ∃ e, entry_ok prefix kind t e ∧ e_tip e = tip ∧ e_n e = n ∧ Forall2 canonical_of rs (e_ws e) ∧ commits kind t e p b) as Hcommit.
  { intros Hs Hp Hw'. destruct (Hrun tip n Hs Hp) as (tip' & n' & L). by apply (extending_commits kind t rs ws tip n tip' n' now p b). }
  unfold commit in Hlead. destruct es as [|e0 es0 _] using rev_ind.
  - inversion Hes; subst. cbn [fmap list_fmap last] in Hlead. destruct (strict_eq _ (VInt 1)) eqn:E1; cbn [andb negb] in Hlead.
    + apply strict_eq_int in E1. destruct (is_null _) eqn:E2; cbn [negb] in Hlead.
      * right. apply Hcommit; [done|by destruct (vget_opt _ "previousHash")|done].
      * left. by eapply refused_unchanged.
    + left. by eapply refused_unchanged.
  - destruct (entries_last _ _ _ _ _ _ _ _ Hes) as (-> & -> & Hok0). pose proof (entry_described _ _ _ _ Hok0) as [_ _ Hto _ _ Hlast _ _].
    rewrite fmap_app in Hlead. cbn [fmap list_fmap] in Hlead. rewrite last_snoc, Hto, Hlast in Hlead.
    destruct (js_leb _ _) eqn:Eover.
    { left. destruct (List.find _ _) as [existing|] eqn:Ef.
      - destruct (strict_eq (vget_opt existing _) _) eqn:Ed; [|by eapply refused_unchanged].
        split; [eapply unchanged_leads; [exact Hlead|apply unchanged_done]|]. intros m Hm. rewrite (leads_result _ _ _ Hlead) in Hm. injection Hm as <-.
        apply find_some in Ef as [Hin _]. rewrite <- list_elem_of_In in Hin.
        assert (existing ∈ e_manifest <$> es0 ++ [e0]) as Hin' by (by rewrite fmap_app).
        apply list_elem_of_fmap in Hin' as (e & -> & He). exists e, ws. split; [done|]. split; [done|]. split; [done|].
        pose proof (entries_ok _ _ _ _ _ _ _ _ Hes) as Hoks. rewrite Forall_forall in Hoks.
        pose proof (entry_described _ _ _ _ (Hoks e He)) as [_ _ _ _ _ _ _ Hc]. rewrite Hc in Ed. apply strict_eq_str in Ed. by injection Ed as ->.
      - by eapply refused_unchanged. }
    rewrite (int_at_int _ _ _ Hto) in Hlead. pose proof (entry_segment _ _ _ _ Hok0) as [_ _ _ _ _ _ _ Hsafe].
    rewrite js_succ_exact in Hlead by done. destruct (strict_eq _ (VInt _)) eqn:E1; cbn [andb negb] in Hlead.
    + apply strict_eq_int in E1. destruct (strict_eq _ (e_tip' e0)) eqn:E2; cbn [negb] in Hlead.
      * right. apply strict_eq_true in E2. by apply Hcommit.
      * left. by eapply refused_unchanged.
    + left. by eapply refused_unchanged.
Qed.
End Seal.
