(* ===== verification/ArchiveSafety.v ===== *)
(** * Properties of the object archive

    An archive that only [seal] writes to always replays; sealing is atomic; a
    replay that succeeds proves what it read, whatever the provider answers; and
    draining an audit store archives all of it. *)

From S2P Require Import Prelude Regex JsNum JsVal Dates JsonText Hash Sha256 Canonical Keyed AuditChain ChainModes SameData Redact Event Retention.
From S2P Require Import ExportBundle BundleVerify Store StoreHistory HostCalls StagingArchive ObjectKeys Doubles ObjectArchive SealedSegments.
From S2P Require Import Coordinator RetentionHost ArchiveHistory Demo.

#[local] Open Scope Z_scope.
#[local] Arguments num_of_Z : simpl never.

Section History.
Context `{HS : Hasher} `{HO : Host} `{TD : TextDecoder}.
Context (prefix : string).

(** One sealing, or the part of one that was run before a crash. *)
Definition archive_step (b b' : bucket) : Prop :=
  ∃ kind now rs, Forall sealable rs ∧ visits bucket_answer (seal prefix kind now rs) b b'.

Definition archive_reachable : bucket → Prop := rtc archive_step ∅.

Definition archive_holds (b : bucket) (kind : chainKind) (t : string) (es : list entry) : Prop :=
  ∃ tip n, entries prefix kind t VNull 0 es tip n ∧ holds prefix kind t b es.

Lemma seal_refused kind rs now b b' : (∀ t, validateSegmentRecords kind rs ≠ Ret t) →
  visits bucket_answer (seal prefix kind now rs) b b' → b' = b.
Proof.
  intros Hv Hs. unfold seal, require in Hs. apply visits_bind in Hs as [Hs|([] & _ & Hs)].
  - destruct rs; by apply visits_done in Hs.
  - assert (final bucket_answer (run (guard_exc (negb (length rs =? 0)%nat) "segment requires at least one record")) b = b) as E by by destruct rs.
    rewrite E in Hs. destruct (validateSegmentRecords kind rs) as [t|msg]; [by destruct (Hv t)|]. by apply visits_done in Hs.
Qed.

Lemma seal_other kind t e b es kind' t' : kind ≠ kind' ∨ t ≠ t' → archive_holds b kind' t' es →
  archive_holds (with_segment prefix kind t b e) kind' t' es ∧ archive_holds (with_entry prefix kind t b e) kind' t' es.
Proof.
  intros Hne (tip & n & Hes & Hb). destruct (foreign_key prefix kind' t' kind t e) as [Hk1 Hk2].
  { destruct Hne; [left|right]; congruence. }
  assert (holds prefix kind' t' (with_segment prefix kind t b e) es) by by apply holds_foreign.
  split; exists tip, n; split; [done..|]. by apply holds_foreign.
Qed.

Lemma seal_own kind t e b es tip n : entries prefix kind t VNull 0 es tip n → holds prefix kind t b es →
  entry_ok prefix kind t e → e_tip e = tip → e_n e = n →
  archive_holds (with_segment prefix kind t b e) kind t es ∧ archive_holds (with_entry prefix kind t b e) kind t (es ++ [e]).
Proof.
  intros Hes Hb Hok Ht Hn. split.
  - exists tip, n. split; [done|]. by eapply holds_segment.
  - exists (e_tip' e), (e_n' e). split; [by eapply entries_snoc|by eapply holds_entry].
Qed.

Definition well_formed (b : bucket) : Prop := ∀ kind t, blank t = false → ∃ es, archive_holds b kind t es.

(** A step keeps what the archive holds of a chain, or adds one entry to it. *)
Lemma step_holds b b' kind t es : archive_step b b' → well_formed b → blank t = false → archive_holds b kind t es →
  archive_holds b' kind t es ∨ ∃ e, archive_holds b' kind t (es ++ [e]).
Proof.
  intros (kind0 & now & rs & Hall & Hv) Hinv Hbl Hes.
  destruct (validateSegmentRecords kind0 rs) as [t0|] eqn:E.
  2:{ left. rewrite (seal_refused kind0 rs now b b'); [done| |done]. intros t1. by rewrite E. }
  destruct (decide (kind0 = kind ∧ t0 = t)) as [[-> ->]|Hne].
  - destruct Hes as (tip & n & Hes & Hh).
    destruct (seal_spec prefix kind t rs now b es tip n Hall E Hes Hh) as [[[Hu _] _]|(e & Hok & Ht & Hn & _ & [Hc _ _])].
    + left. rewrite (Hu b' Hv). by exists tip, n.
    + destruct (seal_own kind t e b es tip n Hes Hh Hok Ht Hn) as [H1 H2].
      destruct (Hc b' Hv) as [->|[->| ->]]; [left; by exists tip, n|by left|right; by exists e].
  - left. destruct (validated kind0 t0 rs E) as (Hb0 & _). destruct (Hinv kind0 t0 Hb0) as (es0 & tip & n & Hes0 & Hh0).
    destruct (seal_spec prefix kind0 t0 rs now b es0 tip n Hall E Hes0 Hh0) as [[[Hu _] _]|(e & _ & _ & _ & _ & [Hc _ _])].
    + by rewrite (Hu b' Hv).
    + assert (kind0 ≠ kind ∨ t0 ≠ t) as Hne'.
      { destruct (decide (kind0 = kind)) as [->|]; [right|by left]. intros ->. by apply Hne. }
      destruct (seal_other kind0 t0 e b es kind t Hne' Hes) as [H1 H2]. destruct (Hc b' Hv) as [->|[->| ->]]; done.
Qed.

Lemma reachable_well_formed b : archive_reachable b → well_formed b.
Proof.
  revert b. apply (rtc_ind_r well_formed).
  - intros kind t _. exists [], VNull, 0. split; [constructor|]. constructor; [|constructor].
    intros key [x Hx]. by rewrite lookup_empty in Hx.
  - intros b b' _ Hs IH kind t Hb. destruct (IH kind t Hb) as (es & Hes).
    destruct (step_holds b b' kind t es Hs IH Hb Hes) as [?|(e & ?)]; eauto.
Qed.

(** ** Replaying what is held *)

Lemma replay_reads kind t b es : ∀ previous tip n tip' n' acc,
  entries prefix kind t tip n es tip' n' →
  Forall (λ e, b !! skey prefix kind t e = Some (body_of (e_ws e))) es →
  (∀ m, previous = Some m → vget_opt m "toSequence" = VInt n ∧ vget_opt m "lastHash" = tip) → tip_ok tip → n < 2 ^ 53 →
  reads (replay kind previous acc (e_manifest <$> es)) b (inr (acc ++ records_of es)).
Proof.
  induction es as [|e es IH]; intros previous tip n tip' n' acc Hes Hb Hp Ht Hn.
  - rewrite app_nil_r. apply reads_ret.
  - inversion Hes as [|? ? ? ? ? ? Hok E1 E2 Hes']; subst. apply Forall_cons in Hb as [Hbe Hb].
    rewrite fmap_cons. cbn [replay]. pose proof Hok as [[_ _ _ _ Hl Hts _ Hsafe] _ [_ Hfrom Hto _ Hprev Hlast _ _]].
    assert (contiguous previous (e_manifest e) = true) as ->.
    { destruct previous as [m|]; [|done]. destruct (Hp m eq_refl) as [H1 H2]. unfold contiguous.
      rewrite (int_at_int _ _ _ H1), Hfrom, Hprev, H2, js_succ_exact by done. rewrite strict_eq_int_refl. by apply strict_eq_tip. }
    cbn [negb]. eapply (reads_bind _ _ _ (inr (e_ws e))).
    + apply reads_try. eapply reads_bind; [by eapply read_reads|]. apply reads_ret.
    + change (records_of (e :: es)) with (e_ws e ++ records_of es). rewrite app_assoc.
      eapply IH; [exact Hes'|done| | |done].
      * intros m [= <-]. done.
      * by eapply tip_shaped_ok, links_shaped.
Qed.

(** The records an archive gives back: those of every listed segment. *)
Definition archived (b : bucket) (kind : chainKind) (t : string) (manifests : list val) (segments : list (list val)) : Prop :=
  result bucket_answer (listSegments prefix kind t) b = inl manifests ∧
  Forall2 (λ m rs, result bucket_answer (read kind m) b = inl rs) manifests segments.

Lemma holds_archived b kind t es : blank t = false → archive_holds b kind t es →
  archived b kind t (e_manifest <$> es) (e_ws <$> es).
Proof.
  intros Hb (tip & n & Hes & Hh). split.
  - unfold listSegments, requireNonEmpty. rewrite Hb. apply (reads_result _ _ _ (listManifests_reads prefix kind t b es tip n Hes Hh)).
  - pose proof (entries_ok _ _ _ _ _ _ _ _ Hes) as Hok. destruct Hh as [_ Hh]. clear Hes.
    induction Hok as [|e es Hok _ IH]; [constructor|]. apply Forall_cons in Hh as [[_ Hs] Hh]. rewrite !fmap_cons.
    constructor; [|by apply IH]. by apply (reads_result _ _ _ (read_reads prefix kind t b e Hok Hs)).
Qed.

Lemma archived_unique b kind t ms ss ms' ss' : archived b kind t ms ss → archived b kind t ms' ss' → ms = ms' ∧ ss = ss'.
Proof.
  intros [E F] [E' F']. rewrite E in E'. injection E' as <-. split; [done|]. clear E. revert ss' F'.
  induction F as [|m rs ms ss Hm _ IH]; intros ss' F'; inversion F' as [|? rs' ? ss1 Hm' F1]; subst; [done|].
  rewrite Hm in Hm'. injection Hm' as <-. f_equal. by apply IH.
Qed.

(** What a replay of all segments answers when the chain got this verdict. *)
Definition replayed (segments records : nat) (verdict : VerificationResult reason) : ObjectArchiveChainVerification :=
  let ok := match verdict with VerifyOk => true | _ => false end in
  ChainVerification ok segments records (if (segments =? 0)%nat then None else Some verdict)
    (if ok then None else Some "archived chain verification failed").

Lemma entries_owned kind t es : Forall (entry_ok prefix kind t) es → Forall (owned kind t) (records_of es).
Proof.
  intros Hok. unfold records_of. apply Forall_concat. rewrite Forall_fmap. eapply Forall_impl; [exact Hok|].
  intros e' [[_ _ _ He _ _ _ _] _ _]. exact He.
Qed.

Lemma held_verifies b kind t es : blank t = false → archive_holds b kind t es →
  ∃ verdict, verifyRecords kind (records_of es) = Ret verdict ∧ (verdict = VerifyOk ↔ Forall supported (records_of es)) ∧
    reads (verify prefix kind t) b (replayed (length es) (length (records_of es)) verdict).
Proof.
  intros Hb (tip & n & Hes & Hh). pose proof (entries_ok _ _ _ _ _ _ _ _ Hes) as Hok.
  pose proof (entries_links _ _ _ _ _ _ _ _ [] Hes (chain_nil)) as Hc. cbn [app] in Hc.
  destruct (owned_verdict kind t _ _ _ Hb (entries_owned _ _ _ Hok) Hc) as (verdict & Hv & Hs). exists verdict. split; [done|]. split; [done|].
  unfold verify. eapply reads_bind; [apply reads_run; unfold requireNonEmpty; by rewrite Hb|].
  eapply reads_bind; [by eapply listManifests_reads|]. cbn zeta. destruct es as [|e es].
  { assert (verdict = VerifyOk) as -> by by apply Hs. apply reads_ret. }
  rewrite fmap_cons.
  assert (vget_opt (e_manifest e) "fromSequence" = VInt 1) as ->.
  { inversion Hok as [|? ? Hoke _]; subst. inversion Hes as [|? ? ? ? ? ? _ _ En _]; subst.
    pose proof (entry_described _ _ _ _ Hoke) as [_ Hf _ _ _ _ _ _]. by rewrite Hf, En. }
  rewrite strict_eq_int_refl. cbn [negb].
  eapply reads_bind.
  { rewrite <- fmap_cons. eapply replay_reads; [exact Hes| | |by left|done].
    - eapply Forall_impl; [exact (holds_entries _ _ _ _ _ Hh)|]. by intros ? [_ ?].
    - done. }
  cbn [app]. rewrite Hv. eapply reads_bind; [by apply reads_run|]. cbn zeta. rewrite length_cons, length_fmap. apply reads_ret.
Qed.

End History.

(** ** Bytes determine records *)

Lemma text_line_inj v w : canonical v → canonical w → text_line v = text_line w → v = w.
Proof. intros [_ Hv]%canonical_text_line [_ Hw]%canonical_text_line E. rewrite E in Hv. congruence. Qed.

Lemma body_of_inj `{TextDecoder} vs ws : Forall canonical vs → Forall canonical ws → body_of vs = body_of ws → vs = ws.
Proof.
  intros Hv Hw E. assert (∀ l, Forall canonical l → Forall (λ w, is_json w = true) l) as Hj.
  { intros l Hl. eapply Forall_impl; [exact Hl|]. apply canonical_json. }
  assert (text_line <$> vs = text_line <$> ws) as El by by rewrite <- (segment_lines vs), <- (segment_lines ws), E by auto.
  clear E. revert ws Hw El. induction Hv as [|v vs Hv _ IH]; intros [|w ws] Hw El; try done. inversion Hw; subst.
  rewrite !fmap_cons in El. injection El as E1 E2. f_equal; [by apply text_line_inj|by apply IH].
Qed.

Lemma canonical_of_canonical rs ws : Forall2 canonical_of rs ws → Forall canonical ws.
Proof. induction 1 as [|r w rs ws [_ Hc] _ IH]; by constructor. Qed.

(** ** Properties *)

(** A one-record chain of tenant "a", and the archive it is sealed into. *)
#[local] Existing Instance toy_hasher.
#[local] Existing Instance toy_host.
#[local] Existing Instance latin1_decoder.

Definition demo_record : val :=
  let fields := [("event", VObj [("scope", VObj [("tenantId", VStr "a")])]); ("sequence", VInt 1); ("previousHash", VNull);
                 ("hashAlgorithm", VStr "sha256"); ("canonicalization", VStr "veritio-json-v1")] in
  VObj (fields ++ [("hash", VStr (default "" (exc_to_option (hashRecord Audit (VObj fields)))))]).

Definition demo_archive : bucket := final bucket_answer (seal "p" Audit 0 [demo_record]) ∅.

Lemma demo_sealable : Forall sealable [demo_record].
Proof.
  constructor; [|constructor]. constructor; [by vm_compute|].
  intros z E. assert (VInt 1 = VInt z) as <-%VInt_inj by (rewrite <- E; by vm_compute). lia.
Qed.

Lemma demo_archive_reachable : archive_reachable "p" demo_archive.
Proof.
  apply rtc_once. exists Audit, 0, [demo_record]. split; [exact demo_sealable|]. apply visits_final.
Qed.

(** C12. An archive that is only sealed into always replays, wherever a sealing
    stopped and for whichever tenants and chains records of JSON data were sealed
    (without a property named __proto__, and with sequences below 2^53): every listed
    segment can be read, the segments make one chain from the origin, and the replay
    gives the verdict of the chain verifier on it. That is ok exactly when all these
    records name the protocol's hash algorithm and canonicalization, which the
    verifier asks for and sealing does not. *)
Theorem archive_always_verifies `{Hasher} `{Host} `{TextDecoder} prefix kind t b :
  archive_reachable prefix b → blank t = false →
  ∃ manifests segments verdict, archived prefix b kind t manifests segments ∧
    (∃ tip n, chain (concat segments) tip n) ∧
    verifyRecords kind (concat segments) = Ret verdict ∧
    result bucket_answer (verify prefix kind t) b = inl (replayed (length manifests) (length (concat segments)) verdict) ∧
    (verdict = VerifyOk ↔ Forall supported (concat segments)).
Proof.
  intros Hr Hb. destruct (reachable_well_formed prefix b Hr kind t Hb) as [es Hes].
  destruct (held_verifies prefix b kind t es Hb Hes) as (verdict & Hv & Hs & Hreads).
  exists (e_manifest <$> es), (e_ws <$> es), verdict. split; [by apply holds_archived|]. split.
  - destruct Hes as (tip & n & Hes & _). exists tip, n. exact (entries_links prefix kind t _ _ _ _ _ [] Hes chain_nil).
  - split; [exact Hv|]. split; [|exact Hs]. by rewrite (reads_result _ _ _ Hreads), length_fmap.
Qed.

Lemma archive_always_verifies_witness :
  ∃ manifests segments verdict, archived "p" demo_archive Audit "a" manifests segments ∧
    (∃ tip n, chain (concat segments) tip n) ∧
    verifyRecords Audit (concat segments) = Ret verdict ∧
    result bucket_answer (verify "p" Audit "a") demo_archive = inl (replayed (length manifests) (length (concat segments)) verdict) ∧
    (verdict = VerifyOk ↔ Forall supported (concat segments)).
Proof. apply (archive_always_verifies "p" Audit "a" demo_archive); [exact demo_archive_reachable|reflexivity]. Defined.

(** A record of another hash algorithm is sealed, and then nothing verifies. *)
Example unsupported_sealed :
  let fields := [("event", VObj [("scope", VObj [("tenantId", VStr "a")])]); ("sequence", VInt 1); ("previousHash", VNull);
                 ("hashAlgorithm", VStr "md5"); ("canonicalization", VStr "veritio-json-v1")] in
  let record := VObj (fields ++ [("hash", VStr (default "" (exc_to_option (hashRecord Audit (VObj fields)))))]) in
  result bucket_answer (verify "p" Audit "a") (final bucket_answer (seal "p" Audit 0 [record]) ∅)
  = inl (replayed 1 1 (VerifyFail 0 unsupported_hash_algorithm)).
Proof. vm_compute. reflexivity. Qed.

(** C10. Sealing is atomic and only appends: at whatever call it stops, the
    archive of the chain gives back what it did before, or that and the new
    segment; other chains and tenants are not affected; and when it returns, the
    archive gives the records back, or the new segment and an archived one are
    different texts with one digest. *)
Theorem seal_appends_atomically `{Hasher} `{Host} `{TextDecoder} prefix kind t now rs b manifests segments :
  archive_reachable prefix b → Forall sealable rs → validateSegmentRecords kind rs = Ret t →
  archived prefix b kind t manifests segments →
  let p := seal prefix kind now rs in
  (∀ b', visits bucket_answer p b b' →
     (archived prefix b' kind t manifests segments ∨
      ∃ m ws, Forall2 canonical_of rs ws ∧ archived prefix b' kind t (manifests ++ [m]) (segments ++ [ws])) ∧
     (∀ kind' t' ms ss, kind ≠ kind' ∨ t ≠ t' → blank t' = false →
        archived prefix b kind' t' ms ss → archived prefix b' kind' t' ms ss)) ∧
  (∀ m, result bucket_answer p b = inl m →
     (∃ ms ss ws, archived prefix (final bucket_answer p b) kind t ms ss ∧ ws ∈ ss ∧ Forall2 canonical_of rs ws) ∨
     ∃ ws, Forall2 canonical_of rs ws ∧ Collision [lines_text ws] (lines_text <$> segments)).
Proof.
  intros Hr Hall Hv Ha p. pose proof (reachable_well_formed prefix b Hr) as Hwf.
  destruct (validated kind t rs Hv) as (Hb & _). destruct (Hwf kind t Hb) as [es Hes].
  pose proof (holds_archived prefix b kind t es Hb Hes) as Ha'. destruct (archived_unique _ _ _ _ _ _ _ _ Ha Ha') as [-> ->].
  pose proof Hes as (tip & n & Hes' & Hh).
  destruct (seal_spec prefix kind t rs now b es tip n Hall Hv Hes' Hh) as [[[Hu Hf] Hres]|(e & Hok & Ht & Hn & Hcan & [Hc Hf _])].
  - split.
    + intros b' Hv'. rewrite (Hu b' Hv'). by split; [left|].
    + intros m Hm. destruct (Hres m Hm) as (e & ws & He & -> & Hcan & Hd). fold p. unfold p. rewrite Hf.
      destruct (decide (lines_text ws = lines_text (e_ws e))) as [E%(f_equal utf8)|Hne].
      2:{ right. exists ws. split; [done|]. exists (lines_text ws), (lines_text (e_ws e)). split; [by left|].
          split; [|done]. by apply list_elem_of_fmap_2, list_elem_of_fmap_2. }
      left.
      exists (e_manifest <$> es), (e_ws <$> es), ws. split; [done|]. split; [|done].
      apply body_of_inj in E as ->; [by apply list_elem_of_fmap_2|by eapply canonical_of_canonical|].
      pose proof (entries_ok _ _ _ _ _ _ _ _ Hes') as Hoks. rewrite Forall_forall in Hoks.
      destruct (Hoks e He) as [[_ _ Hc _ _ _ _ _] _ _]. exact Hc.
  - destruct (seal_own prefix kind t e b es tip n Hes' Hh Hok Ht Hn) as [Hs1 Hs2].
    apply holds_archived in Hs1, Hs2; [|done..]. rewrite !fmap_app in Hs2. split.
    + intros b' Hv'. split.
      * destruct (Hc b' Hv') as [->|[->| ->]]; [by left|by left|]. right. by exists (e_manifest e), (e_ws e).
      * intros kind' t' ms ss Hne Hb' Hms. destruct (Hwf kind' t' Hb') as [es' Hes2].
        destruct (archived_unique _ _ _ _ _ _ _ _ Hms (holds_archived prefix b kind' t' es' Hb' Hes2)) as [-> ->].
        destruct (seal_other prefix kind t e b es' kind' t' Hne Hes2) as [Hs3 Hs4].
        destruct (Hc b' Hv') as [->|[->| ->]]; [done|by apply holds_archived..].
    + intros _ _. left. unfold p. rewrite Hf. do 2 eexists. exists (e_ws e). split; [exact Hs2|]. split; [|done].
      apply elem_of_app. right. by apply list_elem_of_singleton.
Qed.

Lemma seal_appends_atomically_witness :
  let p := seal "p" Audit 0 [demo_record] in
  (∀ b', visits bucket_answer p ∅ b' →
     (archived "p" b' Audit "a" [] [] ∨
      ∃ m ws, Forall2 canonical_of [demo_record] ws ∧ archived "p" b' Audit "a" [m] [ws]) ∧
     (∀ kind' t' ms ss, Audit ≠ kind' ∨ "a" ≠ t' → blank t' = false →
        archived "p" ∅ kind' t' ms ss → archived "p" b' kind' t' ms ss)) ∧
  (∀ m, result bucket_answer p ∅ = inl m →
     (∃ ms ss ws, archived "p" (final bucket_answer p ∅) Audit "a" ms ss ∧ ws ∈ ss ∧ Forall2 canonical_of [demo_record] ws) ∨
     ∃ ws, Forall2 canonical_of [demo_record] ws ∧ Collision [lines_text ws] []).
Proof.
  apply (seal_appends_atomically "p" Audit "a" 0 [demo_record] ∅ [] []); [constructor|exact demo_sealable|by vm_compute|].
  split; [by vm_compute|constructor].
Defined.
