(* ===== verification/ArchiveDrain.v ===== *)
(** * Draining a store into its archive

    The composition of the audit store and the object archive:
    [archiveAuditStoreTenant] over [list] of a store archives the whole history of
    a tenant, and wherever it stops the archive holds a prefix of it, from which
    the next run goes on. *)

From S2P Require Import Prelude Regex JsNum JsVal Dates JsonText Hash Sha256 Canonical Keyed AuditChain ChainModes SameData Redact Event Retention.
From S2P Require Import ExportBundle BundleVerify Store StoreHistory HostCalls StagingArchive ObjectKeys Doubles ObjectArchive SealedSegments.
From S2P Require Import Coordinator RetentionHost ArchiveHistory ArchiveSafety Demo.

#[local] Open Scope Z_scope.
#[local] Arguments num_of_Z : simpl never.

Lemma take_own_length {A} m (l : list A) : take (length (take m l)) l = take m l.
Proof.
  rewrite length_take. destruct (decide (m ≤ length l)%nat); [by rewrite Nat.min_l by done|].
  rewrite Nat.min_r by lia. rewrite !take_ge by lia. done.
Qed.

Section Drain.
Context `{HS : Hasher} `{HO : Host} `{TD : TextDecoder}.
Context (prefix : string) (kind : chainKind) (t : string).

(** ** One batch *)

(** A run of the tenant's chain passes the validation of a segment. *)
Lemma links_checked rs tip n tip' n' : Forall (owned kind t) rs → links tip n rs tip' n' → ∀ p,
  (∀ q, p = Some q → vget_opt q "sequence" = VInt n ∧ vget_opt q "hash" = tip) → tip_ok tip →
  check_records kind (VStr t) p rs = Ret tt.
Proof.
  intros He Hl. induction Hl as [|tip n r h rs tip' n' [Hs Hp Hh Hd] Hl IH]; intros p Hq Ht; [done|].
  apply Forall_cons in He as [He Hes]. cbn [check_records]. rewrite He. cbn [mbind exc_mbind].
  rewrite strict_eq_str_refl. cbn [guard_exc mbind exc_mbind].
  rewrite (proj2 (hashRecord_text kind r h) Hd). cbn [mbind exc_mbind]. apply vget_obj_opt in Hs, Hp, Hh.
  rewrite Hh, strict_eq_str_refl. cbn [guard_exc mbind exc_mbind].
  assert (check_records kind (VStr t) (Some r) rs = Ret tt) as E by (apply IH; [done| |right; eauto]; by intros q [= <-]).
  destruct p as [q|]; [|exact E]. destruct (Hq q eq_refl) as [Hqs Hqh].
  rewrite Hqs, plus_one_int. cbn [mbind exc_mbind]. rewrite Hs, Hp, Hqh, strict_eq_int_refl, strict_eq_tip_refl by done. exact E.
Qed.

Lemma run_validates rs tip n tip' n' : rs ≠ [] → blank t = false → Forall (owned kind t) rs →
  links tip n rs tip' n' → tip_ok tip → validateSegmentRecords kind rs = Ret t.
Proof.
  intros Hne Hb He Hl Ht. unfold validateSegmentRecords. destruct rs as [|r rs]; [done|]. change (default VUndef (head (r :: rs))) with r.
  apply Forall_cons in He as [Her Hes]. rewrite Her. cbn [mbind exc_mbind]. rewrite Hb.
  erewrite links_checked; [done|by constructor|exact Hl|done|done].
Qed.

(** Sealing the run that comes next commits it. *)
Lemma seal_extends rs now b es tip n tip' n' : Forall sealable rs → rs ≠ [] → blank t = false →
  Forall (owned kind t) rs → links tip n rs tip' n' →
  entries prefix kind t VNull 0 es tip n → holds prefix kind t b es →
  ∃ e, entry_ok prefix kind t e ∧ e_tip e = tip ∧ e_n e = n ∧ Forall2 canonical_of rs (e_ws e) ∧
    commits prefix kind t e (seal prefix kind now rs) b.
Proof.
  intros Hall Hne Hb He Hl Hes Hh. pose proof (entries_tip _ _ _ _ _ _ _ _ Hes (or_introl eq_refl)) as Ht.
  pose proof (tip_shaped_ok _ Ht) as Hto. pose proof (proj1 (entries_le _ _ _ _ _ _ _ _ Hes)) as Hn.
  assert (Forall (λ r, is_json r = true) rs) as Hj by (eapply Forall_impl; [exact Hall|]; by intros r [[Hj _] _]).
  destruct (canonical_values rs Hj) as (ws & Hw & Htexts). pose proof (encodeNdjson_ok rs ws Hne Hw Htexts) as Henc.
  pose proof (run_validates rs tip n tip' n' Hne Hb He Hl Hto) as Hv.
  pose proof (seal_leads prefix kind t rs ws now b es tip n Hne Hv Henc Hes Hh) as Hlead.
  apply (extending_commits prefix kind t rs ws tip n tip' n' now _ b); try done.
  destruct (links_first _ _ _ _ _ Hl Hne) as (_ & Hf & Hp). unfold commit in Hlead. cbn zeta in Hlead. rewrite Hf, Hp in Hlead. clear Hp Hl.
  destruct es as [|e0 es0 _] using rev_ind.
  - inversion Hes; subst. exact Hlead.
  - destruct (entries_last _ _ _ _ _ _ _ _ _ Hes) as (-> & -> & Hok0). pose proof (entry_described _ _ _ _ Hok0) as [_ _ Hto0 _ _ Hlast _ _].
    pose proof (entry_segment _ _ _ _ Hok0) as [_ _ _ _ _ _ _ Hsafe].
    rewrite fmap_app in Hlead. cbn [fmap list_fmap] in Hlead. rewrite last_snoc, Hto0, Hlast, js_leb_int in Hlead.
    rewrite (proj2 (Z.leb_gt _ _)) in Hlead by lia.
    rewrite (int_at_int _ _ _ Hto0), js_succ_exact, strict_eq_int_refl, strict_eq_tip_refl in Hlead by done. done.
Qed.

Lemma seal_holds rs now b es tip n tip' n' : Forall sealable rs → rs ≠ [] → blank t = false →
  Forall (owned kind t) rs → links tip n rs tip' n' →
  entries prefix kind t VNull 0 es tip n → holds prefix kind t b es →
  let p := seal prefix kind now rs in
  ∃ e, Forall2 canonical_of rs (e_ws e) ∧ entries prefix kind t VNull 0 (es ++ [e]) tip' n' ∧
    holds prefix kind t (final bucket_answer p b) (es ++ [e]) ∧ (∃ m, result bucket_answer p b = inl m) ∧
    ∀ b', visits bucket_answer p b b' →
      archive_holds prefix b' kind t es ∨ archive_holds prefix b' kind t (es ++ [e]).
Proof.
  intros Hall Hne Hb He Hl Hes Hh p.
  destruct (seal_extends rs now b es tip n tip' n' Hall Hne Hb He Hl Hes Hh) as (e & Hok & <- & <- & Hcan & [Hc Hf Hr]).
  pose proof (entries_snoc prefix kind t _ _ _ _ _ e Hes Hok eq_refl eq_refl) as Hes'.
  assert (e_tip' e = tip' ∧ e_n' e = n') as [<- <-].
  { destruct Hok as [[_ _ _ _ Hle Ht _ _] _ _]. pose proof (canonical_same rs _ Hall Hcan) as Hs.
    apply (links_same kind _ _ Hs) in Hl; [|by apply tip_shaped_ok]. by eapply links_unique. }
  destruct (seal_own prefix kind t e b es _ _ Hes Hh Hok eq_refl eq_refl) as [H1 H2].
  exists e. split; [done|]. split; [done|]. split; [unfold p; rewrite Hf; by eapply holds_entry|]. split; [done|].
  intros b' Hv. destruct (Hc b' Hv) as [->|[->| ->]]; [left|by left|by right]. by exists (e_tip e), (e_n e).
Qed.
End Drain.

(** ** The loop *)

Section Loop.
Context `{HS : Hasher} `{HO : Host} `{TD : TextDecoder}.
Context (prefix : string) (t : string).
Context (store_list : nat → Z → exc (list val)) (clock : nat → Z).
Context (hist : list val) (size : nat) (from : nat) (tipH : val) (nH : Z).
Context (Hsize : (1 ≤ size)%nat) (Hblank : blank t = false).
Context (Hall : Forall sealable hist) (Henv : Forall (owned Audit t) hist) (Hchain : chain hist tipH nH).
Context (Hlist : ∀ i n, (from ≤ n ≤ length hist)%nat → store_list i (Z.of_nat n) = Ret (take size (drop n hist))).

(** The archive holds the first [n] records of the history. *)
Definition archives (b : bucket) (es : list entry) (n : nat) : Prop :=
  ∃ tip, entries prefix Audit t VNull 0 es tip (Z.of_nat n) ∧ holds prefix Audit t b es ∧ chain (take n hist) tip (Z.of_nat n).

Lemma next_batch n : (n < length hist)%nat → ∀ tip, chain (take n hist) tip (Z.of_nat n) →
  let batch := take size (drop n hist) in
  batch ≠ [] ∧ Forall sealable batch ∧ Forall (owned Audit t) batch ∧
  ∃ tip', links tip (Z.of_nat n) batch tip' (Z.of_nat (n + length batch)) ∧
    chain (take (n + length batch) hist) tip' (Z.of_nat (n + length batch)).
Proof using All.
  intros Hn tip Hc batch. assert (take (n + length batch) hist = take n hist ++ batch) as E.
  { unfold batch. by rewrite <- take_take_drop, take_own_length. }
  assert (∃ tip' n', chain (take n hist ++ batch) tip' n') as (tip' & n' & C).
  { rewrite <- E. rewrite <- (take_drop (n + length batch) hist) in Hchain. by apply chain_app_inv in Hchain. }
  split; [|split; [by apply Forall_take, Forall_drop|split; [by apply Forall_take, Forall_drop|]]].
  - intros E'. apply (f_equal length) in E'. unfold batch in E'. rewrite length_take, length_drop in E'. cbn in E'. lia.
  - pose proof (chain_split _ _ _ _ _ _ Hc C) as L. pose proof (links_length _ _ _ _ _ L) as El.
    assert (n' = Z.of_nat (n + length batch)) as -> by lia. exists tip'. by rewrite E.
Qed.

(** Records as canonical values, batch by batch. *)
Lemma canonical_more n m ws ws' : Forall2 canonical_of (take m (drop n hist)) ws →
  Forall2 canonical_of (drop (n + m) hist) ws' → Forall2 canonical_of (drop n hist) (ws ++ ws').
Proof. intros H1 H2. rewrite <- (take_drop m (drop n hist)), drop_drop. by apply Forall2_app. Qed.

(** What the rest [p] of the loop does once [n] records are archived. *)
Definition drained (n : nat) (es : list entry) (sealed : list val) (p : prog (option (list val))) (b : bucket) : Prop :=
  (∃ es' sealed', result bucket_answer p b = inl (Some (sealed ++ sealed')) ∧ length sealed' = length es' ∧
     archive_holds prefix (final bucket_answer p b) Audit t (es ++ es') ∧ Forall2 canonical_of (drop n hist) (records_of es')) ∧
  ∀ b', visits bucket_answer p b b' → ∃ j es', archive_holds prefix b' Audit t (es ++ es') ∧
    Forall2 canonical_of (take j (drop n hist)) (records_of es').

Lemma drained_done b es sealed : archives b es (length hist) → drained (length hist) es sealed (mret (Some sealed)) b.
Proof.
  intros (tip & Hes & Hh & _). split.
  - exists [], []. rewrite !app_nil_r, drop_all. split; [done|]. split; [done|]. split; [by exists tip, (Z.of_nat (length hist))|constructor].
  - intros b' ->%visits_done. exists O, []. rewrite app_nil_r. split; [by exists tip, (Z.of_nat (length hist))|constructor].
Qed.

Lemma drain_spec fuel : ∀ i b es sealed n, archives b es n → (from ≤ n ≤ length hist)%nat → (length hist < fuel + n)%nat →
  drained n es sealed (drain prefix store_list clock fuel i (Z.of_nat size) (Z.of_nat n) sealed) b.
Proof using All.
  induction fuel as [|fuel IH]; intros i b es sealed n Ha Hn Hfuel; [lia|].
  cbn [drain]. rewrite Hlist by done. cbn [run].
  destruct (decide (n = length hist)) as [->|Hlt].
  { rewrite drop_all, take_nil. by apply drained_done. }
  destruct Ha as (tip & Hes & Hh & Hc).
  destruct (next_batch n ltac:(lia) tip Hc) as (Hne & Hbs & Hbe & tip' & Hl & Hc').
  set (batch := take size (drop n hist)) in *.
  destruct (seal_holds prefix Audit t batch (clock i) b es tip _ tip' _ Hbs Hne Hblank Hbe Hl Hes Hh)
    as (e & Hcan & Hes' & Hh' & (m & Hm) & Hv).
  assert (take (length batch) (drop n hist) = batch) as Hbatch by apply take_own_length.
  assert (n + length batch ≤ length hist)%nat as Hle by (unfold batch; rewrite length_take, length_drop; lia).
  assert (1 ≤ length batch)%nat by (destruct batch; [done|cbn; lia]).
  destruct (links_last _ _ _ _ _ Hl Hne) as (_ & Hlast & _). apply int_at_int in Hlast.
  match goal with |- drained _ _ _ (?p ≫= ?f) _ => change (p ≫= f) with (f batch) end. cbn beta.
  rewrite (proj2 (Nat.eqb_neq _ _)) by lia. match goal with |- drained _ _ _ (_ ≫= ?f) _ => set (rest := f) end.
  assert (drained (n + length batch) (es ++ [e]) (sealed ++ [m]) (rest m) (final bucket_answer (seal prefix Audit (clock i) batch) b)) as [Hr Hv'].
  { unfold rest. rewrite Hlast. assert (archives (final bucket_answer (seal prefix Audit (clock i) batch) b) (es ++ [e]) (n + length batch)) as Ha by by exists tip'.
    destruct (Z.ltb_spec (Z.of_nat (length batch)) (Z.of_nat size)) as [Hs|Hs]; [|apply IH; [done|lia|lia]].
    replace (n + length batch)%nat with (length hist) in * by (unfold batch in Hs |- *; rewrite length_take, length_drop in *; lia). by apply drained_done. }
  split.
  - rewrite result_bind, final_bind, Hm. destruct Hr as (es' & sealed' & -> & El & Ha & Hw).
    exists (e :: es'), (m :: sealed'). rewrite <- !app_assoc in *. split; [done|]. split; [cbn; by rewrite El|]. split; [done|].
    change (records_of (e :: es')) with (e_ws e ++ records_of es'). eapply canonical_more; [|exact Hw]. by rewrite Hbatch.
  - intros b' Hb. apply visits_bind in Hb as [Hb|(m' & Hm' & Hb)].
    + destruct (Hv b' Hb) as [Ha'|Ha']; [exists O, []; by rewrite app_nil_r|exists (length batch), [e]]. split; [done|].
      rewrite Hbatch. unfold records_of. cbn. by rewrite app_nil_r.
    + rewrite Hm in Hm'. injection Hm' as <-. destruct (Hv' b' Hb) as (j & es' & Ha & Hw). exists (length batch + j)%nat, (e :: es').
      rewrite <- app_assoc in Ha. split; [done|]. rewrite <- drop_drop in Hw.
      rewrite <- take_take_drop, Hbatch. by apply Forall2_app.
Qed.

End Loop.

(** The chain of an archive that holds canonical values of a history's start. *)
Lemma archives_history `{Hasher} `{Host} `{TextDecoder} prefix t hist tipH nH es tip n b :
  Forall sealable hist → chain hist tipH nH → entries prefix Audit t VNull 0 es tip n → holds prefix Audit t b es →
  let k := length (records_of es) in
  Forall2 canonical_of (take k hist) (records_of es) → archives prefix t hist b es k ∧ n = Z.of_nat k.
Proof.
  intros Hall Hc Hes Hh k Hcan. pose proof (entries_links prefix Audit t _ _ _ _ _ [] Hes chain_nil) as Ce. cbn [app] in Ce.
  pose proof (chain_length _ _ _ Ce) as ->. split; [|done]. exists tip. split; [done|]. split; [done|].
  rewrite <- (take_drop k hist) in Hc. destruct (chain_app_inv _ _ _ _ Hc) as (tip1 & n1 & C1).
  pose proof (chain_split [] VNull 0 _ _ _ chain_nil C1) as L. pose proof (Forall_take _ k _ Hall) as Hall'.
  apply (links_same Audit _ _ (canonical_same _ _ Hall' Hcan)) in L; [|by left].
  destruct (chain_unique _ _ _ _ _ Ce (chain_links [] VNull 0 _ _ _ chain_nil L)) as [<- <-]. done.
Qed.

(** The sequence the archive of a chain ends at, as the drain reads it. *)
Lemma archived_tip `{Hasher} `{Host} `{TextDecoder} prefix t es tip n : entries prefix Audit t VNull 0 es tip n →
  match last (e_manifest <$> es) with Some m => int_at m "toSequence" | None => 0 end = n.
Proof.
  intros Hes. destruct es as [|e es _] using rev_ind; [by inversion Hes|].
  destruct (entries_last _ _ _ _ _ _ _ _ _ Hes) as (_ & -> & [_ _ [_ _ Hto _ _ _ _ _]]).
  rewrite fmap_app. cbn [fmap list_fmap]. rewrite last_snoc. by apply int_at_int.
Qed.

(** A page of the store is a page of the history. *)
Lemma drained_page `{Hasher} `{Host} `{Base64} s t hist n size : reachable s → history_of s t hist → blank t = false →
  minimumRetainedSequence (state_of s t) - 1 <= Z.of_nat n → 1 <= size →
  list_records s (VObj [("tenantId", VStr t)]) (ListOptions (VInt (Z.of_nat n)) (VInt size))
  = Ret (take (Z.to_nat size) (drop n hist)).
Proof.
  intros Hr Hh Ht Hn Hs. assert (∀ z m, 0 <= z → list_option (VInt z) m = Ret (Some z)) as Hopt.
  { intros z m Hz. unfold list_option, VInt. rewrite num_int_of_Z. by rewrite (proj2 (Z.leb_le _ _)). }
  rewrite (list_records_page s _ t _ (Some (Z.of_nat n)) (Some size)); [|done| |apply Hopt; lia|apply Hopt; lia].
  - destruct Hh as [_ _ Hm Hk _ _]. unfold page. cbn [default from_option]. rewrite Hk, drop_drop. do 3 f_equal. unfold id. lia.
  - unfold scope_tenant. cbn. by rewrite Ht.
Qed.

(** C11. Draining a tenant of the audit store ends, and archives its whole history:
    with more turns than there are records left, whatever the segment size, the
    archive gives back what it gave before and then the canonical values of every
    later record of the history. This is for a store that still holds what the
    archive lacks (its minimum retained sequence is at most one past the archived
    count), and for records that are JSON data with sequences in the safe range.
    Wherever the drain stops, the archive holds such
    a start of the history, from which the next drain goes on. *)
Theorem drain_archives_history `{Hasher} `{Host} `{TextDecoder} `{Base64} prefix s t hist count size clock b manifests segments fuel :
  reachable s → history_of s t hist → Forall sealable hist → blank t = false →
  archive_reachable prefix b → archived prefix b Audit t manifests segments →
  let archived_count := length (concat segments) in
  Forall2 canonical_of (take archived_count hist) (concat segments) →
  minimumRetainedSequence (state_of s t) - 1 <= Z.of_nat archived_count →
  int_of (nullish_or count (VInt 1000)) = Some size → 1 <= size → (length hist < fuel + archived_count)%nat →
  let store_list (_ : nat) after := list_records s (VObj [("tenantId", VStr t)]) (ListOptions (VInt after) (VInt size)) in
  let p := archiveAuditStoreTenant prefix store_list clock fuel t count in
  (∃ sealed ms ss, result bucket_answer p b = inl (Some sealed) ∧ length sealed = length ms ∧
     archived prefix (final bucket_answer p b) Audit t (manifests ++ ms) (segments ++ ss) ∧
     Forall2 canonical_of hist (concat (segments ++ ss))) ∧
  ∀ b', visits bucket_answer p b b' → ∃ j ms ss,
    archived prefix b' Audit t (manifests ++ ms) (segments ++ ss) ∧
    Forall2 canonical_of (take j hist) (concat (segments ++ ss)).
Proof.
  intros Hs Hhist Hall Hb Hr Ha k Hcan Hmin Hcount Hsize Hfuel store_list p.
  destruct (reachable_well_formed prefix b Hr Audit t Hb) as [es Hes].
  destruct (archived_unique _ _ _ _ _ _ _ _ Ha (holds_archived prefix b Audit t es Hb Hes)) as [-> ->].
  destruct Hes as (tip & n & Hes & Hh). pose proof Hhist as [Hc Henv Hm Hkept Hf Hanchor].
  destruct (archives_history prefix t hist _ _ es tip n b Hall Hc Hes Hh Hcan) as [Hk ->]. fold (records_of es) in k. fold k in Hk, Hes.
  assert (k ≤ length hist)%nat as Hle.
  { apply Forall2_length in Hcan. rewrite length_take in Hcan. fold (records_of es) in Hcan. lia. }
  assert (leads p (drain prefix store_list clock fuel 0 size (Z.of_nat k) []) b) as [Hv Hfin Hres].
  { unfold p, archiveAuditStoreTenant, require. rewrite Hcount, (proj2 (Z.leb_le _ _)) by done.
    eapply leads_bind; [by apply reads_run|]. eapply leads_bind; [apply reads_run; unfold requireNonEmpty; by rewrite Hb|].
    unfold listSegments, requireNonEmpty. rewrite Hb.
    eapply leads_bind; [by eapply listManifests_reads|]. rewrite (archived_tip _ _ _ _ _ Hes). apply leads_refl. }
  destruct (drain_spec prefix t store_list clock hist (Z.to_nat size) k _ _ ltac:(lia) Hb Hall (Forall_impl _ _ _ Henv (λ r, envelope_owned Audit r t)) Hc) with (fuel := fuel) (i := 0%nat)
    (b := b) (es := es) (sealed := @nil val) (n := k) as [Hd Hd']; [|done|lia|lia|].
  { intros i n' Hn'. apply (drained_page s t hist); [done..|lia|lia]. }
  rewrite Z2Nat.id in Hd, Hd' by lia. split.
  - rewrite Hres, Hfin. destruct Hd as (es' & sealed & Hres' & El & Hah & Hw). exists sealed, (e_manifest <$> es'), (e_ws <$> es').
    rewrite <- !fmap_app, length_fmap. split; [done|]. split; [done|]. split; [by apply holds_archived|].
    rewrite fmap_app, concat_app, <- (take_drop k hist). by apply Forall2_app.
  - intros b' [->|Hv']%Hv.
    + exists k, [], []. rewrite !app_nil_r. by split.
    + destruct (Hd' b' Hv') as (j & es' & Hah & Hw). exists (k + j)%nat, (e_manifest <$> es'), (e_ws <$> es').
      rewrite <- !fmap_app. split; [by apply holds_archived|]. rewrite fmap_app, concat_app, <- take_take_drop. by apply Forall2_app.
Qed.

(** A store with one record, drained into an empty archive. *)
#[local] Existing Instance toy_hasher.
#[local] Existing Instance toy_host.
#[local] Existing Instance latin1_decoder.
#[local] Existing Instance demo_base64.

Definition full_store : store := default empty_store (fst <$> exc_to_option (append 0 empty_store (demo_event "a" "e1") no_append_options)).

Lemma full_store_reachable : reachable full_store.
Proof.
  apply rtc_once. exists "a".
  destruct (append 0 empty_store (demo_event "a" "e1") no_append_options) as [[s' r]|] eqn:E; [|by vm_compute in E].
  unfold full_store. rewrite E. by apply (step_append "a" empty_store 0 (demo_event "a" "e1") no_append_options s' r).
Qed.

Lemma full_store_history : history_of full_store "a" (hot full_store "a").
Proof.
  destruct (reachable_ok _ full_store_reachable "a" ltac:(done)) as [hist Hh]. pose proof (hist_kept _ _ _ _ _ Hh) as Hk.
  assert (minimumRetainedSequence (state_of full_store "a") = 1) as Em by by vm_compute. rewrite Em in Hk. cbn in Hk. by rewrite Hk.
Qed.

Lemma full_store_sealable : Forall sealable (hot full_store "a").
Proof.
  assert (forallb (λ r, is_json r && no_proto r && strict_eq (vget_opt r "sequence") (VInt 1)) (hot full_store "a") = true) as Hb by by vm_compute.
  revert Hb. generalize (hot full_store "a") as rs. induction rs as [|r rs IH]; [constructor|]. cbn [forallb].
  intros [[[Hj Hp]%andb_true_iff Hs%strict_eq_int]%andb_true_iff Hb]%andb_true_iff.
  constructor; [|by apply IH]. constructor; [done|]. intros z E. rewrite Hs in E. apply VInt_inj in E as <-. lia.
Qed.

Lemma drain_archives_history_witness :
  let store_list (_ : nat) after := list_records full_store (VObj [("tenantId", VStr "a")]) (ListOptions (VInt after) (VInt 1000)) in
  let p := archiveAuditStoreTenant "p" store_list (λ _, 0) 3 "a" VUndef in
  (∃ sealed ms ss, result bucket_answer p ∅ = inl (Some sealed) ∧ length sealed = length ms ∧
     archived "p" (final bucket_answer p ∅) Audit "a" ms ss ∧ Forall2 canonical_of (hot full_store "a") (concat ss)) ∧
  ∀ b', visits bucket_answer p ∅ b' → ∃ j ms ss,
    archived "p" b' Audit "a" ms ss ∧ Forall2 canonical_of (take j (hot full_store "a")) (concat ss).
Proof.
  apply (drain_archives_history "p" full_store "a" (hot full_store "a") VUndef 1000 (λ _, 0) ∅ [] [] 3);
    [exact full_store_reachable|exact full_store_history|exact full_store_sealable|reflexivity|constructor| |constructor|by vm_compute|reflexivity|lia|].
  - split; [by vm_compute|constructor].
  - assert (length (hot full_store "a") = 1%nat) as -> by by vm_compute. cbn. lia.
Defined.
