(* ===== verification/ArchiveSound.v ===== *)
(** * What a successful replay proves

    Whatever the provider lists and returns: when the replay of a tenant's archive
    succeeds, the bytes it read are the canonical lines of one chain from its
    origin. *)

From S2P Require Import Prelude Regex JsNum JsVal Dates JsonText Hash Sha256 Canonical Keyed AuditChain Redact Event Retention.
From S2P Require Import ExportBundle Store HostCalls StagingArchive Doubles ObjectArchive SealedSegments Demo.
From S2P Require Import RetentionHost ArchiveHistory ArchiveSafety.

#[local] Open Scope Z_scope.
#[local] Arguments num_of_Z : simpl never.

Section Sound.
Context `{HS : Hasher} `{HO : Host} `{TD : TextDecoder}.
Context (kind : chainKind).

(** ** Reading *)

Lemma parsed_record u line r : parseArchivedRecord kind (VStr u) line = Ret r →
  tenantOf kind r = Ret (VStr u) ∧ canonicalJson r = Ret (Some line).
Proof.
  unfold parseArchivedRecord. destruct (json_parse line) as [r'|]; [|done]. intros E.
  apply bind_ret in E as (u' & Hu & E). destruct (strict_eq u' _) eqn:Eu; [cbn [negb] in E|done]. apply strict_eq_str in Eu as ->.
  apply bind_ret in E as (c & Hc & E). destruct (bool_decide _) eqn:Ec; [cbn [negb] in E|done]. apply bool_decide_eq_true in Ec as ->.
  apply bind_ret in E as (h & _ & E). apply bind_ret in E as (s & _ & E). destruct (strict_eq _ s); [|done]. by injection E as <-.
Qed.

(** What is known of a segment that was read. *)
Record segment_read (m : val) (body : list Z) (rs : list val) : Prop := {
  read_digest : vget_opt m "contentSha256" = VStr (sha256Bytes body);
  read_lines : Forall2 (λ line r, canonicalJson r = Ret (Some line)) (filter (λ l, l ≠ "") (split_lines (chars (decode_utf8 body)))) rs;
  read_tenant : Forall (λ r, tenantOf kind r = Ret (vget_opt m "tenantId")) rs;
  read_first : ∃ r, head rs = Some r ∧ vget_opt r "sequence" = vget_opt m "fromSequence";
}.

Lemma read_segment_facts m body rs u : vget_opt m "tenantId" = VStr u → read_segment kind m body = Ret rs → segment_read m body rs.
Proof.
  intros Hu E. unfold read_segment in E. rewrite Hu in E. destruct (strict_eq (VStr (sha256Bytes body)) _) eqn:Ed; [cbn [negb] in E|done].
  apply strict_eq_true in Ed. destruct (strict_eq (VInt _) _) in E; [cbn [negb] in E|done].
  apply bind_ret in E as (rs' & Hrs & E). apply bind_ret in E as (from & Hfrom & E).
  destruct (strict_eq from _) eqn:Ef; [cbn [negb] in E|done]. apply strict_eq_true in Ef.
  apply bind_ret in E as (to_ & _ & E). destruct (strict_eq to_ _); [cbn [negb] in E|done].
  destruct (_ && _); [cbn [negb] in E|done]. injection E as ->.
  apply mapE_Forall2 in Hrs. constructor.
  - done.
  - eapply Forall2_impl; [exact Hrs|]. intros line r Hr. by apply (parsed_record u).
  - rewrite Hu. clear -Hrs. induction Hrs as [|line r ls rs Hr _ IH]; constructor; [|done]. by eapply parsed_record.
  - destruct rs as [|r rs]; [done|]. exists r. split; [done|]. apply vget_obj_opt in Hfrom. cbn in Hfrom. congruence.
Qed.

(** ** Manifests *)

(** A manifest that was parsed. *)
Record manifest_read (m : val) : Prop := {
  manifest_tenant : ∃ u, vget_opt m "tenantId" = VStr u;
  manifest_range : ∃ from to_, vget_opt m "fromSequence" = VNum from ∧ num_int from = Some (int_at m "fromSequence") ∧
    vget_opt m "toSequence" = VNum to_ ∧ 1 <= int_at m "fromSequence" <= int_at m "toSequence";
}.

Lemma parsed_manifest text m : parseManifest text = Ret m → manifest_read m.
Proof.
  unfold parseManifest. destruct (json_parse text) as [m'|]; [|done]. intros E. apply bind_ret in E as (valid & Hv & E).
  destruct valid; [|done]. injection E as ->. unfold manifest_valid in Hv. apply bind_ret in Hv as (u & Hu & E). apply vget_obj_opt in Hu.
  destruct u as [| | | |u| | | |]; try done. destruct (int_of (vget_opt m "fromSequence")) as [from|] eqn:Ef; [|done].
  destruct (int_of (vget_opt m "toSequence")) as [to_|] eqn:Et; [|done]. destruct (int_of (vget_opt m "recordCount")); [|done].
  destruct (_ || _) eqn:Eb in E; [done|]. repeat rewrite orb_false_iff in Eb. destruct Eb as [[[_ H1] H2] _].
  apply Z.ltb_ge in H1, H2. constructor; [by exists u|]. unfold int_at. rewrite Ef, Et.
  destruct (vget_opt m "fromSequence") as [| | |nf| | | | |]; try done. destruct (vget_opt m "toSequence") as [| | |nt| | | | |]; try done.
  exists nf, nt. cbn in *. done.
Qed.

(** The manifest that the provider returned under a key. *)
Definition manifest_at (t : Datatypes.list event) (key : string) (m : val) : Prop :=
  ∃ body, Event (GetObject key) (inl (Some body)) ∈ t ∧ parseManifest (decode_utf8 body) = Ret m.

(** [ms] are the manifests of a chain as the provider listed and returned them: one
    for every listed key of a manifest, in the order of their first sequences. *)
Record listed (prefix tenant : string) (t : Datatypes.list event) (ms : Datatypes.list val) : Prop := {
  listed_manifests : ∃ keys returned,
    Event (ListObjects (tenantPrefix prefix kind tenant)) (inl keys) ∈ t ∧
    Forall2 (manifest_at t) (List.filter (ends_with MANIFEST_SUFFIX) keys) returned ∧ ms ≡ₚ returned;
  listed_in_order : StronglySorted (λ m m', int_at m "fromSequence" <= int_at m' "fromSequence") ms;
}.

Lemma manifest_at_app t t' key m : t ⊆ t' → manifest_at t key m → manifest_at t' key m.
Proof. intros Ht (body & Hb & Hm). exists body. by split; [apply Ht|]. Qed.

Lemma listed_app prefix tenant t t' ms : t ⊆ t' → listed prefix tenant t ms → listed prefix tenant t' ms.
Proof.
  intros Ht [(keys & returned & Hl & Hr & Hp) Ho]. split; [|done]. exists keys, returned. split; [by apply Ht|]. split; [|done].
  eapply Forall2_impl; [exact Hr|]. intros key m. by apply manifest_at_app.
Qed.

Lemma read_manifests_ok keys : ∀ t ms, completes (read_manifests keys) t (inl ms) → Forall2 (manifest_at t) keys ms.
Proof.
  induction keys as [|key keys IH]; intros t ms E; cbn [read_manifests] in E.
  - destruct t; [|done]. by injection E as <-.
  - apply completes_bind_ret in E as (t1 & t2 & body & -> & Hb & E). apply completes_ask in Hb as ->.
    destruct body as [body|]; [|by destruct t2].
    apply completes_bind_ret in E as (t3 & t4 & m & -> & Hm & E). apply completes_run in Hm as [-> Hm].
    apply completes_bind_ret in E as (t5 & t6 & ms' & -> & Hms & E). destruct t6; [|done]. injection E as <-.
    constructor; [exists body; split; [by left|done]|]. eapply Forall2_impl; [by eapply IH|].
    intros key' m'. apply manifest_at_app. set_solver.
Qed.

Lemma manifests_listed prefix u t ms : completes (listManifests prefix kind u) t (inl ms) → listed prefix u t ms.
Proof.
  unfold listManifests. intros (t1 & t2 & keys & -> & Hk & E)%completes_bind_ret. apply completes_ask in Hk as ->.
  apply completes_bind_ret in E as (t3 & t4 & ms' & -> & Hms & E). destruct t4; [|done]. injection E as <-.
  apply read_manifests_ok in Hms. split.
  - destruct (Sorting.Permutation.Permutation_Forall2 (sort_by_perm String.leb _) Hms) as (returned & Hp & Hr).
    exists keys, returned. split; [by left|]. split; [|by rewrite sort_by_perm].
    eapply Forall2_impl; [exact Hr|]. intros key m. apply manifest_at_app. set_solver.
  - assert (sortedb by_range (sort_by by_range ms')) as Hs by (apply sort_by_sorted; unfold by_range; [intros x y|intros x y z]; lia).
    clear -Hs. induction Hs as [|m ms _ IH Hm]; constructor; [done|]. eapply Forall_impl; [exact Hm|]. intros m'. unfold by_range. lia.
Qed.

Lemma listed_read prefix u t ms : listed prefix u t ms → Forall manifest_read ms.
Proof.
  intros [(keys & returned & _ & Hr & Hp) _]. rewrite Hp. clear -Hr. induction Hr as [|key m ks read (body & _ & Hm) _ IH]; constructor; [|done].
  by eapply parsed_manifest.
Qed.

(** ** The replay *)

(** A segment of the trace: the provider returned its bytes for the manifest's key. *)
Definition read_in (t : Datatypes.list event) (m : val) (rs : Datatypes.list val) : Prop :=
  ∃ body, Event (GetObject (string_at m "segmentKey")) (inl (Some body)) ∈ t ∧ segment_read m body rs.

Lemma read_in_app t t' m rs : t ⊆ t' → read_in t m rs → read_in t' m rs.
Proof. intros Ht (body & Hb & Hr). exists body. by split; [apply Ht|]. Qed.

Lemma read_ok m t rs : manifest_read m → completes (read kind m) t (inl rs) → read_in t m rs.
Proof.
  intros [[u Hu] _]. unfold read. intros (t1 & t2 & body & -> & Hb & E)%completes_bind_ret. apply completes_ask in Hb as ->.
  destruct body as [body|]; [|by destruct t2]. apply completes_run in E as [-> E]. exists body. split; [by left|]. by eapply read_segment_facts.
Qed.

(** Manifests that follow each other. *)
Fixpoint follows (previous : option val) (ms : Datatypes.list val) : Prop :=
  match ms with [] => True | m :: ms => contiguous previous m = true ∧ follows (Some m) ms end.

Lemma replay_ok ms : Forall manifest_read ms → ∀ previous acc t rs,
  completes (replay kind previous acc ms) t (inl (inr rs)) →
  follows previous ms ∧ ∃ parts, Forall2 (read_in t) ms parts ∧ rs = acc ++ concat parts.
Proof.
  induction 1 as [|m ms Hm _ IH]; intros previous acc t rs E; cbn [replay] in E.
  - destruct t; [|done]. injection E as <-. split; [done|]. exists []. split; [constructor|by rewrite app_nil_r].
  - destruct (contiguous previous m) eqn:Ec; cbn [negb] in E; [|by destruct t].
    apply completes_bind_ret in E as (t1 & t2 & segment & -> & Hs & E).
    destruct segment as [msg|segment]; [by destruct t2|].
    apply completes_try in Hs as [(a & Hs & [= <-])|(t3 & t4 & e & -> & _ & Hs)]; [|by destruct e, t4].
    apply completes_bind_ret in Hs as (t3 & t4 & part & -> & Hp & Hs). destruct t4; [|done]. injection Hs as ->.
    apply read_ok in Hp; [|done]. destruct (IH _ _ _ _ E) as [Hf (parts & Hparts & ->)]. split; [done|].
    exists (segment :: parts). cbn [concat]. rewrite app_assoc. split; [|done]. constructor.
    + eapply read_in_app, Hp. set_solver.
    + eapply Forall2_impl; [exact Hparts|]. intros m' rs' Hr. eapply read_in_app, Hr. set_solver.
Qed.

(** ** One tenant *)

(** The tenant of a manifest is that of its records' envelopes. *)
Lemma same_tenant m rs u : vget_opt m "tenantId" = VStr u → Forall (λ r, tenantOf kind r = Ret (vget_opt m "tenantId")) rs →
  Forall (λ r, ∃ u', envelope kind r u') rs → Forall (λ r, envelope kind r u) rs.
Proof.
  intros Hu Ht Henv. rewrite Forall_forall in *. intros r Hr. destruct (Henv r Hr) as [u' He].
  pose proof (envelope_owned _ _ _ He) as E. unfold owned in E. rewrite (Ht r Hr), Hu in E. by injection E as ->.
Qed.

(** A segment that does not start at the origin continues the tenant before it. *)
Lemma one_tenant u parts : ∀ pre, Forall (λ r, envelope kind r u) pre →
  Forall (λ rs, ∃ u' r, Forall (λ r, envelope kind r u') rs ∧ head rs = Some r ∧ vget_opt r "sequence" ≠ VInt 1) parts →
  (∀ t, ∃ tip n, chain (tenant_records kind t (pre ++ concat parts)) tip n) →
  Forall (λ r, envelope kind r u) (pre ++ concat parts).
Proof.
  induction parts as [|rs parts IH]; intros pre Hpre Hparts Hc; [by rewrite app_nil_r|].
  apply Forall_cons in Hparts as [(u' & r & Hu' & Hr & Hs) Hparts]. cbn [concat] in *. rewrite app_assoc in *.
  apply IH; [|done|done]. apply Forall_app. split; [done|]. destruct (decide (u' = u)) as [->|Hne]; [done|]. exfalso.
  destruct (Hc u') as (tip & n & C). unfold tenant_records in C. rewrite !of_key_app in C.
  assert (of_key (check_envelope kind) u' pre = []) as E by (pose proof (of_key_tenant kind u u' pre Hpre) as E; by rewrite decide_False in E).
  assert (of_key (check_envelope kind) u' rs = rs) as E' by (pose proof (of_key_tenant kind u' u' rs Hu') as E'; by rewrite decide_True in E').
  rewrite E, E' in C. destruct rs as [|r' rs]; [done|]. injection Hr as ->.
  pose proof (chain_sequences _ _ _ 0%nat r C eq_refl) as Hseq. apply vget_obj_opt in Hseq. by apply Hs.
Qed.

Lemma later_segments t ms parts : Forall2 (read_in t) ms parts → Forall manifest_read ms →
  Forall (λ r, ∃ u, envelope kind r u) (concat parts) → ∀ m, manifest_read m → follows (Some m) ms →
  Forall (λ rs, ∃ u' r, Forall (λ r, envelope kind r u') rs ∧ head rs = Some r ∧ vget_opt r "sequence" ≠ VInt 1) parts.
Proof.
  induction 1 as [|m' rs ms parts (body & _ & Hread) _ IH]; intros Hms Henv m Hm Hf; [constructor|].
  inversion Hms as [|? ? Hm' Hms']; subst. destruct Hf as [Hc Hf]. cbn [concat] in Henv. apply Forall_app in Henv as [Henv Henv'].
  constructor; [|by eapply IH]. destruct Hread as [_ _ Ht (r & Hr & Hfrom)]. destruct Hm' as [[u Hu] _]. exists u, r.
  split_and!; [|done|].
  - by eapply same_tenant.
  - rewrite Hfrom. unfold contiguous in Hc. apply andb_true_iff in Hc as [Hc _]. apply strict_eq_int in Hc. rewrite Hc.
    intros E%VInt_inj. destruct Hm as [_ (? & ? & _ & _ & _ & ? & Hle)].
    unfold js_succ in E. destruct (Z.ltb_spec (int_at m "toSequence") (2 ^ 53)); [lia|]. destruct (_ <? _); [|lia]. destruct (_ =? 0); lia.
Qed.
End Sound.

(** C13. What a successful replay proves, whatever the provider lists and returns: the
    bytes it returned for the segment of every manifest it listed and returned are
    the canonical lines of records, with the digest that manifest states, and in the
    order of the manifests' sequences these records are one tenant's whole chain,
    from its origin on. *)
Theorem verified_archive_sound `{Hasher} `{Host} `{TextDecoder} prefix kind tenant t v :
  completes (verify prefix kind tenant) t (inl v) → chain_ok v = true →
  ∃ ms parts u, listed kind prefix tenant t ms ∧ Forall2 (read_in kind t) ms parts ∧
    length ms = segmentCount v ∧ length (concat parts) = recordCount v ∧
    Forall (λ r, envelope kind r u) (concat parts) ∧ ∃ tip n, chain (concat parts) tip n.
Proof.
  unfold verify. intros (t1 & t2 & [] & -> & _ & E)%completes_bind_ret Hok.
  apply completes_bind_ret in E as (t3 & t4 & ms & -> & Hl%manifests_listed & E). pose proof (listed_read _ _ _ _ _ Hl) as Hms. cbn zeta in E.
  apply (listed_app _ _ _ _ (t1 ++ t3 ++ t4)) in Hl; [|set_solver].
  destruct ms as [|m ms].
  { destruct t4; [|done]. injection E as <-. exists [], [], "". split; [done|]. repeat (split; [done|]). do 2 eexists. constructor. }
  destruct (negb _) in E; [destruct t4; [|done]; by injection E as <-|].
  apply completes_bind_ret in E as (t5 & t6 & replayed & -> & Hr & E). destruct replayed as [[count why]|records].
  { destruct t6; [|done]. by injection E as <-. }
  destruct (replay_ok kind (m :: ms) Hms None [] t5 records Hr) as [[_ Hf] (parts & Hparts & ->)]. cbn [app] in *.
  apply completes_bind_ret in E as (t7 & t8 & verdict & -> & Hv & E). apply completes_run in Hv as [-> Hv].
  destruct t8; [|done]. cbn zeta in E. injection E as <-. cbn in Hok. destruct verdict as [|? ?]; [|done]. clear Hok.
  inversion Hparts as [|? rs ? parts' Hrs Hparts']; subst. inversion Hms as [|? ? Hm Hms']; subst.
  assert (Forall (tenant_typed kind) (concat (rs :: parts'))) as Htyped.
  { apply Forall_concat. clear -Hparts Hms. revert Hms. induction Hparts as [|m' rs' ms' parts1 (body & _ & Hread) _ IH]; intros Hms; [constructor|].
    inversion Hms as [|? ? [[u Hu] _] Hms']; subst. constructor; [|by apply IH]. eapply Forall_impl; [exact (read_tenant _ _ _ _ Hread)|].
    intros r Hr. rewrite Hu in Hr. by eapply owned_typed. }
  apply verify_ok in Hv as [Henv Hc]; [|done]. exists (m :: ms), (rs :: parts').
  destruct Hrs as (body & Hb & Hread). pose proof Hm as [[u Hu] _]. exists u. split; [done|]. split; [|split; [done|split; [done|]]].
  - eapply Forall2_impl; [exact Hparts|]. intros m' rs' Hr'. eapply read_in_app, Hr'. set_solver.
  - cbn [concat] in Henv, Hc. apply Forall_app in Henv as [Henv1 Henv2].
    assert (Forall (λ r, envelope kind r u) (concat (rs :: parts'))) as Hall.
    { apply one_tenant; [|by eapply later_segments|done]. eapply same_tenant; [exact Hu|exact (read_tenant _ _ _ _ Hread)|done]. }
    split; [done|]. destruct (Hc u) as (tip & n & C). pose proof (of_key_tenant kind u u _ Hall) as E. rewrite decide_True in E by done.
    cbn [concat] in E. rewrite E in C. by exists tip, n.
Qed.

#[local] Existing Instance toy_hasher.
#[local] Existing Instance toy_host.
#[local] Existing Instance latin1_decoder.

(** The archive of one record, replayed. *)
Definition demo_verdict : ObjectArchiveChainVerification := ChainVerification true 1 1 (Some VerifyOk) None.

Lemma verified_archive_sound_witness :
  let t := trace bucket_answer (verify "p" Audit "a") demo_archive in
  ∃ ms parts u, listed Audit "p" "a" t ms ∧ Forall2 (read_in Audit t) ms parts ∧
    length ms = 1%nat ∧ length (concat parts) = 1%nat ∧
    Forall (λ r, envelope Audit r u) (concat parts) ∧ ∃ tip n, chain (concat parts) tip n.
Proof.
  intros t. apply (verified_archive_sound "p" Audit "a" t demo_verdict); [|reflexivity].
  assert (result bucket_answer (verify "p" Audit "a") demo_archive = inl demo_verdict) as <- by (by vm_compute).
  apply interp_completes.
Defined.
