(* ===== verification/CoordinatorSafety.v ===== *)
(** * Order of a retention epoch

    The theorems hold for every host: whatever the audit store, the provider of
    the archive, the fences, the callbacks and the clock answer or throw, and
    wherever a run is cut off, the calls a run makes are in a safe order. *)

From S2P Require Import Prelude Regex JsNum JsVal Dates JsonText Hash Canonical AuditChain Redact Event Retention.
From S2P Require Import Store HostCalls StagingArchive Coordinator.

#[local] Open Scope Z_scope.

(** ** What has happened *)

(** Calls that do not enter or leave a fence. *)
Definition quiet (e : event) : Prop :=
  match call_of e with EnterFence _ | LeaveFence _ | EnterLease | LeaveLease => False | _ => True end.

(** The fence held after [t]. *)
Definition fence_step (held : option val) (e : event) : option val :=
  match e with
  | Event (EnterFence v) (inl _) => Some v
  | Event (LeaveFence _) _ => None
  | _ => held
  end.
Definition fence_of (t : list event) : option val := fold_left fence_step t None.

(** [t] begins with a granted lease. *)
Definition leased (t : list event) : Prop := ∃ s, t = Event EnterLease (inl tt) :: s.

Lemma fence_of_quiet t s : Forall quiet s → fence_of (t ++ s) = fence_of t.
Proof.
  unfold fence_of. rewrite fold_left_app. generalize (fold_left fence_step t None). intros h Hs. revert h.
  induction Hs as [|e s He _ IH]; intros h; [done|]. cbn [fold_left]. rewrite IH. by destruct e as [[] []].
Qed.

Lemma fence_of_snoc t e : fence_of (t ++ [e]) = fence_step (fence_of t) e.
Proof. unfold fence_of. by rewrite fold_left_app. Qed.

Lemma leased_app t s : leased t → leased (t ++ s).
Proof. intros [s' ->]. by exists (s' ++ s). Qed.

(** ** The rules *)

Section Rules.
Context `{HS : Hasher} `{HO : Host} `{B64 : Base64} `{TD : TextDecoder}.
Context (options : RunRetentionEpochOptions) (prefix : string).

(** The prefix of the run's tenant and epoch. *)
Definition own_prefix : string :=
  epochKeyPrefix prefix (default "" (str_of (opt_tenantId options)))
    (default 0 (int_of (next_epoch (opt_previousCheckpoint options)))).

Definition own_key (key : string) : Prop := ∃ name, key = own_prefix +:+ "/" +:+ name.

(** The archive answered, for a segment of these records, with their canonical
    lines (or with other bytes of the same digest). *)
Definition read_back (t : list event) (batch : list val) : Prop :=
  ∃ key body bytes, encodeNdjson batch = Ret body ∧ Event (GetObject key) (inl (Some bytes)) ∈ t ∧
    sha256Bytes bytes = sha256Bytes body.

(** The records of the run are in the archive, and [checkpoint] covers them. *)
Definition staged (t : list event) (checkpoint : val) : Prop :=
  ∃ batches, concat batches = opt_records options ∧ Forall (read_back t) batches ∧
    vget_opt checkpoint "throughHash" = vget_opt (default VUndef (last (opt_records options))) "hash" ∧
    vget_opt checkpoint "recordCount" = VInt (Z.of_nat (length (opt_records options))).

(** The audit store listed [checkpoint] itself. *)
Definition already_stored (t : list event) (checkpoint : val) : Prop :=
  ∃ l, Event (ListCheckpoints (opt_tenantId options)) (inl l) ∈ t ∧ checkpoint ∈ l.

(** Under the current fence the store listed a checkpoint with this hash. *)
Definition listed_under_fence (t : list event) (hash : val) : Prop :=
  ∃ t1 l t2 stored, t = t1 ++ Event (ListCheckpoints (opt_tenantId options)) (inl l) :: t2 ∧ Forall quiet t2 ∧
    fence_of t1 = Some (opt_version options) ∧ stored ∈ l ∧ strict_eq (vget_opt stored "hash") hash = true.

(** Under the current fence the store prepared the disposal. *)
Definition prepared (t : list event) : Prop :=
  ∃ t1 hash attempt a t2,
    t = t1 ++ Event (PrepareDisposition (opt_tenantId options) hash attempt (opt_version options)) (inl a) :: t2 ∧
    Forall quiet t2 ∧ fence_of t1 = Some (opt_version options).

(** The last calls: the manifest is gone, nothing is listed, the clock, the receipt. *)
Definition confirmed_absent (t : list event) (receipt : val) : Prop :=
  ∃ t1 context disposedAt input,
    t = t1 ++ [Event (GetObject (manifest_key own_prefix)) (inl None); Event (ListObjects (own_prefix +:+ "/")) (inl []);
               Event (ResolveDisposedAt context) (inl disposedAt); Event (CreateDisposition input) (inl receipt)] ∧
    prepared t1 ∧ vget_opt receipt "disposedAt" = disposedAt.

Definition rule (t : list event) (c : call) : Prop :=
  match c with
  | GetObject key | PutObject key _ => own_key key
  | DeleteObject key => own_key key ∧ prepared t
  | ListObjects p => p = own_prefix +:+ "/"
  | CompactRange tenantId checkpoint _ fence =>
      tenantId = opt_tenantId options ∧ fence = opt_version options ∧ fence_of t = Some (opt_version options) ∧
      (already_stored t checkpoint ∨ staged t checkpoint)
  | PrepareDisposition tenantId hash _ fence =>
      tenantId = opt_tenantId options ∧ fence = opt_version options ∧ fence_of t = Some (opt_version options) ∧
      listed_under_fence t hash
  | ConfirmDisposition tenantId receipt _ fence =>
      tenantId = opt_tenantId options ∧ fence = opt_version options ∧ confirmed_absent t receipt
  | _ => True
  end.

Definition permitted (t : list event) (c : call) : Prop :=
  match c with EnterLease => t = [] | _ => leased t ∧ rule t c end.

(** [p] makes permitted calls without touching fences, and returns by [R]. *)
Definition spec {A} (t : list event) (p : prog A) (R : list event → A → Prop) : Prop :=
  wp permitted t p (λ t' r, ∃ s, t' = t ++ s ∧ Forall quiet s ∧ match r with inl a => R s a | inr _ => True end).

Lemma spec_bind {A B} t (p : prog A) (f : A → prog B) (R : list event → A → Prop) (R' : list event → B → Prop) :
  spec t p R → (∀ s a, Forall quiet s → R s a → spec (t ++ s) (f a) (λ s' b, R' (s ++ s') b)) → spec t (p ≫= f) R'.
Proof.
  intros Hp Hf. apply wp_bind. eapply wp_mono; [|exact Hp]. intros t' [a|e] (s & -> & Hs & HR).
  - eapply wp_mono; [|exact (Hf s a Hs HR)]. intros t'' r (s' & -> & Hs' & HR').
    exists (s ++ s'). rewrite app_assoc. split; [done|]. split; [by apply Forall_app|done].
  - by exists s.
Qed.

Lemma spec_mono {A} t (p : prog A) (R R' : list event → A → Prop) :
  spec t p R → (∀ s a, Forall quiet s → R s a → R' s a) → spec t p R'.
Proof.
  intros Hp HR. eapply wp_mono; [|exact Hp]. intros t' [a|e] (s & -> & Hs & Hr); exists s; auto.
Qed.

Lemma spec_ret {A} t (a : A) (R : list event → A → Prop) : R [] a → spec t (mret a) R.
Proof. intros HR. exists []. by rewrite app_nil_r. Qed.

Lemma spec_throw {A} t e (R : list event → A → Prop) : spec t (Done (inr e)) R.
Proof. exists []. by rewrite app_nil_r. Qed.

Lemma spec_run {A} t (m : exc A) (R : list event → A → Prop) : (∀ a, m = Ret a → R [] a) → spec t (run m) R.
Proof. intros HR. destruct m as [a|msg]; [by apply spec_ret, HR|apply spec_throw]. Qed.

Lemma spec_require t b msg (R : list event → unit → Prop) : (b = true → R [] tt) → spec t (require b msg) R.
Proof. intros HR. apply spec_run. intros [] Hb%guard_ret. by apply HR. Qed.

Lemma spec_ask t c (R : list event → reply c → Prop) :
  permitted t c → quiet (Event c (inr (OtherError ""))) → (∀ r, R [Event c (inl r)] r) → spec t (ask c) R.
Proof.
  intros Hc Hq HR. apply wp_ask; [exact Hc|]. intros r. exists [Event c r]. split; [done|]. split; [by constructor|].
  destruct r; [apply HR|done].
Qed.

(** The step of a loop or a sequence after a call. *)
Lemma spec_ask_bind {B} t c (f : reply c → prog B) (R : list event → B → Prop) :
  permitted t c → quiet (Event c (inr (OtherError ""))) →
  (∀ r, spec (t ++ [Event c (inl r)]) (f r) (λ s b, R (Event c (inl r) :: s) b)) → spec t (ask c ≫= f) R.
Proof.
  intros Hc Hq Hf. apply (spec_bind _ _ _ (λ s r, s = [Event c (inl r)])); [by apply spec_ask|].
  intros s r _ ->. apply Hf.
Qed.

Lemma spec_run_bind {A B} t (m : exc A) (f : A → prog B) (R : list event → B → Prop) :
  (∀ a, m = Ret a → spec t (f a) R) → spec t (run m ≫= f) R.
Proof.
  intros Hf. apply (spec_bind _ _ _ (λ s a, s = [] ∧ m = Ret a)); [by apply spec_run|].
  intros s a _ [-> E]. rewrite app_nil_r. by apply Hf.
Qed.

Lemma spec_require_bind {B} t b msg (f : unit → prog B) (R : list event → B → Prop) :
  (b = true → spec t (f tt) R) → spec t (require b msg ≫= f) R.
Proof. intros Hf. apply spec_run_bind. intros [] Hb%guard_ret. by apply Hf. Qed.

Lemma spec_try {A} t (p : prog A) handler (R : list event → A → Prop) :
  spec t p R → (∀ s e, Forall quiet s → spec (t ++ s) (handler e) (λ s' a, R (s ++ s') a)) → spec t (try_catch handler p) R.
Proof.
  intros Hp Hh. apply wp_try. eapply wp_mono; [|exact Hp]. intros t' [a|e] (s & -> & Hs & HR); [by exists s|].
  eapply wp_mono; [|exact (Hh s e Hs)]. intros t'' r (s' & -> & Hs' & HR'). exists (s ++ s'). rewrite app_assoc.
  split; [done|]. split; [by apply Forall_app|done].
Qed.

Lemma prepared_app t s : Forall quiet s → prepared t → prepared (t ++ s).
Proof.
  intros Hs (t1 & h & a & r & t2 & -> & H2 & Hf). exists t1, h, a, r, (t2 ++ s). rewrite <- app_assoc. split; [done|].
  split; [by apply Forall_app|done].
Qed.

(** ** The operations of the archive *)

Lemma check_segments_keys epochPrefix segments : ∀ sequence hash count r,
  check_segments epochPrefix sequence hash count segments = Ret r →
  Forall (λ s, ∃ name, string_at s "objectKey" = epochPrefix +:+ "/" +:+ name) segments.
Proof.
  induction segments as [|s segments IH]; intros sequence hash count r E; cbn [check_segments] in E; [constructor|]. cbv zeta in E.
  do 9 (apply bind_ret in E as (? & ?E & E)). constructor; [|by eapply IH].
  match goal with E : guard_exc (strict_eq (vget_opt s "objectKey") _) _ = Ret ?u |- _ => destruct u; apply guard_ret, strict_eq_true in E;
    unfold string_at; rewrite E end.
  cbn [str_of default from_option id]. unfold segment_key. by eexists.
Qed.

Lemma validated_manifest m u : validateManifest prefix m = Ret u →
  vget_opt m "manifestKey" = VStr (manifest_key (manifest_prefix prefix m)) ∧
  Forall (λ s, ∃ name, string_at s "objectKey" = manifest_prefix prefix m +:+ "/" +:+ name) (segments_of m).
Proof.
  unfold validateManifest. intros E. cbv zeta in E. repeat (let x := fresh "x" in let E1 := fresh "E" in apply bind_ret in E as (x & E1 & E)).
  match goal with E : assertSafeInteger (vget_opt m "epoch") _ = Ret ?z |- _ =>
    apply assertSafeInteger_ret in E as [Ez _]; assert (int_at m "epoch" = z) as Hz by (unfold int_at; by rewrite Ez) end.
  unfold manifest_prefix. rewrite Hz. split.
  - match goal with E : guard_exc (strict_eq (vget_opt m "manifestKey") _) _ = Ret ?u |- _ => destruct u; by apply guard_ret, strict_eq_true in E end.
  - match goal with x : Z * val * Z |- _ => destruct x as [[? ?] ?] end.
    match goal with E : check_segments _ _ _ _ _ = Ret _ |- _ => by apply check_segments_keys in E end.
Qed.

Lemma own_manifest_keys m u :
  validateManifest prefix m = Ret u → manifest_prefix prefix m = own_prefix → Forall own_key (manifest_keys m).
Proof.
  intros E Hp. apply validated_manifest in E as [Hm Hs]. rewrite Hp in Hm, Hs. unfold manifest_keys. apply Forall_app. split.
  - apply Forall_fmap. eapply Forall_impl; [exact Hs|]. intros s [name Hn]. by exists name.
  - constructor; [|constructor]. unfold string_at. rewrite Hm. by exists "manifest.json".
Qed.

Lemma spec_putExact t key body : leased t → own_key key → spec t (putExact key body) (λ _ _, True).
Proof.
  intros Hl Hk. unfold putExact. apply spec_ask_bind; [by split|done|]. intros [bytes|].
  - by apply spec_require.
  - apply spec_ask; [split; [by apply leased_app|done]|done|done].
Qed.

Lemma spec_seal_segments segments : ∀ t records,
  leased t → Forall (λ s, own_key (string_at s "objectKey")) segments → spec t (seal_segments segments records) (λ _ _, True).
Proof.
  induction segments as [|s segments IH]; intros t records Hl Hk; cbn [seal_segments]; [by apply spec_ret|].
  apply Forall_cons in Hk as [Hs Hk]. apply spec_run_bind. intros body _.
  eapply spec_bind; [by apply spec_putExact|]. intros s' [] _ _. apply IH; [by apply leased_app|done].
Qed.

Lemma spec_sealEpoch t input m :
  leased t → deriveEpoch prefix input = Ret m → manifest_prefix prefix m = own_prefix →
  validateManifest prefix m = Ret tt → spec t (sealEpoch prefix input) (λ _ _, True).
Proof.
  intros Hl Em Hp Hv. pose proof (own_manifest_keys _ _ Hv Hp) as Hk. unfold manifest_keys in Hk. apply Forall_app in Hk as [Hk Hm].
  rewrite Forall_fmap in Hk. apply Forall_cons in Hm as [Hm _]. unfold sealEpoch. rewrite Em. cbn [run].
  change (spec t (_ ← seal_segments (segments_of m) (seal_records input); text ← run (canonical_text m);
                  _ ← putExact (string_at m "manifestKey") (utf8 text); mret m) (λ _ _, True)).
  eapply spec_bind; [exact (spec_seal_segments _ _ _ Hl Hk)|]. intros s [] _ _. apply spec_run_bind. intros text _.
  eapply spec_bind; [apply spec_putExact; [by apply leased_app|done]|]. intros s' [] _ _. by apply spec_ret.
Qed.

(** The answers that a successful verification rests on. *)
Definition segment_read (s : list event) (segment : val) : Prop :=
  ∃ bytes, Event (GetObject (string_at segment "objectKey")) (inl (Some bytes)) ∈ s ∧
    vget_opt segment "contentSha256" = VStr (sha256Bytes bytes).

Lemma segment_read_subset s s' segment : s ⊆ s' → segment_read s segment → segment_read s' segment.
Proof. intros Hs (bytes & Hin & E). exists bytes. split; [by apply Hs|done]. Qed.

Lemma spec_verify_segments tenantId segments : ∀ t sequence hash count,
  leased t → Forall (λ s, own_key (string_at s "objectKey")) segments →
  spec t (verify_segments tenantId sequence hash count segments) (λ s _, Forall (segment_read s) segments).
Proof.
  induction segments as [|seg segments IH]; intros t sequence hash count Hl Hk; cbn [verify_segments]; [apply spec_ret; constructor|].
  apply Forall_cons in Hk as [Hs Hk]. apply spec_ask_bind; [by split|done|]. intros [body|]; [|apply spec_throw].
  apply spec_require_bind. intros Hd%strict_eq_true. apply spec_run_bind. intros records _. apply spec_run_bind. intros _ _.
  apply spec_run_bind. intros [[sq h] c] _. eapply spec_mono; [apply IH; [by apply leased_app|done]|].
  intros s a _ Hf. constructor.
  - exists body. split; [by left|done].
  - eapply Forall_impl; [exact Hf|]. intros sg. apply segment_read_subset. intros x Hx. by right.
Qed.

Lemma spec_verifyEpoch t m :
  leased t → manifest_prefix prefix m = own_prefix → validateManifest prefix m = Ret tt →
  spec t (verifyEpoch prefix m) (λ s v, match v with StagingOk _ _ _ => Forall (segment_read s) (segments_of m) | _ => True end).
Proof.
  intros Hl Hp Hv. pose proof (own_manifest_keys _ _ Hv Hp) as Hk. unfold manifest_keys in Hk. apply Forall_app in Hk as [Hk Hm].
  rewrite Forall_fmap in Hk. apply Forall_cons in Hm as [Hm _]. unfold verifyEpoch. apply spec_try.
  2: { intros s [msg|msg] _; [by apply spec_ret|apply spec_throw]. }
  unfold verify_staged. cbv zeta. apply spec_run_bind. intros _ _. apply spec_ask_bind; [split; [done|cbn; by rewrite Hp]|done|]. intros listed.
  apply spec_run_bind. intros same _. apply spec_require_bind. intros _.
  apply spec_ask_bind; [split; [by apply leased_app|done]|done|]. intros bytes. apply spec_run_bind. intros text _.
  destruct bytes as [bytes|]; [|apply spec_throw]. apply spec_require_bind. intros _. apply spec_run_bind. intros parsed _.
  apply spec_run_bind. intros same' _. apply spec_require_bind. intros _.
  eapply spec_bind; [apply spec_verify_segments; [by repeat apply leased_app|done]|]. intros s [[sq h] c] _ Hr.
  apply spec_require_bind. intros _. apply spec_ret. eapply Forall_impl; [exact Hr|]. intros sg. apply segment_read_subset.
  intros x Hx. right. right. by rewrite app_nil_r.
Qed.

Lemma spec_delete_all keys : ∀ t,
  leased t → prepared t → Forall own_key keys → spec t (delete_all keys) (λ _ _, True).
Proof.
  induction keys as [|k keys IH]; intros t Hl Hp Hk; cbn [delete_all]; [by apply spec_ret|].
  apply Forall_cons in Hk as [Hk Hks]. apply spec_ask_bind; [by repeat split|done|]. intros [].
  apply IH; [by apply leased_app|apply prepared_app; [by constructor|done]|done].
Qed.

Lemma spec_all_absent keys : ∀ t,
  leased t → Forall own_key keys →
  spec t (all_absent keys) (λ s b, b = true → s = (λ k, Event (GetObject k) (inl None)) <$> keys).
Proof.
  induction keys as [|k keys IH]; intros t Hl Hk; cbn [all_absent]; [by apply spec_ret|].
  apply Forall_cons in Hk as [Hk Hks]. apply spec_ask_bind; [by split|done|]. intros found.
  eapply spec_bind; [apply IH; [by apply leased_app|done]|]. intros s b _ Hb. apply spec_ret.
  destruct found as [bytes|]; [done|]. intros ->. rewrite app_nil_r. by rewrite (Hb eq_refl).
Qed.

(** What a confirmed absence rests on: two empty answers, the last calls made. *)
Definition seen_absent (s : list event) : Prop :=
  ∃ s0, s = s0 ++ [Event (GetObject (manifest_key own_prefix)) (inl None); Event (ListObjects (own_prefix +:+ "/")) (inl [])].

Lemma no_length {A} (l : list A) : (length l =? 0)%nat = true → l = [].
Proof. by destruct l. Qed.

Lemma spec_confirmEpochAbsent t m :
  leased t → manifest_prefix prefix m = own_prefix → validateManifest prefix m = Ret tt →
  spec t (confirmEpochAbsent prefix m) (λ s b, b = true → seen_absent s).
Proof.
  intros Hl Hp Hv. unfold confirmEpochAbsent. apply spec_run_bind. intros _ _.
  eapply spec_bind; [apply spec_all_absent; [done|by eapply own_manifest_keys]|]. intros s b _ Hb.
  apply spec_ask_bind; [split; [by apply leased_app|cbn; by rewrite Hp]|done|]. intros listed. apply spec_ret.
  intros [-> ->%no_length]%andb_true_iff. rewrite (Hb eq_refl). unfold manifest_keys. rewrite fmap_app.
  apply validated_manifest in Hv as [Hm _]. rewrite Hp in Hm. rewrite Hp. unfold string_at at 2. rewrite Hm.
  exists ((λ k, Event (GetObject k) (inl None)) <$> ((λ s0, string_at s0 "objectKey") <$> segments_of m)).
  by rewrite <- app_assoc.
Qed.

Lemma spec_confirmCheckpointEpochAbsent t cp :
  leased t → checkpoint_prefix prefix cp = own_prefix →
  spec t (confirmCheckpointEpochAbsent prefix cp) (λ s b, b = true → seen_absent s).
Proof.
  intros Hl Hp. unfold confirmCheckpointEpochAbsent. apply spec_run_bind. intros _ _. rewrite Hp.
  apply spec_ask_bind; [split; [done|by exists "manifest.json"]|done|]. intros bytes.
  apply spec_ask_bind; [split; [by apply leased_app|done]|done|]. intros listed. apply spec_ret.
  destruct bytes as [bytes|]; [done|]. intros ->%no_length. by exists [].
Qed.

Definition own_manifest (m : val) : Prop := validateManifest prefix m = Ret tt ∧ manifest_prefix prefix m = own_prefix.

Lemma spec_recoverEpoch t cp :
  leased t → checkpoint_prefix prefix cp = own_prefix →
  spec t (recoverEpoch prefix cp) (λ _ om, ∀ m, om = Some m → own_manifest m).
Proof.
  intros Hl Hp. unfold recoverEpoch. apply spec_run_bind. intros _ _. rewrite Hp.
  apply spec_ask_bind; [split; [done|by exists "manifest.json"]|done|]. intros [bytes|]; [|by apply spec_ret].
  apply spec_run_bind. intros m Em. apply spec_run_bind. intros [] Eb%guard_ret. apply spec_ret. intros m' [= <-].
  unfold parseManifest in Em. destruct (json_parse _) as [parsed|]; [|discriminate].
  apply bind_ret in Em as (canonical & _ & Em). apply bind_ret in Em as ([] & _ & Em). apply bind_ret in Em as ([] & Ev & Em).
  injection Em as ->. split; [done|]. cbn [forallb] in Eb. repeat rewrite andb_true_iff in Eb.
  destruct Eb as (Et%strict_eq_true & Ee%strict_eq_true & _). rewrite <- Hp.
  unfold manifest_prefix, checkpoint_prefix, string_at, int_at. by rewrite Et, Ee.
Qed.

(** ** Derived epochs *)

Lemma concat_chunks size : (0 < size)%nat → ∀ fuel l, (length l <= fuel)%nat → concat (chunks fuel size l) = l.
Proof.
  intros Hs. induction fuel as [|fuel IH]; intros [|x l] Hl; cbn [chunks concat length] in *; [done|lia|done|].
  rewrite IH, take_drop; [done|]. rewrite length_drop. cbn [length]. lia.
Qed.

(** A segment names the digest of its records' lines. *)
Definition digest_of (batch : list val) (segment : val) : Prop :=
  ∃ body, encodeNdjson batch = Ret body ∧ vget_opt segment "contentSha256" = VStr (sha256Bytes body).

Lemma deriveEpoch_ret input m :
  deriveEpoch prefix input = Ret m →
  validateManifest prefix m = Ret tt ∧ vget_opt m "tenantId" = seal_tenantId input ∧ vget_opt m "epoch" = seal_epoch input ∧
  vget_opt m "throughHash" = vget_opt (default VUndef (last (seal_records input))) "hash" ∧
  vget_opt m "recordCount" = VInt (Z.of_nat (length (seal_records input))) ∧
  ∃ batches, concat batches = seal_records input ∧ Forall2 digest_of batches (segments_of m).
Proof.
  unfold deriveEpoch. intros (size & [_ Hz]%assertSafeInteger_ret & E)%bind_ret. apply bind_ret in E as ([ph ch] & _ & E).
  cbv zeta in E. apply bind_ret in E as (segments & Es & E). apply bind_ret in E as (root & _ & E).
  apply bind_ret in E as ([] & Ev & E). injection E as <-. split; [exact Ev|]. do 4 (split; [reflexivity|]).
  eexists. split; [apply (concat_chunks (Z.to_nat size)); [lia|reflexivity]|].
  apply mapE_Forall2 in Es. eapply Forall2_impl; [exact Es|]. intros batch segment E.
  unfold derive_segment in E. apply bind_ret in E as (body & Eb & E). injection E as <-. by exists body.
Qed.

Lemma derived_read_back s batches segments :
  Forall2 digest_of batches segments → Forall (segment_read s) segments → Forall (read_back s) batches.
Proof.
  induction 1 as [|batch segment batches segments (body & Eb & Ed) _ IH]; intros Hs; [constructor|].
  apply Forall_cons in Hs as [(bytes & Hin & Er) Hs]. constructor; [|by apply IH].
  exists (string_at segment "objectKey"), body, bytes. split; [done|]. split; [done|]. congruence.
Qed.

Lemma staged_subset t t' cp : t ⊆ t' → staged t cp → staged t' cp.
Proof.
  intros Ht (batches & Hc & Hf & H1 & H2). exists batches. split; [done|]. split; [|done]. eapply Forall_impl; [exact Hf|].
  intros batch (key & body & bytes & Eb & Hin & Ed). exists key, body, bytes. split; [done|]. split; [by apply Ht|done].
Qed.

Lemma already_stored_subset t t' cp : t ⊆ t' → already_stored t cp → already_stored t' cp.
Proof. intros Ht (l & Hin & Hc). exists l. split; [by apply Ht|done]. Qed.

(** Both sources of a checkpoint, later. *)
Lemma sourced_app t s cp : already_stored t cp ∨ staged t cp → already_stored (t ++ s) cp ∨ staged (t ++ s) cp.
Proof.
  assert (t ⊆ t ++ s) as Ht by (intros e He; apply elem_of_app; by left).
  intros [Hs|Hs]; [left; by eapply already_stored_subset|right; by eapply staged_subset].
Qed.

(** ** The stages of the coordinator *)

Hypothesis own_archive : archive options = staging_archive prefix.

Definition own_checkpoint (cp : val) : Prop := checkpoint_prefix prefix cp = own_prefix.

Lemma own_by_fields v :
  vget_opt v "tenantId" = opt_tenantId options → vget_opt v "epoch" = next_epoch (opt_previousCheckpoint options) →
  epochKeyPrefix prefix (string_at v "tenantId") (int_at v "epoch") = own_prefix.
Proof. intros Et Ee. unfold string_at, int_at, own_prefix. by rewrite Et, Ee. Qed.

Lemma fields_agree_get keys k a b : same_fields keys a b = true → k ∈ keys → vget_opt a k = vget_opt b k.
Proof. unfold same_fields. rewrite forallb_forall. intros Hs Hk%list_elem_of_In. by apply strict_eq_true, Hs. Qed.

Lemma spec_make_checkpoint t input :
  leased t → spec t (make_checkpoint options input) (λ _ cp, same_fields checkpoint_binding_keys cp input = true).
Proof.
  intros Hl. unfold make_checkpoint. apply spec_ask_bind; [by split|done|]. intros cp.
  apply spec_run_bind. intros [] Hb%guard_ret. apply spec_run_bind. intros _ _. by apply spec_ret.
Qed.

(** What both first stages leave. *)
Definition known (cp : val) (manifest : option val) : Prop :=
  own_checkpoint cp ∧ ∀ m, manifest = Some m → own_manifest m.

Lemma spec_recover_stage t stored :
  leased t → spec t (recover_stage options (next_epoch (opt_previousCheckpoint options)) stored)
    (λ _ r, r.2 = stored ∧ known stored r.1).
Proof using own_archive.
  intros Hl. unfold recover_stage. apply spec_run_bind. intros _ _. apply spec_run_bind. intros u Ea.
  eapply spec_bind; [by apply spec_make_checkpoint|]. intros s replayed _ _. apply spec_run_bind. intros same _.
  apply spec_require_bind. intros _. rewrite own_archive.
  assert (own_checkpoint stored) as Hc.
  { unfold assertStoredCheckpointAnchor in Ea. cbv zeta in Ea. apply bind_ret in Ea as ([] & Eb%guard_ret & _).
    repeat rewrite andb_true_iff in Eb. destruct Eb as ((Et%strict_eq_true & _) & Ee%strict_eq_true). by apply own_by_fields. }
  eapply spec_bind; [apply spec_recoverEpoch; [by apply leased_app|exact Hc]|]. intros s' om _ Hm. by apply spec_ret.
Qed.

Lemma spec_derive_stage t :
  leased t → spec t (derive_stage options (next_epoch (opt_previousCheckpoint options)))
    (λ _ r, ∃ m, r.1 = Some m ∧ deriveEpoch prefix (seal_input options (next_epoch (opt_previousCheckpoint options))) = Ret m ∧
       vget_opt r.2 "throughHash" = vget_opt m "throughHash" ∧ vget_opt r.2 "recordCount" = vget_opt m "recordCount" ∧
       known r.2 r.1).
Proof using own_archive.
  intros Hl. unfold derive_stage. apply spec_require_bind. intros _. rewrite own_archive. apply spec_run_bind. intros m Em.
  eapply spec_bind; [by apply spec_make_checkpoint|]. intros s cp _ Hb. apply spec_ret. exists m. cbn [fst snd].
  pose proof (λ k, fields_agree_get _ k _ _ Hb) as Hg. split; [done|]. split; [exact Em|].
  assert (∀ k, k ∈ ["throughHash"; "recordCount"; "tenantId"; "epoch"] → k ∈ checkpoint_binding_keys) as Hk
    by (intros k; unfold checkpoint_binding_keys; set_solver).
  split; [exact (Hg "throughHash" (Hk "throughHash" ltac:(set_solver)))|]. split; [exact (Hg "recordCount" (Hk "recordCount" ltac:(set_solver)))|].
  apply deriveEpoch_ret in Em as (Hv & Et & Ee & _). split.
  - apply own_by_fields; [exact (Hg "tenantId" (Hk "tenantId" ltac:(set_solver)))|exact (Hg "epoch" (Hk "epoch" ltac:(set_solver)))].
  - intros m' [= <-]. split; [exact Hv|]. by apply own_by_fields.
Qed.

Lemma spec_seal_stage t m cp :
  leased t → deriveEpoch prefix (seal_input options (next_epoch (opt_previousCheckpoint options))) = Ret m →
  vget_opt cp "throughHash" = vget_opt m "throughHash" → vget_opt cp "recordCount" = vget_opt m "recordCount" →
  spec t (seal_stage options (next_epoch (opt_previousCheckpoint options)) m) (λ s _, staged s cp).
Proof using own_archive.
  intros Hl Em H1 H2. pose proof (deriveEpoch_ret _ _ Em) as (Hv & Et & Ee & Eh & Ec & batches & Hb & Hd).
  assert (manifest_prefix prefix m = own_prefix) as Hp by (by apply own_by_fields).
  unfold seal_stage. rewrite own_archive. eapply spec_bind; [by eapply spec_sealEpoch|]. intros s1 sealed _ _.
  apply spec_run_bind. intros same _. apply spec_require_bind. intros _.
  eapply spec_bind; [apply spec_verifyEpoch; [by apply leased_app|exact Hp|exact Hv]|]. intros s2 [root a b|msg] _ Hr; [|apply spec_throw].
  apply spec_require. intros _. exists batches. split; [exact Hb|]. split.
  - eapply derived_read_back; [exact Hd|]. eapply Forall_impl; [exact Hr|]. intros seg. apply segment_read_subset.
    intros x Hx. rewrite app_nil_r. apply elem_of_app. by right.
  - rewrite H1, H2, Eh, Ec. cbn [seal_input seal_records].
    by split.
Qed.

Lemma spec_crop_stage t cp :
  leased t → fence_of t = Some (opt_version options) → (already_stored t cp ∨ staged t cp) →
  spec t (crop_stage options cp) (λ _ _, True).
Proof.
  intros Hl Hf Hs. unfold crop_stage. apply spec_run_bind. intros _ _. apply spec_ask_bind; [by split|done|]. intros l.
  destruct (find _ l) as [stored|].
  - apply spec_run_bind. intros same _. by apply spec_require.
  - apply spec_require_bind. intros _. apply spec_ask; [|done|done]. split; [by apply leased_app|]. split; [done|]. split; [done|].
    split; [rewrite fence_of_quiet; [done|by constructor]|].
    by apply sourced_app.
Qed.

Lemma spec_createAndVerify t cp d :
  leased t → spec t (createAndVerifyDisposition options cp d)
    (λ s receipt, ∃ input, s = [Event (CreateDisposition input) (inl receipt)] ∧ vget_opt receipt "disposedAt" = d).
Proof.
  intros Hl. unfold createAndVerifyDisposition. cbv zeta. apply spec_ask_bind; [by split|done|]. intros receipt.
  apply spec_run_bind. intros [] [Hb _]%guard_ret%andb_true_iff. apply spec_run_bind. intros _ _. apply spec_ret.
  eexists. split; [reflexivity|].
  rewrite (fields_agree_get _ "disposedAt" _ _ Hb); [done|]. clear. unfold disposition_binding_keys. set_solver.
Qed.

Lemma spec_disposal t cp manifest attempt :
  leased t → prepared t → known cp manifest → spec t (disposal options cp manifest attempt) (λ _ _, True).
Proof using own_archive.
  intros Hl Hp [Hc Hm]. unfold disposal. apply spec_require_bind. intros _. rewrite own_archive.
  eapply (spec_bind _ _ _ (λ _ _, True)).
  { destruct manifest as [m|]; [|by apply spec_ret]. destruct (Hm m eq_refl) as [Hv Hx]. cbn [archive_delete staging_archive].
    unfold deleteEpoch. apply spec_run_bind. intros _ _. apply spec_delete_all; [done|done|by eapply own_manifest_keys]. }
  intros s1 [] Hs1 _. eapply (spec_bind _ _ _ (λ s b, b = true → seen_absent s)).
  { destruct manifest as [m|]; [destruct (Hm m eq_refl) as [Hv Hx]; apply spec_confirmEpochAbsent|apply spec_confirmCheckpointEpochAbsent];
      solve [by apply leased_app|done]. }
  intros s2 b Hs2 Hb. apply spec_require_bind. intros [s0 ->]%Hb. apply Forall_app in Hs2 as [Hs0 _].
  apply spec_ask_bind; [split; [by repeat apply leased_app|done]|done|]. intros d. apply spec_run_bind. intros _ _.
  eapply spec_bind; [apply spec_createAndVerify; by repeat apply leased_app|]. intros s3 receipt _ (input & -> & Hd).
  apply spec_ask_bind; [|done|intros r; by apply spec_ret]. split; [by repeat apply leased_app|]. split; [done|]. split; [done|].
  exists ((t ++ s1) ++ s0), (disposed_context options cp), d, input. rewrite <- !app_assoc. split; [done|]. split.
  - rewrite app_assoc. by repeat apply prepared_app.
  - exact Hd.
Qed.

Lemma spec_absent_stage t cp :
  leased t → own_checkpoint cp → spec t (absent_stage options cp) (λ _ _, True).
Proof using own_archive.
  intros Hl Hc. unfold absent_stage. rewrite own_archive.
  eapply (spec_bind _ _ _ _ (λ _ _, True)); [by apply spec_confirmCheckpointEpochAbsent|].
  intros s' b _ _. by apply spec_require.
Qed.

Lemma spec_dispose_stage t cp manifest :
  leased t → fence_of t = Some (opt_version options) → known cp manifest →
  spec t (dispose_stage options cp manifest) (λ _ _, True).
Proof using own_archive.
  intros Hl Hf Hk. unfold dispose_stage. apply spec_ask_bind; [by split|done|]. intros state.
  apply spec_require_bind. intros _. apply spec_ask_bind; [split; [by apply leased_app|done]|done|]. intros l.
  apply (spec_bind _ _ _ (λ s same, s = [] ∧ (same = true → ∃ stored, stored ∈ l ∧ strict_eq (vget_opt stored "hash") (vget_opt cp "hash") = true))).
  { destruct (find _ l) as [stored|] eqn:Ef; [|by apply spec_ret]. apply find_some in Ef as [Hin Eh]. apply spec_run.
    intros same _. split; [done|]. intros _. exists stored. split; [by apply list_elem_of_In|done]. }
  intros s same _ [-> Hst]. apply spec_require_bind. intros (stored & Hin & Eh)%Hst. rewrite app_nil_r.
  apply spec_ask_bind; [split; [by repeat apply leased_app|done]|done|]. intros dispositions.
  destruct (find _ dispositions) as [confirmed|].
  - apply spec_run_bind. intros _ _. eapply spec_bind; [|intros s' [] _ _; by apply spec_ret].
    apply spec_absent_stage; [by repeat apply leased_app|exact (proj1 Hk)].
  - assert (∀ e1 e2 e3, quiet e1 → quiet e2 → quiet e3 → fence_of (((t ++ [e1]) ++ [e2]) ++ [e3]) = Some (opt_version options)) as Hf'
      by (intros e1 e2 e3 Q1 Q2 Q3; rewrite !fence_of_quiet by (by constructor); exact Hf).
    apply spec_ask_bind; [|done|].
    + split; [by repeat apply leased_app|]. split; [done|]. split; [done|]. split; [by apply Hf'|].
      eexists (t ++ [_]), l, [_], stored. rewrite <- (app_assoc (t ++ _)). split; [reflexivity|]. split; [by constructor|].
      split; [rewrite fence_of_quiet; [exact Hf|by constructor]|done].
    + intros attempt. apply spec_disposal; [by repeat apply leased_app| |exact Hk].
      eexists _, _, _, _, []. split; [reflexivity|]. split; [constructor|by apply Hf'].
Qed.

(** ** The whole run *)

Lemma wp_bracket (P : list event → call → Prop) {A} enter leave (p : prog A) t (Q : list event → outcome A → Prop) :
  P t enter → (∀ e, Q (t ++ [Event enter (inr e)]) (inr e)) →
  (∀ u, wp P (t ++ [Event enter (inl u)]) p (λ t' r, P t' leave ∧ ∀ r' o, Q (t' ++ [Event leave r']) o)) →
  wp P t (bracket enter leave p) Q.
Proof.
  intros He Hr Hp. split; [exact He|]. intros [u|e]; [|apply Hr]. apply wp_bind, wp_try.
  eapply wp_mono; [|exact (Hp u)]. intros t' [a|e] [Hl HQ].
  - split; [exact Hl|]. intros [u'|e']; apply HQ.
  - split; [exact Hl|]. intros r'. apply HQ.
Qed.

Lemma wp_of_spec {A} t (p : prog A) R Q :
  spec t p R → (∀ s r, Forall quiet s → match r with inl a => R s a | inr _ => True end → Q (t ++ s) r) → wp permitted t p Q.
Proof. intros Hp HQ. eapply wp_mono; [|exact Hp]. intros t' r (s & -> & Hs & HR). by apply HQ. Qed.

(** An operation under a fence. *)
Lemma wp_fenced {A} t (p : prog A) R (Q : list event → outcome A → Prop) :
  leased t → (∀ u, spec (t ++ [Event (EnterFence (opt_version options)) (inl u)]) p R) →
  (∀ s o, Q (t ++ s) o) → wp permitted t (withPolicyFence (opt_version options) p) Q.
Proof.
  intros Hl Hp HQ. apply wp_bracket; [by split|intros e; apply HQ|]. intros u. eapply wp_of_spec; [apply Hp|].
  intros s r _ _. split; [split; [by repeat apply leased_app|done]|]. intros r' o. rewrite <- !app_assoc. apply HQ.
Qed.

(** What the first stage leaves, whether the epoch is stored or new. *)
Definition first_stage_left (preflight : option val) (t : list event) (r : option val * val) : Prop :=
  known r.2 r.1 ∧
  match preflight with
  | Some _ => already_stored t r.2
  | None => ∃ m, r.1 = Some m ∧ deriveEpoch prefix (seal_input options (next_epoch (opt_previousCheckpoint options))) = Ret m ∧
              vget_opt r.2 "throughHash" = vget_opt m "throughHash" ∧ vget_opt r.2 "recordCount" = vget_opt m "recordCount"
  end.

Lemma spec_first_stage t preflight :
  leased t → (∀ stored, preflight = Some stored → already_stored t stored) →
  spec t (match preflight with
          | Some stored => recover_stage options (next_epoch (opt_previousCheckpoint options)) stored
          | None => derive_stage options (next_epoch (opt_previousCheckpoint options))
          end) (λ _ r, first_stage_left preflight t r).
Proof using own_archive.
  intros Hl Hst. destruct preflight as [stored|].
  - eapply spec_mono; [by apply spec_recover_stage|]. intros s [om cp] _ [E Hk]. cbn [fst snd] in *. subst cp.
    split; [exact Hk|]. by apply Hst.
  - eapply spec_mono; [by apply spec_derive_stage|]. intros s r _ (m & E1 & E2 & E3 & E4 & Hk). split; [exact Hk|].
    by exists m.
Qed.

(** The stage between the first one and the fences. *)
Lemma spec_middle_stage t t0 preflight om cp :
  leased t → first_stage_left preflight t0 (om, cp) →
  spec t (match preflight, om with
          | None, Some m => seal_stage options (next_epoch (opt_previousCheckpoint options)) m
          | None, None => Done (inr (TypeError "retention epoch derivation is unavailable"))
          | Some _, _ => mret tt
          end) (λ s _, already_stored t0 cp ∨ staged s cp).
Proof using own_archive.
  intros Hl [_ H1]. cbn [fst snd] in H1. destruct preflight as [stored|]; [apply spec_ret; by left|]. destruct H1 as (m & -> & E1 & E2 & E3).
  eapply spec_mono; [by apply (spec_seal_stage _ m cp)|]. intros s u _ Hs. by right.
Qed.

Lemma run_under_lease_permitted t (Q : list event → outcome RunRetentionEpochResult → Prop) :
  leased t → (∀ s o, leased s → Q s o) → wp permitted t (runRetentionEpochUnderLease options) Q.
Proof using own_archive.
  intros Hl HQ. unfold runRetentionEpochUnderLease. cbv zeta.
  assert (∀ t s o, leased t → Q (t ++ s) o) as HQt by (intros t' s o Ht; apply HQ; by apply leased_app).
  apply wp_bind. eapply wp_of_spec; [apply (spec_run _ _ (λ s _, s = [])); done|].
  intros s [u|e] _ E; [subst s; rewrite app_nil_r|by apply HQt].
  apply wp_bind, wp_ask; [by split|]. intros [l|e]; [|by apply HQt].
  apply wp_bind, wp_ask; [split; [by apply leased_app|done]|]. intros [ds|e]; [|apply HQt; by apply leased_app].
  set (t1 := (t ++ [_]) ++ [_]). assert (leased t1) as Hl1 by by repeat apply leased_app.
  set (preflight := find _ l).
  assert (∀ stored, preflight = Some stored → already_stored t1 stored) as Hst.
  { intros stored Ef%find_some. exists l. split; [|by apply list_elem_of_In, (proj1 Ef)].
    unfold t1. rewrite !elem_of_app. left. right. by left. }
  clearbody t1 preflight. apply wp_bind. eapply wp_of_spec; [by apply spec_first_stage|].
  intros s [[om cp]|e] _ Hf; [|by apply HQt]. destruct (find _ ds) as [confirmed|].
  - eapply wp_of_spec; [|intros s' r _ _; apply HQt; by apply leased_app].
    apply spec_require_bind. intros _. apply spec_run_bind. intros _ _.
    eapply (spec_bind _ _ _ _ (λ _ _, True)); [|intros s' [] _ _; by apply spec_ret].
    apply spec_absent_stage; [by apply leased_app|exact (proj1 (proj1 Hf))].
  - apply wp_bind. eapply wp_of_spec; [apply spec_middle_stage; [by apply leased_app|exact Hf]|].
    intros s2 [[]|e] _ Hs; [|apply HQt; by apply leased_app]. assert (leased ((t1 ++ s) ++ s2)) as Hl2 by by repeat apply leased_app.
    assert (already_stored ((t1 ++ s) ++ s2) cp ∨ staged ((t1 ++ s) ++ s2) cp) as Hs2.
    { destruct Hs as [Hs|Hs]; [apply sourced_app, sourced_app; by left|right].
      eapply staged_subset; [|exact Hs]. intros x Hx. apply elem_of_app. by right. }
    apply wp_bind. eapply (wp_fenced _ _ (λ _ _, True)); [exact Hl2| |].
    { intros u0. apply spec_crop_stage; [by apply leased_app|by rewrite fence_of_snoc|].
      by apply sourced_app. }
    intros s3 [[]|e]; [|by apply HQt]. apply wp_bind. eapply (wp_fenced _ _ (λ _ _, True)); [by apply leased_app| |].
    { intros u0. apply spec_dispose_stage; [by repeat apply leased_app|by rewrite fence_of_snoc|exact (proj1 Hf)]. }
    intros s4 [d|e]; [|apply HQt; by apply leased_app]. cbn [wp]. apply HQ. by repeat apply leased_app.
Qed.

(** Every call of every run is permitted. *)
Lemma run_permitted : wp permitted [] (runRetentionEpoch options) (λ _ _, True).
Proof using own_archive.
  unfold runRetentionEpoch. destruct (has_withEpochLease options); [|done]. apply wp_bracket; [done|done|]. intros [].
  apply run_under_lease_permitted; [by exists []|]. intros s o Hs. by split; [split|].
Qed.

Lemma performed_permitted t c r t' : performs (runRetentionEpoch options) (t ++ Event c r :: t') → permitted t c.
Proof using own_archive. intros Hr. exact (wp_performs _ _ _ _ [] _ _ _ run_permitted Hr). Qed.
End Rules.
