(* ===== verification/EpochOrder.v ===== *)
(** * The order of a retention epoch: properties

    What holds of the calls of every run, with every host, and the run of one
    epoch on the conforming host. *)

From S2P Require Import Prelude Regex JsNum JsVal Dates JsonText Hash Canonical AuditChain Redact Event Retention.
From S2P Require Import Store HostCalls StagingArchive ObjectKeys Coordinator RetentionHost CoordinatorSafety Demo.

#[local] Open Scope Z_scope.

Lemma created_archive `{Hasher} `{Host} `{Base64} `{TextDecoder} pre a :
  createRetentionStagingArchive pre = Ret a → a = staging_archive (default DEFAULT_PREFIX pre).
Proof.
  unfold createRetentionStagingArchive. intros (p & Ep & E)%bind_ret. injection E as <-. unfold validatePrefix in Ep.
  destruct (_ && _) in Ep; [|discriminate]. by injection Ep as ->.
Qed.

(** ** Properties *)



(** A receipt is confirmed only after the archive was seen to be empty: the four
    calls before a confirmation are the read of the epoch's manifest, which found
    nothing, the listing of its prefix, which was empty, the reading of the
    clock and the signing of this receipt with this time; and they follow the
    preparation of the attempt under the same fence. *)
Theorem confirm_after_absence `{Hasher} `{Host} `{Base64} `{TextDecoder} options pre t tenantId receipt attemptId fence r t' :
  createRetentionStagingArchive pre = Ret (archive options) →
  performs (runRetentionEpoch options) (t ++ Event (ConfirmDisposition tenantId receipt attemptId fence) r :: t') →
  leased t ∧ tenantId = opt_tenantId options ∧ fence = opt_version options ∧
  ∃ t1 context disposedAt input,
    t = t1 ++ [Event (GetObject (manifest_key (own_prefix options (default DEFAULT_PREFIX pre)))) (inl None);
               Event (ListObjects (own_prefix options (default DEFAULT_PREFIX pre) +:+ "/")) (inl []);
               Event (ResolveDisposedAt context) (inl disposedAt); Event (CreateDisposition input) (inl receipt)] ∧
    prepared options t1 ∧ vget_opt receipt "disposedAt" = disposedAt.
Proof. intros Ea%created_archive Hr. exact (performed_permitted options _ Ea _ _ _ _ Hr). Qed.

(** A run touches no other epoch and no other tenant: every object it reads,
    writes or deletes has a key under the prefix of its own tenant and epoch, and
    such a key is under the prefix of no other tenant or epoch. *)
Theorem epoch_objects_only `{Hasher} `{Host} `{Base64} `{TextDecoder} options pre t c r t' key :
  createRetentionStagingArchive pre = Ret (archive options) →
  performs (runRetentionEpoch options) (t ++ Event c r :: t') →
  (c = GetObject key ∨ (∃ body, c = PutObject key body) ∨ c = DeleteObject key) →
  leased t ∧ own_key options (default DEFAULT_PREFIX pre) key ∧
  ∀ tenantId epoch name, key = epochKeyPrefix (default DEFAULT_PREFIX pre) tenantId epoch +:+ "/" +:+ name →
    tenantId = default "" (str_of (opt_tenantId options)) ∧
    epoch = default 0 (int_of (next_epoch (opt_previousCheckpoint options))).
Proof.
  intros Ea%created_archive Hr Hc.
  assert (leased t ∧ own_key options (default DEFAULT_PREFIX pre) key) as [Hl [name0 Hk]].
  { pose proof (performed_permitted options _ Ea _ _ _ _ Hr) as Hp.
    destruct Hc as [->|[[body ->]| ->]]; [exact Hp|exact Hp|]. destruct Hp as (Hl & Hk & _). by split. }
  split; [exact Hl|]. split; [by exists name0|]. intros tenantId epoch name E. rewrite Hk in E. symmetry in E.
  by apply epoch_keys_disjoint in E.
Qed.

(** ** One epoch *)

#[local] Existing Instances toy_hasher toy_dates toy_host latin1_decoder.
#[local] Instance demo_base64 : Base64 := {| base64_bytes := λ _, Ret [] |}.

Definition demo_event : val := VObj [("id", VStr "e1"); ("scope", VObj [("tenantId", VStr "t")])].
Definition demo_audit : store :=
  default empty_store (fst <$> exc_to_option (append 0 empty_store demo_event (AppendOptions VUndef VUndef))).
Definition demo_start : host := MkHost demo_audit ∅ "2026-06-12T00:00:00.000Z".

Definition demo_epoch : RunRetentionEpochOptions := EpochOptions
  (staging_archive DEFAULT_PREFIX) (VStr "t") (records demo_audit) VNull
  (chain_state_val (default genesis_state (tenantChainStates demo_audit !! "t"))) (VBool true) (VStr "policy-1") (VInt 0)
  (VStr "cp1") (VStr "2026-06-11T00:00:00.000Z") (VStr "a1") (VStr "d1") true VUndef no_options true.

Definition demo_calls : list event := Eval vm_compute in trace host_answer (runRetentionEpoch demo_epoch) demo_start.

Lemma demo_trace : trace host_answer (runRetentionEpoch demo_epoch) demo_start = demo_calls.
Proof. vm_compute. reflexivity. Qed.

Lemma demo_performs : performs (runRetentionEpoch demo_epoch) demo_calls.
Proof. rewrite <- demo_trace. apply interp_performs. Qed.

Example demo_order : (λ e, match call_of e with
    | EnterLease | LeaveLease => "lease" | EnterFence _ | LeaveFence _ => "fence" | GetObject _ => "get" | PutObject _ _ => "put"
    | ListObjects _ => "list" | DeleteObject _ => "delete" | ListCheckpoints _ => "checkpoints" | ListDispositions _ => "dispositions"
    | GetChainState _ => "state" | CompactRange _ _ _ _ => "compact" | PrepareDisposition _ _ _ _ => "prepare"
    | ConfirmDisposition _ _ _ _ => "confirm" | CreateCheckpoint _ => "checkpoint" | CreateDisposition _ => "receipt"
    | ResolveDisposedAt _ => "clock" end) <$> demo_calls =
  ["lease"; "checkpoints"; "dispositions"; "checkpoint"; "get"; "put"; "get"; "put"; "list"; "get"; "get";
   "fence"; "checkpoints"; "compact"; "fence"; "fence"; "state"; "checkpoints"; "dispositions"; "prepare"; "delete";
   "delete"; "get"; "get"; "list"; "clock"; "receipt"; "confirm"; "fence"; "lease"].
Proof. vm_compute. reflexivity. Qed.

(** ** Witnesses *)

Lemma demo_archive_created : createRetentionStagingArchive None = Ret (archive demo_epoch).
Proof.
  assert (validatePrefix (default DEFAULT_PREFIX None) = Ret DEFAULT_PREFIX) as E by (vm_compute; reflexivity).
  unfold createRetentionStagingArchive. by rewrite E.
Qed.



Lemma confirm_after_absence_witness : ∃ receipt r t',
  demo_calls = take 27 demo_calls ++ Event (ConfirmDisposition (VStr "t") receipt (VStr "a1") (VInt 0)) r :: t' ∧
  leased (take 27 demo_calls).
Proof.
  do 3 eexists. split; [vm_compute; reflexivity|].
  exact (proj1 (confirm_after_absence demo_epoch None (take 27 demo_calls) (VStr "t") _ (VStr "a1") (VInt 0) _ _
                  demo_archive_created demo_performs)).
Defined.

Lemma epoch_objects_only_witness : ∃ key body r t',
  demo_calls = take 5 demo_calls ++ Event (PutObject key body) r :: t' ∧ own_key demo_epoch DEFAULT_PREFIX key.
Proof.
  do 4 eexists. split; [vm_compute; reflexivity|].
  match goal with |- own_key _ _ ?k =>
    exact (proj1 (proj2 (epoch_objects_only demo_epoch None (take 5 demo_calls) (PutObject k _) _ _ k demo_archive_created demo_performs
                    (or_intror (or_introl (ex_intro _ _ eq_refl)))))) end.
Defined.
