(* ===== verification/GatewayConfig.v ===== *)
(** * Gateway configuration (gateway/src/config.ts)

    A configuration is parsed from JSON data and refused at its first bad field.
    Objects used as maps keep what JavaScript makes of them: a key [__proto__] sets
    the prototype, and names of the prototype are found by a lookup. *)

From S2P Require Import Prelude Regex JsNum JsVal Dates JsonText Hash Canonical.

#[local] Open Scope Z_scope.

(** ** Objects as maps *)

Record js_map (A : Type) := JsMap { own : list (string * A); proto : option A }.
Arguments JsMap {A} _ _.
Arguments own {A} _.
Arguments proto {A} _.

Definition empty_map {A} : js_map A := JsMap [] None.

(** [map[name] = a] for an object [a]. *)
Definition map_assign {A} (name : string) (a : A) (m : js_map A) : js_map A :=
  if String.eqb name "__proto__" then JsMap (own m) (Some a)
  else JsMap (filter (λ kv, kv.1 ≠ name) (own m) ++ [(name, a)]) (proto m).

(** [map[name]]: an entry, something that is no entry, or [undefined]. *)
Inductive looked_up (A : Type) := Entry (a : A) | Inherited | Missing.
Arguments Entry {A} _.
Arguments Inherited {A}.
Arguments Missing {A}.

(** [fields]: the properties an entry has itself, inherited when it is the prototype. *)
Definition map_lookup {A} (fields : list string) (name : string) (m : js_map A) : looked_up A :=
  match list_find (λ kv, kv.1 = name) (own m) with
  | Some (_, (_, a)) => Entry a
  | None =>
      match proto m with
      | Some a => if String.eqb name "__proto__" then Entry a
                  else if bool_decide (name ∈ fields ++ object_prototype_keys) then Inherited else Missing
      | None => if bool_decide (name ∈ object_prototype_keys) then Inherited else Missing
      end
  end.

(** ** The configuration *)

Inductive GatewayProvider := Anthropic | Openai.
#[global] Instance provider_eq_dec : EqDecision GatewayProvider.
Proof. solve_decision. Defined.
Inductive GatewayEndpoint := Messages | ChatCompletions.
#[global] Instance endpoint_eq_dec : EqDecision GatewayEndpoint.
Proof. solve_decision. Defined.

Definition provider_name (p : GatewayProvider) : string := match p with Anthropic => "anthropic" | Openai => "openai" end.
Definition endpoint_name (e : GatewayEndpoint) : string :=
  match e with Messages => "messages" | ChatCompletions => "chat-completions" end.

Record ProviderConfig := Provider { baseUrl : string; apiKey : string }.
Record PolicyConfig := Policy { providers : list GatewayProvider; models : list string; endpoints : list GatewayEndpoint }.
Record VirtualKeyConfig := VirtualKey {
  keyId : string; keyHash : string; policy : string;
  team : option string; app : option string; environment : option string; revoked : option bool;
}.
Record IngestConfig := Ingest {
  url : string; key : string; startupMode : string; maxBytes : Z; maxElapsedMs : Z; leaseMs : Z;
}.
Inductive failure_mode := Block | Degrade.

Record GatewayConfig := Config {
  tenantId : string;
  gatewayId : string;
  evidenceDir : string;
  evidenceFailureMode : failure_mode;
  captureContentHashes : bool;
  injectStreamUsage : bool;
  pricingCatalogPath : option string;
  ingest : option IngestConfig;
  config_providers : list (GatewayProvider * ProviderConfig);
  policies : js_map PolicyConfig;
  config_keys : list VirtualKeyConfig;
}.

Definition PROVIDERS : list GatewayProvider := [Anthropic; Openai].
Definition ENDPOINTS : list GatewayEndpoint := [Messages; ChatCompletions].

(** [PROVIDERS.includes(value)], with the provider it is. *)
Definition provider_of (value : val) : option GatewayProvider :=
  snd <$> list_find (λ p, strict_eq (VStr (provider_name p)) value = true) PROVIDERS.
Definition endpoint_of (value : val) : option GatewayEndpoint :=
  snd <$> list_find (λ e, strict_eq (VStr (endpoint_name e)) value = true) ENDPOINTS.

(** A text between double quotes. *)
Definition in_quotes (s : string) : string := quoted "'" +:+ s +:+ quoted "'".

Definition config_error {A} (field problem : string) : exc A :=
  Throw ("invalid gateway config at " +:+ in_quotes field +:+ ": " +:+ problem).

Definition requireObject (value : val) (field : string) : exc val :=
  match value with VObj _ | VDate _ => Ret value | _ => config_error field "expected an object" end.

Definition requireString (value : val) (field : string) : exc string :=
  match value with
  | VStr s => if String.eqb s "" then config_error field "expected a non-empty string" else Ret s
  | _ => config_error field "expected a non-empty string"
  end.

Definition optionalBoolean (value : val) (field : string) (fallback : bool) : exc bool :=
  match value with VUndef => Ret fallback | VBool b => Ret b | _ => config_error field "expected a boolean" end.

Definition optionalBoundedInteger (value : val) (field : string) (fallback maximum : Z) : exc Z :=
  let problem := "expected a positive integer no greater than " +:+ of_chars (digits maximum) in
  match value with
  | VUndef => Ret fallback
  | VNum n =>
      match num_int n with
      | Some z => if is_safe_integer n && (0 <? z) && (z <=? maximum) then Ret z else config_error field problem
      | None => config_error field problem
      end
  | _ => config_error field problem
  end.

Definition optional_string (value : val) (field : string) : exc (option string) :=
  match value with VUndef => Ret None | _ => s ← requireString value field; Ret (Some s) end.

Definition DEFAULT_CANARY : Z * Z * Z := (250000, 5000, 30000).
Definition MAX_CANARY : Z * Z * Z := (1048576, 15000, 60000).

Definition parse_ingest (value : val) : exc (option IngestConfig) :=
  if is_undef value then Ret None else
  entry ← requireObject value "ingest";
  let mode := nullish_or (vget_opt entry "startupMode") (VStr "held") in
  startupMode ← (if strict_eq mode (VStr "held") then Ret "held"
                 else if strict_eq mode (VStr "canary") then Ret "canary"
                 else config_error "ingest.startupMode" (quoted "expected 'held' or 'canary'"));
  canary ← (if is_undef (vget_opt entry "canary") then Ret (VObj [])
            else requireObject (vget_opt entry "canary") "ingest.canary");
  maxElapsedMs ← optionalBoundedInteger (vget_opt canary "maxElapsedMs") "ingest.canary.maxElapsedMs" DEFAULT_CANARY.1.2 MAX_CANARY.1.2;
  leaseMs ← optionalBoundedInteger (vget_opt canary "leaseMs") "ingest.canary.leaseMs" DEFAULT_CANARY.2 MAX_CANARY.2;
  if leaseMs <=? maxElapsedMs then config_error "ingest.canary.leaseMs" "must exceed ingest.canary.maxElapsedMs" else
  url ← requireString (vget_opt entry "url") "ingest.url";
  key ← requireString (vget_opt entry "key") "ingest.key";
  maxBytes ← optionalBoundedInteger (vget_opt canary "maxBytes") "ingest.canary.maxBytes" DEFAULT_CANARY.1.1 MAX_CANARY.1.1;
  Ret (Some (Ingest url key startupMode maxBytes maxElapsedMs leaseMs)).

(** [Object.entries(value)] *)
Definition entries (value : val) : list (string * val) := match value with VObj fs => fs | _ => [] end.

Definition parse_provider (entry : string * val) : exc (GatewayProvider * ProviderConfig) :=
  let field := "providers." +:+ entry.1 in
  match provider_of (VStr entry.1) with
  | None => config_error field "unknown provider"
  | Some name =>
      value ← requireObject entry.2 field;
      baseUrl ← requireString (vget_opt value "baseUrl") (field +:+ ".baseUrl");
      apiKey ← requireString (vget_opt value "apiKey") (field +:+ ".apiKey");
      Ret (name, Provider baseUrl apiKey)
  end.

Definition provider_config (configured : list (GatewayProvider * ProviderConfig)) (p : GatewayProvider)
    : option ProviderConfig := (λ kv, kv.2.2) <$> list_find (λ kv, kv.1 = p) configured.

Definition parse_policy_provider (configured : list (GatewayProvider * ProviderConfig)) (field : string) (value : val)
    : exc GatewayProvider :=
  match provider_of value with
  | None => config_error field "unknown provider"
  | Some p => match provider_config configured p with
              | None => config_error field ("provider " +:+ in_quotes (provider_name p) +:+ " is not configured")
              | Some _ => Ret p
              end
  end.

(** The elements of a non-empty array. *)
Definition non_empty_array (value : val) (field problem : string) : exc (list val) :=
  match value with VArr ((_ :: _) as l) => Ret l | _ => config_error field problem end.

Definition parse_policy (configured : list (GatewayProvider * ProviderConfig)) (name : string) (value : val)
    : exc PolicyConfig :=
  let field := "policies." +:+ name in
  entry ← requireObject value field;
  providerList ← non_empty_array (vget_opt entry "providers") (field +:+ ".providers") "expected a non-empty array";
  providers ← mapE (parse_policy_provider configured (field +:+ ".providers")) providerList;
  let problem := "expected a non-empty array of non-empty strings" in
  modelList ← non_empty_array (vget_opt entry "models") (field +:+ ".models") problem;
  models ← mapE (λ m, match m with
                       | VStr s => if String.eqb s "" then config_error (field +:+ ".models") problem else Ret s
                       | _ => config_error (field +:+ ".models") problem
                       end) modelList;
  let problem := "expected a non-empty array of known endpoints" in
  endpointList ← non_empty_array (vget_opt entry "endpoints") (field +:+ ".endpoints") problem;
  endpoints ← mapE (λ e, match endpoint_of e with Some e => Ret e | None => config_error (field +:+ ".endpoints") problem end)
                endpointList;
  Ret (Policy providers models endpoints).

Fixpoint parse_policies (configured : list (GatewayProvider * ProviderConfig)) (m : js_map PolicyConfig)
    (policies : list (string * val)) : exc (js_map PolicyConfig) :=
  match policies with
  | [] => Ret m
  | (name, value) :: policies =>
      p ← parse_policy configured name value; parse_policies configured (map_assign name p m) policies
  end.

Definition policy_fields : list string := ["providers"; "models"; "endpoints"].

Section Keys.
Context (policies : js_map PolicyConfig).

Fixpoint parse_keys (index : nat) (seen : list string) (values : list val) : exc (list VirtualKeyConfig) :=
  match values with
  | [] => Ret []
  | value :: values =>
      let field := "keys[" +:+ of_chars (digits (Z.of_nat index)) +:+ "]" in
      entry ← requireObject value field;
      keyId ← requireString (vget_opt entry "keyId") (field +:+ ".keyId");
      _ ← (if bool_decide (keyId ∈ seen) then config_error (field +:+ ".keyId") "duplicate keyId" else Ret tt);
      keyHash ← requireString (vget_opt entry "keyHash") (field +:+ ".keyHash");
      _ ← (if re_test HASH_PATTERN keyHash then Ret tt
           else config_error (field +:+ ".keyHash") "expected 64 lowercase hex characters (sha256)");
      policy ← requireString (vget_opt entry "policy") (field +:+ ".policy");
      _ ← (match map_lookup policy_fields policy policies with
           | Missing => config_error (field +:+ ".policy") ("references unknown policy " +:+ in_quotes policy)
           | _ => Ret tt
           end);
      team ← optional_string (vget_opt entry "team") (field +:+ ".team");
      app ← optional_string (vget_opt entry "app") (field +:+ ".app");
      environment ← optional_string (vget_opt entry "environment") (field +:+ ".environment");
      revoked ← (match vget_opt entry "revoked" with
                 | VUndef => Ret None
                 | VBool b => Ret (Some b)
                 | _ => config_error (field +:+ ".revoked") "expected a boolean"
                 end);
      rest ← parse_keys (S index) (keyId :: seen) values;
      Ret (VirtualKey keyId keyHash policy team app environment revoked :: rest)
  end.
End Keys.

Definition parseGatewayConfig (raw : val) : exc GatewayConfig :=
  root ← requireObject raw "$";
  let field := vget_opt root in
  tenantId ← requireString (field "tenantId") "tenantId";
  gatewayId ← requireString (field "gatewayId") "gatewayId";
  evidenceDir ← requireString (field "evidenceDir") "evidenceDir";
  let mode := nullish_or (field "evidenceFailureMode") (VStr "block") in
  failureMode ← (if strict_eq mode (VStr "block") then Ret Block
                 else if strict_eq mode (VStr "degrade") then Ret Degrade
                 else config_error "evidenceFailureMode" (quoted "expected 'block' or 'degrade'"));
  captureContentHashes ← optionalBoolean (field "captureContentHashes") "captureContentHashes" true;
  injectStreamUsage ← optionalBoolean (field "injectStreamUsage") "injectStreamUsage" true;
  pricingCatalogPath ← optional_string (field "pricingCatalogPath") "pricingCatalogPath";
  ingest ← parse_ingest (field "ingest");
  providersRaw ← requireObject (nullish_or (field "providers") (VObj [])) "providers";
  configured ← mapE parse_provider (entries providersRaw);
  policiesRaw ← requireObject (nullish_or (field "policies") (VObj [])) "policies";
  policies ← parse_policies configured empty_map (entries policiesRaw);
  keysRaw ← (match nullish_or (field "keys") (VArr []) with
             | VArr l => Ret l
             | _ => config_error "keys" "expected an array"
             end);
  keys ← parse_keys policies 0 [] keysRaw;
  Ret (Config tenantId gatewayId evidenceDir failureMode captureContentHashes injectStreamUsage pricingCatalogPath ingest
         configured policies keys).
