(* ===== verification/Gateway.v ===== *)
(** * Gateway policy, keys, pricing, usage and evidence
    (gateway/src/policy.ts, keys.ts, pricing.ts, usage.ts, evidence.ts)

    The pure parts of the gateway. Model names and keys are looked up in objects
    used as maps, with the lookups of [GatewayConfig]; token counts are the
    numbers of the provider's JSON, costs are binary64. *)

From S2P Require Import Prelude Regex JsNum JsVal Dates JsonText Hash Redact Event.
From S2P Require Import Binary64 Doubles RiskScore RiskPolicy.
From S2P Require Import Outbox GatewayConfig.

#[local] Open Scope Z_scope.

(** ** Keys *)

Definition Headers : Type := list (string * string).

(** [headers.get(name)], for a lower-case name. *)
Definition header_get (name : string) (headers : Headers) : option string :=
  snd ∘ snd <$> list_find (λ kv, kv.1 = name) headers.

(** [headers.set(name, value)] *)
Definition header_set (name value : string) (headers : Headers) : Headers :=
  filter (λ kv, kv.1 ≠ name) headers ++ [(name, value)].

(** [/^Bearer\s+(\S+)$/i] *)
Definition BEARER_PATTERN : re :=
  Seq (word_i "Bearer") (Seq (plus (Cls js_space)) (plus (Cls (λ c, negb (js_space c))))).

Definition extractPresentedKey (headers : Headers) : option string :=
  match header_get "x-api-key" headers with
  | Some (String _ _ as apiKey) => Some apiKey
  | _ =>
      authorization ← header_get "authorization" headers;
      let trimmed := trim (chars authorization) in
      if re_match BEARER_PATTERN trimmed then Some (of_chars (drop_space (drop 6 trimmed))) else None
  end.

Inductive VirtualKeyResolution := Resolved (key : VirtualKeyConfig) | UnknownKey | RevokedKey.

Section Keys.
Context `{Hasher}.

Definition hashPresentedKey (presented : string) : string := sha256Hex presented.

Definition resolveVirtualKey (presented : string) (keys : list VirtualKeyConfig) : VirtualKeyResolution :=
  match list_find (λ candidate, keyHash candidate = hashPresentedKey presented) keys with
  | None => UnknownKey
  | Some (_, key) => if bool_decide (revoked key = Some true) then RevokedKey else Resolved key
  end.
End Keys.

(** ** Policy *)

Record PolicyContext := Ctx {
  ctx_keyId : string; ctx_provider : GatewayProvider; ctx_model : option string; ctx_endpoint : option GatewayEndpoint;
}.

Inductive PolicyDenyReason :=
  MissingPolicy | ProviderNotAllowed | ModelNotAllowed | EndpointNotAllowed | UnparseableBody.

Definition reason_name (r : PolicyDenyReason) : string :=
  match r with
  | MissingPolicy => "missing_policy"
  | ProviderNotAllowed => "provider_not_allowed"
  | ModelNotAllowed => "model_not_allowed"
  | EndpointNotAllowed => "endpoint_not_allowed"
  | UnparseableBody => "unparseable_body"
  end.

Inductive PolicyDecision := Allow | Deny (reason : PolicyDenyReason).

Fixpoint prefix_of (l l' : list ascii) : bool :=
  match l, l' with
  | [], _ => true
  | c :: l, c' :: l' => Ascii.eqb c c' && prefix_of l l'
  | _ :: _, [] => false
  end.

Definition matchesModel (pattern model : string) : bool :=
  if String.eqb pattern "*" then true
  else match rev (chars pattern) with
       | "*"%char :: stem => prefix_of (rev stem) (chars model)
       | _ => String.eqb pattern model
       end.

(** What is found under a name of the prototype has no [endpoints]. *)
Definition decide (ctx : PolicyContext) (policy : looked_up PolicyConfig) : exc PolicyDecision :=
  match policy with
  | Missing => Ret (Deny MissingPolicy)
  | Inherited => match ctx_endpoint ctx with
                 | None => Ret (Deny EndpointNotAllowed)
                 | Some _ => Throw "cannot read properties of undefined (reading 'includes')"
                 end
  | Entry policy =>
      Ret (match ctx_endpoint ctx with
           | None => Deny EndpointNotAllowed
           | Some endpoint =>
               if negb (bool_decide (endpoint ∈ endpoints policy)) then Deny EndpointNotAllowed
               else if negb (bool_decide (ctx_provider ctx ∈ providers policy)) then Deny ProviderNotAllowed
               else match ctx_model ctx with
                    | None => Deny UnparseableBody
                    | Some model =>
                        if existsb (λ pattern, matchesModel pattern model) (models policy) then Allow
                        else Deny ModelNotAllowed
                    end
           end)
  end.

(** ** Usage *)

Record Usage := TokenUsage { inputTokens : num; outputTokens : num }.

Definition asCount (value : val) : option num :=
  match value with
  | VNum n => match num_int n with Some z => if 0 <=? z then Some n else None | None => None end
  | _ => None
  end.

Record PartialUsage := Partial { part_input : option num; part_output : option num }.

Definition usageFrom (record : val) (inputField outputField : string) : option PartialUsage :=
  match asCount (vget_opt record inputField), asCount (vget_opt record outputField) with
  | None, None => None
  | input, output => Some (Partial input output)
  end.

Definition extractJsonUsage (provider : GatewayProvider) (body : val) : option Usage :=
  let usage := vget_opt body "usage" in
  partial ← match provider with
            | Anthropic => usageFrom usage "input_tokens" "output_tokens"
            | Openai => usageFrom usage "prompt_tokens" "completion_tokens"
            end;
  Some (TokenUsage (default (num_of_Z 0) (part_input partial)) (default (num_of_Z 0) (part_output partial))).

(** The accumulator of a response stream. *)
Record accumulator := Acc { buffer : list ascii; acc_input : option num; acc_output : option num }.

Definition no_usage : accumulator := Acc [] None None.

Definition absorb_partial (partial : option PartialUsage) (a : accumulator) : accumulator :=
  match partial with
  | None => a
  | Some p => Acc (buffer a) (part_input p ∪ acc_input a) (part_output p ∪ acc_output a)
  end.

Definition absorb (provider : GatewayProvider) (frame : val) (a : accumulator) : accumulator :=
  match provider with
  | Anthropic =>
      if strict_eq (vget_opt frame "type") (VStr "message_start") then
        absorb_partial (usageFrom (vget_opt (vget_opt frame "message") "usage") "input_tokens" "output_tokens") a
      else if strict_eq (vget_opt frame "type") (VStr "message_delta") then
        absorb_partial (usageFrom (vget_opt frame "usage") "input_tokens" "output_tokens") a
      else a
  | Openai => absorb_partial (usageFrom (vget_opt frame "usage") "prompt_tokens" "completion_tokens") a
  end.

Definition consumeLine (provider : GatewayProvider) (a : accumulator) (line : list ascii) : accumulator :=
  match expect (chars "data:") (trim line) with
  | None => a
  | Some rest =>
      let payload := of_chars (trim rest) in
      if String.eqb payload "" || String.eqb payload "[DONE]" then a
      else match json_parse payload with Some frame => absorb provider frame a | None => a end
  end.

Definition newline_char : ascii := ascii_of_nat 10.

(** The text up to the first newline and the text after it. *)
Fixpoint cut_line (l : list ascii) : option (list ascii * list ascii) :=
  match l with
  | [] => None
  | c :: l => if Ascii.eqb c newline_char then Some ([], l) else '(line, rest) ← cut_line l; Some (c :: line, rest)
  end.

(** The loop of [feed]; every turn removes a newline from the buffer. *)
Fixpoint feed_loop (fuel : nat) (provider : GatewayProvider) (a : accumulator) : accumulator :=
  match fuel with
  | O => a
  | S fuel =>
      match cut_line (buffer a) with
      | None => a
      | Some (line, rest) =>
          let a := consumeLine provider a line in
          feed_loop fuel provider (Acc rest (acc_input a) (acc_output a))
      end
  end.

Definition feed (provider : GatewayProvider) (a : accumulator) (chunk : list ascii) : accumulator :=
  let a := Acc (buffer a ++ chunk) (acc_input a) (acc_output a) in feed_loop (S (length (buffer a))) provider a.

Definition usage_of (provider : GatewayProvider) (a : accumulator) : option Usage :=
  let a := match buffer a with [] => a | _ => consumeLine provider a (buffer a) end in
  match acc_input a, acc_output a with
  | None, None => None
  | input, output => Some (TokenUsage (default (num_of_Z 0) input) (default (num_of_Z 0) output))
  end.

(** ** Pricing *)

Record ModelPrice := Price { inputMicroUsdPerMTok : num; outputMicroUsdPerMTok : num }.
Record PricingCatalog := Catalog { version : string; catalog_models : js_map ModelPrice }.

Definition price_fields : list string := ["inputMicroUsdPerMTok"; "outputMicroUsdPerMTok"].

Definition catalog_error {A} (field problem : string) : exc A :=
  Throw ("invalid pricing catalog at " +:+ in_quotes field +:+ ": " +:+ problem).

Definition requirePriceInteger (value : val) (field : string) : exc num :=
  match asCount value with
  | Some n => Ret n
  | None => catalog_error field "expected a non-negative integer (micro-USD per 1M tokens)"
  end.

Fixpoint parse_prices (m : js_map ModelPrice) (entries : list (string * val)) : exc (js_map ModelPrice) :=
  match entries with
  | [] => Ret m
  | (model, value) :: entries =>
      let field := "models." +:+ model in
      _ ← (match value with VObj _ | VArr _ | VDate _ => Ret tt | _ => catalog_error field "expected an object" end);
      input ← requirePriceInteger (vget_opt value "inputMicroUsdPerMTok") (field +:+ ".inputMicroUsdPerMTok");
      output ← requirePriceInteger (vget_opt value "outputMicroUsdPerMTok") (field +:+ ".outputMicroUsdPerMTok");
      parse_prices (map_assign model (Price input output) m) entries
  end.

Definition parsePricingCatalog (raw : val) : exc PricingCatalog :=
  _ ← (if is_plain_object raw then Ret tt else catalog_error "$" "expected an object");
  version ← (match vget_opt raw "version" with
             | VStr (String _ _ as s) => Ret s
             | _ => catalog_error "version" "expected a non-empty string"
             end);
  let models := vget_opt raw "models" in
  _ ← (if is_plain_object models then Ret tt else catalog_error "models" "expected an object");
  models ← parse_prices empty_map (entries models);
  Ret (Catalog version models).

(** The double a decimal of JSON data denotes. *)
Definition direction_cost (tokens price : num) : b64 :=
  math_round (b64_of_num tokens * b64_of_num price / of_Z 1000000)%b64.

(** The prices of what is found under a name of the prototype are [undefined],
    and arithmetic on [undefined] gives NaN. *)
Definition computeCostMicroUsd (usage : Usage) (model : string) (catalog : PricingCatalog) : option b64 :=
  match map_lookup price_fields model (catalog_models catalog) with
  | Missing => None
  | Inherited => Some BNaN
  | Entry price =>
      Some (direction_cost (inputTokens usage) (inputMicroUsdPerMTok price)
            + direction_cost (outputTokens usage) (outputMicroUsdPerMTok price))%b64
  end.

(** ** Evidence *)

Inductive outcome_kind := Completed | Denied | Failed.
Inductive outcome_status := Status (code : Z) | Aborted.
Inductive outcome_decision := Allowed | Refused | Undecided.

Record RequestOutcome := Outcome {
  kind : outcome_kind;
  requestId : string;
  occurredAt : string;
  out_keyId : option string;
  out_provider : GatewayProvider;
  out_endpoint : option GatewayEndpoint;
  model : option string;
  stream : bool;
  out_status : outcome_status;
  latencyMs : Z;
  policyDecision : outcome_decision;
  denyReason : option string;
  usage : option Usage;
  costMicroUsd : option b64;
  requestBodyHash : option string;
  responseBodyHash : option string;
  mutatedRequest : bool;
}.

Definition kind_name (k : outcome_kind) : string :=
  match k with Completed => "completed" | Denied => "denied" | Failed => "failed" end.
Definition status_val (s : outcome_status) : val := match s with Status code => VInt code | Aborted => VStr "aborted" end.
Definition decision_name (d : outcome_decision) : string :=
  match d with Allowed => "allow" | Refused => "deny" | Undecided => "none" end.

Record GatewayEvidenceConfig := EvidenceConfig { cfg_tenantId : string; cfg_gatewayId : string }.

(** An event without the fields the gateway leaves out. *)
Definition event_input (action : string) (actor target scope requestId occurredAt metadata : val) : AuditEventInput := {|
  in_id := VUndef; in_occurredAt := occurredAt; in_actor := actor; in_action := VStr action; in_target := target;
  in_scope := scope; in_requestId := requestId; in_purpose := VUndef; in_lawfulBasis := VUndef; in_dataCategories := None;
  in_retention := VUndef; in_metadata := metadata |}.

Definition typed (type id : string) : val := VObj [("type", VStr type); ("id", VStr id)].

(** The metadata of an outcome; a field without a value is not there. *)
Definition outcome_metadata (outcome : RequestOutcome) (cfg : GatewayEvidenceConfig) : list (string * val) :=
  [("gatewayId", VStr (cfg_gatewayId cfg)); ("provider", VStr (provider_name (out_provider outcome)));
   ("stream", VBool (stream outcome)); ("status", status_val (out_status outcome));
   ("latencyMs", VInt (latencyMs outcome)); ("policyDecision", VStr (decision_name (policyDecision outcome)))]
  ++ opt_field "endpoint" ((λ e, VStr (endpoint_name e)) <$> out_endpoint outcome)
  ++ opt_field "model" (vstr_opt (model outcome))
  ++ opt_field "denyReason" (vstr_opt (denyReason outcome))
  ++ match usage outcome with
     | None => []
     | Some u => [("usage", VObj [("input", VNum (inputTokens u)); ("output", VNum (outputTokens u))]);
                  ("costBasis", VStr "provider_reported")]
     end
  ++ opt_field "costMicroUsd" (VNum ∘ num_of_b64 <$> costMicroUsd outcome)
  ++ opt_field "requestBodyHash" (vstr_opt (requestBodyHash outcome))
  ++ opt_field "responseBodyHash" (vstr_opt (responseBodyHash outcome))
  ++ opt_field "mutatedRequest" (if mutatedRequest outcome then Some (VStr "inject_stream_usage") else None).

Definition outcome_target (outcome : RequestOutcome) : val :=
  match model outcome with
  | Some model => typed "model" (provider_name (out_provider outcome) +:+ ":" +:+ model)
  | None => typed "provider" (provider_name (out_provider outcome))
  end.

Definition buildOutcomeEvent (outcome : RequestOutcome) (cfg : GatewayEvidenceConfig) : AuditEventInput :=
  event_input ("ai.request." +:+ kind_name (kind outcome)) (typed "service" (default "unknown" (out_keyId outcome)))
    (outcome_target outcome) (VObj [("tenantId", VStr (cfg_tenantId cfg))]) (VStr (requestId outcome))
    (VStr (occurredAt outcome)) (VObj (outcome_metadata outcome cfg)).

Definition buildGapMarkerEvent (cfg : GatewayEvidenceConfig) (droppedOutcomes : nat) : AuditEventInput :=
  event_input "ai.gateway.evidence.gap" (typed "system" (cfg_gatewayId cfg)) (typed "gateway" (cfg_gatewayId cfg))
    (VObj [("tenantId", VStr (cfg_tenantId cfg))]) VUndef VUndef
    (VObj [("gatewayId", VStr (cfg_gatewayId cfg)); ("droppedOutcomes", VInt (Z.of_nat droppedOutcomes))]).

(** ** Examples from the test suites *)

Example num_of_b64_ex : num_of_b64 <$> [of_Z 18000000; of_Z 0; dec 1 (-1); of_Z (2 ^ 60)]
  = [NFin 18 6; NFin 0 0; NFin 1 (-1); NFin 1152921504606847 3].
Proof. vm_compute. reflexivity. Qed.

Example cost_ex : num_of_b64 <$> computeCostMicroUsd (TokenUsage (num_of_Z 1234) (num_of_Z 567)) "m"
    (Catalog "v" (map_assign "m" (Price (num_of_Z 3000000) (num_of_Z 15000000)) empty_map)) = Some (num_of_Z 12207).
Proof. vm_compute. reflexivity. Qed.

Example bearer_ex : extractPresentedKey [("authorization", "  bearer   vk_1 ")] = Some "vk_1" ∧
  extractPresentedKey [("authorization", "Basic vk_1")] = None ∧ extractPresentedKey [("authorization", "Bearer a b")] = None.
Proof. repeat split; vm_compute; reflexivity. Qed.
