(* ===== verification/GatewayHealth.v ===== *)
(** * Gateway evidence health (gateway/src/health.ts, runMaintenance of server.ts)

    What happens when the local evidence sink fails. Outcomes wait in a bounded
    queue, the oldest is dropped and counted when it overflows, and a marker
    records how many were lost. The maintenance pass suspends while it awaits
    the sink; failures reported meanwhile change the queue under it, so the pass
    is a state machine whose states are its suspension points. *)

From S2P Require Import Prelude GatewayConfig Gateway.

(** ** The health state *)

Record health := Health { pending : list RequestOutcome; healthy : bool; dropped : nat }.

Definition initial_health : health := Health [] true 0.

Definition ok (mode : failure_mode) (h : health) : bool := match mode with Degrade => true | Block => healthy h end.

(** [while (pending.length > maxPending) { pending.shift(); dropped += 1; }] *)
Fixpoint shed (maxPending : nat) (queue : list RequestOutcome) (count : nat) : list RequestOutcome * nat :=
  match queue with
  | [] => ([], count)
  | _ :: rest => if (maxPending <? length queue)%nat then shed maxPending rest (S count) else (queue, count)
  end.

Definition reportEvidenceFailure (maxPending : nat) (outcome : RequestOutcome) (h : health) : health :=
  let '(queue, count) := shed maxPending (pending h ++ [outcome]) (dropped h) in Health queue false count.

Definition reportEvidenceSuccess (h : health) : health :=
  Health (pending h) (match pending h with [] => true | _ => healthy h end) (dropped h).

Definition pendingCount (h : health) : nat := length (pending h).
Definition droppedCount (h : health) : nat := dropped h.
Definition consumeDropped (count : nat) (h : health) : health :=
  Health (pending h) (healthy h) (dropped h - count).

(** ** The maintenance pass *)

(** Where the pass is suspended: not running, recording the outcome at the head
    of the queue, or recording a marker for so many outcomes. *)
Inductive phase := Idle | Retrying (outcome : RequestOutcome) | Marking (droppedOutcomes : nat).

(** The rest of [runMaintenance] when [retryPending] has returned. *)
Definition after_retry (h : health) : health * phase :=
  let count := droppedCount h in
  if (0 <? count)%nat && (pendingCount h =? 0)%nat then (h, Marking count) else (h, Idle).

(** The head of the loop of [retryPending]. *)
Definition retry_loop (h : health) : health * phase :=
  match pending h with
  | outcome :: _ => (h, Retrying outcome)
  | [] => after_retry (Health [] true (dropped h))
  end.

(** [pending.shift()] *)
Definition shift (h : health) : health := Health (tail (pending h)) (healthy h) (dropped h).

(** The sink has answered the call the pass awaits. *)
Definition resume (recorded : bool) (h : health) (p : phase) : health * phase :=
  match p with
  | Idle => (h, Idle)
  | Retrying _ => if recorded then retry_loop (shift h) else after_retry h
  | Marking count => ((if recorded then consumeDropped count h else h), Idle)
  end.

(** ** The process: requests report while the pass runs *)

Record process := Process {
  state : health;
  at_phase : phase;
  failures : list RequestOutcome;   (* reported so far *)
  landed : list RequestOutcome;     (* recorded by the pass *)
  marked : list nat;                (* counts of the markers recorded *)
}.

Inductive process_event :=
| ReportFailure (outcome : RequestOutcome)
| ReportSuccess
| Tick                              (* the timer starts a pass *)
| SinkAnswer (recorded : bool).

Definition initial_process : process := Process initial_health Idle [] [] [].

(** What the pass had awaited and now is recorded. *)
Definition landed_by (recorded : bool) (p : phase) : list RequestOutcome :=
  match p with Retrying o => if recorded then [o] else [] | _ => [] end.
Definition marked_by (recorded : bool) (p : phase) : list nat :=
  match p with Marking n => if recorded then [n] else [] | _ => [] end.

(** The next timer is armed when the pass has ended, so a tick finds it idle. *)
Definition process_step (maxPending : nat) (s : process) (e : process_event) : process :=
  match e with
  | ReportFailure o =>
      Process (reportEvidenceFailure maxPending o (state s)) (at_phase s) (failures s ++ [o]) (landed s) (marked s)
  | ReportSuccess => Process (reportEvidenceSuccess (state s)) (at_phase s) (failures s) (landed s) (marked s)
  | Tick =>
      match at_phase s with
      | Idle => let '(h, p) := retry_loop (state s) in Process h p (failures s) (landed s) (marked s)
      | _ => s
      end
  | SinkAnswer recorded =>
      let '(h, p) := resume recorded (state s) (at_phase s) in
      Process h p (failures s) (landed s ++ landed_by recorded (at_phase s)) (marked s ++ marked_by recorded (at_phase s))
  end.

Definition run_process (maxPending : nat) (es : list process_event) : process :=
  fold_left (process_step maxPending) es initial_process.

(** A pass with nothing reported meanwhile; [record] is the sink. *)
Fixpoint answers (record : RequestOutcome → bool) (queue : list RequestOutcome) : list process_event :=
  match queue with
  | [] => []
  | o :: queue => SinkAnswer (record o) :: if record o then answers record queue else []
  end.

(** ** Invariants *)

Lemma shed_spec m q c : ∃ d, q = take d q ++ (shed m q c).1 ∧ (shed m q c).2 = (c + d)%nat ∧
  (length (shed m q c).1 = Nat.min m (length q))%nat ∧ (d + length (shed m q c).1 = length q)%nat.
Proof.
  revert c. induction q as [|o q IH]; intros c; cbn [shed]; [exists 0%nat; cbn; repeat split; lia|].
  destruct (Nat.ltb_spec m (length (o :: q))) as [Hlt|Hge].
  - destruct (IH (S c)) as (d & Hq & Hc & Hm & Hl). exists (S d). cbn [take app length] in *.
    repeat split; [by rewrite <- app_comm_cons, <- Hq|lia|rewrite Hm; lia|lia].
  - exists 0%nat. cbn [fst snd take app]. repeat split; [lia|lia].
Qed.

(** The counts and the queue of a process, and where its pass can be. *)
Record process_inv (maxPending : nat) (s : process) : Prop := {
  gate : healthy (state s) = true → pending (state s) = [];
  bounded : (length (pending (state s)) ≤ maxPending)%nat;
  counted : (length (failures s) = length (pending (state s)) + length (landed s) + dropped (state s) + sum_list (marked s))%nat;
  queued : pending (state s) `suffix_of` failures s;
  awaiting : match at_phase s with
             | Retrying o => pending (state s) ≠ []
             | Marking n => (n ≤ dropped (state s))%nat
             | Idle => True
             end;
  in_order : ∃ i, (i + length (pending (state s)) ≤ length (failures s))%nat ∧ landed s `sublist_of` take i (failures s) ∧
             match at_phase s with Retrying o => failures s !! i = Some o | _ => True end;
}.

(** The loop of the pass changes nothing that is counted. *)
Lemma retry_loop_spec h :
  (retry_loop h).1 = Health (pending h) (match pending h with [] => true | _ => healthy h end) (dropped h) ∧
  match (retry_loop h).2 with
  | Retrying o => head (pending h) = Some o | Marking n => (n ≤ dropped h)%nat | Idle => True
  end.
Proof.
  unfold retry_loop, after_retry, droppedCount. destruct h as [[|o q] b c]; cbn; [|done].
  destruct c; split; cbn; done || lia.
Qed.

Lemma after_retry_spec h :
  (after_retry h).1 = h ∧ match (after_retry h).2 with Retrying _ => False | Marking n => (n ≤ dropped h)%nat | Idle => True end.
Proof. unfold after_retry, droppedCount. destruct h as [[|o q] b [|c]]; split; cbn; done || lia. Qed.

Lemma report_inv m s o : process_inv m s → process_inv m (process_step m s (ReportFailure o)).
Proof.
  intros [Hg Hb Hc Hs Ha Hr]. unfold process_step, reportEvidenceFailure.
  destruct (shed m (pending (state s) ++ [o]) (dropped (state s))) as [q c] eqn:Hq0.
  destruct (shed_spec m (pending (state s) ++ [o]) (dropped (state s))) as (d & Hq & Hd & Hm & Hl).
  rewrite Hq0 in *. cbn [fst snd] in *. rewrite length_app in *. cbn [length] in *.
  split; cbn [state pending healthy dropped at_phase failures landed marked].
  - done.
  - lia.
  - rewrite length_app; cbn [length]; lia.
  - destruct Hs as [k Hk]. exists (k ++ take d (pending (state s) ++ [o])). by rewrite Hk, <- !app_assoc, <- Hq.
  - destruct (at_phase s); [done| |lia]. intros ->. cbn in *. destruct (pending (state s)); [done|cbn in *; lia].
  - destruct Hr as (i & Hi & Hl' & Hp). exists i. split; [rewrite length_app; cbn [length]; lia|]. rewrite take_app_le by lia. split; [done|].
    destruct (at_phase s); [done| |done]. by apply lookup_app_l_Some.
Qed.

(** What the loop of the pass makes of a counted queue. *)
Lemma loop_inv m h fs ls ms :
  process_inv m (Process h Idle fs ls ms) →
  process_inv m (let '(h, p) := retry_loop h in Process h p fs ls ms).
Proof.
  intros [Hg Hb Hc Hs _ Hr]. cbn in *. destruct (retry_loop_spec h) as [H1 H2], (retry_loop h) as [h' p]. cbn in *. subst h'.
  split; cbn; try done.
  - destruct (pending h); [done|]. intros H. by apply Hg in H.
  - destruct p; [done| |done]. by destruct (pending h).
  - destruct Hr as (i & Hi & Hl & _). destruct p; [by exists i| |by exists i]. destruct Hs as [gone ->].
    destruct (pending h) as [|o' q]; [done|]. cbn in H2. injection H2 as ->. rewrite length_app in Hi. exists (length gone).
    rewrite take_app_length, lookup_app_r, Nat.sub_diag, length_app by done. split; [lia|]. split; [|done].
    rewrite take_app_le in Hl by lia. etrans; [exact Hl|apply sublist_take].
Qed.

Lemma after_inv m h fs ls ms :
  process_inv m (Process h Idle fs ls ms) →
  process_inv m (let '(h, p) := after_retry h in Process h p fs ls ms).
Proof.
  intros [Hg Hb Hc Hs _ Hr]. cbn in *. destruct (after_retry_spec h) as [H1 H2], (after_retry h) as [h' p]. cbn in *. subst h'.
  split; cbn; try done; [by destruct p|]. destruct Hr as (i & Hi & Hl & _). exists i. by destruct p.
Qed.

Lemma idle_inv m s : process_inv m s → process_inv m (Process (state s) Idle (failures s) (landed s) (marked s)).
Proof. intros [Hg Hb Hc Hs Ha (i & Hi & Hl & _)]. split; try done. by exists i. Qed.

Lemma answer_inv m s b : process_inv m s → process_inv m (process_step m s (SinkAnswer b)).
Proof.
  intros H. pose proof (idle_inv _ _ H) as Hi. destruct H as [Hg Hb Hc Hs Ha Hr]. destruct s as [[q g c] p fs ls ms]. cbn in *.
  unfold process_step. destruct p as [|o|n]; cbn [at_phase resume landed_by marked_by state failures landed marked];
    [|destruct b|]; rewrite ?app_nil_r.
  - done.
  - apply loop_inv. destruct Hr as (i & Hle & Hr & Ho), q as [|o' q]; [done|]. split; cbn in *.
    + intros Ht. by specialize (Hg Ht).
    + lia.
    + rewrite length_app; cbn; lia.
    + destruct Hs as [k ->]. exists (k ++ [o']). by rewrite <- app_assoc.
    + done.
    + exists (S i). split; [lia|]. rewrite (take_S_r _ _ _ Ho). split; [by apply sublist_app|done].
  - by apply after_inv.
  - destruct b; rewrite ?app_nil_r; [|done]. split; cbn in *; try done. rewrite sum_list_with_app; cbn; lia.
Qed.

Lemma step_inv m s e : process_inv m s → process_inv m (process_step m s e).
Proof.
  intros H. destruct e as [o| | |b]; [by apply report_inv| | |by apply answer_inv].
  - destruct H as [Hg Hb Hc Hs Ha Hr]. split; cbn; try done. by destruct (pending (state s)).
  - cbn [process_step]. destruct (at_phase s) eqn:Hp; [|done|done]. apply loop_inv. by apply idle_inv.
Qed.

Lemma run_inv m es : process_inv m (run_process m es).
Proof.
  unfold run_process. assert (process_inv m initial_process) as H by (split; cbn; first [done | lia | by exists [] | by exists 0%nat]).
  revert H. generalize initial_process. induction es as [|e es IH]; intros s H; cbn; [done|]. by apply IH, step_inv.
Qed.

(** ** Properties *)

Lemma sublist_full {A} (l k : list A) : l `sublist_of` k → (length k ≤ length l)%nat → l = k.
Proof.
  induction 1 as [|x l k _ IH|x l k Hs IH]; cbn; intros Hl; [done|f_equal; apply IH; lia|].
  apply sublist_length in Hs. lia.
Qed.

(** C27. Whatever is reported while maintenance passes run: the queue never exceeds
    its bound, and it holds the last of the failed outcomes. Of the outcomes before
    these, each was recorded at most once, in the order of the reports; those that
    were not are as many as the count still held and the recorded markers say; so
    that as long as nothing is dropped, all of them are recorded. While outcomes are
    queued the block gate is shut. (Which outcomes were dropped is not known: where
    the queue overflows during a call of the sink, the outcome being recorded is
    counted, and the one that is removed in its place is not recorded.) *)
Theorem failed_evidence_accounted maxPending es :
  let s := run_process maxPending es in
  (pendingCount (state s) ≤ maxPending)%nat ∧
  (∃ gone, failures s = gone ++ pending (state s) ∧ landed s `sublist_of` gone ∧
     (length gone = length (landed s) + droppedCount (state s) + sum_list (marked s))%nat ∧
     ((droppedCount (state s) + sum_list (marked s) = 0)%nat → gone = landed s)) ∧
  (ok Block (state s) = true → pending (state s) = []).
Proof.
  intros s. destruct (run_inv maxPending es) as [Hg Hb Hc [gone Hs] _ (i & Hi & Hl & _)]. fold s in Hg, Hb, Hc, Hs, Hi, Hl.
  split; [done|]. split; [|done]. rewrite Hs, length_app in Hc, Hi.
  assert (landed s `sublist_of` gone) as Hin by (rewrite Hs, take_app_le in Hl by lia; etrans; [exact Hl|apply sublist_take]).
  exists gone. split; [done|]. split; [done|]. unfold droppedCount. split; [lia|]. intros H0. symmetry. apply sublist_full; [done|lia].
Qed.

(** Answers of a sink that records what [accepts] holds of. *)
Fixpoint answered_by (accepts : RequestOutcome → bool) (maxPending : nat) (s : process) (es : list process_event) : Prop :=
  match es with
  | [] => True
  | e :: es =>
      match e, at_phase s with SinkAnswer recorded, Retrying o => recorded = accepts o | _, _ => True end ∧
      answered_by accepts maxPending (process_step maxPending s e) es
  end.

(** Nothing has been dropped, and what the sink refuses is still queued. *)
Record stuck (accepts : RequestOutcome → bool) (s : process) : Prop := {
  refused_queued : ∀ o, o ∈ failures s → accepts o = false → o ∈ pending (state s);
  head_awaited : ∀ o, at_phase s = Retrying o → head (pending (state s)) = Some o;
}.

Definition lost (s : process) : nat := (dropped (state s) + sum_list (marked s))%nat.

Lemma lost_mono m s e : process_inv m s → (lost s ≤ lost (process_step m s e))%nat.
Proof.
  intros [Hg Hb Hc Hs Ha Hr]. unfold lost. destruct e as [o| | |b]; cbn [process_step].
  - unfold reportEvidenceFailure. destruct (shed_spec m (pending (state s) ++ [o]) (dropped (state s))) as (d & _ & Hd & _).
    destruct (shed _ _ _). cbn in *. lia.
  - done.
  - destruct (at_phase s); [|done|done]. destruct (retry_loop_spec (state s)) as [H _], (retry_loop (state s)). cbn in *. by subst.
  - destruct (at_phase s) as [|o|n] eqn:Hp; cbn [resume landed_by marked_by]; [|destruct b|destruct b]; rewrite ?app_nil_r; try done.
    + destruct (retry_loop_spec (shift (state s))) as [H _], (retry_loop _). cbn in *. by subst.
    + destruct (after_retry_spec (state s)) as [H _], (after_retry _). cbn in *. by subst.
    + cbn. rewrite sum_list_with_app. cbn. lia.
Qed.

Lemma stuck_step accepts m s e :
  process_inv m s → match e, at_phase s with SinkAnswer recorded, Retrying o => recorded = accepts o | _, _ => True end →
  (lost (process_step m s e) = 0)%nat → stuck accepts s → stuck accepts (process_step m s e).
Proof.
  intros [Hg Hb Hc Hs Ha Hr] He Hl [Hq Hh]. unfold lost in Hl. destruct e as [o| | |b]; cbn [process_step] in *.
  - unfold reportEvidenceFailure in *. destruct (shed_spec m (pending (state s) ++ [o]) (dropped (state s))) as (d & Hqs & Hd & _).
    destruct (shed _ _ _) as [q c]. cbn in *. assert (d = 0%nat) as -> by lia. change (pending (state s) ++ [o] = q) in Hqs. subst q. split; cbn.
    + intros o' [Ho|Ho]%elem_of_app Hacc; apply elem_of_app; [left; by apply Hq|by right].
    + intros o' Ho. specialize (Hh o' Ho). by destruct (pending (state s)).
  - by split.
  - destruct (at_phase s) eqn:Hp; [|by split; rewrite ?Hp..].
    destruct (retry_loop_spec (state s)) as [H1 H2], (retry_loop (state s)) as [h p]. cbn in *. subst h. split; cbn; [done|].
    intros o ->. done.
  - destruct (at_phase s) as [|o|n] eqn:Hp; cbn [resume landed_by marked_by] in *; [|destruct b|destruct b]; rewrite ?app_nil_r in *.
    + by split; cbn; rewrite ?app_nil_r.
    + destruct (retry_loop_spec (shift (state s))) as [H1 H2], (retry_loop (shift (state s))) as [h p]. cbn in *. subst h.
      specialize (Hh o eq_refl). split; cbn; [|by intros ? ->].
      intros o' Ho Hacc. specialize (Hq o' Ho Hacc). destruct (pending (state s)) as [|o'' q]; [done|]. injection Hh as ->.
      cbn. apply elem_of_cons in Hq as [->|Hq]; [congruence|done].
    + destruct (after_retry_spec (state s)) as [H1 H2], (after_retry (state s)) as [h p]. cbn in *. subst h.
      split; cbn; rewrite ?app_nil_r; [done|]. by intros ? ->.
    + split; cbn; rewrite ?app_nil_r; done.
    + split; cbn; rewrite ?app_nil_r; done.
Qed.

Lemma stuck_run accepts m es s :
  process_inv m s → answered_by accepts m s es → (lost (fold_left (process_step m) es s) = 0)%nat → stuck accepts s →
  stuck accepts (fold_left (process_step m) es s).
Proof.
  revert s. induction es as [|e es IH]; intros s Hi Ha Hl Hs; [done|]. cbn [fold_left answered_by] in *. destruct Ha as [He Ha].
  assert (∀ es s', process_inv m s' → lost s' ≤ lost (fold_left (process_step m) es s'))%nat as Hmono.
  { clear. induction es as [|e es IH]; intros s' Hi; [done|]. cbn. etrans; [by apply lost_mono|]. by apply IH, step_inv. }
  apply IH; [by apply step_inv|done|done|]. apply stuck_step; try done.
  specialize (Hmono es _ (step_inv _ _ e Hi)). lia.
Qed.

(** C36. An outcome the sink can never record shuts the block gate for good: as
    long as nothing is dropped it stays queued, every pass stops at it, and new
    requests are refused. *)
Theorem unrecordable_outcome_shuts_gate accepts maxPending es o :
  answered_by accepts maxPending initial_process es → o ∈ failures (run_process maxPending es) → accepts o = false →
  lost (run_process maxPending es) = 0%nat →
  ok Block (state (run_process maxPending es)) = false ∧ o ∈ pending (state (run_process maxPending es)).
Proof.
  intros Ha Ho Hacc Hl. pose proof (run_inv maxPending es) as Hi.
  assert (stuck accepts (run_process maxPending es)) as [Hq _].
  { apply stuck_run; [apply (run_inv maxPending [])|done|done|]. split; [by intros ? ?%elem_of_nil|done]. }
  specialize (Hq o Ho Hacc). split; [|done]. destruct Hi as [Hg _ _ _ _ _]. cbn.
  destruct (healthy _); [|done]. rewrite Hg in Hq by done. by apply elem_of_nil in Hq.
Qed.

Definition demo_outcome (id : string) : RequestOutcome :=
  Outcome Denied id "1970-01-01T00:00:00.000Z" None Anthropic None None false (Status 401) 0 Refused (Some "unknown_key") None None
    None None false.

(** Two failures; the pass has recorded the first. *)
Lemma failed_evidence_accounted_witness :
  let s := run_process 1000 [ReportFailure (demo_outcome "r1"); Tick; ReportFailure (demo_outcome "r2"); SinkAnswer true] in
  ∃ gone, failures s = gone ++ pending (state s) ∧ gone = landed s ∧ (length gone = 1)%nat.
Proof.
  destruct (failed_evidence_accounted 1000 [ReportFailure (demo_outcome "r1"); Tick; ReportFailure (demo_outcome "r2"); SinkAnswer true])
    as (_ & (gone & H1 & _ & H2 & H3) & _).
  exists gone. split; [exact H1|]. split; [apply H3; reflexivity|exact H2].
Defined.

(** A sink that refuses [r1] for good. *)
Lemma unrecordable_outcome_shuts_gate_witness :
  let es := [ReportFailure (demo_outcome "r1"); Tick; SinkAnswer false; ReportFailure (demo_outcome "r2"); ReportSuccess; Tick;
             SinkAnswer false] in
  ok Block (state (run_process 1000 es)) = false ∧ demo_outcome "r1" ∈ pending (state (run_process 1000 es)).
Proof.
  apply (unrecordable_outcome_shuts_gate (λ o, negb (String.eqb (requestId o) "r1"))); [|left|reflexivity|reflexivity].
  cbn. repeat split.
Defined.

(** The queue overflows during a call of the sink: the recorded [r1] is the one that
    is counted, and [r2], which nothing recorded, is removed in its place. *)
Example overflow_loses_next :
  let s := run_process 1 [ReportFailure (demo_outcome "r1"); Tick; ReportFailure (demo_outcome "r2"); SinkAnswer true] in
  landed s = [demo_outcome "r1"] ∧ pending (state s) = [] ∧ droppedCount (state s) = 1%nat.
Proof. repeat split. Qed.
