(* ===== verification/GatewayProxy.v ===== *)
(** * The gateway's request handler (gateway/src/proxy.ts)

    One request from its arrival to its evidence. [handle] is the handler up to
    its response: what it asks of the provider, the outcomes it gives to the
    evidence sink and the reply; an event stream is passed on by [stream_step],
    one event of the platform's streams at a time. Clock readings, the request
    id, the answer of the provider and whether the health gate is open are
    arguments. *)

From S2P Require Import Prelude Regex JsNum JsVal Dates JsonText Hash Event.
From S2P Require Import Binary64.
From S2P Require Import GatewayConfig Gateway.

#[local] Open Scope Z_scope.

(** A decoder fed with chunks ([decode(bytes, { stream: true })]) and ended
    ([decode()]) gives the text of all the bytes. *)
Section Decoded.
Context {D : Type} (decode_chunk : D → list Z → list ascii * D) (decode_end : D → list ascii).
Fixpoint decoded (d : D) (chunks : list (list Z)) : list ascii :=
  match chunks with
  | [] => decode_end d
  | bytes :: chunks => let '(text, d) := decode_chunk d bytes in text ++ decoded d chunks
  end.
End Decoded.

Class StreamDecoder `{TextDecoder} := {
  decoder : Type;
  new_decoder : decoder;
  decode_chunk : decoder → list Z → list ascii * decoder;
  decode_end : decoder → list ascii;
  decoded_spec chunks : decoded decode_chunk decode_end new_decoder chunks = chars (decode_utf8 (concat chunks));
}.

Record Request := Req {
  method : string; pathname : string; search : string; req_headers : Headers;
  req_body : option (list Z);   (* [None]: the upload breaks off *)
}.

Record ForwardedRequest := Forwarded { to_url : string; fwd_headers : Headers; fwd_body : list Z }.

Inductive upstream_answer :=
| Unreachable (aborted : bool)   (* [fetch] rejects; has the client gone? *)
| Answer (status : Z) (headers : Headers) (has_body : bool) (bytes : option (list Z)).
                                 (* [None]: the body breaks off while it is buffered *)

Record Response := Resp { resp_status : Z; resp_headers : Headers; resp_body : list Z }.

Record Route := RouteTo { route_provider : GatewayProvider; route_endpoint : GatewayEndpoint }.

Definition mapRoute (method pathname : string) : option Route :=
  if negb (String.eqb method "POST") then None
  else if String.eqb pathname "/v1/messages" then Some (RouteTo Anthropic Messages)
  else if String.eqb pathname "/v1/chat/completions" then Some (RouteTo Openai ChatCompletions)
  else None.

Definition errorResponse (status : Z) (type : string) (reason : option string) : Response :=
  let body := VObj [("error", VObj (("type", VStr type) :: opt_field "reason" (vstr_opt reason)))] in
  Resp status [("content-type", "application/json")] (utf8 (default "" (json_stringify body))).

Definition STRIPPED_HEADERS : list string :=
  ["connection"; "keep-alive"; "proxy-authenticate"; "proxy-authorization"; "te"; "trailers"; "transfer-encoding";
   "upgrade"; "content-length"; "content-encoding"; "accept-encoding"; "host"; "authorization"; "x-api-key"].

(** Names in a [Headers] object are lower case. *)
Definition copy_headers (source : Headers) : Headers :=
  fold_left (λ headers kv, if bool_decide (kv.1 ∈ STRIPPED_HEADERS) then headers else header_set kv.1 kv.2 headers) source [].

Definition forwardRequestHeaders (source : Headers) (provider : GatewayProvider) (apiKey : string) : Headers :=
  match provider with
  | Anthropic => header_set "x-api-key" apiKey (copy_headers source)
  | Openai => header_set "authorization" ("Bearer " +:+ apiKey) (copy_headers source)
  end.

Definition forwardResponseHeaders : Headers → Headers := copy_headers.

(** [baseUrl.replace(/\/+$/, "")] *)
Fixpoint drop_slashes (l : list ascii) : list ascii :=
  match l with "/"%char :: l => drop_slashes l | _ => l end.
Definition strip_slashes (baseUrl : string) : string := of_chars (rev (drop_slashes (rev (chars baseUrl)))).

(** [text.includes(part)] *)
Fixpoint includes_text (part text : list ascii) : bool :=
  prefix_of part text || match text with [] => false | _ :: text => includes_text part text end.

(** The fields every outcome of a request shares. *)
Record outcome_base := Base {
  base_requestId : string; base_occurredAt : string; base_keyId : option string; base_route : Route;
  base_model : option string; base_stream : bool; base_bodyHash : option string; base_mutated : bool;
}.

(** [{ ...base, kind, status, policyDecision, latencyMs, ... }] *)
Definition outcome_of (b : outcome_base) (kind : outcome_kind) (status : outcome_status) (decision : outcome_decision)
    (latencyMs : Z) (reason : option string) (usage : option Usage) (cost : option b64) (bodyHash : option string)
    : RequestOutcome :=
  Outcome kind (base_requestId b) (base_occurredAt b) (base_keyId b) (route_provider (base_route b))
    (Some (route_endpoint (base_route b))) (base_model b) (base_stream b) status latencyMs decision reason usage cost
    (base_bodyHash b) bodyHash (base_mutated b).

(** An outcome without an answer of the provider. *)
Definition failed (b : outcome_base) (status : outcome_status) (decision : outcome_decision) (latencyMs : Z) : RequestOutcome :=
  outcome_of b Failed status decision latencyMs None None None None.

(** What a denied client is told; everything but the state of its key is a policy matter. *)
Definition client_type (reason : string) : string :=
  if String.eqb reason "unknown_key" || String.eqb reason "revoked_key" then reason else "policy_denied".

Section Handler.
Context `{HS : Hasher} `{TD : TextDecoder} `{SD : !StreamDecoder}.
Context (config : GatewayConfig) (catalog : PricingCatalog).

(** *** Event streams *)

Record sse := Sse {
  sse_base : outcome_base; sse_status : Z; sse_acc : accumulator; sse_decoder : decoder;
  sse_hashed : list Z;          (* what [responseHash] has been updated with *)
  sse_delivered : list Z;       (* enqueued for the client *)
  sse_open : bool;              (* the client's stream is readable *)
  settled : bool;
}.

Inductive reply :=
| Respond (response : Response)
| Streaming (status : Z) (headers : Headers) (s : sse)
| Reject (msg : string).       (* the promise of the handler rejects *)

Record handled := Handled { forwarded : list ForwardedRequest; recorded : list RequestOutcome; replied : reply }.

Inductive stream_event :=
| Chunk (bytes : list Z)                  (* a read of the provider's stream gives bytes *)
| StreamEnd (now : Z)                     (* ... or its end *)
| ReadFailed (aborted : bool) (now : Z)   (* ... or fails *)
| ClientCancel                            (* the client cancels its stream *)
| CancelDone (now : Z).                   (* the provider's stream is released *)

Definition is_ok (status : Z) : bool := (200 <=? status) && (status <=? 299).

Definition priced (model : option string) (usage : option Usage) : option b64 :=
  match usage, model with Some u, Some m => computeCostMicroUsd u m catalog | _, _ => None end.

Definition captured (bytes : list Z) : option string :=
  if captureContentHashes config then Some (sha256Bytes bytes) else None.

(** The outcome of an answer with this usage, whose body was [bytes]. *)
Definition answered (b : outcome_base) (status : Z) (latencyMs : Z) (usage : option Usage) (bytes : list Z) : RequestOutcome :=
  outcome_of b (if is_ok status then Completed else Failed) (Status status) Allowed latencyMs None usage
    (priced (base_model b) usage) (captured bytes).

Section Stream.
Context (startedAt : Z).

Definition streamedOutcome (s : sse) (now : Z) : RequestOutcome :=
  let provider := route_provider (base_route (sse_base s)) in
  let acc := feed provider (sse_acc s) (decode_end (sse_decoder s)) in
  answered (sse_base s) (sse_status s) (now - startedAt) (usage_of provider acc) (sse_hashed s).

Definition settle (s : sse) (outcome : RequestOutcome) : sse * list RequestOutcome :=
  (Sse (sse_base s) (sse_status s) (sse_acc s) (sse_decoder s) (sse_hashed s) (sse_delivered s) (sse_open s) true,
   if settled s then [] else [outcome]).

Definition close (s : sse) : sse :=
  Sse (sse_base s) (sse_status s) (sse_acc s) (sse_decoder s) (sse_hashed s) (sse_delivered s) false (settled s).

(** Closing or extending a stream that is not readable throws, which ends the
    pull before anything is settled. *)
Definition stream_step (s : sse) (e : stream_event) : sse * list RequestOutcome :=
  match e with
  | Chunk bytes =>
      let '(text, d) := decode_chunk (sse_decoder s) bytes in
      (Sse (sse_base s) (sse_status s) (feed (route_provider (base_route (sse_base s))) (sse_acc s) text) d
         (sse_hashed s ++ bytes) (if sse_open s then sse_delivered s ++ bytes else sse_delivered s) (sse_open s) (settled s), [])
  | StreamEnd now => if sse_open s then settle (close s) (streamedOutcome s now) else (s, [])
  | ReadFailed aborted now =>
      settle (close s) (failed (sse_base s) (if aborted then Aborted else Status (sse_status s)) Allowed (now - startedAt))
  | ClientCancel => (close s, [])
  | CancelDone now => settle s (failed (sse_base s) Aborted Allowed (now - startedAt))
  end.

Fixpoint stream_run (s : sse) (es : list stream_event) : sse * list RequestOutcome :=
  match es with
  | [] => (s, [])
  | e :: es => let '(s, o) := stream_step s e in let '(s, os) := stream_run s es in (s, o ++ os)
  end.
End Stream.

(** *** Requests *)

Record call_env := CallEnv {
  healthy_now : bool;      (* [deps.health.ok()] *)
  started_at : Z;          (* [now()] when the request is taken *)
  finished_at : Z;         (* [now()] when its outcome is recorded *)
  new_request_id : string;
}.

(** [{ ...base, keyId, model, stream, requestBodyHash }] once the body is read. *)
Definition described (b : outcome_base) (bytes : list Z) (body : val) : outcome_base :=
  Base (base_requestId b) (base_occurredAt b) (base_keyId b) (base_route b)
    (match vget_opt body "model" with VStr m => Some m | _ => None end) (strict_eq (vget_opt body "stream") (VBool true))
    (captured bytes) (base_mutated b).

Definition keyed (b : outcome_base) (keyId : string) : outcome_base :=
  Base (base_requestId b) (base_occurredAt b) (Some keyId) (base_route b) (base_model b) (base_stream b) (base_bodyHash b)
    (base_mutated b).

Definition mutated (b : outcome_base) : outcome_base :=
  Base (base_requestId b) (base_occurredAt b) (base_keyId b) (base_route b) (base_model b) (base_stream b) (base_bodyHash b) true.

(** What is sent, and whether [stream_options] has been added. *)
Definition forward_body (b : outcome_base) (bytes : list Z) (body : val) : list Z * bool :=
  match body with
  | VObj fields =>
      if bool_decide (route_provider (base_route b) = Openai) && base_stream b && injectStreamUsage config
         && is_undef (vget_opt body "stream_options")
      then (utf8 (default "" (json_stringify
              (VObj (obj_define "stream_options" (VObj [("include_usage", VBool true)]) fields)))), true)
      else (bytes, false)
  | _ => (bytes, false)
  end.

(** [deny]: the outcome is recorded, and the client is told. *)
Definition deny (e : call_env) (b : outcome_base) (status : Z) (reason : string) : handled :=
  Handled []
    [outcome_of b Denied (Status status) Refused (finished_at e - started_at e) (Some reason) None None None]
    (Respond (errorResponse status (client_type reason) (Some reason))).

(** The provider has answered. *)
Definition relay (e : call_env) (b : outcome_base) (sent : ForwardedRequest) (answer : upstream_answer) : handled :=
  let latency := finished_at e - started_at e in
  match answer with
  | Unreachable aborted =>
      Handled [sent] [failed b (if aborted then Aborted else Status 502) Allowed latency]
        (Respond (errorResponse (if aborted then 499 else 502) (if aborted then "client_aborted" else "upstream_unreachable") None))
  | Answer status headers has_body bytes =>
      let isSse := includes_text (chars "text/event-stream") (chars (default "" (header_get "content-type" headers))) in
      if isSse && has_body then
        Handled [sent] [] (Streaming status (forwardResponseHeaders headers) (Sse b status no_usage new_decoder [] [] true false))
      else
        match bytes with
        | None => Handled [sent] [] (Reject "the body of the response could not be read")
        | Some bytes =>
            let usage := if is_ok status then body ← json_parse (decode_utf8 bytes);
                                              extractJsonUsage (route_provider (base_route b)) body
                         else None in
            Handled [sent] [answered b status latency usage bytes] (Respond (Resp status (forwardResponseHeaders headers) bytes))
        end
  end.

(** A request whose key is resolved and whose body is there. *)
Definition serve (e : call_env) (req : Request) (route : Route) (key : VirtualKeyConfig) (b : outcome_base) (bytes : list Z)
    (upstream : ForwardedRequest → upstream_answer) : handled :=
  let body := match json_parse (decode_utf8 bytes) with Some v => v | None => VNull end in
  let b := described b bytes body in
  let ctx := Ctx (keyId key) (route_provider route) (base_model b) (Some (route_endpoint route)) in
  match decide ctx (map_lookup policy_fields (policy key) (policies config)) with
  | Throw msg => Handled [] [] (Reject msg)
  | Ret (Deny reason) => deny e b 403 (reason_name reason)
  | Ret Allow =>
      match provider_config (config_providers config) (route_provider route) with
      | None => deny e b 503 "provider_not_configured"
      | Some provider =>
          let '(sent, added) := forward_body b bytes body in
          let b := if added then mutated b else b in
          let request := Forwarded (strip_slashes (baseUrl provider) +:+ pathname req +:+ search req)
                           (forwardRequestHeaders (req_headers req) (route_provider route) (apiKey provider)) sent in
          relay e b request (upstream request)
      end
  end.

Definition handle (e : call_env) (req : Request) (upstream : ForwardedRequest → upstream_answer) : handled :=
  match mapRoute (method req) (pathname req) with
  | None => Handled [] [] (Respond (errorResponse 404 "not_found" None))
  | Some route =>
      if negb (healthy_now e) then Handled [] [] (Respond (errorResponse 503 "evidence_unavailable" None)) else
      let b := Base (new_request_id e) (toISOString (started_at e)) None route None false None false in
      match extractPresentedKey (req_headers req) with
      | None => deny e b 401 "unknown_key"
      | Some presented =>
          match resolveVirtualKey presented (config_keys config) with
          | UnknownKey => deny e b 401 "unknown_key"
          | RevokedKey => deny e b 401 "revoked_key"
          | Resolved key =>
              let b := keyed b (keyId key) in
              match req_body req with
              | None => Handled [] [failed b Aborted Undecided (finished_at e - started_at e)]
                          (Respond (errorResponse 499 "client_aborted" None))
              | Some bytes => serve e req route key b bytes upstream
              end
          end
      end
  end.
End Handler.
