(* ===== verification/GatewayDemo.v ===== *)
(** * A small gateway for witnesses

    One provider of each kind, one policy and two keys, one of them revoked; a
    stream decoder that waits for the end of its bytes. *)

From S2P Require Import Prelude Regex JsNum JsVal Dates JsonText Hash Demo.
From S2P Require Import Binary64 GatewayConfig Gateway GatewayProxy.

#[local] Existing Instances toy_hasher latin1_decoder.

Fixpoint buffered (d : list Z) (chunks : list (list Z)) : list Z :=
  match chunks with [] => d | bytes :: chunks => buffered (d ++ bytes) chunks end.

Lemma buffered_concat d chunks : buffered d chunks = d ++ concat chunks.
Proof.
  revert d. induction chunks as [|bytes chunks IH]; intros d; cbn [buffered concat]; [by rewrite app_nil_r|].
  by rewrite IH, <- app_assoc.
Qed.

Lemma buffering_spec chunks :
  decoded (λ d bytes, ([], d ++ bytes)) (λ d, chars (decode_utf8 d)) [] chunks = chars (decode_utf8 (concat chunks)).
Proof.
  change (concat chunks) with ([] ++ concat chunks). rewrite <- buffered_concat. generalize (@nil Z).
  induction chunks as [|bytes chunks IH]; intros d; [done|]. apply IH.
Qed.

Definition buffering_decoder : StreamDecoder := {|
  decoder := list Z; new_decoder := []; decode_chunk := λ d bytes, ([], d ++ bytes);
  decode_end := λ d, chars (decode_utf8 d); decoded_spec := buffering_spec |}.

Definition demo_policy : PolicyConfig := Policy [Anthropic; Openai] ["claude-*"; "gpt-5.2"] [Messages; ChatCompletions].
Definition demo_keys : list VirtualKeyConfig :=
  [VirtualKey "team-a" (sha256Hex "vk_a") "default" None None None None;
   VirtualKey "team-b" (sha256Hex "vk_b") "default" None None None (Some true)].
Definition demo_config : GatewayConfig :=
  Config "t1" "gw1" "/e" Block true true None None
    [(Anthropic, Provider "https://a.example/" "sk-a"); (Openai, Provider "https://o.example" "sk-o")]
    (map_assign "default" demo_policy empty_map) demo_keys.
Definition demo_catalog : PricingCatalog :=
  Catalog "v1" (map_assign "claude-x" (Price (num_of_Z 3000000) (num_of_Z 15000000)) empty_map).

Definition demo_request : Request :=
  Req "POST" "/v1/messages" "" [("authorization", "Bearer vk_a"); ("x-trace", "1")]
    (Some (utf8 (quoted "{'model':'claude-x'}"))).
Definition demo_call : call_env := CallEnv true 0 12 "req_1".

Definition demo_answer : upstream_answer :=
  Answer 200 [("content-type", "application/json")] true
    (Some (utf8 (quoted "{'usage':{'input_tokens':1000,'output_tokens':10}}"))).
Definition demo_stream_answer : upstream_answer := Answer 200 [("content-type", "text/event-stream")] true (Some []).
