(* ===== verification/GatewaySafety.v ===== *)
(** * What the gateway guarantees

    Theorems about [GatewayProxy.handle] and [stream_step]: what reaches a
    provider, what is recorded, and what credentials can influence. *)

From S2P Require Import Prelude Regex JsNum JsVal Dates JsonText Hash Event Demo.
From S2P Require Import Binary64 GatewayConfig Gateway GatewayProxy GatewayDemo.

#[local] Open Scope Z_scope.
#[local] Arguments json_parse : simpl never.
#[local] Arguments json_stringify : simpl never.

(** ** Headers *)

Lemma header_get_absent name headers : Forall (λ kv, kv.1 ≠ name) headers → header_get name headers = None.
Proof. intros H. unfold header_get. by rewrite (proj2 (list_find_None _ _) H). Qed.

Lemma header_get_set name value headers : header_get name (header_set name value headers) = Some value.
Proof.
  unfold header_get, header_set. rewrite list_find_app_r.
  - cbn [list_find]. destruct (base.decide _) as [_|H]; [done|]. by destruct H.
  - apply list_find_None. apply Forall_forall. intros kv H. by apply list_elem_of_filter in H as [H _].
Qed.

Lemma header_set_all (P : string * string → Prop) name value headers :
  P (name, value) → Forall P headers → Forall P (header_set name value headers).
Proof. intros Hn Hh. apply Forall_app. split; [|by constructor].
  apply Forall_forall. intros kv Hkv. apply list_elem_of_filter in Hkv as [_ Hkv]. by apply (proj1 (Forall_forall _ _) Hh). Qed.

Lemma header_get_other name name' value headers :
  name ≠ name' → Forall (λ kv, kv.1 ≠ name) headers → header_get name (header_set name' value headers) = None.
Proof. intros Hn Hh. apply header_get_absent, header_set_all; [cbn; congruence|done]. Qed.

Lemma copy_headers_clean name source : name ∈ STRIPPED_HEADERS → Forall (λ kv, kv.1 ≠ name) (copy_headers source).
Proof.
  intros Hn. unfold copy_headers. assert (Forall (λ kv : string * string, kv.1 ≠ name) []) as H by constructor. revert H.
  generalize (@nil (string * string)). induction source as [|kv source IH]; intros l Hl; [done|]. cbn [fold_left].
  apply IH. case_bool_decide as Hs; [done|]. apply header_set_all; [cbn; congruence|done].
Qed.

(** The credential headers of a forwarded request. *)
Lemma forwarded_credentials source provider apiKey :
  header_get "x-api-key" (forwardRequestHeaders source provider apiKey)
    = match provider with Anthropic => Some apiKey | Openai => None end ∧
  header_get "authorization" (forwardRequestHeaders source provider apiKey)
    = match provider with Anthropic => None | Openai => Some ("Bearer " +:+ apiKey) end.
Proof.
  destruct provider; cbn [forwardRequestHeaders]; split; rewrite ?header_get_set; try done;
    apply header_get_other; try done; apply copy_headers_clean; unfold STRIPPED_HEADERS; set_solver.
Qed.

(** ** Requests *)

Section Handler.
Context `{HS : Hasher} `{TD : TextDecoder} `{SD : !StreamDecoder}.

(** What entitles a request to reach a provider. *)
Record entitled (config : GatewayConfig) (req : Request) (route : Route) (key : VirtualKeyConfig) (policy : PolicyConfig)
    (model : string) (provider : ProviderConfig) : Prop := {
  by_route : mapRoute (method req) (pathname req) = Some route;
  by_key : ∃ presented i, extractPresentedKey (req_headers req) = Some presented ∧
             list_find (λ candidate, keyHash candidate = hashPresentedKey presented) (config_keys config) = Some (i, key);
  by_standing : revoked key ≠ Some true;
  by_policy : map_lookup policy_fields (GatewayConfig.policy key) (policies config) = Entry policy;
  by_endpoint : route_endpoint route ∈ endpoints policy;
  by_provider : route_provider route ∈ providers policy;
  by_model : ∃ bytes body pattern, req_body req = Some bytes ∧ json_parse (decode_utf8 bytes) = Some body ∧
               vget_opt body "model" = VStr model ∧ pattern ∈ models policy ∧ matchesModel pattern model = true;
  by_config : provider_config (config_providers config) (route_provider route) = Some provider;
}.

Lemma decide_allow ctx found :
  Gateway.decide ctx found = Ret Allow →
  ∃ policy endpoint model pattern, found = Entry policy ∧ ctx_endpoint ctx = Some endpoint ∧ endpoint ∈ endpoints policy ∧
    ctx_provider ctx ∈ providers policy ∧ ctx_model ctx = Some model ∧ pattern ∈ models policy ∧ matchesModel pattern model = true.
Proof.
  unfold Gateway.decide. destruct found as [policy| |]; [|by destruct (ctx_endpoint ctx)|done]. intros H. injection H as H.
  destruct (ctx_endpoint ctx) as [endpoint|]; [|done]. case_bool_decide as He; [|done]. cbn [negb] in H.
  case_bool_decide as Hp; [|done]. cbn [negb] in H. destruct (ctx_model ctx) as [model|]; [|done].
  destruct (existsb _ _) eqn:Hm; [|done]. apply existsb_exists in Hm as (pattern & Hin & Hm).
  apply list_elem_of_In in Hin. by exists policy, endpoint, model, pattern.
Qed.

Lemma resolved_key presented keys key :
  resolveVirtualKey presented keys = Resolved key →
  revoked key ≠ Some true ∧ ∃ i, list_find (λ candidate, keyHash candidate = hashPresentedKey presented) keys = Some (i, key).
Proof.
  unfold resolveVirtualKey. destruct (list_find _ _) as [[i k]|]; [|done]. case_bool_decide; [done|].
  intros [= ->]. eauto.
Qed.

Lemma relay_forwards config catalog e b sent answer : forwarded (relay config catalog e b sent answer) = [sent].
Proof.
  unfold relay. destruct answer as [aborted|status headers has_body bytes]; [done|]. destruct (_ && _); [done|]. by destruct bytes.
Qed.

Lemma serve_forwards config catalog e req route key b bytes upstream sent :
  sent ∈ forwarded (serve config catalog e req route key b bytes upstream) → base_route b = route →
  ∃ policy pattern model body provider,
    map_lookup policy_fields (GatewayConfig.policy key) (policies config) = Entry policy ∧
    route_endpoint route ∈ endpoints policy ∧ route_provider route ∈ providers policy ∧
    json_parse (decode_utf8 bytes) = Some body ∧ vget_opt body "model" = VStr model ∧
    pattern ∈ models policy ∧ matchesModel pattern model = true ∧
    provider_config (config_providers config) (route_provider route) = Some provider ∧
    to_url sent = strip_slashes (baseUrl provider) +:+ pathname req +:+ search req ∧
    fwd_headers sent = forwardRequestHeaders (req_headers req) (route_provider route) (apiKey provider) ∧
    forwarded (serve config catalog e req route key b bytes upstream) = [sent].
Proof.
  unfold serve. intros Hs Hb.
  destruct (Gateway.decide _ _) as [[|reason]|msg] eqn:Hd; cbn [forwarded deny] in *; [|by apply elem_of_nil in Hs..].
  apply decide_allow in Hd as (policy & endpoint & model & pattern & Hp & He & Hen & Hpr & Hm & Hin & Hmatch).
  destruct (provider_config _ _) as [provider|] eqn:Hc; cbn [forwarded deny] in *; [|by apply elem_of_nil in Hs].
  destruct (forward_body _ _ _ _) as [body added]. rewrite relay_forwards in *. apply list_elem_of_singleton in Hs as ->.
  cbn in He, Hpr, Hm. injection He as <-. destruct (json_parse _) as [v|] eqn:Hj; [|by cbn in Hm].
  destruct (vget_opt v "model") as [| | | |m| | | |] eqn:Hv; try done. injection Hm as ->.
  by exists policy, pattern, model, v, provider.
Qed.

(** C6. Nothing is sent to a provider but one request that a key of the
    configuration, not revoked, was presented for, whose policy allows the
    endpoint, the provider and the model of the body; it goes to the pinned
    address, carries the provider's credential, and none of the client's. *)
Theorem only_entitled_requests_forwarded config catalog e req upstream sent :
  sent ∈ forwarded (handle config catalog e req upstream) →
  healthy_now e = true ∧ forwarded (handle config catalog e req upstream) = [sent] ∧
  ∃ route key policy model provider,
    entitled config req route key policy model provider ∧
    to_url sent = strip_slashes (baseUrl provider) +:+ pathname req +:+ search req ∧
    header_get "x-api-key" (fwd_headers sent)
      = match route_provider route with Anthropic => Some (apiKey provider) | Openai => None end ∧
    header_get "authorization" (fwd_headers sent)
      = match route_provider route with Anthropic => None | Openai => Some ("Bearer " +:+ apiKey provider) end.
Proof.
  unfold handle. intros Hs.
  destruct (mapRoute _ _) as [route|] eqn:Hr; [|by apply elem_of_nil in Hs].
  destruct (healthy_now e); cbn [negb] in *; [|by apply elem_of_nil in Hs]. split; [done|].
  destruct (extractPresentedKey _) as [presented|] eqn:Hk; cbn [forwarded deny] in *; [|by apply elem_of_nil in Hs].
  destruct (resolveVirtualKey _ _) as [key| |] eqn:Hres; cbn [forwarded deny] in *; try by apply elem_of_nil in Hs.
  apply resolved_key in Hres as [Hrev [i Hfind]].
  destruct (req_body req) as [bytes|] eqn:Hbody; cbn [forwarded] in *; [|by apply elem_of_nil in Hs].
  pose proof Hs as Hs'. apply serve_forwards in Hs' as
    (policy & pattern & model & body & provider & Hp & He & Hpr & Hj & Hm & Hin & Hmatch & Hc & Hurl & Hh & Hall); [|done].
  split; [done|]. exists route, key, policy, model, provider. split.
  - constructor; try done; [by exists presented, i|by exists bytes, body, pattern].
  - rewrite Hh. destruct (forwarded_credentials (req_headers req) (route_provider route) (apiKey provider)). done.
Qed.

(** *** Outcomes *)

(** A body of the provider that breaks off while it is buffered. *)
Definition breaks_off (answer : upstream_answer) : bool :=
  match answer with Answer _ _ _ None => true | _ => false end.

(** The policies of the keys are entries, not names of the prototype. *)
Definition policies_found (config : GatewayConfig) : Prop :=
  Forall (λ key, map_lookup policy_fields (GatewayConfig.policy key) (policies config) ≠ Inherited) (config_keys config).

(** An outcome tells what the client has been told. *)
Definition tells (o : RequestOutcome) (r : Response) : Prop :=
  match out_status o with
  | Status code => resp_status r = code
  | Aborted => resp_status r = 499
  end.

(** A reply and what has been recorded when it is given. *)
Definition accounted (h : handled) : Prop :=
  match replied h with
  | Respond r => ∃ o, recorded h = [o] ∧ tells o r
  | Streaming _ _ s => recorded h = [] ∧ settled s = false ∧ sse_open s = true
  | Reject _ => False
  end.

Lemma deny_accounted e b status reason : accounted (deny e b status reason).
Proof. by eexists. Qed.

Lemma relay_accounted config catalog e b sent answer :
  breaks_off answer = false → accounted (relay config catalog e b sent answer).
Proof.
  destruct answer as [aborted|status headers has_body bytes]; intros Hb; cbn [relay].
  - eexists. split; [done|]. by destruct aborted.
  - destruct (_ && has_body); [done|]. destruct bytes as [bytes|]; [|by destruct has_body]. by eexists.
Qed.

Lemma find_in {A} (P : A → Prop) `{∀ x, Decision (P x)} l i x : list_find P l = Some (i, x) → x ∈ l.
Proof. intros Hf. apply list_find_Some in Hf as [Hf _]. by eapply list_elem_of_lookup_2. Qed.

Lemma serve_accounted config catalog e req route key b bytes upstream :
  policies_found config → key ∈ config_keys config → (∀ sent, breaks_off (upstream sent) = false) →
  accounted (serve config catalog e req route key b bytes upstream).
Proof.
  intros Hp Hk Hu. unfold serve. pose proof (proj1 (Forall_forall _ _) Hp key Hk) as Hkey. cbn beta in Hkey.
  destruct (map_lookup _ _ _) as [policy| |]; [|done|apply deny_accounted].
  unfold Gateway.decide. destruct (match ctx_endpoint _ with Some _ => _ | None => _ end); [|apply deny_accounted].
  destruct (provider_config _ _); [|apply deny_accounted]. destruct (forward_body _ _ _ _). by apply relay_accounted.
Qed.

(** C7. A request for one of the two routes that the health gate lets in gives
    exactly one outcome, which tells the status the client was told, or an open
    stream whose outcome is still to come; the handler does not fail, unless a
    key names a policy that is no entry or the body of the answer breaks off. *)
Theorem every_request_accounted config catalog e req upstream :
  policies_found config → (∀ sent, breaks_off (upstream sent) = false) →
  healthy_now e = true → is_Some (mapRoute (method req) (pathname req)) →
  accounted (handle config catalog e req upstream).
Proof.
  intros Hp Hu He [route Hr]. unfold handle. rewrite Hr, He. cbn [negb].
  destruct (extractPresentedKey _) as [presented|]; [|apply deny_accounted].
  destruct (resolveVirtualKey _ _) as [key| |] eqn:Hres; [|apply deny_accounted..].
  apply resolved_key in Hres as (_ & i & Hi%find_in). destruct (req_body req); [by apply serve_accounted|].
  by eexists.
Qed.

(** A body that breaks off while it is buffered leaves no trace: the request
    has reached the provider, the promise of the handler rejects, and no outcome
    is recorded. *)
Theorem broken_answer_unrecorded config catalog e req status headers has_body sent :
  includes_text (chars "text/event-stream") (chars (default "" (header_get "content-type" headers))) = false →
  sent ∈ forwarded (handle config catalog e req (λ _, Answer status headers has_body None)) →
  recorded (handle config catalog e req (λ _, Answer status headers has_body None)) = [] ∧
  ∃ msg, replied (handle config catalog e req (λ _, Answer status headers has_body None)) = Reject msg.
Proof.
  intros Hsse Hs. unfold handle, serve in *. destruct (mapRoute _ _); [|by apply elem_of_nil in Hs].
  destruct (healthy_now e); cbn [negb] in *; [|by apply elem_of_nil in Hs].
  destruct (extractPresentedKey _); [|by apply elem_of_nil in Hs]. destruct (resolveVirtualKey _ _); [|by apply elem_of_nil in Hs..].
  destruct (req_body req) as [bytes|]; [|by apply elem_of_nil in Hs].
  destruct (Gateway.decide _ _) as [[]|]; [|by apply elem_of_nil in Hs..].
  destruct (provider_config _ _); [|by apply elem_of_nil in Hs]. destruct (forward_body _ _ _ _). unfold relay. rewrite Hsse. by eauto.
Qed.

(** *** Credentials *)

(** The configuration with other credentials for the providers. *)
Definition with_api_keys (apiKeys : GatewayProvider → string) (config : GatewayConfig) : GatewayConfig :=
  Config (tenantId config) (gatewayId config) (evidenceDir config) (evidenceFailureMode config) (captureContentHashes config)
    (injectStreamUsage config) (pricingCatalogPath config) (ingest config)
    ((λ kv, (kv.1, Provider (baseUrl kv.2) (apiKeys kv.1))) <$> config_providers config) (policies config) (config_keys config).

(** What a request's headers say about its sender. *)
Definition sender (config : GatewayConfig) (headers : Headers) : option VirtualKeyResolution :=
  (λ presented, resolveVirtualKey presented (config_keys config)) <$> extractPresentedKey headers.

Lemma provider_config_with apiKeys config p :
  provider_config (config_providers (with_api_keys apiKeys config)) p
  = (λ c, Provider (baseUrl c) (apiKeys p)) <$> provider_config (config_providers config) p.
Proof.
  unfold provider_config, with_api_keys. cbn [config_providers]. induction (config_providers config) as [|[p' c] l IH]; [done|].
  cbn [fmap list_fmap list_find fst]. destruct (base.decide _) as [Hp|_]; [by cbn in Hp; subst|].
  rewrite <- !option_fmap_compose in *. destruct (list_find _ (_ <$> l)) as [[]|], (list_find _ l) as [[]|]; cbn in *; congruence.
Qed.

(** What an observer of the clients and of the evidence sees. *)
Definition observed (h : handled) : list RequestOutcome * reply := (recorded h, replied h).

Lemma relay_observed config catalog e b sent sent' answer :
  observed (relay config catalog e b sent answer) = observed (relay config catalog e b sent' answer).
Proof. destruct answer as [aborted|status headers has_body bytes]; [done|]. cbn [relay]. destruct (_ && _); [done|]. by destruct bytes. Qed.

Lemma serve_observed config catalog e req req' route key b bytes answer apiKeys :
  observed (serve config catalog e req route key b bytes (λ _, answer))
  = observed (serve (with_api_keys apiKeys config) catalog e req' route key b bytes (λ _, answer)).
Proof.
  unfold serve. rewrite provider_config_with. change (described (with_api_keys apiKeys config)) with (described config).
  change (forward_body (with_api_keys apiKeys config)) with (forward_body config).
  cbn [policies with_api_keys]. destruct (Gateway.decide _ _) as [[]|]; [|done..].
  destruct (provider_config _ _); cbn [fmap option_fmap option_map]; [|done]. destruct (forward_body _ _ _ _).
  change (relay (with_api_keys apiKeys config)) with (relay config). apply relay_observed.
Qed.

(** C26. Credentials have no influence on what is recorded and what clients are
    told: with other provider keys, and with headers that present the same
    virtual key in another way, the outcomes and the reply are the same. *)
Theorem credentials_not_observable config catalog e req headers answer apiKeys :
  sender config headers = sender config (req_headers req) →
  observed (handle config catalog e req (λ _, answer))
  = observed (handle (with_api_keys apiKeys config) catalog e
      (Req (method req) (pathname req) (search req) headers (req_body req)) (λ _, answer)).
Proof.
  unfold sender, handle. cbn [method pathname req_headers req_body]. intros Hs.
  destruct (mapRoute _ _) as [route|]; [|done]. destruct (healthy_now e); [|done]. cbn [negb].
  change (config_keys (with_api_keys apiKeys config)) with (config_keys config).
  destruct (extractPresentedKey headers) as [h|], (extractPresentedKey (req_headers req)) as [h'|]; cbn in Hs; try done.
  injection Hs as ->. destruct (resolveVirtualKey _ _); [|done..]. destruct (req_body req); [|done]. apply serve_observed.
Qed.
End Handler.

(** ** Witnesses *)

#[local] Existing Instances toy_hasher latin1_decoder buffering_decoder.

Definition demo_sent : ForwardedRequest :=
  Forwarded "https://a.example/v1/messages" [("x-trace", "1"); ("x-api-key", "sk-a")] (utf8 (quoted "{'model':'claude-x'}")).

Lemma only_entitled_requests_forwarded_witness :
  healthy_now demo_call = true ∧ forwarded (handle demo_config demo_catalog demo_call demo_request (λ _, demo_answer)) = [demo_sent] ∧
  ∃ route key policy model provider,
    entitled demo_config demo_request route key policy model provider ∧
    to_url demo_sent = strip_slashes (baseUrl provider) +:+ pathname demo_request +:+ search demo_request ∧
    header_get "x-api-key" (fwd_headers demo_sent)
      = match route_provider route with Anthropic => Some (apiKey provider) | Openai => None end ∧
    header_get "authorization" (fwd_headers demo_sent)
      = match route_provider route with Anthropic => None | Openai => Some ("Bearer " +:+ apiKey provider) end.
Proof.
  apply (only_entitled_requests_forwarded demo_config demo_catalog demo_call demo_request (λ _, demo_answer)).
  vm_compute. left.
Defined.

Lemma every_request_accounted_witness :
  accounted (handle demo_config demo_catalog demo_call demo_request (λ _, demo_answer)).
Proof.
  apply every_request_accounted; [|done|done|by eexists].
  unfold policies_found. cbn [demo_config config_keys policies]. unfold demo_keys. repeat constructor; vm_compute; discriminate.
Defined.

Lemma broken_answer_unrecorded_witness :
  recorded (handle demo_config demo_catalog demo_call demo_request (λ _, Answer 200 [] true None)) = [] ∧
  ∃ msg, replied (handle demo_config demo_catalog demo_call demo_request (λ _, Answer 200 [] true None)) = Reject msg.
Proof. apply (broken_answer_unrecorded _ _ _ _ 200 [] true demo_sent); [reflexivity|]. vm_compute. left. Defined.

(** The same virtual key in the other header. *)
Lemma credentials_not_observable_witness :
  observed (handle demo_config demo_catalog demo_call demo_request (λ _, demo_answer))
  = observed (handle (with_api_keys (λ _, "other") demo_config) demo_catalog demo_call
      (Req "POST" "/v1/messages" "" [("x-api-key", "vk_a")] (req_body demo_request)) (λ _, demo_answer)).
Proof.
  apply (credentials_not_observable demo_config demo_catalog demo_call demo_request [("x-api-key", "vk_a")]). vm_compute. reflexivity.
Defined.
