(* ===== verification/GatewayStream.v ===== *)
(** * Event streams of the gateway

    The usage accumulator reads a stream character by character ([push]), so the
    boundaries of chunks mean nothing to it; a stream is settled once, whichever
    event ends it, and its hash is the hash of what the client was given. *)

From S2P Require Import Prelude Regex JsNum JsVal Dates JsonText Hash Demo.
From S2P Require Import Binary64 GatewayConfig Gateway GatewayProxy GatewayDemo.

#[local] Open Scope Z_scope.
#[local] Arguments json_parse : simpl never.
#[local] Arguments consumeLine : simpl never.

(** ** The accumulator *)

(** Reference: one character. *)
Definition push (provider : GatewayProvider) (a : accumulator) (c : ascii) : accumulator :=
  if Ascii.eqb c newline_char then
    let a := consumeLine provider a (buffer a) in Acc [] (acc_input a) (acc_output a)
  else Acc (buffer a ++ [c]) (acc_input a) (acc_output a).

Lemma cut_line_spec l :
  match cut_line l with
  | None => newline_char ∉ l
  | Some (line, rest) => l = line ++ newline_char :: rest ∧ newline_char ∉ line
  end.
Proof.
  induction l as [|c l IH]; cbn [cut_line]; [apply not_elem_of_nil|].
  destruct (Ascii.eqb_spec c newline_char) as [->|Hc]; [split; [done|apply not_elem_of_nil]|].
  destruct (cut_line l) as [[line rest]|]; cbn [mbind option_bind].
  - destruct IH as [-> Hn]. split; [done|]. by intros [<-|?]%elem_of_cons.
  - by intros [<-|?]%elem_of_cons.
Qed.

Lemma consumeLine_counts p a a' line :
  acc_input a = acc_input a' → acc_output a = acc_output a' →
  acc_input (consumeLine p a line) = acc_input (consumeLine p a' line) ∧
  acc_output (consumeLine p a line) = acc_output (consumeLine p a' line).
Proof.
  intros Hi Ho. unfold consumeLine. destruct (expect _ _) as [rest|]; [|done]. destruct (_ || _); [done|].
  destruct (json_parse _) as [frame|]; [|done].
  assert (∀ partial, acc_input (absorb_partial partial a) = acc_input (absorb_partial partial a') ∧
    acc_output (absorb_partial partial a) = acc_output (absorb_partial partial a')) as Hp.
  { intros [[]|]; cbn; by rewrite ?Hi, ?Ho. }
  unfold absorb. destruct p; [|apply Hp]. destruct (strict_eq _ _); [apply Hp|]. destruct (strict_eq _ _); [apply Hp|done].
Qed.

Lemma push_line p line a :
  newline_char ∉ line → fold_left (push p) line a = Acc (buffer a ++ line) (acc_input a) (acc_output a).
Proof.
  revert a. induction line as [|c line IH]; intros a Hn; cbn [fold_left].
  - rewrite app_nil_r. by destruct a.
  - apply not_elem_of_cons in Hn as [Hc Hn]. rewrite IH by done. unfold push.
    destruct (Ascii.eqb_spec c newline_char) as [->|]; [done|]. cbn. by rewrite <- app_assoc.
Qed.

Lemma feed_loop_push p fuel a :
  (length (buffer a) < fuel)%nat →
  feed_loop fuel p a = fold_left (push p) (buffer a) (Acc [] (acc_input a) (acc_output a)).
Proof.
  revert a. induction fuel as [|fuel IH]; intros a Hf; [lia|]. cbn [feed_loop].
  pose proof (cut_line_spec (buffer a)) as Hc. destruct (cut_line (buffer a)) as [[line rest]|].
  - destruct Hc as [Hb Hn]. rewrite IH by (rewrite Hb, length_app in Hf; cbn in *; lia). cbn [buffer acc_input acc_output].
    rewrite Hb, fold_left_app, (push_line p line) by done. cbn [fold_left app buffer acc_input acc_output].
    unfold push at 3. rewrite Ascii.eqb_refl. cbn [buffer].
    destruct (consumeLine_counts p a (Acc line (acc_input a) (acc_output a)) line) as [H1 H2]; [done..|].
    by rewrite H1, H2.
  - rewrite push_line by done. by destruct a.
Qed.

(** A buffer between two feeds has no complete line. *)
Definition between (a : accumulator) : Prop := newline_char ∉ buffer a.

Lemma push_between p l a : between a → between (fold_left (push p) l a).
Proof.
  revert a. induction l as [|c l IH]; intros a Ha; [done|]. apply IH. unfold push, between.
  destruct (Ascii.eqb_spec c newline_char) as [|Hc]; cbn; [apply not_elem_of_nil|].
  intros [H|H%list_elem_of_singleton]%elem_of_app; [by apply Ha|by subst].
Qed.

Lemma feed_push p a l : between a → feed p a l = fold_left (push p) l a.
Proof.
  intros Ha. unfold feed. rewrite feed_loop_push by (cbn; lia). cbn [buffer acc_input acc_output].
  rewrite fold_left_app, (push_line p (buffer a)) by done. by destruct a.
Qed.

Lemma feed_between p a l : between a → between (feed p a l).
Proof. intros Ha. rewrite feed_push by done. by apply push_between. Qed.

Lemma feed_app p a l l' : between a → feed p (feed p a l) l' = feed p a (l ++ l').
Proof.
  intros Ha. rewrite (feed_push p (feed p a l)) by by apply feed_between. by rewrite !feed_push, fold_left_app by done.
Qed.

(** ** Settlement *)

Section Streams.
Context `{HS : Hasher} `{TD : TextDecoder} `{SD : !StreamDecoder}.
Context (config : GatewayConfig) (catalog : PricingCatalog) (startedAt : Z).

(** Has one of these events ended the stream? A cancelled stream waits for its release. *)
Fixpoint ended (readable : bool) (es : list stream_event) : bool :=
  match es with
  | [] => false
  | Chunk _ :: es => ended readable es
  | StreamEnd _ :: es => readable || ended readable es
  | ClientCancel :: es => ended false es
  | ReadFailed _ _ :: _ | CancelDone _ :: _ => true
  end.

Lemma settled_stays s es :
  settled s = true → settled (stream_run config catalog startedAt s es).1 = true ∧
    (stream_run config catalog startedAt s es).2 = [].
Proof.
  revert s. induction es as [|e es IH]; intros s Hs; [done|]. cbn [stream_run].
  assert (settled (stream_step config catalog startedAt s e).1 = true ∧ (stream_step config catalog startedAt s e).2 = []) as [H1 H2].
  { destruct e; cbn [stream_step]; unfold settle; cbn [settled close]; rewrite ?Hs; try done.
    - by destruct (decode_chunk _ _).
    - by destruct (sse_open s); cbn; rewrite ?Hs. }
  destruct (stream_step _ _ _ s e) as [s' o]. cbn in H1, H2. subst. destruct (IH s' H1) as [H3 H4].
  by destruct (stream_run _ _ _ s' es).
Qed.

(** What the outcome of a stream can be: the provider's status with what was
    metered, or that the client has gone. *)
Definition stream_outcome (s : sse) (o : RequestOutcome) : Prop :=
  policyDecision o = Allowed ∧ requestId o = base_requestId (sse_base s) ∧
  (out_status o = Status (sse_status s) ∨ out_status o = Aborted ∧ kind o = Failed).

Lemma settle_ended s o : settled s = false → (settle s o).2 = [o] ∧ settled (settle s o).1 = true.
Proof. intros Hs. unfold settle. by rewrite Hs. Qed.

Lemma run_after_settle s o es :
  settled s = false → (stream_run config catalog startedAt (settle s o).1 es).2 = [].
Proof. intros Hs. by apply settled_stays, settle_ended. Qed.

Lemma stream_cons s e es :
  stream_run config catalog startedAt s (e :: es)
  = let '(s', os) := stream_run config catalog startedAt (stream_step config catalog startedAt s e).1 es in
    (s', (stream_step config catalog startedAt s e).2 ++ os).
Proof. cbn [stream_run]. by destruct (stream_step _ _ _ s e). Qed.

(** Exactly one outcome is recorded for an event stream, by whichever comes
    first of its end, a failed read and the release after a cancellation, and
    none before; it names the request and the status of the provider, or that
    the client has gone. *)
Theorem stream_settled_once s es :
  settled s = false →
  ∃ os, (stream_run config catalog startedAt s es).2 = os ∧ Forall (stream_outcome s) os ∧
    length os = if ended (sse_open s) es then 1%nat else 0%nat.
Proof.
  revert s. induction es as [|e es IH]; intros s Hs; [by exists []|]. rewrite stream_cons.
  assert (∀ s' o, settled s' = false → stream_outcome s o →
    ∃ os, (let '(s'', os) := stream_run config catalog startedAt (settle s' o).1 es in (s'', (settle s' o).2 ++ os)).2 = os ∧
      Forall (stream_outcome s) os ∧ length os = 1%nat) as Hend.
  { intros s' o Hs' Ho. pose proof (run_after_settle s' o es Hs') as Hr. destruct (stream_run _ _ _ _ es) as [s'' os].
    cbn in Hr. subst os. exists [o]. unfold settle. rewrite Hs'. split_and!; [done| |done]. by constructor. }
  destruct e as [bytes|now|aborted now| |now]; cbn [stream_step ended].
  - destruct (decode_chunk _ _) as [text d]. destruct (IH (Sse (sse_base s) (sse_status s)
      (feed (route_provider (base_route (sse_base s))) (sse_acc s) text) d (sse_hashed s ++ bytes)
      (if sse_open s then sse_delivered s ++ bytes else sse_delivered s) (sse_open s) (settled s)) Hs) as (os & Hr & H).
    cbn [fst snd]. destruct (stream_run _ _ _ _ es). by exists os.
  - destruct (sse_open s) eqn:Hopen; cbn [orb fst snd].
    + apply Hend; [done|]. split; [done|]. split; [done|]. by left.
    + destruct (IH s Hs) as (os & Hr & H). rewrite Hopen in H. destruct (stream_run _ _ _ s es). by exists os.
  - apply Hend; [done|]. split; [done|]. split; [done|]. destruct aborted; [by right|by left].
  - destruct (IH (close s) Hs) as (os & Hr & H). cbn [fst snd]. destruct (stream_run _ _ _ (close s) es). by exists os.
  - apply Hend; [done|]. split; [done|]. split; [done|]. by right.
Qed.

(** ** What is metered *)

(** The usage a provider reported in these bytes. *)
Definition metered (provider : GatewayProvider) (bytes : list Z) : option Usage :=
  usage_of provider (feed provider no_usage (chars (decode_utf8 bytes))).

Definition sse_provider (s : sse) : GatewayProvider := route_provider (base_route (sse_base s)).

(** The accumulator and the decoder have seen what has been hashed. *)
Definition in_step (s : sse) : Prop :=
  ∃ chunks text, concat chunks = sse_hashed s ∧ sse_acc s = feed (sse_provider s) no_usage text ∧
    ∀ more, text ++ decoded decode_chunk decode_end (sse_decoder s) more = chars (decode_utf8 (concat (chunks ++ more))).

Lemma no_usage_between : between no_usage.
Proof. apply not_elem_of_nil. Qed.

Lemma in_step_chunk s bytes : in_step s → in_step (stream_step config catalog startedAt s (Chunk bytes)).1.
Proof.
  intros (chunks & text & Hc & Ha & Hd). cbn [stream_step]. destruct (decode_chunk _ bytes) as [t d] eqn:Hdec.
  exists (chunks ++ [bytes]), (text ++ t). cbn [fst sse_hashed sse_acc sse_decoder sse_provider sse_base]. split_and!.
  - rewrite concat_app, Hc. cbn. by rewrite app_nil_r.
  - rewrite Ha. apply feed_app, no_usage_between.
  - intros more. rewrite <- !app_assoc.
    rewrite <- Hd. change ([bytes] ++ more) with (bytes :: more). cbn [decoded]. by rewrite Hdec.
Qed.

Lemma streamed_outcome_metered s now :
  in_step s → streamedOutcome config catalog startedAt s now
  = answered config catalog (sse_base s) (sse_status s) (now - startedAt) (metered (sse_provider s) (sse_hashed s)) (sse_hashed s).
Proof.
  intros (chunks & text & Hc & Ha & Hd). unfold streamedOutcome, metered. fold (sse_provider s).
  specialize (Hd []). cbn [decoded] in Hd. rewrite app_nil_r, Hc in Hd. rewrite <- Hd, Ha.
  by rewrite feed_app by apply no_usage_between.
Qed.

(** The event that settles a stream, where one does. *)
Fixpoint ending (readable : bool) (es : list stream_event) : option stream_event :=
  match es with
  | [] => None
  | Chunk _ :: es => ending readable es
  | StreamEnd _ as e :: es => if readable then Some e else ending readable es
  | ClientCancel :: es => ending false es
  | ReadFailed _ _ as e :: _ | CancelDone _ as e :: _ => Some e
  end.

(** The bytes the client is given: those of the chunks until its stream closes. *)
Fixpoint given (readable : bool) (es : list stream_event) : list Z :=
  match es with
  | [] => []
  | Chunk bytes :: es => (if readable then bytes else []) ++ given readable es
  | CancelDone _ :: es => given readable es
  | StreamEnd _ :: es | ReadFailed _ _ :: es | ClientCancel :: es => given false es
  end.

Lemma given_closed es : given false es = [].
Proof. by induction es as [|[]]. Qed.

Lemma delivered_given s es :
  sse_delivered (stream_run config catalog startedAt s es).1 = sse_delivered s ++ given (sse_open s) es.
Proof.
  revert s. induction es as [|e es IH]; intros s; [by rewrite app_nil_r|]. rewrite stream_cons.
  specialize (IH (stream_step config catalog startedAt s e).1). destruct (stream_run _ _ _ _ es) as [s' os]. cbn [fst] in *. rewrite IH. clear.
  destruct e; cbn [stream_step given settle close sse_delivered sse_open fst].
  - destruct (decode_chunk _ _). cbn. destruct (sse_open s); [by rewrite app_assoc|done].
  - destruct (sse_open s) eqn:E; cbn; by rewrite ?E.
  - done.
  - done.
  - done.
Qed.

(** The evidence of a stream that [e] settled when the client had been given
    [bytes]: at the provider's end the usage and cost of the bytes read as one
    piece, and their hash; after a failed read or a cancellation none of these. *)
Definition settled_by (b : outcome_base) (status : Z) (bytes : list Z) (e : stream_event) (o : RequestOutcome) : Prop :=
  let counted := metered (route_provider (base_route b)) bytes in
  requestId o = base_requestId b ∧ out_keyId o = base_keyId b ∧ model o = base_model b ∧ policyDecision o = Allowed ∧
  match e with
  | StreamEnd now =>
      kind o = (if is_ok status then Completed else Failed) ∧ out_status o = Status status ∧ latencyMs o = now - startedAt ∧
      usage o = counted ∧
      costMicroUsd o = match counted, base_model b with Some u, Some m => computeCostMicroUsd u m catalog | _, _ => None end ∧
      responseBodyHash o = if captureContentHashes config then Some (sha256Bytes bytes) else None
  | ReadFailed _ now | CancelDone now =>
      kind o = Failed ∧ out_status o = (match e with ReadFailed false _ => Status status | _ => Aborted end) ∧
      latencyMs o = now - startedAt ∧ usage o = None ∧ costMicroUsd o = None ∧ responseBodyHash o = None
  | Chunk _ | ClientCancel => False
  end.

Lemma settles_once s o es P : settled s = false → P o →
  ∃ o', (let '(s', os) := stream_run config catalog startedAt (settle s o).1 es in (s', (settle s o).2 ++ os)).2 = [o'] ∧ P o'.
Proof.
  intros Hs Ho. pose proof (run_after_settle s o es Hs) as Hr. destruct (stream_run _ _ _ (settle s o).1 es) as [s' os].
  cbn [fst snd] in *. subst os. unfold settle. rewrite Hs. by exists o.
Qed.

Lemma evidence_settled es : ∀ s, in_step s → settled s = false → (sse_open s = true → sse_hashed s = sse_delivered s) →
  let outcomes := (stream_run config catalog startedAt s es).2 in
  match ending (sse_open s) es with
  | None => outcomes = []
  | Some e => ∃ o, outcomes = [o] ∧ settled_by (sse_base s) (sse_status s) (sse_delivered s ++ given (sse_open s) es) e o
  end.
Proof.
  cbv zeta. induction es as [|e es IH]; intros s Hi Hs Ho; [done|]. rewrite stream_cons.
  destruct e as [bytes|now|aborted now| |now]; cbn [ending given].
  - pose proof (in_step_chunk s bytes Hi) as Hi'. cbn [stream_step] in *. destruct (decode_chunk _ _) as [text d]. cbn [fst snd] in *.
    specialize (IH _ Hi' Hs). cbn [sse_hashed sse_delivered sse_open sse_base sse_status] in IH.
    destruct (stream_run _ _ _ _ es). cbn [snd app] in *. destruct (sse_open s); [|by apply IH].
    rewrite app_assoc. apply IH. intros _. by rewrite Ho.
  - cbn [stream_step]. destruct (sse_open s) eqn:Hopen.
    + apply (settles_once (close s)); [done|]. rewrite given_closed, app_nil_r, streamed_outcome_metered, Ho by done. by split_and!.
    + specialize (IH s Hi Hs). rewrite Hopen in IH. cbn [fst snd]. destruct (stream_run _ _ _ s es). by apply IH.
  - apply (settles_once (close s)); [done|]. by destruct aborted; split_and!.
  - specialize (IH (close s) Hi Hs ltac:(done)). cbn [stream_step fst snd]. by destruct (stream_run _ _ _ (close s) es).
  - apply (settles_once s); [done|]. by split_and!.
Qed.

(** C28. A stream is settled once, by the event that ends it, and its evidence does not
    depend on how its bytes arrive: at the provider's end, usage, cost and hash are
    those of the bytes the client was given, as if they had come in one piece; after
    a failed read or a cancellation the outcome is a failure with none of them; and
    before the stream has ended there is no outcome. *)
Theorem stream_evidence_of_delivered b status es :
  let r := stream_run config catalog startedAt (Sse b status no_usage new_decoder [] [] true false) es in
  sse_delivered r.1 = given true es ∧
  match ending true es with
  | None => r.2 = []
  | Some e => ∃ o, r.2 = [o] ∧ settled_by b status (given true es) e o
  end.
Proof.
  split; [apply delivered_given|]. apply (evidence_settled es (Sse b status no_usage new_decoder [] [] true false)); [|done..].
  exists [], []. split_and!; [done|done|]. intros more. apply decoded_spec.
Qed.
End Streams.

(** ** Witness *)

#[local] Existing Instances toy_hasher latin1_decoder buffering_decoder.

Definition demo_base : outcome_base := Base "req_1" "1970-01-01T00:00:00.000Z" (Some "team-a") (RouteTo Anthropic Messages) (Some "claude-x") true None false.
Definition demo_stream : sse := Sse demo_base 200 no_usage new_decoder [] [] true false.

(** A client that cancels before the provider's stream ends. *)
Lemma stream_settled_once_witness :
  ∃ os, (stream_run demo_config demo_catalog 0 demo_stream [Chunk [100]; ClientCancel; StreamEnd 7; CancelDone 9]).2 = os ∧
    Forall (stream_outcome demo_stream) os ∧ length os = 1%nat.
Proof.
  apply (stream_settled_once demo_config demo_catalog 0 demo_stream [Chunk [100]; ClientCancel; StreamEnd 7; CancelDone 9]). reflexivity.
Defined.

(** Two chunks and the provider's end, and after it a late cancellation. *)
Lemma stream_evidence_of_delivered_witness :
  ∃ o, (stream_run demo_config demo_catalog 0 demo_stream [Chunk [100]; Chunk [101; 10]; StreamEnd 7; ClientCancel; CancelDone 9]).2 = [o] ∧
    kind o = Completed ∧ latencyMs o = 7 ∧ usage o = metered Anthropic [100; 101; 10].
Proof.
  destruct (stream_evidence_of_delivered demo_config demo_catalog 0 demo_base 200 [Chunk [100]; Chunk [101; 10]; StreamEnd 7; ClientCancel; CancelDone 9])
    as [_ (o & E & _ & _ & _ & _ & H1 & _ & H2 & H3 & _)].
  exists o. split; [exact E|]. split; [exact H1|]. split; [exact H2|exact H3].
Defined.
