(* ===== verification/GatewayEvidence.v ===== *)
(** * The events of the gateway's outcomes

    [buildOutcomeEvent] feeds [createAuditEvent], whose redaction looks at keys:
    the vocabulary of the gateway has none that is redacted, so an event says all
    that the outcome does. An event is refused for a blank key id or a cost that
    is no finite number. *)

From S2P Require Import Doubles Prelude Regex JsNum JsVal Dates JsonText Hash Canonical Redact Event Demo.
From S2P Require Import Binary64 GatewayConfig Gateway.

(** The keys of the metadata of an outcome. *)
Definition metadata_keys : list string :=
  ["gatewayId"; "provider"; "stream"; "status"; "latencyMs"; "policyDecision"; "endpoint"; "model"; "denyReason"; "usage";
   "costBasis"; "costMicroUsd"; "requestBodyHash"; "responseBodyHash"; "mutatedRequest"].

Lemma metadata_keys_plain k : k ∈ metadata_keys → sensitive k = false ∧ k ≠ "__proto__" ∧ k ≠ "digest".
Proof.
  assert (Forall (λ k, sensitive k = false ∧ k ≠ "__proto__" ∧ k ≠ "digest") metadata_keys) as HF.
  { unfold metadata_keys. repeat (apply Forall_cons_2; [split; [vm_compute; reflexivity|done]|]). apply Forall_nil_2. }
  rewrite Forall_forall in HF. auto.
Qed.

Lemma keys_opt_field k o : keys (opt_field k o) `sublist_of` [k].
Proof. destruct o; cbn; [done|apply sublist_nil_l]. Qed.

Lemma metadata_keys_of o cfg : keys (outcome_metadata o cfg) `sublist_of` metadata_keys.
Proof.
  unfold outcome_metadata, keys, metadata_keys. rewrite !fmap_app.
  apply (sublist_app _ ["gatewayId"; "provider"; "stream"; "status"; "latencyMs"; "policyDecision"]); [done|].
  do 3 (apply (sublist_app _ [_]); [apply keys_opt_field|]).
  apply (sublist_app _ ["usage"; "costBasis"]); [destruct (usage o); [done|apply sublist_nil_l]|].
  do 3 (apply (sublist_app _ [_]); [apply keys_opt_field|]). apply keys_opt_field.
Qed.

(** The numbers of an outcome: counts from JSON, a cost that is finite. *)
Definition counts_ok (o : RequestOutcome) : Prop :=
  ∀ u, usage o = Some u → is_json (VNum (inputTokens u)) = true ∧ is_json (VNum (outputTokens u)) = true.
Definition cost_finite (o : RequestOutcome) : Prop :=
  ∀ c, costMicroUsd o = Some c → is_finite (num_of_b64 c) = true.

Lemma num_of_b64_wf x : num_wf (num_of_b64 x) = true.
Proof.
  destruct x as [|neg|neg m e]; [done|done|]. cbn -[first_some decimals_at]. destruct (m =? 0)%Z; [done|].
  destruct (if (0 <=? e)%Z then _ else _) as [a b].
  assert (∀ l n, first_some (decimals_at (BFin false m e) a b) l = Some n → num_wf n = true) as Hf.
  { induction l as [|p l IH]; intros n; cbn [first_some]; [done|]. destruct (decimals_at _ _ _ _) as [n'|] eqn:Hd; [|apply IH].
    intros [= ->]. unfold decimals_at in Hd. destruct (if (0 <=? p)%Z then _ else _) as [a' b'].
    destruct (closest _ _ _); cbn in Hd; [|done]. injection Hd as <-. apply mk_num_wf. }
  destruct (first_some _ _) as [n|] eqn:Hn; [|done]. apply Hf in Hn. destruct neg; [|done].
  destruct n as [| |m' e']; try done. cbn in *. apply orb_true_iff in Hn as [H|H]; apply orb_true_iff; [left; lia|right].
  rewrite negb_true_iff, Z.eqb_neq in *. intros Hm. apply H. rewrite <- (Z.opp_involutive m').
  by apply Z_mod_zero_opp_full.
Qed.

#[local] Arguments num_of_b64 : simpl never.
#[local] Arguments sensitive : simpl never.

Lemma redact_usage a b :
  is_finite a = true → is_finite b = true →
  redactAny (VObj [("input", VNum a); ("output", VNum b)]) "usage" = Ret (VObj [("input", VNum a); ("output", VNum b)]).
Proof.
  intros Ha Hb. rewrite redactAny_obj by (vm_compute; reflexivity). cbn [sanitizeDigestEnvelope is_plain_object].
  change (sanitizeDigestEnvelope _) with (@None val). cbv iota.
  change (sort_fields _) with [("input", redact_field ("input", VNum a)); ("output", redact_field ("output", VNum b))].
  unfold redact_field. cbn [is_undef fst snd redactAny].
  change (sensitive "input") with false. change (sensitive "output") with false. cbv iota. by rewrite Ha, Hb.
Qed.

(** Fields whose value stays as it is. *)
Definition kept_field (kv : string * val) : Prop := is_json kv.2 = true ∧ redactAny kv.2 kv.1 = Ret kv.2.

Lemma kept_leaf k v :
  k ∈ metadata_keys → is_json v = true → match v with VStr _ | VBool _ | VNum _ => True | _ => False end → kept_field (k, v).
Proof.
  intros [Hs _]%metadata_keys_plain Hj Hv. split; [done|]. cbn. destruct v; try done; cbn [redactAny]; rewrite Hs; try done.
  cbn in Hj. apply andb_true_iff in Hj as [_ ->]. done.
Qed.

Lemma kept_opt k o :
  (∀ v, o = Some v → kept_field (k, v)) → Forall kept_field (opt_field k o).
Proof. intros H. destruct o as [v|]; cbn; [|constructor]. constructor; [by apply H|constructor]. Qed.

Ltac kept := repeat first [apply Forall_cons_2 | apply Forall_nil_2];
  apply kept_leaf; [unfold metadata_keys; set_solver|first [done|apply is_json_int]|done].

Lemma metadata_kept o cfg : counts_ok o → cost_finite o → Forall kept_field (outcome_metadata o cfg).
Proof.
  intros Hu Hc. unfold outcome_metadata.
  repeat (apply Forall_app; split).
  - repeat (apply Forall_cons_2 || apply Forall_nil_2); try kept. destruct (out_status o); kept.
  - apply kept_opt. destruct (out_endpoint o); intros v [= <-]; kept.
  - apply kept_opt. destruct (model o); intros v [= <-]; kept.
  - apply kept_opt. destruct (denyReason o); intros v [= <-]; kept.
  - destruct (usage o) as [u|] eqn:E; [|constructor]. destruct (Hu u E) as [Hi Ho].
    apply Forall_cons_2; [|kept]. split; cbn [snd fst].
    + cbn in *. by rewrite Hi, Ho.
    + cbn in Hi, Ho. apply andb_true_iff in Hi as [_ Hi], Ho as [_ Ho]. by apply redact_usage.
  - apply kept_opt. destruct (costMicroUsd o) as [c|] eqn:E; intros v [= <-]. apply kept_leaf; [unfold metadata_keys; set_solver| |done].
    cbn. by rewrite num_of_b64_wf, (Hc c).
  - apply kept_opt. destruct (requestBodyHash o); intros v [= <-]; kept.
  - apply kept_opt. destruct (responseBodyHash o); intros v [= <-]; kept.
  - apply kept_opt. destruct (mutatedRequest o); intros v [= <-]; kept.
Qed.

Lemma metadata_not_envelope o cfg : sanitizeDigestEnvelope (VObj (outcome_metadata o cfg)) = None.
Proof.
  unfold sanitizeDigestEnvelope. cbn [is_plain_object negb vget_opt].
  destruct (obj_get "digest" (outcome_metadata o cfg)) as [v|] eqn:E; [|done]. exfalso.
  apply obj_get_elem in E. assert ("digest" ∈ metadata_keys) as (_ & _ & H)%metadata_keys_plain; [|done].
  eapply elem_of_sublist; [|apply metadata_keys_of]. apply list_elem_of_fmap. by exists ("digest", v).
Qed.

Lemma metadata_redacted o cfg :
  counts_ok o → cost_finite o → ∃ m, redactMetadata (VObj (outcome_metadata o cfg)) = Ret (VObj m) ∧
    ∀ k, k ≠ "__proto__" → obj_get k m = obj_get k (outcome_metadata o cfg).
Proof.
  intros Hu Hc. pose proof (metadata_kept o cfg Hu Hc) as Hk. unfold redactMetadata.
  rewrite redactAny_obj by (vm_compute; reflexivity). rewrite metadata_not_envelope.
  destruct (fold_assign_total (sort_fields ((λ kv, (kv.1, redact_field kv)) <$> outcome_metadata o cfg)) []) as [m Hm].
  { unfold sort_fields. rewrite sort_by_perm. apply Forall_fmap. eapply Forall_impl; [exact Hk|]. intros kv [Hj Hr].
    cbn. unfold redact_field. by rewrite Hr, (json_not_undef _ Hj). }
  exists m. rewrite Hm. split; [done|]. intros k Hp.
  assert (is_json (VObj (outcome_metadata o cfg)) = true) as Hj.
  { apply is_json_obj. split; [by eapply keys_ordered_sublist; [apply metadata_keys_of|]|].
    eapply Forall_impl; [exact Hk|]. by intros kv [H _]. }
  pose proof (redact_fields_get _ _ k Hj Hp Hm) as Hg. destruct (obj_get k (outcome_metadata o cfg)) as [v|] eqn:Hv; [|done].
  destruct Hg as (w & Hw & Hg). apply obj_get_elem in Hv. rewrite Forall_forall in Hk. destruct (Hk _ Hv) as [_ Hr]. cbn in Hr. congruence.
Qed.

Lemma cost_field o cfg c :
  costMicroUsd o = Some c → ("costMicroUsd", VNum (num_of_b64 c)) ∈ outcome_metadata o cfg.
Proof. intros Ec. unfold outcome_metadata. rewrite Ec, !elem_of_app. do 5 right. left. by left. Qed.

Lemma metadata_refused o cfg :
  ¬ cost_finite o → is_ret (redactMetadata (VObj (outcome_metadata o cfg))) = false.
Proof.
  intros Hc. unfold redactMetadata. rewrite redactAny_obj by (vm_compute; reflexivity). rewrite metadata_not_envelope.
  destruct (fold_left _ _ _) as [m|] eqn:Hm; [|done]. exfalso. apply Hc. intros c Ec.
  apply fold_assign_ret in Hm. unfold sort_fields in Hm. rewrite sort_by_perm in Hm. apply Forall_fmap in Hm.
  rewrite Forall_forall in Hm. specialize (Hm ("costMicroUsd", VNum (num_of_b64 c))). cbn in Hm.
  assert (sensitive "costMicroUsd" = false) as Hs by (vm_compute; reflexivity). unfold redact_field in Hm. cbn in Hm.
  rewrite Hs in Hm. destruct (is_finite _); [done|]. discriminate Hm. by apply cost_field.
Qed.

(** ** Properties *)

Section Events.
Context `{HO : Host}.

(** An outcome as the handler makes it: a date, and counts read from JSON. *)
Record outcome_wf (o : RequestOutcome) : Prop := {
  wf_date : is_Some (date_value (VStr (occurredAt o)));
  wf_counts : counts_ok o;
}.

Lemma kind_action k : re_test ACTION_PATTERN ("ai.request." +:+ kind_name k) = true.
Proof. destruct k; vm_compute; reflexivity. Qed.

Lemma target_named o : non_blank_string (vget_opt (outcome_target o) "id") = true ∧ non_blank_string (vget_opt (outcome_target o) "type") = true.
Proof. unfold outcome_target. destruct (model o), (out_provider o); done. Qed.

(** What an event says outside its metadata [m]. *)
Record says (o : RequestOutcome) (cfg : GatewayEvidenceConfig) (event m : val) : Prop := {
  says_actor : vget_opt event "actor" = typed "service" (default "unknown" (out_keyId o));
  says_action : vget_opt event "action" = VStr ("ai.request." +:+ kind_name (kind o));
  says_target : vget_opt event "target" =
    match model o with
    | Some name => typed "model" (provider_name (out_provider o) +:+ ":" +:+ name)
    | None => typed "provider" (provider_name (out_provider o))
    end;
  says_tenant : cfg_tenantId cfg ≠ "" → vget_opt (vget_opt event "scope") "tenantId" = VStr (cfg_tenantId cfg);
  says_request : requestId o ≠ "" → vget_opt event "requestId" = VStr (requestId o);
  says_time : ∃ t, date_value (VStr (occurredAt o)) = Some t ∧ vget_opt event "occurredAt" = VStr (toISOString t);
  says_metadata : vget_opt event "metadata" = m;
}.

Lemma outcome_event uuid now o cfg m :
  blank (default "unknown" (out_keyId o)) = false → outcome_wf o →
  redactMetadata (VObj (outcome_metadata o cfg)) = Ret m →
  ∃ event, createAuditEvent uuid now (buildOutcomeEvent o cfg) = Ret event ∧ says o cfg event m.
Proof.
  intros Hb [[t Ht] _] Hm. destruct (target_named o) as [Hti Htt].
  assert (cleanResource (outcome_target o) = Ret (outcome_target o)) as Hr by by (unfold outcome_target; destruct (model o)).
  assert (∃ scope, optional_scope (VObj [("tenantId", VStr (cfg_tenantId cfg))]) = Ret scope ∧
    (cfg_tenantId cfg ≠ "" → scope = Some (VObj [("tenantId", VStr (cfg_tenantId cfg))]))) as (scope & Hs & Hsc).
  { eexists. split; [by cbn; unfold cleanScope|]. by destruct (cfg_tenantId cfg). }
  eexists. split.
  - apply createAuditEvent_ret. exists ("ai.request." +:+ kind_name (kind o)), t, (typed "service" (default "unknown" (out_keyId o))).
    do 3 eexists. split_and!; try done.
    + cbn. by rewrite Hb.
    + apply kind_action.
  - constructor; try done.
    + intros Hne. by rewrite (Hsc Hne).
    + intros Hne. destruct scope, (requestId o) eqn:Er; try done; cbn; by rewrite Er.
    + by exists t.
Qed.

(** Which outcomes have an event: those whose key id is not blank and whose
    cost, when there is one, is a finite number. For any other outcome the sink
    fails however often it is asked. *)
Theorem outcome_has_event uuid now o cfg :
  outcome_wf o →
  is_ret (createAuditEvent uuid now (buildOutcomeEvent o cfg)) = true ↔
  blank (default "unknown" (out_keyId o)) = false ∧ cost_finite o.
Proof.
  intros Hwf. split.
  - intros [event E]%is_ret_spec. apply createAuditEvent_ret in E as (a & t & actor & target & m & scope & Hi & _ & _ & _ & _ & _ & _ & _ & _ & _ & Hm & _).
    split; [by apply negb_true_iff in Hi|]. intros c Ec. destruct (is_finite (num_of_b64 c)) eqn:Ef; [done|]. exfalso.
    pose proof (metadata_refused o cfg) as Hr. change (redactMetadata (VObj (outcome_metadata o cfg)) = Ret m) in Hm.
    rewrite Hm in Hr. discriminate Hr. intros Hf. by rewrite (Hf c Ec) in Ef.
  - intros [Hb Hc]. destruct (metadata_redacted o cfg (wf_counts _ Hwf) Hc) as (m & Hm & _).
    destruct (outcome_event uuid now o cfg _ Hb Hwf Hm) as (event & -> & _). done.
Qed.

(** The metadata of an outcome by field; [said] is what is stored under a key. *)
Definition shown {A} (f : A → val) (o : option A) : val := default VUndef (f <$> o).

Record says_outcome (o : RequestOutcome) (cfg : GatewayEvidenceConfig) (said : string → val) : Prop := {
  said_gateway : said "gatewayId" = VStr (cfg_gatewayId cfg);
  said_provider : said "provider" = VStr (provider_name (out_provider o));
  said_stream : said "stream" = VBool (stream o);
  said_status : said "status" = match out_status o with Status code => VInt code | Aborted => VStr "aborted" end;
  said_latency : said "latencyMs" = VInt (latencyMs o);
  said_decision : said "policyDecision" = VStr (decision_name (policyDecision o));
  said_endpoint : said "endpoint" = shown (VStr ∘ endpoint_name) (out_endpoint o);
  said_model : said "model" = shown VStr (model o);
  said_reason : said "denyReason" = shown VStr (denyReason o);
  said_usage : said "usage" = shown (λ u, VObj [("input", VNum (inputTokens u)); ("output", VNum (outputTokens u))]) (usage o);
  said_basis : said "costBasis" = shown (λ _, VStr "provider_reported") (usage o);
  said_cost : said "costMicroUsd" = shown (λ c, VNum (num_of_b64 c)) (costMicroUsd o);
  said_request_hash : said "requestBodyHash" = shown VStr (requestBodyHash o);
  said_response_hash : said "responseBodyHash" = shown VStr (responseBodyHash o);
  said_mutated : said "mutatedRequest" = if mutatedRequest o then VStr "inject_stream_usage" else VUndef;
  said_only k : k ∉ metadata_keys → k ≠ "__proto__" → said k = VUndef;
}.

Lemma get_opt_field k k' o : obj_get k (opt_field k' o) = if String.eqb k' k then o else None.
Proof. destruct o; cbn; by destruct (String.eqb k' k). Qed.

Lemma metadata_says o cfg : says_outcome o cfg (λ k, default VUndef (obj_get k (outcome_metadata o cfg))).
Proof.
  assert (∀ k, obj_get k (match usage o with
      | None => [] | Some u => [("usage", VObj [("input", VNum (inputTokens u)); ("output", VNum (outputTokens u))]); ("costBasis", VStr "provider_reported")]
      end) = if String.eqb "usage" k then (λ u, VObj [("input", VNum (inputTokens u)); ("output", VNum (outputTokens u))]) <$> usage o
             else if String.eqb "costBasis" k then (λ _, VStr "provider_reported") <$> usage o else None) as Hu.
  { intros k. destruct (usage o); cbn -[String.eqb]; destruct (String.eqb "usage" k); try done; by destruct (String.eqb "costBasis" k). }
  split; try (unfold outcome_metadata, shown, vstr_opt; rewrite !obj_get_app, !get_opt_field, Hu; cbn;
    solve [done | by destruct (out_endpoint o) | by destruct (model o) | by destruct (denyReason o) | by destruct (usage o)
          | by destruct (costMicroUsd o) | by destruct (requestBodyHash o) | by destruct (responseBodyHash o) | by destruct (mutatedRequest o)]).
  intros k Hk _. destruct (obj_get k _) eqn:E; [|done]. apply obj_get_elem in E. destruct Hk.
  eapply elem_of_sublist; [|apply metadata_keys_of]. apply list_elem_of_fmap. by eexists (k, _).
Qed.

(** C33. The event of an outcome says all of it, field by field, and no more: the key
    that asked, what became of the request, the model or else the provider it was
    for, the tenant, the request and the time; and as metadata the gateway, status,
    latency, decision, the reason of a denial, usage, cost and hashes, each where
    the outcome has one and absent where it has none. Nothing is redacted. *)
Theorem outcome_event_complete uuid now o cfg :
  outcome_wf o → cost_finite o → blank (default "unknown" (out_keyId o)) = false →
  ∃ event m, createAuditEvent uuid now (buildOutcomeEvent o cfg) = Ret event ∧ says o cfg event m ∧
    says_outcome o cfg (vget_opt m).
Proof.
  intros Hwf Hc Hb. destruct (metadata_redacted o cfg (wf_counts _ Hwf) Hc) as (m & Hm & Hk).
  destruct (outcome_event uuid now o cfg _ Hb Hwf Hm) as (event & E & Hs). exists event, (VObj m). split; [done|]. split; [done|].
  assert (∀ k, k ≠ "__proto__" → vget_opt (VObj m) k = default VUndef (obj_get k (outcome_metadata o cfg))) as Hv.
  { intros k Hp. cbn. by rewrite Hk. }
  destruct (metadata_says o cfg). split; try (rewrite Hv by done; done). intros k Hin Hp. rewrite Hv by done. by apply said_only0.
Qed.
End Events.

(** ** Witnesses *)

#[local] Existing Instances toy_dates toy_host.

Definition priced_outcome (keyId : string) : RequestOutcome :=
  Outcome Completed "req_1" "1970-01-01T00:00:00.000Z" (Some keyId) Anthropic (Some Messages) (Some "claude-x") false (Status 200) 12
    Allowed None (Some (TokenUsage (num_of_Z 1000) (num_of_Z 10))) (Some (of_Z 3150)) None None false.

Lemma priced_outcome_wf keyId : outcome_wf (priced_outcome keyId).
Proof. split; [exists 0%Z; vm_compute; reflexivity|]. intros u [= <-]. split; vm_compute; reflexivity. Qed.

Lemma priced_outcome_finite keyId : cost_finite (priced_outcome keyId).
Proof.
  intros c E. change (Some (of_Z 3150) = Some c) in E. apply (inj Some) in E. subst c. vm_compute. reflexivity.
Qed.

(** A blank key id, which the configuration accepts. *)
Lemma outcome_has_event_witness :
  is_ret (createAuditEvent "u" 0 (buildOutcomeEvent (priced_outcome " ") (EvidenceConfig "t1" "gw1"))) = true
  ↔ blank (default "unknown" (out_keyId (priced_outcome " "))) = false ∧ cost_finite (priced_outcome " ").
Proof. exact (outcome_has_event "u" 0 (priced_outcome " ") (EvidenceConfig "t1" "gw1") (priced_outcome_wf " ")). Defined.

Lemma outcome_event_complete_witness :
  ∃ event m, createAuditEvent "u" 0 (buildOutcomeEvent (priced_outcome "team-a") (EvidenceConfig "t1" "gw1")) = Ret event ∧
    vget_opt event "target" = typed "model" "anthropic:claude-x" ∧ vget_opt event "metadata" = m ∧
    vget_opt m "usage" = VObj [("input", VInt 1000); ("output", VInt 10)] ∧ vget_opt m "denyReason" = VUndef.
Proof.
  destruct (outcome_event_complete "u" 0 (priced_outcome "team-a") (EvidenceConfig "t1" "gw1")) as (event & m & E & Hs & Hm);
    [apply priced_outcome_wf|apply priced_outcome_finite|reflexivity|].
  exists event, m. split; [exact E|]. split; [exact (says_target _ _ _ _ Hs)|]. split; [exact (says_metadata _ _ _ _ Hs)|].
  split; [exact (said_usage _ _ _ Hm)|exact (said_reason _ _ _ Hm)].
Defined.
