(* ===== verification/ConfigSafety.v ===== *)
(** * What an accepted gateway configuration guarantees

    The cross references of [parseGatewayConfig]: keys have distinct ids and
    name a policy, policies allow configured providers only, and the delivery
    canary stays within its compiled-in ceilings. *)

From S2P Require Import Prelude Regex JsNum JsVal JsonText Hash GatewayConfig.

#[local] Open Scope Z_scope.
#[local] Arguments HASH_PATTERN : simpl never.

(** ** Maps *)

Section Maps.
Context {A : Type} (P : A → Prop).

Definition map_all (m : js_map A) : Prop := Forall (λ kv, P kv.2) (own m) ∧ (∀ a, proto m = Some a → P a).

Lemma map_all_empty : map_all empty_map.
Proof. by split; [constructor|]. Qed.

Lemma map_all_assign name a m : P a → map_all m → map_all (map_assign name a m).
Proof.
  intros Ha [Ho Hp]. unfold map_assign. destruct (String.eqb name "__proto__"); split; cbn; try done.
  - by intros ? [= <-].
  - apply Forall_app. split; [|by constructor]. apply Forall_forall. intros kv Hkv.
    apply list_elem_of_filter in Hkv as [_ Hkv]. by apply (proj1 (Forall_forall _ _) Ho).
Qed.

Lemma map_all_lookup fields name m a : map_all m → map_lookup fields name m = Entry a → P a.
Proof.
  intros [Ho Hp]. unfold map_lookup. destruct (list_find _ _) as [[i [k b]]|] eqn:Hf.
  - intros [= <-]. apply list_find_Some in Hf as [Hf _]. apply list_elem_of_lookup_2 in Hf.
    by apply (proj1 (Forall_forall _ _) Ho) in Hf.
  - destruct (proto m) as [b|]; [|by case_bool_decide]. destruct (String.eqb _ _); [|by case_bool_decide].
    intros [= <-]. by apply Hp.
Qed.
End Maps.

(** ** The parsers *)

(** A policy only lists providers that are configured, and lists something. *)
Record policy_ok (configured : list (GatewayProvider * ProviderConfig)) (p : PolicyConfig) : Prop := {
  configured_providers : Forall (λ provider, is_Some (provider_config configured provider)) (providers p);
  some_provider : providers p ≠ [];
  some_model : models p ≠ [] ∧ "" ∉ models p;
  some_endpoint : endpoints p ≠ [];
}.

Lemma requireString_ret v f s : requireString v f = Ret s → s ≠ "".
Proof. unfold requireString, config_error. destruct v; try done. case_match eqn:E; [done|]. intros [= <-]. by apply String.eqb_neq. Qed.

Lemma non_empty_array_ret v f p l : non_empty_array v f p = Ret l → l ≠ [].
Proof. unfold non_empty_array, config_error. destruct v as [| | | | |[]| | |]; try done. by intros [= <-]. Qed.

Lemma mapE_non_empty {A B} (f : A → exc B) xs ys : mapE f xs = Ret ys → xs ≠ [] → ys ≠ [].
Proof. intros H%mapE_length Hx ->. by destruct xs. Qed.

Lemma mapE_Forall {A B} (f : A → exc B) (P : B → Prop) xs ys :
  (∀ x y, f x = Ret y → P y) → mapE f xs = Ret ys → Forall P ys.
Proof. intros Hf H%mapE_Forall2. induction H; constructor; eauto. Qed.

Lemma parse_policy_ok configured name value p : parse_policy configured name value = Ret p → policy_ok configured p.
Proof.
  unfold parse_policy. intros H. inv_ret. split; cbn.
  - eapply mapE_Forall; [|done]. intros x y. unfold parse_policy_provider, config_error.
    destruct (provider_of x) as [q|]; [|done]. destruct (provider_config configured q) eqn:Hq; [|done]. intros [= <-]. by rewrite Hq.
  - eapply mapE_non_empty; [done|]. by eapply non_empty_array_ret.
  - split; [eapply mapE_non_empty; [done|by eapply non_empty_array_ret]|].
    match goal with Hm : mapE _ _ = Ret ?ms |- "" ∉ ?ms => apply (mapE_Forall _ (λ s, s ≠ "")) in Hm; [rewrite Forall_forall in Hm|] end.
    + intros Hin. naive_solver.
    + intros x y. unfold config_error. destruct x; try done. case_match eqn:E'; [done|]. intros [= <-]. by apply String.eqb_neq.
  - eapply mapE_non_empty; [done|]. by eapply non_empty_array_ret.
Qed.

Lemma parse_policies_ok configured m entries m' :
  parse_policies configured m entries = Ret m' → map_all (policy_ok configured) m → map_all (policy_ok configured) m'.
Proof.
  revert m. induction entries as [|[name value] entries IH]; intros m H Hm; cbn in H; [by inv_ret|]. inv_ret.
  eapply IH; [done|]. apply map_all_assign; [|done]. by eapply parse_policy_ok.
Qed.

(** A key has a digest and names something the policies have. *)
Record key_ok (policies : js_map PolicyConfig) (k : VirtualKeyConfig) : Prop := {
  key_digest : re_test HASH_PATTERN (keyHash k) = true;
  key_policy : map_lookup policy_fields (policy k) policies ≠ Missing;
  key_named : keyId k ≠ "";
}.

Lemma parse_keys_ok policies index seen values ks :
  parse_keys policies index seen values = Ret ks →
  Forall (key_ok policies) ks ∧ NoDup (keyId <$> ks) ∧ Forall (λ id, id ∉ seen) (keyId <$> ks).
Proof.
  revert index seen ks. induction values as [|value values IH]; intros index seen ks H; cbn [parse_keys] in H.
  { inv_ret. split_and!; constructor. }
  inv_ret. destruct (bool_decide _) eqn:Hseen; [done|]. destruct (re_test _ _) eqn:Hre; [|done]. bool_prop.
  match goal with Hrest : parse_keys _ _ _ _ = Ret _ |- _ => destruct (IH _ _ _ Hrest) as (Hk & Hn & Hs) end.
  rewrite Forall_forall in Hs. cbn [fmap list_fmap keyId]. split_and!.
  - constructor; [|done]. split; cbn; [done| |by eapply requireString_ret].
    intros Hm. match goal with Hp : match map_lookup _ _ _ with _ => _ end = _ |- _ => by rewrite Hm in Hp end.
  - constructor; [|done]. intros Hin. apply (Hs _ Hin). by left.
  - constructor; [done|]. apply Forall_forall. intros id Hid Hin. apply (Hs _ Hid). by right.
Qed.

Lemma bounded_integer v f fallback maximum z :
  optionalBoundedInteger v f fallback maximum = Ret z → 0 < fallback ≤ maximum → 0 < z ≤ maximum.
Proof.
  unfold optionalBoundedInteger, config_error. intros H Hf. destruct v as [| | |n| | | | |]; try done; [by injection H as <-|].
  destruct (num_int n) as [i|]; [|done]. destruct (_ && _) eqn:E; [|done]. injection H as <-. bool_prop. lia.
Qed.

(** The canary's limits within the compiled-in ceilings. *)
Record ingest_ok (i : IngestConfig) : Prop := {
  bytes_bound : 0 < maxBytes i ≤ 1048576;
  elapsed_bound : 0 < maxElapsedMs i ≤ 15000;
  lease_bound : maxElapsedMs i < leaseMs i ≤ 60000;
  mode_known : startupMode i = "held" ∨ startupMode i = "canary";
}.

Lemma parse_ingest_ok v i : parse_ingest v = Ret (Some i) → ingest_ok i.
Proof.
  unfold parse_ingest. destruct (is_undef v); [done|]. intros H. cbv zeta in H. inv_ret.
  destruct (_ <=? _) eqn:Hl; [done|]. cbv zeta in *. inv_ret. bool_prop.
  repeat match goal with Hb : optionalBoundedInteger _ _ _ _ = Ret _ |- _ => apply bounded_integer in Hb; [|by cbn] end.
  cbn in *. split; cbn; try lia. unfold config_error in *.
  destruct (strict_eq _ (VStr "held")); [inv_ret; by left|]. destruct (strict_eq _ (VStr "canary")); [inv_ret; by right|done].
Qed.

Lemma accepted_ingest raw config i : parseGatewayConfig raw = Ret config → ingest config = Some i → ingest_ok i.
Proof.
  unfold parseGatewayConfig. cbv zeta. intros H. inv_ret. cbn [ingest]. intros ->. by eapply parse_ingest_ok.
Qed.

(** C34. An accepted configuration is consistent: key ids are distinct, every
    key has a digest and names something the policies have, every policy found
    lists configured providers, models and endpoints, and the delivery canary is
    within its ceilings. *)
Theorem accepted_config_consistent raw config :
  parseGatewayConfig raw = Ret config →
  NoDup (keyId <$> config_keys config) ∧ Forall (key_ok (policies config)) (config_keys config) ∧
  (∀ name p, map_lookup policy_fields name (policies config) = Entry p → policy_ok (config_providers config) p) ∧
  (∀ i, ingest config = Some i → ingest_ok i) ∧ tenantId config ≠ "" ∧ gatewayId config ≠ "".
Proof.
  unfold parseGatewayConfig. cbv zeta. intros H. inv_ret. cbn [config_keys policies config_providers ingest tenantId gatewayId].
  match goal with Hk : parse_keys _ _ _ _ = Ret _ |- _ => apply parse_keys_ok in Hk as (Hk & Hn & _) end.
  match goal with Hp : parse_policies _ _ _ = Ret _ |- _ => apply parse_policies_ok in Hp; [|apply map_all_empty] end.
  split_and!; try done.
  - intros name p. by apply map_all_lookup.
  - intros i ->. by eapply parse_ingest_ok.
  - by eapply requireString_ret.
  - by eapply requireString_ret.
Qed.

Definition demo_raw : val :=
  VObj [("tenantId", VStr "t1"); ("gatewayId", VStr "gw1"); ("evidenceDir", VStr "/e");
        ("ingest", VObj [("url", VStr "https://i.example"); ("key", VStr "vrt_1"); ("canary", VObj [("leaseMs", VInt 20000)])]);
        ("providers", VObj [("openai", VObj [("baseUrl", VStr "https://o.example"); ("apiKey", VStr "sk-o")])]);
        ("policies", VObj [("default", VObj [("providers", VArr [VStr "openai"]); ("models", VArr [VStr "*"]);
                                              ("endpoints", VArr [VStr "chat-completions"])])]);
        ("keys", VArr [VObj [("keyId", VStr "team-a"); ("keyHash", VStr (of_chars (replicate 64 "a"%char)));
                              ("policy", VStr "default")]])].
Definition demo_accepted : GatewayConfig := Eval vm_compute in
  match parseGatewayConfig demo_raw with Ret c => c | Throw _ => Config "" "" "" Block true true None None [] empty_map [] end.

Lemma accepted_config_consistent_witness :
  NoDup (keyId <$> config_keys demo_accepted) ∧ Forall (key_ok (policies demo_accepted)) (config_keys demo_accepted) ∧
  (∀ name p, map_lookup policy_fields name (policies demo_accepted) = Entry p → policy_ok (config_providers demo_accepted) p) ∧
  (∀ i, ingest demo_accepted = Some i → ingest_ok i) ∧ tenantId demo_accepted ≠ "" ∧ gatewayId demo_accepted ≠ "".
Proof. apply (accepted_config_consistent demo_raw). vm_compute. reflexivity. Defined.
