(* ===== verification/GatewayCost.v ===== *)
(** * The cost of a request is exact

    Costs are computed in binary64. For counts and prices whose product is at
    most 8e15 the result is the integer that rounding half up gives: the product
    and the sum are exact, the quotient is rounded, and no quotient crosses the
    half it is compared with. *)

From S2P Require Import Doubles Prelude JsNum JsVal Binary64 RiskScore RiskPolicy GatewayConfig Gateway.

#[local] Open Scope Z_scope.

#[local] Transparent U.
Lemma U_split e : -1074 ≤ e < 0 → U = 2 ^ (- e) * 2 ^ (e + 1074).
Proof. intros He. rewrite <- Z.pow_add_r by lia. unfold U. f_equal. lia. Qed.
#[local] Opaque U.

(** The integer nearest to [a / b], halves upwards. *)
Definition half_up (a b : Z) : Z := (2 * a + b) / (2 * b).

(** A double that is this integer. *)
Definition is_int (x : b64) (n : Z) : Prop := finite x ∧ units x = n * U.

Lemma is_int_of_Z n : Z.abs n ≤ 2 ^ 53 → is_int (of_Z n) n.
Proof. apply of_Z_value. Qed.

Lemma finite_result (x : b64) z :
  wf x → is_nan x = false → units x = z → Z.abs z ≤ 2 ^ 53 * U → finite x.
Proof. intros Hw Hn <- Hz. pose proof U_limit. apply finite_between; [done..|]. lia. Qed.

Lemma is_int_mul x y a b :
  is_int x a → is_int y b → Z.abs (a * b) ≤ 2 ^ 53 → is_int (b64_mul x y) (a * b).
Proof.
  intros [Hx Ex] [Hy Ey] Hb. destruct (mul_value x y Hx Hy) as (Hw & Hn & E). pose proof U_pos.
  rewrite Ex, Ey in E. change (2 ^ 1074) with U in E. replace (a * U * (b * U)) with (a * b * U * U) in E by ring.
  rewrite rounded_integer in E by done. split; [|done]. apply (finite_result _ _ Hw Hn E). rewrite Z.abs_mul. nia.
Qed.

Lemma is_int_add x y a b :
  is_int x a → is_int y b → Z.abs (a + b) ≤ 2 ^ 53 → is_int (b64_add x y) (a + b).
Proof.
  intros [Hx Ex] [Hy Ey] Hb. destruct (add_value x y Hx Hy) as (Hw & Hn & E). pose proof U_pos.
  rewrite Ex, Ey in E. replace (a * U + b * U) with ((a + b) * U * 1) in E by ring.
  rewrite rounded_integer in E by (done || lia). split; [|done]. apply (finite_result _ _ Hw Hn E). rewrite Z.abs_mul. nia.
Qed.

(** ** [Math.round] *)

#[local] Opaque of_Z b64_add b64_mul b64_div b64_floor b64_sub.

Lemma half_units : finite (dec 5 (-1)) ∧ 2 * units (dec 5 (-1)) = U.
Proof. split; [by apply finiteb_finite; vm_compute|]. vm_compute. reflexivity. Qed.

(** The part after the point is exact. *)
Lemma fraction_exact x : finite x → 0 ≤ units x →
  finite (x - b64_floor x)%b64 ∧ units (x - b64_floor x)%b64 = units x mod U.
Proof.
  intros Hx Hpos. destruct (floor_value x Hx) as [Hf Ef]. destruct (opp_value _ Hf) as [Ho Eo].
  destruct (add_value x (b64_opp (b64_floor x)) Hx Ho) as (Hw & Hn & E).
  change (b64_add x (b64_opp (b64_floor x))) with (b64_sub x (b64_floor x)) in *. pose proof U_pos. pose proof U_limit.
  rewrite Eo, Ef in E. replace (units x + - (units x / U * U)) with (units x mod U) in E by (rewrite Z.mod_eq by lia; ring).
  pose proof (Z.mod_pos_bound (units x) U ltac:(lia)) as Hm.
  assert (rounded (units x mod U) 1 = units x mod U) as Er.
  { destruct (finite_inv x Hx) as (s & m & e & -> & Hmb & He & Hl). destruct (Z.le_gt_cases 0 e) as [Hpe|Hne].
    - replace (units (BFin s m e)) with (signed s (m * 2 ^ e) * U) by (cbn [units]; rewrite magnitude_integer by done; destruct s; cbn [signed]; ring).
      rewrite Z_mod_mult. by apply rounded_zero.
    - assert (s = false ∨ m = 0) as Hs.
      { destruct s; [right|by left]. cbn [units signed] in Hpos. pose proof (magnitude_nonneg m e ltac:(lia)).
        unfold magnitude in *. assert (0 < 2 ^ (e + 1074)) by (apply Z.pow_pos_nonneg; lia). nia. }
      assert (units (BFin s m e) mod U = (m mod 2 ^ (- e)) * 2 ^ (e + 1074)) as ->.
      { cbn [units]. destruct Hs as [->| ->]; cbn [signed]; unfold magnitude.
        - rewrite (U_split e) by lia.
          apply Z.mul_mod_distr_r; [apply Z.pow_nonzero; lia..].
        - destruct s; cbn [signed]; rewrite ?Z.mul_0_l, ?Z.opp_0, !Zmod_0_l; lia. }
      pose proof (Z.mod_pos_bound m (2 ^ (- e)) ltac:(apply Z.pow_pos_nonneg; lia)).
      pose proof (Z.mod_le m (2 ^ (- e)) ltac:(lia) ltac:(apply Z.pow_pos_nonneg; lia)).
      rewrite <- (Z.mul_1_r (_ * _)) at 1. apply (rounded_exact false); [lia..|]. cbn [signed].
      unfold magnitude in Hl. assert (0 < 2 ^ (e + 1074)) by (apply Z.pow_pos_nonneg; lia). nia. }
  rewrite Er in E. split; [|done]. apply (finite_result _ _ Hw Hn E). nia.
Qed.

Lemma math_round_value x : finite x → 0 ≤ units x → units x ≤ (2 ^ 53 - 1) * U →
  is_int (math_round x) ((2 * units x + U) / (2 * U)).
Proof.
  intros Hx Hpos Hmax. destruct (floor_value x Hx) as [Hf Ef]. destruct (fraction_exact x Hx Hpos) as [Hd Ed].
  destruct half_units as [Hh Eh]. pose proof U_pos as HU. unfold math_round.
  pose proof (Z.div_mod (units x) U ltac:(lia)) as Edm. pose proof (Z.mod_pos_bound (units x) U ltac:(lia)) as Hm.
  set (n := units x / U) in *.
  assert (0 ≤ n) by (apply Z.div_pos; lia). assert (n ≤ 2 ^ 53 - 1) by (apply Z.div_le_upper_bound; lia).
  rewrite le_units by done. rewrite Ed. destruct (Z.leb_spec (units (dec 5 (-1))) (units x mod U)).
  - replace ((2 * units x + U) / (2 * U)) with (n + 1).
    + apply (is_int_add (b64_floor x) (of_Z 1) n 1); [by split|apply is_int_of_Z; lia|lia].
    + apply Z.div_unique with (r := 2 * (units x mod U) - U); lia.
  - replace ((2 * units x + U) / (2 * U)) with n; [by split|].
    apply Z.div_unique with (r := 2 * (units x mod U) + U); lia.
Qed.

(** ** The quotient *)

(** A bound of 53 significant bits is not crossed by rounding. *)
Lemma rounded_below z q k d :
  0 < q → 0 ≤ d → 0 ≤ k ≤ 2 ^ 53 → k * 2 ^ d < limit → z ≤ k * 2 ^ d * q → rounded z q ≤ k * 2 ^ d.
Proof.
  intros Hq Hd Hk Hl Hz. pose proof (rounded_le z (k * 2 ^ d * q) q Hq Hz) as H.
  pose proof (rounded_exact false k d q Hk Hd Hq Hl) as E. cbn [signed] in E. lia.
Qed.

Lemma rounded_above z q k d :
  0 < q → 0 ≤ d → 0 ≤ k ≤ 2 ^ 53 → k * 2 ^ d < limit → k * 2 ^ d * q ≤ z → k * 2 ^ d ≤ rounded z q.
Proof.
  intros Hq Hd Hk Hl Hz. pose proof (rounded_le (k * 2 ^ d * q) z q Hq Hz) as H.
  pose proof (rounded_exact false k d q Hk Hd Hq Hl) as E. cbn [signed] in E. lia.
Qed.

#[local] Transparent U.
Lemma U_bits i : 0 ≤ i ≤ 1074 → U = 2 ^ i * 2 ^ (1074 - i).
Proof. intros Hi. rewrite <- Z.pow_add_r by lia. unfold U. f_equal. lia. Qed.
#[local] Opaque U.

Lemma rounded_quotient P :
  0 ≤ P ≤ 8 * 10 ^ 15 →
  (2 * rounded (P * U) (10 ^ 6) + U) / (2 * U) = half_up P (10 ^ 6).
Proof.
  intros HP. unfold half_up. set (h := (2 * P + 10 ^ 6) / (2 * 10 ^ 6)). pose proof U_pos as HU. pose proof U_limit.
  pose proof (Z.div_mod (2 * P + 10 ^ 6) (2 * 10 ^ 6) ltac:(lia)) as Ed.
  pose proof (Z.mod_pos_bound (2 * P + 10 ^ 6) (2 * 10 ^ 6) ltac:(lia)) as Em. fold h in Ed.
  assert (0 ≤ h) by (apply Z.div_pos; lia). assert (h < 2 ^ 33) by (apply Z.div_lt_upper_bound; lia).
  assert (2 * P ≤ (2 * h + 1) * 10 ^ 6 - 2) as Hup by lia.
  assert ((2 * h - 1) * 10 ^ 6 ≤ 2 * P) as Hlo by lia.
  pose proof (U_bits 1 ltac:(lia)) as E1. pose proof (U_bits 20 ltac:(lia)) as E20.
  change (1074 - 1) with 1073 in E1. change (1074 - 20) with 1054 in E20.
  assert (rounded (P * U) (10 ^ 6) ≤ ((2 * h + 1) * 2 ^ 19 - 1) * 2 ^ 1054) as Hr.
  { apply rounded_below; lia. }
  assert (0 ≤ rounded (P * U) (10 ^ 6)) by (apply rounded_sign; lia).
  assert ((2 * h - 1) * 2 ^ 1073 ≤ rounded (P * U) (10 ^ 6)) as Hl.
  { destruct (Z.eq_dec h 0) as [->|]; [lia|]. apply rounded_above; lia. }
  clear - Hr Hl E1 E20 HU. set (X := rounded (P * U) (10 ^ 6)) in *. clearbody X. set (c := 2 ^ 1073) in *. set (d := 2 ^ 1054) in *.
  clearbody c d h. symmetry. apply Z.div_unique with (r := 2 * X + U - 2 * U * h); [left; nia|lia].
Qed.

#[local] Transparent of_Z.
Lemma b64_of_int n z : num_int n = Some z → 0 ≤ z → b64_of_num n = of_Z z.
Proof.
  destruct n as [| |m e]; try done. unfold num_int, b64_of_num, dec, of_Z. destruct (Z.leb_spec 0 e) as [He|]; [|done].
  intros H Hz. apply (inj Some) in H. subst z. pose proof (Z.pow_pos_nonneg 10 e ltac:(lia) He).
  rewrite Z.abs_mul, (Z.abs_eq (10 ^ e)), scale_sign by lia. done.
Qed.
#[local] Opaque of_Z.

Lemma direction_cost_value tokens price t p :
  num_int tokens = Some t → num_int price = Some p → 0 ≤ t ≤ 2 ^ 53 → 0 ≤ p ≤ 2 ^ 53 → t * p ≤ 8 * 10 ^ 15 →
  is_int (direction_cost tokens price) (half_up (t * p) (10 ^ 6)).
Proof.
  intros Ht Hp Ht0 Hp0 Hb. unfold direction_cost. rewrite (b64_of_int _ t), (b64_of_int _ p) by (done || lia).
  pose proof U_pos as HU. pose proof U_limit. assert (0 ≤ t * p) by (apply Z.mul_nonneg_nonneg; lia).
  destruct (is_int_mul (of_Z t) (of_Z p) t p) as [Hm Em]; [apply is_int_of_Z; lia..|lia|].
  destruct (is_int_of_Z 1000000 ltac:(lia)) as [Hq Eq].
  destruct (div_value (of_Z t * of_Z p)%b64 (of_Z 1000000) Hm Hq ltac:(lia)) as (Hw & Hn & E).
  rewrite Em, Eq in E. change (2 ^ 1074) with U in E.
  assert (rounded (t * p * U * U) (1000000 * U) = rounded (t * p * U) (10 ^ 6)) as E'.
  { apply Z.le_antisymm; apply rounded_mono; nia. }
  rewrite E' in E. rewrite <- rounded_quotient by lia. rewrite <- E.
  assert (0 ≤ units (of_Z t * of_Z p / of_Z 1000000)%b64) as Hpos by (rewrite E; apply rounded_sign; nia).
  assert (units (of_Z t * of_Z p / of_Z 1000000)%b64 ≤ 8 * 10 ^ 9 * U) as Hmax.
  { rewrite E. replace (8 * 10 ^ 9 * U) with (rounded (8 * 10 ^ 9 * U * (10 ^ 6)) (10 ^ 6)) by (apply rounded_integer; lia).
    apply rounded_le; nia. }
  apply math_round_value; [|done|lia]. apply (finite_result _ _ Hw Hn eq_refl). lia.
Qed.

Lemma half_up_bound a : 0 ≤ a ≤ 8 * 10 ^ 15 → 0 ≤ half_up a (10 ^ 6) ≤ 8 * 10 ^ 9.
Proof.
  intros Ha. unfold half_up. split; [apply Z.div_pos; lia|].
  assert ((2 * a + 10 ^ 6) / (2 * 10 ^ 6) < 8 * 10 ^ 9 + 1) by (apply Z.div_lt_upper_bound; lia). lia.
Qed.

(** C35. The cost of a model with a price is the integer that exact arithmetic
    gives: each direction is rounded half up on its own, and their sum is
    exact, as long as counts times price is at most 8e15 in either. *)
Theorem cost_exact usage model catalog price ti pi to po :
  map_lookup price_fields model (catalog_models catalog) = Entry price →
  num_int (inputTokens usage) = Some ti → num_int (inputMicroUsdPerMTok price) = Some pi →
  num_int (outputTokens usage) = Some to → num_int (outputMicroUsdPerMTok price) = Some po →
  0 ≤ ti ≤ 2 ^ 53 → 0 ≤ pi ≤ 2 ^ 53 → 0 ≤ to ≤ 2 ^ 53 → 0 ≤ po ≤ 2 ^ 53 →
  ti * pi ≤ 8 * 10 ^ 15 → to * po ≤ 8 * 10 ^ 15 →
  ∃ cost, computeCostMicroUsd usage model catalog = Some cost ∧
    is_int cost (half_up (ti * pi) (10 ^ 6) + half_up (to * po) (10 ^ 6)).
Proof.
  intros Hl Hti Hpi Hto Hpo Bti Bpi Bto Bpo Hi Ho. unfold computeCostMicroUsd. rewrite Hl. eexists. split; [done|].
  assert (0 ≤ ti * pi ∧ 0 ≤ to * po) as [? ?] by (split; apply Z.mul_nonneg_nonneg; lia).
  pose proof (half_up_bound (ti * pi) ltac:(lia)). pose proof (half_up_bound (to * po) ltac:(lia)).
  apply is_int_add; [by apply direction_cost_value..|lia].
Qed.

(** Two half micro-dollars, each rounded up: 0.5 + 0.5 costs 2. *)
Lemma cost_exact_witness :
  ∃ cost, computeCostMicroUsd (TokenUsage (num_of_Z 1) (num_of_Z 1)) "m"
      (Catalog "v" (map_assign "m" (Price (num_of_Z 500000) (num_of_Z 500000)) empty_map)) = Some cost ∧
    is_int cost (half_up (1 * 500000) (10 ^ 6) + half_up (1 * 500000) (10 ^ 6)).
Proof.
  apply (cost_exact (TokenUsage (num_of_Z 1) (num_of_Z 1)) "m" _ (Price (num_of_Z 500000) (num_of_Z 500000)));
    first [reflexivity|lia].
Defined.
