(* ===== verification/ShipOut.v ===== *)
(** * Shipping gateway evidence out (gateway/src/shipout.ts, shipout-runtime.ts,
    currentDelivery of server.ts)

    The sink records locally first and then puts a copy into the outbox. The
    runtime runs maintenance ticks, which are suspended at every await; timers,
    [start] and [stop] interleave with them, so it is a state machine on the
    armed timers and the running ticks. *)

From S2P Require Import Prelude JsNum JsVal Event DeliverySafety Outbox OutboxFile.
From S2P Require GatewayConfig.

#[local] Open Scope Z_scope.

(** ** The sink *)

Inductive ShipOutEnqueueFailure := EnqueueError | QueueFull.

Definition shipment (tenant : string) (record : val) : OutboxEnqueueInput :=
  let event := vget_opt record "event" in
  EnqueueInput (match vget_opt event "id" with VStr id => VStr ("obx_" +:+ id) | _ => VUndef end) (VStr tenant)
    (VObj [("schemaVersion", VStr "2026-06-23"); ("mutationBinding", VStr "best_effort"); ("records", VArr [event]);
           ("edges", VArr [])]) VUndef.

(** The transaction's callback. *)
Definition enqueue_one (now : Z) (input : OutboxEnqueueInput) : tx_program OutboxStoredEntry :=
  TxEnqueue now input (λ r, match r with Ret entry => TxReturn entry | Throw msg => TxThrow msg end).

Record shipped := Shipped {
  outbox_after : list OutboxStoredEntry;
  warned : option ShipOutEnqueueFailure;
  sink_result : exc val;
}.

(** [local] is what the local sink returned or threw; [file] the rows of the outbox. *)
Definition recordEvent `{Host} `{Locale} (tenant : string) (maxQueuedBytes : option Z) (now : Z) (local : exc val) (file : list OutboxStoredEntry)
    : shipped :=
  match local with
  | Throw msg => Shipped file None (Throw msg)
  | Ret record =>
      match transaction maxQueuedBytes (enqueue_one now (shipment tenant record)) file with
      | Ret (file, _) => Shipped file None (Ret record)
      | Throw msg =>
          let full := match maxQueuedBytes with Some max => String.eqb msg (OutboxQueueFullError max) | None => false end in
          Shipped file (Some (if full then QueueFull else EnqueueError)) (Ret record)
      end
  end.

(** ** The runtime *)

Inductive ShipOutRuntimeState := Disabled | Held | CanaryArmed | CanaryRunning | CanaryComplete | StatePaused | StateError.

Record ShipOutRuntimeSnapshot := Snapshot {
  snap_state : ShipOutRuntimeState; snap_pending : nat; snap_paused : nat; snap_quarantined : nat; snap_attempted : bool;
}.

Inductive startup_mode := HeldMode | CanaryMode.

Record ShipOutDeliveryGeneration := Generation {
  gen_tenantId : string; gen_mode : startup_mode; gen_permit : val;
}.

Record counts := Counts { n_pending : nat; n_paused : nat; n_quarantined : nat }.

Definition count_status (statuses : list OutboxStatus) (entries : list OutboxStoredEntry) : nat :=
  length (filter (λ e, status e ∈ statuses) entries).

Definition queueCounts (entries : list OutboxStoredEntry) : counts :=
  Counts (count_status [pending; leased] entries) (count_status [paused] entries) (count_status [dead] entries).

Inductive terminal := Complete | TerminalError.

(** Where a tick waits. *)
Inductive tick :=
| Maintaining
| Inspecting (g : ShipOutDeliveryGeneration)
| Dispatching (g : ShipOutDeliveryGeneration) (before : list OutboxStoredEntry)
| Reinspecting (g : ShipOutDeliveryGeneration) (before : list OutboxStoredEntry) (result_paused : Z).

Record runtime := Runtime {
  snapshot : ShipOutRuntimeSnapshot;
  canaryAttempted : bool;
  canaryTerminal : option terminal;
  started : bool;
  stopped : bool;
  timer : option nat;                            (* the variable [timer] *)
  armed : list nat;                              (* timers that will fire *)
  next_timer : nat;
  running : list tick;
  calls : list (ShipOutDeliveryGeneration * list OutboxStoredEntry);   (* of [dispatchBatch], with the queue seen *)
}.

Definition createShipOutRuntime (intervalMs : val) : exc runtime :=
  match safe_integer intervalMs with
  | Some z => if z <=? 0 then Throw "ship-out interval must be a positive safe integer"
              else Ret (Runtime (Snapshot Disabled 0 0 0 false) false None false false None [] 0 [] [])
  | None => Throw "ship-out interval must be a positive safe integer"
  end.

Definition with_snapshot (s : ShipOutRuntimeSnapshot) (r : runtime) : runtime :=
  Runtime s (canaryAttempted r) (canaryTerminal r) (started r) (stopped r) (timer r) (armed r) (next_timer r) (running r) (calls r).

Definition update (state : ShipOutRuntimeState) (entries : list OutboxStoredEntry) (r : runtime) : runtime :=
  let c := queueCounts entries in
  with_snapshot (Snapshot state (n_pending c) (n_paused c) (n_quarantined c) (canaryAttempted r)) r.

Definition with_canary (attempted : bool) (t : option terminal) (r : runtime) : runtime :=
  Runtime (snapshot r) attempted t (started r) (stopped r) (timer r) (armed r) (next_timer r) (running r) (calls r).

(** [canaryTerminal = "error"; snapshot = { ...snapshot, state: "error", canaryAttempted }] *)
Definition fail (r : runtime) : runtime :=
  let s := snapshot r in
  with_snapshot (Snapshot StateError (snap_pending s) (snap_paused s) (snap_quarantined s) (canaryAttempted r))
    (with_canary (canaryAttempted r) (Some TerminalError) r).

Definition schedule (r : runtime) : runtime :=
  if stopped r then r
  else Runtime (snapshot r) (canaryAttempted r) (canaryTerminal r) (started r) (stopped r) (Some (next_timer r))
         (armed r ++ [next_timer r]) (S (next_timer r)) (running r) (calls r).

Definition with_running (ts : list tick) (r : runtime) : runtime :=
  Runtime (snapshot r) (canaryAttempted r) (canaryTerminal r) (started r) (stopped r) (timer r) (armed r) (next_timer r) ts (calls r).

Definition start (r : runtime) : runtime :=
  if started r then r
  else schedule (Runtime (snapshot r) (canaryAttempted r) (canaryTerminal r) true false (timer r) (armed r) (next_timer r)
                   (running r) (calls r)).

Definition stop (r : runtime) : runtime :=
  Runtime (snapshot r) (canaryAttempted r) (canaryTerminal r) false true None
    (match timer r with Some t => filter (λ t', t' ≠ t) (armed r) | None => armed r end) (next_timer r) (running r) (calls r).

(** A timer fires: [timer = null] and a tick begins. *)
Definition fire (t : nat) (r : runtime) : runtime :=
  if bool_decide (t ∈ armed r) then
    Runtime (snapshot r) (canaryAttempted r) (canaryTerminal r) (started r) (stopped r) None (filter (λ t', t' ≠ t) (armed r))
      (next_timer r) (running r ++ [Maintaining]) (calls r)
  else r.

(** What a waiting tick is answered. *)
Inductive answer :=
| Maintained (delivery : exc (option ShipOutDeliveryGeneration))   (* and what [delivery()] then returns or throws *)
| Listed (entries : exc (list OutboxStoredEntry))
| Dispatched (result_paused : exc Z).

(** A tick goes on: to its next await, or to its end. *)
Definition resume (t : tick) (a : answer) (r : runtime) : runtime * option tick :=
  match t, a with
  | Maintaining, Maintained (Throw _) => (fail r, None)
  | Maintaining, Maintained (Ret None) => (with_snapshot (Snapshot Disabled 0 0 0 (canaryAttempted r)) r, None)
  | Maintaining, Maintained (Ret (Some g)) => (r, Some (Inspecting g))
  | Inspecting g, Listed (Throw _) => (fail r, None)
  | Inspecting g, Listed (Ret before) =>
      let c := queueCounts before in
      if (0 <? n_paused c)%nat then (update StatePaused before r, None)
      else if match gen_mode g with HeldMode => true | CanaryMode => false end then (update Held before r, None)
      else if canaryAttempted r then
        (update (match canaryTerminal r with Some TerminalError => StateError | _ => CanaryComplete end) before r, None)
      else if (n_pending c =? 0)%nat then (update CanaryArmed before r, None)
      else
        let r := update CanaryRunning before (with_canary true (canaryTerminal r) r) in
        (Runtime (snapshot r) (canaryAttempted r) (canaryTerminal r) (started r) (stopped r) (timer r) (armed r) (next_timer r)
           (running r) (calls r ++ [(g, before)]), Some (Dispatching g before))
  | Dispatching g before, Dispatched (Ret result_paused) =>
      (with_canary (canaryAttempted r) (Some Complete) r, Some (Reinspecting g before result_paused))
  | Dispatching g before, Dispatched (Throw _) => (fail r, None)
  | Reinspecting g before result_paused, Listed entries =>
      let '(r, after) := match entries with Ret after => (r, after) | Throw _ => (fail r, before) end in
      (update (if (0 <? result_paused) || (0 <? n_paused (queueCounts after))%nat then StatePaused else CanaryComplete) after r, None)
  | _, _ => (r, Some t)
  end.

Inductive runtime_event := Start | Stop | Fire (t : nat) | Answered (i : nat) (a : answer).

(** A tick that ends arms the next timer ([finally]). *)
Definition runtime_step (r : runtime) (e : runtime_event) : runtime :=
  match e with
  | Start => start r
  | Stop => stop r
  | Fire t => fire t r
  | Answered i a =>
      match running r !! i with
      | None => r
      | Some t =>
          let '(r, next) := resume t a r in
          match next with
          | Some t => with_running (<[i:=t]> (running r)) r
          | None => schedule (with_running (delete i (running r)) r)
          end
      end
  end.

Definition runtime_run (r : runtime) (es : list runtime_event) : runtime := fold_left runtime_step es r.

(** [currentDelivery]: the generation of a configuration. *)
Definition currentDelivery (config : GatewayConfig.GatewayConfig) : option ShipOutDeliveryGeneration :=
  match GatewayConfig.ingest config with
  | None => None
  | Some i =>
      Some (Generation (GatewayConfig.tenantId config)
              (if String.eqb (GatewayConfig.startupMode i) "canary" then CanaryMode else HeldMode)
              (VObj [("kind", VStr "automatic"); ("maxEntries", VInt 1); ("maxBytes", VInt (GatewayConfig.maxBytes i));
                     ("maxElapsedMs", VInt (GatewayConfig.maxElapsedMs i)); ("leaseMs", VInt (GatewayConfig.leaseMs i))]))
  end.

(** The options of the one [dispatchBatch]. *)
Definition dispatch_options (g : ShipOutDeliveryGeneration) : val :=
  VObj [("tenantId", VStr (gen_tenantId g)); ("permit", gen_permit g)].
