(* ===== verification/ShipOutSafety.v ===== *)
(** * What shipping out guarantees

    One canary per process, whatever interleaves with it; ticks that never
    overlap unless the runtime is restarted under one; permits the dispatcher
    accepts; and a sink whose outbox never matters to its caller. *)

From S2P Require Import Prelude JsNum JsVal Dates Event Demo DeliverySafety Outbox OutboxFile OutboxHistory Dispatcher.
From S2P Require Import GatewayConfig ConfigSafety ShipOut.

#[local] Open Scope Z_scope.

(** ** Canaries *)

(** A call the runtime may make: for a canary generation, with rows to deliver and none paused. *)
Definition due_canary (c : ShipOutDeliveryGeneration * list OutboxStoredEntry) : Prop :=
  gen_mode c.1 = CanaryMode ∧ n_paused (queueCounts c.2) = 0%nat ∧ n_pending (queueCounts c.2) ≠ 0%nat.

Record one_canary (r : runtime) : Prop := {
  attempted_if_called : calls r ≠ [] → canaryAttempted r = true;
  called_once : (length (calls r) ≤ 1)%nat;
  called_when_due : Forall due_canary (calls r);
}.

Lemma one_canary_same r r' :
  calls r' = calls r → canaryAttempted r' = canaryAttempted r → one_canary r → one_canary r'.
Proof. intros Hc Ha [H1 H2 H3]. by split; rewrite ?Hc, ?Ha. Qed.

Lemma schedule_calls r : calls (schedule r) = calls r ∧ canaryAttempted (schedule r) = canaryAttempted r.
Proof. unfold schedule. by destruct (stopped r). Qed.

Lemma resume_canary t a r : one_canary r → one_canary (resume t a r).1.
Proof.
  intros H. destruct t as [|g|g before|g before p], a as [d|es|d]; cbn [resume]; try done.
  - destruct d as [[g|]|]; [done|..]; by eapply one_canary_same; [| |exact H].
  - destruct es as [before|]; [|by eapply one_canary_same; [| |exact H]]. cbv zeta.
    destruct (Nat.ltb_spec 0 (n_paused (queueCounts before))) as [|Hp]; [by eapply one_canary_same; [| |exact H]|].
    destruct (gen_mode g) eqn:Hg; [by eapply one_canary_same; [| |exact H]|].
    destruct (canaryAttempted r) eqn:Ha; [by eapply one_canary_same; [| |exact H]|].
    destruct (Nat.eqb_spec (n_pending (queueCounts before)) 0) as [|Hn]; [by eapply one_canary_same; [| |exact H]|].
    destruct H as [H1 H2 H3]. assert (calls r = []) as Hc.
    { destruct (calls r); [done|]. rewrite H1 in Ha by done. done. }
    split; cbn; rewrite Hc; cbn; [done|lia|]. constructor; [|constructor]. split; [done|]. cbn [snd]. split; [lia|done].
  - by destruct d; eapply one_canary_same; [| |exact H| | |exact H].
  - destruct es; by eapply one_canary_same; [| |exact H].
Qed.

Lemma step_canary r e : one_canary r → one_canary (runtime_step r e).
Proof.
  intros H. destruct e as [| |t|i a]; cbn [runtime_step].
  - unfold start. destruct (started r); [done|]. eapply one_canary_same; [apply schedule_calls..|]. by eapply one_canary_same; [| |exact H].
  - by eapply one_canary_same; [| |exact H].
  - unfold fire. case_bool_decide; [|done]. by eapply one_canary_same; [| |exact H].
  - destruct (running r !! i) as [t|]; [|done]. pose proof (resume_canary t a r H) as Hr. destruct (resume t a r) as [r' [t'|]].
    + by eapply one_canary_same; [| |exact Hr].
    + eapply one_canary_same; [apply schedule_calls..|]. by eapply one_canary_same; [| |exact Hr].
Qed.

(** C29. Delivery is attempted at most once in the life of a runtime, however
    timers, restarts and overlapping ticks interleave, and only for a generation
    started as a canary, when the queue has rows to deliver and none paused. *)
Theorem at_most_one_canary intervalMs r es :
  createShipOutRuntime intervalMs = Ret r →
  (length (calls (runtime_run r es)) ≤ 1)%nat ∧ Forall due_canary (calls (runtime_run r es)).
Proof.
  intros Hr. assert (one_canary r) as H.
  { unfold createShipOutRuntime in Hr. destruct (safe_integer intervalMs) as [z|]; [|done]. destruct (z <=? 0); [done|].
    injection Hr as <-. split; cbn; [done|lia|constructor]. }
  assert (one_canary (runtime_run r es)) as [_ H2 H3]; [|done].
  unfold runtime_run. clear Hr. revert r H. induction es as [|e es IH]; intros r H; [done|]. by apply IH, step_canary.
Qed.

(** ** Ticks *)

(** Starts find no tick in flight. *)
Fixpoint quiet_starts (r : runtime) (es : list runtime_event) : Prop :=
  match es with
  | [] => True
  | e :: es => (e = Start → started r = false → running r = []) ∧ quiet_starts (runtime_step r e) es
  end.

Record serial (r : runtime) : Prop := {
  one_tick : armed r = [] ∧ (length (running r) ≤ 1)%nat ∨ ∃ t, armed r = [t] ∧ timer r = Some t ∧ running r = [];
  idle_unless_started : started r = false → armed r = [];
  started_or_stopped : stopped r = false → started r = true ∨ running r = [];
}.

Lemma serial_schedule r : armed r = [] → running r = [] → (stopped r = false → started r = true) → serial (schedule r).
Proof.
  intros Ha Hr Hs. unfold schedule. destruct (stopped r) eqn:E.
  - split; [left; rewrite Hr; cbn; split; [done|lia]|done|by right].
  - split; cbn; rewrite ?Ha, ?Hr; cbn; [right; eauto|by rewrite Hs|by right].
Qed.

(** What resuming a tick leaves alone. *)
Lemma resume_frame t a r :
  armed (resume t a r).1 = armed r ∧ timer (resume t a r).1 = timer r ∧ running (resume t a r).1 = running r ∧
  started (resume t a r).1 = started r ∧ stopped (resume t a r).1 = stopped r.
Proof.
  destruct t as [|g|g before|g before p], a as [d|es|d]; cbn [resume]; try done.
  - by destruct d as [[g|]|].
  - destruct es as [before|]; [|done]. cbv zeta. destruct (0 <? _)%nat; [done|]. destruct (gen_mode g); [done|].
    destruct (canaryAttempted r); [done|]. by destruct (_ =? 0)%nat.
  - by destruct d.
  - by destruct es.
Qed.

Lemma serial_step r e : (e = Start → started r = false → running r = []) → serial r → serial (runtime_step r e).
Proof.
  intros Hq [Ho Hi Hs]. destruct e as [| |t|i a]; cbn [runtime_step].
  - unfold start. destruct (started r) eqn:E; [by split; rewrite ?E|]. apply serial_schedule; cbn; [by apply Hi|by apply Hq|done].
  - split; cbn; [left|..]; try done.
    + destruct Ho as [[Ha Hl]|(t & Ha & Ht & Hr)].
      * rewrite Ha. split; [by destruct (timer r)|done].
      * rewrite Ht, Ha, Hr. cbn. destruct (base.decide _) as [[]|]; [done|]. split; [done|lia].
    + intros _. destruct Ho as [[Ha Hl]|(t & Ha & Ht & Hr)]; rewrite Ha; [by destruct (timer r)|].
      rewrite Ht. cbn. by destruct (base.decide _) as [[]|].
  - unfold fire. case_bool_decide as Hin; [|by split]. destruct Ho as [[Ha Hl]|(t' & Ha & Ht & Hr)].
    + rewrite Ha in Hin. by apply elem_of_nil in Hin.
    + rewrite Ha in *. apply list_elem_of_singleton in Hin as ->. cbn. destruct (base.decide _) as [[]|]; [done|].
      split; cbn; rewrite ?Hr; cbn; [left; split; [done|lia]|done|]. intros E. destruct (started r) eqn:Es; [by left|].
      by specialize (Hi eq_refl).
  - destruct (running r !! i) as [t|] eqn:Hi'; [|by split]. destruct (resume_frame t a r) as (Fa & Ft & Fr & Fs & Fp).
    destruct Ho as [[Ha Hl]|(t' & Ha & Ht & Hr)]; [|by rewrite Hr in Hi'].
    destruct (running r) as [|t0 [|? ?]] eqn:Hrun; [done| |cbn in Hl; lia]. destruct i; [|done]. injection Hi' as ->.
    destruct (resume t a r) as [r' [t'|]]; cbn [fst] in *; rewrite Fr; cbn.
    + split; cbn; rewrite ?Fa, ?Fs, ?Fp; [left; split; [done|lia]|done|]. intros E. destruct (Hs E); [by left|done].
    + apply serial_schedule; cbn; rewrite ?Fa, ?Fs, ?Fp; [done|done|]. intros E. by destruct (Hs E).
Qed.

(** Ticks do not overlap: as long as the runtime is not restarted while a
    tick is in flight, one tick runs at a time and no timer is armed under it. *)
Theorem ticks_serial intervalMs r es :
  createShipOutRuntime intervalMs = Ret r → quiet_starts r es →
  (length (armed (runtime_run r es)) + length (running (runtime_run r es)) ≤ 1)%nat.
Proof.
  intros Hr Hq. assert (serial r) as H.
  { unfold createShipOutRuntime in Hr. destruct (safe_integer intervalMs) as [z|]; [|done]. destruct (z <=? 0); [done|].
    injection Hr as <-. split; cbn; [left; split; [done|lia]|done|by right]. }
  assert (serial (runtime_run r es)) as [Ho _ _].
  { unfold runtime_run. clear Hr. revert r H Hq. induction es as [|e es IH]; intros r H Hq; [done|]. destruct Hq as [He Hq].
    apply IH; [|done]. by apply serial_step. }
  destruct Ho as [[-> Hl]|(t & -> & _ & ->)]; cbn; lia.
Qed.

(** A restart while a tick is in flight starts a second loop beside it, which
    the one-timer design is there to prevent. *)
Theorem restart_overlaps_ticks intervalMs r :
  createShipOutRuntime intervalMs = Ret r →
  length (running (runtime_run r [Start; Fire 0; Stop; Start; Fire 1])) = 2%nat.
Proof.
  unfold createShipOutRuntime. destruct (safe_integer intervalMs) as [z|]; [|done]. destruct (z <=? 0); [done|].
  by intros [= <-].
Qed.

(** ** The sink *)

Section Sink.
Context `{HO : Host} `{LO : Locale}.

Lemma assertNonEmpty_str v f s : Outbox.assertNonEmpty v f = Ret s → v = VStr s.
Proof. unfold Outbox.assertNonEmpty. destruct v; try done. destruct (blank _); [done|]. by intros [= ->]. Qed.

Lemma createPendingEntry_id now input e : createPendingEntry now input = Ret e → input_id input = VStr (entry_id e).
Proof.
  unfold createPendingEntry. intros H. inv_ret. cbn [entry_id]. by eapply assertNonEmpty_str.
Qed.

Lemma enqueue_one_ret max now input file file' row :
  transaction max (enqueue_one now input) file = Ret (file', row) →
  row ∈ file' ∧ input_id input = VStr (entry_id row) ∧ file ⊆ file'.
Proof.
  unfold transaction, enqueue_one. intros (entries & ->%readEntries_ret & H)%bind_ret. apply bind_ret in H as ([staged r] & Hr & H).
  injection H as <- <-. cbn [run_tx] in Hr. destruct (enqueue _ _ _ _) as [[s e]|] eqn:E; [|done]. injection Hr as -> ->.
  unfold writeEntries, enqueue in *. apply bind_ret in E as (entry & Hentry & E).
  pose proof (createPendingEntry_id _ _ _ Hentry) as Hid. destruct (find _ _) as [existing|] eqn:Hf.
  - inv_ret. apply find_some in Hf as [Hin Hsame]. apply String.eqb_eq in Hsame. apply list_elem_of_In in Hin.
    rewrite Hid, <- Hsame. split_and!; [by rewrite sort_entries_perm|done|]. intros x Hx. by rewrite !sort_entries_perm.
  - apply bind_ret in E as (? & _ & E). injection E as <- <-. split_and!; [|done|].
    + rewrite !sort_entries_perm. apply elem_of_app; right. by left.
    + intros y Hy. rewrite !sort_entries_perm. apply elem_of_app; by left.
Qed.

(** The local record decides: the sink returns or throws exactly what the
    local sink did; nothing is shipped that is not recorded; a copy that cannot
    be queued leaves the outbox as it was and only warns; and otherwise the
    outbox has the row of the event, and every row it had. *)
Theorem copy_follows_record tenant max now local file :
  let r := recordEvent tenant max now local file in
  sink_result r = local ∧
  match local with
  | Throw _ => outbox_after r = file ∧ warned r = None
  | Ret record =>
      match warned r with
      | Some _ => outbox_after r = file
      | None => file ⊆ outbox_after r ∧
          ∃ row id, row ∈ outbox_after r ∧ vget_opt (vget_opt record "event") "id" = VStr id ∧ entry_id row = "obx_" +:+ id
      end
  end.
Proof.
  unfold recordEvent. destruct local as [record|]; [|done].
  destruct (transaction _ _ _) as [[file' row]|] eqn:E; [|done]. cbn. split; [done|].
  apply enqueue_one_ret in E as (Hrow & Hid & Hsub). split; [done|]. exists row.
  unfold shipment in Hid. cbn [input_id] in Hid. destruct (vget_opt (vget_opt record "event") "id"); try done.
  injection Hid as Hid. by exists s.
Qed.

(** The dispatcher accepts what an accepted configuration asks for: the
    canary's permit passes every ceiling of the default delivery policy. *)
Theorem canary_permit_accepted raw config g :
  parseGatewayConfig raw = Ret config → currentDelivery config = Some g → blank (GatewayConfig.tenantId config) = false →
  validateDispatchOptions (dispatch_options g) DEFAULT_DELIVERY_SAFETY_POLICY = Ret tt.
Proof.
  intros Hc Hg Hb. unfold currentDelivery in Hg. destruct (ingest config) as [i|] eqn:Hi; [|done]. injection Hg as <-.
  destruct (accepted_ingest raw config i Hc Hi) as [Hbytes Hel Hl _].
  assert (∀ z, 0 < z ≤ 1048576 → ∀ f, requirePositiveInteger (VInt z) f = Ret z ∧ int_of (VInt z) = z) as Hpos.
  { intros z Hz f. split; [apply requirePositiveInteger_int; unfold ceiling; lia|]. unfold int_of, safe_integer, VInt.
    rewrite num_int_of_Z. by rewrite (proj2 (Z.leb_le _ _)) by lia. }
  destruct (Hpos 1 ltac:(lia) "permit.maxEntries") as [R1 I1], (Hpos (maxBytes i) ltac:(lia) "permit.maxBytes") as [R2 I2],
    (Hpos (maxElapsedMs i) ltac:(lia) "permit.maxElapsedMs") as [R3 I3], (Hpos (GatewayConfig.leaseMs i) ltac:(lia) "permit.leaseMs") as [R4 I4].
  unfold validateDispatchOptions, permit_int, validateListOptions. unfold Outbox.assertNonEmpty.
  cbn -[VInt requirePositiveInteger int_of Z.ltb Z.leb GatewayConfig.tenantId]. unfold blank in Hb.
  rewrite Hb, R1, R2, R3, R4, I1, I2, I3, I4.
  rewrite (proj2 (Z.ltb_lt (maxElapsedMs i) (GatewayConfig.leaseMs i))), (proj2 (Z.leb_le (maxBytes i) _)),
    (proj2 (Z.leb_le (maxElapsedMs i) _)) by lia. reflexivity.
Qed.
End Sink.

(** ** Witnesses *)

Definition demo_runtime : runtime := default (Runtime (Snapshot Disabled 0 0 0 false) false None true true None [] 0 [] [])
  (exc_to_option (createShipOutRuntime (VInt 60000))).

Definition demo_row : OutboxStoredEntry := Outbox.Entry "obx_1" "t" VNull "" pending 0 "" "" None None None None None.
Definition demo_canary : answer := Maintained (Ret (Some (Generation "t" CanaryMode VUndef))).

(** A restart under a tick: both ticks find the row, one delivers. *)
Lemma at_most_one_canary_witness :
  let es := [Start; Fire 0; Stop; Start; Fire 1; Answered 0 demo_canary; Answered 1 demo_canary;
             Answered 0 (Listed (Ret [demo_row])); Answered 1 (Listed (Ret [demo_row]))] in
  (length (calls (runtime_run demo_runtime es)) ≤ 1)%nat ∧ Forall due_canary (calls (runtime_run demo_runtime es)).
Proof. apply (at_most_one_canary (VInt 60000)). vm_compute. reflexivity. Defined.

Lemma ticks_serial_witness :
  let es := [Start; Fire 0; Answered 0 (Maintained (Ret None)); Fire 1; Stop] in
  (length (armed (runtime_run demo_runtime es)) + length (running (runtime_run demo_runtime es)) ≤ 1)%nat.
Proof. apply (ticks_serial (VInt 60000)); [vm_compute; reflexivity|]. cbn. split_and!; done. Defined.

Lemma restart_overlaps_ticks_witness :
  length (running (runtime_run demo_runtime [Start; Fire 0; Stop; Start; Fire 1])) = 2%nat.
Proof. apply (restart_overlaps_ticks (VInt 60000)). vm_compute. reflexivity. Defined.

#[local] Existing Instances toy_dates toy_host.

Definition demo_generation : ShipOutDeliveryGeneration :=
  default (Generation "" HeldMode VUndef) (currentDelivery demo_accepted).

Lemma canary_permit_accepted_witness :
  validateDispatchOptions (dispatch_options demo_generation) DEFAULT_DELIVERY_SAFETY_POLICY = Ret tt.
Proof. apply (canary_permit_accepted demo_raw demo_accepted demo_generation); vm_compute; reflexivity. Defined.
