(* ===== verification/HttpIngest.v ===== *)
(** * HTTP delivery of evidence (storage/src/ingest-target.ts)

    The target that posts one outbox row as one request to an ingest endpoint and
    makes a result or a typed error of the answer, and the dispatcher that drains
    an outbox to it. The endpoint is reached through the host's [fetch], which acts
    on a world of its own and may reject; the answer's body is an arbitrary value,
    or no JSON at all. Clock and random ids are streams, as in [Dispatcher]. *)

From S2P Require Import Prelude Regex JsNum JsVal Dates JsonText Hash Event DeliverySafety Outbox OutboxFile Dispatcher.
From S2P Require GatewayProxy.

#[local] Open Scope Z_scope.

Definition DEFAULT_INGEST_PATH : string := "/api/ingest".
Definition DEFAULT_HTTP_INGEST_TIMEOUT_MS : Z := 10000.

Record IngestResult := Ingested { appended : num * num; tip_event : option string; tip_edge : option string }.
Definition EMPTY_RESULT : IngestResult := Ingested (num_of_Z 0, num_of_Z 0) None None.

(** ** Errors *)

Record IngestError := Ingest {
  error_name : string; error_message : string; error_status : Z; error_disposition : DeliveryDisposition;
  error_appended : option (num * num); error_circuitId : option string; retryAfterSeconds : option num;
}.

Definition error_retryable (e : IngestError) : bool := bool_decide (error_disposition e = retry).

Definition status_note (status : Z) : string := "(status " +:+ of_chars (num_to_chars (num_of_Z status)) +:+ ")".

Definition IngestRetryableError (status : Z) (appended : option (num * num)) : IngestError :=
  Ingest "IngestRetryableError" ("ingest is temporarily unavailable " +:+ status_note status) status retry appended None None.
Definition IngestConflictError (appended : option (num * num)) : IngestError :=
  Ingest "IngestConflictError" "ingest rejected the batch as an append conflict (status 409)" 409 reject appended None None.
Definition IngestClientError (status : Z) (appended : option (num * num)) : IngestError :=
  Ingest "IngestClientError" ("ingest rejected the batch " +:+ status_note status) status reject appended None None.
Definition IngestRejectedError (status : Z) (appended : option (num * num)) : IngestError :=
  Ingest "IngestRejectedError" ("ingest permanently rejected the batch " +:+ status_note status) status reject appended None None.
Definition IngestPausedError (status : Z) (appended : option (num * num)) (controls : option string * option num) : IngestError :=
  Ingest "IngestPausedError" ("ingest delivery is paused by an economic safety circuit " +:+ status_note status) status pause appended
    controls.1 controls.2.

(** What a [catch] receives: one of these errors, or anything else. *)
Definition caught_value : Type := IngestError + js_error.
Definition error_of (t : caught_value) : js_error :=
  match t with inl e => Some (error_name e, error_message e) | inr e => e end.

(** ** Reading an answer *)

Definition extractAppended (body : val) : option (num * num) :=
  if is_plain_object body && is_plain_object (vget_opt body "appended") then
    match vget_opt (vget_opt body "appended") "events", vget_opt (vget_opt body "appended") "edges" with
    | VNum events, VNum edges => Some (events, edges)
    | _, _ => None
    end
  else None.

Definition parseResult (body : val) : IngestResult :=
  let tips := if is_plain_object body && is_plain_object (vget_opt body "tips") then vget_opt body "tips" else VObj [] in
  let tip k := match vget_opt tips k with VStr s => Some s | _ => None end in
  Ingested (default (num_of_Z 0, num_of_Z 0) (extractAppended body)) (tip "event") (tip "edge").

Definition LEGACY_PAUSE_CODES : list string :=
  ["economic_safety_hold"; "monthly_event_quota_exceeded"; "operator_pause"; "provider_block"; "tenant_db_quota_blocked"].

Definition explicitDisposition (body : val) : option DeliveryDisposition :=
  if is_plain_object body then
    match vget_opt body "deliveryDisposition" with
    | VStr s => if String.eqb s "retry" then Some retry else if String.eqb s "pause" then Some pause
                else if String.eqb s "reject" then Some reject else None
    | _ => None
    end
  else None.

Definition extractDeliveryDisposition (body : val) (status : Z) : DeliveryDisposition :=
  match explicitDisposition body with
  | Some d => d
  | None => if is_plain_object body && includes LEGACY_PAUSE_CODES (vget_opt body "code") then pause
            else if 500 <=? status then retry else reject
  end.

(** [/^[A-Za-z0-9_-]{1,128}$/] *)
Definition PAUSE_CIRCUIT_PATTERN : re := rep 1 128 (Cls circuit_char).

Definition extractPauseControls (body : val) : option string * option num :=
  if is_plain_object body then
    (match vget_opt body "circuitId" with VStr s => if re_test PAUSE_CIRCUIT_PATTERN s then Some s else None | _ => None end,
     match vget_opt body "retryAfterSeconds" with
     | VNum n => if is_safe_integer n && match num_int n with Some z => 0 <? z | None => false end then Some n else None
     | _ => None
     end)
  else (None, None).

(** ** The target *)

Record HttpRequest := Request {
  req_url : string; req_authorization : string; req_delivery : string; req_body : string; req_timeoutMs : Z;
}.

(** [res_json] is what [response.json()] resolves to, where it does. *)
Record HttpResponse := Response { res_status : Z; res_ok : bool; res_json : option val }.

Class Fetch (W : Type) := fetchImpl : HttpRequest → W → W * (HttpResponse + js_error).

Definition requireNonEmpty (value : val) (field : string) : exc string :=
  match value with VStr s => if blank s then Throw (field +:+ " is required") else Ret s | _ => Throw (field +:+ " is required") end.

Record HttpIngestTargetOptions := IngestOptions {
  opt_baseUrl : val; opt_key : val; opt_path : option string; opt_timeoutMs : val; opt_deliverySafety : val;
}.

(** What [createHttpIngestTarget] closes over. *)
Record HttpIngestTarget := Target { target_url : string; target_key : string; target_timeoutMs : Z; target_safety : DeliverySafetyPolicy }.

Definition createHttpIngestTarget (options : HttpIngestTargetOptions) : exc HttpIngestTarget :=
  baseUrl ← requireNonEmpty (opt_baseUrl options) "baseUrl";
  key ← requireNonEmpty (opt_key options) "key";
  let path := default DEFAULT_INGEST_PATH (opt_path options) in
  let path := match path with String "/" _ => path | _ => "/" +:+ path end in
  timeoutMs ← requirePositiveInteger (nullish_or (opt_timeoutMs options) (VInt DEFAULT_HTTP_INGEST_TIMEOUT_MS)) "timeoutMs";
  deliverySafety ← parseDeliverySafetyPolicy (opt_deliverySafety options);
  Ret (Target (GatewayProxy.strip_slashes baseUrl +:+ path) key timeoutMs deliverySafety).

(** The result or the error of an answer. *)
Definition answer_verdict (response : HttpResponse) : IngestResult + IngestError :=
  let body := default VNull (res_json response) in
  let status := res_status response in
  if res_ok response then inl (parseResult body) else
  let appended := extractAppended body in
  match extractDeliveryDisposition body status with
  | pause => inr (IngestPausedError status appended (extractPauseControls body))
  | retry => inr (IngestRetryableError status appended)
  | reject =>
      inr (if bool_decide (explicitDisposition body = Some reject) then IngestRejectedError status appended
           else if status =? 409 then IngestConflictError appended
           else IngestClientError status appended)
  end.

Section Target.
Context {W : Type} `{Fetch W} (t : HttpIngestTarget).

Definition postBatchWithMode (events edges : list val) (delivery : string) (attemptTimeoutMs : Z) (w : W)
    : W * (IngestResult + caught_value) :=
  match events, edges with
  | [], [] => (w, inl EMPTY_RESULT)
  | _, _ =>
      let requestBody := default "" (json_stringify (VObj [("events", VArr events); ("edges", VArr edges)])) in
      if batchBytes (hard (target_safety t)) <? Z.of_nat (length (utf8 requestBody)) then (w, inr (inl (IngestClientError 413 None)))
      else
        match fetchImpl (Request (target_url t) ("Bearer " +:+ target_key t) delivery requestBody attemptTimeoutMs) w with
        | (w, inr error) => (w, inr (inr error))
        | (w, inl response) =>
            (w, match answer_verdict response with inl result => inl result | inr error => inr (inl error) end)
        end
  end.

Definition postBatch (events edges : list val) (w : W) : W * (IngestResult + caught_value) :=
  postBatchWithMode events edges "live-v1" (target_timeoutMs t) w.

Definition dispatchEntry (payload : val) (timeoutMs : val) (w : W) : W * (IngestResult + caught_value) :=
  match array_of (vget_opt payload "records"), array_of (vget_opt payload "edges") with
  | Some events, Some edges =>
      let attempt := if is_undef timeoutMs then Ret (target_timeoutMs t)
                     else ms ← requirePositiveInteger timeoutMs "timeoutMs"; Ret (Z.min (target_timeoutMs t) ms) in
      match attempt with
      | Throw msg => (w, inr (inr (Some ("TypeError", msg))))
      | Ret attemptTimeoutMs => postBatchWithMode events edges "replay-v1" attemptTimeoutMs w
      end
  | _, _ => (w, inr (inr (Some ("TypeError", "outbox payload must contain records and edges arrays"))))
  end.
End Target.

(** ** The dispatcher *)

(** What it uses of a target: [dispatchEntry] with a bound in milliseconds. *)
Class HttpTarget (W : Type) := http_dispatch : val → Z → W → W * (IngestResult + caught_value).

Definition http_target_of {W} `{Fetch W} (t : HttpIngestTarget) : HttpTarget W :=
  λ payload timeoutMs, dispatchEntry t payload (VInt timeoutMs).

Section HttpDispatcher.
Context `{Host} {W : Type} `{OutboxAdapter W} `{HttpTarget W}.
Context (env : environment) (policy : DeliverySafetyPolicy).

Definition count_verdict (d : DeliveryDisposition) (r : OutboxDispatchResult) : OutboxDispatchResult :=
  match d with
  | retry => count_failure r
  | pause => DispatchResult (count_dispatched r) (count_retried r) (count_paused r + 1) (count_rejected r) (count_bytes r)
  | reject => DispatchResult (count_dispatched r) (count_retried r) (count_paused r) (count_rejected r + 1) (count_bytes r)
  end.

(** The verdict and the circuit of what was caught. *)
Definition caught (error : caught_value) : DeliveryDisposition * option string :=
  match error with inl e => (error_disposition e, error_circuitId e) | inr _ => (retry, None) end.

(** The [try]: the request within the time that is left, and the settlement. *)
Definition http_attempt (permit now : val) (startedAt : Z) (entry : OutboxStoredEntry) (d : dispatcher W)
    : dispatcher W * (unit + caught_value) :=
  let '(d, t) := read_clock env d in
  let timeoutMs := Z.max 1 (permit_int permit "maxElapsedMs" - (t - startedAt)) in
  match http_dispatch (payload entry) timeoutMs (world d) with
  | (w, inr error) => (Dispatcher (ledger_of d) (readings d) w, inr error)
  | (w, inl _) =>
      let '(d, t) := read_clock env (Dispatcher (ledger_of d) (readings d) w) in
      match adapter_dispatched t (entry_id entry) (SettleOptions (leaseId entry) now) (world d) with
      | (w, Ret _) => (Dispatcher (ledger_of d) (readings d) w, inl tt)
      | (w, Throw msg) => (Dispatcher (ledger_of d) (readings d) w, inr (inr (Some ("TypeError", msg))))
      end
  end.

(** The [catch]: the row is settled by the verdict. *)
Definition http_failed (now : val) (entry : OutboxStoredEntry) (error : caught_value) (d : dispatcher W) : dispatcher W * exc unit :=
  let '(d, t) := read_clock env d in
  let '(w, failed) := adapter_failed t (uuid_at env (readings d)) (entry_id entry) (error_of error)
                        (FailOptions (leaseId entry) now VUndef None (Some (caught error).1) (caught error).2) (world d) in
  (Dispatcher (ledger_of d) (readings d) w, failed).

(** The attempt for a claimed row: [inl] goes on with the loop, [inr] ends the pass. *)
Definition http_deliver (permit now : val) (startedAt : Z) (entry : OutboxStoredEntry) (entryBytes recordedAt : Z)
    (result : OutboxDispatchResult) (d : dispatcher W) : dispatcher W * (OutboxDispatchResult + exc OutboxDispatchResult) :=
  let d := Dispatcher (record policy recordedAt entryBytes (ledger_of d)) (readings d) (world d) in
  let result := count_sent entryBytes result in
  match http_attempt permit now startedAt entry d with
  | (d, inl _) => (d, inl (count_success result))
  | (d, inr error) =>
      match http_failed now entry error d with
      | (d, Throw msg) => (d, inr (Throw msg))
      | (d, Ret _) =>
          let result := count_verdict (caught error).1 result in
          (d, if bool_decide ((caught error).1 = reject) then inl result else inr (Ret result))
      end
  end.

Fixpoint http_loop (options : val) (startedAt : Z) (entries : nat) (index : nat) (result : OutboxDispatchResult)
    (d : dispatcher W) : dispatcher W * exc OutboxDispatchResult :=
  match entries with
  | O => (d, Ret result)
  | S entries =>
      let permit := vget_opt options "permit" in
      match remaining_budget env policy permit startedAt result d with
      | (d, None) => (d, Ret result)
      | (d, Some remaining) =>
          match claim_one env policy options index remaining d with
          | (d, Throw msg) => (d, Throw msg)
          | (d, Ret None) => (d, Ret result)
          | (d, Ret (Some entry)) =>
              let '(d, t) := read_clock env d in
              match outboxPayloadByteLength (payload entry) with
              | Throw msg => (d, Throw msg)
              | Ret entryBytes =>
                  match http_deliver permit (vget_opt options "now") startedAt entry entryBytes t result d with
                  | (d, inl result) => http_loop options startedAt entries (S index) result d
                  | (d, inr ended) => (d, ended)
                  end
              end
          end
      end
  end.

Definition http_dispatchBatch (options : val) (d : dispatcher W) : dispatcher W * exc OutboxDispatchResult :=
  match validateDispatchOptions options policy with
  | Throw msg => (d, Throw msg)
  | Ret _ =>
      let '(d, startedAt) := read_clock env d in
      http_loop options startedAt (Z.to_nat (permit_int (vget_opt options "permit") "maxEntries")) 0 emptyDispatchResult d
  end.

Definition http_passes (batches : list val) (d : dispatcher W) : dispatcher W :=
  fold_left (λ d options, (http_dispatchBatch options d).1) batches d.
End HttpDispatcher.
