(* ===== verification/HttpIngestSafety.v ===== *)
(** * What HTTP delivery guarantees

    Whatever the endpoint answers: errors say nothing of its text, a row is settled
    only after its body was posted and accepted, requests are bounded, and the
    passes of a dispatcher stay within the rolling window. *)

From S2P Require Import Prelude Regex JsNum JsVal Dates JsonText Hash Event DeliverySafety Outbox OutboxFile.
From S2P Require Import OutboxHistory OutboxSafety Dispatcher DispatchBounds HttpIngest Delivery.

#[local] Open Scope Z_scope.

(** ** Answers *)

(** The messages the SDK writes itself. *)
Definition messages (status : Z) : list string :=
  ["ingest is temporarily unavailable " +:+ status_note status; "ingest rejected the batch as an append conflict (status 409)";
   "ingest rejected the batch " +:+ status_note status; "ingest permanently rejected the batch " +:+ status_note status;
   "ingest delivery is paused by an economic safety circuit " +:+ status_note status].

Lemma pause_circuit_sane body c : (extractPauseControls body).1 = Some c → sanitizeCircuitId (Some c) = Some c.
Proof.
  unfold extractPauseControls. destruct (is_plain_object body); [|done]. cbn [fst].
  destruct (vget_opt body "circuitId") as [| | | |s| | | |]; try done. destruct (re_test _ s) eqn:E; [|done]. intros [= <-].
  unfold sanitizeCircuitId. change CIRCUIT_PATTERN with PAUSE_CIRCUIT_PATTERN. by rewrite E.
Qed.

(** The fields of an answer that are read. *)
Definition answer_keys : list string := ["deliveryDisposition"; "code"; "circuitId"; "retryAfterSeconds"; "appended"; "tips"].

Lemma verdict_reads fs gs status ok :
  (∀ k, k ∈ answer_keys → obj_get k fs = obj_get k gs) →
  answer_verdict (Response status ok (Some (VObj fs))) = answer_verdict (Response status ok (Some (VObj gs))).
Proof.
  intros Hk. unfold answer_verdict. cbn [res_json default from_option res_ok res_status].
  assert (∀ k, k ∈ answer_keys → vget_opt (VObj fs) k = vget_opt (VObj gs) k) as Hv by (intros k Hin; cbn; by rewrite Hk).
  unfold parseResult, extractDeliveryDisposition, explicitDisposition, extractAppended, extractPauseControls. cbn [is_plain_object andb].
  rewrite !Hv by (unfold answer_keys; set_solver). done.
Qed.

(** Whatever an endpoint answers, its text does not get into the SDK's state: the
    error of an answer has one of the five messages the SDK writes for the status,
    the verdict is a function of the status and the disposition fields, a circuit
    is kept only with a pause and only in the form the outbox accepts, a delay only
    as a positive safe integer; and answers that agree in the six fields that are
    read are one answer. *)
Theorem verdict_sanitized :
  (∀ response e, answer_verdict response = inr e →
     let body := default VNull (res_json response) in
     error_message e ∈ messages (res_status response) ∧ error_status e = res_status response ∧
     error_disposition e = extractDeliveryDisposition body (res_status response) ∧
     (∀ c, error_circuitId e = Some c → error_disposition e = pause ∧ sanitizeCircuitId (Some c) = Some c) ∧
     (∀ n, retryAfterSeconds e = Some n → ∃ z, num_int n = Some z ∧ 0 < z <= max_safe_integer)) ∧
  (∀ fs gs status ok, (∀ k, k ∈ answer_keys → obj_get k fs = obj_get k gs) →
     answer_verdict (Response status ok (Some (VObj fs))) = answer_verdict (Response status ok (Some (VObj gs)))).
Proof.
  split; [|apply verdict_reads]. intros [status ok json] e E body. unfold answer_verdict in E. cbn [res_ok res_status res_json] in *. fold body in E.
  destruct ok; [done|]. unfold messages.
  destruct (extractDeliveryDisposition body status) eqn:Ed; cbn [error_status] in E.
  - injection E as <-. split_and!; try done. set_solver.
  - injection E as <-. split_and!; try done; [set_solver| |].
    + intros c Hc. split; [done|]. exact (pause_circuit_sane _ _ Hc).
    + intros n. cbn. unfold extractPauseControls. destruct (is_plain_object body); [|done]. cbn [snd].
      destruct (vget_opt body "retryAfterSeconds") as [| | |m| | | | |]; try done. destruct (_ && _) eqn:Eb; [|done]. intros [= <-].
      apply andb_true_iff in Eb as [Hs Hp]. unfold is_safe_integer in Hs. destruct (num_int m) as [z|] eqn:Ez; [|discriminate].
      exists z. apply Z.leb_le in Hs. apply Z.ltb_lt in Hp. unfold max_safe_integer in *. split; [done|lia].
  - injection E as <-. destruct (bool_decide _); [split_and!; try done; set_solver|].
    destruct (Z.eqb_spec status 409) as [->|]; split_and!; try done; set_solver.
Qed.

(** ** Requests *)

Definition exchange : Type := HttpRequest * (HttpResponse + js_error).

(** A network whose exchanges are noted. *)
Definition observed {W} `{Fetch W} : Fetch (W * list exchange) :=
  λ req wl, let '(w, r) := fetchImpl req wl.1 in ((w, wl.2 ++ [(req, r)]), r).

Definition body_of (payload : val) : string :=
  default "" (json_stringify (VObj [("events", VArr (members_of payload "records")); ("edges", VArr (members_of payload "edges"))])).

(** A request the target may make for a row. *)
Record request_ok (t : HttpIngestTarget) (req : HttpRequest) : Prop := {
  request_url : req_url req = target_url t;
  request_key : req_authorization req = "Bearer " +:+ target_key t;
  request_mode : req_delivery req = "replay-v1";
  request_size : Z.of_nat (length (utf8 (req_body req))) <= batchBytes (hard (target_safety t));
  request_time : 1 <= req_timeoutMs req <= target_timeoutMs t;
}.

(** The payload was posted, in a request of the target that was accepted, or it is
    empty and there is nothing to post. *)
Definition accepted {W} (t : HttpIngestTarget) (wl : W * list exchange) (payload : val) : Prop :=
  evidence_of payload = [] ∨
  ∃ req response, (req, inl response) ∈ wl.2 ∧ req_body req = body_of payload ∧ res_ok response = true ∧ request_ok t req.

Section Requests.
Context {W : Type} `{FW : Fetch W} (t : HttpIngestTarget).
Hypothesis finite_time : 1 <= target_timeoutMs t.

#[local] Instance noted_target : HttpTarget (W * list exchange) := @http_target_of _ observed t.

Lemma later_log (w w' : W) (l : list exchange) l' : later (accepted t) (w, l) (w', l ++ l').
Proof.
  intros p [Hp|(req & resp & Hin & Hrest)]; [by left|]. right. exists req, resp. split; [|done]. apply elem_of_app. by left.
Qed.

Lemma members_array p k xs : array_of (vget_opt p k) = Some xs → members_of p k = xs.
Proof. unfold members_of. by intros ->. Qed.

Lemma http_dispatch_accepted p ms (wl wl' : W * list exchange) r : 1 <= ms →
  http_dispatch p ms wl = (wl', r) → Forall (λ x, request_ok t x.1) wl.2 →
  Forall (λ x, request_ok t x.1) wl'.2 ∧ later (accepted t) wl wl' ∧ (∀ res, r = inl res → accepted t wl' p).
Proof using finite_time.
  intros Hms E Hall. unfold http_dispatch, noted_target, http_target_of, dispatchEntry in E. destruct wl as [w l].
  assert (∀ x : W * list exchange, later (accepted t) x x) as Hrefl by (intros x p'; done).
  destruct (array_of (vget_opt p "records")) as [events|] eqn:Er; [|injection E as <- <-; done].
  destruct (array_of (vget_opt p "edges")) as [edges|] eqn:Ee; [|injection E as <- <-; done].
  cbn [is_undef VInt] in E. destruct (requirePositiveInteger (VInt ms) "timeoutMs") as [z|msg] eqn:Ez; [|injection E as <- <-; done].
  assert (1 <= z) as Hz.
  { unfold requirePositiveInteger in Ez. destruct (safe_integer _) as [y|]; [|done]. destruct (Z.leb_spec y 0); [done|]. injection Ez as <-. lia. }
  cbn [mbind exc_mbind] in E. unfold postBatchWithMode in E.
  assert (evidence_of p = events ++ edges) as Hev by (unfold evidence_of; by rewrite (members_array _ _ _ Er), (members_array _ _ _ Ee)).
  assert (events = [] ∧ edges = [] ∨ ∃ req, 
    (if batchBytes (hard (target_safety t)) <? Z.of_nat (length (utf8 (body_of p))) then ((w, l), inr (inl (IngestClientError 413 None)))
     else match observed req (w, l) with
          | (w, inr error) => (w, inr (inr error))
          | (w, inl response) => (w, match answer_verdict response with inl result => inl result | inr error => inr (inl error) end)
          end) = (wl', r) ∧ req = Request (target_url t) ("Bearer " +:+ target_key t) "replay-v1" (body_of p) (Z.min (target_timeoutMs t) z)) as Hc.
  { assert (body_of p = default "" (json_stringify (VObj [("events", VArr events); ("edges", VArr edges)]))) as Hb
      by (unfold body_of; by rewrite (members_array _ _ _ Er), (members_array _ _ _ Ee)).
    rewrite Hb. destruct events, edges; [by left|right..]; eexists; (split; [exact E|reflexivity]). }
  destruct Hc as [[-> ->]|(req & E' & Hreq)].
  { injection E as <- <-. split; [done|]. split; [done|]. intros _ _. by left. }
  destruct (Z.ltb_spec (batchBytes (hard (target_safety t))) (Z.of_nat (length (utf8 (body_of p))))) as [_|Hsize]; [injection E' as <- <-; done|].
  assert (request_ok t req) as Hok by (subst req; split; try done; cbn; lia).
  unfold observed in E'. cbn [fst snd] in E'. destruct (fetchImpl req w) as [w1 [response|error]].
  - destruct (answer_verdict response) as [result|e] eqn:Ev; injection E' as <- <-; cbn [snd];
      (split; [apply Forall_app; split; [done|by apply Forall_singleton]|split; [by apply later_log|]]); intros res Hres; [|done].
    right. exists req, response. split; [apply elem_of_app; right; left|]. subst req. split; [done|]. split; [|done].
    unfold answer_verdict in Ev. destruct (res_ok response); [done|]. by destruct (extractDeliveryDisposition _ _).
  - injection E' as <- <-. cbn [snd]. split; [apply Forall_app; split; [done|by apply Forall_singleton]|]. split; [by apply later_log|done].
Qed.
End Requests.

(** ** Passes over the file outbox *)

(** The target beside the outbox file. *)
#[export] Instance file_http {T} `{HT : HttpTarget T} : HttpTarget (file_world T) :=
  λ p ms w, let '(s, r) := http_dispatch p ms (target_state w) in (FileWorld (outbox_file w) s, r).

Section Passes.
Context `{HH : Host} `{LL : Locale} {T : Type} `{HT : HttpTarget T} (has : T → val → Prop) (fine : T → Prop).
Hypothesis dispatch_has : ∀ p ms s s' r, 1 <= ms → http_dispatch p ms s = (s', r) → fine s →
  fine s' ∧ later has s s' ∧ (∀ res, r = inl res → has s' p).
Context (env : environment) (policy : DeliverySafetyPolicy).

(** The outbox is settled, and the target is fine. *)
Definition delivered (w : file_world T) : Prop := settled has w ∧ fine (target_state w).

Lemma claim_target now o (w w' : file_world T) r : adapter_claim now o w = (w', r) → target_state w' = target_state w.
Proof using. intros E. by apply on_file_ret in E as [(? & _ & ? & _)|[-> _]]. Qed.

Lemma mark_target now id o (w w' : file_world T) r : adapter_dispatched now id o w = (w', r) → target_state w' = target_state w.
Proof using. intros E. by apply on_file_ret in E as [(? & _ & ? & _)|[-> _]]. Qed.

Lemma failed_target now uuid id error o (w w' : file_world T) r : adapter_failed now uuid id error o w = (w', r) → target_state w' = target_state w.
Proof using. intros E. by apply on_file_ret in E as [(? & _ & ? & _)|[-> _]]. Qed.

Lemma http_attempt_delivered permit now startedAt entry (d : dispatcher (file_world T)) :
  delivered (world d) → entry ∈ outbox_file (world d) → delivered (world (http_attempt env permit now startedAt entry d).1).
Proof using dispatch_has.
  intros [Hs Hf] He. unfold http_attempt, read_clock. cbn [ledger_of readings world]. unfold http_dispatch at 1, file_http.
  destruct (http_dispatch _ _ (target_state (world d))) as [s1 r1] eqn:E1.
  destruct (dispatch_has _ _ _ _ _ (Z.le_max_l _ _) E1 Hf) as (F1 & L1 & H1). set (w1 := FileWorld _ s1).
  assert (settled has w1) as Hs1 by (by apply (target_settled has (world d))).
  destruct r1 as [result|error]; [|by split]. destruct (adapter_dispatched _ _ _ w1) as [w2 r2] eqn:E2.
  pose proof (mark_target _ _ _ _ _ _ E2) as Et. apply (mark_settled has) in E2; [|done|done|by eapply H1].
  by destruct r2; (split; [exact E2|cbn [world fst]; by rewrite Et]).
Qed.

Lemma http_deliver_delivered permit now startedAt entry bytes at_ result (d : dispatcher (file_world T)) :
  delivered (world d) → entry ∈ outbox_file (world d) →
  delivered (world (http_deliver env policy permit now startedAt entry bytes at_ result d).1).
Proof using dispatch_has.
  intros Hd He. unfold http_deliver. set (d0 := Dispatcher _ _ _).
  pose proof (http_attempt_delivered permit now startedAt entry d0 Hd He) as H1.
  destruct (http_attempt _ _ _ _ _ d0) as [d1 [[]|error]]; [done|]. cbn [fst] in H1. destruct H1 as [Hs Hf].
  unfold http_failed, read_clock. cbn [ledger_of readings world]. destruct (adapter_failed _ _ _ _ _ (world d1)) as [w2 r2] eqn:E2.
  pose proof (failed_target _ _ _ _ _ _ _ _ E2) as Et. apply (failed_settled has) in E2; [|done].
  assert (delivered w2) as H2 by (split; [done|by rewrite Et]). destruct r2; done.
Qed.

Lemma http_loop_delivered options startedAt entries : ∀ index result (d : dispatcher (file_world T)),
  delivered (world d) → delivered (world (http_loop env policy options startedAt entries index result d).1).
Proof using dispatch_has.
  induction entries as [|entries IH]; intros index result d Hw; cbn [http_loop]; [done|].
  pose proof (remaining_budget_world env policy (vget_opt options "permit") startedAt result d) as E1.
  destruct (remaining_budget _ _ _ _ _ d) as [d1 [remaining|]]; cbn [fst] in E1; [|by rewrite <- E1 in Hw].
  rewrite <- E1 in Hw. clear E1. destruct Hw as [Hs Hf]. unfold claim_one, read_clock. cbn [ledger_of readings world].
  destruct (dispatchLeaseId _ _ _) as [lease|msg]; [|done].
  destruct (adapter_claim _ _ (world d1)) as [w2 r2] eqn:E2. pose proof (claim_target _ _ _ _ _ E2) as Et.
  apply (claim_settled has) in E2 as [H2 Hst]; [|done]. assert (delivered w2) as Hd2 by (split; [done|by rewrite Et]).
  destruct r2 as [[|entry rows]|msg]; cbn [mbind exc_mbind head]; [done| |done].
  destruct (outboxPayloadByteLength _) as [bytes|msg]; [|done].
  match goal with |- context [http_deliver _ _ ?p ?n ?st _ _ ?a _ ?d0] =>
    pose proof (http_deliver_delivered p n st entry bytes a result d0 Hd2 (Hst _ eq_refl entry ltac:(by left))) as H3;
    destruct (http_deliver _ _ p n st entry bytes a result d0) as [d3 [res|res]] end; [by apply IH|done].
Qed.

Lemma http_passes_delivered batches : ∀ d : dispatcher (file_world T),
  delivered (world d) → delivered (world (http_passes env policy batches d)).
Proof using dispatch_has.
  unfold http_passes. induction batches as [|options batches IH]; intros d Hd; cbn [fold_left]; [done|]. apply IH.
  unfold http_dispatchBatch. destruct (validateDispatchOptions options policy); [|done].
  unfold read_clock. by apply http_loop_delivered.
Qed.
End Passes.

Lemma created_timeout options t : createHttpIngestTarget options = Ret t → 1 <= target_timeoutMs t.
Proof.
  unfold createHttpIngestTarget. intros E. apply bind_ret in E as (b & _ & E). apply bind_ret in E as (k & _ & E).
  cbn zeta in E. apply bind_ret in E as (ms & Hms & E). apply bind_ret in E as (p & _ & [= <-]). cbn [target_timeoutMs].
  unfold requirePositiveInteger in Hms. destruct (safe_integer _) as [y|]; [|done]. destruct (Z.leb_spec y 0); [done|]. injection Hms as <-. lia.
Qed.

(** C31. The HTTP dispatcher settles nothing that was not accepted: over the file
    outbox, whatever passes run and whatever the endpoint answers, a row is marked
    as dispatched only when its events and edges were posted in one request of the
    target that was answered as ok, or it has none; and every request of every pass
    goes to the configured address with the configured key, has at most the bytes
    of the policy, and is bounded in time by the target's timeout. *)
Theorem http_settled_after_ok `{Host} `{Locale} {W} `{Fetch W} options t env policy batches
    (d : dispatcher (file_world (W * list exchange))) :
  createHttpIngestTarget options = Ret t →
  settled (accepted t) (world d) → Forall (λ x, request_ok t x.1) (target_state (world d)).2 →
  let target : HttpTarget (W * list exchange) := @http_target_of _ observed t in
  let w' := world (http_passes env policy batches d) in
  (∀ e, e ∈ outbox_file w' → status e = dispatched → accepted t (target_state w') (payload e)) ∧
  Forall (λ x, request_ok t x.1) (target_state w').2.
Proof.
  intros Ht Hs Hl target w'.
  destruct (http_passes_delivered (accepted t) (λ wl, Forall (λ x, request_ok t x.1) wl.2)
    (λ p ms s s' r Hms E, http_dispatch_accepted t (created_timeout _ _ Ht) p ms s s' r Hms E) env policy batches d (conj Hs Hl)) as [Hs' Hl'].
  split; [apply Hs'|exact Hl'].
Qed.

(** ** The rolling window *)

Section Window.
Context `{HH : Host} {W : Type} {AW : OutboxAdapter W} {AL : OutboxAdapterLaws W} `{HT : HttpTarget W}.
Context (env : environment) (policy : DeliverySafetyPolicy).
Hypothesis clock_forward : ∀ i, clock_at env i <= clock_at env (S i).
Hypothesis policy_safe : safe_policy policy.

(** The ledger after an attempt, and a number of readings after it. *)
Lemma recorded_in_order maxBytes remaining t result (d : dispatcher W) bytes (d' : dispatcher W) :
  room env policy maxBytes remaining t result d → 0 <= bytes <= remaining →
  ledger_of d' = record policy (clock_at env (readings d)) bytes (ledger_of d) → (readings d < readings d')%nat →
  in_order env policy d'.
Proof using clock_forward policy_safe.
  intros [L C Hq Hw Hp] Hb El Hr. exists (clock_at env (readings d)). split.
  - assert (∀ k, clock_at env (readings d) <= clock_at env (k + readings d)) as Hk.
    { induction k as [|k IH]; [done|]. specialize (clock_forward (k + readings d)%nat). cbn [Nat.add]. lia. }
    specialize (Hk (readings d' - readings d)%nat). by rewrite Nat.sub_add in Hk by lia.
  - rewrite El. destruct (prune_shrinks policy _ _ _ C L) as (_ & N & T & _).
    apply ledger_record; [by apply window_positive|by eapply ledger_later|lia|lia|lia].
Qed.

Lemma http_deliver_ledger permit now startedAt entry bytes at_ result (d : dispatcher W) :
  let d' := (http_deliver env policy permit now startedAt entry bytes at_ result d).1 in
  ledger_of d' = record policy at_ bytes (ledger_of d) ∧ (readings d <= readings d')%nat.
Proof using.
  unfold http_deliver, http_attempt, http_failed, read_clock. cbn [ledger_of readings world].
  destruct (http_dispatch _ _ _) as [w1 [res|error]].
  - cbn [ledger_of readings world]. destruct (adapter_dispatched _ _ _ _) as [w2 [[]|msg]]; cbn [ledger_of readings world fst]; [split; [done|lia]|].
    destruct (adapter_failed _ _ _ _ _ _) as [w3 [[]|msg']]; cbn; split; (done || lia).
  - cbn [ledger_of readings world]. destruct (adapter_failed _ _ _ _ _ _) as [w3 [[]|msg']]; cbn; split; (done || lia).
Qed.

Lemma http_loop_in_order options startedAt entries : ∀ index result (d : dispatcher W),
  in_order env policy d → in_order env policy (http_loop env policy options startedAt entries index result d).1.
Proof using clock_forward policy_safe AL.
  induction entries as [|entries IH]; intros index result d Hd; cbn [http_loop]; [done|].
  pose proof (remaining_budget_ok env policy clock_forward (vget_opt options "permit") startedAt result d Hd) as HB.
  destruct (remaining_budget _ _ _ _ _ d) as [d1 [remaining|]]; destruct HB as (H1 & S1 & HR); [|done].
  destruct (HR remaining eq_refl) as [t R1]. pose proof (claim_one_ok env policy clock_forward policy_safe options index remaining d1 H1) as HC.
  destruct (claim_one _ _ _ _ _ d1) as [d2 claimed]. destruct HC as (E2 & C2 & HF).
  assert (room env policy (permit_int (vget_opt options "permit") "maxBytes") remaining t result d2) as R2
    by (destruct R1; split; rewrite ?E2; solve [done|lia]).
  assert (in_order env policy d2) as H2 by (exists t; split; [apply R2|apply R2]).
  destruct claimed as [[entry|]|msg]; [|done..]. unfold read_clock.
  destruct (outboxPayloadByteLength (payload entry)) as [bytes|msg] eqn:Eb.
  2:{ exists t. split; [|apply R2]. cbn [readings fst]. etrans; [apply R2|apply clock_forward]. }
  assert (0 <= bytes <= remaining) as Hfit by (split; [by eapply byte_length_nonneg|by eapply HF; [done|apply R2|]]).
  match goal with |- context [http_deliver _ _ ?p ?n ?st _ _ ?a ?r ?d0] =>
    destruct (http_deliver_ledger p n st entry bytes a r d0) as [L3 N3]; 
    assert (in_order env policy (http_deliver env policy p n st entry bytes a r d0).1) as H3
      by (eapply recorded_in_order; [exact R2|exact Hfit|exact L3|cbn [readings] in N3; lia]);
    destruct (http_deliver _ _ p n st entry bytes a r d0) as [d3 [res|res]] end; [by apply IH|done].
Qed.

Lemma http_passes_in_order batches : ∀ d : dispatcher W, in_order env policy d → in_order env policy (http_passes env policy batches d).
Proof using clock_forward policy_safe AL.
  unfold http_passes. induction batches as [|options batches IH]; intros d Hd; cbn [fold_left]; [done|]. apply IH.
  unfold http_dispatchBatch. destruct (validateDispatchOptions options policy) as [[]|msg]; [|done]. unfold read_clock.
  apply http_loop_in_order. eapply in_order_at; [|by apply in_order_read]. apply clock_forward.
Qed.
End Window.

(** The load on an endpoint is bounded: whatever permits the passes of an HTTP
    dispatcher have, whatever the outbox holds and the endpoint answers, in every
    window of the policy's length (the clock not going back) it makes at most
    [rollingRequests] attempts with at most [rollingSendBytes] bytes. *)
Theorem http_window_never_exceeded `{Host} {W} {AW : OutboxAdapter W} {AL : OutboxAdapterLaws W} `{HttpTarget W}
    env v policy batches (w : W) t :
  (∀ i, clock_at env i <= clock_at env (S i)) → parseDeliverySafetyPolicy v = Ret policy →
  let made := sent (ledger_of (http_passes env policy batches (Dispatcher createRollingWindowLedger 0 w))) in
  attempts_in policy t made <= rollingRequests (hard policy) ∧ bytes_in policy t made <= rollingSendBytes (hard policy).
Proof.
  intros Hc Hp made. pose proof (parsed_policy_safe _ _ Hp) as Hs.
  assert (in_order env policy (Dispatcher createRollingWindowLedger 0 w)) as Hstart by by apply start_in_order.
  destruct (http_passes_in_order env policy Hc Hs batches _ Hstart) as (now & _ & [_ _ _ Ha Hb]). by split.
Qed.

(** ** Witnesses *)

#[local] Existing Instance demo_dates.
#[local] Existing Instance demo_host.
#[local] Existing Instance demo_locale.

(** A hold with more text than the SDK keeps. *)
Definition demo_hold : HttpResponse :=
  Response 429 false (Some (VObj [("deliveryDisposition", VStr "pause"); ("circuitId", VStr "c1"); ("retryAfterSeconds", VInt 60);
                                  ("message", VStr "internal: host db-7 is over quota")])).

Lemma verdict_sanitized_witness :
  ∃ e, answer_verdict demo_hold = inr e ∧ error_message e ∈ messages 429 ∧ error_circuitId e = Some "c1" ∧
    sanitizeCircuitId (Some "c1") = Some "c1" ∧ (∃ z, Some (JsNum.num_of_Z 60) = Some (JsNum.num_of_Z z) ∧ 0 < z <= max_safe_integer).
Proof.
  destruct (answer_verdict demo_hold) as [r|e] eqn:E; [discriminate|]. exists e.
  destruct (proj1 verdict_sanitized demo_hold e E) as (H1 & _ & _ & H4 & _). split; [reflexivity|]. split; [exact H1|].
  assert (error_circuitId e = Some "c1") as Hc by (injection E as <-; reflexivity).
  split; [exact Hc|]. split; [apply (H4 "c1" Hc)|]. exists 60. split; [reflexivity|unfold max_safe_integer; lia].
Defined.

(** An endpoint that counts the requests and accepts them. *)
#[local] Instance demo_fetch : Fetch nat := λ _ n, (S n, inl (Response 200 true (Some (VObj [])))).

Definition demo_ingest : HttpIngestTargetOptions := IngestOptions (VStr "https://x.io/") (VStr "vrt_k") None VUndef VUndef.
Definition demo_http_target : HttpIngestTarget := Target "https://x.io/api/ingest" "vrt_k" 10000 DEFAULT_DELIVERY_SAFETY_POLICY.

Definition demo_http_start : dispatcher (file_world (nat * list exchange)) :=
  Dispatcher createRollingWindowLedger 0 (FileWorld [demo_evidence_row] (0%nat, [])).

#[local] Instance demo_http : HttpTarget (nat * list exchange) := @http_target_of _ observed demo_http_target.

Abbreviation demo_http_end :=
  (world (http_passes demo_environment DEFAULT_DELIVERY_SAFETY_POLICY [demo_options] demo_http_start)).

Lemma http_settled_after_ok_witness :
  accepted demo_http_target (target_state demo_http_end) (payload demo_evidence_row) ∧
  Forall (λ x, request_ok demo_http_target x.1) (target_state demo_http_end).2.
Proof.
  destruct (http_settled_after_ok demo_ingest demo_http_target demo_environment DEFAULT_DELIVERY_SAFETY_POLICY [demo_options] demo_http_start)
    as [H1 H2].
  - reflexivity.
  - split; [apply NoDup_singleton|]. intros e [->|He]%elem_of_cons; [discriminate|by apply elem_of_nil in He].
  - constructor.
  - split; [|exact H2].
    apply (H1 (settle "1970-01-01T00:00:00.007Z" (lease_entry "1970-01-01T00:00:00.004Z" "" "1970-01-01T00:00:01.004Z" demo_evidence_row)));
      [vm_compute; left|reflexivity].
Defined.

Lemma http_window_never_exceeded_witness :
  let made := sent (ledger_of (http_passes demo_environment DEFAULT_DELIVERY_SAFETY_POLICY [demo_options; demo_options] demo_http_start)) in
  attempts_in DEFAULT_DELIVERY_SAFETY_POLICY 0 made <= 30 ∧ bytes_in DEFAULT_DELIVERY_SAFETY_POLICY 0 made <= 2 * 1024 * 1024.
Proof.
  apply (http_window_never_exceeded demo_environment VUndef DEFAULT_DELIVERY_SAFETY_POLICY [demo_options; demo_options]
    (FileWorld [demo_evidence_row] (0%nat, [] : list exchange)) 0); [intros i; cbn [clock_at demo_environment]; lia|reflexivity].
Defined.
